(* ===== verification/_CoqProject ===== *)
-Q . S2P
Prelude.v
Names.v
BTree.v
Types.v
Representations.v
TypeFacts.v
Subtyping.v
Supertypes.v
Values.v
Hex.v
Serialization.v
Codec.v
Decode.v
C32.v
C32Facts.v
RollbackWrapper.v
BackingStore.v
Costs.v
CostFacts.v
ClarityDatabase.v
Keys.v
DatabaseFacts.v
Instances.v
AssetMap.v
Natives.v
TypeParser.v
Contexts.v
ContextFacts.v
Interpreter.v
Runs.v
InterpreterFacts.v
Define.v
Ast.v
DefinitionSorter.v
SorterFacts.v
AstFacts.v
Regex.v
Parser.v
LexerFacts.v
Display.v
BuildAst.v
AssetFacts.v
StxFacts.v
Launches.v
TransactionFacts.v
Ledger.v
StacksTypes.v
Merkle.v
Uint.v
NetCodec.v
TransactionCodec.v
ClarityVariable.v
Signatures.v
SignatureFacts.v
BlockCodec.v
BlockCodecFacts.v
BurnOps.v
BurnDB.v
BurnChecks.v
Sortition.v
BurnChain.v
BurnSteps.v
BurnForks.v
BurnFacts.v
PostConditions.v
ClarityConnection.v
ChainTransactions.v
ChainAuth.v
ConnectionFacts.v
AccountFacts.v
ChainFacts.v
MinerRewards.v
ChainBlocks.v
BlockFacts.v
Examples.v
ChainExamples.v
SignatureExamples.v
BurnExamples.v
AstExamples.v
