(* ===== verification/Prelude.v ===== *)
(** Verification of the Clarity virtual machine and the chain state of
    blockstack-core.

    The repository is a Stacks blockchain node in Rust.  This development is
    about the part of it that all nodes must agree on bit by bit: the Clarity
    language's parser, types and values, their consensus encoding, the transactional
    database that contracts write to, the contexts in which contract code runs,
    the interpreter that runs it, the transactions of the chain that call it,
    with their encoding and signatures, the blocks of the chain, and the burn chain
    that elects their miners.  The definitions are translated from the source,
    function by function; the theorems are about these definitions.

    * The program and the files of this library

    Types and values (src/vm/types, src/vm/representations.rs)
    - [Prelude]: outcomes of fallible code, machine integers, shared lemmas.
    - [Names]: UTF-8 strings, [ClarityName] and [ContractName] with the regular
      expressions of the macro guarded_string!, principals and identifiers.
    - [BTree]: BTreeMap keyed by names, as a list sorted by key.
    - [Types]: [TypeSignature] with depth, sizes and constructors
      (signatures.rs), [Value] (mod.rs), and the error types (errors.rs,
      analysis/errors.rs).  [admits_type] and [least_supertype] are here.
    - [Representations]: expressions, defined functions and contracts as data.
    - [TypeFacts], [Subtyping], [Supertypes]: the invariant [wf_type] of types
      and the order of types.
    - [Values]: [type_of], the constructors of values, the invariant
      [wf_value], equality.
    Encodings
    - [Hex]: src/util/hash.rs, src/util/pair.rs.
    - [Serialization]: src/vm/types/serialization.rs over the bounded reader of
      src/util/retry.rs.  [Codec] has the round trips and [Decode] what holds of
      arbitrary input.
    - [C32], [C32Facts]: src/address/c32.rs and the text of principals.
    The database (src/vm/database)
    - [RollbackWrapper]: key_value_wrapper.rs, the log of pending edits, and the
      stack of logs it implements.
    - [BackingStore]: the store in memory (marf.rs, sqlite.rs) and contract
      commitments.
    - [ClarityDatabase]: clarity_db.rs, structures.rs; [Keys] and
      [DatabaseFacts] are about it, [Instances] gives codecs for its records and
      runs it.
    Execution
    - [Costs], [CostFacts]: src/vm/costs.
    - [AssetMap]: [AssetMap] of src/vm/contexts.rs.
    - [Contexts], [ContextFacts]: [GlobalContext], [OwnedEnvironment],
      [LocalContext] and [CallStack] of the same file, with the events of
      src/chainstate/stacks/events.rs.
    The interpreter
    - [Natives]: the native functions on evaluated arguments
      (src/vm/functions/arithmetic.rs, boolean.rs, options.rs, mod.rs).
    - [TypeParser]: types from expressions (the parsers of signatures.rs).
    - [Interpreter]: [eval] and [apply] of src/vm/mod.rs, src/vm/callables.rs,
      src/vm/variables.rs, and the special functions of src/vm/functions
      (control, tuples, options, sequences, database, assets, contract calls).
    - [Define]: src/vm/functions/define.rs, [eval_all], the launch of a contract
      (src/vm/contracts.rs) and the transactions of [OwnedEnvironment].
    - [Runs]: rules for what every evaluation satisfies, one for each operation,
      from which a property of whole programs follows once it is shown of the
      primitive steps.  [InterpreterFacts], [AssetFacts], [StxFacts], [Launches]
      and [TransactionFacts] use them; [Examples] launches and calls a
      contract.
    The parser and the passes over syntax trees (src/vm/ast)
    - [Ast]: expressions before the expansion, the tree of a contract (types.rs),
      and the passes for identifiers, depth, traits and sugar
      (expression_identifier, stack_depth_checker.rs, traits_resolver,
      sugar_expander); [AstFacts] is about them.
    - [DefinitionSorter], [SorterFacts]: definition_sorter, the order of the
      definitions of a contract.
    - [Regex]: patterns and their matches, the interface of the regex library.
    - [Parser], [LexerFacts]: parser/mod.rs, from text to tokens to expressions.
    - [Display]: the text of values and expressions.
    - [BuildAst]: [build_ast] of mod.rs, the parser and the passes in their order.
    - [ClarityVariable]: the lexer as the codec of contract calls uses it
      (src/util/strings.rs); [AstExamples] parses the texts of the unit tests.
    The chain (src/chainstate/stacks)
    - [StacksTypes]: transactions with their authorizations, payloads and
      post-conditions, blocks and microblocks (mod.rs, auth.rs, transaction.rs).
    - [NetCodec]: the consensus codec of messages (src/net/codec.rs, net/mod.rs,
      src/util/strings.rs) with the theory of its round trips.
    - [TransactionCodec]: the codecs of transactions (auth.rs, transaction.rs).
    - [Signatures], [SignatureFacts]: the addresses of accounts
      (src/address/mod.rs, over the script builder of src/deps/bitcoin), spending
      conditions, signing and verifying (auth.rs, transaction.rs,
      src/util/secp256k1.rs).
    - [Merkle]: the Merkle tree of src/util/hash.rs.
    - [BlockCodec], [BlockCodecFacts]: encoding, hashes, static checks and
      signatures of blocks and microblocks (block.rs).
    - [PostConditions]: the check of post-conditions (db/transactions.rs).
    - [ClarityConnection]: the connection of a transaction to the store of its
      block (src/vm/clarity.rs).
    - [ChainTransactions]: the processing of a transaction (db/transactions.rs,
      db/accounts.rs); [ChainAuth] puts the verification of signatures in it.
    - [MinerRewards]: the schedule of payments to miners (db/accounts.rs).
    - [ChainBlocks], [BlockFacts]: the processing of a block (db/blocks.rs,
      db/mod.rs, db/headers.rs).
    - [Ledger], [ConnectionFacts], [AccountFacts], [ChainFacts]: what calls and
      launches do to nonces and balances, what the steps on a connection do, and
      the theorems on transactions; [ChainExamples] processes some, and
      [SignatureExamples] signs, verifies and reads some.
    The burn chain (src/chainstate/burn, src/burnchains)
    - [Uint]: the big integers of src/util/uint.rs.
    - [BurnOps]: Bitcoin transactions, the operations read from them
      (chainstate/burn/operations), snapshots and hashes (chainstate/burn/mod.rs).
    - [BurnDB]: the database of db/burndb.rs as its tables.
    - [BurnChecks]: the configuration of a burn chain and the checks of operations.
    - [Sortition]: burn distributions (distribution.rs) and sortition
      (sortition.rs).
    - [BurnChain]: the processing of a burn block (burnchains/burnchain.rs).
    - [BurnSteps]: what its steps return; [BurnForks]: histories of forks as an
      abstract machine, and an index in memory; [BurnFacts]: the database refines
      that machine; [BurnExamples] runs some blocks.

    The parts interact as in the code: a context owns a database, which owns an
    edit log over a store; the log holds the encodings of values under keys made
    of names and the text of principals; types decide what may be stored and
    drive the decoding.  The interpreter runs on a context and a call stack
    ([Exec]), charges every step to the cost tracker of the context, and opens a
    nested context for each call between contracts.  A transaction of the chain
    runs on a connection, which keeps the edit log of the transaction between
    the steps ([Tx]); its calls and launches get a context over that log.  A
    block runs its transactions one after the other on one store ([BlockTx]).
    Codecs are records of a writer and a reader ([StacksMessageCodec]); the hash
    of what a codec writes is what signatures and blocks refer to.  A burn block
    is processed onto the snapshot of its parent: [process_block] takes the
    database to the next one.

    * How the code is modelled

    A function that may fail is a function to [Res E A]: [Ok], [Err e], or
    [Panic] for unwrap, expect, assert! and panic!, so that a theorem can say
    that code does not panic.  Integers are [Z]; arithmetic that Rust checks is
    [checked_add] and the like, arithmetic it does not check (a release build)
    is [wrap]ped to its width.  A BTreeMap is a sorted list, a HashMap a [gmap].
    Code that changes its receiver returns the new state; where an error leaves
    changes behind the state comes with the error (the cost tracker, contexts),
    and where it does not the error comes alone (the database methods).

    Code that is not in the repository is a class with the laws that the program
    relies on: the hash functions ([Sha256], [Sha512Trunc256], [NativeHashes]),
    [str::to_uppercase] ([ToUppercase]), JSON ([ClaritySerializable], which
    reads back what it wrote), the headers of blocks ([HeadersDB]) and the
    backing store ([ClarityBackingStore], whose law [BackingStoreLaws] is
    proved for the store in memory), the elliptic curve ([Secp256k1], whose law
    [Secp256k1Laws] is that a signature recovers the key that made it, among
    others), verifiable random functions ([VRF]), the regex library ([RegexEngine],
    whose law [RegexLaws] is that it returns the match that a backtracking search
    finds first) and the sizes of values in memory
    ([MemSizes]).  Parts of the program itself are interfaces for now: the
    static analysis of a contract, together with the parser that runs before it
    ([Analyzer]), the index of headers and the root hash of the
    MARF (arguments of [append_block]), and the fork-aware index of the burn chain
    on a MARF ([ForkIndex], with its laws [ForkIndexLaws]).  [Verifier] separates the processing of
    transactions from their signatures, and [ChainAuth] gives its instance; [Lexer]
    separates the codec of transactions from the parser, and [ClarityVariable] gives
    its instance.
    Concrete instances are in [C32Facts], [BackingStore], [Instances], [Merkle],
    [BurnForks], [Regex], [Examples], [ChainExamples], [SignatureExamples],
    [BurnExamples] and [AstExamples]; the witnesses use them.
    Theorems on hashes speak of a [collision] between the inputs that were hashed
    for the one and for the other side, never of the existence of one.

    * What the theorems show

    - Types: [admits_type] is a preorder, [least_supertype] computes least upper
      bounds of it, the constructors accept exactly the types that satisfy the
      invariant ([Supertypes]).
    - Encoding: typed and untyped round trips, injectivity, and soundness of
      decoding on arbitrary bytes ([Codec], [Decode]).
    - Text: base 32 is a bijection, and principals are read back from their text
      ([C32Facts]).
    - Edit log: it refines a stack of logs, rolling back restores it exactly and
      committing publishes what was readable ([RollbackWrapper]).
    - Database: keys do not clash ([Keys]); variables, maps, tokens, supplies
      and accounts are read back as written and nothing else changes
      ([DatabaseFacts]).
    - Costs: formulas, limits, absence of overflow in the table, memory brackets
      ([CostFacts]).
    - Asset maps: merging and tabulating ([AssetMap]).
    - Contexts: what [begin], [commit] and [roll_back] do around code that uses
      the context through its operations only, that is, which [touches] it
      ([ContextFacts]).
    - Evaluation: every program ends; it leaves the cost tracker within
      its limit, and the open contexts and the call stack as it should
      ([InterpreterFacts]); [pow] and division are exact ([Natives]).
    - Calls, launches and transactions: they take effect as a whole or not at all,
      in the keys and in the metadata of contracts, whatever the contracts do; a
      launch stores the contract that its definitions made ([InterpreterFacts],
      [TransactionFacts]).  What a store without an open log returns for metadata
      is not determined by its laws, which is why [transaction_outcome] speaks of
      the log that is committed to it.
    - STX: a transfer moves what it says ([AssetFacts]), and a transaction cannot
      lower the balance of a user that did not send it ([TransactionFacts]).
    - Syntax trees: the token parser accepts exactly a grammar ([Parser]); what is
      printed parses back ([Display]; [printable] says of what, an empty buffer for
      example does not); the sorter decides whether the definitions
      of a contract depend on each other in a cycle and otherwise puts each after
      those that it depends on ([SorterFacts]; [mentions] says where it looks for
      dependencies); names of traits are resolved, outside of tuple literals
      ([AstFacts]); building the tree keeps every expression and panics on one kind
      of text only ([BuildAst]).
    - Transactions of the chain: a refused one changes nothing, none is accepted
      twice, nobody else pays, transfers are exact in balances and nonces, and
      post-conditions are enforced on keys and metadata, but for the analysis of a
      launch, which is stored in any case ([ChainFacts]); the check of post-conditions is exact
      ([PostConditions]); what is accepted is signed by its accounts ([ChainAuth]).
    - Encoding and signatures: transactions are read back as they were written
      ([TransactionCodec]); what a signer makes verifies, and the script of an
      account determines it ([SignatureFacts]).
    - Blocks: the reader accepts valid blocks only, the hash of a block binds its
      transactions ([BlockCodecFacts]), by the root of their Merkle tree
      ([Merkle]); an appended block is sound ([BlockFacts]), and a coinbase is
      shared out once ([MinerRewards]).
    - Big integers are the naturals modulo their width, in all their operations and
      conversions ([Uint]).
    - The burn chain: sortition is fair ([Sortition]); the database implements the
      fork machine, so that no Stacks block wins twice and no leader key is used
      twice on a fork, and blocks with commits have a winner ([BurnFacts]).
    - Where the code does not do what its comments or its callers expect, a
      theorem states what it does: [least_supertype_panics],
      [deep_values_unreadable], [repeated_name_accepted],
      [truncated_input_panics], [non_response_leaves_context_open],
      [unaddressable_principals_collide], [unaddressable_accounts_shared],
      [negative_buffer_length], [cost_error_masked],
      [missing_contract_leaves_context_open], [trait_argument_hidden],
      [aborted_burn_reported], [relaunch_panics], [unwritable_name_panics],
      [signature_malleable], [repeated_address_overpays],
      [same_key_commits_panic], [tuple_values_unseen], [tuple_depth_unseen],
      [build_ast_panics], [unread_displays], [name_key_unseen].

    * Bounds and fuel

    Decoding recurses on the number of levels left, which the code itself limits
    to 16 ([MAX_LEVELS]); the repeated reads of a reader are bounded by the
    number of bytes asked for, each of which shortens the rest; the digits of a
    number are produced with its bit length as fuel; UTF-8 scanning is bounded by
    the length of the string.  The interpreter has [FUEL], one unit for each
    level of the call stack and one more: [apply] refuses to go beyond
    [MAX_CALL_STACK_DEPTH], and [evaluation_terminates] shows that more fuel
    changes nothing.  The rows of a Merkle tree are at most as many as its leaves
    ([grow]).  The loop over the previous consensus hashes has 64 rounds, one for
    each bit of a height; [prev_hashes_total] shows that it ends before.  The lexer
    has as much fuel as its text has bytes, since every token takes at least one
    ([lex_loop_no_panic]); a repetition of a pattern likewise; the passes over
    syntax trees recurse on their depth; the walk over the graph of definitions has
    [walk_fuel], two more than its nodes, since a node is entered once
    ([get_sorted_ok]).

    * What is not modelled

    The points of the curve in a proof of a verifiable random function: its bytes
    are kept as they were read, where the code decompresses and compresses them;
    the order in which a HashSet is iterated ([get_cycling_dependencies] takes that
    of [elements]);
    the static analysis; the texts of diagnostics, and the spans of expressions
    after their expansion and stack traces, which the code keeps in its developer mode only; the MARF and everything over SQLite
    files, among it the queue of staging blocks and the fork choice; the assembly
    of blocks; the parsers of Bitcoin blocks and the indexing of the burn chain, the
    messages and state machines of the peer network, the node and the vendored
    libraries but for the script builder. *)
From stdpp Require Import base list gmap strings numbers.
From Stdlib Require Import ZArith Lia.

#[local] Open Scope Z_scope.

(** * Outcomes of fallible code *)

(** A Rust function returning [Result<A, E>] either returns [Ok], returns
    [Err], or does not return because it panicked ([unwrap], [expect],
    [assert!], [panic!]).  The three cases are kept apart, so that a theorem
    can say that code does not panic.  [Option<A>] code that may also panic
    is a [Res unit A]. *)
Inductive Res (E A : Type) : Type :=
| Ok (a : A)
| Err (e : E)
| Panic.
Arguments Ok {E A} a.
Arguments Err {E A} e.
Arguments Panic {E A}.

#[global] Instance res_ret E : MRet (Res E) := fun A a => Ok a.
#[global] Instance res_bind E : MBind (Res E) := fun A B f m =>
  match m with
  | Ok a => f a
  | Err e => Err e
  | Panic => Panic
  end.

(** [.expect(..)] / [.unwrap()]. *)
Definition expect {E E' A} (m : Res E A) : Res E' A :=
  match m with
  | Ok a => Ok a
  | _ => Panic
  end.

(** [.expect(..)] / [.unwrap()] on an [Option]. *)
Definition expect_opt {E A} (m : option A) : Res E A :=
  match m with
  | Some a => Ok a
  | None => Panic
  end.

(** [.ok_or(e)]. *)
Definition ok_or {E A} (m : option A) (e : E) : Res E A :=
  match m with
  | Some a => Ok a
  | None => Err e
  end.

(** [.map_err(f)] and the implicit [From] conversions of the [?] operator. *)
Definition map_err {E E' A} (f : E -> E') (m : Res E A) : Res E' A :=
  match m with
  | Ok a => Ok a
  | Err e => Err (f e)
  | Panic => Panic
  end.

(** Code that can panic but not fail, used where errors are also possible. *)
Definition lift_panic {E A} (m : Res Empty_set A) : Res E A :=
  match m with
  | Ok a => Ok a
  | _ => Panic
  end.

(** The success test on outcomes. *)
Definition is_ok {E A} (m : Res E A) : bool := match m with Ok _ => true | _ => false end.

(** A [for] loop over [l] whose body updates [b] and may return early. *)
Section foldM.
Context {E A B : Type} (f : B -> A -> Res E B).
Fixpoint foldM (b : B) (l : list A) : Res E B :=
  match l with
  | [] => Ok b
  | x :: l' => match f b x with
               | Ok b' => foldM b' l'
               | Err e => Err e
               | Panic => Panic
               end
  end.
End foldM.

(** A loop that collects one result per item, stopping at the first error. *)
Section mapMR.
Context {E A B : Type} (f : A -> Res E B).
Fixpoint mapMR (l : list A) : Res E (list B) :=
  match l with
  | [] => Ok []
  | x :: l' => match f x with
               | Ok y => match mapMR l' with
                         | Ok ys => Ok (y :: ys)
                         | Err e => Err e
                         | Panic => Panic
                         end
               | Err e => Err e
               | Panic => Panic
               end
  end.
End mapMR.

Lemma bind_Ok {E A B} (m : Res E A) (f : A -> Res E B) b :
  m ≫= f = Ok b <-> exists a, m = Ok a /\ f a = Ok b.
Proof. destruct m; cbn; naive_solver. Qed.

Lemma Ok_inj {E A} (a b : A) : Ok (E := E) a = Ok b -> a = b.
Proof. by intros [=]. Qed.

Lemma map_err_Ok {E E' A} (f : E -> E') (m : Res E A) a :
  map_err f m = Ok a <-> m = Ok a.
Proof. destruct m; cbn; naive_solver. Qed.

Lemma expect_Ok {E E' A} (m : Res E A) a :
  expect (E' := E') m = Ok a <-> m = Ok a.
Proof. destruct m; cbn; naive_solver. Qed.

Lemma ok_or_Ok {E A} (m : option A) (e : E) a :
  ok_or m e = Ok a <-> m = Some a.
Proof. destruct m; cbn; naive_solver. Qed.

Lemma lift_panic_Ok {E A} (m : Res Empty_set A) a :
  lift_panic (E := E) m = Ok a <-> m = Ok a.
Proof. destruct m; cbn; naive_solver. Qed.

Lemma is_ok_true {E A} (m : Res E A) : is_ok m = true <-> exists a, m = Ok a.
Proof. destruct m; cbn; naive_solver. Qed.

Lemma foldM_app {E A B} (f : B -> A -> Res E B) b l1 l2 :
  foldM f b (l1 ++ l2) = (foldM f b l1 ≫= fun b' => foldM f b' l2).
Proof. revert b; induction l1 as [|x l1 IH]; intros b; cbn; [done|]. by destruct (f b x). Qed.

(** Invariants of loops. *)
Lemma foldM_inv {E A B} (P : B -> Prop) (f : B -> A -> Res E B) b l r :
  (forall b x b', P b -> x ∈ l -> f b x = Ok b' -> P b') ->
  P b -> foldM f b l = Ok r -> P r.
Proof.
  revert b; induction l as [|x l IH]; intros b Hf Hb; cbn; [by intros [= <-]|].
  destruct (f b x) as [b'| |] eqn:Ef; try done. apply IH.
  - intros ???? Hx. eapply Hf; [done|by right].
  - eapply Hf; [done|by left|done].
Qed.

Lemma Forall2_Forall_impl {A B} (P : A -> Prop) (Q : B -> Prop) (R S : A -> B -> Prop) l k :
  Forall P l -> Forall Q k -> Forall2 R l k ->
  (forall x y, P x -> Q y -> R x y -> S x y) -> Forall2 S l k.
Proof.
  intros HP HQ HR HS. induction HR as [|x y l k Hxy _ IH]; [constructor|].
  inversion HP; inversion HQ; subst. constructor; auto.
Qed.

Lemma mapMR_Ok_Forall2 {E A B} (f : A -> Res E B) l ys :
  mapMR f l = Ok ys <-> Forall2 (fun x y => f x = Ok y) l ys.
Proof.
  revert ys; induction l as [|x l IH]; intros ys; cbn.
  - split; [intros [= <-]; constructor | by inversion 1].
  - split.
    + intros H. destruct (f x) eqn:Ef; try done.
      destruct (mapMR f l) eqn:El; try done. simplify_eq.
      constructor; [done|]. by apply IH.
    + inversion 1 as [|? y ? ys' Hx Hl]; subst. rewrite Hx.
      apply IH in Hl. by rewrite Hl.
Qed.

Lemma expect_inv {E E' A} (m : Res E A) a : expect (E' := E') m = Ok a -> m = Ok a.
Proof. apply expect_Ok. Qed.
Lemma map_err_inv {E E' A} (f : E -> E') (m : Res E A) a : map_err f m = Ok a -> m = Ok a.
Proof. apply map_err_Ok. Qed.
Lemma lift_panic_inv {E A} (m : Res Empty_set A) a : lift_panic (E := E) m = Ok a -> m = Ok a.
Proof. apply lift_panic_Ok. Qed.

(** Case analysis on the binds of an assumption of the form [m = Ok r]. *)
Ltac res_inv :=
  repeat match goal with
  | H : (_ ≫= _) = Ok _ |- _ => apply bind_Ok in H; destruct H as (? & ? & H)
  | H : map_err _ _ = Ok _ |- _ => apply map_err_inv in H
  | H : expect _ = Ok _ |- _ => apply expect_inv in H
  | H : ok_or _ _ = Ok _ |- _ => apply ok_or_Ok in H
  | H : lift_panic _ = Ok _ |- _ => apply lift_panic_inv in H
  | H : Ok _ = Ok _ |- _ => injection H as H
  | H : mret _ = Ok _ |- _ => injection H as H
  | H : Err _ = Ok _ |- _ => discriminate H
  | H : Panic = Ok _ |- _ => discriminate H
  | H : (if ?b then _ else _) = Ok _ |- _ => destruct b eqn:?
  end.

(** * Machine integers *)

(** Unchecked unsigned arithmetic at width [w] is reduced modulo [2^w]. *)
Definition wrap (w : Z) (z : Z) : Z := z `mod` 2 ^ w.

Definition in_u (w : Z) (z : Z) : Prop := 0 <= z < 2 ^ w.
#[global] Instance in_u_dec w z : Decision (in_u w z).
Proof. unfold in_u; apply _. Defined.

Definition in_i (w : Z) (z : Z) : Prop := - 2 ^ (w - 1) <= z < 2 ^ (w - 1).
#[global] Instance in_i_dec w z : Decision (in_i w z).
Proof. unfold in_i; apply _. Defined.

(** [uN::checked_add] and friends. *)
Definition checked_u (w : Z) (z : Z) : option Z :=
  if decide (in_u w z) then Some z else None.
Definition checked_add (w a b : Z) : option Z := checked_u w (a + b).
Definition checked_sub (w a b : Z) : option Z := checked_u w (a - b).
Definition checked_mul (w a b : Z) : option Z := checked_u w (a * b).

Lemma checked_u_Some w z z' : checked_u w z = Some z' <-> z' = z /\ in_u w z.
Proof. unfold checked_u. case_decide; naive_solver. Qed.

Lemma checked_add_Some w a b c :
  checked_add w a b = Some c <-> c = a + b /\ in_u w (a + b).
Proof. apply checked_u_Some. Qed.
Lemma checked_sub_Some w a b c :
  checked_sub w a b = Some c <-> c = a - b /\ in_u w (a - b).
Proof. apply checked_u_Some. Qed.
Lemma checked_mul_Some w a b c :
  checked_mul w a b = Some c <-> c = a * b /\ in_u w (a * b).
Proof. apply checked_u_Some. Qed.

(** Reads the bounds off checked arithmetic in the assumptions. *)
Ltac checked_inv :=
  repeat match goal with
  | H : checked_u _ _ = Some _ |- _ => apply checked_u_Some in H; destruct H as [? ?]
  | H : checked_add _ _ _ = Some _ |- _ => apply checked_add_Some in H; destruct H as [? ?]
  | H : checked_sub _ _ _ = Some _ |- _ => apply checked_sub_Some in H; destruct H as [? ?]
  | H : checked_mul _ _ _ = Some _ |- _ => apply checked_mul_Some in H; destruct H as [? ?]
  | H : in_u _ _ |- _ => unfold in_u in H
  end.

Lemma checked_u_in w z : in_u w z -> checked_u w z = Some z.
Proof. intros H. by apply checked_u_Some. Qed.
Lemma checked_add_in w a b : in_u w (a + b) -> checked_add w a b = Some (a + b).
Proof. intros H. by apply checked_add_Some. Qed.
Lemma checked_mul_in w a b : in_u w (a * b) -> checked_mul w a b = Some (a * b).
Proof. intros H. by apply checked_mul_Some. Qed.

Lemma wrap_small w z : in_u w z -> wrap w z = z.
Proof. intros H. by apply Z.mod_small. Qed.

(** * Bytes and big-endian encodings *)

Definition u8 (b : Z) : Prop := in_u 8 b.

(** The [n] big-endian bytes of [z] ([to_be_bytes]). *)
Fixpoint be_encode (n : nat) (z : Z) : list Z :=
  match n with
  | O => []
  | S n' => be_encode n' (z `div` 256) ++ [z `mod` 256]
  end.

(** [from_be_bytes]. *)
Definition be_decode (l : list Z) : Z := foldl (fun acc b => acc * 256 + b) 0 l.

Lemma be_decode_snoc l b : be_decode (l ++ [b]) = be_decode l * 256 + b.
Proof. unfold be_decode. by rewrite foldl_app. Qed.

Lemma be_decode_encode n z : be_decode (be_encode n z) = z `mod` 256 ^ Z.of_nat n.
Proof.
  revert z; induction n as [|n IH]; intros z.
  - cbn. by rewrite Z.mod_1_r.
  - cbn [be_encode]. rewrite be_decode_snoc, IH.
    rewrite Nat2Z.inj_succ, Z.pow_succ_r by lia.
    rewrite (Z.rem_mul_r z 256) by lia. lia.
Qed.

Lemma length_be_encode n z : length (be_encode n z) = n.
Proof. revert z; induction n; intros z; cbn; [done|]. rewrite length_app, IHn. cbn; lia. Qed.

Lemma be_encode_u8 n z : Forall u8 (be_encode n z).
Proof.
  revert z; induction n as [|n IH]; intros z; cbn; [constructor|].
  apply Forall_app; split; [done|]. constructor; [|constructor].
  unfold u8, in_u. pose proof (Z.mod_pos_bound z 256). lia.
Qed.

Lemma be_decode_encode_small n z :
  0 <= z < 256 ^ Z.of_nat n -> be_decode (be_encode n z) = z.
Proof. intros H. rewrite be_decode_encode. by apply Z.mod_small. Qed.

Lemma be_decode_bounds l :
  Forall u8 l -> 0 <= be_decode l < 256 ^ Z.of_nat (length l).
Proof.
  induction l as [|b l IH] using rev_ind; intros Hl; [cbn; lia|].
  apply Forall_app in Hl as [Hl Hb]. inversion Hb as [|? ? Hb' _]; subst.
  rewrite be_decode_snoc, length_app. cbn [length].
  replace (Z.of_nat (length l + 1)) with (Z.succ (Z.of_nat (length l))) by lia.
  rewrite Z.pow_succ_r by lia. specialize (IH Hl). unfold u8, in_u in Hb'. lia.
Qed.

Lemma be_encode_decode l n :
  Forall u8 l -> length l = n -> be_encode n (be_decode l) = l.
Proof.
  revert n; induction l as [|b l IH] using rev_ind; intros n Hl Hn; subst n; [done|].
  apply Forall_app in Hl as [Hl Hb]. inversion Hb as [|? ? Hb' _]; subst.
  unfold u8, in_u in Hb'.
  rewrite length_app, Nat.add_comm. cbn [length Nat.add be_encode]. rewrite be_decode_snoc.
  rewrite Z.add_comm, Z.div_add, Z.mod_add, Z.div_small, Z.mod_small by lia.
  by rewrite Z.add_0_l, IH.
Qed.

(** * Hints shared by the components *)

Create HintDb stacks.
Create Rewrite HintDb stacks.
#[export] Hint Resolve be_encode_u8 : stacks.
#[export] Hint Rewrite length_be_encode : stacks.
