(* ===== verification/Names.v ===== *)
(** Names, principals and identifiers: the guarded strings of
    src/vm/representations.rs ([ClarityName], [ContractName]) and the
    principal and identifier structs of src/vm/types/mod.rs and
    src/vm/types/signatures.rs.  A Rust [String] is its sequence of UTF-8
    bytes, so it is a [string] whose characters are bytes. *)
From stdpp Require Import base list gmap strings numbers countable.
From Stdlib Require Import ZArith Lia Ascii String.
From S2P Require Import Prelude.
#[local] Open Scope Z_scope.

(** * Strings as bytes *)

Definition byte_of_ascii (a : ascii) : Z := Z.of_N (N_of_ascii a).
Definition ascii_of_byte (b : Z) : ascii := ascii_of_N (Z.to_N b).

Fixpoint string_bytes (s : string) : list Z :=
  match s with
  | EmptyString => []
  | String a s' => byte_of_ascii a :: string_bytes s'
  end.

Fixpoint bytes_string (l : list Z) : string :=
  match l with
  | [] => EmptyString
  | b :: l' => String (ascii_of_byte b) (bytes_string l')
  end.

(** [str::len], in bytes. *)
Definition str_len (s : string) : Z := Z.of_nat (String.length s).

Lemma ascii_of_byte_of_ascii a : ascii_of_byte (byte_of_ascii a) = a.
Proof. unfold ascii_of_byte, byte_of_ascii. rewrite N2Z.id. apply ascii_N_embedding. Qed.

Lemma byte_of_ascii_u8 a : u8 (byte_of_ascii a).
Proof.
  unfold u8, in_u, byte_of_ascii.
  pose proof (N_ascii_bounded a) as H. change (2 ^ 8) with 256. lia.
Qed.

Lemma byte_of_ascii_of_byte b : u8 b -> byte_of_ascii (ascii_of_byte b) = b.
Proof.
  unfold u8, in_u, byte_of_ascii, ascii_of_byte. change (2 ^ 8) with 256. intros H.
  rewrite N_ascii_embedding by lia. lia.
Qed.

Lemma bytes_string_bytes s : bytes_string (string_bytes s) = s.
Proof. induction s; cbn; [done|]. by rewrite ascii_of_byte_of_ascii, IHs. Qed.

Lemma string_bytes_u8 s : Forall u8 (string_bytes s).
Proof. induction s; cbn; constructor; auto using byte_of_ascii_u8. Qed.

Lemma length_string_bytes s : List.length (string_bytes s) = String.length s.
Proof. induction s; cbn; congruence. Qed.

#[export] Hint Resolve string_bytes_u8 : stacks.

(** [String::from_utf8]: the well-formed UTF-8 byte sequences. *)
Definition utf8_tail (b : Z) : bool := (0x80 <=? b) && (b <=? 0xBF).
Definition byte_in (lo hi b : Z) : bool := (lo <=? b) && (b <=? hi).

Fixpoint utf8_valid_fuel (fuel : nat) (l : list Z) : bool :=
  match fuel with
  | O => false
  | S fuel' =>
    match l with
    | [] => true
    | b :: l' =>
      if b <=? 0x7F then utf8_valid_fuel fuel' l'
      else match l' with
      | c1 :: l1 =>
        if byte_in 0xC2 0xDF b then utf8_tail c1 && utf8_valid_fuel fuel' l1
        else match l1 with
        | c2 :: l2 =>
          if b =? 0xE0 then byte_in 0xA0 0xBF c1 && utf8_tail c2 && utf8_valid_fuel fuel' l2
          else if byte_in 0xE1 0xEC b || byte_in 0xEE 0xEF b
               then utf8_tail c1 && utf8_tail c2 && utf8_valid_fuel fuel' l2
          else if b =? 0xED then byte_in 0x80 0x9F c1 && utf8_tail c2 && utf8_valid_fuel fuel' l2
          else match l2 with
          | c3 :: l3 =>
            if b =? 0xF0
            then byte_in 0x90 0xBF c1 && utf8_tail c2 && utf8_tail c3 && utf8_valid_fuel fuel' l3
            else if byte_in 0xF1 0xF3 b
            then utf8_tail c1 && utf8_tail c2 && utf8_tail c3 && utf8_valid_fuel fuel' l3
            else if b =? 0xF4
            then byte_in 0x80 0x8F c1 && utf8_tail c2 && utf8_tail c3 && utf8_valid_fuel fuel' l3
            else false
          | [] => false
          end
        | [] => false
        end
      | [] => false
      end
    end
  end.

Definition utf8_valid (l : list Z) : bool := utf8_valid_fuel (S (List.length l)) l.

Lemma utf8_valid_ascii l : Forall (fun b => b <= 0x7F) l -> utf8_valid l = true.
Proof.
  unfold utf8_valid. induction 1 as [|b l Hb Hl IH]; cbn; [done|].
  rewrite (proj2 (Z.leb_le b 127)) by done. exact IH.
Qed.

(** * Guarded strings *)

Definition MAX_STRING_LEN : Z := 128.

Definition is_alpha (b : Z) : bool := byte_in 65 90 b || byte_in 97 122 b.
Definition is_digit (b : Z) : bool := byte_in 48 57 b.
Definition one_of (s : string) (b : Z) : bool := existsb (Z.eqb b) (string_bytes s).

(** The regular expression
    [^[a-zA-Z]([a-zA-Z0-9]|[-_!?+<>=/*])*$|^[-+=/*]$|^[<>]=?$]. *)
Definition clarity_name_regex (l : list Z) : bool :=
  match l with
  | [] => false
  | b :: l' =>
    (is_alpha b && forallb (fun c => is_alpha c || is_digit c || one_of "-_!?+<>=/*" c) l')
    || (one_of "-+=/*" b && match l' with [] => true | _ => false end)
    || (one_of "<>" b && match l' with [] => true | [c] => c =? 61 | _ => false end)
  end.

(** The regular expression [^[a-zA-Z]([a-zA-Z0-9]|[-_])*$|^__transient$]. *)
Definition contract_name_regex (l : list Z) : bool :=
  match l with
  | [] => false
  | b :: l' => is_alpha b && forallb (fun c => is_alpha c || is_digit c || one_of "-_" c) l'
  end || bool_decide (l = string_bytes "__transient").

Inductive BadName := BadNameValue (label : string) (value : string).

(** [guarded_string!]: the checked constructors of both name types. *)
Definition guarded_try_from (label : string) (regex : list Z -> bool) (value : string)
  : Res BadName string :=
  if MAX_STRING_LEN <? str_len value then Err (BadNameValue label value)
  else if regex (string_bytes value) then Ok value
  else Err (BadNameValue label value).

Definition ClarityName_try_from : string -> Res BadName string :=
  guarded_try_from "ClarityName" clarity_name_regex.
Definition ContractName_try_from : string -> Res BadName string :=
  guarded_try_from "ContractName" contract_name_regex.

(** A string held by a [ClarityName] (a [ContractName]): the field is private,
    so it went through the checked constructor. *)
Definition clarity_name_ok (s : string) : bool :=
  (str_len s <=? MAX_STRING_LEN) && clarity_name_regex (string_bytes s).
Definition contract_name_ok (s : string) : bool :=
  (str_len s <=? MAX_STRING_LEN) && contract_name_regex (string_bytes s).

Lemma guarded_try_from_Ok label regex s :
  (str_len s <=? MAX_STRING_LEN) && regex (string_bytes s) = true ->
  guarded_try_from label regex s = Ok s.
Proof.
  unfold guarded_try_from. intros [H1 H2]%andb_true_iff.
  rewrite (proj2 (Z.ltb_ge _ _)) by lia. by rewrite H2.
Qed.

Lemma guarded_try_from_inv label regex s s' :
  guarded_try_from label regex s = Ok s' ->
  s' = s /\ (str_len s <=? MAX_STRING_LEN) && regex (string_bytes s) = true.
Proof.
  unfold guarded_try_from. intros H. destruct (Z.ltb_spec MAX_STRING_LEN (str_len s)); [done|].
  destruct (regex (string_bytes s)) eqn:Er; [|done]. simplify_eq.
  split; [done|]. apply andb_true_iff; split; [apply Z.leb_le; lia|done].
Qed.

(** Both regular expressions accept only ASCII text. *)
Lemma is_alpha_ascii b : is_alpha b = true -> b <= 127.
Proof. unfold is_alpha, byte_in. lia. Qed.
Lemma is_digit_ascii b : is_digit b = true -> b <= 127.
Proof. unfold is_digit, byte_in. lia. Qed.
Lemma one_of_ascii s b :
  forallb (fun c => c <=? 127) (string_bytes s) = true -> one_of s b = true -> b <= 127.
Proof.
  unfold one_of. intros Hs Hb. apply existsb_exists in Hb as (c & Hc & Hbc%Z.eqb_eq). subst.
  rewrite forallb_forall in Hs. apply Hs in Hc. lia.
Qed.

Ltac name_ascii :=
  repeat match goal with
  | H : _ && _ = true |- _ => apply andb_true_iff in H; destruct H
  | H : _ || _ = true |- _ => apply orb_true_iff in H; destruct H
  | H : is_alpha _ = true |- _ => apply is_alpha_ascii in H
  | H : is_digit _ = true |- _ => apply is_digit_ascii in H
  | H : one_of ?s ?b = true |- _ => apply (one_of_ascii s b eq_refl) in H
  end.

Lemma name_chars_ascii s l :
  forallb (fun c => c <=? 127) (string_bytes s) = true ->
  forallb (fun c => is_alpha c || is_digit c || one_of s c) l = true ->
  Forall (fun b => b <= 127) l.
Proof.
  intros Hs H. apply Forall_forall. intros b Hb.
  rewrite forallb_forall in H. apply H in Hb.
  apply orb_true_iff in Hb as [[Hb|Hb]%orb_true_iff|Hb].
  - by apply is_alpha_ascii.
  - by apply is_digit_ascii.
  - by eapply one_of_ascii.
Qed.

Lemma clarity_name_ascii l : clarity_name_regex l = true -> Forall (fun b => b <= 127) l.
Proof.
  destruct l as [|b l]; [done|]. cbn [clarity_name_regex]. intros H. name_ascii.
  - constructor; [done|]. by apply (name_chars_ascii "-_!?+<>=/*").
  - destruct l; [|done]. by apply List.Forall_cons.
  - destruct l as [|c [|]]; try done; repeat apply List.Forall_cons; try done. lia.
Qed.

Lemma contract_name_ascii l : contract_name_regex l = true -> Forall (fun b => b <= 127) l.
Proof.
  unfold contract_name_regex. intros H. apply orb_true_iff in H as [H|H].
  - destruct l as [|b l]; [done|]. name_ascii. constructor; [done|]. by apply (name_chars_ascii "-_").
  - apply bool_decide_eq_true in H as ->. vm_compute. repeat constructor; discriminate.
Qed.

(** * Principals and identifiers *)

(** [StandardPrincipalData(u8, [u8; 20])]. *)
Record StandardPrincipalData := mkStandard { sp_version : Z; sp_bytes : list Z }.
#[global] Instance StandardPrincipalData_eq_dec : EqDecision StandardPrincipalData.
Proof. solve_decision. Defined.
#[global] Program Instance StandardPrincipalData_countable : Countable StandardPrincipalData :=
  inj_countable' (fun p => (sp_version p, sp_bytes p)) (fun x => mkStandard x.1 x.2) _.
Next Obligation. by intros []. Qed.

Record QualifiedContractIdentifier := mkContractId {
  issuer : StandardPrincipalData; name : string }.
#[global] Instance QualifiedContractIdentifier_eq_dec : EqDecision QualifiedContractIdentifier.
Proof. solve_decision. Defined.
#[global] Program Instance QualifiedContractIdentifier_countable
  : Countable QualifiedContractIdentifier :=
  inj_countable' (fun p => (issuer p, name p)) (fun x => mkContractId x.1 x.2) _.
Next Obligation. by intros []. Qed.

Inductive PrincipalData :=
| Standard (p : StandardPrincipalData)
| Contract (c : QualifiedContractIdentifier).
#[global] Instance PrincipalData_eq_dec : EqDecision PrincipalData.
Proof. solve_decision. Defined.
#[global] Program Instance PrincipalData_countable : Countable PrincipalData :=
  inj_countable' (fun p => match p with Standard s => inl s | Contract c => inr c end)
    (fun x => match x with inl s => Standard s | inr c => Contract c end) _.
Next Obligation. by intros []. Qed.

Record TraitIdentifier := mkTraitId {
  trait_name : string; trait_contract : QualifiedContractIdentifier }.
#[global] Instance TraitIdentifier_eq_dec : EqDecision TraitIdentifier.
Proof. solve_decision. Defined.
#[global] Program Instance TraitIdentifier_countable : Countable TraitIdentifier :=
  inj_countable' (fun p => (trait_name p, trait_contract p)) (fun x => mkTraitId x.1 x.2) _.
Next Obligation. by intros []. Qed.

Record AssetIdentifier := mkAssetId {
  contract_identifier : QualifiedContractIdentifier; asset_name : string }.
#[global] Instance AssetIdentifier_eq_dec : EqDecision AssetIdentifier.
Proof. solve_decision. Defined.
#[global] Program Instance AssetIdentifier_countable : Countable AssetIdentifier :=
  inj_countable' (fun p => (contract_identifier p, asset_name p)) (fun x => mkAssetId x.1 x.2) _.
Next Obligation. by intros []. Qed.

(** [AssetIdentifier::STX] and [AssetIdentifier::STX_burned]. *)
Definition AssetIdentifier_STX : AssetIdentifier :=
  mkAssetId (mkContractId (mkStandard 0 (replicate 20 0)) "STX") "STX".
Definition AssetIdentifier_STX_burned : AssetIdentifier :=
  mkAssetId (mkContractId (mkStandard 0 (replicate 20 0)) "BURNED") "BURNED".

(** [StandardPrincipalData::transient] and [QualifiedContractIdentifier::transient]. *)
Definition StandardPrincipalData_transient : StandardPrincipalData :=
  mkStandard 1 (replicate 20 1).
Definition QualifiedContractIdentifier_transient : QualifiedContractIdentifier :=
  mkContractId StandardPrincipalData_transient "__transient".

(** [PrincipalData::version]. *)
Definition PrincipalData_version (p : PrincipalData) : Z :=
  match p with
  | Standard s => sp_version s
  | Contract c => sp_version (issuer c)
  end.

(** What the Rust types guarantee of a principal. *)
Definition standard_ok (p : StandardPrincipalData) : bool :=
  bool_decide (u8 (sp_version p)) && bool_decide (List.length (sp_bytes p) = 20%nat)
  && bool_decide (Forall u8 (sp_bytes p)).
Definition contract_id_ok (c : QualifiedContractIdentifier) : bool :=
  standard_ok (issuer c) && contract_name_ok (name c).
Definition principal_ok (p : PrincipalData) : bool :=
  match p with
  | Standard s => standard_ok s
  | Contract c => contract_id_ok c
  end.
