(* ===== verification/BTree.v ===== *)
(** [std::collections::BTreeMap] with string keys, as the association list its
    iterator walks: keys in strictly increasing byte order.  Used for tuple
    types and tuple values of src/vm/types, whose serialized form depends on
    the iteration order. *)
From stdpp Require Import base list sets strings sorting.
From Stdlib Require Import ZArith Lia String Ascii.
From S2P Require Import Prelude Names.
#[local] Open Scope Z_scope.

(** * The order on strings *)

(** [Ord] of [String]: lexicographic on bytes. *)
Definition str_lt (a b : string) : Prop := String.compare a b = Lt.
#[global] Instance str_lt_dec a b : Decision (str_lt a b).
Proof. unfold str_lt. destruct (String.compare a b); [right|left|right]; done. Defined.

Lemma str_compare_refl s : String.compare s s = Eq.
Proof. induction s; cbn; [done|]. unfold Ascii.compare. by rewrite N.compare_refl. Qed.

Lemma str_compare_eq a b : String.compare a b = Eq -> a = b.
Proof. apply String.compare_eq_iff. Qed.

Lemma str_lt_irrefl s : ~ str_lt s s.
Proof. unfold str_lt. by rewrite str_compare_refl. Qed.

Lemma str_lt_trans a b c : str_lt a b -> str_lt b c -> str_lt a c.
Proof.
  unfold str_lt. revert b c; induction a as [|x a IH]; intros [|y b] [|z c]; cbn; try done.
  unfold Ascii.compare.
  destruct (N.compare_spec (N_of_ascii x) (N_of_ascii y)),
           (N.compare_spec (N_of_ascii y) (N_of_ascii z)),
           (N.compare_spec (N_of_ascii x) (N_of_ascii z)); try lia; try done; eauto.
Qed.

Lemma str_lt_total a b : str_lt a b \/ a = b \/ str_lt b a.
Proof.
  unfold str_lt. destruct (String.compare a b) eqn:E; [|tauto|].
  - apply str_compare_eq in E. tauto.
  - rewrite String.compare_antisym, E. tauto.
Qed.

#[global] Instance str_lt_transitive : Transitive str_lt.
Proof. intros ???. apply str_lt_trans. Qed.

(** * Maps *)

Section btree.
  Context {V : Type}.
  Implicit Types m : list (string * V).

Fixpoint bt_get (k : string) m : option V :=
  match m with
  | [] => None
  | (k', v) :: m' => if decide (k = k') then Some v else bt_get k m'
  end.

(** [BTreeMap::insert]. *)
Fixpoint bt_insert (k : string) (v : V) m : list (string * V) :=
  match m with
  | [] => [(k, v)]
  | (k', v') :: m' =>
    if decide (k = k') then (k, v) :: m'
    else if decide (str_lt k k') then (k, v) :: (k', v') :: m'
    else (k', v') :: bt_insert k v m'
  end.

Definition bt_contains (k : string) m : bool :=
  match bt_get k m with Some _ => true | None => false end.

(** The representation invariant. *)
Definition bt_sorted m : Prop := StronglySorted str_lt m.*1.

Lemma bt_sorted_cons k v m :
  bt_sorted ((k, v) :: m) <-> Forall (str_lt k) m.*1 /\ bt_sorted m.
Proof.
  unfold bt_sorted; cbn. split.
  - inversion 1; subst; by split.
  - intros [??]. by constructor.
Qed.

Lemma bt_get_None k m : bt_get k m = None <-> k ∉ m.*1.
Proof.
  induction m as [|[k' v] m IH]; cbn; [set_solver|].
  case_decide; subst; [|rewrite not_elem_of_cons; tauto].
  split; [done|]. intros Hk; set_solver.
Qed.

Lemma bt_get_elem k v m : bt_get k m = Some v -> (k, v) ∈ m.
Proof.
  induction m as [|[k' v'] m IH]; cbn; [done|]. case_decide; subst.
  - intros [= ->]. by left.
  - intros Hv. right; auto.
Qed.

Lemma bt_elem_get k v m : bt_sorted m -> (k, v) ∈ m -> bt_get k m = Some v.
Proof.
  induction m as [|[k' v'] m IH]; [by intros _ ?%not_elem_of_nil|].
  rewrite bt_sorted_cons. intros [Hlt Hs] Hin. cbn. apply elem_of_cons in Hin as [[= -> ->]|Hin].
  - by rewrite decide_True.
  - case_decide as E; [subst|auto].
    exfalso. eapply str_lt_irrefl. rewrite Forall_forall in Hlt. apply Hlt.
    apply (list_elem_of_fmap_2 fst _ _ Hin).
Qed.

Lemma bt_insert_keys k v m k' : k' ∈ (bt_insert k v m).*1 <-> k' = k \/ k' ∈ m.*1.
Proof.
  induction m as [|[k1 v1] m IH]; cbn; [set_solver|].
  case_decide; [subst; set_solver|]. case_decide; set_solver.
Qed.

Lemma bt_insert_sorted k v m : bt_sorted m -> bt_sorted (bt_insert k v m).
Proof.
  induction m as [|[k1 v1] m IH]; [by repeat constructor|].
  rewrite bt_sorted_cons. intros [Hlt Hs]. cbn. case_decide as E; [subst; by apply bt_sorted_cons|].
  case_decide as E2.
  - apply bt_sorted_cons. rewrite bt_sorted_cons. split_and!; try done.
    constructor; [done|]. eapply Forall_impl; [exact Hlt|]. intros x Hx. by etrans.
  - apply bt_sorted_cons. split; [|auto]. apply Forall_forall. intros x.
    rewrite bt_insert_keys. rewrite Forall_forall in Hlt. intros [->|Hx]; [|auto].
    destruct (str_lt_total k k1) as [?|[?|?]]; naive_solver.
Qed.

Lemma bt_get_insert k v m k' :
  bt_get k' (bt_insert k v m) = if decide (k' = k) then Some v else bt_get k' m.
Proof.
  induction m as [|[k1 v1] m IH]; cbn; [done|].
  destruct (decide (k = k1)) as [->|Hne]; cbn.
  - repeat case_decide; congruence.
  - destruct (decide (str_lt k k1)); cbn; [done|]. rewrite IH. repeat case_decide; congruence.
Qed.

(** Inserting a key above all others appends. *)
Lemma bt_insert_above k v m :
  Forall (fun k' => str_lt k' k) m.*1 -> bt_insert k v m = m ++ [(k, v)].
Proof.
  induction m as [|[k1 v1] m IH]; cbn; [done|]. inversion 1 as [|? ? Hk Hm]; subst.
  rewrite decide_False by (intros ->; by eapply str_lt_irrefl).
  rewrite decide_False; [by rewrite IH|].
  intros Hk'. eapply str_lt_irrefl. by etrans.
Qed.

Lemma bt_sorted_app m1 m2 :
  bt_sorted (m1 ++ m2) ->
  bt_sorted m1 /\ bt_sorted m2 /\ forall k1 k2, k1 ∈ m1.*1 -> k2 ∈ m2.*1 -> str_lt k1 k2.
Proof.
  induction m1 as [|[k v] m1 IH]; cbn [app].
  - intros H; split_and!; [constructor|done|set_solver].
  - rewrite !bt_sorted_cons. rewrite fmap_app, Forall_app. intros [[H1 H2] Hs].
    destruct (IH Hs) as (? & ? & Hlt). split_and!; try done.
    intros k1 k2 Hk1 Hk2. cbn in Hk1. apply elem_of_cons in Hk1 as [->|]; [|auto].
    rewrite Forall_forall in H2. auto.
Qed.

(** Rebuilding a map from its own entries, in order. *)
Lemma bt_insert_rebuild m1 m2 :
  bt_sorted (m1 ++ m2) -> foldl (fun acc kv => bt_insert kv.1 kv.2 acc) m1 m2 = m1 ++ m2.
Proof.
  revert m1; induction m2 as [|[k v] m2 IH]; intros m1 Hs; cbn; [by rewrite app_nil_r|].
  rewrite bt_insert_above.
  - change (m1 ++ (k, v) :: m2) with (m1 ++ [(k, v)] ++ m2). rewrite (assoc_L (++)) in *.
    rewrite IH; [done|]. by rewrite <-(assoc_L (++)).
  - apply bt_sorted_app in Hs as (_ & _ & Hlt). apply Forall_forall. intros k' Hk'.
    apply Hlt; [done|]. cbn. by left.
Qed.

End btree.

Definition bt_sortedb {V} (m : list (string * V)) : bool :=
  bool_decide (StronglySorted str_lt m.*1).

Lemma bt_sorted_NoDup {V} (m : list (string * V)) : bt_sorted m -> NoDup m.*1.
Proof.
  induction m as [|[k v] m IH]; [intros _; apply NoDup_nil_2|].
  rewrite bt_sorted_cons. intros [Hlt Hs]. cbn. apply NoDup_cons_2; [|auto].
  intros Hin. rewrite Forall_forall in Hlt. by apply (str_lt_irrefl k), Hlt.
Qed.

(** Two maps of the same size, the keys of one among those of the other, have
    the same keys in the same order. *)
Lemma bt_keys_eq {V W} (m : list (string * V)) (m' : list (string * W)) :
  bt_sorted m -> bt_sorted m' -> List.length m = List.length m' ->
  (forall k, k ∈ m.*1 -> k ∈ m'.*1) -> m.*1 = m'.*1.
Proof.
  intros Hs Hs' Hlen Hk. apply (StronglySorted_unique_strong str_lt); [|done..|].
  - intros x1 x2 _ _ H1 H2. exfalso. apply (str_lt_irrefl x1). by etrans.
  - apply submseteq_length_Permutation; [|by rewrite !length_fmap, Hlen].
    apply NoDup_submseteq; [|done]. by apply bt_sorted_NoDup.
Qed.
