(* ===== verification/Types.v ===== *)
(** Clarity types and values: [TypeSignature] and its guarded constructors of
    src/vm/types/signatures.rs, [Value] and its constructors of
    src/vm/types/mod.rs. *)
From stdpp Require Import base list strings sets sorting.
From Stdlib Require Import ZArith Lia.
From S2P Require Import Prelude Names BTree.
#[local] Open Scope Z_scope.

(** * Constants *)

Definition MAX_VALUE_SIZE : Z := 1024 * 1024.
Definition BOUND_VALUE_SERIALIZATION_BYTES : Z := MAX_VALUE_SIZE * 2.
Definition MAX_TYPE_DEPTH : Z := 32.
Definition WRAPPER_VALUE_SIZE : Z := 1.

(** * Type signatures *)

(** [BufferLength] and [ListTypeData] are inlined in the constructors; a tuple
    type's [BTreeMap] is its sorted association list. *)
Inductive TypeSignature :=
| NoType
| IntType
| UIntType
| BoolType
| BufferType (len : Z)
| PrincipalType
| ListType (max_len : Z) (entry_type : TypeSignature)
| TupleType (type_map : list (string * TypeSignature))
| OptionalType (t : TypeSignature)
| ResponseType (ok_type err_type : TypeSignature)
| TraitReferenceType (trait_id : TraitIdentifier).

Section TypeSignature_ind'.
  Context (P : TypeSignature -> Prop).
  Context (HNo : P NoType) (HInt : P IntType) (HUInt : P UIntType) (HBool : P BoolType)
    (HBuffer : forall n, P (BufferType n)) (HPrincipal : P PrincipalType)
    (HList : forall n e, P e -> P (ListType n e))
    (HTuple : forall m, Forall (fun kv => P kv.2) m -> P (TupleType m))
    (HOptional : forall t, P t -> P (OptionalType t))
    (HResponse : forall a b, P a -> P b -> P (ResponseType a b))
    (HTrait : forall i, P (TraitReferenceType i)).

Fixpoint TypeSignature_ind' (t : TypeSignature) : P t :=
  match t with
  | NoType => HNo | IntType => HInt | UIntType => HUInt | BoolType => HBool
  | BufferType n => HBuffer n | PrincipalType => HPrincipal
  | ListType n e => HList n e (TypeSignature_ind' e)
  | TupleType m =>
    HTuple m ((fix go (m : list (string * TypeSignature)) : Forall (fun kv => P kv.2) m :=
      match m with
      | [] => List.Forall_nil _
      | kv :: m' => @List.Forall_cons _ _ kv m' (TypeSignature_ind' kv.2) (go m')
      end) m)
  | OptionalType t => HOptional t (TypeSignature_ind' t)
  | ResponseType a b => HResponse a b (TypeSignature_ind' a) (TypeSignature_ind' b)
  | TraitReferenceType i => HTrait i
  end.
End TypeSignature_ind'.

(** The derived [PartialEq]. *)
Fixpoint type_eqb (a b : TypeSignature) : bool :=
  match a, b with
  | NoType, NoType | IntType, IntType | UIntType, UIntType
  | BoolType, BoolType | PrincipalType, PrincipalType => true
  | BufferType n, BufferType m => n =? m
  | ListType n e, ListType m f => (n =? m) && type_eqb e f
  | TupleType m1, TupleType m2 =>
    (fix go m1 m2 :=
       match m1, m2 with
       | [], [] => true
       | (k1, t1) :: m1', (k2, t2) :: m2' =>
         bool_decide (k1 = k2) && type_eqb t1 t2 && go m1' m2'
       | _, _ => false
       end) m1 m2
  | OptionalType s, OptionalType t => type_eqb s t
  | ResponseType a1 b1, ResponseType a2 b2 => type_eqb a1 a2 && type_eqb b1 b2
  | TraitReferenceType i, TraitReferenceType j => bool_decide (i = j)
  | _, _ => false
  end.

(** * Values *)

Inductive Value :=
| VInt (i : Z)
| VUInt (u : Z)
| VBool (b : bool)
| VBuffer (data : list Z)
| VList (data : list Value) (max_len : Z) (entry_type : TypeSignature)
| VPrincipal (p : PrincipalData)
| VTuple (type_signature : list (string * TypeSignature)) (data_map : list (string * Value))
| VOptional (data : option Value)
| VResponse (committed : bool) (data : Value).

Section Value_ind'.
  Context (P : Value -> Prop).
  Context (HInt : forall i, P (VInt i)) (HUInt : forall u, P (VUInt u))
    (HBool : forall b, P (VBool b)) (HBuffer : forall l, P (VBuffer l))
    (HList : forall l n e, Forall P l -> P (VList l n e))
    (HPrincipal : forall p, P (VPrincipal p))
    (HTuple : forall ts m, Forall (fun kv => P kv.2) m -> P (VTuple ts m))
    (HNone : P (VOptional None)) (HSome : forall v, P v -> P (VOptional (Some v)))
    (HResponse : forall c v, P v -> P (VResponse c v)).

Fixpoint Value_ind' (v : Value) : P v :=
  match v with
  | VInt i => HInt i | VUInt u => HUInt u | VBool b => HBool b | VBuffer l => HBuffer l
  | VList l n e =>
    HList l n e ((fix go (l : list Value) : Forall P l :=
      match l with
      | [] => List.Forall_nil _
      | x :: l' => @List.Forall_cons _ _ x l' (Value_ind' x) (go l')
      end) l)
  | VPrincipal p => HPrincipal p
  | VTuple ts m =>
    HTuple ts m ((fix go (m : list (string * Value)) : Forall (fun kv => P kv.2) m :=
      match m with
      | [] => List.Forall_nil _
      | kv :: m' => @List.Forall_cons _ _ kv m' (Value_ind' kv.2) (go m')
      end) m)
  | VOptional None => HNone
  | VOptional (Some v) => HSome v (Value_ind' v)
  | VResponse c v => HResponse c v (Value_ind' v)
  end.
End Value_ind'.

(** * Errors *)

(** [ExecutionCost] and [CostErrors] of src/vm/costs/mod.rs, which errors carry. *)
Record ExecutionCost := mkCost {
  write_length : Z;
  write_count : Z;
  read_length : Z;
  read_count : Z;
  runtime : Z;
}.
#[global] Instance ExecutionCost_eq_dec : EqDecision ExecutionCost.
Proof. solve_decision. Defined.

Inductive CostErrors :=
| CostOverflow
| CostBalanceExceeded (total limit : ExecutionCost)
| MemoryBalanceExceeded (used limit : Z).

(** [CheckErrors]; [CheckCost] stands for the three variants that repeat a
    [CostErrors], and a variant that another enum has as well is prefixed. *)
Inductive CheckErrors :=
| CheckCost (e : CostErrors)
| ValueTooLarge
| TypeSignatureTooDeep
| ExpectedName
| BadMatchOptionSyntax (a : CheckErrors)
| BadMatchResponseSyntax (a : CheckErrors)
| BadMatchInput (a : TypeSignature)
| UnknownListConstructionFailure
| ListTypesMustMatch
| ConstructedListTooLarge
| TypeError (a : TypeSignature) (b : TypeSignature)
| TypeLiteralError (a : TypeSignature) (b : TypeSignature)
| TypeValueError (a : TypeSignature) (b : Value)
| NoSuperType (a : TypeSignature) (b : TypeSignature)
| InvalidTypeDescription
| UnknownTypeName (a : string)
| UnionTypeError (a : list TypeSignature) (b : TypeSignature)
| UnionTypeValueError (a : list TypeSignature) (b : Value)
| ExpectedLiteral
| ExpectedOptionalType (a : TypeSignature)
| ExpectedResponseType (a : TypeSignature)
| ExpectedOptionalOrResponseType (a : TypeSignature)
| ExpectedOptionalValue (a : Value)
| ExpectedResponseValue (a : Value)
| ExpectedOptionalOrResponseValue (a : Value)
| CouldNotDetermineResponseOkType
| CouldNotDetermineResponseErrType
| CouldNotDetermineMatchTypes
| TypeAlreadyAnnotatedFailure
| TypeAnnotationExpectedFailure
| CheckerImplementationFailure
| BadTokenName
| DefineFTBadSignature
| DefineNFTBadSignature
| NoSuchNFT (a : string)
| NoSuchFT (a : string)
| BadTransferSTXArguments
| BadTransferFTArguments
| BadTransferNFTArguments
| BadMintFTArguments
| BadTupleFieldName
| ExpectedTuple (a : TypeSignature)
| NoSuchTupleField (a : string) (b : list (string * TypeSignature))
| EmptyTuplesNotAllowed
| BadTupleConstruction
| TupleExpectsPairs
| NoSuchDataVariable (a : string)
| BadMapName
| NoSuchMap (a : string)
| DefineFunctionBadSignature
| BadFunctionName
| BadMapTypeDefinition
| PublicFunctionMustReturnResponse (a : TypeSignature)
| DefineVariableBadSignature
| ReturnTypesMustMatch (a : TypeSignature) (b : TypeSignature)
| CircularReference (a : list string)
| NoSuchContract (a : string)
| NoSuchPublicFunction (a : string) (b : string)
| PublicFunctionNotReadOnly (a : string) (b : string)
| ContractAlreadyExists (a : string)
| ContractCallExpectName
| NoSuchBlockInfoProperty (a : string)
| GetBlockInfoExpectPropertyName
| NameAlreadyUsed (a : string)
| NonFunctionApplication
| ExpectedListApplication
| ExpectedListOrBuffer (a : TypeSignature)
| MaxLengthOverflow
| BadLetSyntax
| BadSyntaxBinding
| BadSyntaxExpectedListOfPairs
| CheckMaxContextDepthReached
| UndefinedFunction (a : string)
| UndefinedVariable (a : string)
| RequiresAtLeastArguments (a : Z) (b : Z)
| IncorrectArgumentCount (a : Z) (b : Z)
| IfArmsMustMatch (a : TypeSignature) (b : TypeSignature)
| MatchArmsMustMatch (a : TypeSignature) (b : TypeSignature)
| DefaultTypesMustMatch (a : TypeSignature) (b : TypeSignature)
| TooManyExpressions
| IllegalOrUnknownFunctionApplication (a : string)
| UnknownFunction (a : string)
| TraitReferenceUnknown (a : string)
| TraitMethodUnknown (a : string) (b : string)
| ExpectedTraitIdentifier
| ImportTraitBadSignature
| TraitReferenceNotAllowed
| BadTraitImplementation (a : string) (b : string)
| DefineTraitBadSignature
| UnexpectedTraitOrFieldReference
| TraitBasedContractCallInReadOnly
| WriteAttemptedInReadOnly
| AtBlockClosureMustBeReadOnly.

(** [InterpreterError], [RuntimeErrorType] and [ShortReturnType] of
    src/vm/errors.rs.  The errors of other libraries that some variants wrap are
    left out. *)
Inductive InterpreterError :=
| BadSender (sender : Value)
| BadSymbolicRepresentation (msg : string)
| InterpreterErrorMsg (msg : string)
| UninitializedPersistedVariable
| FailedToConstructAssetTable
| FailedToConstructEventBatch
| SqliteError
| BadFileName
| FailedToCreateDataDirectory
| MarfFailure
| FailureConstructingTupleWithType
| FailureConstructingListWithType.

Inductive RuntimeErrorType :=
| Arithmetic (msg : string)
| ArithmeticOverflow
| ArithmeticUnderflow
| SupplyOverflow (supply limit : Z)
| DivisionByZero
| ParseError (msg : string)
| ASTError
| MaxStackDepthReached
| MaxContextDepthReached
| ListDimensionTooHigh
| BadTypeConstruction
| RuntimeValueTooLarge
| BadBlockHeight (msg : string)
| TransferNonPositiveAmount
| NoSuchToken
| NotImplemented
| NoSenderInContext
| NonPositiveTokenSupply
| JSONParseError
| AttemptToFetchInTransientContext
| RuntimeBadNameValue (label value : string)
| UnknownBlockHeaderHash (bhh : list Z)
| BadBlockHash (hash : list Z)
| UnwrapFailure.

Inductive ShortReturnType :=
| ExpectedValue (v : Value)
| AssertionFailed (v : Value).

(** [vm::errors::Error]. *)
Inductive VmError :=
| Unchecked (e : CheckErrors)
| Interpreter (e : InterpreterError)
| Runtime (e : RuntimeErrorType)
| ShortReturn (e : ShortReturnType).

(** * Operations on types *)

(** [TypeSignature::is_no_type]. *)
Definition is_no_type (t : TypeSignature) : bool := type_eqb NoType t.

Definition is_response_type (t : TypeSignature) : bool :=
  match t with ResponseType _ _ => true | _ => false end.

(** ** Depth and sizes *)

Fixpoint depth (t : TypeSignature) : Z :=
  match t with
  | TupleType m => wrap 8 (1 + foldl (fun mx kv => Z.max mx (depth kv.2)) 0 m)
  | ListType _ e => wrap 8 (1 + depth e)
  | OptionalType t => wrap 8 (1 + depth t)
  | ResponseType a b => wrap 8 (1 + Z.max (depth a) (depth b))
  | _ => 1
  end.

(** [name.len() as u32]; [ClarityName::len] unwraps a conversion to [u8]. *)
Definition name_len (n : string) : Res unit Z :=
  if str_len n <=? 255 then Ok (str_len n) else Panic.

(** The check that closes each of the size functions of composite types. *)
Definition cap_size (z : Z) : Res unit Z := if MAX_VALUE_SIZE <? z then Err tt else Ok z.

(** [inner_type_size], with [ListTypeData::type_size] and
    [TupleTypeSignature::type_size]; [None] is [Err tt]. *)
Fixpoint inner_type_size (t : TypeSignature) : Res unit Z :=
  match t with
  | NoType | IntType | UIntType | BoolType | PrincipalType => Ok 1
  | BufferType _ => Ok (1 + 4)
  | TupleType m =>
    n ← ok_or (checked_u 32 (Z.of_nat (length m))) tt;
    z ← ok_or (checked_mul 32 n 2) tt;
    total ← foldM (fun acc kv =>
        s ← inner_type_size kv.2;
        acc ← ok_or (checked_add 32 acc s) tt;
        l ← name_len kv.1;
        ok_or (checked_add 32 acc l) tt) z m;
    cap_size total
  | ListType _ e =>
    s ← inner_type_size e;
    total ← ok_or (checked_add 32 s (4 + 1)) tt;
    cap_size total
  | OptionalType t => s ← inner_type_size t; ok_or (checked_add 32 s 1) tt
  | ResponseType a b =>
    s ← inner_type_size a;
    r ← inner_type_size b;
    s ← ok_or (checked_add 32 s r) tt;
    ok_or (checked_add 32 s 1) tt
  | TraitReferenceType _ => Ok 1
  end.

(** [TypeSignature::type_size]. *)
Definition type_size (t : TypeSignature) : Res CheckErrors Z :=
  map_err (fun _ => ValueTooLarge) (inner_type_size t).

(** [inner_size], with those of [ListTypeData] and [TupleTypeSignature]; the
    nested [size()] calls panic where the inner size is [None]. *)
Fixpoint inner_size (t : TypeSignature) : Res unit Z :=
  match t with
  | NoType => Ok 1
  | IntType => Ok 16
  | UIntType => Ok 16
  | BoolType => Ok 1
  | PrincipalType => Ok 148
  | BufferType len => Ok (wrap 32 (4 + len))
  | TupleType m =>
    n ← ok_or (checked_u 32 (Z.of_nat (length m))) tt;
    z ← ok_or (checked_mul 32 n 2) tt;
    ts ← inner_type_size (TupleType m);
    z ← ok_or (checked_add 32 z ts) tt;
    total ← foldM (fun acc kv =>
        s ← expect (inner_size kv.2);
        acc ← ok_or (checked_add 32 acc s) tt;
        l ← name_len kv.1;
        ok_or (checked_add 32 acc l) tt) z m;
    cap_size total
  | ListType max_len e =>
    s ← expect (inner_size e);
    z ← ok_or (checked_mul 32 s max_len) tt;
    ts ← inner_type_size (ListType max_len e);
    total ← ok_or (checked_add 32 z ts) tt;
    cap_size total
  | OptionalType t => s ← expect (inner_size t); ok_or (checked_add 32 s WRAPPER_VALUE_SIZE) tt
  | ResponseType a b =>
    t_size ← expect (inner_size a);
    s_size ← expect (inner_size b);
    ok_or (checked_add 32 (Z.max t_size s_size) WRAPPER_VALUE_SIZE) tt
  | TraitReferenceType _ => Ok 276
  end.

(** [TypeSignature::size]: panics where [inner_size] is [None]. *)
Definition size {E} (t : TypeSignature) : Res E Z := expect (inner_size t).

(** ** Guarded constructors *)

(** [BufferLength::try_from] at [u32], [usize] and [i128]. *)
Definition BufferLength_try_from (data : Z) : Res CheckErrors Z :=
  if MAX_VALUE_SIZE <? data then Err ValueTooLarge else Ok data.
Definition BufferLength_try_from_i128 (data : Z) : Res CheckErrors Z :=
  if MAX_VALUE_SIZE <? data then Err ValueTooLarge else Ok (wrap 32 data).

(** [ListTypeData::new_list]; a [ListTypeData] on its own is the pair of its
    maximum length and entry type. *)
Definition new_list (entry_type : TypeSignature) (max_len : Z)
  : Res CheckErrors (Z * TypeSignature) :=
  let would_be_depth := wrap 8 (1 + depth entry_type) in
  if MAX_TYPE_DEPTH <? would_be_depth then Err TypeSignatureTooDeep
  else
    would_be_size ← map_err (fun _ => ValueTooLarge) (inner_size (ListType max_len entry_type));
    if MAX_VALUE_SIZE <? would_be_size then Err ValueTooLarge else Ok (max_len, entry_type).

(** [TypeSignature::list_of]. *)
Definition list_of (item_type : TypeSignature) (max_len : Z) : Res CheckErrors TypeSignature :=
  l ← new_list item_type max_len; Ok (ListType l.1 l.2).

Definition new_option (inner_type : TypeSignature) : Res CheckErrors TypeSignature :=
  s ← size inner_type;
  let new_size := wrap 32 (WRAPPER_VALUE_SIZE + s) in
  let new_depth := wrap 8 (1 + depth inner_type) in
  if MAX_VALUE_SIZE <? new_size then Err ValueTooLarge
  else if MAX_TYPE_DEPTH <? new_depth then Err TypeSignatureTooDeep
  else Ok (OptionalType inner_type).

Definition new_response (ok_type err_type : TypeSignature) : Res CheckErrors TypeSignature :=
  s1 ← size ok_type;
  s2 ← size err_type;
  let new_size := wrap 32 (WRAPPER_VALUE_SIZE + Z.max s1 s2) in
  let new_depth := wrap 8 (1 + Z.max (depth ok_type) (depth err_type)) in
  if MAX_VALUE_SIZE <? new_size then Err ValueTooLarge
  else if MAX_TYPE_DEPTH <? new_depth then Err TypeSignatureTooDeep
  else Ok (ResponseType ok_type err_type).

(** [TupleTypeSignature::try_from(BTreeMap)]. *)
Definition TupleTypeSignature_try_from (type_map : list (string * TypeSignature))
  : Res CheckErrors (list (string * TypeSignature)) :=
  if decide (length type_map = 0%nat) then Err EmptyTuplesNotAllowed
  else if existsb (fun kv => MAX_TYPE_DEPTH <? wrap 8 (1 + depth kv.2)) type_map
  then Err TypeSignatureTooDeep
  else
    would_be_size ← map_err (fun _ => ValueTooLarge) (inner_size (TupleType type_map));
    if MAX_VALUE_SIZE <? would_be_size then Err ValueTooLarge else Ok type_map.

(** [TupleTypeSignature::try_from(Vec)]. *)
Definition TupleTypeSignature_try_from_vec (type_data : list (string * TypeSignature))
  : Res CheckErrors (list (string * TypeSignature)) :=
  if decide (length type_data = 0%nat) then Err EmptyTuplesNotAllowed
  else
    type_map ← foldM (fun acc kv =>
      if bt_contains kv.1 acc then Err (NameAlreadyUsed kv.1)
      else Ok (bt_insert kv.1 kv.2 acc)) [] type_data;
    TupleTypeSignature_try_from type_map.

(** [TypeSignature::empty_list]. *)
Definition empty_list : Z * TypeSignature := (0, NoType).

Definition max_buffer : TypeSignature := BufferType MAX_VALUE_SIZE.

(** ** Subtyping *)

(** [TypeSignature::admits_type], with [TupleTypeSignature::admits]. *)
Fixpoint admits_type (self other : TypeSignature) : Res Empty_set bool :=
  match self with
  | ListType my_max my_entry =>
    match other with
    | ListType other_max other_entry =>
      if other_max <=? 0 then Ok true
      else if other_max <=? my_max then admits_type my_entry other_entry
      else Ok false
    | _ => Ok false
    end
  | OptionalType my_inner =>
    match other with
    | OptionalType other_inner =>
      if is_no_type other_inner then Ok true else admits_type my_inner other_inner
    | _ => Ok false
    end
  | ResponseType my_ok my_err =>
    match other with
    | ResponseType other_ok other_err =>
      if is_no_type other_ok then admits_type my_err other_err
      else if is_no_type other_err then admits_type my_ok other_ok
      else
        b ← admits_type my_err other_err;
        if (b : bool) then admits_type my_ok other_ok else Ok false
    | _ => Ok false
    end
  | BufferType my_len =>
    match other with
    | BufferType other_len => Ok (other_len <=? my_len)
    | _ => Ok false
    end
  | TupleType tuple_sig =>
    match other with
    | TupleType other_sig =>
      if negb (Nat.eqb (length tuple_sig) (length other_sig)) then Ok false
      else
        (fix go (l : list (string * TypeSignature)) : Res Empty_set bool :=
           match l with
           | [] => Ok true
           | (name, my_type) :: l' =>
             match bt_get name other_sig with
             | Some other_type =>
               b ← admits_type my_type other_type;
               if (b : bool) then go l' else Ok false
             | None => Ok false
             end
           end) tuple_sig
    | _ => Ok false
    end
  | NoType => Panic
  | _ => Ok (type_eqb other self)
  end.

(** [TypeSignature::least_supertype], with [factor_out_no_type]. *)
Fixpoint least_supertype (a b : TypeSignature) : Res CheckErrors TypeSignature :=
  let factor_out_no_type (a b : TypeSignature) (lst : TypeSignature -> Res CheckErrors TypeSignature) :=
    if is_no_type a then Ok b
    else if is_no_type b then Ok a
    else lst b in
  match a, b with
  | TupleType types_a, TupleType types_b =>
    if negb (Nat.eqb (length types_a) (length types_b)) then Err (TypeError a b)
    else
      type_map_out ← foldM (fun out kv =>
        entry_b ← ok_or (bt_get kv.1 types_b) (TypeError a b);
        entry_out ← least_supertype kv.2 entry_b;
        mret (bt_insert kv.1 entry_out out)) [] types_a;
      expect (r ← TupleTypeSignature_try_from type_map_out; mret (TupleType r))
  | ListType len_a entry_a, ListType len_b entry_b =>
    entry_type ← (if len_a =? 0 then Ok entry_b
                  else if len_b =? 0 then Ok entry_a
                  else least_supertype entry_a entry_b);
    expect (list_of entry_type (Z.max len_a len_b))
  | ResponseType ok_a err_a, ResponseType ok_b err_b =>
    ok_type ← factor_out_no_type ok_a ok_b (least_supertype ok_a);
    err_type ← factor_out_no_type err_a err_b (least_supertype err_a);
    new_response ok_type err_type
  | OptionalType some_a, OptionalType some_b =>
    some_type ← factor_out_no_type some_a some_b (least_supertype some_a);
    new_option some_type
  | BufferType buff_a, BufferType buff_b =>
    Ok (BufferType (if buff_b <? buff_a then buff_a else buff_b))
  | NoType, x => Ok x
  | x, NoType => Ok x
  | x, y => if type_eqb x y then Ok x else Err (TypeError a b)
  end.

(** [parent_list_type], the type of a list literal from those of its items. *)
Definition parent_list_type (children : list TypeSignature)
  : Res CheckErrors (Z * TypeSignature) :=
  match children with
  | first :: rest =>
    current_entry_type ← foldM least_supertype first rest;
    len ← ok_or (checked_u 32 (Z.of_nat (length children))) ValueTooLarge;
    new_list current_entry_type len
  | [] => Ok empty_list
  end.

(** * Values and their types *)

(** [TypeSignature::type_of], with the [type_signature] methods of
    [OptionalData] and [ResponseData]. *)
Fixpoint type_of (x : Value) : Res Empty_set TypeSignature :=
  match x with
  | VPrincipal _ => Ok PrincipalType
  | VInt _ => Ok IntType
  | VUInt _ => Ok UIntType
  | VBool _ => Ok BoolType
  | VBuffer data =>
    buff_length ← expect (BufferLength_try_from (Z.of_nat (length data)));
    Ok (BufferType buff_length)
  | VTuple ts _ => Ok (TupleType ts)
  | VList _ max_len entry_type => Ok (ListType max_len entry_type)
  | VOptional (Some v) => t ← type_of v; expect (new_option t)
  | VOptional None => expect (new_option NoType)
  | VResponse true v => t ← type_of v; expect (new_response t NoType)
  | VResponse false v => t ← type_of v; expect (new_response NoType t)
  end.

(** [TypeSignature::admits]. *)
Definition admits {E} (t : TypeSignature) (x : Value) : Res E bool :=
  lift_panic (x_type ← type_of x; admits_type t x_type).

(** [Value::size] and [Value::depth]. *)
Definition value_size {E} (v : Value) : Res E Z := lift_panic (t ← type_of v; size t).
Definition value_depth {E} (v : Value) : Res E Z := lift_panic (t ← type_of v; mret (depth t)).

(** The check shared by [Value::some], [Value::okay] and [Value::error]. *)
Definition check_wrapped (data : Value) : Res VmError unit :=
  s ← value_size data;
  if MAX_VALUE_SIZE <? wrap 32 (s + WRAPPER_VALUE_SIZE) then Err (Unchecked ValueTooLarge)
  else
    d ← value_depth data;
    if MAX_TYPE_DEPTH <? wrap 8 (d + 1) then Err (Unchecked TypeSignatureTooDeep)
    else Ok tt.

Definition Value_some (data : Value) : Res VmError Value :=
  _ ← check_wrapped data; Ok (VOptional (Some data)).
Definition Value_okay (data : Value) : Res VmError Value :=
  _ ← check_wrapped data; Ok (VResponse true data).
Definition Value_error (data : Value) : Res VmError Value :=
  _ ← check_wrapped data; Ok (VResponse false data).
Definition Value_none : Value := VOptional None.

(** [Value::list_with_type]. *)
Definition list_with_type (list_data : list Value) (max_len : Z) (entry_type : TypeSignature)
  : Res VmError Value :=
  if max_len <? Z.of_nat (length list_data)
  then Err (Interpreter FailureConstructingListWithType)
  else
    _ ← foldM (fun _ item =>
          b ← admits entry_type item;
          if (b : bool) then Ok tt else Err (Interpreter FailureConstructingListWithType))
        tt list_data;
    Ok (VList list_data max_len entry_type).

(** [construct_parent_list_type]. *)
Definition construct_parent_list_type (args : list Value) : Res CheckErrors (Z * TypeSignature) :=
  children_types ← lift_panic (mapMR type_of args);
  parent_list_type children_types.

(** [Value::list_from]. *)
Definition list_from (list_data : list Value) : Res VmError Value :=
  type_sig ← map_err Unchecked (construct_parent_list_type list_data);
  Ok (VList list_data type_sig.1 type_sig.2).

(** [Value::buff_from]. *)
Definition buff_from (buff_data : list Z) : Res VmError Value :=
  _ ← map_err Unchecked (BufferLength_try_from (Z.of_nat (length buff_data)));
  Ok (VBuffer buff_data).

(** [TupleData::from_data]. *)
Definition tuple_from_data (data : list (string * Value)) : Res VmError Value :=
  '(type_map, data_map) ← foldM (fun acc kv =>
      type_info ← lift_panic (type_of kv.2);
      if bt_contains kv.1 (fst acc) then Err (Unchecked (NameAlreadyUsed kv.1))
      else Ok (bt_insert kv.1 type_info (fst acc), bt_insert kv.1 kv.2 (snd acc)))
    ([], []) data;
  ts ← map_err Unchecked (TupleTypeSignature_try_from type_map);
  Ok (VTuple ts data_map).

(** [TupleData::from_data_typed]. *)
Definition tuple_from_data_typed (data : list (string * Value))
    (expected : list (string * TypeSignature)) : Res VmError Value :=
  data_map ← foldM (fun acc kv =>
      expected_type ← ok_or (bt_get kv.1 expected) (Interpreter FailureConstructingTupleWithType);
      b ← admits expected_type kv.2;
      if (b : bool) then Ok (bt_insert kv.1 kv.2 acc)
      else Err (Interpreter FailureConstructingTupleWithType)) [] data;
  Ok (VTuple expected data_map).

(** [TupleData::get]. *)
Definition tuple_get (ts : list (string * TypeSignature)) (data_map : list (string * Value))
    (name : string) : Res VmError Value :=
  ok_or (bt_get name data_map) (Unchecked (NoSuchTupleField name ts)).

(** [PartialEq] on values: the types recorded in lists and tuples do not count. *)
Fixpoint value_eqb (a b : Value) {struct a} : bool :=
  match a, b with
  | VInt i, VInt j => i =? j
  | VUInt i, VUInt j => i =? j
  | VBool x, VBool y => Bool.eqb x y
  | VBuffer x, VBuffer y => bool_decide (x = y)
  | VList l _ _, VList l' _ _ =>
    (fix go (l l' : list Value) : bool :=
       match l, l' with
       | [], [] => true
       | x :: l, x' :: l' => value_eqb x x' && go l l'
       | _, _ => false
       end) l l'
  | VPrincipal p, VPrincipal q => bool_decide (p = q)
  | VTuple _ m, VTuple _ m' =>
    (fix go (m m' : list (string * Value)) : bool :=
       match m, m' with
       | [], [] => true
       | (k, x) :: m, (k', x') :: m' => bool_decide (k = k') && value_eqb x x' && go m m'
       | _, _ => false
       end) m m'
  | VOptional None, VOptional None => true
  | VOptional (Some x), VOptional (Some y) => value_eqb x y
  | VResponse c x, VResponse d y => Bool.eqb c d && value_eqb x y
  | _, _ => false
  end.
