(* ===== verification/Representations.v ===== *)
(** The data of programs and contracts: src/vm/representations.rs,
    src/vm/callables.rs, [ContractContext] of src/vm/contexts.rs and [Contract]
    of src/vm/contracts.rs.  The source spans of the developer mode are not
    kept. *)
From stdpp Require Import base strings numbers list gmap.
From Stdlib Require Import ZArith Lia.
From S2P Require Import Prelude Names Types.
#[local] Open Scope Z_scope.

Inductive TraitDefinition :=
| Defined (t : TraitIdentifier)
| Imported (t : TraitIdentifier).

(** [SymbolicExpression] with its [SymbolicExpressionType]; the first argument is
    the field [id]. *)
Inductive SymbolicExpression :=
| AtomValue (id : Z) (v : Value)
| Atom (id : Z) (n : string)
| SList (id : Z) (l : list SymbolicExpression)
| LiteralValue (id : Z) (v : Value)
| Field (id : Z) (t : TraitIdentifier)
| TraitReference (id : Z) (n : string) (d : TraitDefinition).

(** [SymbolicExpression::list] and the like: the id of a fresh expression is 0. *)
Definition atom_value (v : Value) : SymbolicExpression := AtomValue 0 v.
Definition atom (n : string) : SymbolicExpression := Atom 0 n.
Definition literal_value (v : Value) : SymbolicExpression := LiteralValue 0 v.
Definition slist (l : list SymbolicExpression) : SymbolicExpression := SList 0 l.

Definition match_list (e : SymbolicExpression) : option (list SymbolicExpression) :=
  match e with SList _ l => Some l | _ => None end.
Definition match_atom (e : SymbolicExpression) : option string :=
  match e with Atom _ n => Some n | _ => None end.
Definition match_atom_value (e : SymbolicExpression) : option Value :=
  match e with AtomValue _ v => Some v | _ => None end.
Definition match_literal_value (e : SymbolicExpression) : option Value :=
  match e with LiteralValue _ v => Some v | _ => None end.
Definition match_trait_reference (e : SymbolicExpression) : option string :=
  match e with TraitReference _ n _ => Some n | _ => None end.
Definition match_field (e : SymbolicExpression) : option TraitIdentifier :=
  match e with Field _ t => Some t | _ => None end.

Record FunctionSignature := mkSignature { fs_args : list TypeSignature; fs_returns : TypeSignature }.

Inductive DefineType := DefineReadOnly | DefinePublic | DefinePrivate.

Record DefinedFunction := mkFunction {
  fn_identifier : string;
  fn_name : string;
  fn_arg_types : list TypeSignature;
  fn_define_type : DefineType;
  fn_arguments : list string;
  fn_body : SymbolicExpression;
}.

(** [DefinedFunction::new]. *)
Definition DefinedFunction_new (arguments : list (string * TypeSignature)) (body : SymbolicExpression)
    (define_type : DefineType) (name context_name : string) : DefinedFunction :=
  mkFunction (context_name +:+ ":" +:+ name) name arguments.*2 define_type arguments.*1 body.

(** [is_read_only] and [is_public]. *)
Definition fn_is_read_only (f : DefinedFunction) : bool :=
  match fn_define_type f with DefineReadOnly => true | _ => false end.
Definition fn_is_public (f : DefinedFunction) : bool :=
  match fn_define_type f with DefinePublic | DefineReadOnly => true | DefinePrivate => false end.

Record ContractContext := mkContractContext {
  cx_contract_identifier : QualifiedContractIdentifier;
  cx_variables : gmap string Value;
  cx_functions : gmap string DefinedFunction;
  cx_defined_traits : gmap string (list (string * FunctionSignature));
  cx_implemented_traits : gset TraitIdentifier;
  cx_persisted_names : gset string;
  cx_data_size : Z;
}.

Definition ContractContext_new (contract_identifier : QualifiedContractIdentifier) : ContractContext :=
  mkContractContext contract_identifier ∅ ∅ ∅ ∅ ∅ 0.

Record ContractData := mkContract { contract_context : ContractContext }.
