(* ===== verification/TypeFacts.v ===== *)
(** Facts about Clarity types: the invariant the guarded constructors of
    src/vm/types/signatures.rs maintain, and the bounds it gives for sizes
    and depths. *)
From stdpp Require Import base list strings sets sorting.
From Stdlib Require Import ZArith Lia.
From S2P Require Import Prelude Names BTree Types.
#[local] Open Scope Z_scope.

(** * Equality *)

Lemma type_eqb_eq a b : type_eqb a b = true <-> a = b.
Proof.
  revert b; induction a using TypeSignature_ind'; intros b; destruct b; cbn; try done;
    rewrite ?andb_true_iff, ?bool_decide_eq_true, ?Z.eqb_eq.
  - split; [by intros ->|by intros [=]].
  - rewrite IHa. split; [by intros [-> ->]|by intros [=]].
  - rename type_map into m2. assert (forall m2,
      (fix go m1 m2 :=
         match m1, m2 with
         | [], [] => true
         | (k1, t1) :: m1', (k2, t2) :: m2' =>
           bool_decide (k1 = k2) && type_eqb t1 t2 && go m1' m2'
         | _, _ => false
         end) m m2 = true <-> m = m2) as Hgo.
    { clear m2. induction H as [|[k t] m Ht Hm IH]; intros [|[k2 t2] m2]; try done.
      rewrite !andb_true_iff, IH, bool_decide_eq_true, Ht. cbn. naive_solver. }
    rewrite Hgo. split; [by intros ->|by intros [=]].
  - rewrite IHa. split; [by intros ->|by intros [=]].
  - rewrite IHa1, IHa2. split; [by intros [-> ->]|by intros [=]].
  - split; [by intros ->|by intros [=]].
Qed.

#[global] Instance TypeSignature_eq_dec : EqDecision TypeSignature.
Proof.
  intros a b. destruct (type_eqb a b) eqn:E; [left|right].
  - by apply type_eqb_eq.
  - intros H%type_eqb_eq. congruence.
Defined.

Lemma is_no_type_true t : is_no_type t = true <-> t = NoType.
Proof. unfold is_no_type. rewrite type_eqb_eq. naive_solver. Qed.

Lemma is_no_type_false t : is_no_type t = false <-> t <> NoType.
Proof. rewrite <-is_no_type_true. destruct (is_no_type t); naive_solver. Qed.

(** * The invariant of constructed types *)

(** What the guarded constructors guarantee: bounded buffers, sorted non-empty
    tuples with valid names, no type deeper than [MAX_TYPE_DEPTH], and sizes
    that are defined and within [MAX_VALUE_SIZE]. *)
Fixpoint wf_typeb (t : TypeSignature) : bool :=
  match t with
  | BufferType n => (0 <=? n) && (n <=? MAX_VALUE_SIZE)
  | ListType n e =>
    wf_typeb e && bool_decide (in_u 32 n) && (depth e <? MAX_TYPE_DEPTH) && is_ok (inner_size t)
  | TupleType m =>
    negb (Nat.eqb (length m) 0) && bt_sortedb m
    && forallb (fun kv => clarity_name_ok kv.1 && wf_typeb kv.2 && (depth kv.2 <? MAX_TYPE_DEPTH)) m
    && is_ok (inner_size t)
  | OptionalType s =>
    wf_typeb s && (depth s <? MAX_TYPE_DEPTH)
    && match inner_size s with Ok z => z + WRAPPER_VALUE_SIZE <=? MAX_VALUE_SIZE | _ => false end
  | ResponseType a b =>
    wf_typeb a && wf_typeb b && (Z.max (depth a) (depth b) <? MAX_TYPE_DEPTH)
    && match inner_size a, inner_size b with
       | Ok y, Ok z => Z.max y z + WRAPPER_VALUE_SIZE <=? MAX_VALUE_SIZE
       | _, _ => false
       end
  | _ => true
  end.
Definition wf_type (t : TypeSignature) : Prop := wf_typeb t = true.
Arguments wf_type : simpl never.

Lemma wf_buffer n : wf_type (BufferType n) <-> 0 <= n <= MAX_VALUE_SIZE.
Proof. unfold wf_type; cbn. lia. Qed.

Lemma wf_list n e :
  wf_type (ListType n e) <->
  wf_type e /\ in_u 32 n /\ depth e < MAX_TYPE_DEPTH /\ exists z, inner_size (ListType n e) = Ok z.
Proof.
  unfold wf_type. cbn [wf_typeb].
  rewrite !andb_true_iff, bool_decide_eq_true, is_ok_true, Z.ltb_lt. tauto.
Qed.

Definition wf_entry (kv : string * TypeSignature) : Prop :=
  clarity_name_ok kv.1 = true /\ wf_type kv.2 /\ depth kv.2 < MAX_TYPE_DEPTH.

Lemma wf_tuple m :
  wf_type (TupleType m) <->
  m <> [] /\ bt_sorted m /\ Forall wf_entry m /\ exists z, inner_size (TupleType m) = Ok z.
Proof.
  unfold wf_type. cbn [wf_typeb].
  rewrite !andb_true_iff, is_ok_true, negb_true_iff, Nat.eqb_neq.
  unfold bt_sortedb. rewrite bool_decide_eq_true.
  assert (forallb (fun kv => clarity_name_ok kv.1 && wf_typeb kv.2 && (depth kv.2 <? MAX_TYPE_DEPTH)) m = true
          <-> Forall wf_entry m) as ->.
  { rewrite forallb_forall, List.Forall_forall. unfold wf_entry, wf_type.
    split; intros H x Hx; specialize (H x Hx); rewrite ?andb_true_iff, ?Z.ltb_lt in *; tauto. }
  assert (length m <> 0%nat <-> m <> []) as -> by (destruct m; naive_solver).
  unfold bt_sorted. tauto.
Qed.

Lemma wf_optional s :
  wf_type (OptionalType s) <->
  wf_type s /\ depth s < MAX_TYPE_DEPTH /\
  exists z, inner_size s = Ok z /\ z + WRAPPER_VALUE_SIZE <= MAX_VALUE_SIZE.
Proof.
  unfold wf_type. cbn [wf_typeb]. rewrite !andb_true_iff, Z.ltb_lt.
  destruct (inner_size s) eqn:E; rewrite ?Z.leb_le; naive_solver.
Qed.

Lemma wf_response a b :
  wf_type (ResponseType a b) <->
  wf_type a /\ wf_type b /\ Z.max (depth a) (depth b) < MAX_TYPE_DEPTH /\
  exists y z, inner_size a = Ok y /\ inner_size b = Ok z /\
    Z.max y z + WRAPPER_VALUE_SIZE <= MAX_VALUE_SIZE.
Proof.
  unfold wf_type. cbn [wf_typeb]. rewrite !andb_true_iff, Z.ltb_lt.
  destruct (inner_size a) eqn:E, (inner_size b) eqn:E2; rewrite ?Z.leb_le; naive_solver.
Qed.

Lemma wf_no_type : wf_type NoType.
Proof. done. Qed.
#[export] Hint Resolve wf_no_type : stacks.

(** ** Depth and size bounds *)

Lemma foldl_max_spec {A} (f : A -> Z) l acc :
  let r := foldl (fun mx x => Z.max mx (f x)) acc l in
  acc <= r /\ (forall x, x ∈ l -> f x <= r) /\ (r = acc \/ exists x, x ∈ l /\ r = f x).
Proof.
  revert acc; induction l as [|y l IH]; intros acc; cbn.
  - split_and!; [lia|intros x Hx; by apply not_elem_of_nil in Hx|by left].
  - destruct (IH (Z.max acc (f y))) as (H1 & H2 & H3). split_and!; [lia| |].
    + intros x [->|Hx]%elem_of_cons; [lia|auto].
    + destruct H3 as [H3|(x & Hx & H3)].
      * destruct (Z.max_spec acc (f y)) as [[_ E]|[_ E]]; rewrite E in *; [right|by left].
        exists y. split; [by left|done].
      * right. exists x. split; [by right|done].
Qed.

Lemma depth_pos_wf t : wf_type t -> 1 <= depth t <= MAX_TYPE_DEPTH.
Proof.
  unfold MAX_TYPE_DEPTH.
  induction t using TypeSignature_ind'; intros Hwf; try (cbn; lia).
  - apply wf_list in Hwf as (He & _ & Hd & _). specialize (IHt He). unfold MAX_TYPE_DEPTH in *.
    cbn [depth]. rewrite wrap_small; unfold in_u; lia.
  - apply wf_tuple in Hwf as (_ & _ & Hm & _).
    cbn [depth]. destruct (foldl_max_spec (fun kv => depth kv.2) m 0) as (H1 & H2 & H3).
    rewrite wrap_small; unfold in_u; [|destruct H3 as [->|(x & Hx & ->)]; [lia|]].
    + split; [lia|]. destruct H3 as [->|(x & Hx & ->)]; [lia|].
      rewrite Forall_forall in Hm. destruct (Hm x Hx) as (_ & _ & Hd). unfold MAX_TYPE_DEPTH in Hd. lia.
    + rewrite Forall_forall in H, Hm. destruct (Hm x Hx) as (_ & Hwf & Hd).
      specialize (H x Hx Hwf). cbn in H. lia.
  - apply wf_optional in Hwf as (He & Hd & _). specialize (IHt He). unfold MAX_TYPE_DEPTH in *.
    cbn [depth]. rewrite wrap_small; unfold in_u; lia.
  - apply wf_response in Hwf as (Ha & Hb & Hd & _). specialize (IHt1 Ha); specialize (IHt2 Hb).
    unfold MAX_TYPE_DEPTH in *. cbn [depth]. rewrite wrap_small; unfold in_u; lia.
Qed.

Lemma cap_size_Ok z z' : cap_size z = Ok z' <-> z' = z /\ z <= MAX_VALUE_SIZE.
Proof. unfold cap_size. destruct (Z.ltb_spec MAX_VALUE_SIZE z); naive_solver lia. Qed.

Lemma name_len_Ok n z : name_len n = Ok z <-> z = str_len n /\ str_len n <= 255.
Proof. unfold name_len. destruct (Z.leb_spec (str_len n) 255); naive_solver lia. Qed.

Lemma str_len_nonneg s : 0 <= str_len s.
Proof. unfold str_len. lia. Qed.

(** Unfolds the checked arithmetic of the size functions. *)
Ltac size_inv :=
  res_inv;
  repeat match goal with
  | H : cap_size _ = Ok _ |- _ => apply cap_size_Ok in H; destruct H as [? ?]
  | H : name_len _ = Ok _ |- _ => apply name_len_Ok in H; destruct H as [? ?]
  end; checked_inv; subst.

Lemma inner_type_size_nonneg t z : inner_type_size t = Ok z -> 0 <= z.
Proof.
  revert z; induction t using TypeSignature_ind'; cbn [inner_type_size]; intros z Hz;
    size_inv; try lia.
  match goal with H : foldM _ _ _ = Ok _ |- _ =>
    eapply (foldM_inv (fun b => 0 <= b)) in H; [exact H| |lia] end.
  intros b kv b' _ _ Hb'. size_inv. lia.
Qed.

Lemma inner_size_nonneg t z : inner_size t = Ok z -> 0 <= z.
Proof.
  destruct t; cbn [inner_size]; intros Hz; size_inv; try lia.
  - unfold wrap. pose proof (Z.mod_pos_bound (4 + len) (2 ^ 32)). lia.
  - match goal with H : foldM _ _ _ = Ok _ |- _ =>
      eapply (foldM_inv (fun b => 0 <= b)) in H; [exact H| |lia] end.
    intros b kv b' _ _ Hb'. size_inv. lia.
Qed.

Lemma inner_size_bounds t :
  wf_type t -> exists z, inner_size t = Ok z /\ 1 <= z <= MAX_VALUE_SIZE + 4.
Proof.
  destruct t; intros Hwf; try (by eexists; split; [reflexivity|unfold MAX_VALUE_SIZE; lia]).
  - apply wf_buffer in Hwf. eexists; split; [reflexivity|]. unfold MAX_VALUE_SIZE in *.
    rewrite wrap_small; unfold in_u; lia.
  - apply wf_list in Hwf as (_ & _ & _ & z & Hz). exists z; split; [done|].
    cbn [inner_size inner_type_size] in Hz. size_inv.
    match goal with H : inner_type_size _ = Ok _ |- _ => apply inner_type_size_nonneg in H end. lia.
  - apply wf_tuple in Hwf as (Hne & _ & _ & z & Hz). exists z; split; [done|].
    cbn [inner_size] in Hz. size_inv.
    match goal with H : inner_type_size _ = Ok _ |- _ => apply inner_type_size_nonneg in H end.
    split; [|lia]. assert (1 <= Z.of_nat (length type_map)) by (destruct type_map; [done|cbn; lia]).
    match goal with H : foldM _ _ _ = Ok _ |- _ =>
      eapply (foldM_inv (fun z => 1 <= z)) in H; [exact H| |lia] end.
    intros b kv b' Hb _ Hb'. size_inv. pose proof (str_len_nonneg kv.1).
    match goal with H : inner_size _ = Ok _ |- _ => apply inner_size_nonneg in H end. lia.
  - apply wf_optional in Hwf as (_ & _ & z & Hz & Hle). cbn [inner_size]. rewrite Hz. cbn.
    apply inner_size_nonneg in Hz. unfold WRAPPER_VALUE_SIZE, MAX_VALUE_SIZE in *.
    eexists; split; [by rewrite checked_add_in by (unfold in_u; lia)|lia].
  - apply wf_response in Hwf as (_ & _ & _ & y & z & Hy & Hz & Hle). cbn [inner_size].
    rewrite Hy, Hz. cbn. apply inner_size_nonneg in Hy, Hz.
    unfold WRAPPER_VALUE_SIZE, MAX_VALUE_SIZE in *.
    eexists; split; [by rewrite checked_add_in by (unfold in_u; lia)|lia].
Qed.

Lemma size_wf {E} t : wf_type t -> exists z, size (E := E) t = Ok z /\ 1 <= z <= MAX_VALUE_SIZE + 4.
Proof. intros Hwf. destruct (inner_size_bounds t Hwf) as (z & Hz & ?). exists z. unfold size. by rewrite Hz. Qed.

(** ** The guarded constructors establish the invariant *)

Lemma depth_wrap t : wf_type t -> wrap 8 (1 + depth t) = 1 + depth t.
Proof.
  intros Hwf. pose proof (depth_pos_wf t Hwf). unfold MAX_TYPE_DEPTH in *.
  apply wrap_small. unfold in_u; lia.
Qed.

Lemma new_list_wf e n r :
  wf_type e -> in_u 32 n -> new_list e n = Ok r -> r = (n, e) /\ wf_type (ListType n e).
Proof.
  intros He Hn. unfold new_list. rewrite depth_wrap by done.
  destruct (Z.ltb_spec MAX_TYPE_DEPTH (1 + depth e)); [done|].
  intros Hl. apply bind_Ok in Hl as (z & Hz & Hl). apply map_err_Ok in Hz.
  destruct (MAX_VALUE_SIZE <? z); [done|]. injection Hl as <-. split; [done|].
  apply wf_list. split_and!; [done..|lia|eauto].
Qed.

Lemma list_of_wf e n t :
  wf_type e -> in_u 32 n -> list_of e n = Ok t -> t = ListType n e /\ wf_type t.
Proof.
  intros He Hn Hl. unfold list_of in Hl. apply bind_Ok in Hl as (r & Hr & [= <-]).
  apply new_list_wf in Hr as [-> ?]; [|done..]. done.
Qed.

Lemma new_option_wf s t : wf_type s -> new_option s = Ok t -> t = OptionalType s /\ wf_type t.
Proof.
  intros Hs. unfold new_option. destruct (inner_size_bounds s Hs) as (z & Hz & Hb).
  unfold size. rewrite Hz. cbn. rewrite depth_wrap by done. unfold MAX_VALUE_SIZE, WRAPPER_VALUE_SIZE in *.
  rewrite wrap_small by (unfold in_u; lia).
  destruct (Z.ltb_spec (1024 * 1024) (1 + z)); [done|].
  destruct (Z.ltb_spec MAX_TYPE_DEPTH (1 + depth s)); [done|]. intros [= <-]. split; [done|].
  apply wf_optional. split_and!; [done|lia|].
  exists z. unfold WRAPPER_VALUE_SIZE, MAX_VALUE_SIZE. split; [done|lia].
Qed.

Lemma new_response_wf a b t :
  wf_type a -> wf_type b -> new_response a b = Ok t -> t = ResponseType a b /\ wf_type t.
Proof.
  intros Ha Hb. unfold new_response.
  destruct (inner_size_bounds a Ha) as (y & Hy & ?). destruct (inner_size_bounds b Hb) as (z & Hz & ?).
  unfold size. rewrite Hy, Hz. cbn. pose proof (depth_pos_wf a Ha). pose proof (depth_pos_wf b Hb).
  unfold MAX_VALUE_SIZE, MAX_TYPE_DEPTH, WRAPPER_VALUE_SIZE in *.
  rewrite !wrap_small by (unfold in_u; lia).
  destruct (Z.ltb_spec (1024 * 1024) (1 + Z.max y z)); [done|].
  destruct (Z.ltb_spec 32 (1 + Z.max (depth a) (depth b))); [done|]. intros [= <-]. split; [done|].
  apply wf_response. unfold WRAPPER_VALUE_SIZE, MAX_VALUE_SIZE, MAX_TYPE_DEPTH.
  split_and!; [done..|lia|]. exists y, z. split_and!; [done..|lia].
Qed.

Lemma tuple_try_from_wf m r :
  bt_sorted m -> Forall (fun kv => clarity_name_ok kv.1 = true /\ wf_type kv.2) m ->
  TupleTypeSignature_try_from m = Ok r -> r = m /\ wf_type (TupleType m).
Proof.
  intros Hs Hm. unfold TupleTypeSignature_try_from. case_decide as Hne; [done|].
  destruct (existsb _ m) eqn:Hex; [done|]. intros Ht. apply bind_Ok in Ht as (z & Hz & Ht).
  apply map_err_Ok in Hz. destruct (MAX_VALUE_SIZE <? z); [done|]. injection Ht as <-.
  split; [done|]. apply wf_tuple. split_and!; [by intros ->|done| |eauto].
  apply Forall_forall. intros kv Hkv. rewrite Forall_forall in Hm. destruct (Hm kv Hkv) as [Hn Hwf].
  split_and!; [done|done|].
  destruct (Z.ltb_spec MAX_TYPE_DEPTH (1 + depth kv.2)); [|lia].
  assert (existsb (fun kv => MAX_TYPE_DEPTH <? wrap 8 (1 + depth kv.2)) m = true) as Hc; [|congruence].
  apply existsb_exists. exists kv. split; [by apply list_elem_of_In|].
  rewrite depth_wrap by done. lia.
Qed.

Lemma tuple_try_from_vec_wf l r :
  Forall (fun kv => clarity_name_ok kv.1 = true /\ wf_type kv.2) l ->
  TupleTypeSignature_try_from_vec l = Ok r -> wf_type (TupleType r).
Proof.
  intros Hl. unfold TupleTypeSignature_try_from_vec. case_decide; [done|]. intros Hr.
  apply bind_Ok in Hr as (m & Hm & Hr).
  eapply (foldM_inv (fun m => bt_sorted m /\
            Forall (fun kv => clarity_name_ok kv.1 = true /\ wf_type kv.2) m)) in Hm as [Hs Hm].
  - apply tuple_try_from_wf in Hr as [-> ?]; done.
  - intros m1 kv m2 [Hs1 Hm1] Hkv. destruct (bt_contains kv.1 m1); [done|]. intros [= <-].
    split; [by apply bt_insert_sorted|]. apply Forall_forall. intros kv' Hkv'.
    rewrite Forall_forall in Hm1, Hl. destruct kv' as [k' t'], kv as [k t].
    apply bt_elem_get in Hkv'; [|by apply bt_insert_sorted]. rewrite bt_get_insert in Hkv'.
    case_decide as E; [simplify_eq; by apply Hl in Hkv|]. apply Hm1. by apply bt_get_elem.
  - split; [constructor|by apply Forall_nil].
Qed.
