(* ===== verification/Subtyping.v ===== *)
(** The subtyping order of Clarity types: [admits_type] is a preorder on the
    types of values, and what [least_supertype] returns is an upper bound. *)
From stdpp Require Import base list strings sets sorting.
From Stdlib Require Import ZArith Lia.
From S2P Require Import Prelude Names BTree Types TypeFacts.
#[local] Open Scope Z_scope.

(** * The subtyping order *)

(** [self.admits_type(other)] returns [true]. *)
Definition adm (a b : TypeSignature) : Prop := admits_type a b = Ok true.

Lemma adm_no_type b : ~ adm NoType b.
Proof. done. Qed.

Lemma adm_list n e b :
  adm (ListType n e) b <->
  exists m f, b = ListType m f /\ (m <= 0 \/ 0 < m <= n /\ adm e f).
Proof.
  unfold adm; cbn [admits_type]. split.
  - destruct b; try done. destruct (Z.leb_spec max_len 0) as [Hm|Hm]; [by eauto 10|].
    destruct (Z.leb_spec max_len n) as [Hn|Hn]; [|done]. intros H. eexists _, _; split; [done|]. right; split; [lia|done].
  - intros (m & f & -> & [Hm|[Hm Hf]]).
    + by rewrite (proj2 (Z.leb_le m 0)).
    + rewrite (proj2 (Z.leb_gt m 0)), (proj2 (Z.leb_le m n)) by lia. done.
Qed.

Lemma adm_optional t b :
  adm (OptionalType t) b <->
  exists s, b = OptionalType s /\ (s = NoType \/ s <> NoType /\ adm t s).
Proof.
  unfold adm; cbn [admits_type]. split.
  - destruct b as [| | | | | | | |s| |]; try done. intros H. exists s. split; [done|].
    destruct (is_no_type s) eqn:E.
    + apply is_no_type_true in E. by left.
    + apply is_no_type_false in E. by right.
  - intros (s & -> & [->|[Hs Ht]]); [done|]. apply is_no_type_false in Hs. by rewrite Hs.
Qed.

Lemma adm_response t1 t2 b :
  adm (ResponseType t1 t2) b <->
  exists x y, b = ResponseType x y /\
    (x = NoType /\ adm t2 y \/ x <> NoType /\ y = NoType /\ adm t1 x \/
     x <> NoType /\ y <> NoType /\ adm t2 y /\ adm t1 x).
Proof.
  unfold adm; cbn [admits_type]. split.
  - destruct b as [| | | | | | | | |x y|]; try done. intros H.
    destruct (is_no_type x) eqn:Ex; [apply is_no_type_true in Ex; by eauto 10|].
    destruct (is_no_type y) eqn:Ey; apply is_no_type_false in Ex.
    + apply is_no_type_true in Ey. eauto 10.
    + apply is_no_type_false in Ey. apply bind_Ok in H as ([] & Hb & H); [by eauto 10|done].
  - intros (x & y & -> & [[-> H]|[(Hx & -> & H)|(Hx & Hy & H2 & H1)]]); [done|..];
      apply is_no_type_false in Hx; rewrite Hx; [done|].
    apply is_no_type_false in Hy. by rewrite Hy, H2.
Qed.

Lemma adm_buffer n b : adm (BufferType n) b <-> exists m, b = BufferType m /\ m <= n.
Proof.
  unfold adm; cbn [admits_type]. split.
  - destruct b; try done. intros [= H]. eexists; split; [done|lia].
  - intros (m & -> & Hm). by rewrite (proj2 (Z.leb_le m n)).
Qed.

(** A tuple type admits the tuple types with the same keys, pointwise. *)
Definition adm_entries (m m' : list (string * TypeSignature)) : Prop :=
  length m = length m' /\
  Forall (fun kv => exists o, bt_get kv.1 m' = Some o /\ adm kv.2 o) m.

Lemma adm_tuple m b : adm (TupleType m) b <-> exists m', b = TupleType m' /\ adm_entries m m'.
Proof.
  unfold adm, adm_entries; cbn [admits_type].
  assert (forall m' l, (fix go (l : list (string * TypeSignature)) : Res Empty_set bool :=
      match l with
      | [] => Ok true
      | (name, my_type) :: l' =>
        match bt_get name m' with
        | Some other_type =>
          b ← admits_type my_type other_type; if (b : bool) then go l' else Ok false
        | None => Ok false
        end
      end) l = Ok true <->
      Forall (fun kv => exists o, bt_get kv.1 m' = Some o /\ admits_type kv.2 o = Ok true) l) as Hgo.
  { intros m'. induction l as [|[k t] l IH]; [split; [constructor|done]|].
    rewrite Forall_cons, <-IH. cbn [fst snd]. destruct (bt_get k m') as [o|].
    - split.
      + intros Hb. apply bind_Ok in Hb as ([] & Hb & Hl); [by eauto|done].
      + intros [(o' & [= <-] & ->) Hl]. done.
    - split; [done|naive_solver]. }
  split.
  - destruct b as [| | | | | | |m'| | |]; try done. destruct (Nat.eqb_spec (length m) (length m')); [|done].
    cbn [negb]. rewrite Hgo. eauto.
  - intros (m' & -> & Hlen & H). rewrite (proj2 (Nat.eqb_eq _ _) Hlen). cbn [negb]. by apply Hgo.
Qed.

(** The types that admit only themselves. *)
Definition base_type (t : TypeSignature) : bool :=
  match t with
  | IntType | UIntType | BoolType | PrincipalType | TraitReferenceType _ => true
  | _ => false
  end.

Lemma adm_base t b : base_type t = true -> adm t b <-> b = t.
Proof.
  intros Ht. unfold adm. rewrite <-(type_eqb_eq b t).
  destruct t; try done; cbn [admits_type]; (split; [by intros [=]|by intros ->]).
Qed.

Lemma adm_base_r t b : base_type b = true -> adm t b -> t = b.
Proof.
  intros Hb Ht. destruct t; try (apply adm_base in Ht; [by subst|done]).
  - apply adm_buffer in Ht as (? & -> & _). done.
  - apply adm_list in Ht as (? & ? & -> & _). done.
  - apply adm_tuple in Ht as (? & -> & _). done.
  - apply adm_optional in Ht as (? & -> & _). done.
  - apply adm_response in Ht as (? & ? & -> & _). done.
Qed.

Lemma adm_not_no_type a b : adm a b -> a <> NoType.
Proof. intros H ->. by apply adm_no_type in H. Qed.

Lemma adm_trans a b c : adm a b -> adm b c -> adm a c.
Proof.
  revert b c; induction a using TypeSignature_ind'; intros b c Hab Hbc;
    try (apply adm_base in Hab; [by subst b|done]).
  - apply adm_buffer in Hab as (k & -> & ?). apply adm_buffer in Hbc as (l & -> & ?).
    apply adm_buffer. eexists; split; [done|lia].
  - apply adm_list in Hab as (k & f & -> & Hf). apply adm_list in Hbc as (l & g & -> & Hg).
    apply adm_list. eexists _, _; split; [done|].
    destruct Hg as [|[? Hg]]; [by left|]. destruct Hf as [|[? Hf]]; [lia|]. right; split; [lia|eauto].
  - apply adm_tuple in Hab as (m1 & -> & Hl1 & H1). apply adm_tuple in Hbc as (m2 & -> & Hl2 & H2).
    apply adm_tuple. eexists; split; [done|]. split; [congruence|].
    apply Forall_forall. intros kv Hkv. rewrite Forall_forall in H, H1, H2.
    destruct (H1 kv Hkv) as (o & Ho & Hadm). destruct (H2 (kv.1, o) (bt_get_elem _ _ _ Ho)) as (o2 & Ho2 & Hadm2).
    exists o2. split; [done|]. by eapply H.
  - apply adm_optional in Hab as (s & -> & Hs). apply adm_optional in Hbc as (r & -> & Hr).
    apply adm_optional. eexists; split; [done|]. destruct Hr as [->|[Hr Hsr]]; [by left|right].
    destruct Hs as [->|[_ Hs]]; [done|]. eauto.
  - apply adm_response in Hab as (x & y & -> & Hxy). apply adm_response in Hbc as (x' & y' & -> & Hxy').
    apply adm_response. eexists _, _; split; [done|]. naive_solver.
Qed.

(** ** Tuples of types, aligned *)

(** Entries of the same name whose types are related. *)
Definition aligned (R : TypeSignature -> TypeSignature -> Prop)
  : list (string * TypeSignature) -> list (string * TypeSignature) -> Prop :=
  Forall2 (fun x y => x.1 = y.1 /\ R x.2 y.2).

Lemma aligned_keys R m m' : aligned R m m' -> m.*1 = m'.*1.
Proof. induction 1 as [|x y ? ? [Hxy _] _ IH]; cbn; congruence. Qed.

Lemma sorted_keys m m' : m.*1 = m'.*1 -> @bt_sorted TypeSignature m -> @bt_sorted TypeSignature m'.
Proof. unfold bt_sorted. by intros ->. Qed.

(** Equal keys turn statements about look-ups into aligned ones. *)
Lemma aligned_get R m m' :
  bt_sorted m' -> m.*1 = m'.*1 ->
  Forall (fun kv => exists o, bt_get kv.1 m' = Some o /\ R kv.2 o) m <-> aligned R m m'.
Proof.
  intros Hs Hk. unfold aligned. rewrite Forall2_same_length_lookup, Forall_forall. split.
  - intros H. split; [by rewrite <-(length_fmap fst), Hk, length_fmap|].
    intros i [k t] [k' t'] Hi Hi'. assert (k = k') as ->.
    { assert (m.*1 !! i = Some k) as H1 by by rewrite list_lookup_fmap, Hi.
      rewrite Hk, list_lookup_fmap, Hi' in H1. by injection H1. }
    split; [done|]. destruct (H _ (list_elem_of_lookup_2 _ _ _ Hi)) as (o & Ho & HR).
    cbn [fst snd] in *. rewrite (bt_elem_get k' t' m') in Ho by eauto using list_elem_of_lookup_2. by simplify_eq.
  - intros [Hlen H] [k t] (i & Hi)%list_elem_of_lookup.
    destruct (lookup_lt_is_Some_2 m' i) as [[k' t'] Hi'].
    { rewrite <-Hlen. by eapply lookup_lt_Some. }
    destruct (H _ _ _ Hi Hi') as [E HR]; cbn in *; subst.
    exists t'. split; [|done]. eauto using bt_elem_get, list_elem_of_lookup_2.
Qed.

Lemma adm_entries_aligned m m' :
  bt_sorted m -> bt_sorted m' -> adm_entries m m' <-> aligned adm m m'.
Proof.
  intros Hs Hs'. unfold adm_entries. split.
  - intros [Hlen H]. apply aligned_get; [done| |done]. apply bt_keys_eq; [done..|].
    intros k (kv & -> & Hkv)%list_elem_of_fmap. rewrite Forall_forall in H.
    destruct (H kv Hkv) as (o & Ho & _). apply bt_get_elem in Ho.
    apply list_elem_of_fmap. by exists (kv.1, o).
  - intros H. split; [by eapply Forall2_length|].
    apply aligned_get; [done|by eapply aligned_keys|done].
Qed.

(** ** Types of values *)

(** A type that some value has: [NoType] stands only for the missing side of an
    option or response and for the entries of an empty list. *)
Fixpoint valuedb (t : TypeSignature) : bool :=
  match t with
  | NoType => false
  | ListType n e => (n <=? 0) || valuedb e
  | TupleType m => forallb (fun kv => valuedb kv.2) m
  | OptionalType s => is_no_type s || valuedb s
  | ResponseType a b =>
    is_no_type a && valuedb b || valuedb a && is_no_type b || valuedb a && valuedb b
  | _ => true
  end.
Definition valued (t : TypeSignature) : Prop := valuedb t = true.
Arguments valued : simpl never.

Lemma valued_list n e : valued (ListType n e) <-> n <= 0 \/ valued e.
Proof. unfold valued; cbn [valuedb]. rewrite orb_true_iff. rewrite Z.leb_le. done. Qed.

Lemma valued_tuple m : valued (TupleType m) <-> Forall (fun kv => valued kv.2) m.
Proof. unfold valued; cbn [valuedb]. by rewrite forallb_forall, List.Forall_forall. Qed.

Lemma valued_optional s : valued (OptionalType s) <-> s = NoType \/ valued s.
Proof. unfold valued; cbn [valuedb]. by rewrite orb_true_iff, is_no_type_true. Qed.

Lemma valued_response a b :
  valued (ResponseType a b) <->
  a = NoType /\ valued b \/ valued a /\ b = NoType \/ valued a /\ valued b.
Proof. unfold valued; cbn [valuedb]. rewrite !orb_true_iff, !andb_true_iff, !is_no_type_true. tauto. Qed.

Lemma valued_not_no_type t : valued t -> t <> NoType.
Proof. by intros Ht ->. Qed.
#[export] Hint Resolve valued_not_no_type : stacks.

Lemma adm_refl_iff t : wf_type t -> adm t t <-> valued t.
Proof.
  induction t using TypeSignature_ind'; intros Hwf; try (by rewrite adm_base).
  - split; [by intros ?%adm_no_type|done].
  - rewrite adm_buffer. split; [done|]. intros _. eexists; split; [done|lia].
  - apply wf_list in Hwf as (He & _). rewrite adm_list, valued_list, <-(IHt He).
    split; [intros (? & ? & [= <- <-] & [|]); naive_solver|]. intros H. eexists _, _; split; [done|].
    destruct (Z.le_gt_cases n 0); [by left|right]. split; [lia|naive_solver lia].
  - apply wf_tuple in Hwf as (_ & Hs & Hm & _). rewrite adm_tuple, valued_tuple.
    split.
    + intros (? & [= <-] & [_ Ha]). rewrite Forall_forall in *. intros kv Hkv.
      destruct (Ha kv Hkv) as (o & Ho & Hadm). rewrite (bt_elem_get kv.1 kv.2) in Ho; [|done|by destruct kv].
      injection Ho as <-. apply H; [done|by apply Hm|done].
    + intros Hv. exists m. split; [done|]. split; [done|]. rewrite Forall_forall in *. intros kv Hkv.
      exists kv.2. split; [apply bt_elem_get; [done|by destruct kv]|]. apply H; [done|by apply Hm|auto].
  - apply wf_optional in Hwf as (Hs & _). rewrite adm_optional, valued_optional, <-(IHt Hs).
    split; [naive_solver|]. intros H. exists t. split; [done|].
    destruct (decide (t = NoType)); naive_solver.
  - apply wf_response in Hwf as (Ha & Hb & _). rewrite adm_response, valued_response.
    rewrite <-(IHt1 Ha), <-(IHt2 Hb). split; [naive_solver|]. intros H. eexists _, _; split; [done|].
    destruct (decide (t1 = NoType)), (decide (t2 = NoType)); naive_solver.
Qed.

(** ** The loop of [least_supertype] over tuple entries *)

(** Inserting the results for a sorted list of entries collects them in order. *)
Lemma foldM_insert_sorted {E V W} (g : string * V -> Res E W) acc l :
  bt_sorted l -> (forall k1 k2, k1 ∈ acc.*1 -> k2 ∈ l.*1 -> str_lt k1 k2) ->
  foldM (fun out kv => w ← g kv; mret (bt_insert kv.1 w out)) acc l =
  (ws ← mapMR (fun kv => w ← g kv; mret (kv.1, w)) l; mret (acc ++ ws)).
Proof.
  revert acc; induction l as [|[k v] l IH]; intros acc Hs Hacc; cbn [foldM mapMR].
  { cbn. by rewrite app_nil_r. }
  apply bt_sorted_cons in Hs as [Hk Hs]. destruct (g (k, v)) as [w| |] eqn:Eg; cbn; [|done..].
  rewrite bt_insert_above; [rewrite IH; [|done|]|].
  - cbn. destruct (mapMR _ l); cbn; [|done..]. by rewrite <-(assoc_L (++)).
  - intros k1 k2. rewrite fmap_app, elem_of_app. intros [Hk1|Hk1] Hk2; [apply Hacc; [done|by right]|].
    apply list_elem_of_singleton in Hk1 as ->. rewrite Forall_forall in Hk. by apply Hk.
  - apply Forall_forall. intros k1 Hk1. apply Hacc; [done|by left].
Qed.

(** The supertype of a pair of entries of the same name. *)
Definition entry_supertype (e : CheckErrors) (types_b : list (string * TypeSignature))
  (kv : string * TypeSignature) : Res CheckErrors (string * TypeSignature) :=
  entry_b ← ok_or (bt_get kv.1 types_b) e;
  entry_out ← least_supertype kv.2 entry_b;
  mret (kv.1, entry_out).

Lemma least_supertype_tuple ma mb :
  bt_sorted ma ->
  least_supertype (TupleType ma) (TupleType mb) =
  let err := TypeError (TupleType ma) (TupleType mb) in
  if decide (length ma = length mb) then
    out ← mapMR (entry_supertype err mb) ma;
    expect (r ← TupleTypeSignature_try_from out; mret (TupleType r))
  else Err err.
Proof.
  intros Hs. cbn [least_supertype].
  destruct (Nat.eqb_spec (length ma) (length mb)) as [Hl|Hl]; cbn [negb];
    [rewrite decide_True by done|by rewrite decide_False].
  set (g := fun kv => entry_b ← ok_or (bt_get kv.1 mb) (TypeError (TupleType ma) (TupleType mb));
                      least_supertype kv.2 entry_b).
  assert (forall l acc, foldM (fun out kv =>
        entry_b ← ok_or (bt_get kv.1 mb) (TypeError (TupleType ma) (TupleType mb));
        entry_out ← least_supertype kv.2 entry_b;
        mret (bt_insert kv.1 entry_out out)) acc l =
      foldM (fun out kv => w ← g kv; mret (bt_insert kv.1 w out)) acc l) as ->.
  { induction l as [|kv l IH]; intros acc; cbn [foldM]; [done|]. unfold g at 1.
    destruct (ok_or _ _); cbn; [|done..]. destruct (least_supertype _ _); cbn; [apply IH|done..]. }
  rewrite foldM_insert_sorted; [|done|set_solver].
  assert (forall l, mapMR (fun kv => w ← g kv; mret (kv.1, w)) l =
    mapMR (entry_supertype (TypeError (TupleType ma) (TupleType mb)) mb) l) as ->.
  { induction l as [|kv l IH]; cbn [mapMR]; [done|]. unfold entry_supertype at 1, g at 1.
    destruct (ok_or _ _); cbn; [|done..]. destruct (least_supertype _ _); cbn; [by rewrite IH|done..]. }
  by destruct (mapMR _ ma).
Qed.

(** Entry by entry, the supertypes of two tuples with the same keys. *)
Definition entries_supertype : list (string * TypeSignature) ->
  list (string * TypeSignature) -> list (string * TypeSignature) -> Prop :=
  Forall3 (fun a b o => a.1 = o.1 /\ b.1 = o.1 /\ least_supertype a.2 b.2 = Ok o.2).

Lemma same_keys_get (m m' : list (string * TypeSignature)) :
  bt_sorted m' -> m.*1 = m'.*1 ->
  Forall2 (fun x y => x.1 = y.1 /\ bt_get x.1 m' = Some y.2) m m'.
Proof.
  intros Hs Hk. assert (aligned (fun _ _ => True) m m') as Hal.
  { unfold aligned. clear Hs. revert m' Hk. induction m as [|x m IH]; intros [|y m'] [=]; constructor; auto. }
  unfold aligned in Hal. rewrite Forall2_same_length_lookup in *. destruct Hal as [? Hal]. split; [done|].
  intros i x y Hx Hy. destruct (Hal i x y Hx Hy) as [E _]. split; [done|]. rewrite E.
  apply bt_elem_get; [done|]. destruct y. by eapply list_elem_of_lookup_2.
Qed.

Lemma mapMR_supertype e ma mb out :
  bt_sorted mb -> ma.*1 = mb.*1 ->
  mapMR (entry_supertype e mb) ma = Ok out <-> entries_supertype ma mb out.
Proof.
  intros Hs Hk. pose proof (same_keys_get ma mb Hs Hk) as Hget. rewrite mapMR_Ok_Forall2.
  unfold entries_supertype. revert Hget. generalize mb at 2 4. clear Hk. intros mb' Hget.
  revert out; induction Hget as [|x y l l' [E Hg] _ IH]; intros out.
  { split; inversion 1; constructor. }
  assert (forall o, entry_supertype e mb x = Ok o <->
    x.1 = o.1 /\ y.1 = o.1 /\ least_supertype x.2 y.2 = Ok o.2) as Ho.
  { intros [k o]. unfold entry_supertype. rewrite Hg. cbn. rewrite bind_Ok, <-E. cbn.
    split; [intros (c & -> & [= -> ->]); done|]. intros (-> & _ & Hc). eauto. }
  split; inversion 1; subst; constructor; try (by apply Ho); by apply IH.
Qed.

Lemma mapMR_supertype_keys e ma mb out :
  bt_sorted ma -> bt_sorted mb -> length ma = length mb ->
  mapMR (entry_supertype e mb) ma = Ok out -> ma.*1 = mb.*1.
Proof.
  intros Hs Hs' Hl Hm. apply bt_keys_eq; [done..|].
  intros k (kv & -> & (i & Hi)%list_elem_of_lookup)%list_elem_of_fmap.
  apply mapMR_Ok_Forall2 in Hm. destruct (Forall2_lookup_l _ _ _ _ _ Hm Hi) as (o & _ & Ho).
  unfold entry_supertype in Ho. apply bind_Ok in Ho as (f & Hf%ok_or_Ok%bt_get_elem & _).
  apply list_elem_of_fmap. by exists (kv.1, f).
Qed.

(** [factor_out_no_type]. *)
Definition factor (a b : TypeSignature) : Res CheckErrors TypeSignature :=
  if is_no_type a then Ok b else if is_no_type b then Ok a else least_supertype a b.

Lemma least_supertype_optional a b :
  least_supertype (OptionalType a) (OptionalType b) = (c ← factor a b; new_option c).
Proof. done. Qed.

Lemma least_supertype_response a1 a2 b1 b2 :
  least_supertype (ResponseType a1 a2) (ResponseType b1 b2) =
  (c1 ← factor a1 b1; c2 ← factor a2 b2; new_response c1 c2).
Proof. done. Qed.

Lemma least_supertype_list n a m b :
  least_supertype (ListType n a) (ListType m b) =
  (c ← (if n =? 0 then Ok b else if m =? 0 then Ok a else least_supertype a b);
   expect (list_of c (Z.max n m))).
Proof. done. Qed.

(** ** [least_supertype] is an upper bound *)

Definition supertype_ok (a : TypeSignature) : Prop :=
  forall b c, wf_type a -> wf_type b -> valued a -> valued b ->
  least_supertype a b = Ok c -> wf_type c /\ valued c /\ adm c a /\ adm c b.

Lemma factor_upper a b c :
  supertype_ok a -> wf_type a -> wf_type b -> a = NoType \/ valued a -> b = NoType \/ valued b ->
  factor a b = Ok c ->
  wf_type c /\
  (a = NoType /\ b = NoType /\ c = NoType \/
   valued c /\ (a = NoType \/ valued a /\ adm c a) /\ (b = NoType \/ valued b /\ adm c b)).
Proof.
  intros IH Ha Hb Hva Hvb. unfold factor.
  destruct (is_no_type a) eqn:Ea; [apply is_no_type_true in Ea|apply is_no_type_false in Ea].
  { intros [= <-]. split; [done|]. destruct Hvb; [by left|right]. split_and!; [done|by left|right].
    split; [done|]. by apply adm_refl_iff. }
  destruct (is_no_type b) eqn:Eb; [apply is_no_type_true in Eb|apply is_no_type_false in Eb].
  { intros [= <-]. split; [done|]. destruct Hva; [done|right]. split_and!; [done|right|by left].
    split; [done|]. by apply adm_refl_iff. }
  intros Hc. destruct Hva as [|Hva]; [done|]. destruct Hvb as [|Hvb]; [done|].
  destruct (IH b c) as (? & ? & ? & ?); eauto 10.
Qed.

Lemma supertype_ok_list n e : supertype_ok e -> supertype_ok (ListType n e).
Proof.
  intros IH b c Ha Hb Hva Hvb Hc. destruct b as [| | | | | |m f| | | |]; try done.
  rewrite least_supertype_list in Hc. apply bind_Ok in Hc as (g & Hg & Hc). apply expect_inv in Hc.
  apply wf_list in Ha as Ha'. destruct Ha' as (He & Hn & _). apply wf_list in Hb as Hb'. destruct Hb' as (Hf & Hm & _).
  apply valued_list in Hva, Hvb. unfold in_u in Hn, Hm.
  assert (wf_type g /\ (n <= 0 /\ m <= 0 \/
    valued g /\ (n <= 0 \/ adm g e) /\ (m <= 0 \/ adm g f))) as [Hwf Hcase].
  { destruct (Z.eqb_spec n 0); [injection Hg as <-; split; [done|]|].
    { destruct Hvb; [left; lia|right]. split_and!; [done|left; lia|right]. by apply adm_refl_iff. }
    destruct Hva as [|Hva]; [lia|].
    destruct (Z.eqb_spec m 0); [injection Hg as <-; split; [done|]|].
    { right. split_and!; [done|right|left; lia]. by apply adm_refl_iff. }
    destruct Hvb as [|Hvb]; [lia|]. destruct (IH f g) as (? & ? & ? & ?); eauto 10. }
  apply list_of_wf in Hc as [-> Hwfc]; [|done|unfold in_u; lia].
  rewrite valued_list, !adm_list. split_and!; [done|destruct Hcase as [|[? _]]; [left; lia|by right]|..].
  - eexists _, _; split; [done|]. destruct (Z.le_gt_cases n 0); [by left|right]. naive_solver lia.
  - eexists _, _; split; [done|]. destruct (Z.le_gt_cases m 0); [by left|right]. naive_solver lia.
Qed.

Lemma supertype_ok_optional e : supertype_ok e -> supertype_ok (OptionalType e).
Proof.
  intros IH b c Ha Hb Hva Hvb Hc. destruct b as [| | | | | | | |f| |]; try done.
  rewrite least_supertype_optional in Hc. apply bind_Ok in Hc as (g & Hg & Hc).
  apply wf_optional in Ha as (He & _), Hb as (Hf & _). apply valued_optional in Hva, Hvb.
  apply factor_upper in Hg as [Hwf Hcase]; [|done..].
  apply new_option_wf in Hc as [-> Hwfc]; [|done]. rewrite valued_optional, !adm_optional.
  split_and!; [done|naive_solver|..]; eexists; (split; [done|]);
    [destruct (decide (e = NoType))|destruct (decide (f = NoType))]; naive_solver.
Qed.

Lemma supertype_ok_response e1 e2 :
  supertype_ok e1 -> supertype_ok e2 -> supertype_ok (ResponseType e1 e2).
Proof.
  intros IH1 IH2 b c Ha Hb Hva Hvb Hc. destruct b as [| | | | | | | | |f1 f2|]; try done.
  rewrite least_supertype_response in Hc. apply bind_Ok in Hc as (g1 & Hg1 & Hc).
  apply bind_Ok in Hc as (g2 & Hg2 & Hc).
  apply wf_response in Ha as (He1 & He2 & _), Hb as (Hf1 & Hf2 & _).
  apply valued_response in Hva, Hvb.
  apply factor_upper in Hg1 as [Hwf1 Hcase1]; [|done|done|done|naive_solver..].
  apply factor_upper in Hg2 as [Hwf2 Hcase2]; [|done|done|done|naive_solver..].
  apply new_response_wf in Hc as [-> Hwfc]; [|done..]. rewrite valued_response, !adm_response.
  pose proof (valued_not_no_type e1). pose proof (valued_not_no_type e2).
  pose proof (valued_not_no_type f1). pose proof (valued_not_no_type f2).
  split_and!; [done|tauto|..]; eexists _, _; (split; [done|]); tauto.
Qed.

Lemma entries_supertype_upper m m2 out :
  entries_supertype m m2 out -> Forall (fun kv => supertype_ok kv.2) m ->
  Forall wf_entry m -> Forall wf_entry m2 ->
  Forall (fun kv => valued kv.2) m -> Forall (fun kv => valued kv.2) m2 ->
  Forall (fun kv => clarity_name_ok kv.1 = true /\ wf_type kv.2) out /\
  Forall (fun kv => valued kv.2) out /\ aligned adm out m /\ aligned adm out m2.
Proof.
  induction 1 as [|[ka a] [kb b] [ko o] la lb lo (Ea & Eb & Ho) _ IH]; [intros; split_and!; constructor|].
  cbn in *; subst. rewrite !Forall_cons. unfold wf_entry at 1 2. cbn.
  intros [Hok Hoks] [(Hn & Hwa & _) Hm] [(_ & Hwb & _) Hm2] [Hva Hvm] [Hvb Hvm2].
  destruct (IH Hoks Hm Hm2 Hvm Hvm2) as (? & ? & ? & ?).
  destruct (Hok b o Hwa Hwb Hva Hvb Ho) as (? & ? & ? & ?).
  split_and!; try done; by constructor.
Qed.

Lemma supertype_ok_tuple m :
  Forall (fun kv => supertype_ok kv.2) m -> supertype_ok (TupleType m).
Proof.
  intros IH b c Ha Hb Hva Hvb Hc. destruct b as [| | | | | | |m2| | |]; try done.
  apply wf_tuple in Ha as (Hne & Hs & Hm & _), Hb as (_ & Hs2 & Hm2 & _).
  apply valued_tuple in Hva, Hvb. rewrite least_supertype_tuple in Hc by done. cbn zeta in Hc.
  case_decide as Hl; [|done]. apply bind_Ok in Hc as (out & Hout & Hc). apply expect_inv in Hc.
  apply bind_Ok in Hc as (r & Hr & [= <-]).
  pose proof (mapMR_supertype_keys _ _ _ _ Hs Hs2 Hl Hout) as Hk. apply mapMR_supertype in Hout; [|done..].
  apply entries_supertype_upper in Hout as (Hwfo & Hvo & Hal & Hal2); [|done..].
  assert (bt_sorted out) as Hso by (eapply sorted_keys; [symmetry; by eapply aligned_keys|done]).
  apply tuple_try_from_wf in Hr as [-> Hwfr]; [|done..].
  rewrite valued_tuple, !adm_tuple. split_and!; [done|done|exists m|exists m2];
    (split; [done|by apply adm_entries_aligned]).
Qed.

Lemma least_supertype_base a b c :
  base_type a = true -> b <> NoType -> least_supertype a b = Ok c -> b = a /\ c = a.
Proof.
  intros Ha Hb Hc. assert (least_supertype a b = if type_eqb a b then Ok a else Err (TypeError a b)) as E.
  { by destruct a, b. }
  rewrite E in Hc. destruct (type_eqb a b) eqn:Eq; [|done]. apply type_eqb_eq in Eq.
  by injection Hc as <-.
Qed.

Lemma least_supertype_buffer n b c :
  b <> NoType -> least_supertype (BufferType n) b = Ok c ->
  exists m, b = BufferType m /\ c = BufferType (Z.max n m).
Proof.
  intros Hb Hc. destruct b; try done. eexists; split; [done|]. cbn in Hc. injection Hc as <-.
  f_equal. destruct (Z.ltb_spec len n); lia.
Qed.

Lemma supertype_ok_base a : base_type a = true -> supertype_ok a.
Proof.
  intros Ha b c Hwa Hwb Hva Hvb Hc.
  apply least_supertype_base in Hc as [-> ->]; [|done|by apply valued_not_no_type].
  rewrite adm_base by done. done.
Qed.

Lemma supertype_ok_buffer n : supertype_ok (BufferType n).
Proof.
  intros b c Hwa Hwb Hva Hvb Hc.
  apply least_supertype_buffer in Hc as (m & -> & ->); [|by apply valued_not_no_type].
  rewrite wf_buffer in *. rewrite !adm_buffer. split_and!; [lia|lia|done|..]; eexists; (split; [done|lia]).
Qed.

Lemma least_supertype_upper a : supertype_ok a.
Proof.
  induction a using TypeSignature_ind'; auto using supertype_ok_list, supertype_ok_tuple,
    supertype_ok_optional, supertype_ok_response, supertype_ok_base, supertype_ok_buffer.
  by intros b c _ _ Hv.
Qed.
