(* ===== verification/Supertypes.v ===== *)
(** [least_supertype] computes least upper bounds: the limits on the size and
    depth of types are closed downwards, so that it succeeds whenever the two
    types have an admissible common supertype. *)
From stdpp Require Import base list strings sets sorting.
From Stdlib Require Import ZArith Lia.
From S2P Require Import Prelude Names BTree Types TypeFacts Subtyping.
#[local] Open Scope Z_scope.

(** * Subtypes of admissible types are admissible *)

(** The shape of types whatever their size: natural lengths, sorted tuples, and
    no entry type recorded for the lists of length zero. *)
Fixpoint properb (t : TypeSignature) : bool :=
  match t with
  | BufferType n => 0 <=? n
  | ListType n e => (0 <=? n) && (negb (n =? 0) || is_no_type e) && properb e
  | TupleType m => bt_sortedb m && forallb (fun kv => properb kv.2) m
  | OptionalType s => properb s
  | ResponseType a b => properb a && properb b
  | _ => true
  end.
Definition proper (t : TypeSignature) : Prop := properb t = true.
Arguments proper : simpl never.

Lemma proper_buffer n : proper (BufferType n) <-> 0 <= n.
Proof. unfold proper; cbn [properb]. lia. Qed.

Lemma proper_list n e : proper (ListType n e) <-> 0 <= n /\ (n = 0 -> e = NoType) /\ proper e.
Proof.
  unfold proper; cbn [properb].
  rewrite !andb_true_iff, orb_true_iff, is_no_type_true, negb_true_iff, Z.eqb_neq, Z.leb_le.
  destruct (decide (n = 0)); naive_solver.
Qed.

Lemma proper_tuple m : proper (TupleType m) <-> bt_sorted m /\ Forall (fun kv => proper kv.2) m.
Proof.
  unfold proper; cbn [properb]. rewrite andb_true_iff, forallb_forall, List.Forall_forall.
  unfold bt_sortedb. by rewrite bool_decide_eq_true.
Qed.

Lemma proper_response a b : proper (ResponseType a b) <-> proper a /\ proper b.
Proof. unfold proper; cbn [properb]. by rewrite andb_true_iff. Qed.

(** Loops that add up sizes are monotone. *)
Lemma foldM_mono {A} (R : A -> A -> Prop) (f g : Z -> A -> Res unit Z) l l' a b r :
  (forall x y a b a', R x y -> 0 <= b <= a -> f a x = Ok a' -> exists b', g b y = Ok b' /\ 0 <= b' <= a') ->
  Forall2 R l l' -> 0 <= b <= a -> foldM f a l = Ok r -> exists r', foldM g b l' = Ok r' /\ 0 <= r' <= r.
Proof.
  intros Hstep Hl. revert a b; induction Hl as [|x y l l' Hxy _ IH]; intros a b Hab; cbn.
  { intros [= <-]. eauto. }
  destruct (f a x) as [a'| |] eqn:Ef; [|done..]. intros Hr.
  destruct (Hstep _ _ _ _ _ Hxy Hab Ef) as (b' & -> & Hb'). eauto.
Qed.

Lemma inner_type_size_pos t z : wf_type t -> inner_type_size t = Ok z -> 1 <= z.
Proof.
  induction t using TypeSignature_ind'; cbn [inner_type_size]; intros Hwf Hz; size_inv; try lia;
    repeat match goal with H : inner_type_size _ = Ok _ |- _ => apply inner_type_size_nonneg in H end; try lia.
  apply wf_tuple in Hwf as (Hne & _). assert (1 <= Z.of_nat (length m)) by (destruct m; [done|cbn; lia]).
  match goal with H : foldM _ _ _ = Ok _ |- _ =>
    eapply (foldM_inv (fun b => 1 <= b)) in H; [exact H| |lia] end.
  intros b kv b' Hb _ Hb'. size_inv.
  match goal with H : inner_type_size _ = Ok _ |- _ => apply inner_type_size_nonneg in H end.
  pose proof (str_len_nonneg kv.1). lia.
Qed.

(** [c] is [d] with shorter buffers and lists and with some parts unknown: the
    reason why the limits on types are closed downwards. *)
Fixpoint sub (d c : TypeSignature) {struct d} : Prop :=
  c = NoType \/
  match d, c with
  | BufferType n, BufferType m => 0 <= m <= n
  | ListType n e, ListType m f => 0 <= m <= n /\ sub e f
  | TupleType md, TupleType mc =>
    (fix go (md mc : list (string * TypeSignature)) : Prop :=
       match md, mc with
       | [], [] => True
       | (k, t) :: md', (k', t') :: mc' => k = k' /\ sub t t' /\ go md' mc'
       | _, _ => False
       end) md mc
  | OptionalType a, OptionalType b => sub a b
  | ResponseType a1 a2, ResponseType b1 b2 => sub a1 b1 /\ sub a2 b2
  | _, _ => base_type d = true /\ d = c
  end.
Arguments sub : simpl never.

Lemma sub_no_type d : sub d NoType.
Proof. destruct d; by left. Qed.
#[export] Hint Resolve sub_no_type : stacks.

Lemma sub_base d c : base_type d = true -> sub d c <-> c = NoType \/ c = d.
Proof. intros Hd. destruct d; try done; unfold sub; naive_solver. Qed.

Lemma sub_buffer n c : sub (BufferType n) c <-> c = NoType \/ exists m, c = BufferType m /\ 0 <= m <= n.
Proof. unfold sub; destruct c; naive_solver. Qed.

Lemma sub_list n e c :
  sub (ListType n e) c <-> c = NoType \/ exists m f, c = ListType m f /\ 0 <= m <= n /\ sub e f.
Proof. unfold sub; fold sub; destruct c; naive_solver. Qed.

Lemma sub_optional a c : sub (OptionalType a) c <-> c = NoType \/ exists b, c = OptionalType b /\ sub a b.
Proof. unfold sub; fold sub; destruct c; naive_solver. Qed.

Lemma sub_response a1 a2 c :
  sub (ResponseType a1 a2) c <->
  c = NoType \/ exists b1 b2, c = ResponseType b1 b2 /\ sub a1 b1 /\ sub a2 b2.
Proof. unfold sub; fold sub; destruct c; naive_solver. Qed.

Lemma sub_tuple md c :
  sub (TupleType md) c <-> c = NoType \/ exists mc, c = TupleType mc /\ aligned sub md mc.
Proof.
  unfold sub; fold sub. destruct c as [| | | | | | |mc| | |]; try (split; naive_solver).
  assert (forall md mc, (fix go (md mc : list (string * TypeSignature)) : Prop :=
       match md, mc with
       | [], [] => True
       | (k, t) :: md', (k', t') :: mc' => k = k' /\ sub t t' /\ go md' mc'
       | _, _ => False
       end) md mc <-> aligned sub md mc) as ->; [|naive_solver].
  clear. unfold aligned. induction md as [|[k t] md IH]; intros [|[k' t'] mc].
  - split; [constructor|done].
  - split; [done|by inversion 1].
  - split; [done|by inversion 1].
  - rewrite Forall2_cons, IH. cbn. tauto.
Qed.

Lemma sub_no_type_l c : sub NoType c -> c = NoType.
Proof. unfold sub. destruct c; naive_solver. Qed.

(** Case analysis on a subterm relation. *)
Ltac sub_inv H :=
  first [ apply sub_base in H; [destruct H as [->| ->]|done]
        | apply sub_buffer in H; destruct H as [->|(? & -> & ?)]
        | apply sub_list in H; destruct H as [->|(? & ? & -> & ? & ?)]
        | apply sub_tuple in H; destruct H as [->|(? & -> & ?)]
        | apply sub_optional in H; destruct H as [->|(? & -> & ?)]
        | apply sub_response in H; destruct H as [->|(? & ? & -> & ? & ?)]
        | apply sub_no_type_l in H; subst ].

Lemma aligned_sub (S : TypeSignature -> TypeSignature -> Prop) md mc :
  Forall wf_entry md -> Forall (fun kv => forall c, wf_type kv.2 -> sub kv.2 c -> S kv.2 c) md ->
  aligned sub md mc -> aligned (fun t t' => depth t < MAX_TYPE_DEPTH /\ S t t') md mc.
Proof.
  intros Hw HP Hal. unfold aligned in *.
  eapply (Forall2_Forall_impl _ (fun _ => True)); [exact (proj2 (Forall_and _ _) (conj Hw HP))|by apply Forall_true|exact Hal|].
  intros x y [(_ & ? & ?) ?] _ []. auto.
Qed.

Lemma aligned_impl (R S : TypeSignature -> TypeSignature -> Prop) md mc :
  (forall t t', R t t' -> S t t') -> aligned R md mc -> aligned S md mc.
Proof. intros HRS Hal. eapply Forall2_impl; [exact Hal|]. cbn. naive_solver. Qed.

(** *** Sizes *)

Lemma ok_or_add_in {E} (e : E) a b :
  0 <= a + b < 2 ^ 32 -> ok_or (checked_add 32 a b) e = Ok (a + b).
Proof. intros H. by rewrite checked_add_in by (unfold in_u; lia). Qed.

Definition type_size_le (d c : TypeSignature) : Prop :=
  forall td, inner_type_size d = Ok td -> exists tc, inner_type_size c = Ok tc /\ 0 <= tc <= td.

Lemma type_size_le_tuple md mc : aligned type_size_le md mc -> type_size_le (TupleType md) (TupleType mc).
Proof.
  intros Hal td Hd. cbn [inner_type_size] in *. size_inv.
  match goal with H : foldM _ _ _ = Ok _ |- _ =>
    eapply foldM_mono with (b := Z.of_nat (length mc) * 2) in H as (r' & Hr & Hle) end;
    [| |exact Hal|rewrite (Forall2_length _ _ _ Hal); lia].
  - rewrite <-(Forall2_length _ _ _ Hal) in *. unfold in_u in *.
    rewrite checked_u_in by (unfold in_u; lia). cbn. rewrite checked_mul_in by (unfold in_u; lia). cbn.
    rewrite Hr. cbn. exists r'. split; [|lia]. apply cap_size_Ok. lia.
  - intros x y a b a' [Ek Hle] Hab Hx. size_inv.
    match goal with H : inner_type_size _ = Ok _ |- _ => destruct (Hle _ H) as (ty & Hty & ?) end.
    rewrite Hty. cbn. unfold in_u in *. pose proof (str_len_nonneg x.1).
    rewrite ok_or_add_in by lia. cbn. rewrite <-Ek. rewrite (proj2 (name_len_Ok x.1 _)) by done. cbn.
    rewrite ok_or_add_in by lia. eexists; split; [done|lia].
Qed.

Lemma type_size_mono d : forall c, wf_type d -> sub d c -> type_size_le d c.
Proof.
  induction d using TypeSignature_ind'; intros c Hwf Hs td Hd; pose proof (inner_type_size_pos _ _ Hwf Hd);
    sub_inv Hs; try (eexists; split; [done|cbn; lia]).
  - apply wf_list in Hwf as (He & _). cbn [inner_type_size] in *. size_inv. unfold in_u in *.
    edestruct IHd as (tf & -> & ?); [eassumption..|].
    cbn. rewrite ok_or_add_in by lia. cbn. eexists. rewrite cap_size_Ok. split; [split; [done|lia]|lia].
  - apply wf_tuple in Hwf as (_ & _ & Hm & _). eapply type_size_le_tuple; [|done].
    eapply aligned_impl; [|eapply aligned_sub; eassumption]. naive_solver.
  - apply wf_optional in Hwf as (He & _). cbn [inner_type_size] in *. size_inv. unfold in_u in *.
    edestruct IHd as (tf & -> & ?); [eassumption..|].
    cbn. rewrite ok_or_add_in by lia. eexists; split; [done|lia].
  - apply wf_response in Hwf as (He1 & He2 & _). cbn [inner_type_size] in *. size_inv. unfold in_u in *.
    edestruct IHd1 as (t1 & Ht1 & ?); [eassumption..|]. edestruct IHd2 as (t2 & Ht2 & ?); [eassumption..|].
    rewrite Ht1; cbn. rewrite Ht2; cbn.
    rewrite ok_or_add_in by lia. cbn. rewrite ok_or_add_in by lia. eexists; split; [done|lia].
Qed.

Definition size_le (d c : TypeSignature) : Prop :=
  forall zd, inner_size d = Ok zd -> exists zc, inner_size c = Ok zc /\ 0 <= zc <= zd.

Lemma size_le_tuple md mc :
  type_size_le (TupleType md) (TupleType mc) -> aligned size_le md mc ->
  size_le (TupleType md) (TupleType mc).
Proof.
  intros Htl Hal td Hd. cbn [inner_size] in Hd. size_inv.
  match goal with H : inner_type_size _ = Ok _ |- _ => destruct (Htl _ H) as (ts' & Hts' & ?) end.
  match goal with H : foldM _ _ _ = Ok _ |- _ =>
    eapply foldM_mono with (b := Z.of_nat (length mc) * 2 + ts') in H as (r' & Hr & Hle) end;
    [| |exact Hal|rewrite (Forall2_length _ _ _ Hal); lia].
  - rewrite <-(Forall2_length _ _ _ Hal) in *. unfold in_u in *. cbn [inner_size].
    rewrite <-(Forall2_length _ _ _ Hal).
    rewrite checked_u_in by (unfold in_u; lia). cbn [mbind res_bind ok_or].
    rewrite checked_mul_in by (unfold in_u; lia). cbn [mbind res_bind ok_or].
    rewrite Hts'. cbn [mbind res_bind]. rewrite ok_or_add_in by lia. cbn [mbind res_bind].
    rewrite Hr. cbn. exists r'. split; [|lia]. apply cap_size_Ok. lia.
  - intros x y a b a' [Ek Hle] Hab Hx. size_inv.
    match goal with H : inner_size _ = Ok _ |- _ => destruct (Hle _ H) as (ty & Hty & ?) end.
    rewrite Hty. cbn. unfold in_u in *. pose proof (str_len_nonneg x.1).
    rewrite ok_or_add_in by lia. cbn. rewrite <-Ek. rewrite (proj2 (name_len_Ok x.1 _)) by done. cbn.
    rewrite ok_or_add_in by lia. eexists; split; [done|lia].
Qed.

Lemma inner_size_pos t z : wf_type t -> inner_size t = Ok z -> 1 <= z.
Proof. intros Hwf Hz. destruct (inner_size_bounds t Hwf) as (z' & Hz' & ?). assert (z = z') by congruence. lia. Qed.

Lemma size_mono d : forall c, wf_type d -> sub d c -> size_le d c.
Proof.
  induction d using TypeSignature_ind'; intros c Hwf Hs zd Hd; pose proof (inner_size_pos _ _ Hwf Hd);
    pose proof (type_size_mono _ _ Hwf Hs) as Hts; sub_inv Hs;
    try (eexists; split; [done|cbn; lia]); try (cbn in *; injection Hd as <-; eexists; split; [done|lia]).
  - apply wf_buffer in Hwf. cbn in *. unfold MAX_VALUE_SIZE in *.
    rewrite wrap_small in Hd |- * by (unfold in_u; lia). injection Hd as <-. eexists; split; [done|lia].
  - apply wf_list in Hwf as (He & Hn & _). cbn [inner_size] in *. size_inv. unfold in_u in *.
    edestruct IHd as (zs & -> & ?); [eassumption..|]. edestruct Hts as (tc & -> & ?); [eassumption|].
    assert (0 <= zs * x <= x1 * n) by nia. cbn. rewrite checked_mul_in by (unfold in_u; lia). cbn.
    rewrite ok_or_add_in by lia. cbn. eexists. rewrite cap_size_Ok. split; [split; [done|lia]|lia].
  - apply wf_tuple in Hwf as (_ & _ & Hm & _). eapply size_le_tuple; [done| |done].
    eapply aligned_impl; [|eapply aligned_sub; eassumption]. naive_solver.
  - apply wf_optional in Hwf as (He & _). cbn [inner_size] in *. size_inv. unfold in_u, WRAPPER_VALUE_SIZE in *.
    edestruct IHd as (tf & -> & ?); [eassumption..|].
    cbn. rewrite ok_or_add_in by lia. eexists; split; [done|lia].
  - apply wf_response in Hwf as (He1 & He2 & _). cbn [inner_size] in *. size_inv. unfold in_u, WRAPPER_VALUE_SIZE in *.
    edestruct IHd1 as (t1 & Ht1 & ?); [eassumption..|]. edestruct IHd2 as (t2 & Ht2 & ?); [eassumption..|].
    rewrite Ht1; cbn. rewrite Ht2; cbn.
    rewrite ok_or_add_in by lia. eexists; split; [done|lia].
Qed.

(** *** Depths *)

Lemma foldl_max_mono {A} (f : A -> Z) l l' acc :
  Forall2 (fun x y => f y <= f x) l l' ->
  foldl (fun mx x => Z.max mx (f x)) acc l' <= foldl (fun mx x => Z.max mx (f x)) acc l.
Proof.
  intros Hl. assert (forall a b, a <= b -> foldl (fun mx x => Z.max mx (f x)) a l' <=
    foldl (fun mx x => Z.max mx (f x)) b l) as H; [|by apply H].
  induction Hl as [|x y l l' Hxy _ IH]; intros a b Hab; cbn; [done|]. apply IH. lia.
Qed.

Lemma depth_mono_tuple md mc :
  Forall wf_entry md -> aligned (fun t t' => 1 <= depth t' <= depth t) md mc ->
  1 <= depth (TupleType mc) <= depth (TupleType md).
Proof.
  intros Hm Hal. cbn [depth].
  assert (Forall2 (fun x y => depth y.2 <= depth x.2) md mc) as Hle.
  { eapply Forall2_impl; [exact Hal|]. intros x y [_ ?]. lia. }
  pose proof (foldl_max_mono (fun kv => depth kv.2) md mc 0 Hle).
  destruct (foldl_max_spec (fun kv => depth kv.2) mc 0) as (? & _ & _).
  destruct (foldl_max_spec (fun kv => depth kv.2) md 0) as (? & _ & Hmx).
  assert (foldl (fun mx kv => Z.max mx (depth kv.2)) 0 md < 32).
  { destruct Hmx as [->|(x & Hx & ->)]; [lia|]. rewrite Forall_forall in Hm.
    by destruct (Hm x Hx) as (_ & _ & ?). }
  cbn beta in *. rewrite !wrap_small by (unfold in_u; lia). lia.
Qed.

Lemma depth_mono d : forall c, wf_type d -> sub d c -> 1 <= depth c <= depth d.
Proof.
  induction d using TypeSignature_ind'; intros c Hwf Hs;
    pose proof (depth_pos_wf _ Hwf) as Hd; unfold MAX_TYPE_DEPTH in Hd; sub_inv Hs; try (cbn in *; lia).
  - apply wf_list in Hwf as (He & _). epose proof (IHd _ ltac:(eassumption) ltac:(eassumption)).
    cbn [depth] in *. rewrite (depth_wrap d He) in *. rewrite wrap_small by (unfold in_u; lia). lia.
  - apply wf_tuple in Hwf as (_ & _ & Hm & _). apply depth_mono_tuple; [done|].
    eapply aligned_impl; [|by apply (aligned_sub (fun t t' => 1 <= depth t' <= depth t))]. naive_solver.
  - apply wf_optional in Hwf as (He & _). epose proof (IHd _ ltac:(eassumption) ltac:(eassumption)).
    cbn [depth] in *. rewrite (depth_wrap d He) in *. rewrite wrap_small by (unfold in_u; lia). lia.
  - apply wf_response in Hwf as (H1 & H2 & Hmx & _). unfold MAX_TYPE_DEPTH in Hmx.
    epose proof (IHd1 _ ltac:(eassumption) ltac:(eassumption)). epose proof (IHd2 _ ltac:(eassumption) ltac:(eassumption)).
    cbn [depth] in *. rewrite !wrap_small in * by (unfold in_u; lia). lia.
Qed.

(** *** The invariant *)

Lemma wf_down_tuple md mc :
  wf_type (TupleType md) -> sub (TupleType md) (TupleType mc) -> aligned sub md mc ->
  aligned (fun t t' => depth t < MAX_TYPE_DEPTH /\ wf_type t') md mc -> wf_type (TupleType mc).
Proof.
  intros Hwf Hsub Hals Hal. pose proof Hwf as (Hne & Hs & Hm & zd & Hzd)%wf_tuple.
  destruct (size_mono _ _ Hwf Hsub _ Hzd) as (zc & Hzc & _).
  pose proof (aligned_keys _ _ _ Hal) as Hk. apply wf_tuple. split_and!; [| | |eauto].
  - intros ->. by destruct md.
  - by eapply sorted_keys.
  - clear - Hm Hal Hals. induction Hal as [|x y l l' [Ek [Hdx Hy]] _ IH]; [constructor|].
    apply Forall_cons_1 in Hm as [(Hn & Hwx & _) Hm]. inversion Hals as [|? ? ? ? [_ Hxy] ?]; subst.
    constructor; [|by apply IH]. pose proof (depth_mono _ _ Hwx Hxy).
    unfold wf_entry. rewrite <-Ek. split_and!; [done|done|lia].
Qed.

(** What is below an admissible type is admissible. *)
Lemma wf_down d : forall c, wf_type d -> sub d c -> wf_type c.
Proof.
  induction d using TypeSignature_ind'; intros c Hwf Hs; pose proof Hs as Hsub;
    pose proof (size_mono _ _ Hwf Hs) as Hsz; sub_inv Hs; try done.
  - rewrite wf_buffer in *. lia.
  - apply wf_list in Hwf as (He & Hn & Hd & zd & Hzd). destruct (Hsz _ Hzd) as (zc & Hzc & _).
    epose proof (depth_mono d _ ltac:(eassumption) ltac:(eassumption)). unfold in_u in *.
    apply wf_list. split_and!; [by apply IHd|unfold in_u; lia|lia|eauto].
  - eapply wf_down_tuple; [done..|]. apply wf_tuple in Hwf as (_ & _ & Hm & _).
    by apply (aligned_sub (fun _ => wf_type)).
  - apply wf_optional in Hwf as (He & Hd & zd & Hzd & Hle).
    epose proof (depth_mono d _ ltac:(eassumption) ltac:(eassumption)). edestruct (size_mono d) as (zs & Hzs & ?); [eassumption..|].
    apply wf_optional. split_and!; [by apply IHd|lia|exists zs; split; [done|lia]].
  - apply wf_response in Hwf as (He1 & He2 & Hd & z1 & z2 & Hz1 & Hz2 & Hle).
    epose proof (depth_mono d1 _ ltac:(eassumption) ltac:(eassumption)). epose proof (depth_mono d2 _ ltac:(eassumption) ltac:(eassumption)).
    edestruct (size_mono d1) as (y1 & Hy1 & ?); [eassumption..|]. edestruct (size_mono d2) as (y2 & Hy2 & ?); [eassumption..|].
    apply wf_response. split_and!; [by apply IHd1|by apply IHd2|lia|exists y1, y2; split_and!; [done..|lia]].
Qed.

(** *** From the order to the subterm relation *)

Lemma adm_sub d : forall c, wf_type d -> proper c -> adm d c -> sub d c.
Proof.
  induction d using TypeSignature_ind'; intros c Hwf Hp Ha;
    try (apply adm_base in Ha; [subst; by apply sub_base; auto|done]).
  - by apply adm_no_type in Ha.
  - apply adm_buffer in Ha as (m & -> & ?). apply proper_buffer in Hp. apply sub_buffer. eauto.
  - apply adm_list in Ha as (m & s & -> & Hs). apply proper_list in Hp as (Hm & H0 & Hp).
    apply wf_list in Hwf as (He & Hn & _). unfold in_u in Hn.
    apply sub_list. right. eexists _, _; split; [done|]. destruct Hs as [Hs|[? Hs]].
    + split; [lia|]. rewrite H0 by lia. apply sub_no_type.
    + split; [lia|auto].
  - apply adm_tuple in Ha as (m' & -> & Ha). apply proper_tuple in Hp as [Hs' Hp].
    apply wf_tuple in Hwf as (_ & Hs & Hm & _). apply adm_entries_aligned in Ha; [|done..].
    apply sub_tuple. right. eexists; split; [done|].
    eapply Forall2_Forall_impl; [exact (proj2 (Forall_and _ _) (conj Hm H))|exact Hp|exact Ha|].
    intros x y [(_ & ? & _) ?] ? []. auto.
  - apply adm_optional in Ha as (s & -> & Hs). apply wf_optional in Hwf as (He & _).
    apply sub_optional. right. eexists; split; [done|].
    destruct Hs as [->|[_ Hs]]; [apply sub_no_type|by apply IHd].
  - apply adm_response in Ha as (y & z & -> & Hyz). apply wf_response in Hwf as (He1 & He2 & _).
    apply proper_response in Hp as [Hp1 Hp2]. apply sub_response. right. eexists _, _; split; [done|].
    destruct Hyz as [[-> ?]|[(_ & -> & ?)|(_ & _ & ? & ?)]]; split; auto with stacks.
Qed.

Lemma sub_refl t : wf_type t -> sub t t.
Proof.
  induction t using TypeSignature_ind'; intros Hwf; try (by apply sub_base; auto).
  - apply sub_no_type.
  - apply wf_buffer in Hwf. apply sub_buffer. right. eexists; split; [done|lia].
  - apply wf_list in Hwf as (He & Hn & _). unfold in_u in Hn. apply sub_list. right.
    eexists _, _; split; [done|]. split; [lia|auto].
  - apply wf_tuple in Hwf as (_ & _ & Hm & _). apply sub_tuple. right. eexists; split; [done|].
    clear -H Hm. induction H as [|x l Hx _ IH]; constructor; apply Forall_cons_1 in Hm as [(_ & ? & _) ?].
    + auto.
    + by apply IH.
  - apply wf_optional in Hwf as (He & _). apply sub_optional. right. eauto.
  - apply wf_response in Hwf as (He1 & He2 & _). apply sub_response. right. eauto 10.
Qed.

(** A subtype of an admissible type is admissible. *)
Lemma wf_down_closed d c : wf_type d -> proper c -> adm d c -> wf_type c.
Proof. eauto using wf_down, adm_sub. Qed.

(** ** [least_supertype] finds the least supertype whenever there is one *)

Lemma list_of_complete n e : wf_type (ListType n e) -> list_of e n = Ok (ListType n e).
Proof.
  intros (He & _ & Hd & z & Hz)%wf_list. unfold list_of, new_list.
  rewrite depth_wrap, (proj2 (Z.ltb_ge _ _)) by (done || lia). rewrite Hz. cbn.
  assert (z <= MAX_VALUE_SIZE) by (cbn [inner_size] in Hz; size_inv; lia).
  by rewrite (proj2 (Z.ltb_ge _ _)).
Qed.

Lemma new_option_complete s : wf_type (OptionalType s) -> new_option s = Ok (OptionalType s).
Proof.
  intros (Hs & Hd & z & Hz & Hle)%wf_optional. unfold new_option, size. rewrite Hz. cbn.
  pose proof (inner_size_nonneg _ _ Hz). unfold MAX_VALUE_SIZE, WRAPPER_VALUE_SIZE in *.
  rewrite depth_wrap, wrap_small by (done || unfold in_u; lia).
  by rewrite !(proj2 (Z.ltb_ge _ _)) by lia.
Qed.

Lemma new_response_complete a b :
  wf_type (ResponseType a b) -> new_response a b = Ok (ResponseType a b).
Proof.
  intros (Ha & Hb & Hd & y & z & Hy & Hz & Hle)%wf_response. unfold new_response, size. rewrite Hy, Hz. cbn.
  pose proof (inner_size_nonneg _ _ Hy). pose proof (inner_size_nonneg _ _ Hz).
  pose proof (depth_pos_wf a Ha). pose proof (depth_pos_wf b Hb).
  unfold MAX_VALUE_SIZE, WRAPPER_VALUE_SIZE, MAX_TYPE_DEPTH in *.
  rewrite !wrap_small by (unfold in_u; lia). by rewrite !(proj2 (Z.ltb_ge _ _)) by lia.
Qed.

Lemma tuple_try_from_complete m : wf_type (TupleType m) -> TupleTypeSignature_try_from m = Ok m.
Proof.
  intros (Hne & _ & Hm & z & Hz)%wf_tuple. unfold TupleTypeSignature_try_from.
  rewrite decide_False by by destruct m. destruct (existsb _ m) eqn:Hex.
  { apply existsb_exists in Hex as (kv & Hkv & Hd). rewrite List.Forall_forall in Hm.
    destruct (Hm kv Hkv) as (_ & Hw & ?). rewrite depth_wrap in Hd by done. lia. }
  rewrite Hz. cbn. assert (z <= MAX_VALUE_SIZE) by (cbn [inner_size] in Hz; size_inv; lia).
  by rewrite (proj2 (Z.ltb_ge _ _)).
Qed.

(** A type that admits a composite one has the same constructor. *)
Definition same_constructor (a b : TypeSignature) : bool :=
  match a, b with
  | NoType, NoType | IntType, IntType | UIntType, UIntType | BoolType, BoolType
  | PrincipalType, PrincipalType | TraitReferenceType _, TraitReferenceType _
  | BufferType _, BufferType _ | ListType _ _, ListType _ _ | TupleType _, TupleType _
  | OptionalType _, OptionalType _ | ResponseType _ _, ResponseType _ _ => true
  | _, _ => false
  end.

Lemma adm_same_constructor d a : adm d a -> same_constructor d a = true.
Proof.
  intros Ha. destruct d; try (by apply adm_base in Ha; subst).
  - by apply adm_buffer in Ha as (? & -> & _).
  - by apply adm_list in Ha as (? & ? & -> & _).
  - by apply adm_tuple in Ha as (? & -> & _).
  - by apply adm_optional in Ha as (? & -> & _).
  - by apply adm_response in Ha as (? & ? & -> & _).
Qed.

Lemma adm_r_not_no_type d c : adm d c -> c <> NoType.
Proof.
  intros Ha ->. pose proof (adm_same_constructor _ _ Ha) as Hc. destruct d; try done.
Qed.

Definition supertype_complete (a : TypeSignature) : Prop :=
  forall b d, proper a -> proper b -> wf_type d -> adm d a -> adm d b ->
  exists c, least_supertype a b = Ok c /\ proper c /\ adm d c.

Lemma factor_complete a b d :
  supertype_complete a -> proper a -> proper b -> wf_type d ->
  a = NoType \/ adm d a -> b = NoType \/ adm d b ->
  exists c, factor a b = Ok c /\ proper c /\
    (c = NoType /\ a = NoType /\ b = NoType \/ adm d c /\ (a <> NoType \/ b <> NoType)).
Proof.
  intros IH Hpa Hpb Hwf Ha Hb. unfold factor.
  destruct (is_no_type a) eqn:Ea; [apply is_no_type_true in Ea|apply is_no_type_false in Ea].
  { exists b. split_and!; [done..|]. destruct Hb as [|Hb]; [by left|right].
    split; [done|right]. by eapply adm_r_not_no_type. }
  destruct Ha as [|Ha]; [done|].
  destruct (is_no_type b) eqn:Eb; [apply is_no_type_true in Eb|apply is_no_type_false in Eb].
  { exists a. split_and!; [done..|]. right. eauto. }
  destruct Hb as [|Hb]; [done|]. destruct (IH b d) as (c & ? & ? & ?); [done..|].
  exists c. split_and!; [done..|]. right. eauto.
Qed.

Lemma supertype_complete_list n e : supertype_complete e -> supertype_complete (ListType n e).
Proof.
  intros IH b d Hpa Hpb Hwf Ha Hb. pose proof (adm_same_constructor _ _ Ha).
  destruct d as [| | | | | |k g| | | |]; try done.
  apply adm_list in Ha as (? & ? & [= <- <-] & Ha), Hb as (m & f & -> & Hb).
  apply proper_list in Hpa as (Hn & H0n & Hpe), Hpb as (Hm & H0m & Hpf).
  pose proof Hwf as (Hg & _)%wf_list. rewrite least_supertype_list.
  assert (exists c, (if n =? 0 then Ok f else if m =? 0 then Ok e else least_supertype e f) = Ok c /\
    proper c /\ (n = 0 /\ m = 0 /\ c = NoType \/ 0 < Z.max n m <= k /\ adm g c)) as (c & -> & Hpc & Hc).
  { destruct (Z.eqb_spec n 0); [exists f; split_and!; [done..|]|].
    { destruct Hb as [Hb|Hb]; [left|right]; [|split; [lia|naive_solver]].
      assert (m = 0) by lia. auto. }
    destruct Ha as [|[? Ha]]; [lia|]. destruct (Z.eqb_spec m 0); [exists e; split_and!; [done..|]|].
    { right. split; [lia|done]. }
    destruct Hb as [|[? Hb]]; [lia|]. destruct (IH f g) as (c & ? & ? & ?); [done..|].
    exists c. split_and!; [done..|]. right; split; [lia|done]. }
  assert (proper (ListType (Z.max n m) c)) as Hpc'.
  { apply proper_list. split_and!; [lia| |done]. destruct Hc as [(_ & _ & ?)|]; [done|lia]. }
  assert (adm (ListType k g) (ListType (Z.max n m) c)) as Hadm.
  { apply adm_list. eexists _, _; split; [done|]. destruct Hc as [|[??]]; [left; lia|by right]. }
  exists (ListType (Z.max n m) c). split_and!; [|done..]. cbn [mbind res_bind].
  rewrite list_of_complete; [done|]. by apply (wf_down_closed _ _ Hwf).
Qed.

Lemma supertype_complete_optional e : supertype_complete e -> supertype_complete (OptionalType e).
Proof.
  intros IH b d Hpa Hpb Hwf Ha Hb. pose proof (adm_same_constructor _ _ Ha).
  destruct d as [| | | | | | | |g| |]; try done. pose proof Hwf as (Hg & _)%wf_optional.
  apply adm_optional in Ha as (? & [= <-] & Ha), Hb as (f & -> & Hb).
  rewrite least_supertype_optional.
  destruct (factor_complete e f g) as (c & -> & Hpc & Hc); [done..|tauto|tauto|].
  assert (adm (OptionalType g) (OptionalType c)) as Hadm.
  { apply adm_optional. exists c. split; [done|].
    destruct Hc as [[-> _]|[Hc _]]; [by left|right]. eauto using adm_r_not_no_type. }
  exists (OptionalType c). split_and!; [|done..]. cbn [mbind res_bind].
  apply new_option_complete. by apply (wf_down_closed _ _ Hwf).
Qed.

Lemma supertype_complete_response e1 e2 :
  supertype_complete e1 -> supertype_complete e2 -> supertype_complete (ResponseType e1 e2).
Proof.
  intros IH1 IH2 b d Hpa Hpb Hwf Ha Hb. pose proof (adm_same_constructor _ _ Ha).
  destruct d as [| | | | | | | | |g1 g2|]; try done. pose proof Hwf as (Hg1 & Hg2 & _)%wf_response.
  apply adm_response in Ha as (? & ? & [= <- <-] & Ha), Hb as (f1 & f2 & -> & Hb).
  apply proper_response in Hpa as [Hpe1 Hpe2], Hpb as [Hpf1 Hpf2].
  rewrite least_supertype_response.
  destruct (factor_complete e1 f1 g1) as (c1 & -> & Hpc1 & Hc1); [done..|tauto|tauto|].
  destruct (factor_complete e2 f2 g2) as (c2 & Hf & Hpc2 & Hc2); [done..|tauto|tauto|].
  assert (adm (ResponseType g1 g2) (ResponseType c1 c2)) as Hadm.
  { apply adm_response. eexists _, _; split; [done|].
    pose proof (adm_r_not_no_type g1 c1). pose proof (adm_r_not_no_type g2 c2).
    pose proof (adm_r_not_no_type g2 e2). pose proof (adm_r_not_no_type g2 f2). tauto. }
  assert (proper (ResponseType c1 c2)) as Hpc by by apply proper_response.
  exists (ResponseType c1 c2). split_and!; [|done..]. cbn [mbind res_bind]. rewrite Hf. cbn [mbind res_bind].
  apply new_response_complete. by apply (wf_down_closed _ _ Hwf).
Qed.

Lemma entries_complete md m m2 :
  aligned adm md m -> aligned adm md m2 -> Forall wf_entry md ->
  Forall (fun kv => supertype_complete kv.2) m ->
  Forall (fun kv => proper kv.2) m -> Forall (fun kv => proper kv.2) m2 ->
  exists out, entries_supertype m m2 out /\ Forall (fun kv => proper kv.2) out /\ aligned adm md out.
Proof.
  intros Hal. revert m2. induction Hal as [|[k d] [k1 a] md m [E Ha] Hal IH]; intros m2 Hal2.
  { inversion Hal2; subst. intros. exists []. split_and!; constructor. }
  inversion Hal2 as [|? [k2 b] ? m2' [E2 Hb] Hal2']; subst. rewrite !Forall_cons. cbn in *; subst.
  intros [(_ & Hd & _) Hmd] [Hc Hcs] [Hpa Hpm] [Hpb Hpm2].
  destruct (IH m2') as (out & ? & ? & ?); [done..|]. destruct (Hc b d) as (c & ? & ? & ?); [done..|].
  exists ((k2, c) :: out). split_and!; by constructor.
Qed.

Lemma supertype_complete_tuple m :
  Forall (fun kv => supertype_complete kv.2) m -> supertype_complete (TupleType m).
Proof.
  intros IH b d Hpa Hpb Hwf Ha Hb. pose proof (adm_same_constructor _ _ Ha).
  destruct d as [| | | | | | |md| | |]; try done. pose proof Hwf as (_ & Hsd & Hmd & _)%wf_tuple.
  apply adm_tuple in Ha as (? & [= <-] & Ha), Hb as (m2 & -> & Hb).
  apply proper_tuple in Hpa as [Hs Hpm], Hpb as [Hs2 Hpm2].
  apply adm_entries_aligned in Ha, Hb; [|done..].
  destruct (entries_complete md m m2) as (out & Hout & Hpo & Halo); [done..|].
  assert (bt_sorted out) as Hso by (eapply sorted_keys; [by eapply aligned_keys|done]).
  assert (adm (TupleType md) (TupleType out)) as Hadm.
  { apply adm_tuple. eexists; split; [done|]. by apply adm_entries_aligned. }
  assert (proper (TupleType out)) as Hpo' by by apply proper_tuple.
  exists (TupleType out). split_and!; [|done..].
  rewrite least_supertype_tuple by done. cbn zeta.
  rewrite decide_True by (rewrite <-(Forall2_length _ _ _ Ha); by eapply Forall2_length).
  rewrite (proj2 (mapMR_supertype _ m m2 out Hs2 ltac:(rewrite <-(aligned_keys _ _ _ Ha); by eapply aligned_keys)) Hout).
  cbn [mbind res_bind]. rewrite tuple_try_from_complete; [done|]. by apply (wf_down_closed _ _ Hwf).
Qed.

Lemma least_supertype_base_refl a : base_type a = true -> least_supertype a a = Ok a.
Proof.
  intros Ha. assert (least_supertype a a = if type_eqb a a then Ok a else Err (TypeError a a)) as ->.
  { by destruct a. }
  by rewrite (proj2 (type_eqb_eq a a)).
Qed.

Lemma supertype_complete_all a : supertype_complete a.
Proof.
  induction a using TypeSignature_ind'; auto using supertype_complete_list, supertype_complete_tuple,
    supertype_complete_optional, supertype_complete_response;
    intros b d Hpa Hpb Hwf Ha Hb;
    try (apply adm_base_r in Ha; [subst d; apply adm_base in Hb; [subst b|done]|done];
         eexists; split_and!; [by apply least_supertype_base_refl|done|by apply adm_base]).
  - by apply adm_r_not_no_type in Ha.
  - pose proof (adm_same_constructor _ _ Ha). destruct d as [| | | |k| | | | | |]; try done.
    apply adm_buffer in Ha as (? & [= <-] & ?), Hb as (m & -> & ?). apply proper_buffer in Hpa, Hpb.
    eexists; split_and!; [done|..].
    + apply proper_buffer. destruct (m <? n); lia.
    + apply adm_buffer. eexists; split; [done|]. destruct (m <? n); lia.
Qed.

(** What an admissible type admits is a type of values. *)
Lemma adm_valued a : forall d, proper a -> wf_type d -> adm d a -> valued a.
Proof.
  induction a using TypeSignature_ind'; intros d Hp Hwf Ha; try done;
    pose proof (adm_same_constructor _ _ Ha) as Hc; destruct d; try done.
  - apply adm_list in Ha as (? & ? & [= <- <-] & [Hn|[_ He]]); apply valued_list; [by left|right].
    apply wf_list in Hwf as (Hwf & _). apply proper_list in Hp as (_ & _ & Hp). eauto.
  - apply valued_tuple. pose proof Hwf as (_ & Hsd & Hmd & _)%wf_tuple. apply adm_tuple in Ha as (? & [= <-] & Ha).
    apply proper_tuple in Hp as [Hs Hpm]. apply adm_entries_aligned in Ha; [|done..].
    rewrite Forall_forall in *. intros kv (i & Hi)%list_elem_of_lookup.
    destruct (Forall2_lookup_r _ _ _ _ _ Ha Hi) as (kv' & Hi' & _ & Hadm).
    eapply H; [by eapply list_elem_of_lookup_2|apply Hpm; by eapply list_elem_of_lookup_2| |done].
    apply Hmd. by eapply list_elem_of_lookup_2.
  - apply adm_optional in Ha as (? & [= <-] & [Hn|[_ Hadm]]); apply valued_optional; [by left|right].
    apply wf_optional in Hwf as (Hwf & _). eauto.
  - apply wf_response in Hwf as (Hwf1 & Hwf2 & _). apply proper_response in Hp as [Hp1 Hp2].
    apply adm_response in Ha as (? & ? & [= <- <-] & [[-> ?]|[(_ & -> & ?)|(_ & _ & ? & ?)]]); apply valued_response; naive_solver.
Qed.

(** * Properties *)

(** [admits_type] is a preorder on the types of values: it is transitive,
    and an admissible type admits itself exactly if it is the type of a value. *)
Theorem admits_type_preorder :
  (forall t, wf_type t -> admits_type t t = Ok true <-> valued t) /\
  (forall a b c, admits_type a b = Ok true -> admits_type b c = Ok true -> admits_type a c = Ok true).
Proof. split; [apply adm_refl_iff|apply adm_trans]. Qed.

(** What [least_supertype] returns for two admissible types of values is an
    admissible type of values that admits both. *)
Theorem least_supertype_sound a b c :
  wf_type a -> wf_type b -> valued a -> valued b -> least_supertype a b = Ok c ->
  wf_type c /\ valued c /\ admits_type c a = Ok true /\ admits_type c b = Ok true.
Proof. apply least_supertype_upper. Qed.

(** C31. [least_supertype] succeeds on every two types that have an admissible
    common supertype, and what it returns is an admissible type that admits both
    and that every admissible common supertype admits: it computes the least upper
    bound of the order. *)
Theorem least_supertype_least a b d :
  proper a -> proper b -> wf_type d -> admits_type d a = Ok true -> admits_type d b = Ok true ->
  exists c, least_supertype a b = Ok c /\ wf_type c /\ admits_type c a = Ok true /\ admits_type c b = Ok true /\
    forall d', wf_type d' -> admits_type d' a = Ok true -> admits_type d' b = Ok true -> admits_type d' c = Ok true.
Proof.
  intros Hpa Hpb Hwf Ha Hb. destruct (supertype_complete_all a b d) as (c & Hc & ? & ?); [done..|].
  destruct (least_supertype_upper a b c) as (? & _ & ? & ?);
    [by eapply wf_down_closed|by eapply wf_down_closed|by eapply adm_valued|by eapply adm_valued|done|].
  exists c. split_and!; [done..|]. intros d' Hwf' Ha' Hb'.
  destruct (supertype_complete_all a b d') as (c' & Hc' & _ & Hd'); [done..|]. rewrite Hc in Hc'. by injection Hc' as ->.
Qed.

(** The witness joins two lists of tuples below a third. *)
Definition sample_entry (n : Z) : TypeSignature :=
  TupleType [("amount"%string, UIntType); ("memo"%string, OptionalType (BufferType n))].
Definition sample_a : TypeSignature := ListType 2 (sample_entry 34).
Definition sample_b : TypeSignature := ListType 5 (sample_entry 10).
Definition sample_d : TypeSignature := ListType 9 (sample_entry 64).

Lemma least_supertype_least_witness :
  exists c, least_supertype sample_a sample_b = Ok c /\ wf_type c /\ admits_type c sample_a = Ok true /\ admits_type c sample_b = Ok true /\
    forall d', wf_type d' -> admits_type d' sample_a = Ok true -> admits_type d' sample_b = Ok true -> admits_type d' c = Ok true.
Proof. apply (least_supertype_least sample_a sample_b sample_d); reflexivity. Defined.

(** The constructors of composite types accept exactly the admissible types:
    on admissible components each succeeds if and only if the type it would build
    satisfies the invariant, and [size] is then defined. *)
Theorem type_constructors_exact :
  (forall e n t, wf_type e -> in_u 32 n ->
     list_of e n = Ok t <-> t = ListType n e /\ wf_type t) /\
  (forall s t, wf_type s -> new_option s = Ok t <-> t = OptionalType s /\ wf_type t) /\
  (forall a b t, wf_type a -> wf_type b ->
     new_response a b = Ok t <-> t = ResponseType a b /\ wf_type t) /\
  (forall m r, bt_sorted m -> Forall (fun kv => clarity_name_ok kv.1 = true /\ wf_type kv.2) m ->
     TupleTypeSignature_try_from m = Ok r <-> r = m /\ wf_type (TupleType r)) /\
  (forall t, wf_type t -> exists z, size (E := CheckErrors) t = Ok z /\ 1 <= z <= MAX_VALUE_SIZE + 4).
Proof.
  split_and!.
  - intros e n t He Hn. split; [by apply list_of_wf|]. intros [-> Ht]. by apply list_of_complete.
  - intros s t Hs. split; [by apply new_option_wf|]. intros [-> Ht]. by apply new_option_complete.
  - intros a b t Ha Hb. split; [by apply new_response_wf|]. intros [-> Ht]. by apply new_response_complete.
  - intros m r Hs Hm. split; [|intros [-> Ht]; by apply tuple_try_from_complete].
    intros Hr. apply tuple_try_from_wf in Hr as [-> ?]; done.
  - apply size_wf.
Qed.

(** Two admissible list types whose only common supertypes exceed
    [MAX_VALUE_SIZE]: [least_supertype] panics on them instead of returning the
    error its caller would report. *)
Theorem least_supertype_panics :
  exists a b, wf_type a /\ wf_type b /\ proper a /\ proper b /\ valued a /\ valued b /\
    least_supertype a b = Panic.
Proof.
  exists (ListType 1 (BufferType 1000000)), (ListType 100000 (BufferType 1)). by vm_compute.
Qed.

(** The buffer length taken from a negative literal wraps around: it breaks
    the invariant of types, and the size computed from it is wrong. *)
Theorem negative_buffer_length :
  forall n, - 2 ^ 31 < n < 0 ->
  exists len, BufferLength_try_from_i128 n = Ok len /\ ~ wf_type (BufferType len) /\
    MAX_VALUE_SIZE < len.
Proof.
  intros n Hn. exists (n + 2 ^ 32). unfold BufferLength_try_from_i128.
  rewrite (proj2 (Z.ltb_ge _ _)) by (unfold MAX_VALUE_SIZE; lia). unfold wrap.
  assert (n mod 2 ^ 32 = n + 2 ^ 32) as -> by (rewrite <-(Z_mod_plus_full n 1), Z.mod_small; lia).
  rewrite wf_buffer. unfold MAX_VALUE_SIZE. split_and!; [done|lia|lia].
Qed.
