(* ===== verification/Values.v ===== *)
(** Clarity values: the invariant of src/vm/types/mod.rs that the constructors
    of values maintain, the types of well-formed values, and the values built by
    each constructor. *)
From stdpp Require Import base list strings sets sorting.
From Stdlib Require Import ZArith Lia.
From S2P Require Import Prelude Names BTree Types TypeFacts Subtyping Supertypes.
#[local] Open Scope Z_scope.

(** * The invariant *)

Definition admitsb (t : TypeSignature) (v : Value) : bool :=
  match admits (E := Empty_set) t v with Ok b => b | _ => false end.

(** Integers of 128 bits, bytes, lists and tuples whose data have the types they
    declare, and every type admissible. *)
Fixpoint wf_valueb (v : Value) : bool :=
  match v with
  | VInt i => bool_decide (in_i 128 i)
  | VUInt u => bool_decide (in_u 128 u)
  | VBool _ => true
  | VBuffer data => forallb (fun b => bool_decide (u8 b)) data && (Z.of_nat (length data) <=? MAX_VALUE_SIZE)
  | VList l n e =>
    wf_typeb (ListType n e) && valuedb (ListType n e) && (Z.of_nat (length l) <=? n)
    && forallb (fun x => wf_valueb x && admitsb e x) l
  | VPrincipal p => principal_ok p
  | VTuple ts m =>
    wf_typeb (TupleType ts) && valuedb (TupleType ts)
    && (fix go (ts : list (string * TypeSignature)) (m : list (string * Value)) {struct m} : bool :=
          match ts, m with
          | [], [] => true
          | (k, t) :: ts', (k', x) :: m' =>
            bool_decide (k = k') && (wf_valueb x && admitsb t x) && go ts' m'
          | _, _ => false
          end) ts m
  | VOptional None => true
  | VOptional (Some x) =>
    wf_valueb x && match type_of x with Ok t => wf_typeb (OptionalType t) | _ => false end
  | VResponse true x =>
    wf_valueb x && match type_of x with Ok t => wf_typeb (ResponseType t NoType) | _ => false end
  | VResponse false x =>
    wf_valueb x && match type_of x with Ok t => wf_typeb (ResponseType NoType t) | _ => false end
  end.
Definition wf_value (v : Value) : Prop := wf_valueb v = true.
Arguments wf_value : simpl never.

(** [t.admits(v)] returns [true]. *)
Definition has_type (t : TypeSignature) (v : Value) : Prop :=
  exists s, type_of v = Ok s /\ adm t s.

Lemma admits_iff {E} t v : admits (E := E) t v = Ok true <-> has_type t v.
Proof.
  unfold admits, has_type, adm. rewrite lift_panic_Ok, bind_Ok. done.
Qed.

Lemma admitsb_iff t v : admitsb t v = true <-> has_type t v.
Proof.
  unfold admitsb. rewrite <-(admits_iff (E := Empty_set)).
  destruct (admits t v); naive_solver.
Qed.

Definition typed_entry (kt : string * TypeSignature) (kv : string * Value) : Prop :=
  kt.1 = kv.1 /\ wf_value kv.2 /\ has_type kt.2 kv.2.

Lemma wf_value_list l n e :
  wf_value (VList l n e) <->
  wf_type (ListType n e) /\ valued (ListType n e) /\ Z.of_nat (length l) <= n /\
  Forall (fun x => wf_value x /\ has_type e x) l.
Proof.
  unfold wf_value, wf_type, valued. cbn [wf_valueb].
  rewrite !andb_true_iff, Z.leb_le, forallb_forall, List.Forall_forall.
  setoid_rewrite andb_true_iff. setoid_rewrite admitsb_iff. tauto.
Qed.

Lemma wf_value_tuple ts m :
  wf_value (VTuple ts m) <->
  wf_type (TupleType ts) /\ valued (TupleType ts) /\ Forall2 typed_entry ts m.
Proof.
  unfold wf_value, wf_type, valued. cbn [wf_valueb]. rewrite !andb_true_iff.
  assert (forall ts m, (fix go (ts : list (string * TypeSignature)) (m : list (string * Value)) {struct m} : bool :=
          match ts, m with
          | [], [] => true
          | (k, t) :: ts', (k', x) :: m' =>
            bool_decide (k = k') && (wf_valueb x && admitsb t x) && go ts' m'
          | _, _ => false
          end) ts m = true <-> Forall2 typed_entry ts m) as Hgo; [|rewrite Hgo; tauto].
  clear. induction ts as [|[k t] ts IH]; intros [|[k' x] m].
  - split; [constructor|done].
  - split; [done|by inversion 1].
  - split; [done|by inversion 1].
  - rewrite !andb_true_iff, IH, Forall2_cons, bool_decide_eq_true, admitsb_iff. done.
Qed.

Lemma wf_value_some x :
  wf_value (VOptional (Some x)) <->
  wf_value x /\ exists t, type_of x = Ok t /\ wf_type (OptionalType t).
Proof.
  unfold wf_value. cbn [wf_valueb]. rewrite andb_true_iff.
  destruct (type_of x); naive_solver.
Qed.

(** The type of [(ok x)] or [(err x)] from that of [x]. *)
Definition response_of (c : bool) (t : TypeSignature) : TypeSignature :=
  if c then ResponseType t NoType else ResponseType NoType t.

Lemma wf_value_response c x :
  wf_value (VResponse c x) <->
  wf_value x /\ exists t, type_of x = Ok t /\ wf_type (response_of c t).
Proof.
  unfold wf_value. destruct c; cbn [wf_valueb response_of]; rewrite andb_true_iff;
    destruct (type_of x); naive_solver.
Qed.

Lemma wf_value_buffer l :
  wf_value (VBuffer l) <-> Forall u8 l /\ Z.of_nat (length l) <= MAX_VALUE_SIZE.
Proof.
  unfold wf_value; cbn [wf_valueb]. rewrite andb_true_iff, forallb_forall, List.Forall_forall, Z.leb_le.
  setoid_rewrite bool_decide_eq_true. done.
Qed.

(** * The type of a value *)

Lemma type_of_response c x t :
  type_of x = Ok t -> wf_type (response_of c t) -> type_of (VResponse c x) = Ok (response_of c t).
Proof.
  intros Ht Hwf. destruct c; cbn [type_of response_of] in *; rewrite Ht; cbn [mbind res_bind];
    by rewrite new_response_complete.
Qed.

Lemma type_of_some x t :
  type_of x = Ok t -> wf_type (OptionalType t) -> type_of (VOptional (Some x)) = Ok (OptionalType t).
Proof. intros Ht Hwf. cbn [type_of]. rewrite Ht. cbn [mbind res_bind]. by rewrite new_option_complete. Qed.

Lemma type_of_buffer l :
  Z.of_nat (length l) <= MAX_VALUE_SIZE -> type_of (VBuffer l) = Ok (BufferType (Z.of_nat (length l))).
Proof.
  intros Hl. cbn [type_of]. unfold BufferLength_try_from.
  by rewrite (proj2 (Z.ltb_ge _ _)).
Qed.

(** A well-formed value has an admissible type, which no step of computing it
    fails to build. *)
Lemma value_type v :
  wf_value v -> exists t, type_of v = Ok t /\ wf_type t /\ valued t.
Proof.
  induction v using Value_ind'; intros Hwf; try (by eexists; split_and!).
  - apply wf_value_buffer in Hwf as [_ Hl]. rewrite type_of_buffer by done.
    eexists; split_and!; [done|apply wf_buffer; lia|done].
  - apply wf_value_list in Hwf as (? & ? & _). by eexists.
  - apply wf_value_tuple in Hwf as (? & ? & _). by eexists.
  - apply wf_value_some in Hwf as (Hx & t & Ht & Hwf). destruct (IHv Hx) as (t' & Ht' & _ & Hv).
    assert (t' = t) as -> by congruence. eexists; split_and!; [by apply type_of_some|done|].
    apply valued_optional; by right.
  - apply wf_value_response in Hwf as (Hx & t & Ht & Hwf). destruct (IHv Hx) as (t' & Ht' & _ & Hv).
    assert (t' = t) as -> by congruence. eexists; split_and!; [by apply type_of_response|done|].
    destruct c; apply valued_response; tauto.
Qed.

Lemma value_type_self v : wf_value v -> exists t, type_of v = Ok t /\ wf_type t /\ valued t /\ has_type t v.
Proof.
  intros Hv. destruct (value_type v Hv) as (t & Ht & Hwf & Hvt). exists t.
  split_and!; [done..|]. exists t. split; [done|]. by apply adm_refl_iff.
Qed.

Lemma has_type_trans a b v : adm a b -> has_type b v -> has_type a v.
Proof. intros Hab (t & Ht & Hb). exists t. split; [done|]. by eapply adm_trans. Qed.

Lemma value_size_wf {E} v :
  wf_value v -> exists z, value_size (E := E) v = Ok z /\ 1 <= z <= MAX_VALUE_SIZE + 4.
Proof.
  intros Hv. destruct (value_type v Hv) as (t & Ht & Hwf & _).
  destruct (size_wf (E := Empty_set) t Hwf) as (z & Hz & ?). exists z. unfold value_size. by rewrite Ht; cbn; rewrite Hz.
Qed.

(** * Constructors *)

Lemma check_wrapped_Ok x t :
  wf_value x -> type_of x = Ok t ->
  check_wrapped x = Ok tt <-> wf_type (OptionalType t).
Proof.
  intros Hx Ht. destruct (value_type x Hx) as (t' & Ht' & Hwf & _).
  assert (t' = t) as -> by congruence. unfold check_wrapped, value_size, value_depth, size. rewrite Ht. cbn.
  destruct (inner_size_bounds t Hwf) as (z & Hz & Hb). rewrite Hz. cbn.
  rewrite (Z.add_comm (depth t) 1), (Z.add_comm z), depth_wrap by done.
  unfold MAX_VALUE_SIZE, WRAPPER_VALUE_SIZE in *. rewrite wrap_small by (unfold in_u; lia).
  rewrite wf_optional, Hz. unfold MAX_VALUE_SIZE, WRAPPER_VALUE_SIZE.
  destruct (Z.ltb_spec (1024 * 1024) (1 + z)).
  { split; [done|]. intros (_ & _ & z' & [= <-] & ?). lia. }
  destruct (Z.ltb_spec MAX_TYPE_DEPTH (1 + depth t)).
  { split; [done|]. intros (_ & ? & _). lia. }
  split; [|done]. intros _. split_and!; [done|lia|]. exists z. split; [done|lia].
Qed.

Lemma wf_response_of c t : wf_type (response_of c t) <-> wf_type (OptionalType t).
Proof.
  assert (wf_type t -> 1 <= depth t) as Hd by (intros Hwf; apply (depth_pos_wf t Hwf)).
  pose proof (fun z Hwf => inner_size_pos t z Hwf) as Hp. unfold MAX_VALUE_SIZE, WRAPPER_VALUE_SIZE in *.
  rewrite wf_optional. destruct c; cbn [response_of]; rewrite wf_response; cbn [depth]; split.
  - intros (? & _ & ? & y & z & Hy & [= <-] & ?). split_and!; [done|lia|]. exists y. split; [done|lia].
  - intros (? & ? & z & Hz & ?). specialize (Hd H). specialize (Hp z H Hz).
    split_and!; [done|done|unfold MAX_TYPE_DEPTH in *; lia|]. exists z, 1. split_and!; [done|done|lia].
  - intros (_ & ? & ? & y & z & [= <-] & Hy & ?). split_and!; [done|lia|]. exists z. split; [done|lia].
  - intros (? & ? & z & Hz & ?). specialize (Hd H). specialize (Hp z H Hz).
    split_and!; [done|done|unfold MAX_TYPE_DEPTH in *; lia|]. exists 1, z. split_and!; [done|done|lia].
Qed.

(** [Value::some], [Value::okay] and [Value::error] return exactly the
    well-formed wrapped values. *)
Lemma Value_some_exact x w :
  wf_value x -> Value_some x = Ok w <-> w = VOptional (Some x) /\ wf_value w.
Proof.
  intros Hx. destruct (value_type x Hx) as (t & Ht & _). unfold Value_some.
  rewrite bind_Ok. split.
  - intros ([] & Hc & [= <-]). split; [done|]. apply wf_value_some. split; [done|].
    exists t. split; [done|]. by apply (check_wrapped_Ok x t).
  - intros [-> Hw]. apply wf_value_some in Hw as (_ & t' & Ht' & Hwf). exists tt. split; [|done].
    by apply (check_wrapped_Ok x t').
Qed.

Lemma check_wrapped_response c x w :
  wf_value x ->
  (_ ← check_wrapped x; Ok (VResponse c x)) = Ok w <-> w = VResponse c x /\ wf_value w.
Proof.
  intros Hx. destruct (value_type x Hx) as (t & Ht & _). rewrite bind_Ok. split.
  - intros ([] & Hc & [= <-]). split; [done|]. apply wf_value_response. split; [done|].
    exists t. split; [done|]. by apply wf_response_of, (check_wrapped_Ok x t).
  - intros [-> Hw]. apply wf_value_response in Hw as (_ & t' & Ht' & Hwf). exists tt. split; [|done].
    by apply (check_wrapped_Ok x t'), (wf_response_of c).
Qed.

Lemma buff_from_exact l w :
  Forall u8 l -> buff_from l = Ok w <-> w = VBuffer l /\ wf_value w.
Proof.
  intros Hl. unfold buff_from, BufferLength_try_from. rewrite bind_Ok.
  destruct (Z.ltb_spec MAX_VALUE_SIZE (Z.of_nat (length l))); cbn; split.
  - naive_solver.
  - intros [-> Hw]. apply wf_value_buffer in Hw as [_ ?]. lia.
  - intros (? & _ & [= <-]). split; [done|]. by apply wf_value_buffer.
  - intros [-> _]. by eexists.
Qed.

Lemma list_check_Ok e l :
  foldM (fun _ item =>
    b ← admits e item;
    if (b : bool) then Ok tt else Err (Interpreter FailureConstructingListWithType)) tt l = Ok tt <->
  Forall (has_type e) l.
Proof.
  induction l as [|x l IH]; cbn [foldM]; [split; [constructor|done]|].
  rewrite Forall_cons, <-IH, <-(admits_iff (E := VmError)).
  destruct (admits e x) as [[]| |]; cbn; naive_solver.
Qed.

(** [Value::list_with_type] with an admissible type returns exactly the
    well-formed lists of that type. *)
Lemma list_with_type_exact l n e w :
  wf_type (ListType n e) -> valued (ListType n e) -> Forall wf_value l ->
  list_with_type l n e = Ok w <-> w = VList l n e /\ wf_value w.
Proof.
  intros Hwf Hv Hl. unfold list_with_type. destruct (Z.ltb_spec n (Z.of_nat (length l))).
  { split; [done|]. intros [-> Hw]. apply wf_value_list in Hw as (_ & _ & ? & _). lia. }
  rewrite bind_Ok. split.
  - intros ([] & Hc%list_check_Ok & [= <-]). split; [done|]. apply wf_value_list.
    split_and!; [done..|]. by apply Forall_and.
  - intros [-> Hw]. apply wf_value_list in Hw as (_ & _ & _ & Hw). apply Forall_and in Hw as [_ Hw].
    exists tt. split; [by apply list_check_Ok|done].
Qed.

Lemma fold_supertype_upper rest t e :
  wf_type t -> valued t -> Forall (fun c => wf_type c /\ valued c) rest ->
  foldM least_supertype t rest = Ok e ->
  wf_type e /\ valued e /\ adm e t /\ Forall (adm e) rest.
Proof.
  revert t; induction rest as [|c rest IH]; intros t Hwf Hv Hr; cbn [foldM].
  { intros [= <-]. split_and!; [done..|by apply adm_refl_iff|constructor]. }
  apply Forall_cons_1 in Hr as [[Hwc Hvc] Hr].
  destruct (least_supertype t c) as [s| |] eqn:Es; [|done..]. intros He.
  destruct (least_supertype_upper _ _ _ Hwf Hwc Hv Hvc Es) as (? & ? & Hst & Hsc).
  destruct (IH s) as (? & ? & Hes & ?); [done..|]. split_and!; [done..| |].
  - by eapply adm_trans.
  - constructor; [by eapply adm_trans|done].
Qed.

Lemma parent_list_type_upper children r :
  Forall (fun c => wf_type c /\ valued c) children -> parent_list_type children = Ok r ->
  wf_type (ListType r.1 r.2) /\ valued (ListType r.1 r.2) /\
  r.1 = Z.of_nat (length children) /\ Forall (adm r.2) children.
Proof.
  destruct children as [|c rest]; intros Hc; cbn [parent_list_type].
  { intros [= <-]. by split_and!. }
  apply Forall_cons_1 in Hc as [[Hw Hv] Hr]. intros H.
  apply bind_Ok in H as (e & He & H). apply bind_Ok in H as (n & Hn & H). apply ok_or_Ok in Hn.
  apply checked_u_Some in Hn as [-> Hn].
  apply fold_supertype_upper in He as (? & ? & ? & ?); [|done..].
  apply new_list_wf in H as [-> ?]; [|done..]. cbn [fst snd]. split_and!; [done| |done|by constructor].
  apply valued_list. by right.
Qed.

(** [Value::list_from]: a well-formed list that keeps the data, of maximum
    length the length of the data. *)
Lemma list_from_wf l w :
  Forall wf_value l -> list_from l = Ok w ->
  wf_value w /\ exists e, w = VList l (Z.of_nat (length l)) e.
Proof.
  intros Hl Hw. unfold list_from, construct_parent_list_type in Hw.
  apply bind_Ok in Hw as (r & Hr & [= <-]). apply map_err_inv in Hr.
  apply bind_Ok in Hr as (ts & Hts & Hr). apply lift_panic_inv, mapMR_Ok_Forall2 in Hts.
  assert (Forall (fun c => wf_type c /\ valued c) ts) as Hc.
  { clear Hr. induction Hts as [|x t l ts Hx _ IH]; [constructor|]. apply Forall_cons_1 in Hl as [Hx' Hl].
    destruct (value_type x Hx') as (t' & Ht' & ?). assert (t' = t) as -> by congruence. constructor; auto. }
  apply parent_list_type_upper in Hr as (? & ? & Hlen & Ha); [|done]. rewrite <-(Forall2_length _ _ _ Hts) in Hlen.
  split; [|rewrite <-Hlen; by eexists]. apply wf_value_list. split_and!; [done..|lia|].
  apply Forall_and. split; [done|]. clear - Hts Ha. induction Hts; [constructor|].
  apply Forall_cons_1 in Ha as [? Ha]. constructor; [|auto]. by eexists.
Qed.

(** ** Tuples *)

Lemma bt_insert_aligned {V W} (R : string * V -> string * W -> Prop) k v w m m' :
  Forall2 (fun x y => x.1 = y.1 /\ R x y) m m' -> R (k, v) (k, w) ->
  Forall2 (fun x y => x.1 = y.1 /\ R x y) (bt_insert k v m) (bt_insert k w m').
Proof.
  intros Hm Hr. induction Hm as [|[k1 v1] [k2 w2] m m' [E Hxy] Hm IH]; cbn in *.
  { constructor; [done|constructor]. }
  subst k2. case_decide; [by constructor|]. case_decide; repeat (constructor; try done).
Qed.

Lemma typed_entry_keys ts m : Forall2 typed_entry ts m -> ts.*1 = m.*1.
Proof. induction 1 as [|x y ? ? [Hxy _] _ IH]; cbn; congruence. Qed.

Lemma typed_entries ts m :
  Forall2 typed_entry ts m <-> Forall2 (fun x y => x.1 = y.1 /\ typed_entry x y) ts m.
Proof. split; intros H; (eapply Forall2_impl; [exact H|]); unfold typed_entry; naive_solver. Qed.

Lemma tuple_from_data_wf data w :
  Forall (fun kv => clarity_name_ok kv.1 = true /\ wf_value kv.2) data ->
  tuple_from_data data = Ok w -> wf_value w.
Proof.
  intros Hd Hw. unfold tuple_from_data in Hw. apply bind_Ok in Hw as ([tm dm] & Hf & Hw).
  apply bind_Ok in Hw as (ts & Hts & [= <-]). apply map_err_inv in Hts.
  eapply (foldM_inv (fun acc => bt_sorted (fst acc) /\
    Forall (fun kv => clarity_name_ok kv.1 = true /\ wf_type kv.2 /\ valued kv.2) (fst acc) /\
    Forall2 typed_entry (fst acc) (snd acc))) in Hf as (Hs & Htm & Hal).
  - apply tuple_try_from_wf in Hts as [-> Hwf]; [|done|]; cbn in *.
    + apply wf_value_tuple. split_and!; [done| |done]. apply valued_tuple.
      eapply Forall_impl; [exact Htm|]. naive_solver.
    + eapply Forall_impl; [exact Htm|]. naive_solver.
  - intros [tm' dm'] [k v] acc (Hs & Htm & Hal) Hin Hstep. cbn in *. apply bind_Ok in Hstep as (t & Ht & Hstep).
    apply lift_panic_inv in Ht. destruct (bt_contains k tm'); [done|]. injection Hstep as <-. cbn.
    rewrite Forall_forall in Hd. destruct (Hd _ Hin) as [Hn Hv]. cbn in *.
    destruct (value_type_self v Hv) as (t' & Ht' & Hwt & Hvt & Hty). assert (t' = t) as -> by congruence.
    split_and!; [by apply bt_insert_sorted| |].
    + apply Forall_forall. intros [k' t'] Hk'. apply bt_elem_get in Hk'; [|by apply bt_insert_sorted].
      rewrite bt_get_insert in Hk'. rewrite Forall_forall in Htm. case_decide; [by simplify_eq|].
      by apply Htm, bt_get_elem.
    + rewrite typed_entries in *. by apply bt_insert_aligned.
  - split_and!; constructor.
Qed.

(** * Equality of values *)

Definition veq (a b : Value) : Prop := value_eqb a b = true.
Arguments veq : simpl never.

Lemma veq_list l l' n n' e e' : veq (VList l n e) (VList l' n' e') <-> Forall2 veq l l'.
Proof.
  unfold veq; cbn [value_eqb]. revert l'; induction l as [|x l IH]; intros [|x' l'].
  - split; [constructor|done].
  - split; [done|by inversion 1].
  - split; [done|by inversion 1].
  - rewrite andb_true_iff, IH, Forall2_cons. done.
Qed.

Lemma veq_tuple ts ts' m m' :
  veq (VTuple ts m) (VTuple ts' m') <-> Forall2 (fun x y => x.1 = y.1 /\ veq x.2 y.2) m m'.
Proof.
  unfold veq; cbn [value_eqb]. revert m'; induction m as [|[k x] m IH]; intros [|[k' x'] m'].
  - split; [constructor|done].
  - split; [done|by inversion 1].
  - split; [done|by inversion 1].
  - rewrite !andb_true_iff, IH, Forall2_cons, bool_decide_eq_true. done.
Qed.

Lemma veq_response c d x y : veq (VResponse c x) (VResponse d y) <-> c = d /\ veq x y.
Proof. unfold veq; cbn [value_eqb]. by rewrite andb_true_iff, eqb_true_iff. Qed.

(** The data of a value, without the types recorded in it. *)
Fixpoint erase (v : Value) : Value :=
  match v with
  | VList l _ _ => VList (map erase l) 0 NoType
  | VTuple _ m => VTuple [] (map (fun kv => (kv.1, erase kv.2)) m)
  | VOptional (Some x) => VOptional (Some (erase x))
  | VResponse c x => VResponse c (erase x)
  | _ => v
  end.

Lemma erase_list (l l' : list Value) :
  Forall (fun a => forall b, veq a b <-> erase a = erase b) l ->
  Forall2 veq l l' <-> map erase l = map erase l'.
Proof.
  intros H. revert l'; induction H as [|x l Hx _ IH]; intros [|y l']; cbn [map].
  - split; [done|constructor].
  - split; [by inversion 1|done].
  - split; [by inversion 1|done].
  - rewrite Forall2_cons, Hx, IH. split; [by intros [-> ->]|by intros [=]].
Qed.

Lemma erase_entries (m m' : list (string * Value)) :
  Forall (fun a => forall b, veq a.2 b <-> erase a.2 = erase b) m ->
  Forall2 (fun x y => x.1 = y.1 /\ veq x.2 y.2) m m' <->
  map (fun kv => (kv.1, erase kv.2)) m = map (fun kv => (kv.1, erase kv.2)) m'.
Proof.
  intros H. revert m'; induction H as [|x l Hx _ IH]; intros [|y l']; cbn [map].
  - split; [done|constructor].
  - split; [by inversion 1|done].
  - split; [by inversion 1|done].
  - rewrite Forall2_cons, Hx, IH. split; [by intros [[-> ->] ->]|by intros [=]].
Qed.

(** Equality of values is equality of their data. *)
Lemma veq_erase a b : veq a b <-> erase a = erase b.
Proof.
  revert b; induction a using Value_ind'; intros b'; destruct b' as [| | | | | | |[]|];
    cbn [erase]; try (split; [done|discriminate]); try done;
    rewrite ?veq_list, ?veq_tuple, ?veq_response.
  - unfold veq; cbn. rewrite Z.eqb_eq. naive_solver.
  - unfold veq; cbn. rewrite Z.eqb_eq. naive_solver.
  - unfold veq; cbn. rewrite eqb_true_iff. naive_solver.
  - unfold veq; cbn. rewrite bool_decide_eq_true. naive_solver.
  - rewrite erase_list by done. split; [by intros ->|by intros [=]].
  - unfold veq; cbn. rewrite bool_decide_eq_true. naive_solver.
  - rewrite erase_entries by done. split; [by intros ->|by intros [=]].
  - change (veq a v <-> VOptional (Some (erase a)) = VOptional (Some (erase v))). rewrite IHa. split; [by intros ->|by intros [=]].
  - rewrite IHa. split; [by intros [-> ->]|by intros [=]].
Qed.

#[global] Instance veq_equiv : Equivalence veq.
Proof.
  split.
  - intros v. by apply veq_erase.
  - intros a b. rewrite !veq_erase. done.
  - intros a b c. rewrite !veq_erase. congruence.
Qed.
