(* ===== verification/Hex.v ===== *)
(** Hexadecimal text: [to_hex] and [hex_bytes] of src/util/hash.rs with the
    pairing iterator of src/util/pair.rs. *)
From stdpp Require Import base strings numbers list.
From Stdlib Require Import ZArith Lia.
From S2P Require Import Prelude Names.
#[local] Open Scope Z_scope.

(** [str::chars] on the bytes of a string. *)
Fixpoint utf8_chars (l : list Z) : list Z :=
  match l with
  | [] => []
  | a :: l1 =>
    if a <? 0x80 then a :: utf8_chars l1
    else match l1 with
    | [] => []
    | b :: l2 =>
      if a <? 0xE0 then (a - 0xC0) * 0x40 + (b - 0x80) :: utf8_chars l2
      else match l2 with
      | [] => []
      | c :: l3 =>
        if a <? 0xF0 then ((a - 0xE0) * 0x40 + (b - 0x80)) * 0x40 + (c - 0x80) :: utf8_chars l3
        else match l3 with
        | [] => []
        | d :: l4 =>
          (((a - 0xF0) * 0x40 + (b - 0x80)) * 0x40 + (c - 0x80)) * 0x40 + (d - 0x80) :: utf8_chars l4
        end
      end
    end
  end.

Lemma utf8_chars_ascii l : Forall (fun b => b < 0x80) l -> utf8_chars l = l.
Proof.
  induction l as [|b l IH]; intros Hl; cbn [utf8_chars]; [done|].
  apply Forall_cons_1 in Hl as [Hb Hl]. rewrite (proj2 (Z.ltb_lt _ _)) by lia. by rewrite IH.
Qed.

(** [char::to_digit(16)]. *)
Definition to_digit16 (c : Z) : option Z :=
  if byte_in 48 57 c then Some (c - 48)
  else if byte_in 97 102 c then Some (c - 97 + 10)
  else if byte_in 65 70 c then Some (c - 65 + 10)
  else None.

Inductive HexError := BadLength (n : Z) | BadCharacter (c : Z).

(** The fold of [hex_bytes] over the pairs of characters, with the remainder of
    the iterator ([Pair]). *)
Fixpoint hex_pairs (v : list Z) (chars : list Z) : Res HexError (list Z * option Z) :=
  match chars with
  | [] => Ok (v, None)
  | [c] => Ok (v, Some c)
  | f :: s :: rest =>
    match to_digit16 f, to_digit16 s with
    | None, _ => Err (BadCharacter f)
    | _, None => Err (BadCharacter s)
    | Some f, Some s => hex_pairs (v ++ [wrap 8 (f * 0x10 + s)]) rest
    end
  end.

Definition hex_bytes (s : string) : Res HexError (list Z) :=
  '(v, remainder) ← hex_pairs [] (utf8_chars (string_bytes s));
  match remainder with
  | Some _ => Err (BadLength (str_len s))
  | None => Ok v
  end.

(** [{:02x}]. *)
Definition hex_digit (n : Z) : Z := if n <? 10 then 48 + n else 97 + (n - 10).
Definition to_hex (s : list Z) : string :=
  bytes_string (flat_map (fun b => [hex_digit (b / 16); hex_digit (b mod 16)]) s).

(** * Round trip *)

Lemma to_digit16_hex_digit n : 0 <= n < 16 -> to_digit16 (hex_digit n) = Some n.
Proof.
  intros Hn. unfold to_digit16, hex_digit, byte_in.
  destruct (Z.ltb_spec n 10); repeat case_match; try lia; f_equal; lia.
Qed.

Lemma hex_digit_ascii n : 0 <= n < 16 -> 0 <= hex_digit n < 0x80.
Proof. intros Hn. unfold hex_digit. destruct (Z.ltb_spec n 10); lia. Qed.

Lemma u8_digits b : u8 b -> 0 <= b / 16 < 16 /\ 0 <= b mod 16 < 16 /\ b / 16 * 16 + b mod 16 = b.
Proof.
  unfold u8, in_u. change (2 ^ 8) with 256. intros Hb.
  pose proof (Z.mod_pos_bound b 16). pose proof (Z.div_mod b 16). split_and!; try lia.
Qed.

Lemma string_bytes_of_bytes l : Forall u8 l -> string_bytes (bytes_string l) = l.
Proof. induction 1 as [|b l Hb _ IH]; cbn; [done|]. by rewrite byte_of_ascii_of_byte, IH. Qed.

Lemma to_hex_chars s :
  Forall u8 s ->
  Forall (fun b => 0 <= b < 0x80) (flat_map (fun b => [hex_digit (b / 16); hex_digit (b mod 16)]) s).
Proof.
  induction 1 as [|b l Hb _ IH]; cbn [flat_map app]; [constructor|].
  destruct (u8_digits b Hb) as (? & ? & _). repeat constructor; auto using hex_digit_ascii; by apply hex_digit_ascii.
Qed.

Lemma hex_pairs_to_hex v s :
  Forall u8 s ->
  hex_pairs v (flat_map (fun b => [hex_digit (b / 16); hex_digit (b mod 16)]) s) = Ok (v ++ s, None).
Proof.
  intros Hs. revert v; induction Hs as [|b l Hb _ IH]; intros v; cbn [flat_map app hex_pairs].
  { by rewrite app_nil_r. }
  destruct (u8_digits b Hb) as (? & ? & E). rewrite !to_digit16_hex_digit by done.
  rewrite E, wrap_small by done. rewrite IH, <-(assoc_L (++)). done.
Qed.

Lemma hex_bytes_to_hex s : Forall u8 s -> hex_bytes (to_hex s) = Ok s.
Proof.
  intros Hs. unfold hex_bytes, to_hex. pose proof (to_hex_chars s Hs) as Hc.
  rewrite string_bytes_of_bytes, utf8_chars_ascii.
  - rewrite hex_pairs_to_hex by done. done.
  - eapply Forall_impl; [exact Hc|]. cbn. lia.
  - eapply Forall_impl; [exact Hc|]. cbn. unfold u8, in_u. lia.
Qed.

Lemma to_hex_length s : Forall u8 s -> str_len (to_hex s) = 2 * Z.of_nat (length s).
Proof.
  intros Hs. unfold str_len, to_hex. rewrite <-length_string_bytes, string_bytes_of_bytes.
  - clear Hs. induction s as [|b s IH]; [done|]. cbn [flat_map app length]. lia.
  - eapply Forall_impl; [by apply to_hex_chars|]. cbn. unfold u8, in_u. lia.
Qed.
