(* ===== verification/Serialization.v ===== *)
(** The consensus encoding of Clarity values: src/vm/types/serialization.rs over
    the [BoundReader] of src/util/retry.rs.  Bytes are integers below 256, a
    write appends to the output, and a read advances an explicit reader state. *)
From stdpp Require Import base strings numbers list sets sorting.
From Stdlib Require Import ZArith Lia Ascii.
From S2P Require Import Prelude Names BTree Types TypeFacts Hex.
#[local] Open Scope Z_scope.

(** * Readers *)

Inductive IOErrorKind := UnexpectedEof | OtherIO.

Inductive SerializationError :=
| IOError (kind : IOErrorKind)
| BadTypeError (e : CheckErrors)
| DeserializationError (msg : string)
| DeserializeExpected (t : TypeSignature).

(** A [BoundReader] over a byte slice. *)
Record BoundReader := mkReader { fd : list Z; max_len : Z; read_so_far : Z }.

Definition from_reader (fd : list Z) (max_len : Z) : BoundReader := mkReader fd max_len 0.

(** Code that reads: a state transformer that may fail. *)
Definition Reader (A : Type) : Type := BoundReader -> Res SerializationError (A * BoundReader).

#[global] Instance reader_ret : MRet Reader := fun A a r => Ok (a, r).
#[global] Instance reader_bind : MBind Reader := fun A B f m r =>
  match m r with
  | Ok (a, r') => f a r'
  | Err e => Err e
  | Panic => Panic
  end.

(** Code that does not read. *)
Definition lift {A} (m : Res SerializationError A) : Reader A := fun r =>
  match m with
  | Ok a => Ok (a, r)
  | Err e => Err e
  | Panic => Panic
  end.
Definition throw {A} (e : SerializationError) : Reader A := fun _ => Err e.

(** [BoundReader::read] into a buffer of [buf_len] bytes: the bytes it stored.
    The inner reader is a slice, which reads as many bytes as it has. *)
Definition read (buf_len : nat) : Reader (list Z) := fun r =>
  intended_read ← ok_or (checked_add 64 (read_so_far r) (Z.of_nat buf_len)) (IOError OtherIO);
  let max_read :=
    if max_len r <? intended_read then wrap 64 (max_len r - read_so_far r) else Z.of_nat buf_len in
  if Z.of_nat buf_len <? max_read then Panic
  else
    let buf := take (Z.to_nat max_read) (fd r) in
    let nr := Z.of_nat (length buf) in
    Ok (buf, mkReader (drop (Z.to_nat max_read) (fd r)) (max_len r) (wrap 64 (read_so_far r + nr))).

(** [Read::read_exact]: reads until the buffer is full or a read returns
    nothing.  Every round stores at least one byte, so as many rounds as there
    are bytes to read, and one more, are enough. *)
Fixpoint read_exact_rounds (rounds : nat) (n : nat) : Reader (list Z) :=
  match rounds with
  | O => throw (IOError UnexpectedEof)
  | S rounds =>
    if Nat.eqb n 0 then mret []
    else
      buf ← read n;
      if Nat.eqb (length buf) 0 then throw (IOError UnexpectedEof)
      else rest ← read_exact_rounds rounds (n - length buf); mret (buf ++ rest)
  end.
Definition read_exact (n : nat) : Reader (list Z) := read_exact_rounds (S n) n.

(** A [for] loop that pushes [n] items read by [p]. *)
Fixpoint read_n {A} (n : nat) (p : Reader A) : Reader (list A) :=
  match n with
  | O => mret []
  | S n => x ← p; l ← read_n n p; mret (x :: l)
  end.

(** * Prefixes *)

Inductive TypePrefix :=
| PInt | PUInt | PBuffer | PBoolTrue | PBoolFalse | PPrincipalStandard | PPrincipalContract
| PResponseOk | PResponseErr | POptionalNone | POptionalSome | PList | PTuple.

(** [as u8] and [from_u8]. *)
Definition prefix_u8 (p : TypePrefix) : Z :=
  match p with
  | PInt => 0 | PUInt => 1 | PBuffer => 2 | PBoolTrue => 3 | PBoolFalse => 4
  | PPrincipalStandard => 5 | PPrincipalContract => 6 | PResponseOk => 7 | PResponseErr => 8
  | POptionalNone => 9 | POptionalSome => 10 | PList => 11 | PTuple => 12
  end.
Definition prefix_from_u8 (v : Z) : option TypePrefix :=
  find (fun p => v =? prefix_u8 p)
    [PInt; PUInt; PBuffer; PBoolTrue; PBoolFalse; PPrincipalStandard; PPrincipalContract;
     PResponseOk; PResponseErr; POptionalNone; POptionalSome; PList; PTuple].

Definition prefix_of_principal (p : PrincipalData) : TypePrefix :=
  match p with
  | Standard _ => PPrincipalStandard
  | Contract _ => PPrincipalContract
  end.

Definition prefix_of (v : Value) : TypePrefix :=
  match v with
  | VInt _ => PInt
  | VUInt _ => PUInt
  | VBuffer _ => PBuffer
  | VBool value => if value then PBoolTrue else PBoolFalse
  | VPrincipal p => prefix_of_principal p
  | VResponse committed _ => if committed then PResponseOk else PResponseErr
  | VOptional None => POptionalNone
  | VOptional (Some _) => POptionalSome
  | VList _ _ _ => PList
  | VTuple _ _ => PTuple
  end.

(** * Principals and names *)

Definition serialize_standard (p : StandardPrincipalData) : list Z := [sp_version p] ++ sp_bytes p.

Definition deserialize_standard : Reader StandardPrincipalData :=
  version ← read_exact 1;
  data ← read_exact 20;
  mret (mkStandard (hd 0 version) data).

(** The macro [serialize_guarded_string]: a length byte, then the characters.
    The length does not fit a byte only if the string is not guarded. *)
Definition serialize_name (s : string) : Res Empty_set (list Z) :=
  len ← expect (name_len s);
  Ok (be_encode 1 len ++ string_bytes s).

Definition deserialize_name (try_from : string -> Res BadName string) : Reader string :=
  len ← read_exact 1;
  let len := be_decode len in
  if MAX_STRING_LEN <? len then throw (DeserializationError "String too long")
  else
    data ← read_exact (Z.to_nat len);
    if utf8_valid data then
      lift (map_err (fun _ => DeserializationError "Illegal Clarity string") (try_from (bytes_string data)))
    else throw (DeserializationError "Non-UTF8 string data").

Definition ClarityName_deserialize : Reader string := deserialize_name ClarityName_try_from.
Definition ContractName_deserialize : Reader string := deserialize_name ContractName_try_from.

Definition serialize_contract_id (c : QualifiedContractIdentifier) : Res Empty_set (list Z) :=
  n ← serialize_name (name c);
  Ok (serialize_standard (issuer c) ++ n).

(** [PrincipalData::inner_consensus_serialize] and
    [inner_consensus_deserialize]. *)
Definition principal_serialize (p : PrincipalData) : Res Empty_set (list Z) :=
  body ← match p with
         | Standard s => Ok (serialize_standard s)
         | Contract c => serialize_contract_id c
         end;
  Ok ([prefix_u8 (prefix_of_principal p)] ++ body).

Definition principal_deserialize : Reader PrincipalData :=
  header ← read_exact 1;
  prefix ← lift (ok_or (prefix_from_u8 (hd 0 header)) (DeserializationError "Bad principal prefix"));
  match prefix with
  | PPrincipalStandard => s ← deserialize_standard; mret (Standard s)
  | PPrincipalContract =>
    i ← deserialize_standard;
    n ← ContractName_deserialize;
    mret (Contract (mkContractId i n))
  | _ => throw (DeserializationError "Bad principal prefix")
  end.

(** * Values *)

(** [serialize_write]. *)
Fixpoint serialize_write (v : Value) : Res Empty_set (list Z) :=
  body ← match v with
    | VInt value => Ok (be_encode 16 value)
    | VUInt value => Ok (be_encode 16 value)
    | VBuffer data =>
      len ← expect (BufferLength_try_from (Z.of_nat (length data)));
      Ok (be_encode 4 len ++ data)
    | VPrincipal (Standard data) => Ok (serialize_standard data)
    | VPrincipal (Contract c) => serialize_contract_id c
    | VResponse _ data => serialize_write data
    | VBool _ => Ok []
    | VOptional None => Ok []
    | VOptional (Some value) => serialize_write value
    | VList data _ _ =>
      len ← expect_opt (checked_u 32 (Z.of_nat (length data)));
      items ← mapMR serialize_write data;
      Ok (be_encode 4 len ++ concat items)
    | VTuple _ data_map =>
      len ← expect_opt (checked_u 32 (Z.of_nat (length data_map)));
      items ← mapMR (fun kv => k ← serialize_name kv.1; x ← serialize_write kv.2; Ok (k ++ x)) data_map;
      Ok (be_encode 4 len ++ concat items)
    end;
  Ok ([prefix_u8 (prefix_of v)] ++ body).

(** [i128::from_be_bytes]. *)
Definition i128_from_be (l : list Z) : Z :=
  let z := be_decode l in if z <? 2 ^ 127 then z else z - 2 ^ 128.

(** The macro [check_match]. *)
Definition check_match (item : option TypeSignature) (pattern : TypeSignature -> bool)
  : Res SerializationError unit :=
  match item with
  | None => Ok tt
  | Some x => if pattern x then Ok tt else Err (DeserializeExpected x)
  end.

Definition deserialize_int (expected_type : option TypeSignature) : Reader Value :=
  _ ← lift (check_match expected_type (type_eqb IntType));
  buffer ← read_exact 16;
  mret (VInt (i128_from_be buffer)).

Definition deserialize_uint (expected_type : option TypeSignature) : Reader Value :=
  _ ← lift (check_match expected_type (type_eqb UIntType));
  buffer ← read_exact 16;
  mret (VUInt (be_decode buffer)).

Definition deserialize_buffer (expected_type : option TypeSignature) : Reader Value :=
  buffer_len ← read_exact 4;
  buffer_len ← lift (map_err BadTypeError (BufferLength_try_from (be_decode buffer_len)));
  _ ← lift (check_match expected_type (fun x =>
        match x with BufferType expected_len => buffer_len <=? expected_len | _ => false end));
  data ← read_exact (Z.to_nat buffer_len);
  lift (expect (buff_from data)).

Definition deserialize_bool (expected_type : option TypeSignature) (b : bool) : Reader Value :=
  _ ← lift (check_match expected_type (type_eqb BoolType));
  mret (VBool b).

Definition deserialize_principal_standard (expected_type : option TypeSignature) : Reader Value :=
  _ ← lift (check_match expected_type (type_eqb PrincipalType));
  s ← deserialize_standard;
  mret (VPrincipal (Standard s)).

Definition deserialize_principal_contract (expected_type : option TypeSignature) : Reader Value :=
  _ ← lift (check_match expected_type (type_eqb PrincipalType));
  i ← deserialize_standard;
  n ← ContractName_deserialize;
  mret (VPrincipal (Contract (mkContractId i n))).

Definition deserialize_response (inner : option TypeSignature -> Reader Value)
    (expected_type : option TypeSignature) (committed : bool) : Reader Value :=
  expect_contained_type ← lift
    match expected_type with
    | None => Ok None
    | Some x =>
      match committed, x with
      | true, ResponseType t _ => Ok (Some t)
      | false, ResponseType _ t => Ok (Some t)
      | _, _ => Err (DeserializeExpected x)
      end
    end;
  data ← inner expect_contained_type;
  lift (map_err (fun _ => DeserializationError "Value too large")
    (if committed then Value_okay data else Value_error data)).

Definition deserialize_none (expected_type : option TypeSignature) : Reader Value :=
  _ ← lift (check_match expected_type (fun x => match x with OptionalType _ => true | _ => false end));
  mret Value_none.

Definition deserialize_some (inner : option TypeSignature -> Reader Value)
    (expected_type : option TypeSignature) : Reader Value :=
  expect_contained_type ← lift
    match expected_type with
    | None => Ok None
    | Some (OptionalType t) => Ok (Some t)
    | Some x => Err (DeserializeExpected x)
    end;
  data ← inner expect_contained_type;
  lift (map_err (fun _ => DeserializationError "Value too large") (Value_some data)).

Definition deserialize_list (inner : option TypeSignature -> Reader Value)
    (expected_type : option TypeSignature) : Reader Value :=
  len ← read_exact 4;
  let len := be_decode len in
  if MAX_VALUE_SIZE <? len then throw (DeserializationError "Illegal list type")
  else
    list_type ← lift
      match expected_type with
      | None => Ok None
      | Some (ListType list_max entry_type) =>
        if list_max <? len then Err (DeserializeExpected (ListType list_max entry_type))
        else Ok (Some (list_max, entry_type))
      | Some x => Err (DeserializeExpected x)
      end;
    items ← read_n (Z.to_nat len) (inner (snd <$> list_type));
    lift (map_err (fun _ => DeserializationError "Illegal list type")
      match list_type with
      | Some (list_max, entry_type) => list_with_type items list_max entry_type
      | None => list_from items
      end).

Definition deserialize_entry (inner : option TypeSignature -> Reader Value)
    (tuple_type : option (list (string * TypeSignature))) : Reader (string * Value) :=
  key ← ClarityName_deserialize;
  expected_field_type ← lift
    match tuple_type with
    | None => Ok None
    | Some some_tuple =>
      t ← ok_or (bt_get key some_tuple) (DeserializeExpected (TupleType some_tuple));
      Ok (Some t)
    end;
  value ← inner expected_field_type;
  mret (key, value).

Definition deserialize_tuple (inner : option TypeSignature -> Reader Value)
    (expected_type : option TypeSignature) : Reader Value :=
  len ← read_exact 4;
  let len := be_decode len in
  if MAX_VALUE_SIZE <? len then throw (DeserializationError "Illegal tuple type")
  else
    tuple_type ← lift
      match expected_type with
      | None => Ok None
      | Some (TupleType tuple_type) =>
        if len =? Z.of_nat (length tuple_type) then Ok (Some tuple_type)
        else Err (DeserializeExpected (TupleType tuple_type))
      | Some x => Err (DeserializeExpected x)
      end;
    items ← read_n (Z.to_nat len) (deserialize_entry inner tuple_type);
    lift (map_err (fun _ => DeserializationError "Illegal tuple type")
      match tuple_type with
      | Some tuple_type => tuple_from_data_typed items tuple_type
      | None => tuple_from_data items
      end).

(** The match of [inner_deserialize_read] on the prefix; [inner] is the function
    itself, one level down. *)
Definition deserialize_body (inner : option TypeSignature -> Reader Value)
    (expected_type : option TypeSignature) (prefix : TypePrefix) : Reader Value :=
  match prefix with
  | PInt => deserialize_int expected_type
  | PUInt => deserialize_uint expected_type
  | PBuffer => deserialize_buffer expected_type
  | PBoolTrue => deserialize_bool expected_type true
  | PBoolFalse => deserialize_bool expected_type false
  | PPrincipalStandard => deserialize_principal_standard expected_type
  | PPrincipalContract => deserialize_principal_contract expected_type
  | PResponseOk => deserialize_response inner expected_type true
  | PResponseErr => deserialize_response inner expected_type false
  | POptionalNone => deserialize_none expected_type
  | POptionalSome => deserialize_some inner expected_type
  | PList => deserialize_list inner expected_type
  | PTuple => deserialize_tuple inner expected_type
  end.

(** [inner_deserialize_read].  The code counts the depth up to 16, where it
    fails; [levels] counts down the levels that remain. *)
Fixpoint inner_deserialize_read (levels : nat) (expected_type : option TypeSignature) : Reader Value :=
  match levels with
  | O => throw (BadTypeError TypeSignatureTooDeep)
  | S levels =>
    header ← read_exact 1;
    prefix ← lift (ok_or (prefix_from_u8 (hd 0 header)) (DeserializationError "Bad type prefix"));
    deserialize_body (inner_deserialize_read levels) expected_type prefix
  end.

Definition MAX_LEVELS : nat := 16.

(** [deserialize_read] on a byte slice. *)
Definition deserialize_read (bytes : list Z) (expected_type : option TypeSignature)
  : Res SerializationError Value :=
  '(v, _) ← inner_deserialize_read MAX_LEVELS expected_type
              (from_reader bytes BOUND_VALUE_SERIALIZATION_BYTES);
  Ok v.

(** An I/O error, which includes the end of the input, panics. *)
Definition panic_on_io {A} (m : Res SerializationError A) : Res SerializationError A :=
  match m with
  | Err (IOError _) => Panic
  | m => m
  end.

Definition try_deserialize_bytes (bytes : list Z) (expected : TypeSignature)
  : Res SerializationError Value :=
  panic_on_io (deserialize_read bytes (Some expected)).

Definition try_deserialize_bytes_untyped (bytes : list Z) : Res SerializationError Value :=
  panic_on_io (deserialize_read bytes None).

Definition try_deserialize_hex (hex : string) (expected : TypeSignature)
  : Res SerializationError Value :=
  data ← map_err (fun _ => DeserializationError "Bad hex string") (hex_bytes hex);
  try_deserialize_bytes data expected.

(** The untyped variant drops a [0x] prefix. *)
Definition try_deserialize_hex_untyped (hex : string) : Res SerializationError Value :=
  let hex := match hex with
             | String "0"%char (String "x"%char rest) => rest
             | _ => hex
             end in
  data ← map_err (fun _ => DeserializationError "Bad hex string") (hex_bytes hex);
  try_deserialize_bytes_untyped data.

(** [Value::deserialize], used by the database, and [Value::serialize]. *)
Definition deserialize {E} (hex : string) (expected : TypeSignature) : Res E Value :=
  expect (try_deserialize_hex hex expected).

Definition serialize {E} (v : Value) : Res E string :=
  bytes ← lift_panic (serialize_write v);
  Ok (to_hex bytes).
