(* ===== verification/Codec.v ===== *)
(** The consensus encoding round-trips: what [serialize_write] writes for a
    well-formed value, [deserialize_read] reads back, at every type that admits
    the value and without a type, and never beyond the bound of the reader. *)
From stdpp Require Import base strings numbers list sets sorting.
From Stdlib Require Import ZArith Lia.
From S2P Require Import Prelude Names BTree Types TypeFacts Subtyping Supertypes Values Hex Serialization.
#[local] Open Scope Z_scope.

(** * Reading what was written *)

(** [p] reads exactly the bytes [bs], with result [a], from any reader that
    starts with them and whose bound leaves room for them. *)
Definition reads {A} (p : Reader A) (bs : list Z) (a : A) : Prop :=
  forall rest m k, 0 <= k -> k + Z.of_nat (length bs) <= m -> m < 2 ^ 63 ->
  p (mkReader (bs ++ rest) m k) = Ok (a, mkReader rest m (k + Z.of_nat (length bs))).

Lemma reads_ret {A} (a : A) : reads (mret a) [] a.
Proof. intros rest m k Hk Hm _. cbn. by rewrite Z.add_0_r. Qed.

Lemma reads_lift {A} (m : Res SerializationError A) a : m = Ok a -> reads (lift m) [] a.
Proof. intros -> rest b k Hk Hb _. cbn. by rewrite Z.add_0_r. Qed.

Lemma reads_bind {A B} (p : Reader A) (f : A -> Reader B) b1 b2 a c :
  reads p b1 a -> reads (f a) b2 c -> reads (x ← p; f x) (b1 ++ b2) c.
Proof.
  intros Hp Hf rest m k Hk Hm Hb. rewrite length_app in *. rewrite <-(assoc_L (++)).
  unfold mbind, reader_bind. rewrite Hp by lia. rewrite Hf by lia. do 3 f_equal. lia.
Qed.

Lemma reads_bind_nil {A B} (p : Reader A) (f : A -> Reader B) b2 a c :
  reads p [] a -> reads (f a) b2 c -> reads (x ← p; f x) b2 c.
Proof. intros Hp Hf. by apply (reads_bind p f [] b2 a). Qed.

Lemma reads_bind_end {A B} (p : Reader A) (f : A -> Reader B) b1 a c :
  reads p b1 a -> reads (f a) [] c -> reads (x ← p; f x) b1 c.
Proof. intros Hp Hf. rewrite <-(app_nil_r b1). by apply (reads_bind p f b1 [] a). Qed.

Lemma reads_exact n bs : length bs = n -> reads (read_exact n) bs bs.
Proof.
  intros <- rest m k Hk Hm Hb. unfold read_exact. cbn [read_exact_rounds].
  destruct (Nat.eqb_spec (length bs) 0) as [E|E].
  { destruct bs; [|done]. cbn. by rewrite Z.add_0_r. }
  unfold mbind, reader_bind, read. cbn [fd max_len read_so_far].
  rewrite checked_add_in by (unfold in_u; lia). cbn [ok_or mbind res_bind].
  rewrite (proj2 (Z.ltb_ge m _)) by lia. rewrite Z.ltb_irrefl, Nat2Z.id, take_app_length, drop_app_length.
  rewrite (proj2 (Nat.eqb_neq _ _) E), Nat.sub_diag. rewrite wrap_small by (unfold in_u; lia).
  destruct (length bs) as [|n] eqn:El; [done|]. cbn. by rewrite app_nil_r.
Qed.

Lemma reads_n {A} (p : Reader A) bss l :
  Forall2 (fun b a => reads p b a) bss l -> reads (read_n (length l) p) (concat bss) l.
Proof.
  induction 1 as [|b a bss l Hb _ IH]; cbn [read_n length concat]; [apply reads_ret|].
  eapply reads_bind; [exact Hb|]. eapply reads_bind_end; [exact IH|]. apply reads_ret.
Qed.

(** * Names and principals *)

Lemma reads_name try_from s bs :
  Forall (fun b => b <= 127) (string_bytes s) -> str_len s <= MAX_STRING_LEN -> try_from s = Ok s ->
  serialize_name s = Ok bs -> reads (deserialize_name try_from) bs s.
Proof.
  intros Ha Hl Ht Hs. unfold serialize_name in Hs. unfold MAX_STRING_LEN in *.
  pose proof (str_len_nonneg s).
  rewrite (proj2 (name_len_Ok s (str_len s))) in Hs by lia. cbn [expect mbind res_bind] in Hs. apply Ok_inj in Hs as <-.
  unfold deserialize_name. eapply reads_bind; [by apply reads_exact, length_be_encode|]. cbn beta zeta.
  rewrite be_decode_encode_small by lia. rewrite (proj2 (Z.ltb_ge _ _)) by (unfold MAX_STRING_LEN; lia).
  eapply reads_bind_end; [apply reads_exact|].
  { rewrite length_string_bytes. unfold str_len. lia. }
  cbn beta. rewrite utf8_valid_ascii by done. apply reads_lift. by rewrite bytes_string_bytes, Ht.
Qed.

Lemma reads_standard s : standard_ok s = true -> reads deserialize_standard (serialize_standard s) s.
Proof.
  intros Hs. unfold standard_ok in Hs. rewrite !andb_true_iff, !bool_decide_eq_true in Hs.
  destruct Hs as [[_ Hlen] _]. unfold deserialize_standard, serialize_standard.
  eapply reads_bind; [by apply reads_exact|]. eapply reads_bind_end; [by apply reads_exact|].
  destruct s. apply reads_ret.
Qed.

Lemma clarity_name_ok_facts s :
  clarity_name_ok s = true ->
  Forall (fun b => b <= 127) (string_bytes s) /\ str_len s <= MAX_STRING_LEN /\ ClarityName_try_from s = Ok s.
Proof.
  unfold clarity_name_ok. intros H. pose proof H as [Hl Hr]%andb_true_iff. split_and!.
  - by apply clarity_name_ascii.
  - lia.
  - by apply guarded_try_from_Ok.
Qed.

Lemma contract_name_ok_facts s :
  contract_name_ok s = true ->
  Forall (fun b => b <= 127) (string_bytes s) /\ str_len s <= MAX_STRING_LEN /\ ContractName_try_from s = Ok s.
Proof.
  unfold contract_name_ok. intros H. pose proof H as [Hl Hr]%andb_true_iff. split_and!.
  - by apply contract_name_ascii.
  - lia.
  - by apply guarded_try_from_Ok.
Qed.

Lemma serialize_name_Ok s : str_len s <= MAX_STRING_LEN ->
  serialize_name s = Ok (be_encode 1 (str_len s) ++ string_bytes s).
Proof.
  intros Hs. unfold MAX_STRING_LEN in Hs. unfold serialize_name.
  by rewrite (proj2 (name_len_Ok s (str_len s))) by lia.
Qed.

Lemma reads_clarity_name s bs :
  clarity_name_ok s = true -> serialize_name s = Ok bs -> reads ClarityName_deserialize bs s.
Proof. intros (? & ? & ?)%clarity_name_ok_facts. by apply reads_name. Qed.

Lemma reads_contract c bs :
  contract_id_ok c = true -> serialize_contract_id c = Ok bs ->
  reads (i ← deserialize_standard; n ← ContractName_deserialize;
         mret (VPrincipal (Contract (mkContractId i n)))) bs (VPrincipal (Contract c)).
Proof.
  intros [Hs Hn]%andb_true_iff Hc. unfold serialize_contract_id in Hc.
  apply bind_Ok in Hc as (bn & Hbn & <-%Ok_inj). apply contract_name_ok_facts in Hn as (? & ? & ?).
  eapply reads_bind; [by apply reads_standard|]. eapply reads_bind_end; [by eapply reads_name|].
  destruct c. apply reads_ret.
Qed.

(** * The value a type gives to the data *)

(** What reading [v] at type [t] returns: the data of [v], with the types that
    [t] declares for its lists and tuples. *)
Fixpoint retype (t : TypeSignature) (v : Value) {struct v} : Value :=
  match v, t with
  | VList l _ _, ListType n e => VList (map (retype e) l) n e
  | VTuple _ m, TupleType ts =>
    VTuple ts (map (fun kv =>
      (kv.1, match bt_get kv.1 ts with Some t => retype t kv.2 | None => kv.2 end)) m)
  | VOptional (Some x), OptionalType t => VOptional (Some (retype t x))
  | VResponse c x, ResponseType a b => VResponse c (retype (if c then a else b) x)
  | _, _ => v
  end.

(** The number of nested values, which the deserializer limits. *)
Fixpoint nesting (v : Value) : nat :=
  match v with
  | VList l _ _ => S (list_max (map nesting l))
  | VTuple _ m => S (list_max (map (fun kv => nesting kv.2) m))
  | VOptional (Some x) | VResponse _ x => S (nesting x)
  | _ => 1
  end.

(** What the typed reader returns is well-formed and of the type. *)
Definition retypes (t : TypeSignature) (v : Value) : Prop :=
  wf_value (retype t v) /\ has_type t (retype t v) /\
  exists s, type_of (retype t v) = Ok s /\ sub t s.

Lemma has_type_list t l n e :
  has_type t (VList l n e) -> wf_value (VList l n e) ->
  exists m f, t = ListType m f /\ Z.of_nat (length l) <= Z.max m 0 /\ Forall (has_type f) l.
Proof.
  intros (s & [= <-] & Ha) Hwf. pose proof (adm_same_constructor _ _ Ha).
  destruct t as [| | | | | |m f| | | |]; try done. exists m, f. split; [done|].
  apply adm_list in Ha as (? & ? & [= <- <-] & Ha). apply wf_value_list in Hwf as (_ & _ & Hl & Hd).
  destruct Ha as [Ha|[? Ha]].
  - destruct l; [|cbn in Hl; lia]. split; [cbn; lia|constructor].
  - split; [lia|]. eapply Forall_impl; [exact Hd|]. intros x [_ Hx]. by eapply has_type_trans.
Qed.

Lemma has_type_tuple t ts m :
  wf_type t -> has_type t (VTuple ts m) -> wf_value (VTuple ts m) ->
  exists tm, t = TupleType tm /\ Forall2 typed_entry tm m.
Proof.
  intros Hwt (s & [= <-] & Ha) Hwf. pose proof (adm_same_constructor _ _ Ha).
  destruct t as [| | | | | | |tm| | |]; try done. exists tm. split; [done|].
  apply adm_tuple in Ha as (? & [= <-] & Ha). apply wf_value_tuple in Hwf as (Hts & _ & Hd).
  apply wf_tuple in Hwt as (_ & Hs & _). apply wf_tuple in Hts as (_ & Hs' & _).
  apply adm_entries_aligned in Ha; [|done..]. clear - Ha Hd. revert m Hd.
  induction Ha as [|x y tm ts [E Hxy] _ IH]; intros m Hd; inversion Hd as [|? kv ? ? (Ek & Hw & Hy)]; subst; [constructor|].
  constructor; [|by apply IH]. unfold typed_entry. split_and!; [congruence|done|by eapply has_type_trans].
Qed.

Lemma has_type_some t x :
  has_type t (VOptional (Some x)) -> wf_value (VOptional (Some x)) ->
  exists u, t = OptionalType u /\ has_type u x.
Proof.
  intros (s & Hs & Ha) (Hx & tx & Htx & Hwf)%wf_value_some. rewrite (type_of_some x tx) in Hs by done.
  injection Hs as <-. pose proof (adm_same_constructor _ _ Ha).
  destruct t as [| | | | | | | |u| |]; try done. exists u. split; [done|].
  apply adm_optional in Ha as (? & [= <-] & [->|[_ Ha]]); [|by exists tx].
  destruct (value_type x Hx) as (t' & Ht' & _ & Hv). assert (t' = NoType) as -> by congruence. done.
Qed.

Lemma has_type_response t c x :
  has_type t (VResponse c x) -> wf_value (VResponse c x) ->
  exists u1 u2, t = ResponseType u1 u2 /\ has_type (if c then u1 else u2) x.
Proof.
  intros (s & Hs & Ha) (Hx & tx & Htx & Hwf)%wf_value_response. rewrite (type_of_response c x tx) in Hs by done.
  injection Hs as <-. assert (same_constructor t (response_of c tx) = true) by by apply adm_same_constructor.
  destruct t as [| | | | | | | | |u1 u2|]; try (by destruct c). exists u1, u2. split; [done|].
  destruct (value_type x Hx) as (t' & Ht' & _ & Hv). assert (t' = tx) as -> by congruence.
  apply valued_not_no_type in Hv. apply adm_response in Ha as (y & z & E & Ha).
  exists tx. split; [done|]. destruct c; cbn in E; injection E as <- <-; tauto.
Qed.

Definition retypes_all (v : Value) : Prop :=
  forall t, wf_type t -> valued t -> wf_value v -> has_type t v -> retypes t v.

(** Values that hold no others are read back as they are. *)
Lemma retypes_leaf t v s :
  retype t v = v -> wf_value v -> has_type t v -> type_of v = Ok s -> sub t s -> retypes t v.
Proof. intros Hr Hw Ht Hs Hsub. unfold retypes. rewrite Hr. eauto 10. Qed.

Lemma retypes_base t v :
  retype t v = v -> wf_value v -> has_type t v ->
  (exists s, type_of v = Ok s /\ base_type s = true) -> retypes t v.
Proof.
  intros Hr Hw Ht (s & Hs & Hb). eapply retypes_leaf; [done..|]. destruct Ht as (s' & Hs' & Ha).
  assert (s' = s) as -> by congruence. apply adm_base_r in Ha as ->; [|done]. apply sub_base; auto.
Qed.

Lemma retypes_list l n e : Forall retypes_all l -> retypes_all (VList l n e).
Proof.
  intros IH t Hwt Hvt Hwf Ht. destruct (has_type_list _ _ _ _ Ht Hwf) as (m & f & -> & Hl & Hd).
  pose proof Hwt as (Hwf' & Hm & _)%wf_list. apply wf_value_list in Hwf as (_ & _ & _ & Hw).
  assert (Forall (retypes f) l) as Hr.
  { destruct l as [|x0 l0]; [constructor|]. apply valued_list in Hvt as Hvf. cbn [length] in Hl.
    destruct Hvf as [|Hvf]; [lia|]. rewrite Forall_forall in *. intros x Hx.
    apply (IH x Hx); [done..| |by apply Hd]. by apply Hw. }
  unfold retypes. cbn [retype]. assert (adm (ListType m f) (ListType m f)) by by apply adm_refl_iff.
  split_and!.
  - apply wf_value_list. rewrite length_map. unfold in_u in Hm. split_and!; [done..|lia|].
    clear - Hr. induction Hr as [|x l (? & ? & _) _ IH]; constructor; auto.
  - by exists (ListType m f).
  - exists (ListType m f). split; [done|by apply sub_refl].
Qed.

Lemma retype_entries_at tm l m :
  Forall2 (fun kt kv => typed_entry kt kv /\ bt_get kv.1 tm = Some kt.2) l m ->
  Forall (fun kv => retypes_all kv.2) m -> Forall wf_entry l -> Forall (fun kv => valued kv.2) l ->
  Forall2 typed_entry l (map (fun kv =>
      (kv.1, match bt_get kv.1 tm with Some t => retype t kv.2 | None => kv.2 end)) m).
Proof.
  intros Hm IH Hw Hv.
  induction Hm as [|kt kv l m [(Ek & Hwv & Hty) Hget] _ IHm]; cbn [map]; [constructor|].
  inversion IH; inversion Hw as [|? ? (_ & ? & _)]; inversion Hv; subst.
  constructor; [|by apply IHm]. rewrite Hget.
  match goal with H : retypes_all _ |- _ => destruct (H kt.2) as (? & ? & _); [done..|] end. done.
Qed.

(** The entries of a tuple are found under their names in its sorted type. *)
Lemma typed_entries_get tm m :
  bt_sorted tm -> Forall2 typed_entry tm m ->
  Forall2 (fun kt kv => typed_entry kt kv /\ bt_get kv.1 tm = Some kt.2) tm m.
Proof.
  intros Hs Hm. apply Forall2_same_length_lookup. split; [by eapply Forall2_length|].
  intros i kt kv Hi Hi'. pose proof (Forall2_lookup_lr _ _ _ _ _ _ Hm Hi Hi') as Hty. split; [done|].
  destruct Hty as [<- _]. apply bt_elem_get; [done|]. destruct kt. by eapply list_elem_of_lookup_2.
Qed.

Lemma retypes_tuple ts m : Forall (fun kv => retypes_all kv.2) m -> retypes_all (VTuple ts m).
Proof.
  intros IH t Hwt Hvt Hwf Ht. destruct (has_type_tuple _ _ _ Hwt Ht Hwf) as (tm & -> & Hm).
  pose proof Hwt as (_ & Hs & Hw & _)%wf_tuple. pose proof Hvt as Hv%valued_tuple.
  assert (adm (TupleType tm) (TupleType tm)) by by apply adm_refl_iff.
  unfold retypes. cbn [retype]. split_and!.
  - apply wf_value_tuple. split_and!; [done..|].
    apply retype_entries_at; [by apply typed_entries_get|done..].
  - by exists (TupleType tm).
  - exists (TupleType tm). split; [done|by apply sub_refl].
Qed.

Lemma retypes_wrapped u x :
  retypes_all x -> wf_type u -> valued u \/ u = NoType -> wf_value x -> has_type u x ->
  wf_value (retype u x) /\ exists s, type_of (retype u x) = Ok s /\ sub u s /\ adm u s /\ s <> NoType.
Proof.
  intros IH Hu Hv Hx Ht. destruct Hv as [Hv| ->].
  - destruct (IH u Hu Hv Hx Ht) as (Hw & (s & Hs & Ha) & s' & Hs' & Hsub).
    assert (s' = s) as -> by congruence. split; [done|]. exists s. eauto using adm_r_not_no_type.
  - destruct Ht as (s & _ & Ha). by apply adm_no_type in Ha.
Qed.

Lemma retypes_some x : retypes_all x -> retypes_all (VOptional (Some x)).
Proof.
  intros IH t Hwt Hvt Hwf Ht. destruct (has_type_some _ _ Ht Hwf) as (u & -> & Hu).
  pose proof Hwt as (Hwu & _)%wf_optional. apply wf_value_some in Hwf as (Hx & _).
  apply valued_optional in Hvt.
  destruct (retypes_wrapped u x) as (Hw & s & Hs & Hsub & Ha & Hne); [done|done|tauto|done|done|].
  assert (sub (OptionalType u) (OptionalType s)) as Hsub' by (apply sub_optional; eauto).
  assert (wf_type (OptionalType s)) as Hws by by apply (wf_down (OptionalType u)).
  pose proof (type_of_some _ s Hs Hws) as Hts. unfold retypes. cbn [retype]. split_and!.
  - apply wf_value_some. eauto.
  - exists (OptionalType s). split; [done|]. apply adm_optional. eauto.
  - eauto.
Qed.

Lemma retypes_response c x : retypes_all x -> retypes_all (VResponse c x).
Proof.
  intros IH t Hwt Hvt Hwf Ht. destruct (has_type_response _ _ _ Ht Hwf) as (u1 & u2 & -> & Hu).
  pose proof Hwt as (Hw1 & Hw2 & _)%wf_response. apply wf_value_response in Hwf as (Hx & _).
  apply valued_response in Hvt.
  destruct (retypes_wrapped (if c then u1 else u2) x) as (Hw & s & Hs & Hsub & Ha & Hne);
    [done|by destruct c|destruct c; tauto|done|done|].
  assert (sub (ResponseType u1 u2) (response_of c s)) as Hsub'.
  { apply sub_response. right. destruct c; cbn; eauto 10 using sub_no_type. }
  assert (wf_type (response_of c s)) as Hws by by apply (wf_down (ResponseType u1 u2)).
  pose proof (type_of_response c _ s Hs Hws) as Hts. unfold retypes. cbn [retype]. split_and!.
  - apply wf_value_response. eauto.
  - exists (response_of c s). split; [done|]. apply adm_response. destruct c; cbn; eauto 10.
  - eauto.
Qed.

Lemma retype_sound v : retypes_all v.
Proof.
  induction v using Value_ind'; auto using retypes_list, retypes_tuple, retypes_some, retypes_response;
    intros t Hwt Hvt Hwf Ht; try (apply retypes_base; [by destruct t|done|done|by eexists]).
  - pose proof Hwf as (_ & Hl)%wf_value_buffer.
    eapply retypes_leaf; [by destruct t|done|done|by apply type_of_buffer|].
    destruct Ht as (s & Hs & Ha). rewrite type_of_buffer in Hs by done. injection Hs as <-.
    pose proof (adm_same_constructor _ _ Ha). destruct t; try done.
    apply adm_buffer in Ha as (? & [= <-] & ?). apply sub_buffer. right. eexists; split; [done|lia].
  - eapply retypes_leaf; [by destruct t|done|done|done|]. destruct Ht as (s & Hs & Ha). cbn in Hs. injection Hs as <-.
    pose proof (adm_same_constructor _ _ Ha). destruct t; try done. apply sub_optional. eauto using sub_no_type.
Qed.

(** * Reading at a type *)

Lemma prefix_from_u8_prefix p : prefix_from_u8 (prefix_u8 p) = Some p.
Proof. by destruct p. Qed.

Lemma reads_header levels exp p body v :
  reads (deserialize_body (inner_deserialize_read levels) exp p) body v ->
  reads (inner_deserialize_read (S levels) exp) ([prefix_u8 p] ++ body) v.
Proof.
  intros Hb. cbn [inner_deserialize_read]. eapply reads_bind; [by apply reads_exact|].
  eapply reads_bind_nil; [|exact Hb]. apply reads_lift. cbn [hd]. by rewrite prefix_from_u8_prefix.
Qed.

Lemma reads_check exp pattern {A} (p : Reader A) bs a :
  match exp with Some x => pattern x = true | None => True end ->
  reads p bs a -> reads (_ ← lift (check_match exp pattern); p) bs a.
Proof.
  intros He Hp. eapply reads_bind_nil; [|exact Hp]. apply reads_lift.
  destruct exp; [|done]. unfold check_match. by rewrite He.
Qed.

Lemma wf_list_len n e : wf_type (ListType n e) -> 0 <= n <= MAX_VALUE_SIZE.
Proof.
  intros (He & Hn & _ & z & Hz)%wf_list. cbn [inner_size] in Hz. size_inv. unfold in_u in *.
  repeat match goal with
  | H : inner_size e = Ok _ |- _ => apply (inner_size_pos _ _ He) in H
  | H : inner_type_size _ = Ok _ |- _ => apply inner_type_size_nonneg in H
  end. nia.
Qed.

Lemma wf_tuple_len ts : wf_type (TupleType ts) -> Z.of_nat (length ts) <= MAX_VALUE_SIZE.
Proof.
  intros (_ & _ & _ & z & Hz)%wf_tuple. cbn [inner_size] in Hz. size_inv.
  match goal with H : inner_type_size _ = Ok _ |- _ => apply inner_type_size_nonneg in H end.
  match goal with H : foldM _ ?a _ = Ok _ |- _ =>
    eapply (foldM_inv (fun b => a <= b)) in H; [lia| |lia] end.
  intros b kv b' Hb _ Hb'. size_inv. pose proof (str_len_nonneg kv.1).
  match goal with H : inner_size _ = Ok _ |- _ => apply inner_size_nonneg in H end. lia.
Qed.

Lemma tuple_from_data_typed_loop tm acc m :
  bt_sorted (acc ++ m) -> Forall (fun kv => exists t, bt_get kv.1 tm = Some t /\ has_type t kv.2) m ->
  foldM (fun acc kv =>
      expected_type ← ok_or (bt_get kv.1 tm) (Interpreter FailureConstructingTupleWithType);
      b ← admits expected_type kv.2;
      if (b : bool) then Ok (bt_insert kv.1 kv.2 acc)
      else Err (Interpreter FailureConstructingTupleWithType)) acc m = Ok (acc ++ m).
Proof.
  revert acc; induction m as [|[k v] m IH]; intros acc Hs Hm; cbn [foldM]; [by rewrite app_nil_r|].
  apply Forall_cons_1 in Hm as [(t & Ht & Hv) Hm]. cbn [fst snd] in *. rewrite Ht. cbn [ok_or mbind res_bind].
  rewrite (proj2 (admits_iff t v)) by done. cbn [mbind res_bind].
  change (acc ++ (k, v) :: m) with (acc ++ [(k, v)] ++ m) in *. rewrite (assoc_L (++)) in *.
  rewrite bt_insert_above; [by apply IH|].
  apply bt_sorted_app in Hs as (Hs & _). apply bt_sorted_app in Hs as (_ & _ & Hlt).
  apply Forall_forall. intros k' Hk'. apply Hlt; [done|by left].
Qed.

Lemma tuple_from_data_typed_Ok tm m :
  bt_sorted tm -> Forall2 typed_entry tm m -> tuple_from_data_typed m tm = Ok (VTuple tm m).
Proof.
  intros Hs Hm. unfold tuple_from_data_typed. rewrite tuple_from_data_typed_loop; [done|..].
  - cbn [app]. unfold bt_sorted in *. by rewrite <-(typed_entry_keys _ _ Hm).
  - apply Forall_forall. intros kv (i & Hi)%list_elem_of_lookup. apply typed_entries_get in Hm; [|done].
    destruct (Forall2_lookup_r _ _ _ _ _ Hm Hi) as (kt & _ & (_ & _ & ?) & ?). eauto.
Qed.

Definition reads_typed (v : Value) : Prop :=
  forall levels t bs, (nesting v <= levels)%nat ->
  wf_type t -> valued t -> wf_value v -> has_type t v -> serialize_write v = Ok bs ->
  reads (inner_deserialize_read levels (Some t)) bs (retype t v).

(** The header has been read. *)
Lemma reads_typed_intro v :
  (forall levels t body, (nesting v <= S levels)%nat ->
    wf_type t -> valued t -> wf_value v -> has_type t v ->
    serialize_write v = Ok ([prefix_u8 (prefix_of v)] ++ body) ->
    reads (deserialize_body (inner_deserialize_read levels) (Some t) (prefix_of v)) body (retype t v)) ->
  reads_typed v.
Proof.
  intros H levels t bs Hn Hwt Hvt Hwf Ht Hs. pose proof Hs as Hs'. destruct v as [| | | | | | |[]|];
    cbn [serialize_write] in Hs'; apply bind_Ok in Hs' as (body & _ & <-%Ok_inj);
    (destruct levels as [|levels]; [cbn [nesting] in Hn; lia|]); apply reads_header; by apply H.
Qed.

Lemma body_inj (p : Z) (b1 b2 : list Z) : @Ok Empty_set _ ([p] ++ b1) = Ok ([p] ++ b2) -> b1 = b2.
Proof. by intros [=]. Qed.

Lemma i128_round_trip i : in_i 128 i -> i128_from_be (be_encode 16 i) = i.
Proof.
  intros Hi. unfold in_i in Hi. unfold i128_from_be. rewrite be_decode_encode.
  change (256 ^ Z.of_nat 16) with (2 ^ 128). change (2 ^ (128 - 1)) with (2 ^ 127) in Hi.
  assert (2 ^ 128 = 2 * 2 ^ 127) as E by done.
  destruct (Z.le_gt_cases 0 i).
  - rewrite Z.mod_small by lia. destruct (Z.ltb_spec i (2 ^ 127)); lia.
  - rewrite <-(Z_mod_plus_full i 1), Z.mod_small by lia. destruct (Z.ltb_spec (i + 1 * 2 ^ 128) (2 ^ 127)); lia.
Qed.

(** The type expected of a value without parts is its type. *)
Lemma has_type_base t v s :
  has_type t v -> type_of v = Ok s -> base_type s = true -> t = s.
Proof.
  intros (s' & Hs' & Ha) Hs Hb. assert (s' = s) as -> by congruence. by apply adm_base_r in Ha.
Qed.

(** The bodies of values without parts, with the type expected or without. *)
Definition expects (exp : option TypeSignature) (s : TypeSignature) : Prop :=
  match exp with Some x => x = s | None => True end.

Lemma reads_check_base exp s {A} (p : Reader A) bs a :
  expects exp s -> base_type s = true -> reads p bs a ->
  reads (_ ← lift (check_match exp (type_eqb s)); p) bs a.
Proof.
  intros He Hs. apply reads_check. destruct exp; [|done]. cbn in He. subst. by apply type_eqb_eq.
Qed.

Lemma body_int exp i :
  expects exp IntType -> wf_value (VInt i) -> reads (deserialize_int exp) (be_encode 16 i) (VInt i).
Proof.
  intros He Hwf%bool_decide_eq_true. apply reads_check_base; [done..|].
  eapply reads_bind_end; [by apply reads_exact, length_be_encode|].
  rewrite i128_round_trip by done. apply reads_ret.
Qed.

Lemma body_uint exp u :
  expects exp UIntType -> wf_value (VUInt u) -> reads (deserialize_uint exp) (be_encode 16 u) (VUInt u).
Proof.
  intros He Hwf%bool_decide_eq_true. apply reads_check_base; [done..|].
  eapply reads_bind_end; [by apply reads_exact, length_be_encode|].
  rewrite be_decode_encode_small by done. apply reads_ret.
Qed.

Lemma body_bool exp b : expects exp BoolType -> reads (deserialize_bool exp b) [] (VBool b).
Proof. intros He. apply reads_check_base; [done..|]. apply reads_ret. Qed.

Lemma body_standard exp s :
  expects exp PrincipalType -> standard_ok s = true ->
  reads (deserialize_principal_standard exp) (serialize_standard s) (VPrincipal (Standard s)).
Proof.
  intros He Hs. apply reads_check_base; [done..|].
  eapply reads_bind_end; [by apply reads_standard|]. apply reads_ret.
Qed.

Lemma body_contract exp c bs :
  expects exp PrincipalType -> contract_id_ok c = true -> serialize_contract_id c = Ok bs ->
  reads (deserialize_principal_contract exp) bs (VPrincipal (Contract c)).
Proof. intros He Hc Hs. apply reads_check_base; [done..|]. by apply reads_contract. Qed.

Lemma body_buffer exp l :
  match exp with Some (BufferType n) => Z.of_nat (length l) <= n | Some _ => False | None => True end ->
  wf_value (VBuffer l) ->
  reads (deserialize_buffer exp) (be_encode 4 (Z.of_nat (length l)) ++ l) (VBuffer l).
Proof.
  intros He Hwf. pose proof Hwf as (Hu & Hl)%wf_value_buffer. unfold deserialize_buffer.
  eapply reads_bind; [by apply reads_exact, length_be_encode|]. cbn beta. unfold MAX_VALUE_SIZE in Hl.
  rewrite be_decode_encode_small by (cbn; lia). eapply (reads_bind_nil _ _ _ (Z.of_nat (length l))).
  { apply reads_lift. unfold BufferLength_try_from.
    by rewrite (proj2 (Z.ltb_ge _ _)) by (unfold MAX_VALUE_SIZE; lia). }
  apply reads_check; [destruct exp as [[]|]; try done; lia|].
  eapply reads_bind_end; [apply reads_exact; lia|]. apply reads_lift.
  by rewrite (proj2 (buff_from_exact l (VBuffer l) Hu)).
Qed.

(** The body written for a value without parts is read at [exp]. *)
Definition leaf_reads (exp : option TypeSignature) (v : Value) : Prop :=
  forall levels body, wf_value v -> serialize_write v = Ok ([prefix_u8 (prefix_of v)] ++ body) ->
  reads (deserialize_body (inner_deserialize_read levels) exp (prefix_of v)) body v.

Lemma leaf_int exp i : expects exp IntType -> leaf_reads exp (VInt i).
Proof. intros He levels body Hwf Hs%body_inj. subst body. by apply body_int. Qed.

Lemma leaf_uint exp u : expects exp UIntType -> leaf_reads exp (VUInt u).
Proof. intros He levels body Hwf Hs%body_inj. subst body. by apply body_uint. Qed.

Lemma leaf_bool exp b : expects exp BoolType -> leaf_reads exp (VBool b).
Proof. intros He levels body Hwf Hs%body_inj. subst body. destruct b; by apply body_bool. Qed.

Lemma leaf_principal exp p : expects exp PrincipalType -> leaf_reads exp (VPrincipal p).
Proof.
  intros He levels body Hwf Hs. destruct p as [s|c]; cbn [serialize_write] in Hs.
  - apply body_inj in Hs as <-. by apply body_standard.
  - apply bind_Ok in Hs as (b & Hb & <-%body_inj). by apply body_contract.
Qed.

Lemma leaf_buffer exp l :
  match exp with Some (BufferType n) => Z.of_nat (length l) <= n | Some _ => False | None => True end ->
  leaf_reads exp (VBuffer l).
Proof.
  intros He levels body Hwf Hs. pose proof Hwf as (_ & Hl)%wf_value_buffer. cbn [serialize_write] in Hs.
  unfold BufferLength_try_from in Hs. rewrite (proj2 (Z.ltb_ge _ _)) in Hs by done.
  cbn [expect mbind res_bind] in Hs. apply body_inj in Hs as <-. by apply body_buffer.
Qed.

Lemma leaf_none exp :
  match exp with Some (OptionalType _) | None => True | _ => False end -> leaf_reads exp (VOptional None).
Proof.
  intros He levels body Hwf Hs%body_inj. subst body. apply reads_check; [by destruct exp as [[]|]|apply reads_ret].
Qed.

Lemma reads_typed_leaf v :
  (forall t, has_type t v -> wf_value v -> retype t v = v /\ leaf_reads (Some t) v) -> reads_typed v.
Proof.
  intros H. apply reads_typed_intro. intros levels t body _ _ _ Hwf Ht Hs.
  destruct (H t Ht Hwf) as [-> Hl]. by apply Hl.
Qed.

Lemma reads_typed_base v s :
  type_of v = Ok s -> base_type s = true -> retype s v = v -> leaf_reads (Some s) v -> reads_typed v.
Proof.
  intros Hs Hb Hr Hl. apply reads_typed_leaf. intros t Ht _. by rewrite (has_type_base t v s).
Qed.

Lemma reads_typed_buffer l : reads_typed (VBuffer l).
Proof.
  apply reads_typed_leaf. intros t (s & Hts & Ha) (_ & Hl)%wf_value_buffer. rewrite type_of_buffer in Hts by done.
  injection Hts as <-. pose proof (adm_same_constructor _ _ Ha). destruct t; try done.
  apply adm_buffer in Ha as (? & [= <-] & Ha). split; [done|by apply leaf_buffer].
Qed.

Lemma reads_typed_none : reads_typed (VOptional None).
Proof.
  apply reads_typed_leaf. intros t (s & Hts & Ha) _. cbn in Hts. injection Hts as <-.
  pose proof (adm_same_constructor _ _ Ha). destruct t; try done. split; [done|by apply leaf_none].
Qed.

Lemma reads_typed_some x : reads_typed x -> reads_typed (VOptional (Some x)).
Proof.
  intros IH. apply reads_typed_intro. intros levels t body Hn Hwt Hvt Hwf Ht Hs.
  destruct (retype_sound _ t Hwt Hvt Hwf Ht) as (Hwr & _).
  cbn [serialize_write prefix_of] in Hs. apply bind_Ok in Hs as (b & Hb & <-%body_inj).
  destruct (has_type_some _ _ Ht Hwf) as (u & -> & Hu). cbn [nesting] in Hn.
  apply wf_optional in Hwt as (Hwu & _). apply valued_optional in Hvt. apply wf_value_some in Hwf as (Hx & _).
  cbn [prefix_of deserialize_body retype] in *. unfold deserialize_some.
  eapply reads_bind_nil; [by apply reads_lift|]. eapply reads_bind_end; [apply IH; [lia|done| |done..]|].
  { destruct Hvt as [->|]; [|done]. destruct Hu as (s & _ & Ha). by apply adm_no_type in Ha. }
  apply reads_lift. apply wf_value_some in Hwr as Hwx. destruct Hwx as (Hwx & _).
  by rewrite (proj2 (Value_some_exact _ _ Hwx) (conj eq_refl Hwr)).
Qed.

Lemma reads_typed_response c x : reads_typed x -> reads_typed (VResponse c x).
Proof.
  intros IH. apply reads_typed_intro. intros levels t body Hn Hwt Hvt Hwf Ht Hs.
  destruct (retype_sound _ t Hwt Hvt Hwf Ht) as (Hwr & _).
  cbn [serialize_write prefix_of] in Hs. apply bind_Ok in Hs as (b & Hb & Hs%body_inj). subst body.
  destruct (has_type_response _ _ _ Ht Hwf) as (u1 & u2 & -> & Hu). cbn [nesting] in Hn.
  apply wf_response in Hwt as (Hw1 & Hw2 & _). apply valued_response in Hvt.
  apply wf_value_response in Hwf as (Hx & _). cbn [retype] in *.
  assert (deserialize_body (inner_deserialize_read levels) (Some (ResponseType u1 u2)) (prefix_of (VResponse c x)) =
    deserialize_response (inner_deserialize_read levels) (Some (ResponseType u1 u2)) c) as -> by by destruct c.
  unfold deserialize_response. eapply (reads_bind_nil _ _ _ (Some (if c then u1 else u2))).
  { apply reads_lift. by destruct c. }
  eapply reads_bind_end; [apply IH; [lia|by destruct c| |done..]|].
  { assert (u1 = NoType \/ valued u1) as H1 by tauto. assert (u2 = NoType \/ valued u2) as H2 by tauto.
    destruct Hu as (s & _ & Ha). destruct c; [destruct H1 as [->|]|destruct H2 as [->|]]; try done. }
  apply reads_lift. apply wf_value_response in Hwr as Hwx. destruct Hwx as (Hwx & _).
  pose proof (proj2 (check_wrapped_response c _ _ Hwx) (conj eq_refl Hwr)) as Hc.
  destruct c; unfold Value_okay, Value_error; by rewrite Hc.
Qed.

Lemma be_decode_len n : Z.of_nat n <= MAX_VALUE_SIZE -> be_decode (be_encode 4 (Z.of_nat n)) = Z.of_nat n.
Proof. intros Hn. unfold MAX_VALUE_SIZE in Hn. apply be_decode_encode_small. cbn. lia. Qed.

Lemma reads_typed_list l n e : Forall reads_typed l -> reads_typed (VList l n e).
Proof.
  intros IH. apply reads_typed_intro. intros levels t body Hn Hwt Hvt Hwf Ht Hs.
  destruct (retype_sound _ t Hwt Hvt Hwf Ht) as (Hwr & _).
  destruct (has_type_list _ _ _ _ Ht Hwf) as (m & f & -> & Hl & Hd). pose proof (wf_list_len _ _ Hwt) as Hm.
  cbn [serialize_write prefix_of nesting retype deserialize_body] in *. unfold MAX_VALUE_SIZE in Hm.
  rewrite checked_u_in in Hs by (unfold in_u; lia). cbn [expect_opt mbind res_bind] in Hs.
  apply bind_Ok in Hs as (b & Hb & Hs). apply bind_Ok in Hb as (items & Hi & <-%Ok_inj). apply body_inj in Hs as <-.
  unfold deserialize_list. eapply reads_bind; [by apply reads_exact, length_be_encode|]. cbn beta zeta.
  rewrite be_decode_len by (unfold MAX_VALUE_SIZE; lia).
  rewrite !(proj2 (Z.ltb_ge _ _)) by (unfold MAX_VALUE_SIZE; lia).
  eapply reads_bind_nil; [by apply reads_lift|]. rewrite Nat2Z.id. cbn [fmap option_fmap option_map snd].
  eapply reads_bind_end; [rewrite <-(length_map (retype f)); apply reads_n|].
  - apply wf_list in Hwt as (Hwtf & _). apply valued_list in Hvt.
    assert (l = [] \/ valued f) as Hvf by (destruct l; [by left|cbn in Hl; destruct Hvt; [lia|by right]]).
    apply mapMR_Ok_Forall2 in Hi. apply wf_value_list in Hwf as (_ & _ & _ & Hw). apply Forall_and in Hw as [Hw _].
    apply le_S_n, list_max_le in Hn. rewrite Forall_map in Hn. clear - IH Hn Hi Hw Hd Hvf Hwtf.
    destruct Hvf as [->|Hvf]; [inversion Hi; constructor|].
    induction Hi as [|x b l bs Hx _ IHl]; [constructor|]. cbn [map].
    inversion IH; inversion Hn; inversion Hw; inversion Hd; subst. constructor; [|by apply IHl]. auto.
  - apply reads_lift. apply wf_value_list in Hwr as Hr. destruct Hr as (_ & _ & _ & [Hr _]%Forall_and).
    by rewrite (proj2 (list_with_type_exact _ m f _ Hwt Hvt Hr) (conj eq_refl Hwr)).
Qed.

(** One entry of a tuple: its name, then its value. *)
Lemma reads_entry levels tm k t v bs w :
  clarity_name_ok k = true -> bt_get k tm = Some t ->
  (forall b, serialize_write v = Ok b -> reads (inner_deserialize_read levels (Some t)) b w) ->
  (x ← serialize_name k; y ← serialize_write v; Ok (x ++ y)) = Ok bs ->
  reads (deserialize_entry (inner_deserialize_read levels) (Some tm)) bs (k, w).
Proof.
  intros Hk Hget Hv Hs. apply bind_Ok in Hs as (b1 & Hb1 & Hs). apply bind_Ok in Hs as (b2 & Hb2 & <-%Ok_inj).
  unfold deserialize_entry. eapply reads_bind; [by apply reads_clarity_name|].
  eapply reads_bind_nil; [apply reads_lift; by rewrite Hget|].
  eapply reads_bind_end; [by apply Hv|apply reads_ret].
Qed.

Lemma reads_entries levels tm l m items :
  Forall (fun kv => reads_typed kv.2) m ->
  Forall2 (fun kt kv => typed_entry kt kv /\ bt_get kv.1 tm = Some kt.2) l m ->
  Forall wf_entry l -> Forall (fun kv => valued kv.2) l ->
  Forall (fun kv => (nesting kv.2 <= levels)%nat) m ->
  Forall2 (fun kv b => (x ← serialize_name kv.1; y ← serialize_write kv.2; Ok (x ++ y)) = Ok b) m items ->
  Forall2 (fun b a => reads (deserialize_entry (inner_deserialize_read levels) (Some tm)) b a) items
    (map (fun kv =>
      (kv.1, match bt_get kv.1 tm with Some t => retype t kv.2 | None => kv.2 end)) m).
Proof.
  intros IH Hm Hw Hv Hn Hi. revert items Hi.
  induction Hm as [|[kt t] [k v] l m [(Ek & Hwv & Hty) Hget] _ IHm]; intros items Hi;
    inversion Hi; subst; [constructor|].
  inversion IH; inversion Hw as [|? ? (Hk & Hwt & _)]; inversion Hv; inversion Hn; subst.
  cbn [map fst snd] in *. subst kt. constructor; [|by apply IHm].
  rewrite Hget. eapply reads_entry; [done|done| |done]. auto.
Qed.

Lemma reads_typed_tuple ts m : Forall (fun kv => reads_typed kv.2) m -> reads_typed (VTuple ts m).
Proof.
  intros IH. apply reads_typed_intro. intros levels t body Hn Hwt Hvt Hwf Ht Hs.
  destruct (retype_sound _ t Hwt Hvt Hwf Ht) as (Hwr & _).
  destruct (has_type_tuple _ _ _ Hwt Ht Hwf) as (tm & -> & Hm). pose proof (wf_tuple_len _ Hwt) as Hlen.
  pose proof (Forall2_length _ _ _ Hm) as Hlm. pose proof Hwt as (_ & Hsm & Hw & _)%wf_tuple.
  cbn [serialize_write prefix_of nesting retype deserialize_body] in *. unfold MAX_VALUE_SIZE in Hlen.
  rewrite checked_u_in in Hs by (unfold in_u; lia). cbn [expect_opt mbind res_bind] in Hs.
  apply bind_Ok in Hs as (b & Hb & Hs). apply bind_Ok in Hb as (items & Hi & <-%Ok_inj). apply body_inj in Hs as <-.
  unfold deserialize_tuple. eapply reads_bind; [by apply reads_exact, length_be_encode|]. cbn beta zeta.
  rewrite be_decode_len by (unfold MAX_VALUE_SIZE; lia).
  rewrite (proj2 (Z.ltb_ge _ _)) by (unfold MAX_VALUE_SIZE; lia).
  rewrite Hlm, Z.eqb_refl. eapply reads_bind_nil; [by apply reads_lift|]. rewrite Nat2Z.id.
  eapply reads_bind_end.
  - rewrite <-(length_map (fun kv =>
      (kv.1, match bt_get kv.1 tm with Some t => retype t kv.2 | None => kv.2 end)) m). apply reads_n.
    apply le_S_n, list_max_le in Hn. rewrite Forall_map in Hn.
    eapply reads_entries; [done|by apply typed_entries_get|done|by apply valued_tuple|done|by apply mapMR_Ok_Forall2].
  - apply reads_lift. apply wf_value_tuple in Hwr as (_ & _ & Hr). by rewrite tuple_from_data_typed_Ok.
Qed.

Lemma reads_typed_all v : reads_typed v.
Proof.
  induction v using Value_ind'; auto using reads_typed_buffer, reads_typed_list, reads_typed_tuple,
    reads_typed_none, reads_typed_some, reads_typed_response.
  - by eapply reads_typed_base; [..|by apply leaf_int].
  - by eapply reads_typed_base; [..|by apply leaf_uint].
  - by eapply reads_typed_base; [..|by apply leaf_bool].
  - by eapply reads_typed_base; [..|by apply leaf_principal].
Qed.

(** * Writing *)

Definition writes (v : Value) : Prop :=
  wf_value v -> exists bs, serialize_write v = Ok bs /\ Forall u8 bs.

Lemma writes_intro v body :
  serialize_write v = (b ← body; Ok ([prefix_u8 (prefix_of v)] ++ b)) ->
  (exists b, body = Ok b /\ Forall u8 b) -> exists bs, serialize_write v = Ok bs /\ Forall u8 bs.
Proof.
  intros Hv (b & -> & Hb). rewrite Hv. eexists; split; [done|]. apply Forall_app. split; [|done].
  constructor; [|constructor]. unfold u8, in_u. destruct (prefix_of v); cbn; lia.
Qed.

Lemma serialize_name_u8 s :
  str_len s <= MAX_STRING_LEN -> exists b, serialize_name s = Ok b /\ Forall u8 b.
Proof.
  intros Hs. rewrite serialize_name_Ok by done. eexists; split; [done|].
  apply Forall_app; auto with stacks.
Qed.

Lemma serialize_standard_u8 s : standard_ok s = true -> Forall u8 (serialize_standard s).
Proof.
  unfold standard_ok. rewrite !andb_true_iff, !bool_decide_eq_true. intros [[? _] ?].
  unfold serialize_standard. by constructor.
Qed.

Lemma concat_u8 bss : Forall (Forall u8) bss -> Forall u8 (concat bss).
Proof. induction 1; cbn; [constructor|]. by apply Forall_app. Qed.

Lemma mapMR_writes {A} (f : A -> Res Empty_set (list Z)) l :
  Forall (fun x => exists b, f x = Ok b /\ Forall u8 b) l ->
  exists bss, mapMR f l = Ok bss /\ Forall (Forall u8) bss.
Proof.
  induction 1 as [|x l (b & Hb & Hu) _ (bss & IH & Hbss)]; cbn [mapMR]; [by exists []|].
  rewrite Hb, IH. eexists; split; [done|]. by constructor.
Qed.

Lemma writes_list l n e : Forall writes l -> writes (VList l n e).
Proof.
  intros IH Hwf. apply wf_value_list in Hwf as (Hwt & _ & Hl & Hw).
  pose proof (wf_list_len _ _ Hwt) as Hn. unfold MAX_VALUE_SIZE in Hn.
  eapply writes_intro; [cbn [serialize_write]; reflexivity|]. rewrite checked_u_in by (unfold in_u; lia). cbn [expect_opt mbind res_bind].
  destruct (mapMR_writes serialize_write l) as (bss & -> & Hb).
  { clear - IH Hw. induction IH as [|x l Hx _ IH]; [constructor|]. apply Forall_cons_1 in Hw as [[? _] Hw].
    constructor; auto. }
  eexists; split; [done|]. apply Forall_app; auto using concat_u8 with stacks.
Qed.

Lemma writes_tuple ts m : Forall (fun kv => writes kv.2) m -> writes (VTuple ts m).
Proof.
  intros IH Hwf. apply wf_value_tuple in Hwf as (Hwt & _ & Hm). pose proof (wf_tuple_len _ Hwt) as Hn.
  apply wf_tuple in Hwt as (_ & _ & Hw & _). unfold MAX_VALUE_SIZE in Hn.
  eapply writes_intro; [cbn [serialize_write]; reflexivity|]. rewrite <-(Forall2_length _ _ _ Hm).
  rewrite checked_u_in by (unfold in_u; lia). cbn [expect_opt mbind res_bind].
  match goal with |- context [mapMR ?f m] => destruct (mapMR_writes f m) as (bss & -> & Hb) end.
  { clear - IH Hw Hm. induction Hm as [|kt kv l m (Ek & Hwv & _) _ IHm]; [constructor|].
    inversion IH as [|? ? Hkv]; inversion Hw as [|? ? (Hk & _)]; subst. constructor; [|by apply IHm].
    rewrite Ek in Hk. apply clarity_name_ok_facts in Hk as (_ & Hk & _).
    destruct (serialize_name_u8 _ Hk) as (b1 & -> & ?). destruct (Hkv Hwv) as (b2 & -> & ?).
    eexists; split; [done|]. by apply Forall_app. }
  eexists; split; [done|]. apply Forall_app; auto using concat_u8 with stacks.
Qed.

(** Writing a well-formed value does not panic. *)
Lemma serialize_write_wf v : writes v.
Proof.
  induction v using Value_ind'; auto using writes_list, writes_tuple; intros Hwf;
    try (eapply writes_intro; [cbn [serialize_write]; reflexivity|]; eexists; split; [done|]; auto using Forall_nil_2 with stacks; constructor).
  - apply wf_value_buffer in Hwf as [Hu Hl]. eapply writes_intro; [cbn [serialize_write]; reflexivity|].
    unfold BufferLength_try_from. rewrite (proj2 (Z.ltb_ge _ _)) by done.
    eexists; split; [done|]. apply Forall_app; auto with stacks.
  - unfold wf_value in Hwf. cbn in Hwf. destruct p as [s|c]; (eapply writes_intro; [cbn [serialize_write]; reflexivity|]).
    + eexists; split; [done|]. by apply serialize_standard_u8.
    + apply andb_true_iff in Hwf as [Hs (_ & Hn & _)%contract_name_ok_facts]. unfold serialize_contract_id.
      destruct (serialize_name_u8 _ Hn) as (b & -> & ?). eexists; split; [done|].
      apply Forall_app; auto using serialize_standard_u8.
  - apply wf_value_some in Hwf as (Hx & _). eapply writes_intro; [cbn [serialize_write]; reflexivity|]. auto.
  - apply wf_value_response in Hwf as (Hx & _). eapply writes_intro; [cbn [serialize_write]; reflexivity|]. auto.
Qed.

(** ** The length of an encoding *)

(** At most twice the size of every type that admits the value. *)
Definition encodes_within (v : Value) : Prop :=
  forall t z bs, wf_type t -> inner_size t = Ok z -> wf_value v -> has_type t v ->
  serialize_write v = Ok bs -> Z.of_nat (length bs) <= 2 * z.

Lemma serialize_name_length s b :
  serialize_name s = Ok b -> Z.of_nat (length b) = 1 + str_len s.
Proof.
  unfold serialize_name. intros Hb. apply bind_Ok in Hb as (z & Hz & <-%Ok_inj). apply expect_inv in Hz.
  rewrite length_app, length_be_encode, length_string_bytes. unfold str_len. lia.
Qed.

Lemma serialize_standard_length s : standard_ok s = true -> length (serialize_standard s) = 21%nat.
Proof.
  unfold standard_ok. rewrite !andb_true_iff, !bool_decide_eq_true. intros [[_ Hl] _].
  unfold serialize_standard. cbn. by rewrite Hl.
Qed.

Lemma encodes_principal p : encodes_within (VPrincipal p).
Proof.
  intros t z bs Hwt Hz Hwf Ht Hs. rewrite (has_type_base t _ PrincipalType Ht) in Hz by done.
  cbn in Hz. injection Hz as <-. unfold wf_value in Hwf. cbn in Hwf. destruct p as [s|c]; cbn [serialize_write] in Hs.
  - cbn [mbind res_bind] in Hs. apply Ok_inj in Hs as <-. rewrite length_app, serialize_standard_length by done. cbn. lia.
  - apply bind_Ok in Hs as (b & Hb & <-%Ok_inj). apply bind_Ok in Hb as (b1 & Hb1 & <-%Ok_inj).
    apply andb_true_iff in Hwf as [Hi (_ & Hn & _)%contract_name_ok_facts]. apply serialize_name_length in Hb1.
    rewrite !length_app, serialize_standard_length by done. unfold MAX_STRING_LEN in Hn. cbn. lia.
Qed.

Lemma encodes_buffer l : encodes_within (VBuffer l).
Proof.
  intros t z bs Hwt Hz (_ & Hl)%wf_value_buffer (s & Hts & Ha) Hs. rewrite type_of_buffer in Hts by done.
  injection Hts as <-. pose proof (adm_same_constructor _ _ Ha). destruct t; try done.
  apply adm_buffer in Ha as (? & [= <-] & Ha). apply wf_buffer in Hwt. unfold MAX_VALUE_SIZE in *.
  cbn [inner_size] in Hz. rewrite wrap_small in Hz by (unfold in_u; lia). injection Hz as <-.
  cbn [serialize_write] in Hs. apply bind_Ok in Hs as (b & Hb & <-%Ok_inj). apply bind_Ok in Hb as (n & _ & <-%Ok_inj).
  rewrite !length_app, length_be_encode. cbn. lia.
Qed.

Lemma concat_length_le bss k :
  Forall (fun b : list Z => Z.of_nat (length b) <= k) bss ->
  Z.of_nat (length (concat bss)) <= Z.of_nat (length bss) * k.
Proof.
  induction 1 as [|b bss Hb _ IH]; cbn [concat length]; [lia|]. rewrite length_app. lia.
Qed.

Lemma encodes_list l n e : Forall encodes_within l -> encodes_within (VList l n e).
Proof.
  intros IH t z bs Hwt Hz Hwf Ht Hs. destruct (has_type_list _ _ _ _ Ht Hwf) as (m & f & -> & Hl & Hd).
  pose proof Hwt as (Hwf' & Hm & _)%wf_list. apply wf_value_list in Hwf as (_ & _ & _ & [Hw _]%Forall_and).
  cbn [serialize_write] in Hs. apply bind_Ok in Hs as (b & Hb & <-%Ok_inj). apply bind_Ok in Hb as (k & _ & Hb).
  apply bind_Ok in Hb as (items & Hi & <-%Ok_inj). apply mapMR_Ok_Forall2 in Hi.
  cbn [inner_size inner_type_size] in Hz. size_inv. unfold in_u in *.
  match goal with H : inner_size f = Ok ?x |- _ => rename x into zf, H into Hzf end.
  match goal with H : inner_type_size f = Ok _ |- _ => apply (inner_type_size_pos _ _ Hwf') in H end.
  pose proof (inner_size_pos _ _ Hwf' Hzf).
  assert (Forall (fun b : list Z => Z.of_nat (length b) <= 2 * zf) items) as Hle%concat_length_le.
  { clear - IH Hd Hw Hi Hzf Hwf'. induction Hi as [|x b l bs Hx _ IHl]; [constructor|].
    inversion IH as [|? ? Hex]; inversion Hd; inversion Hw; subst. constructor; [|by apply IHl]. by eapply Hex. }
  rewrite <-(Forall2_length _ _ _ Hi) in Hle. rewrite !length_app, length_be_encode. cbn [length].
  assert (Z.of_nat (length l) * (2 * zf) <= 2 * (zf * m)) by nia. lia.
Qed.

(** The size of a tuple type, against the encodings of its entries. *)
Lemma entries_length l m items a r :
  foldM (fun acc kv =>
    s ← expect (inner_size kv.2);
    acc ← ok_or (checked_add 32 acc s) tt;
    l ← name_len kv.1;
    ok_or (checked_add 32 acc l) tt) a l = Ok r ->
  Forall2 typed_entry l m -> Forall wf_entry l -> Forall (fun kv => encodes_within kv.2) m ->
  Forall2 (fun kv b => (x ← serialize_name kv.1; y ← serialize_write kv.2; Ok (x ++ y)) = Ok b) m items ->
  Z.of_nat (length (concat items)) <= 2 * (r - a) + Z.of_nat (length l).
Proof.
  intros Hr Hm. revert items a Hr.
  induction Hm as [|[kt t] [k v] l m (Ek & Hwv & Hty) _ IHm]; intros items a Hr Hw IH Hi; inversion Hi; subst.
  { cbn in *. injection Hr as <-. lia. }
  inversion IH as [|? ? Hex]; inversion Hw as [|? ? (Hk & Hwt & _)]; subst. cbn [foldM fst snd] in *. subst kt.
  match goal with H : context [foldM] |- _ => revert H end.
  destruct (expect (inner_size t) ≫= _) as [a'| |] eqn:Ea; [|done..]. intros Hr. size_inv.
  match goal with Hr : foldM _ _ l = Ok r, Hi : Forall2 _ m _ |- _ =>
    pose proof (IHm _ _ Hr ltac:(done) ltac:(done) Hi) end.
  match goal with Hn : serialize_name k = Ok _ |- _ => apply serialize_name_length in Hn end.
  match goal with Hz : inner_size t = Ok _, Hs : serialize_write v = Ok _ |- _ =>
    pose proof (Hex t _ _ Hwt Hz Hwv Hty Hs) end.
  pose proof (str_len_nonneg k). cbn [concat length]. rewrite !length_app. lia.
Qed.

Lemma encodes_tuple ts m : Forall (fun kv => encodes_within kv.2) m -> encodes_within (VTuple ts m).
Proof.
  intros IH t z bs Hwt Hz Hwf Ht Hs. destruct (has_type_tuple _ _ _ Hwt Ht Hwf) as (tm & -> & Hm).
  pose proof Hwt as (Hne & _ & Hw & _)%wf_tuple.
  cbn [serialize_write] in Hs. apply bind_Ok in Hs as (b & Hb & <-%Ok_inj). apply bind_Ok in Hb as (k & _ & Hb).
  apply bind_Ok in Hb as (items & Hi & <-%Ok_inj). apply mapMR_Ok_Forall2 in Hi.
  cbn [inner_size] in Hz. size_inv.
  match goal with H : inner_type_size _ = Ok _ |- _ => apply (inner_type_size_pos _ _ Hwt) in H end.
  match goal with H : foldM _ _ _ = Ok _ |- _ => eapply entries_length in H; [|done..] end.
  assert (1 <= Z.of_nat (length tm)) by (destruct tm; [done|cbn; lia]).
  rewrite !length_app, length_be_encode. cbn [length]. lia.
Qed.

Lemma encoding_length v : encodes_within v.
Proof.
  induction v using Value_ind'; auto using encodes_principal, encodes_buffer, encodes_list, encodes_tuple;
    intros t z bs Hwt Hz Hwf Ht Hs.
  - rewrite (has_type_base t _ IntType Ht) in Hz by done. cbn in Hz, Hs. apply Ok_inj in Hs as <-.
    injection Hz as <-. cbn. lia.
  - rewrite (has_type_base t _ UIntType Ht) in Hz by done. cbn in Hz, Hs. apply Ok_inj in Hs as <-.
    injection Hz as <-. cbn. lia.
  - rewrite (has_type_base t _ BoolType Ht) in Hz by done. cbn in Hz, Hs. apply Ok_inj in Hs as <-.
    injection Hz as <-. cbn. lia.
  - apply (inner_size_pos _ _ Hwt) in Hz. cbn in Hs. apply Ok_inj in Hs as <-. cbn. lia.
  - destruct (has_type_some _ _ Ht Hwf) as (u & -> & Hu). apply wf_optional in Hwt as (Hwu & _).
    apply wf_value_some in Hwf as (Hx & _). cbn [serialize_write] in Hs. apply bind_Ok in Hs as (b & Hb & <-%Ok_inj).
    cbn [inner_size] in Hz. size_inv.
    match goal with H : inner_size u = Ok _ |- _ => pose proof (IHv u _ _ Hwu H Hx Hu Hb) end.
    rewrite length_app. unfold WRAPPER_VALUE_SIZE in *. cbn [length]. lia.
  - destruct (has_type_response _ _ _ Ht Hwf) as (u1 & u2 & -> & Hu). apply wf_response in Hwt as (Hw1 & Hw2 & _).
    apply wf_value_response in Hwf as (Hx & _). cbn [serialize_write] in Hs. apply bind_Ok in Hs as (b & Hb & <-%Ok_inj).
    cbn [inner_size] in Hz. size_inv. unfold WRAPPER_VALUE_SIZE in *.
    match goal with H1 : inner_size u1 = Ok ?z1, H2 : inner_size u2 = Ok ?z2 |- _ =>
      assert (Z.of_nat (length b) <= 2 * Z.max z1 z2)
        by (destruct c; [pose proof (IHv u1 _ _ Hw1 H1 Hx Hu Hb)|pose proof (IHv u2 _ _ Hw2 H2 Hx Hu Hb)]; lia) end.
    rewrite length_app. cbn [length]. lia.
Qed.

Lemma wf_type_size t z :
  wf_type t -> inner_size t = Ok z -> z <= MAX_VALUE_SIZE \/ exists n, t = BufferType n.
Proof.
  intros Hwt Hz. destruct t; try (cbn in Hz; injection Hz as <-; left; unfold MAX_VALUE_SIZE; lia); [by eauto|..]; left.
  - cbn [inner_size] in Hz. size_inv. lia.
  - cbn [inner_size] in Hz. size_inv. lia.
  - apply wf_optional in Hwt as (_ & _ & y & Hy & ?). cbn [inner_size] in Hz. rewrite Hy in Hz.
    cbn in Hz. apply ok_or_Ok, checked_add_Some in Hz as [-> _]. lia.
  - apply wf_response in Hwt as (_ & _ & _ & y1 & y2 & Hy1 & Hy2 & ?). cbn [inner_size] in Hz. rewrite Hy1, Hy2 in Hz.
    cbn in Hz. apply ok_or_Ok, checked_add_Some in Hz as [-> _]. lia.
Qed.

Lemma type_of_buffer_inv v n : wf_value v -> type_of v = Ok (BufferType n) -> exists l, v = VBuffer l.
Proof.
  intros Hwf Ht. destruct v as [| | |l| | | |[x|]|c x]; try done; [by eauto|..].
  - apply wf_value_some in Hwf as (_ & s & Hs & Hw). by rewrite (type_of_some x s) in Ht.
  - apply wf_value_response in Hwf as (_ & s & Hs & Hw). rewrite (type_of_response c x s) in Ht by done.
    by destruct c.
Qed.

(** No encoding exceeds the bound of the reader. *)
Lemma encoding_bounded v bs :
  wf_value v -> serialize_write v = Ok bs -> Z.of_nat (length bs) <= BOUND_VALUE_SERIALIZATION_BYTES.
Proof.
  intros Hwf Hs. unfold BOUND_VALUE_SERIALIZATION_BYTES.
  destruct (value_type_self v Hwf) as (t & Ht & Hwt & _ & Hty).
  destruct (inner_size_bounds t Hwt) as (z & Hz & _).
  destruct (wf_type_size t z Hwt Hz) as [Hle|(n & ->)].
  { pose proof (encoding_length v t z bs Hwt Hz Hwf Hty Hs). lia. }
  destruct (type_of_buffer_inv v n Hwf Ht) as (l & ->). apply wf_value_buffer in Hwf as [_ Hl].
  cbn [serialize_write] in Hs. apply bind_Ok in Hs as (b & Hb & <-%Ok_inj). apply bind_Ok in Hb as (k & _ & <-%Ok_inj).
  rewrite !length_app, length_be_encode. cbn [length]. unfold MAX_VALUE_SIZE in *. lia.
Qed.

Lemma reads_run levels exp bs v :
  reads (inner_deserialize_read levels exp) bs v -> Z.of_nat (length bs) <= BOUND_VALUE_SERIALIZATION_BYTES ->
  exists r, inner_deserialize_read levels exp (from_reader bs BOUND_VALUE_SERIALIZATION_BYTES) = Ok (v, r).
Proof.
  intros Hr Hl. unfold from_reader, BOUND_VALUE_SERIALIZATION_BYTES, MAX_VALUE_SIZE in *.
  specialize (Hr [] (1024 * 1024 * 2) 0). rewrite app_nil_r in Hr. rewrite Hr by lia. eauto.
Qed.

(** * Reading without a type *)

Lemma retype_veq v : forall t, veq (retype t v) v.
Proof.
  induction v using Value_ind'; intros t; try (by destruct t); destruct t; try done; cbn [retype].
  - apply veq_list. induction H; constructor; auto.
  - apply veq_tuple. induction H as [|kv m Hx _ IH]; constructor; [|done]. split; [done|].
    cbn. destruct (bt_get kv.1 type_map); [apply Hx|done].
  - apply IHv.
  - apply veq_response. split; [done|apply IHv].
Qed.

Lemma fold_supertype_complete rest t d :
  wf_type d -> proper t -> adm d t -> Forall (fun c => proper c /\ adm d c) rest ->
  exists e, foldM least_supertype t rest = Ok e /\ proper e /\ adm d e.
Proof.
  revert t; induction rest as [|c rest IH]; intros t Hd Hp Ha Hr; cbn [foldM]; [by eauto|].
  apply Forall_cons_1 in Hr as [[Hpc Hac] Hr].
  destruct (supertype_complete_all t c d) as (s & -> & ? & ?); [done..|]. by apply IH.
Qed.

(** The type inferred for a list is below every type of lists that admits the
    items. *)
Lemma parent_list_type_complete ts n d :
  wf_type (ListType n d) -> Z.of_nat (length ts) <= n -> Forall (fun c => proper c /\ adm d c) ts ->
  exists e, parent_list_type ts = Ok (Z.of_nat (length ts), e) /\
    proper (ListType (Z.of_nat (length ts)) e) /\ adm (ListType n d) (ListType (Z.of_nat (length ts)) e).
Proof.
  intros Hwf Hlen Hts. destruct ts as [|t rest].
  { exists NoType. split_and!; [done|done|]. apply adm_list. eexists _, _; split; [done|by left]. }
  pose proof Hwf as (Hd & Hn & _)%wf_list. apply Forall_cons_1 in Hts as [[Hp Ha] Hr].
  destruct (fold_supertype_complete rest t d) as (e & He & Hpe & Hae); [done..|]. exists e.
  assert (proper (ListType (Z.of_nat (length (t :: rest))) e)) as Hpl.
  { apply proper_list. cbn [length]. split_and!; [lia|lia|done]. }
  assert (adm (ListType n d) (ListType (Z.of_nat (length (t :: rest))) e)) as Hal.
  { apply adm_list. eexists _, _; split; [done|right]. cbn [length] in *. split; [lia|done]. }
  split_and!; [|done..]. cbn [parent_list_type]. rewrite He. cbn [mbind res_bind]. unfold in_u in Hn.
  rewrite checked_u_in by (unfold in_u; cbn [length] in *; lia). cbn [ok_or mbind res_bind].
  pose proof (list_of_complete _ _ (wf_down_closed _ _ Hwf Hpl Hal)) as Hl. unfold list_of in Hl.
  apply bind_Ok in Hl as ([n' e'] & -> & [= -> ->]). done.
Qed.

(** What the untyped reader returns for [v], which any type [t] of [v] admits. *)
Definition untyped_result (t : TypeSignature) (v v' : Value) : Prop :=
  veq v' v /\ wf_value v' /\ exists s, type_of v' = Ok s /\ proper s /\ adm t s.

Definition reads_untyped (v : Value) : Prop :=
  forall levels t bs, (nesting v <= levels)%nat -> wf_type t -> wf_value v -> has_type t v ->
  serialize_write v = Ok bs ->
  exists v', reads (inner_deserialize_read levels None) bs v' /\ untyped_result t v v'.

Lemma reads_untyped_intro v :
  (forall levels t body, (nesting v <= S levels)%nat -> wf_type t -> wf_value v -> has_type t v ->
    serialize_write v = Ok ([prefix_u8 (prefix_of v)] ++ body) ->
    exists v', reads (deserialize_body (inner_deserialize_read levels) None (prefix_of v)) body v' /\
      untyped_result t v v') ->
  reads_untyped v.
Proof.
  intros H levels t bs Hn Hwt Hwf Ht Hs. pose proof Hs as Hs'. destruct v as [| | | | | | |[]|];
    cbn [serialize_write] in Hs'; apply bind_Ok in Hs' as (body & _ & <-%Ok_inj);
    (destruct levels as [|levels]; [cbn [nesting] in Hn; lia|]);
    (edestruct H as (v' & Hr & Hv'); [done..|]); exists v'; (split; [by apply reads_header|done]).
Qed.

Lemma untyped_leaf t v s :
  wf_value v -> has_type t v -> type_of v = Ok s -> proper s -> untyped_result t v v.
Proof.
  intros Hw (s' & Hs' & Ha) Hs Hp. assert (s' = s) as -> by congruence. split_and!; [done..|eauto].
Qed.

Lemma reads_untyped_leaf v s :
  (wf_value v -> type_of v = Ok s) -> proper s -> leaf_reads None v -> reads_untyped v.
Proof.
  intros Hs Hp Hl. apply reads_untyped_intro. intros levels t body _ _ Hwf Ht Hb.
  exists v. split; [by apply Hl|]. by eapply untyped_leaf; [..|apply Hs|].
Qed.

Lemma reads_untyped_some x : reads_untyped x -> reads_untyped (VOptional (Some x)).
Proof.
  intros IH. apply reads_untyped_intro. intros levels t body Hn Hwt Hwf Ht Hs.
  cbn [serialize_write prefix_of] in Hs. apply bind_Ok in Hs as (b & Hb & <-%body_inj).
  destruct (has_type_some _ _ Ht Hwf) as (u & -> & Hu). cbn [nesting] in Hn.
  pose proof Hwt as (Hwu & _)%wf_optional. apply wf_value_some in Hwf as (Hx & _).
  destruct (IH levels u b) as (x' & Hr & Hv & Hwx & s & Hts & Hp & Ha); [lia|done..|].
  assert (adm (OptionalType u) (OptionalType s)) as Hao by (apply adm_optional; exists s; split; [done|right; eauto using adm_r_not_no_type]).
  assert (wf_type (OptionalType s)) as Hws by by apply (wf_down_closed (OptionalType u)).
  assert (wf_value (VOptional (Some x'))) as Hwo by (apply wf_value_some; eauto).
  exists (VOptional (Some x')). split; [|split_and!; [done..|]].
  - eapply reads_bind_nil; [by apply reads_lift|]. eapply reads_bind_end; [exact Hr|].
    apply reads_lift. by rewrite (proj2 (Value_some_exact _ _ Hwx) (conj eq_refl Hwo)).
  - exists (OptionalType s). split; [by apply type_of_some|done].
Qed.

Lemma reads_untyped_response c x : reads_untyped x -> reads_untyped (VResponse c x).
Proof.
  intros IH. apply reads_untyped_intro. intros levels t body Hn Hwt Hwf Ht Hs.
  cbn [serialize_write prefix_of] in Hs. apply bind_Ok in Hs as (b & Hb & Hs%body_inj). subst body.
  destruct (has_type_response _ _ _ Ht Hwf) as (u1 & u2 & -> & Hu). cbn [nesting] in Hn.
  pose proof Hwt as (Hw1 & Hw2 & _)%wf_response. apply wf_value_response in Hwf as (Hx & _).
  destruct (IH levels (if c then u1 else u2) b) as (x' & Hr & Hv & Hwx & s & Hts & Hp & Ha); [lia|by destruct c|done..|].
  assert (adm (ResponseType u1 u2) (response_of c s)) as Hao.
  { pose proof (adm_r_not_no_type _ _ Ha). apply adm_response. destruct c; cbn; eauto 10. }
  assert (proper (response_of c s)) as Hpr by (destruct c; by apply proper_response).
  assert (wf_type (response_of c s)) as Hws by by apply (wf_down_closed (ResponseType u1 u2)).
  assert (wf_value (VResponse c x')) as Hwo by (apply wf_value_response; eauto).
  exists (VResponse c x'). split; [|split_and!; [by apply veq_response|done|]].
  - assert (deserialize_body (inner_deserialize_read levels) None (prefix_of (VResponse c x)) =
      deserialize_response (inner_deserialize_read levels) None c) as -> by by destruct c.
    eapply reads_bind_nil; [by apply reads_lift|]. eapply reads_bind_end; [exact Hr|].
    apply reads_lift. pose proof (proj2 (check_wrapped_response c _ _ Hwx) (conj eq_refl Hwo)) as Hc.
    destruct c; unfold Value_okay, Value_error; by rewrite Hc.
  - exists (response_of c s). split; [by apply type_of_response|done].
Qed.

(** The items of a list, each read without a type. *)
Lemma reads_untyped_items levels f l items :
  wf_type f -> Forall reads_untyped l -> Forall (fun x => (nesting x <= levels)%nat) l ->
  Forall wf_value l -> Forall (has_type f) l -> Forall2 (fun x b => serialize_write x = Ok b) l items ->
  exists l', Forall2 (fun b a => reads (inner_deserialize_read levels None) b a) items l' /\
    Forall2 (untyped_result f) l l'.
Proof.
  intros Hf IH Hn Hw Hd Hi. induction Hi as [|x b l bs Hx _ IHl]; [exists []; split; constructor|].
  inversion IH as [|? ? Hux]; inversion Hn; inversion Hw; inversion Hd; subst.
  destruct IHl as (l' & ? & ?); [done..|]. destruct (Hux levels f b) as (x' & ? & ?); [done..|].
  exists (x' :: l'). split; by constructor.
Qed.

Lemma untyped_types f l l' :
  Forall2 (untyped_result f) l l' ->
  exists ts, mapMR type_of l' = Ok ts /\ Forall (fun c => proper c /\ adm f c) ts /\
    Forall wf_value l' /\ Forall2 veq l' l /\ length ts = length l'.
Proof.
  induction 1 as [|x x' l l' (Hv & Hw & s & Hs & Hp & Ha) _ (ts & IH & Hts & Hwl & Hvl & Hlen)].
  { exists []. split_and!; constructor. }
  exists (s :: ts). cbn [mapMR length]. rewrite Hs, IH.
  split_and!; [done|by constructor..|congruence].
Qed.

Lemma reads_untyped_list l n e : Forall reads_untyped l -> reads_untyped (VList l n e).
Proof.
  intros IH. apply reads_untyped_intro. intros levels t body Hn Hwt Hwf Ht Hs.
  destruct (has_type_list _ _ _ _ Ht Hwf) as (m & f & -> & Hl & Hd). pose proof (wf_list_len _ _ Hwt) as Hm.
  cbn [serialize_write prefix_of nesting deserialize_body] in *. unfold MAX_VALUE_SIZE in Hm.
  rewrite checked_u_in in Hs by (unfold in_u; lia). cbn [expect_opt mbind res_bind] in Hs.
  apply bind_Ok in Hs as (b & Hb & Hs). apply bind_Ok in Hb as (items & Hi & <-%Ok_inj). apply body_inj in Hs as <-.
  pose proof Hwt as (Hwtf & _)%wf_list. apply wf_value_list in Hwf as (_ & _ & _ & [Hw _]%Forall_and).
  apply le_S_n, list_max_le in Hn. rewrite Forall_map in Hn. apply mapMR_Ok_Forall2 in Hi.
  destruct (reads_untyped_items levels f l items) as (l' & Hr & Hu); [done..|].
  destruct (untyped_types f l l' Hu) as (ts & Hts & Hpa & Hwl & Hvl & Hlen).
  pose proof (Forall2_length _ _ _ Hvl) as Hll.
  destruct (parent_list_type_complete ts m f) as (g & Hg & Hpg & Hag); [done|lia|done|]. rewrite Hlen in *.
  assert (list_from l' = Ok (VList l' (Z.of_nat (length l')) g)) as Hlf.
  { unfold list_from, construct_parent_list_type. rewrite Hts. cbn [lift_panic mbind res_bind]. by rewrite Hg. }
  exists (VList l' (Z.of_nat (length l')) g). split.
  - unfold deserialize_list. eapply reads_bind; [by apply reads_exact, length_be_encode|]. cbn beta zeta.
    rewrite be_decode_len by (unfold MAX_VALUE_SIZE; lia).
    rewrite !(proj2 (Z.ltb_ge _ _)) by (unfold MAX_VALUE_SIZE; lia).
    eapply reads_bind_nil; [by apply reads_lift|]. rewrite Nat2Z.id, <-Hll.
    eapply reads_bind_end; [by apply reads_n|]. apply reads_lift. by rewrite Hlf.
  - split_and!; [by apply veq_list|by apply (list_from_wf l')|]. eauto.
Qed.

(** The loop of [from_data] over entries in the order of their names. *)
Lemma tuple_from_data_loop tacc acc m ts :
  bt_sorted (acc ++ m) -> tacc.*1 = acc.*1 ->
  Forall2 (fun kv kt => kv.1 = kt.1 /\ type_of kv.2 = Ok kt.2) m ts ->
  foldM (fun a kv =>
      type_info ← lift_panic (type_of kv.2);
      if bt_contains kv.1 (fst a) then Err (Unchecked (NameAlreadyUsed kv.1))
      else Ok (bt_insert kv.1 type_info (fst a), bt_insert kv.1 kv.2 (snd a))) (tacc, acc) m =
  Ok (tacc ++ ts, acc ++ m).
Proof.
  intros Hs Hk Hm. revert tacc acc Hs Hk.
  induction Hm as [|[k v] [k' t] m ts [E Ht] _ IH]; intros tacc acc Hs Hk; cbn [foldM fst snd] in *.
  { by rewrite !app_nil_r. }
  subst k'. rewrite Ht. cbn [lift_panic mbind res_bind].
  change (acc ++ (k, v) :: m) with (acc ++ [(k, v)] ++ m) in *. rewrite (assoc_L (++)) in *.
  pose proof (bt_sorted_app _ _ Hs) as (Hs1 & _). pose proof (bt_sorted_app _ _ Hs1) as (_ & _ & Hlt).
  assert (Forall (fun k' => str_lt k' k) acc.*1) as Hlt'.
  { apply Forall_forall. intros k' Hk'. apply Hlt; [done|by left]. }
  assert (bt_contains k tacc = false) as ->.
  { unfold bt_contains. rewrite (proj2 (bt_get_None k tacc)); [done|]. rewrite Hk. intros Hin.
    rewrite Forall_forall in Hlt'. by apply (str_lt_irrefl k), Hlt'. }
  rewrite !bt_insert_above by (rewrite ?Hk; done).
  rewrite IH; [by rewrite <-!(assoc_L (++))|done|]. by rewrite !fmap_app, Hk.
Qed.

Lemma tuple_from_data_Ok m ts :
  bt_sorted m -> Forall2 (fun kv kt => kv.1 = kt.1 /\ type_of kv.2 = Ok kt.2) m ts ->
  wf_type (TupleType ts) -> tuple_from_data m = Ok (VTuple ts m).
Proof.
  intros Hs Hm Hwf. unfold tuple_from_data. rewrite (tuple_from_data_loop [] [] m ts) by done.
  cbn [app mbind res_bind]. by rewrite tuple_try_from_complete.
Qed.

Lemma reads_entry_untyped levels k v bs w :
  clarity_name_ok k = true ->
  (forall b, serialize_write v = Ok b -> reads (inner_deserialize_read levels None) b w) ->
  (x ← serialize_name k; y ← serialize_write v; Ok (x ++ y)) = Ok bs ->
  reads (deserialize_entry (inner_deserialize_read levels) None) bs (k, w).
Proof.
  intros Hk Hv Hs. apply bind_Ok in Hs as (b1 & Hb1 & Hs). apply bind_Ok in Hs as (b2 & Hb2 & <-%Ok_inj).
  unfold deserialize_entry. eapply reads_bind; [by apply reads_clarity_name|].
  eapply reads_bind_nil; [by apply reads_lift|].
  eapply reads_bind_end; [by apply Hv|apply reads_ret].
Qed.

(** The entries of a tuple, each read without a type, with their types. *)
Lemma reads_untyped_entries levels tm m items :
  Forall wf_entry tm -> Forall (fun kv => reads_untyped kv.2) m ->
  Forall (fun kv => (nesting kv.2 <= levels)%nat) m -> Forall2 typed_entry tm m ->
  Forall2 (fun kv b => (x ← serialize_name kv.1; y ← serialize_write kv.2; Ok (x ++ y)) = Ok b) m items ->
  exists m' ts,
    Forall2 (fun b a => reads (deserialize_entry (inner_deserialize_read levels) None) b a) items m' /\
    Forall2 (fun x y => x.1 = y.1 /\ veq x.2 y.2) m' m /\
    Forall (fun kv => clarity_name_ok kv.1 = true /\ wf_value kv.2) m' /\
    Forall2 (fun kv kt => kv.1 = kt.1 /\ type_of kv.2 = Ok kt.2) m' ts /\
    Forall (fun kt => proper kt.2) ts /\ aligned adm tm ts.
Proof.
  intros Hw IH Hn Hm Hi. revert items Hi.
  induction Hm as [|[kt t] [k v] tm m (Ek & Hwv & Hty) _ IHm]; intros items Hi; inversion Hi as [|? b ? ? Hb]; subst.
  { exists [], []. split_and!; constructor. }
  inversion IH as [|? ? Huv]; inversion Hw as [|? ? (Hk & Hwt & _)]; inversion Hn; subst. cbn [fst snd] in *. subst kt.
  edestruct IHm as (m' & ts & ? & ? & ? & ? & ? & ?); [done..|].
  assert (exists bv, serialize_write v = Ok bv) as (bv & Hbv).
  { apply bind_Ok in Hb as (? & _ & Hb). apply bind_Ok in Hb as (bv & ? & _). eauto. }
  destruct (Huv levels t bv) as (v' & Hr & Hv & Hwv' & s & Hs & Hp & Ha); [done..|].
  exists ((k, v') :: m'), ((k, s) :: ts). split_and!; (constructor; [|done]); try done.
  eapply reads_entry_untyped; [done| |exact Hb]. intros b' Hb'. by assert (b' = bv) as -> by congruence.
Qed.

Lemma reads_untyped_tuple ts m : Forall (fun kv => reads_untyped kv.2) m -> reads_untyped (VTuple ts m).
Proof.
  intros IH. apply reads_untyped_intro. intros levels t body Hn Hwt Hwf Ht Hs.
  destruct (has_type_tuple _ _ _ Hwt Ht Hwf) as (tm & -> & Hm). pose proof (wf_tuple_len _ Hwt) as Hlen.
  pose proof (Forall2_length _ _ _ Hm) as Hlm. pose proof Hwt as (_ & Hsm & Hw & _)%wf_tuple.
  cbn [serialize_write prefix_of nesting deserialize_body] in *. unfold MAX_VALUE_SIZE in Hlen.
  rewrite checked_u_in in Hs by (unfold in_u; lia). cbn [expect_opt mbind res_bind] in Hs.
  apply bind_Ok in Hs as (b & Hb & Hs). apply bind_Ok in Hb as (items & Hi & <-%Ok_inj). apply body_inj in Hs as <-.
  apply le_S_n, list_max_le in Hn. rewrite Forall_map in Hn. apply mapMR_Ok_Forall2 in Hi.
  destruct (reads_untyped_entries levels tm m items) as (m' & us & Hr & Hv & Hwm & Htys & Hp & Hal); [done..|].
  pose proof (Forall2_length _ _ _ Hv) as Hlm'.
  assert (bt_sorted us) as Hsu by (eapply sorted_keys; [by eapply aligned_keys|done]).
  assert (m'.*1 = us.*1) as Hkeys by (clear - Htys; induction Htys as [|???? [? _]]; cbn; congruence).
  assert (bt_sorted m') as Hsm' by (unfold bt_sorted in *; by rewrite Hkeys).
  assert (proper (TupleType us)) as Hpu by by apply proper_tuple.
  assert (adm (TupleType tm) (TupleType us)) as Hau.
  { apply adm_tuple. eexists; split; [done|]. by apply adm_entries_aligned. }
  pose proof (tuple_from_data_Ok m' us Hsm' Htys (wf_down_closed _ _ Hwt Hpu Hau)) as Hdata.
  exists (VTuple us m'). split.
  - unfold deserialize_tuple. eapply reads_bind; [by apply reads_exact, length_be_encode|]. cbn beta zeta.
    rewrite be_decode_len by (unfold MAX_VALUE_SIZE; lia).
    rewrite (proj2 (Z.ltb_ge _ _)) by (unfold MAX_VALUE_SIZE; lia).
    eapply reads_bind_nil; [by apply reads_lift|]. rewrite Nat2Z.id, <-Hlm'.
    eapply reads_bind_end; [by apply reads_n|]. apply reads_lift. by rewrite Hdata.
  - split_and!; [by apply veq_tuple|by apply (tuple_from_data_wf m')|]. eauto.
Qed.

Lemma reads_untyped_all v : reads_untyped v.
Proof.
  induction v using Value_ind'; auto using reads_untyped_list, reads_untyped_tuple,
    reads_untyped_some, reads_untyped_response.
  - by apply (reads_untyped_leaf _ IntType); [..|apply leaf_int].
  - by apply (reads_untyped_leaf _ UIntType); [..|apply leaf_uint].
  - by apply (reads_untyped_leaf _ BoolType); [..|apply leaf_bool].
  - apply (reads_untyped_leaf _ (BufferType (Z.of_nat (length l)))); [|apply proper_buffer; lia|by apply leaf_buffer].
    intros [_ Hl]%wf_value_buffer. by apply type_of_buffer.
  - by apply (reads_untyped_leaf _ PrincipalType); [..|apply leaf_principal].
  - by apply (reads_untyped_leaf _ (OptionalType NoType)); [..|apply leaf_none].
Qed.

(** * Equal values *)

Lemma mapMR_map {E A B C} (f : B -> Res E C) (g : A -> B) l :
  mapMR f (map g l) = mapMR (fun x => f (g x)) l.
Proof. induction l as [|x l IH]; cbn; [done|]. by rewrite IH. Qed.

Lemma mapMR_ext {E A B} (f g : A -> Res E B) l :
  Forall (fun x => f x = g x) l -> mapMR f l = mapMR g l.
Proof. induction 1 as [|x l Hx _ IH]; cbn; [done|]. by rewrite Hx, IH. Qed.

(** What is written does not depend on the types recorded in a value. *)
Lemma serialize_erase v : serialize_write (erase v) = serialize_write v.
Proof.
  induction v using Value_ind'; cbn [erase serialize_write prefix_of]; rewrite ?IHv; try done.
  - rewrite length_map, mapMR_map. by rewrite (mapMR_ext _ serialize_write l).
  - rewrite length_map, mapMR_map. erewrite mapMR_ext; [done|].
    induction H as [|kv m Hkv _ IH]; constructor; [|done]. cbn [fst snd]. by rewrite Hkv.
Qed.

Lemma serialize_veq v w : veq v w -> serialize_write v = serialize_write w.
Proof. intros Hvw%veq_erase. rewrite <-(serialize_erase v), Hvw. apply serialize_erase. Qed.

Lemma encoding_inj v w bs :
  wf_value v -> wf_value w -> (nesting v <= MAX_LEVELS)%nat -> (nesting w <= MAX_LEVELS)%nat ->
  serialize_write v = Ok bs -> serialize_write w = Ok bs -> veq v w.
Proof.
  intros Hv Hw Hnv Hnw Hsv Hsw.
  destruct (value_type_self v Hv) as (tv & _ & Hwtv & _ & Htv).
  destruct (value_type_self w Hw) as (tw & _ & Hwtw & _ & Htw).
  destruct (reads_untyped_all v MAX_LEVELS tv bs) as (v' & Hrv & Hev & _); [done..|].
  destruct (reads_untyped_all w MAX_LEVELS tw bs) as (w' & Hrw & Hew & _); [done..|].
  destruct (reads_run _ _ _ _ Hrv) as (r & Hr); [by apply (encoding_bounded v)|].
  destruct (reads_run _ _ _ _ Hrw) as (r' & Hr'); [by apply (encoding_bounded w)|].
  assert (v' = w') as -> by congruence. by rewrite <-Hev.
Qed.

(** ** Hexadecimal text, as the database stores it *)

Lemma deserialize_serialize {E} t v :
  wf_type t -> valued t -> wf_value v -> has_type t v -> (nesting v <= MAX_LEVELS)%nat ->
  exists hex, serialize (E := E) v = Ok hex /\ deserialize (E := E) hex t = Ok (retype t v).
Proof.
  intros Hwt Hvt Hwf Ht Hn. destruct (serialize_write_wf v Hwf) as (bs & Hs & Hu).
  unfold serialize, deserialize, try_deserialize_hex, try_deserialize_bytes, deserialize_read.
  rewrite Hs. cbn [lift_panic mbind res_bind]. eexists; split; [done|].
  rewrite hex_bytes_to_hex by done. cbn [map_err mbind res_bind].
  edestruct reads_run as (r & Hr); [by apply (reads_typed_all v MAX_LEVELS t bs)|by apply (encoding_bounded v)|].
  by rewrite Hr.
Qed.

(** * Properties *)

(** C30. Typed round trip: a well-formed value nested at most 16 deep, written and
    read back at any admissible type that admits it, is the same data with the
    types declared by that type; the result is well-formed and of that type, and
    neither writing nor reading panics. *)
Theorem typed_round_trip t v :
  wf_type t -> valued t -> wf_value v -> has_type t v -> (nesting v <= MAX_LEVELS)%nat ->
  exists bs, serialize_write v = Ok bs /\
    try_deserialize_bytes bs t = Ok (retype t v) /\
    value_eqb (retype t v) v = true /\ wf_value (retype t v) /\ has_type t (retype t v).
Proof.
  intros Hwt Hvt Hwf Ht Hn. destruct (serialize_write_wf v Hwf) as (bs & Hs & _). exists bs. split; [done|].
  destruct (retype_sound v t Hwt Hvt Hwf Ht) as (? & ? & _). split_and!; [|apply retype_veq|done..].
  edestruct reads_run as (r & Hr); [by apply (reads_typed_all v MAX_LEVELS t bs)|by apply (encoding_bounded v)|].
  unfold try_deserialize_bytes, deserialize_read. by rewrite Hr.
Qed.

(** Untyped round trip: read back without a type, the same value comes back
    well-formed, with types that every type of the original admits. *)
Theorem untyped_round_trip t v :
  wf_type t -> wf_value v -> has_type t v -> (nesting v <= MAX_LEVELS)%nat ->
  exists bs v', serialize_write v = Ok bs /\ try_deserialize_bytes_untyped bs = Ok v' /\
    value_eqb v' v = true /\ wf_value v' /\ has_type t v'.
Proof.
  intros Hwt Hwf Ht Hn. destruct (serialize_write_wf v Hwf) as (bs & Hs & _).
  destruct (reads_untyped_all v MAX_LEVELS t bs) as (v' & Hr & Hv & Hw & s & Hts & _ & Ha); [done..|].
  edestruct reads_run as (r & Hrun); [exact Hr|by apply (encoding_bounded v)|].
  exists bs, v'. split_and!; [done| |done|done|by exists s].
  unfold try_deserialize_bytes_untyped, deserialize_read. by rewrite Hrun.
Qed.

(** The encoding is canonical and injective on the values that can be read
    back: two of them have the same encoding exactly if they are equal. *)
Theorem encoding_injective v w :
  wf_value v -> wf_value w -> (nesting v <= MAX_LEVELS)%nat -> (nesting w <= MAX_LEVELS)%nat ->
  serialize_write v = serialize_write w <-> value_eqb v w = true.
Proof.
  intros Hv Hw Hnv Hnw. split; [|apply serialize_veq]. intros Hs.
  destruct (serialize_write_wf v Hv) as (bs & Hbs & _). apply (encoding_inj v w bs); congruence.
Qed.

(** A value of nested options, lists and tuples for the witnesses. *)
Definition sample_value : Value :=
  VTuple [("ids"%string, ListType 3 (OptionalType UIntType)); ("who"%string, PrincipalType)]
    [("ids"%string, VList [VOptional (Some (VUInt 7)); VOptional None] 3 (OptionalType UIntType));
     ("who"%string, VPrincipal (Standard (mkStandard 26 (repeat 9 20))))].
Definition sample_type : TypeSignature :=
  TupleType [("ids"%string, ListType 5 (OptionalType UIntType)); ("who"%string, PrincipalType)].

Lemma typed_round_trip_witness :
  exists bs, serialize_write sample_value = Ok bs /\
    try_deserialize_bytes bs sample_type = Ok (retype sample_type sample_value) /\
    value_eqb (retype sample_type sample_value) sample_value = true /\
    wf_value (retype sample_type sample_value) /\ has_type sample_type (retype sample_type sample_value).
Proof.
  apply (typed_round_trip sample_type sample_value); try reflexivity; [|vm_compute; lia].
  eexists; split; reflexivity.
Defined.

Lemma untyped_round_trip_witness :
  exists bs v', serialize_write sample_value = Ok bs /\ try_deserialize_bytes_untyped bs = Ok v' /\
    value_eqb v' sample_value = true /\ wf_value v' /\ has_type sample_type v'.
Proof.
  apply (untyped_round_trip sample_type sample_value); try reflexivity; [|vm_compute; lia].
  eexists; split; reflexivity.
Defined.


(** Options nested 16 deep around a value are admissible, well-formed and
    written without an error, and yet cannot be read back: the depth limit of the
    reader is half that of the types, and the database's [deserialize] panics. *)
Theorem deep_values_unreadable :
  let v := Nat.iter 16 (fun x => VOptional (Some x)) (VInt 1) in
  let t := Nat.iter 16 OptionalType IntType in
  wf_value v /\ wf_type t /\ has_type t v /\
  exists hex, serialize (E := Empty_set) v = Ok hex /\
    try_deserialize_hex hex t = Err (BadTypeError TypeSignatureTooDeep) /\
    deserialize (E := Empty_set) hex t = Panic.
Proof.
  cbn zeta. split_and!; [by vm_compute..| |].
  - eexists. split; [by vm_compute|]. by vm_compute.
  - eexists. split; [by vm_compute|]. by vm_compute.
Qed.
