(* ===== verification/Decode.v ===== *)
(** What the deserializer of src/vm/types/serialization.rs accepts: without an
    expected type, every byte string it accepts gives a well-formed value; the
    inputs on which it does not do what its comments say. *)
From stdpp Require Import base strings numbers list sets sorting.
From Stdlib Require Import ZArith Lia.
From S2P Require Import Prelude Names BTree Types TypeFacts Subtyping Supertypes Values Hex Serialization.
#[local] Open Scope Z_scope.

(** * Whatever is read without a type is well-formed *)

(** Every result of [p] on a stream of bytes satisfies [Q]. *)
Definition post {A} (p : Reader A) (Q : A -> Prop) : Prop :=
  forall r a r', Forall u8 (fd r) -> p r = Ok (a, r') -> Q a /\ Forall u8 (fd r').

Lemma post_ret {A} (a : A) (Q : A -> Prop) : Q a -> post (mret a) Q.
Proof. intros Ha r a' r' Hr [= <- <-]. done. Qed.

Lemma post_throw {A} e (Q : A -> Prop) : post (throw e) Q.
Proof. by intros r a r' Hr. Qed.

Lemma post_lift {A} (m : Res SerializationError A) (Q : A -> Prop) :
  (forall a, m = Ok a -> Q a) -> post (lift m) Q.
Proof. intros Hm r a r' Hr. unfold lift. destruct m; [|done..]. intros [= <- <-]. auto. Qed.

Lemma post_bind {A B} (p : Reader A) (f : A -> Reader B) (P : A -> Prop) (Q : B -> Prop) :
  post p P -> (forall a, P a -> post (f a) Q) -> post (x ← p; f x) Q.
Proof.
  intros Hp Hf r b r' Hr. unfold mbind, reader_bind. destruct (p r) as [[a r1]| |] eqn:Ep; [|done..].
  destruct (Hp _ _ _ Hr Ep) as [Ha Hr1]. by apply Hf.
Qed.

Lemma post_read n : post (read n) (Forall u8).
Proof.
  intros r a r' Hr Ha. unfold read in Ha. apply bind_Ok in Ha as (i & _ & Ha).
  destruct (Z.of_nat n <? _); [done|]. injection Ha as <- <-. split; [by apply Forall_take|by apply Forall_drop].
Qed.

Lemma post_read_exact n : post (read_exact n) (Forall u8).
Proof.
  unfold read_exact. generalize (S n). intros k. revert n. induction k as [|k IH]; intros n; cbn [read_exact_rounds];
    [apply post_throw|].
  destruct (Nat.eqb n 0); [by apply post_ret|]. eapply post_bind; [apply post_read|]. intros b Hb.
  destruct (Nat.eqb (length b) 0); [apply post_throw|]. eapply post_bind; [apply IH|]. intros c Hc.
  apply post_ret. by apply Forall_app.
Qed.

(** The number of bytes read. *)
Lemma read_exact_length n r a r' : read_exact n r = Ok (a, r') -> length a = n.
Proof.
  unfold read_exact. generalize (S n). intros k. revert n r a r'. induction k as [|k IH]; intros n r a r'; [done|].
  cbn [read_exact_rounds]. destruct (Nat.eqb_spec n 0) as [->|Hn]; [by intros [= <- _]|].
  unfold mbind at 1, reader_bind at 1. destruct (read n r) as [[b r1]| |] eqn:Eb; [|done..].
  assert (length b <= n)%nat as Hb.
  { unfold read in Eb. apply bind_Ok in Eb as (i & _ & Eb). destruct (Z.ltb_spec (Z.of_nat n)
      (if max_len r <? i then wrap 64 (max_len r - read_so_far r) else Z.of_nat n)); [done|].
    injection Eb as <- _. rewrite length_take. lia. }
  destruct (Nat.eqb_spec (length b) 0); [done|].
  unfold mbind, reader_bind. destruct (read_exact_rounds k _ r1) as [[c r2]| |] eqn:Ec; [|done..].
  intros [= <- _]. apply IH in Ec. rewrite length_app. lia.
Qed.

Lemma post_exact n : post (read_exact n) (fun b => length b = n /\ Forall u8 b).
Proof.
  intros r a r' Hr Ha. destruct (post_read_exact n r a r' Hr Ha). by apply read_exact_length in Ha.
Qed.

Lemma post_read_n {A} n (p : Reader A) (Q : A -> Prop) : post p Q -> post (read_n n p) (Forall Q).
Proof.
  intros Hp. induction n as [|n IH]; cbn [read_n]; [by apply post_ret|].
  eapply post_bind; [exact Hp|]. intros x Hx. eapply post_bind; [exact IH|]. intros l Hl.
  apply post_ret. by constructor.
Qed.

Lemma post_impl {A} (p : Reader A) (P Q : A -> Prop) : (forall a, P a -> Q a) -> post p P -> post p Q.
Proof. intros HPQ Hp r a r' Hr Ha. destruct (Hp r a r' Hr Ha). auto. Qed.


(** ** Each kind of value *)

Lemma post_name try_from (P : string -> Prop) :
  (forall s s', try_from s = Ok s' -> P s') -> post (deserialize_name try_from) P.
Proof.
  intros Ht. unfold deserialize_name. eapply post_bind; [apply post_exact|]. intros b _. cbn zeta.
  destruct (MAX_STRING_LEN <? be_decode b); [apply post_throw|].
  eapply post_bind; [apply post_exact|]. intros d _. destruct (utf8_valid d); [|apply post_throw].
  apply post_lift. intros s Hs. apply map_err_inv in Hs. by eapply Ht.
Qed.

Lemma post_clarity_name : post ClarityName_deserialize (fun s => clarity_name_ok s = true).
Proof. apply post_name. intros s s' Hs. by apply guarded_try_from_inv in Hs as [-> ?]. Qed.

Lemma post_contract_name : post ContractName_deserialize (fun s => contract_name_ok s = true).
Proof. apply post_name. intros s s' Hs. by apply guarded_try_from_inv in Hs as [-> ?]. Qed.

Lemma post_standard : post deserialize_standard (fun s => standard_ok s = true).
Proof.
  unfold deserialize_standard. eapply post_bind; [apply post_exact|]. intros v [Hlv Hv].
  eapply post_bind; [apply post_exact|]. intros d [Hld Hd]. apply post_ret.
  unfold standard_ok. cbn [sp_version sp_bytes]. rewrite !andb_true_iff, !bool_decide_eq_true. split_and!; [|done..].
  destruct v as [|x [|]]; try done. by apply Forall_cons_1 in Hv as [? _].
Qed.

Lemma i128_from_be_range b : length b = 16%nat -> Forall u8 b -> in_i 128 (i128_from_be b).
Proof.
  intros Hl Hb. pose proof (be_decode_bounds b Hb) as Hd. rewrite Hl in Hd.
  change (256 ^ Z.of_nat 16) with (2 ^ 128) in Hd. unfold in_i, i128_from_be.
  change (2 ^ (128 - 1)) with (2 ^ 127). assert (2 ^ 128 = 2 * 2 ^ 127) as E by done.
  destruct (Z.ltb_spec (be_decode b) (2 ^ 127)); lia.
Qed.

Lemma post_check exp pattern {A} (p : Reader A) Q :
  post p Q -> post (_ ← lift (check_match exp pattern); p) Q.
Proof. intros Hp. eapply post_bind; [by apply (post_lift _ (fun _ => True))|]. auto. Qed.

Lemma post_buffer exp : post (deserialize_buffer exp) wf_value.
Proof.
  unfold deserialize_buffer. eapply post_bind; [apply post_exact|]. intros b _.
  eapply post_bind; [by apply (post_lift _ (fun _ => True))|]. intros n _. apply post_check.
  eapply post_bind; [apply post_exact|]. intros d [_ Hd]. apply post_lift. intros v Hv.
  apply expect_inv in Hv. by apply buff_from_exact in Hv as [_ ?].
Qed.

Section inner.
Context (inner : option TypeSignature -> Reader Value).
Context (Hinner : post (inner None) wf_value).

Lemma post_response c : post (deserialize_response inner None c) wf_value.
Proof.
  unfold deserialize_response. eapply post_bind; [by apply (post_lift _ (fun t => t = None)); intros ? [= <-]|].
  intros t ->. eapply post_bind; [exact Hinner|]. intros x Hx. apply post_lift. intros v Hv.
  apply map_err_inv in Hv. destruct c; by apply check_wrapped_response in Hv as [_ ?].
Qed.

Lemma post_some : post (deserialize_some inner None) wf_value.
Proof.
  unfold deserialize_some. eapply post_bind; [by apply (post_lift _ (fun t => t = None)); intros ? [= <-]|].
  intros t ->. eapply post_bind; [exact Hinner|]. intros x Hx. apply post_lift. intros v Hv.
  apply map_err_inv in Hv. by apply Value_some_exact in Hv as [_ ?].
Qed.

Lemma post_list : post (deserialize_list inner None) wf_value.
Proof.
  unfold deserialize_list. eapply post_bind; [apply post_exact|]. intros b _. cbn zeta.
  destruct (MAX_VALUE_SIZE <? be_decode b); [apply post_throw|].
  eapply post_bind; [by apply (post_lift _ (fun t => t = None)); intros ? [= <-]|]. intros t ->.
  eapply post_bind; [by apply post_read_n|]. intros l Hl. apply post_lift. intros v Hv.
  apply map_err_inv in Hv. by apply list_from_wf in Hv as [? _].
Qed.

Lemma post_entry : post (deserialize_entry inner None) (fun kv => clarity_name_ok kv.1 = true /\ wf_value kv.2).
Proof.
  unfold deserialize_entry. eapply post_bind; [apply post_clarity_name|]. intros k Hk.
  eapply post_bind; [by apply (post_lift _ (fun t => t = None)); intros ? [= <-]|]. intros t ->.
  eapply post_bind; [exact Hinner|]. intros x Hx. by apply post_ret.
Qed.

Lemma post_tuple : post (deserialize_tuple inner None) wf_value.
Proof.
  unfold deserialize_tuple. eapply post_bind; [apply post_exact|]. intros b _. cbn zeta.
  destruct (MAX_VALUE_SIZE <? be_decode b); [apply post_throw|].
  eapply post_bind; [by apply (post_lift _ (fun t => t = None)); intros ? [= <-]|]. intros t ->.
  eapply post_bind; [apply post_read_n, post_entry|]. intros l Hl. apply post_lift. intros v Hv.
  apply map_err_inv in Hv. by apply tuple_from_data_wf in Hv.
Qed.

Lemma post_body p : post (deserialize_body inner None p) wf_value.
Proof.
  destruct p; cbn [deserialize_body]; auto using post_buffer, post_response, post_some, post_list, post_tuple;
    apply post_check.
  - eapply post_bind; [apply post_exact|]. intros b [Hl Hb]. apply post_ret.
    by apply bool_decide_eq_true, i128_from_be_range.
  - eapply post_bind; [apply post_exact|]. intros b [Hl Hb]. apply post_ret.
    apply bool_decide_eq_true. pose proof (be_decode_bounds b Hb). rewrite Hl in *. done.
  - by apply post_ret.
  - by apply post_ret.
  - eapply post_bind; [apply post_standard|]. intros s Hs. by apply post_ret.
  - eapply post_bind; [apply post_standard|]. intros s Hs. eapply post_bind; [apply post_contract_name|].
    intros n Hn. apply post_ret. by apply andb_true_iff.
  - by apply post_ret.
Qed.
End inner.

Lemma post_inner levels : post (inner_deserialize_read levels None) wf_value.
Proof.
  induction levels as [|levels IH]; cbn [inner_deserialize_read]; [apply post_throw|].
  eapply post_bind; [apply post_exact|]. intros b _.
  eapply post_bind; [by apply (post_lift _ (fun _ => True))|]. intros p _. by apply post_body.
Qed.

(** * Properties *)

(** C33. Whatever bytes are read without an expected type, the value that comes
    out satisfies the invariant of values. *)
Theorem untyped_deserialize_sound bytes v :
  Forall u8 bytes -> try_deserialize_bytes_untyped bytes = Ok v -> wf_value v.
Proof.
  intros Hb Hv. unfold try_deserialize_bytes_untyped, deserialize_read in Hv.
  destruct (inner_deserialize_read _ _ _) as [[v' r]|[]|] eqn:Er; try done. cbn in Hv. injection Hv as <-.
  by destruct (post_inner MAX_LEVELS (from_reader bytes BOUND_VALUE_SERIALIZATION_BYTES) v' r Hb Er).
Qed.

Lemma untyped_deserialize_sound_witness :
  try_deserialize_bytes_untyped [12; 0; 0; 0; 2; 1; 98; 3; 1; 97; 9] =
    Ok (VTuple [("a"%string, OptionalType NoType); ("b"%string, BoolType)]
               [("a"%string, VOptional None); ("b"%string, VBool true)]) /\
  wf_value (VTuple [("a"%string, OptionalType NoType); ("b"%string, BoolType)]
               [("a"%string, VOptional None); ("b"%string, VBool true)]).
Proof.
  split; [reflexivity|].
  apply (untyped_deserialize_sound [12; 0; 0; 0; 2; 1; 98; 3; 1; 97; 9]); [|reflexivity].
  repeat (apply List.Forall_cons; [vm_compute; split; congruence|]). apply List.Forall_nil.
Defined.

(** An encoding that repeats a name is accepted at a tuple type with as many
    entries, and gives a tuple that lacks a field of its type. *)
Theorem repeated_name_accepted :
  exists bs ts m, wf_type (TupleType ts) /\ valued (TupleType ts) /\
    try_deserialize_bytes bs (TupleType ts) = Ok (VTuple ts m) /\ ~ wf_value (VTuple ts m) /\
    exists name, bt_contains name ts = true /\
      tuple_get ts m name = Err (Unchecked (NoSuchTupleField name ts)).
Proof.
  exists ([12; 0; 0; 0; 2; 1; 97; 3; 1; 97; 4]), [("a"%string, BoolType); ("b"%string, BoolType)],
    [("a"%string, VBool false)].
  split_and!; [by vm_compute..| |by exists "b"%string]. by vm_compute.
Qed.

(** Input that ends early makes [try_deserialize_bytes] panic, where a comment
    promises an error: so does every proper prefix of the encoding of an integer,
    read at the type of integers (the other types reject its first byte). *)
Theorem truncated_input_panics :
  Forall (fun n => forall t, try_deserialize_bytes (take n [0; 0; 0; 0; 0; 0; 0; 0; 0; 0; 0; 0; 0; 0; 0; 0; 5]) t =
    if type_eqb t IntType || Nat.eqb n 0 then Panic else Err (DeserializeExpected t)) (seq 0 17).
Proof.
  repeat (apply List.Forall_cons; [intros t; destruct t; reflexivity|]). constructor.
Qed.
