(* ===== verification/C32.v ===== *)
(** Addresses in Crockford base 32: src/address/c32.rs, and the text of
    principals in src/vm/types/mod.rs. *)
From stdpp Require Import base strings numbers list.
From Stdlib Require Import ZArith Lia.
From S2P Require Import Prelude Names Types.
#[local] Open Scope Z_scope.

(** The hash of the crate [sha2]: 32 bytes. *)
Class Sha256 := {
  sha256 : list Z -> list Z;
  sha256_length : forall data, length (sha256 data) = 32%nat;
  sha256_u8 : forall data, Forall u8 (sha256 data);
}.

(** [str::to_uppercase].  The table of Unicode is not spelled out: on a string
    of ASCII characters it maps the letters a-z. *)
Definition ascii_upper (c : Z) : Z := if byte_in 97 122 c then c - 32 else c.
Class ToUppercase := {
  to_uppercase : list Z -> list Z;
  to_uppercase_ascii : forall l, Forall (fun c => 0 <= c < 0x80) l -> to_uppercase l = map ascii_upper l;
}.

(** The variants of [Error] of src/address/mod.rs that this codec returns. *)
Inductive AddressError :=
| InvalidCrockford32
| InvalidVersion (version : Z)
| BadChecksum (expected actual : Z).

Definition C32_CHARACTERS : list Z := string_bytes "0123456789ABCDEFGHJKMNPQRSTVWXYZ".
(** [c32_chars[value as usize]]. *)
Definition c32_char (value : Z) : Res Empty_set Z := expect_opt (C32_CHARACTERS !! Z.to_nat value).

(** * Encoding *)

(** The loop over the bytes, last byte first: [carry] and [carry_bits] with the
    characters pushed so far.  The variables are [u8]. *)
Fixpoint c32_encode_loop (result : list Z) (carry carry_bits : Z) (input : list Z)
  : Res Empty_set (list Z * Z * Z) :=
  match input with
  | [] => Ok (result, carry, carry_bits)
  | current_value :: input =>
    let low_bits_to_take := 5 - carry_bits in
    let low_bits := Z.land current_value (Z.shiftl 1 low_bits_to_take - 1) in
    let c32_value := wrap 8 (wrap 8 (Z.shiftl low_bits carry_bits) + carry) in
    c ← c32_char c32_value;
    let result := result ++ [c] in
    let carry_bits := (8 + carry_bits) - 5 in
    let carry := Z.shiftr current_value (8 - carry_bits) in
    if 5 <=? carry_bits then
      let c32_value := Z.land carry (Z.shiftl 1 5 - 1) in
      c ← c32_char c32_value;
      c32_encode_loop (result ++ [c]) (Z.shiftr carry 5) (carry_bits - 5) input
    else c32_encode_loop result carry carry_bits input
  end.

(** [while let Some(v) = result.pop()]: drop the values equal to [zero] at the
    end. *)
Fixpoint pop_zeros (zero : Z) (result_rev : list Z) : list Z :=
  match result_rev with
  | v :: rest => if v =? zero then pop_zeros zero rest else result_rev
  | [] => []
  end.
Definition trim_end (zero : Z) (result : list Z) : list Z := reverse (pop_zeros zero (reverse result)).

(** The loop that pushes [zero'] for every leading [zero] of the input. *)
Fixpoint push_leading (zero zero' : Z) (input : list Z) (result : list Z) : list Z :=
  match input with
  | current_value :: input =>
    if current_value =? zero then push_leading zero zero' input (result ++ [zero']) else result
  | [] => result
  end.

Definition c32_encode (input_bytes : list Z) : Res Empty_set (list Z) :=
  '(result, carry, carry_bits) ← c32_encode_loop [] 0 0 (reverse input_bytes);
  result ← (if 0 <? carry_bits then c ← c32_char carry; Ok (result ++ [c]) else Ok result);
  zero ← c32_char 0;
  let result := trim_end zero result in
  let result := push_leading 0 zero input_bytes result in
  Ok (reverse result).

(** * Decoding *)

(** [replace] of one ASCII character by another. *)
Definition replace (from to : Z) (l : list Z) : list Z := map (fun c => if c =? from then to else c) l.

(** [C32_CHARACTERS.find(x)]. *)
Fixpoint find_char (chars : list Z) (x : Z) : option Z :=
  match chars with
  | [] => None
  | c :: chars => if c =? x then Some 0 else (fun i => 1 + i) <$> find_char chars x
  end.

(** The loop over the digits, last digit first; [carry] is a [u16]. *)
Fixpoint c32_decode_loop (result : list Z) (carry carry_bits : Z) (digits : list Z) : list Z * Z * Z :=
  match digits with
  | [] => (result, carry, carry_bits)
  | current_5bit :: digits =>
    let carry := wrap 16 (carry + wrap 16 (Z.shiftl current_5bit carry_bits)) in
    let carry_bits := carry_bits + 5 in
    if 8 <=? carry_bits then
      c32_decode_loop (result ++ [Z.land carry (Z.shiftl 1 8 - 1)]) (Z.shiftr carry 8) (carry_bits - 8) digits
    else c32_decode_loop result carry carry_bits digits
  end.

Section decode.
Context `{!ToUppercase}.

Definition c32_normalize (input_str : list Z) : list Z :=
  replace 73 49 (replace 76 49 (replace 79 48 (to_uppercase input_str))).

Definition c32_decode (input_str : list Z) : Res AddressError (list Z) :=
  let iter_c32_digits_opts := map (find_char C32_CHARACTERS) (reverse (c32_normalize input_str)) in
  let iter_c32_digits := omap id iter_c32_digits_opts in
  if negb (Nat.eqb (length iter_c32_digits) (length iter_c32_digits_opts)) then Err InvalidCrockford32
  else
    let '(result, carry, carry_bits) := c32_decode_loop [] 0 0 iter_c32_digits in
    let result := if 0 <? carry_bits then result ++ [wrap 8 carry] else result in
    let result := trim_end 0 result in
    let result := push_leading 48 0 input_str result in
    Ok (reverse result).
End decode.

(** * Checksums and addresses *)

(** A string may be cut before the byte [b]. *)
Definition is_char_boundary (b : Z) : bool := negb (byte_in 0x80 0xBF b).
(** [split_at(1)] and [&s[1..]]. *)
Definition str_split_at_1 {E} (s : list Z) : Res E (list Z * list Z) :=
  match s with
  | [] => Panic
  | [c] => Ok ([c], [])
  | c :: b :: rest => if is_char_boundary b then Ok ([c], b :: rest) else Panic
  end.

(** Four bytes, first byte lowest. *)
Definition sum_u32 (l : list Z) : Z :=
  match l with
  | [b0; b1; b2; b3] => Z.lor (Z.lor (Z.lor b0 (Z.shiftl b1 8)) (Z.shiftl b2 16)) (Z.shiftl b3 24)
  | _ => 0
  end.

Section addresses.
Context `{!Sha256} `{!ToUppercase}.

Definition double_sha256_checksum (data : list Z) : list Z := take 4 (sha256 (sha256 data)).

Definition c32_check_encode (version : Z) (data : list Z) : Res AddressError (list Z) :=
  if 32 <=? version then Err (InvalidVersion version)
  else
    let check_data := version :: data in
    let checksum := double_sha256_checksum check_data in
    let encoding_data := data ++ checksum in
    c32_string ← lift_panic (c32_encode encoding_data);
    version_char ← lift_panic (c32_char version);
    Ok (version_char :: c32_string).

Definition c32_check_decode (check_data_unsanitized : list Z) : Res AddressError (Z * list Z) :=
  if Nat.ltb (length check_data_unsanitized) 2 then Err InvalidCrockford32
  else
    '(version, data) ← str_split_at_1 (c32_normalize check_data_unsanitized);
    data_sum_bytes ← c32_decode data;
    if Nat.ltb (length data_sum_bytes) 5 then Err InvalidCrockford32
    else
      let data_bytes := take (length data_sum_bytes - 4) data_sum_bytes in
      let expected_sum := drop (length data_sum_bytes - 4) data_sum_bytes in
      check_data ← c32_decode version;
      let check_data := check_data ++ data_bytes in
      let computed_sum := double_sha256_checksum check_data in
      if decide (computed_sum <> expected_sum) then
        Err (BadChecksum (sum_u32 computed_sum) (sum_u32 expected_sum))
      else
        version ← expect_opt (check_data !! 0%nat);
        Ok (version, data_bytes).

Definition c32_address_decode (c32_address_str : list Z) : Res AddressError (Z * list Z) :=
  if Nat.leb (length c32_address_str) 5 then Err InvalidCrockford32
  else '(_, rest) ← str_split_at_1 c32_address_str; c32_check_decode rest.

Definition c32_address (version : Z) (data : list Z) : Res AddressError (list Z) :=
  c32_string ← c32_check_encode version data;
  Ok (string_bytes "S" ++ c32_string).

(** [StandardPrincipalData::to_address] and [parse_standard_principal]. *)
Definition to_address (p : StandardPrincipalData) : Res Empty_set (list Z) :=
  match c32_address (sp_version p) (sp_bytes p) with
  | Ok s => Ok s
  | Err _ => Ok (string_bytes "INVALID_C32_ADD")
  | Panic => Panic
  end.

(** [Display] of the errors above; [{:x}] and [{}] of an integer. *)
Fixpoint digits_fuel (fuel : nat) (base n : Z) (acc : list Z) : list Z :=
  match fuel with
  | O => acc
  | S fuel =>
    let d := n mod base in
    let acc := (if d <? 10 then 48 + d else 87 + d) :: acc in
    if n <? base then acc else digits_fuel fuel base (n / base) acc
  end.
Definition fmt_hex (n : Z) : string := bytes_string (digits_fuel 32 16 n []).
Definition fmt_dec (n : Z) : string := bytes_string (digits_fuel 39 10 n []).
Definition address_error_display (e : AddressError) : string :=
  match e with
  | InvalidCrockford32 => "Invalid crockford 32 string"
  | InvalidVersion v => "Invalid version " +:+ fmt_dec v
  | BadChecksum exp actual =>
    "base58ck checksum 0x" +:+ fmt_hex actual +:+ " does not match expected 0x" +:+ fmt_hex exp
  end.

Definition parse_standard_principal (literal : list Z) : Res VmError StandardPrincipalData :=
  '(version, data) ← map_err (fun x => Runtime (ParseError ("Invalid principal literal: " +:+ address_error_display x)))
                       (c32_address_decode literal);
  if negb (Nat.eqb (length data) 20) then
    Err (Runtime (ParseError "Invalid principal literal: Expected 20 data bytes."))
  else Ok (mkStandard version data).

(** [splitn(2, ".")]: the part before the first dot, and the rest if there is a
    dot. *)
Fixpoint split_dot (l : list Z) : list Z * option (list Z) :=
  match l with
  | [] => ([], None)
  | c :: l => if c =? 46 then ([], Some l) else let '(a, b) := split_dot l in (c :: a, b)
  end.

Definition QualifiedContractIdentifier_parse (literal : list Z) : Res VmError QualifiedContractIdentifier :=
  match split_dot literal with
  | (_, None) =>
    Err (Runtime (ParseError "Invalid principal literal: expected a `.` in a qualified contract name"))
  | (s0, Some s1) =>
    sender ← parse_standard_principal s0;
    name ← map_err (fun '(BadNameValue label value) => Runtime (RuntimeBadNameValue label value))
             (ContractName_try_from (bytes_string s1));
    Ok (mkContractId sender name)
  end.

Definition PrincipalData_parse (literal : list Z) : Res VmError PrincipalData :=
  let literal := match literal with 39 :: rest => rest | _ => literal end in
  if existsb (Z.eqb 46) literal then
    c ← QualifiedContractIdentifier_parse literal; Ok (Contract c)
  else p ← parse_standard_principal literal; Ok (Standard p).

Definition QualifiedContractIdentifier_to_string (c : QualifiedContractIdentifier) : Res Empty_set (list Z) :=
  a ← to_address (issuer c);
  Ok (a ++ string_bytes "." ++ string_bytes (name c)).

Definition PrincipalData_display (p : PrincipalData) : Res Empty_set (list Z) :=
  match p with
  | Standard sender => to_address sender
  | Contract c => QualifiedContractIdentifier_to_string c
  end.

Definition TraitIdentifier_display (t : TraitIdentifier) : Res Empty_set (list Z) :=
  c ← QualifiedContractIdentifier_to_string (trait_contract t);
  Ok (c ++ string_bytes "." ++ string_bytes (trait_name t)).
End addresses.
