(* ===== verification/C32Facts.v ===== *)
(** Round trips of the base 32 codec and of the text of principals. *)
From stdpp Require Import base strings numbers list.
From Stdlib Require Import ZArith Lia.
From S2P Require Import Prelude Names Types C32.
#[local] Open Scope Z_scope.

(** * Positional notation *)

(** The number with the given digits, least significant first. *)
Definition le_val (base : Z) (l : list Z) : Z := foldr (fun d acc => d + base * acc) 0 l.

Arguments le_val : simpl never.

Lemma le_val_cons base d l : le_val base (d :: l) = d + base * le_val base l.
Proof. done. Qed.

(** No zero in the most significant place. *)
Definition canonical (l : list Z) : Prop := last l <> Some 0.

Lemma le_val_app base l k :
  le_val base (l ++ k) = le_val base l + base ^ Z.of_nat (length l) * le_val base k.
Proof.
  induction l as [|d l IH]; cbn [app length]; [by rewrite Z.mul_1_l|].
  rewrite !le_val_cons, IH, Nat2Z.inj_succ, Z.pow_succ_r by lia. lia.
Qed.

Lemma le_val_zeros base n : le_val base (replicate n 0) = 0.
Proof. induction n as [|n IH]; cbn [replicate]; [done|]. rewrite le_val_cons. lia. Qed.

Lemma le_val_nonneg base l : 0 < base -> Forall (fun d => 0 <= d < base) l -> 0 <= le_val base l.
Proof.
  intros Hb. induction 1 as [|d l Hd _ IH]; [done|]. rewrite le_val_cons. nia.
Qed.

Lemma canonical_tail d l : canonical (d :: l) -> canonical l.
Proof. unfold canonical. by destruct l. Qed.

Lemma canonical_zero base l :
  0 < base -> Forall (fun d => 0 <= d < base) l -> canonical l -> le_val base l = 0 -> l = [].
Proof.
  intros Hb. induction 1 as [|d l Hd Hl IH]; [done|]. intros Hc Hv.
  rewrite le_val_cons in Hv. pose proof (le_val_nonneg base l Hb Hl).
  assert (le_val base l = 0) by nia. assert (l = []) as -> by eauto using canonical_tail.
  exfalso. apply Hc. cbn in *. f_equal. lia.
Qed.

Lemma le_val_inj base l k :
  0 < base -> Forall (fun d => 0 <= d < base) l -> Forall (fun d => 0 <= d < base) k ->
  canonical l -> canonical k -> le_val base l = le_val base k -> l = k.
Proof.
  intros Hb Hl. revert k. induction Hl as [|d l Hd Hl IH]; intros k Hk Hcl Hck Hv.
  - symmetry. apply (canonical_zero base); auto.
  - destruct Hk as [|e k He Hk]; [by apply (canonical_zero base) in Hv; auto|].
    rewrite !le_val_cons in Hv.
    assert (d = e /\ le_val base l = le_val base k) as [-> Hv'].
    { rewrite (Z.add_comm d), (Z.add_comm e) in Hv. apply Z.div_mod_unique in Hv as []; [done|lia..]. }
    f_equal. eauto using canonical_tail.
Qed.

(** * Loops of the codec *)

Lemma pop_zeros_spec zero l :
  exists n, l = replicate n zero ++ pop_zeros zero l /\ head (pop_zeros zero l) <> Some zero.
Proof.
  induction l as [|c l (n & Heq & Hh)]; [by exists 0%nat|]. cbn [pop_zeros].
  destruct (Z.eqb_spec c zero) as [->|Hne].
  - exists (S n). cbn. by rewrite <-Heq.
  - exists 0%nat. split; [done|]. cbn. congruence.
Qed.

Lemma trim_end_spec l :
  exists n, l = trim_end 0 l ++ replicate n 0 /\ canonical (trim_end 0 l).
Proof.
  unfold trim_end, canonical. destruct (pop_zeros_spec 0 (reverse l)) as (n & Heq & Hh). exists n. split.
  - rewrite <-(reverse_involutive l) at 1. rewrite Heq at 1. by rewrite reverse_app, reverse_replicate.
  - by rewrite last_reverse.
Qed.

Lemma trim_end_val base l : le_val base (trim_end 0 l) = le_val base l.
Proof.
  destruct (trim_end_spec l) as (n & Heq & _). rewrite Heq at 2. rewrite le_val_app, le_val_zeros. lia.
Qed.

Lemma trim_end_Forall (P : Z -> Prop) l : Forall P l -> Forall P (trim_end 0 l).
Proof. destruct (trim_end_spec l) as (n & Heq & _). rewrite Heq at 1. by intros [? _]%Forall_app. Qed.

Lemma push_leading_spec zero zero' input result :
  exists n rest, input = replicate n zero ++ rest /\ head rest <> Some zero /\
    push_leading zero zero' input result = result ++ replicate n zero'.
Proof.
  revert result. induction input as [|c input IH]; intros result.
  - exists 0%nat, []. split_and!; [done..|]. cbn. by rewrite app_nil_r.
  - cbn [push_leading]. destruct (Z.eqb_spec c zero) as [->|Hne].
    + destruct (IH (result ++ [zero'])) as (n & rest & -> & Hh & ->). exists (S n), rest.
      split_and!; [done..|]. by rewrite <-app_assoc.
    + exists 0%nat, (c :: input). cbn. rewrite app_nil_r. split_and!; [done| |done]. congruence.
Qed.

(** The character of a digit. *)
Definition ch (d : Z) : Z := default 0 (C32_CHARACTERS !! Z.to_nat d).
Definition digit (d : Z) : Prop := 0 <= d < 32.

Lemma digit_cases (P : Z -> bool) : forallb P (seqZ 0 32) = true -> forall d, digit d -> P d = true.
Proof.
  intros HP d Hd. rewrite forallb_forall in HP. apply HP, list_elem_of_In, elem_of_seqZ. unfold digit in Hd. lia.
Qed.

Lemma c32_char_ch d : digit d -> c32_char d = Ok (ch d).
Proof.
  intros Hd. unfold c32_char, ch.
  pose proof (digit_cases (fun d => bool_decide (is_Some (C32_CHARACTERS !! Z.to_nat d))) ltac:(vm_compute; done) d Hd) as H.
  apply bool_decide_eq_true in H as [c ->]. done.
Qed.

Lemma find_ch d : digit d -> find_char C32_CHARACTERS (ch d) = Some d.
Proof.
  intros Hd.
  pose proof (digit_cases (fun d => bool_decide (find_char C32_CHARACTERS (ch d) = Some d)) ltac:(vm_compute; done) d Hd).
  by apply bool_decide_eq_true in H.
Qed.

Lemma ch_inj d e : digit d -> digit e -> ch d = ch e -> d = e.
Proof. intros Hd He Heq. apply find_ch in Hd, He. rewrite Heq, He in Hd. by simplify_eq. Qed.

Lemma ch_plain d :
  digit d -> 0 <= ch d < 0x80 /\ ascii_upper (ch d) = ch d /\ ch d <> 79 /\ ch d <> 76 /\ ch d <> 73 /\ ch d <> 46.
Proof.
  intros Hd. pose proof (digit_cases (fun d => bool_decide (0 <= ch d < 0x80 /\ ascii_upper (ch d) = ch d /\
    ch d <> 79 /\ ch d <> 76 /\ ch d <> 73 /\ ch d <> 46)) ltac:(vm_compute; done) d Hd) as H.
  by apply bool_decide_eq_true in H.
Qed.

(** * Encoding *)

Lemma land_low x k : 0 <= k -> Z.land x (Z.shiftl 1 k - 1) = x mod 2 ^ k.
Proof.
  intros Hk. rewrite Z.shiftl_1_l, <-Z.land_ones by done. f_equal. rewrite Z.ones_equiv. lia.
Qed.

(** Powers with closed exponents. *)
Ltac eval_pow :=
  repeat match goal with
  | |- context [?b ^ ?k] => let v := eval vm_compute in (b ^ k) in
      lazymatch v with Zpos _ => change (b ^ k) with v end
  | H : context [?b ^ ?k] |- _ => let v := eval vm_compute in (b ^ k) in
      lazymatch v with Zpos _ => change (b ^ k) with v in H end
  end.

(** One byte of the loop: one or two digits, and the bits left over. *)
Definition enc_byte (carry bits b : Z) : list Z * Z * Z :=
  let d := b mod 2 ^ (5 - bits) * 2 ^ bits + carry in
  let hi := b / 2 ^ (5 - bits) in
  if 2 <=? bits then ([d; hi mod 32], hi / 32, bits - 2) else ([d], hi, bits + 3).

Lemma enc_byte_spec carry bits b :
  0 <= bits < 5 -> 0 <= carry < 2 ^ bits -> u8 b ->
  let '(ds, carry', bits') := enc_byte carry bits b in
  Forall digit ds /\ 0 <= bits' < 5 /\ 0 <= carry' < 2 ^ bits' /\
  forall n, le_val 32 ds + 32 ^ Z.of_nat (length ds) * (carry' + 2 ^ bits' * n) = carry + 2 ^ bits * (b + 256 * n).
Proof.
  intros Hbits Hcarry Hb. unfold u8, in_u in Hb. change (2 ^ 8) with 256 in Hb.
  assert (bits = 0 \/ bits = 1 \/ bits = 2 \/ bits = 3 \/ bits = 4) as Hcases by lia.
  destruct Hcases as [->|[->|[->|[->| ->]]]]; unfold enc_byte; cbn [Z.leb Z.compare Pos.compare Pos.compare_cont];
    rewrite ?le_val_cons; unfold digit, le_val; cbn [foldr length]; eval_pow;
    repeat (apply Forall_nil_2 || apply Forall_cons_2 || apply conj);
    try (intros n; lazymatch goal with |- _ = _ => idtac end); Z.div_mod_to_equations; lia.
Qed.

Lemma encode_loop_step result carry bits b input :
  0 <= bits < 5 -> 0 <= carry < 2 ^ bits -> u8 b ->
  c32_encode_loop result carry bits (b :: input) =
  let '(ds, carry', bits') := enc_byte carry bits b in c32_encode_loop (result ++ map ch ds) carry' bits' input.
Proof.
  intros Hbits Hcarry Hb. pose proof (enc_byte_spec carry bits b Hbits Hcarry Hb) as Hspec.
  cbn [c32_encode_loop]. rewrite (land_low b), (land_low _ 5), !Z.shiftr_div_pow2, Z.shiftl_mul_pow2 by lia.
  replace (8 - (8 + bits - 5)) with (5 - bits) by lia.
  assert (0 <= b mod 2 ^ (5 - bits) * 2 ^ bits + carry < 32) as Hd.
  { unfold enc_byte in Hspec. destruct (2 <=? bits); destruct Hspec as [Hds _]; by inversion Hds. }
  assert (0 <= b mod 2 ^ (5 - bits) * 2 ^ bits) by (apply Z.mul_nonneg_nonneg; [apply Z.mod_pos_bound|]; apply Z.pow_pos_nonneg || apply Z.pow_nonneg; lia).
  unfold wrap. rewrite (Z.mod_small (b mod 2 ^ (5 - bits) * 2 ^ bits)) by lia.
  rewrite (Z.mod_small (b mod 2 ^ (5 - bits) * 2 ^ bits + carry)) by lia.
  rewrite (c32_char_ch (b mod 2 ^ (5 - bits) * 2 ^ bits + carry)) by done. cbn [mbind res_bind].
  unfold enc_byte in *. destruct (Z.leb_spec 2 bits) as [H2|H2].
  - rewrite (proj2 (Z.leb_le 5 (8 + bits - 5))) by lia.
    change (2 ^ 5) with 32. destruct Hspec as [Hds _]. inversion Hds as [|? ? _ Hds']; subst.
    inversion Hds'; subst. rewrite c32_char_ch by done. cbn [mbind res_bind map].
    rewrite <-app_assoc. cbn [app]. f_equal. lia.
  - rewrite (proj2 (Z.leb_gt 5 (8 + bits - 5))) by lia. cbn [map]. f_equal. lia.
Qed.

Lemma encode_loop_spec input : Forall u8 input -> forall result carry bits,
  0 <= bits < 5 -> 0 <= carry < 2 ^ bits ->
  exists ds carry' bits',
    c32_encode_loop result carry bits input = Ok (result ++ map ch ds, carry', bits') /\
    Forall digit ds /\ 0 <= bits' < 5 /\ 0 <= carry' < 2 ^ bits' /\
    le_val 32 ds + 32 ^ Z.of_nat (length ds) * carry' = carry + 2 ^ bits * le_val 256 input.
Proof.
  induction 1 as [|b input Hb _ IH]; intros result carry bits Hbits Hcarry.
  - exists [], carry, bits. cbn. rewrite app_nil_r. split_and!; [done|apply Forall_nil_2|lia..|].
    change (le_val 32 []) with 0. change (le_val 256 []) with 0. lia.
  - rewrite encode_loop_step by done.
    pose proof (enc_byte_spec carry bits b Hbits Hcarry Hb) as Hspec.
    destruct (enc_byte carry bits b) as [[ds1 carry1] bits1]. destruct Hspec as (Hds1 & Hbits1 & Hcarry1 & Hval).
    destruct (IH (result ++ map ch ds1) carry1 bits1 Hbits1 Hcarry1) as (ds & carry' & bits' & Hloop & Hds & Hb' & Hc' & Hv).
    exists (ds1 ++ ds), carry', bits'. rewrite Hloop, map_app, app_assoc.
    split_and!; [done|by apply Forall_app|lia..|].
    rewrite le_val_app, le_val_cons, length_app, Nat2Z.inj_add, Z.pow_add_r by lia.
    rewrite <-(Hval (le_val 256 input)), <-Hv. lia.
Qed.

(** The digit lists [x] and [y] (most significant first) have as many leading
    zeros and the same value. *)
Definition same_number (base1 base2 : Z) (x y : list Z) : Prop :=
  exists n x' y', x = replicate n 0 ++ reverse x' /\ y = replicate n 0 ++ reverse y' /\
    canonical x' /\ canonical y' /\ le_val base1 x' = le_val base2 y'.

Lemma replicate_head_inj (n m : nat) (l k : list Z) :
  replicate n 0 ++ l = replicate m 0 ++ k -> head l <> Some 0 -> head k <> Some 0 -> n = m /\ l = k.
Proof.
  revert m; induction n as [|n IH]; intros [|m] Heq Hl Hk; cbn in *; subst; try done.
  injection Heq as Heq. by destruct (IH m Heq Hl Hk) as [-> ->].
Qed.

Lemma canonical_head l : canonical l -> head (reverse l) <> Some 0.
Proof. unfold canonical. by rewrite head_reverse. Qed.

Lemma Forall_parts (P : Z -> Prop) n l : Forall P (replicate n 0 ++ reverse l) -> Forall P l.
Proof. intros [_ H]%Forall_app. by apply Forall_reverse. Qed.

Lemma same_number_inj b1 b2 x y y' :
  0 < b2 -> same_number b1 b2 x y -> same_number b1 b2 x y' ->
  Forall (fun d => 0 <= d < b2) y -> Forall (fun d => 0 <= d < b2) y' -> y = y'.
Proof.
  intros Hb (n & x1 & y1 & -> & -> & Hcx & Hcy & Hv) (n' & x1' & y1' & Hx & -> & Hcx' & Hcy' & Hv') Hy Hy'.
  apply replicate_head_inj in Hx as [-> Hx]; [|by apply canonical_head..].
  apply (f_equal reverse) in Hx. rewrite !reverse_involutive in Hx. subst.
  f_equal. f_equal. apply (le_val_inj b2); eauto using Forall_parts. lia.
Qed.

Lemma same_number_sym b1 b2 x y : same_number b1 b2 x y -> same_number b2 b1 y x.
Proof. intros (n & x' & y' & ? & ? & ? & ? & ?). by exists n, y', x'. Qed.

Lemma map_reverse {A B} (f : A -> B) l : map f (reverse l) = reverse (map f l).
Proof. apply (fmap_reverse f). Qed.

Lemma trim_end_map ds : Forall digit ds -> trim_end (ch 0) (map ch ds) = map ch (trim_end 0 ds).
Proof.
  intros Hds. unfold trim_end.
  assert (forall l, Forall digit l -> pop_zeros (ch 0) (map ch l) = map ch (pop_zeros 0 l)) as Hpop.
  { induction 1 as [|d l Hd _ IH]; cbn [map pop_zeros]; [done|].
    destruct (Z.eqb_spec d 0) as [->|Hne]; [by rewrite Z.eqb_refl|].
    rewrite (proj2 (Z.eqb_neq (ch d) (ch 0))); [done|]. intros Heq. apply Hne, ch_inj; done. }
  rewrite <-(map_reverse ch), Hpop by (by apply Forall_reverse). by rewrite <-(map_reverse ch).
Qed.

(** [c32_encode] writes the number of its input in base 32. *)
Lemma c32_encode_spec x :
  Forall u8 x -> exists y, c32_encode x = Ok (map ch y) /\ Forall digit y /\ same_number 256 32 x y.
Proof.
  intros Hx. unfold c32_encode.
  destruct (encode_loop_spec (reverse x) ltac:(by apply Forall_reverse) [] 0 0) as
    (ds & carry & bits & -> & Hds & Hbits & Hcarry & Hval); [lia..|].
  cbn [mbind res_bind app]. rewrite Z.add_0_l, Z.mul_1_l in Hval.
  assert (exists ds', Forall digit ds' /\ le_val 32 ds' = le_val 256 (reverse x) /\
    (if 0 <? bits then c ← c32_char carry; Ok (map ch ds ++ [c]) else Ok (map ch ds)) = Ok (E := Empty_set) (map ch ds'))
    as (ds' & Hds' & Hval' & ->).
  { destruct (Z.ltb_spec 0 bits) as [Hpos|Hpos].
    - exists (ds ++ [carry]). assert (digit carry).
      { pose proof (Z.pow_lt_mono_r 2 bits 5). unfold digit. lia. }
      rewrite c32_char_ch by done. cbn. rewrite map_app, le_val_app. split_and!; [by apply Forall_app; auto| |done].
      rewrite <-Hval. unfold le_val at 2; cbn. lia.
    - exists ds. split_and!; try done. replace bits with 0 in Hcarry by lia. change (2 ^ 0) with 1 in Hcarry.
      replace carry with 0 in Hval by lia. lia. }
  cbn [mbind res_bind]. rewrite (c32_char_ch 0) by (unfold digit; lia). cbn [mbind res_bind].
  rewrite trim_end_map by done.
  destruct (push_leading_spec 0 (ch 0) x (map ch (trim_end 0 ds'))) as (n & rest & Hxn & Hhead & ->).
  exists (replicate n 0 ++ reverse (trim_end 0 ds')). split_and!.
  - rewrite reverse_app, reverse_replicate, map_app, map_reverse.
    by rewrite (fmap_replicate ch : forall n x, map ch (replicate n x) = _).
  - apply Forall_app. split; [apply Forall_replicate; unfold digit; lia|].
    by apply Forall_reverse, trim_end_Forall.
  - exists n, (reverse rest), (trim_end 0 ds'). rewrite reverse_involutive. split_and!; try done.
    + unfold canonical. by rewrite last_reverse.
    + by destruct (trim_end_spec ds') as (? & _ & ?).
    + rewrite trim_end_val, Hval', Hxn, reverse_app, reverse_replicate, le_val_app, le_val_zeros. lia.
Qed.

(** * Decoding *)

Definition dec_digit (carry bits d : Z) : list Z * Z * Z :=
  let c := carry + d * 2 ^ bits in
  if 3 <=? bits then ([c mod 256], c / 256, bits - 3) else ([], c, bits + 5).

Lemma dec_digit_spec carry bits d :
  0 <= bits < 8 -> 0 <= carry < 2 ^ bits -> digit d ->
  let '(bs, carry', bits') := dec_digit carry bits d in
  Forall u8 bs /\ 0 <= bits' < 8 /\ 0 <= carry' < 2 ^ bits' /\ 0 <= d * 2 ^ bits < 4096 /\
  0 <= carry + d * 2 ^ bits < 4096 /\
  forall n, le_val 256 bs + 256 ^ Z.of_nat (length bs) * (carry' + 2 ^ bits' * n) = carry + 2 ^ bits * (d + 32 * n).
Proof.
  intros Hbits Hcarry Hd. unfold digit in Hd.
  assert (bits = 0 \/ bits = 1 \/ bits = 2 \/ bits = 3 \/ bits = 4 \/ bits = 5 \/ bits = 6 \/ bits = 7) as Hcases by lia.
  destruct Hcases as [->|[->|[->|[->|[->|[->|[->| ->]]]]]]];
    unfold dec_digit; cbn [Z.leb Z.compare Pos.compare Pos.compare_cont];
    rewrite ?le_val_cons; unfold u8, in_u, le_val; cbn [foldr length]; eval_pow;
    repeat (apply Forall_nil_2 || apply Forall_cons_2 || apply conj);
    try (intros n; lazymatch goal with |- _ = _ => idtac end); Z.div_mod_to_equations; lia.
Qed.

Lemma decode_loop_step result carry bits d digits :
  0 <= bits < 8 -> 0 <= carry < 2 ^ bits -> digit d ->
  c32_decode_loop result carry bits (d :: digits) =
  let '(bs, carry', bits') := dec_digit carry bits d in c32_decode_loop (result ++ bs) carry' bits' digits.
Proof.
  intros Hbits Hcarry Hd. pose proof (dec_digit_spec carry bits d Hbits Hcarry Hd) as Hspec.
  assert (0 <= d * 2 ^ bits < 4096 /\ 0 <= carry + d * 2 ^ bits < 4096) as [H1 H2].
  { unfold dec_digit in Hspec. destruct (3 <=? bits); destruct Hspec as (_ & _ & _ & ? & ? & _); done. }
  cbn [c32_decode_loop]. rewrite Z.shiftl_mul_pow2 by lia. unfold wrap.
  rewrite (Z.mod_small (d * 2 ^ bits)), (Z.mod_small (carry + d * 2 ^ bits)) by lia.
  unfold dec_digit. destruct (Z.leb_spec 3 bits).
  - rewrite (proj2 (Z.leb_le 8 (bits + 5))) by lia. rewrite land_low, Z.shiftr_div_pow2 by lia. f_equal. lia.
  - rewrite (proj2 (Z.leb_gt 8 (bits + 5))) by lia. by rewrite app_nil_r.
Qed.

Lemma decode_loop_spec digits : Forall digit digits -> forall result carry bits,
  0 <= bits < 8 -> 0 <= carry < 2 ^ bits ->
  exists bs carry' bits',
    c32_decode_loop result carry bits digits = (result ++ bs, carry', bits') /\
    Forall u8 bs /\ 0 <= bits' < 8 /\ 0 <= carry' < 2 ^ bits' /\
    le_val 256 bs + 256 ^ Z.of_nat (length bs) * carry' = carry + 2 ^ bits * le_val 32 digits.
Proof.
  induction 1 as [|d digits Hd _ IH]; intros result carry bits Hbits Hcarry.
  - exists [], carry, bits. cbn. rewrite app_nil_r. split_and!; [done|apply Forall_nil_2|lia..|].
    change (le_val 32 []) with 0. change (le_val 256 []) with 0. lia.
  - rewrite decode_loop_step by done.
    pose proof (dec_digit_spec carry bits d Hbits Hcarry Hd) as Hspec.
    destruct (dec_digit carry bits d) as [[bs1 carry1] bits1].
    destruct Hspec as (Hbs1 & Hbits1 & Hcarry1 & _ & _ & Hval).
    destruct (IH (result ++ bs1) carry1 bits1 Hbits1 Hcarry1) as (bs & carry' & bits' & Hloop & Hbs & Hb' & Hc' & Hv).
    exists (bs1 ++ bs), carry', bits'. rewrite Hloop, app_assoc.
    split_and!; [done|by apply Forall_app|lia..|].
    rewrite le_val_app, le_val_cons, length_app, Nat2Z.inj_add, Z.pow_add_r by lia.
    rewrite <-(Hval (le_val 32 digits)), <-Hv. lia.
Qed.

Section decode.
Context `{!ToUppercase}.

Lemma replace_map_ch from to y :
  Forall (fun d => ch d <> from) y -> replace from to (map ch y) = map ch y.
Proof.
  induction 1 as [|d y Hd _ IH]; cbn; [done|]. rewrite (proj2 (Z.eqb_neq _ _) Hd). f_equal. apply IH.
Qed.

Lemma c32_normalize_ch y : Forall digit y -> c32_normalize (map ch y) = map ch y.
Proof.
  intros Hy. unfold c32_normalize.
  assert (to_uppercase (map ch y) = map ch y) as ->.
  { rewrite to_uppercase_ascii.
    - rewrite map_map. apply map_ext_in. intros d Hd%list_elem_of_In.
      rewrite Forall_forall in Hy. apply ch_plain. by apply Hy.
    - apply Forall_map. eapply Forall_impl; [done|]. intros d Hd. cbn. apply ch_plain in Hd. lia. }
  rewrite !replace_map_ch; [done|..]; (eapply Forall_impl; [done|]); intros d Hd%ch_plain; cbn; tauto.
Qed.

(** [c32_decode] reads the number back. *)
Lemma c32_decode_spec y :
  Forall digit y -> exists x, c32_decode (map ch y) = Ok x /\ Forall u8 x /\ same_number 32 256 y x.
Proof.
  intros Hy. unfold c32_decode. rewrite c32_normalize_ch by done.
  assert (map (find_char C32_CHARACTERS) (reverse (map ch y)) = map Some (reverse y)) as ->.
  { rewrite <-map_reverse, map_map. apply map_ext_in. intros d Hd%list_elem_of_In.
    rewrite elem_of_reverse in Hd. rewrite Forall_forall in Hy. by apply find_ch, Hy. }
  assert (omap id (map Some (reverse y)) = reverse y) as ->.
  { induction (reverse y) as [|? ? IH]; cbn; [done|]. f_equal. apply IH. }
  rewrite length_map, Nat.eqb_refl. cbn [negb].
  destruct (decode_loop_spec (reverse y) ltac:(by apply Forall_reverse) [] 0 0) as
    (bs & carry & bits & -> & Hbs & Hbits & Hcarry & Hval); [lia..|].
  cbn [app]. rewrite Z.add_0_l, Z.mul_1_l in Hval.
  assert (exists bs', Forall u8 bs' /\ le_val 256 bs' = le_val 32 (reverse y) /\
    (if 0 <? bits then bs ++ [wrap 8 carry] else bs) = bs') as (bs' & Hbs' & Hval' & ->).
  { eexists; split_and!; [..|reflexivity]; destruct (Z.ltb_spec 0 bits) as [Hpos|Hpos].
    - apply Forall_app. split; [done|]. apply Forall_cons_2, Forall_nil_2. unfold wrap, u8, in_u.
      apply Z.mod_pos_bound. lia.
    - done.
    - unfold wrap. pose proof (Z.pow_lt_mono_r 2 bits 8). rewrite Z.mod_small by lia.
      rewrite le_val_app, le_val_cons, <-Hval. change (le_val 256 []) with 0. lia.
    - replace bits with 0 in Hcarry by lia. change (2 ^ 0) with 1 in Hcarry. replace carry with 0 in Hval by lia. lia. }
  destruct (push_leading_spec 48 0 (map ch y) (trim_end 0 bs')) as (n & rest & Hyn & Hhead & ->).
  exists (replicate n 0 ++ reverse (trim_end 0 bs')). split_and!.
  - by rewrite reverse_app, reverse_replicate.
  - apply Forall_app. split; [apply Forall_replicate; unfold u8, in_u; lia|].
    by apply Forall_reverse, trim_end_Forall.
  - apply map_eq_app in Hyn as (y0 & y1 & -> & Hy0 & <-). apply Forall_app in Hy as [Hd0 Hd1].
    assert (y0 = replicate n 0) as ->.
    { clear -Hy0 Hd0. revert n Hy0. induction Hd0 as [|d y0 Hd _ IH]; intros [|n] H; try done.
      cbn in H. injection H as H1 H2. cbn. f_equal; [by apply ch_inj|by apply IH]. }
    exists n, (reverse y1), (trim_end 0 bs'). rewrite reverse_involutive. split_and!; try done.
    + unfold canonical. rewrite last_reverse. destruct y1 as [|d y1]; [done|]. cbn in *. intros [= ->]. done.
    + by destruct (trim_end_spec bs') as (? & _ & ?).
    + rewrite trim_end_val, Hval', reverse_app, reverse_replicate, le_val_app, le_val_zeros. lia.
Qed.
End decode.

(** * Round trips *)

Lemma alphabet_digits s : Forall (fun c => c ∈ C32_CHARACTERS) s -> exists y, Forall digit y /\ s = map ch y.
Proof.
  induction 1 as [|c s Hc _ (y & Hy & ->)]; [by exists []|].
  apply list_elem_of_lookup in Hc as (i & Hi). exists (Z.of_nat i :: y). split.
  - apply Forall_cons_2; [|done]. apply lookup_lt_Some in Hi. unfold digit. cbn in Hi. lia.
  - cbn. f_equal. unfold ch. by rewrite Nat2Z.id, Hi.
Qed.

Lemma ch_alphabet y : Forall digit y -> Forall (fun c => c ∈ C32_CHARACTERS) (map ch y).
Proof.
  intros Hy. apply Forall_map. eapply Forall_impl; [done|]. intros d Hd. cbn.
  pose proof (digit_cases (fun d => bool_decide (ch d ∈ C32_CHARACTERS)) ltac:(vm_compute; done) d Hd) as H.
  by apply bool_decide_eq_true in H.
Qed.

Lemma le_val_upper base l :
  0 < base -> Forall (fun d => 0 <= d < base) l -> le_val base l < base ^ Z.of_nat (length l).
Proof.
  intros Hb. induction 1 as [|d l Hd _ IH]; [done|]. rewrite le_val_cons. cbn [length].
  rewrite Nat2Z.inj_succ, Z.pow_succ_r by lia. nia.
Qed.

Lemma le_val_lower base l :
  0 < base -> Forall (fun d => 0 <= d < base) l -> canonical l -> l <> [] ->
  base ^ (Z.of_nat (length l) - 1) <= le_val base l.
Proof.
  intros Hb Hl Hc Hne. destruct l as [|d l _] using rev_ind; [done|].
  apply Forall_app in Hl as [Hl Hd]. inversion Hd; subst. rewrite le_val_app, le_val_cons, length_app.
  change (le_val base []) with 0. cbn [length]. replace (Z.of_nat (length l + 1) - 1) with (Z.of_nat (length l)) by lia.
  assert (d <> 0). { intros ->. apply Hc. by rewrite last_snoc. }
  pose proof (le_val_nonneg base l Hb Hl). pose proof (Z.pow_nonneg base (Z.of_nat (length l)) ltac:(lia)). nia.
Qed.

Lemma same_number_length y x :
  Forall digit y -> Forall u8 x -> same_number 32 256 y x -> (length x <= length y)%nat.
Proof.
  intros Hy Hx (n & y' & x' & -> & -> & Hcy & Hcx & Hv). apply Forall_parts in Hy, Hx.
  rewrite !length_app, !length_reverse. cut (length x' <= length y')%nat; [lia|].
  destruct (decide (x' = [])) as [->|Hne]; [cbn; lia|].
  pose proof (le_val_lower 256 x' ltac:(lia) Hx Hcx Hne). pose proof (le_val_upper 32 y' ltac:(lia) Hy).
  destruct (decide (length x' <= length y')%nat) as [|Hlt]; [done|]. exfalso.
  pose proof (Z.pow_le_mono_l 32 256 (Z.of_nat (length y')) ltac:(lia)).
  pose proof (Z.pow_le_mono_r 256 (Z.of_nat (length y')) (Z.of_nat (length x') - 1) ltac:(lia) ltac:(lia)). lia.
Qed.

Section round_trips.
Context `{!Sha256} `{!ToUppercase}.

Lemma c32_decode_encode x :
  Forall u8 x -> exists y, Forall digit y /\ c32_encode x = Ok (map ch y) /\ c32_decode (map ch y) = Ok x.
Proof.
  intros Hx. destruct (c32_encode_spec x Hx) as (y & He & Hy & Hn).
  destruct (c32_decode_spec y Hy) as (x' & Hd & Hx' & Hn').
  exists y. split_and!; [done..|]. rewrite Hd. f_equal. apply (same_number_inj 32 256 y); try done.
  by apply same_number_sym.
Qed.

(** The base 32 codec is a bijection between byte strings and strings over
    its alphabet: encoding never panics and decoding gives the bytes back,
    leading zeros included; and every string over the alphabet decodes to bytes
    that encode to that very string, so that there is one text per byte
    string. *)
Theorem c32_bijective :
  (forall x, Forall u8 x -> exists s,
     c32_encode x = Ok s /\ Forall (fun c => c ∈ C32_CHARACTERS) s /\ c32_decode s = Ok x) /\
  (forall s, Forall (fun c => c ∈ C32_CHARACTERS) s -> exists x,
     c32_decode s = Ok x /\ Forall u8 x /\ c32_encode x = Ok s).
Proof.
  split.
  - intros x (y & Hy & He & Hd)%c32_decode_encode. exists (map ch y). auto using ch_alphabet.
  - intros s (y & Hy & ->)%alphabet_digits. destruct (c32_decode_spec y Hy) as (x & Hd & Hx & Hn).
    exists x. split_and!; [done..|]. destruct (c32_encode_spec x Hx) as (y' & He & Hy' & Hn').
    rewrite He. do 2 f_equal. apply (same_number_inj 256 32 x); try done. by apply same_number_sym.
Qed.

Lemma c32_encode_length x :
  Forall u8 x ->
  exists y, Forall digit y /\ c32_encode x = Ok (map ch y) /\ c32_decode (map ch y) = Ok x /\ (length x <= length y)%nat.
Proof.
  intros Hx. destruct (c32_decode_encode x Hx) as (y & Hy & He & Hd). exists y. split_and!; [done..|].
  destruct (c32_decode_spec y Hy) as (x0 & Hd0 & _ & Hn). rewrite Hd in Hd0. injection Hd0 as <-.
  by apply (same_number_length y x).
Qed.

Lemma checksum_spec data : length (double_sha256_checksum data) = 4%nat /\ Forall u8 (double_sha256_checksum data).
Proof.
  unfold double_sha256_checksum. split; [rewrite length_take, sha256_length; lia|].
  apply Forall_take, sha256_u8.
Qed.

Definition valid_principal (p : StandardPrincipalData) : Prop :=
  digit (sp_version p) /\ Forall u8 (sp_bytes p) /\ length (sp_bytes p) = 20%nat.

Lemma plain_split (c : Z) y : Forall digit y -> str_split_at_1 (E := AddressError) (c :: map ch y) = Ok ([c], map ch y).
Proof.
  intros Hy. destruct Hy as [|d y Hd Hy]; [done|]. cbn. unfold is_char_boundary, byte_in.
  apply ch_plain in Hd. destruct (Z.leb_spec 0x80 (ch d)); [lia|]. done.
Qed.

Lemma c32_decode_one v : digit v -> c32_decode [ch v] = Ok [v].
Proof.
  intros Hv. destruct (c32_decode_spec [v]) as (x & Hd & Hx & Hn); [by apply Forall_cons_2, Forall_nil_2|]. cbn [map] in Hd.
  rewrite Hd. f_equal. apply (same_number_inj 32 256 [v]); try done.
  - unfold digit in Hv. destruct (decide (v = 0)) as [->|].
    + exists 1%nat, [], []. by split_and!.
    + exists 0%nat, [v], [v]. split_and!; try done; unfold canonical; cbn; congruence.
  - unfold digit in Hv. apply Forall_cons_2; [lia|apply Forall_nil_2].
Qed.

Lemma check_round_trip version data :
  digit version -> Forall u8 data -> data <> [] ->
  exists y, Forall digit y /\ (length data + 5 <= length y)%nat /\
    c32_check_encode version data = Ok (map ch y) /\ c32_check_decode (map ch y) = Ok (version, data).
Proof.
  intros Hv Hdata Hne. destruct (checksum_spec (version :: data)) as [Hlen Hsum].
  destruct (c32_encode_length (data ++ double_sha256_checksum (version :: data))) as (y & Hy & He & Hd & Hly);
    [by apply Forall_app|]. rewrite length_app, Hlen in Hly.
  exists (version :: y). split_and!; [by apply Forall_cons_2|cbn; lia|..].
  - unfold c32_check_encode. unfold digit in Hv. rewrite (proj2 (Z.leb_gt 32 version)) by lia.
    rewrite He. cbn. by rewrite c32_char_ch.
  - unfold c32_check_decode. rewrite length_map. cbn [length].
    rewrite (proj2 (Nat.ltb_ge _ _)) by lia. rewrite c32_normalize_ch by (by apply Forall_cons_2).
    cbn [map]. rewrite plain_split by done. cbn [mbind res_bind]. rewrite Hd. cbn [mbind res_bind].
    assert (length data <> 0%nat) by (by destruct data).
    rewrite length_app, Hlen. rewrite (proj2 (Nat.ltb_ge _ _)) by lia.
    replace (length data + 4 - 4)%nat with (length data) by lia.
    rewrite take_app_length, drop_app_length, c32_decode_one by done. cbn [mbind res_bind app].
    by rewrite decide_False by (by intros []).
Qed.

Lemma standard_round_trip p :
  valid_principal p ->
  exists y, Forall digit y /\ to_address p = Ok (83 :: map ch y) /\
    parse_standard_principal (83 :: map ch y) = Ok p.
Proof.
  destruct p as [version data]. intros (Hv & Hdata & Hlen); cbn in *.
  destruct (check_round_trip version data) as (y & Hy & Hly & He & Hd); [done..|by destruct data|].
  exists y. split_and!; [done|..].
  - unfold to_address, c32_address. cbn [sp_version sp_bytes]. by rewrite He.
  - unfold parse_standard_principal, c32_address_decode. cbn [length]. rewrite length_map.
    rewrite (proj2 (Nat.leb_gt _ _)) by lia. rewrite plain_split by done. cbn [mbind res_bind].
    rewrite Hd. cbn. by rewrite Hlen.
Qed.

Lemma no_dot y : Forall digit y -> Forall (fun c => c <> 46) (83 :: map ch y).
Proof.
  intros Hy. apply Forall_cons_2; [done|]. apply Forall_map. eapply Forall_impl; [done|].
  intros d Hd%ch_plain. cbn. tauto.
Qed.

Lemma split_dot_app a b : Forall (fun c => c <> 46) a -> split_dot (a ++ 46 :: b) = (a, Some b).
Proof.
  induction 1 as [|c a Hc _ IH]; cbn; [done|]. rewrite (proj2 (Z.eqb_neq _ _) Hc). by rewrite IH.
Qed.

Lemma existsb_no_dot a : Forall (fun c => c <> 46) a -> existsb (Z.eqb 46) a = false.
Proof. induction 1 as [|c a Hc _ IH]; [done|]. cbn [existsb]. by rewrite (proj2 (Z.eqb_neq _ _)), IH. Qed.

(** A principal with a version that addresses can express. *)
Definition addressable (p : PrincipalData) : Prop :=
  match p with
  | Standard p => valid_principal p
  | Contract c => valid_principal (issuer c) /\ contract_name_ok (name c) = true
  end.

Lemma display_parse (p : PrincipalData) :
  addressable p -> exists s, PrincipalData_display p = Ok s /\ PrincipalData_parse s = Ok p.
Proof.
  destruct p as [p|[p n]]; intros Hp; cbn in Hp.
  - destruct (standard_round_trip p Hp) as (y & Hy & Ha & Hparse). exists (83 :: map ch y). split; [done|].
    unfold PrincipalData_parse. rewrite existsb_no_dot by (by apply no_dot). by rewrite Hparse.
  - destruct Hp as [Hp Hn]. destruct (standard_round_trip p Hp) as (y & Hy & Ha & Hparse).
    exists ((83 :: map ch y) ++ 46 :: string_bytes n). split.
    { cbn. unfold QualifiedContractIdentifier_to_string. cbn [issuer name]. by rewrite Ha. }
    unfold PrincipalData_parse. change (match (83 :: map ch y) ++ 46 :: string_bytes n with 39 :: rest => rest | _ => _ end)
      with ((83 :: map ch y) ++ 46 :: string_bytes n).
    rewrite existsb_app. cbn [existsb]. rewrite Z.eqb_refl, orb_true_r. unfold QualifiedContractIdentifier_parse.
    rewrite split_dot_app by (by apply no_dot). rewrite Hparse. cbn [mbind res_bind].
    unfold ContractName_try_from. rewrite guarded_try_from_Ok; [cbn; by rewrite bytes_string_bytes|].
    by rewrite bytes_string_bytes.
Qed.

(** Text of principals: for every principal whose version byte is below 32
    (and whose contract name is one that [ContractName] holds), printing does
    not panic and parsing the text gives the principal back, for standard and
    contract principals alike. *)
Theorem principal_text_round_trip (p : PrincipalData) :
  addressable p -> exists s, PrincipalData_display p = Ok s /\ PrincipalData_parse s = Ok p.
Proof. apply display_parse. Qed.

(** Principals with a version byte of 32 or more print as one and the same
    text, whatever their hash: distinct principals, which serialized values can
    hold, share the text that database keys are made of. *)
Theorem unaddressable_principals_collide (v w : Z) (data data' : list Z) (n : string) :
  32 <= v -> 32 <= w ->
  PrincipalData_display (Standard (mkStandard v data)) = PrincipalData_display (Standard (mkStandard w data')) /\
  QualifiedContractIdentifier_to_string (mkContractId (mkStandard v data) n) =
  QualifiedContractIdentifier_to_string (mkContractId (mkStandard w data') n).
Proof.
  intros Hv Hw.
  assert (forall v data, 32 <= v -> to_address (mkStandard v data) = Ok (string_bytes "INVALID_C32_ADD")) as Hinv.
  { intros u d Hu. unfold to_address, c32_address, c32_check_encode. cbn [sp_version sp_bytes].
    by rewrite (proj2 (Z.leb_le 32 u)). }
  unfold QualifiedContractIdentifier_to_string. cbn [PrincipalData_display issuer name]. by rewrite !Hinv.
Qed.
End round_trips.

(** A hash and an upper-casing function that satisfy the interfaces. *)
Definition zero_sha256 : Sha256.
Proof.
  refine {| sha256 := fun _ => replicate 32 0 |}; [done|]. intros _. apply Forall_replicate. by unfold u8, in_u.
Defined.
Definition ascii_to_uppercase : ToUppercase := {| to_uppercase := map ascii_upper; to_uppercase_ascii _ _ := eq_refl |}.

Definition example_contract : QualifiedContractIdentifier := mkContractId (mkStandard 22 (replicate 20 7)) "hello-world".
