(* ===== verification/RollbackWrapper.v ===== *)
(** The edit log of the Clarity database: [RollbackWrapper] of
    src/vm/database/key_value_wrapper.rs over a [ClarityBackingStore] of
    src/vm/database/marf.rs.

    The wrapper keeps, per key, the history of pending values, and per nested
    context the keys it edited.  Its specification is a stack of edit logs;
    [wrapper_refines] relates the two, and every operation is a step of the
    specification. *)
From stdpp Require Import base list gmap strings.
From Stdlib Require Import ZArith Lia.
From S2P Require Import Prelude Names.
#[local] Open Scope Z_scope.

(** * The backing store *)

(** The part of the trait [ClarityBackingStore] the wrapper uses.  [M] is the
    type of errors of [get_metadata].  Failures of the underlying storage are
    panics. *)
Class ClarityBackingStore (S M : Type) := {
  bs_put_all : S -> list (string * string) -> Res Empty_set S;
  bs_get : S -> string -> option string;
  bs_put_all_metadata :
    S -> list ((QualifiedContractIdentifier * string) * string) -> Res Empty_set S;
  bs_get_metadata : S -> QualifiedContractIdentifier -> string -> Res M (option string);
  bs_set_block_hash : S -> list Z -> Res M (list Z * S);
  bs_get_block_at_height : S -> Z -> Res Empty_set (option (list Z));
  bs_get_current_block_height : S -> Res Empty_set Z;
  bs_make_contract_commitment : S -> list Z -> Res Empty_set string;
}.

(** The trait's default [has_entry]. *)
Definition bs_has_entry {S M} `{ClarityBackingStore S M} (s : S) (key : string) : bool :=
  match bs_get s key with Some _ => true | None => false end.

(** The values an edit log holds for a key, oldest first. *)
Definition values_of {K} `{EqDecision K} (k : K) (log : list (K * string)) : list string :=
  omap (fun e => if decide (e.1 = k) then Some e.2 else None) log.

(** What a store promises: a batch of writes takes effect in order, and leaves
    the other keys alone. *)
Class BackingStoreLaws (S M : Type) `{ClarityBackingStore S M} := {
  bs_get_put_all : forall s items, exists s',
    bs_put_all s items = Ok s' /\
    forall k, bs_get s' k =
      match last (values_of k items) with Some v => Some v | None => bs_get s k end;
  bs_get_put_all_metadata : forall s items s',
    bs_put_all_metadata s items = Ok s' -> forall k, bs_get s' k = bs_get s k;
  (** Going to an earlier block and back changes nothing. *)
  bs_set_block_hash_back : forall s bhh prior s' bhh' s'',
    bs_set_block_hash s bhh = Ok (prior, s') -> bs_set_block_hash s' prior = Ok (bhh', s'') -> s'' = s
}.

(** * The wrapper *)

(** [HashMap<T, Vec<String>>]. *)
Notation lookup_map_t K := (gmap K (list string)).

(** [rollback_lookup_map]: drop the newest pending value of [key]. *)
Definition rollback_lookup_map {K} `{Countable K} (key : K) (lookup_map : lookup_map_t K)
  : Res Empty_set (string * lookup_map_t K) :=
  match lookup_map !! key with
  | None => Panic
  | Some hist =>
    match last hist with
    | None => Panic
    | Some popped =>
      let hist' := removelast hist in
      Ok (popped, if decide (hist' = []) then delete key lookup_map
                  else <[key := hist']> lookup_map)
    end
  end.

(** The loop over [edits] in [rollback]. *)
Definition rollback_edits {K} `{Countable K} (edits : list K) (lookup_map : lookup_map_t K)
  : Res Empty_set (lookup_map_t K) :=
  foldM (fun lm k => r ← rollback_lookup_map k lm; mret r.2) lookup_map (reverse edits).

(** [rollback_check_pre_bottom_commit]. *)
Definition rollback_check_pre_bottom_commit {K} `{Countable K}
    (edits : list K) (lookup_map : lookup_map_t K)
  : Res Empty_set (list (K * string) * lookup_map_t K) :=
  let reversed : lookup_map_t K := reverse <$> lookup_map in
  '(output, lm) ← foldM (fun acc key =>
      '(value, lm) ← rollback_lookup_map key acc.2;
      mret (acc.1 ++ [(key, value)], lm)) ([], reversed) edits;
  if decide (size lm = 0%nat) then mret (output, lm) else Panic.

(** [inner_put]: returns the new lookup map and edit list. *)
Definition inner_put {K} `{Countable K}
    (lookup_map : lookup_map_t K) (edits : list K) (key : K) (value : string)
  : lookup_map_t K * list K :=
  let lookup_map := match lookup_map !! key with
                    | None => <[key := []]> lookup_map
                    | Some _ => lookup_map
                    end in
  (alter (fun deque => deque ++ [value]) key lookup_map, edits ++ [key]).

Arguments rollback_edits : simpl never.
Arguments rollback_check_pre_bottom_commit : simpl never.
Arguments inner_put : simpl never.

Record RollbackContext := mkContext {
  edits : list string;
  metadata_edits : list (QualifiedContractIdentifier * string) }.

(** The [Vec] [stack] is a list whose head is the top. *)
Record RollbackWrapper (S : Type) := mkWrapper {
  store : S;
  lookup_map : lookup_map_t string;
  metadata_lookup_map : lookup_map_t (QualifiedContractIdentifier * string);
  stack : list RollbackContext }.
Arguments mkWrapper {S}.
Arguments store {S}.
Arguments lookup_map {S}.
Arguments metadata_lookup_map {S}.
Arguments stack {S}.

(** The state kept across instantiations ([RollbackWrapperPersistedLog]). *)
Record RollbackWrapperPersistedLog := mkPersisted {
  pl_lookup_map : lookup_map_t string;
  pl_metadata_lookup_map : lookup_map_t (QualifiedContractIdentifier * string);
  pl_stack : list RollbackContext }.

Section wrapper.
  Context {S M : Type} `{!ClarityBackingStore S M}.

Definition wrapper_new (st : S) : RollbackWrapper S := mkWrapper st ∅ ∅ [].

Definition wrapper_to_persisted_log (w : RollbackWrapper S) : RollbackWrapperPersistedLog :=
  mkPersisted (lookup_map w) (metadata_lookup_map w) (stack w).

Definition wrapper_from_persisted_log (st : S) (log : RollbackWrapperPersistedLog)
  : RollbackWrapper S :=
  mkWrapper st (pl_lookup_map log) (pl_metadata_lookup_map log) (pl_stack log).

Definition wrapper_nest (w : RollbackWrapper S) : RollbackWrapper S :=
  mkWrapper (store w) (lookup_map w) (metadata_lookup_map w) (mkContext [] [] :: stack w).

Definition wrapper_rollback (w : RollbackWrapper S) : Res Empty_set (RollbackWrapper S) :=
  match stack w with
  | [] => Panic
  | last_item :: rest =>
    lm ← rollback_edits (edits last_item) (lookup_map w);
    mlm ← rollback_edits (metadata_edits last_item) (metadata_lookup_map w);
    mret (mkWrapper (store w) lm mlm rest)
  end.

Definition wrapper_depth (w : RollbackWrapper S) : nat := length (stack w).

Definition wrapper_commit (w : RollbackWrapper S) : Res Empty_set (RollbackWrapper S) :=
  match stack w with
  | [] => Panic
  | [last_item] =>
    '(all_edits, lm) ← rollback_check_pre_bottom_commit (edits last_item) (lookup_map w);
    st ← match all_edits with [] => Ok (store w) | _ => bs_put_all (store w) all_edits end;
    '(m_edits, mlm) ← rollback_check_pre_bottom_commit
                        (metadata_edits last_item) (metadata_lookup_map w);
    st ← match m_edits with [] => Ok st | _ => bs_put_all_metadata st m_edits end;
    mret (mkWrapper st lm mlm [])
  | last_item :: next_up :: rest =>
    mret (mkWrapper (store w) (lookup_map w) (metadata_lookup_map w)
            (mkContext (edits next_up ++ edits last_item)
                       (metadata_edits next_up ++ metadata_edits last_item) :: rest))
  end.

Definition wrapper_put (w : RollbackWrapper S) (key value : string)
  : Res Empty_set (RollbackWrapper S) :=
  match stack w with
  | [] => Panic
  | current :: rest =>
    let '(lm, es) := inner_put (lookup_map w) (edits current) key value in
    Ok (mkWrapper (store w) lm (metadata_lookup_map w)
          (mkContext es (metadata_edits current) :: rest))
  end.

(** [get], before [T::deserialize] is applied to what is found. *)
Definition wrapper_get (w : RollbackWrapper S) (key : string) : Res Empty_set (option string) :=
  match stack w with
  | [] => Panic
  | _ => let lookup_result := lookup_map w !! key ≫= last in
         Ok (match lookup_result with
             | Some x => Some x
             | None => bs_get (store w) key
             end)
  end.

Definition wrapper_has_entry (w : RollbackWrapper S) (key : string) : Res Empty_set bool :=
  match stack w with
  | [] => Panic
  | _ => Ok (match lookup_map w !! key with
             | Some _ => true
             | None => bs_has_entry (store w) key
             end)
  end.

Definition wrapper_set_block_hash (w : RollbackWrapper S) (bhh : list Z) : Res M (list Z * RollbackWrapper S) :=
  '(prior, st) ← bs_set_block_hash (store w) bhh;
  Ok (prior, mkWrapper st (lookup_map w) (metadata_lookup_map w) (stack w)).

Definition wrapper_insert_metadata (w : RollbackWrapper S)
    (contract : QualifiedContractIdentifier) (key value : string)
  : Res Empty_set (RollbackWrapper S) :=
  match stack w with
  | [] => Panic
  | current :: rest =>
    let '(mlm, es) := inner_put (metadata_lookup_map w) (metadata_edits current)
                        (contract, key) value in
    Ok (mkWrapper (store w) (lookup_map w) mlm (mkContext (edits current) es :: rest))
  end.

Definition wrapper_get_metadata (w : RollbackWrapper S)
    (contract : QualifiedContractIdentifier) (key : string) : Res M (option string) :=
  match stack w with
  | [] => Panic
  | _ => let lookup_result := metadata_lookup_map w !! (contract, key) ≫= last in
         match lookup_result with
         | Some x => Ok (Some x)
         | None => bs_get_metadata (store w) contract key
         end
  end.

Definition wrapper_has_metadata_entry (w : RollbackWrapper S)
    (contract : QualifiedContractIdentifier) (key : string) : Res M bool :=
  match wrapper_get_metadata w contract key with
  | Ok (Some _) => Ok true
  | Panic => Panic
  | _ => Ok false
  end.

End wrapper.

(** * The specification: a stack of edit logs *)

(** One log per nested context (newest context first), each log in the order
    the writes were made. *)
Record LogStack (S : Type) := mkLogs {
  ls_store : S;
  ls_logs : list (list (string * string) * list ((QualifiedContractIdentifier * string) * string)) }.
Arguments mkLogs {S}.
Arguments ls_store {S}.
Arguments ls_logs {S}.

Inductive kv_op :=
| Nest
| Rollback
| Commit
| Put (key value : string)
| InsertMetadata (contract : QualifiedContractIdentifier) (key value : string).

(** All pending writes, oldest first. *)
Definition ls_pending {S} (s : LogStack S) : list (string * string) :=
  concat (reverse (ls_logs s).*1).
Definition ls_pending_metadata {S} (s : LogStack S)
  : list ((QualifiedContractIdentifier * string) * string) :=
  concat (reverse (ls_logs s).*2).
Arguments ls_pending : simpl never.
Arguments ls_pending_metadata : simpl never.

Section spec.
  Context {S M : Type} `{!ClarityBackingStore S M}.

(** Writing one context's logs to the store. *)
Definition flush (st : S) (log : list (string * string))
    (mlog : list ((QualifiedContractIdentifier * string) * string)) : Res Empty_set S :=
  st ← match log with [] => Ok st | _ => bs_put_all st log end;
  match mlog with [] => Ok st | _ => bs_put_all_metadata st mlog end.

(** The step of the specification: it panics where the operation needs a
    nested context and there is none, and where the store does. *)
Definition spec_step (s : LogStack S) (op : kv_op) : Res Empty_set (LogStack S) :=
  match op, ls_logs s with
  | Nest, ls => Ok (mkLogs (ls_store s) (([], []) :: ls))
  | _, [] => Panic
  | Rollback, _ :: ls => Ok (mkLogs (ls_store s) ls)
  | Commit, [(log, mlog)] => st ← flush (ls_store s) log mlog; Ok (mkLogs st [])
  | Commit, (log, mlog) :: (log', mlog') :: ls =>
    Ok (mkLogs (ls_store s) ((log' ++ log, mlog' ++ mlog) :: ls))
  | Put k v, (log, mlog) :: ls => Ok (mkLogs (ls_store s) ((log ++ [(k, v)], mlog) :: ls))
  | InsertMetadata c k v, (log, mlog) :: ls =>
    Ok (mkLogs (ls_store s) ((log, mlog ++ [((c, k), v)]) :: ls))
  end.

Definition spec_run : LogStack S -> list kv_op -> Res Empty_set (LogStack S) := foldM spec_step.

(** The same operation on the wrapper. *)
Definition wrapper_step (w : RollbackWrapper S) (op : kv_op) : Res Empty_set (RollbackWrapper S) :=
  match op with
  | Nest => Ok (wrapper_nest w)
  | Rollback => wrapper_rollback w
  | Commit => wrapper_commit w
  | Put k v => wrapper_put w k v
  | InsertMetadata c k v => wrapper_insert_metadata w c k v
  end.

Definition wrapper_run : RollbackWrapper S -> list kv_op -> Res Empty_set (RollbackWrapper S) :=
  foldM wrapper_step.

End spec.

(** ** Lookup maps and the logs they stand for *)

Section represents.
  Context {K : Type} `{Countable K}.
  Implicit Types (lm : lookup_map_t K) (log : list (K * string)).

Definition represents lm log : Prop :=
  forall k, lm !! k = match values_of k log with [] => None | vs => Some vs end.

Lemma values_of_app (k : K) log1 log2 :
  values_of k (log1 ++ log2) = values_of k log1 ++ values_of k log2.
Proof. apply omap_app. Qed.

Lemma values_of_one (k k' : K) v :
  values_of k [(k', v)] = if decide (k' = k) then [v] else [].
Proof. unfold values_of; cbn. by case_decide. Qed.

Lemma represents_unique lm1 lm2 log : represents lm1 log -> represents lm2 log -> lm1 = lm2.
Proof. intros H1 H2. apply map_eq. intros k. by rewrite H1, H2. Qed.

Lemma represents_nil : represents ∅ [].
Proof. intros k. by rewrite lookup_empty. Qed.

Lemma represents_lookup lm log k : represents lm log -> lm !! k ≫= last = last (values_of k log).
Proof. intros ->. by destruct (values_of k log). Qed.

Lemma represents_put lm log es k v :
  represents lm log -> represents (inner_put lm es k v).1 (log ++ [(k, v)]).
Proof.
  intros Hr k'. unfold inner_put; cbn [fst]. rewrite values_of_app, values_of_one.
  pose proof (Hr k) as Hk. pose proof (Hr k') as Hk'.
  rewrite lookup_alter. case_decide as Heq; [subst k'|].
  - destruct (values_of k log) as [|x vs] eqn:Hv; rewrite Hk.
    + by rewrite lookup_insert_eq.
    + rewrite Hk. done.
  - rewrite app_nil_r, <-Hk'.
    destruct (lm !! k); [done|]. by rewrite lookup_insert_ne.
Qed.

Lemma last_snoc_vs (vs : list string) v :
  match vs ++ [v] with [] => None | vs' => Some vs' end = Some (vs ++ [v]).
Proof. by destruct vs. Qed.

Lemma represents_pop lm log k v :
  represents lm (log ++ [(k, v)]) ->
  exists lm', rollback_lookup_map k lm = Ok (v, lm') /\ represents lm' log.
Proof.
  intros Hr. unfold rollback_lookup_map.
  pose proof (Hr k) as Hk. rewrite values_of_app, values_of_one, decide_True in Hk by done.
  rewrite last_snoc_vs in Hk. rewrite Hk, last_snoc, removelast_last.
  eexists; split; [reflexivity|]. intros k'. pose proof (Hr k') as Hk'.
  rewrite values_of_app, values_of_one in Hk'.
  destruct (decide (k = k')) as [<-|Hne].
  - case_decide as Hv; [rewrite Hv; apply lookup_delete_eq|].
    rewrite lookup_insert_eq. by destruct (values_of k log).
  - rewrite app_nil_r in Hk'.
    case_decide; [by rewrite lookup_delete_ne|by rewrite lookup_insert_ne].
Qed.

Lemma represents_rollback lm log top :
  represents lm (log ++ top) ->
  exists lm', rollback_edits top.*1 lm = Ok lm' /\ represents lm' log.
Proof.
  revert lm; induction top as [|[k v] top IH] using rev_ind; intros lm Hr.
  - rewrite app_nil_r in Hr. by exists lm.
  - rewrite app_assoc in Hr. apply represents_pop in Hr as (lm' & Hpop & Hr).
    destruct (IH _ Hr) as (lm'' & Hrb & Hr'). exists lm''; split; [|done].
    unfold rollback_edits. rewrite fmap_app, reverse_app. cbn. by rewrite Hpop.
Qed.

(** The histories of the rest of a log, newest value first, as the bottom
    commit leaves them. *)
Definition represents_rev lm log : Prop :=
  forall k, lm !! k = match values_of k log with [] => None | vs => Some (reverse vs) end.

Lemma represents_rev_pop lm k v log :
  represents_rev lm ((k, v) :: log) ->
  exists lm', rollback_lookup_map k lm = Ok (v, lm') /\ represents_rev lm' log.
Proof.
  intros Hr. unfold rollback_lookup_map.
  change ((k, v) :: log) with ([(k, v)] ++ log) in Hr.
  pose proof (Hr k) as Hk. rewrite values_of_app, values_of_one, decide_True in Hk by done.
  cbn [app] in Hk. rewrite reverse_cons in Hk. rewrite Hk, last_snoc, removelast_last.
  eexists; split; [reflexivity|]. intros k'. pose proof (Hr k') as Hk'.
  rewrite values_of_app, values_of_one in Hk'.
  destruct (decide (k = k')) as [<-|Hne].
  - case_decide as Hv.
    + apply (f_equal length) in Hv. rewrite length_reverse in Hv.
      destruct (values_of k log); [apply lookup_delete_eq|done].
    + rewrite lookup_insert_eq. by destruct (values_of k log).
  - case_decide; [by rewrite lookup_delete_ne|by rewrite lookup_insert_ne].
Qed.

Lemma represents_bottom_commit lm log :
  represents lm log -> rollback_check_pre_bottom_commit log.*1 lm = Ok (log, ∅).
Proof.
  intros Hr. unfold rollback_check_pre_bottom_commit.
  assert (represents_rev (reverse <$> lm) log) as Hrev.
  { intros k. rewrite lookup_fmap, Hr. by destruct (values_of k log). }
  assert (forall out lm0, represents_rev lm0 log ->
    foldM (fun acc key =>
      '(value, lm) ← rollback_lookup_map key acc.2;
      mret (acc.1 ++ [(key, value)], lm)) (out, lm0) log.*1
    = Ok (out ++ log, ∅)) as Hloop.
  { clear. induction log as [|[k v] log IH]; intros out lm0 Hr.
    - cbn. rewrite app_nil_r. replace lm0 with (∅ : lookup_map_t K); [done|].
      apply map_eq. intros k. by rewrite Hr, lookup_empty.
    - destruct (represents_rev_pop _ _ _ _ Hr) as (lm' & Hpop & Hr').
      cbn. rewrite Hpop. cbn. rewrite IH by done. by rewrite <-app_assoc. }
  rewrite (Hloop [] _ Hrev). cbn. by rewrite map_size_empty.
Qed.

End represents.

(** ** Refinement *)

Section refinement.
  Context {S M : Type} `{!ClarityBackingStore S M}.
  Implicit Types (w : RollbackWrapper S) (s : LogStack S).

(** The wrapper [w] stands for the log stack [s]. *)
Record wrapper_refines w s : Prop := {
  wr_store : store w = ls_store s;
  wr_stack : stack w = (fun l => mkContext l.1.*1 l.2.*1) <$> ls_logs s;
  wr_lookup : represents (lookup_map w) (ls_pending s);
  wr_metadata : represents (metadata_lookup_map w) (ls_pending_metadata s) }.

Lemma wrapper_new_refines st : wrapper_refines (wrapper_new st) (mkLogs st []).
Proof. split; try done; apply represents_nil. Qed.

Lemma pending_cons (st : S) log mlog ls :
  ls_pending (mkLogs st ((log, mlog) :: ls)) = ls_pending (mkLogs st ls) ++ log.
Proof.
  unfold ls_pending; cbn [ls_logs]. rewrite fmap_cons, reverse_cons, concat_app. cbn. by rewrite app_nil_r.
Qed.
Lemma pending_metadata_cons (st : S) log mlog ls :
  ls_pending_metadata (mkLogs st ((log, mlog) :: ls)) =
  ls_pending_metadata (mkLogs st ls) ++ mlog.
Proof.
  unfold ls_pending_metadata; cbn [ls_logs]. rewrite fmap_cons, reverse_cons, concat_app. cbn. by rewrite app_nil_r.
Qed.

(** Two wrappers that stand for the same log stack are equal. *)
Lemma wrapper_refines_unique w1 w2 s :
  wrapper_refines w1 s -> wrapper_refines w2 s -> w1 = w2.
Proof.
  intros [] []. destruct w1, w2; cbn in *.
  f_equal; eauto using represents_unique; congruence.
Qed.

Lemma refines_nest w s :
  wrapper_refines w s -> wrapper_refines (wrapper_nest w) (mkLogs (ls_store s) (([], []) :: ls_logs s)).
Proof.
  destruct s as [st ls]. intros [Hst Hstk Hl Hm]. split; cbn; try done.
  - by rewrite Hstk.
  - by rewrite pending_cons, app_nil_r.
  - by rewrite pending_metadata_cons, app_nil_r.
Qed.

Lemma refines_set_block_hash w st ls bhh prior w' :
  wrapper_refines w (mkLogs st ls) -> wrapper_set_block_hash w bhh = Ok (prior, w') ->
  exists st', bs_set_block_hash st bhh = Ok (prior, st') /\ wrapper_refines w' (mkLogs st' ls).
Proof.
  intros [Hst Hstk Hl Hm]. unfold wrapper_set_block_hash. rewrite Hst. cbn [ls_store].
  destruct (bs_set_block_hash st bhh) as [[p st']| |]; [|done..]. intros [= <- <-]. by exists st'.
Qed.

Lemma refines_rollback w st log mlog ls :
  wrapper_refines w (mkLogs st ((log, mlog) :: ls)) ->
  exists w', wrapper_rollback w = Ok w' /\ wrapper_refines w' (mkLogs st ls).
Proof.
  intros [Hst Hstk Hl Hm]. rewrite pending_cons in Hl. rewrite pending_metadata_cons in Hm.
  destruct (represents_rollback _ _ _ Hl) as (lm & Hlm & Hl').
  destruct (represents_rollback _ _ _ Hm) as (mlm & Hmlm & Hm').
  unfold wrapper_rollback. rewrite Hstk. cbn. rewrite Hlm. cbn. rewrite Hmlm. cbn.
  eexists; split; [reflexivity|]. by split.
Qed.

Lemma refines_put w st log mlog ls k v :
  wrapper_refines w (mkLogs st ((log, mlog) :: ls)) ->
  exists w', wrapper_put w k v = Ok w' /\
    wrapper_refines w' (mkLogs st ((log ++ [(k, v)], mlog) :: ls)).
Proof.
  intros [Hst Hstk Hl Hm]. rewrite pending_cons in Hl. rewrite pending_metadata_cons in Hm.
  unfold wrapper_put. rewrite Hstk. cbn. unfold inner_put at 1. eexists; split; [reflexivity|]. split; cbn; try done.
  - by rewrite fmap_app.
  - rewrite pending_cons, app_assoc. by apply (represents_put _ _ []).
  - by rewrite pending_metadata_cons.
Qed.

Lemma refines_insert_metadata w st log mlog ls c k v :
  wrapper_refines w (mkLogs st ((log, mlog) :: ls)) ->
  exists w', wrapper_insert_metadata w c k v = Ok w' /\
    wrapper_refines w' (mkLogs st ((log, mlog ++ [((c, k), v)]) :: ls)).
Proof.
  intros [Hst Hstk Hl Hm]. rewrite pending_cons in Hl. rewrite pending_metadata_cons in Hm.
  unfold wrapper_insert_metadata. rewrite Hstk. cbn. unfold inner_put at 1.
  eexists; split; [reflexivity|]. split; cbn; try done.
  - by rewrite fmap_app.
  - by rewrite pending_cons.
  - rewrite pending_metadata_cons, app_assoc. by apply (represents_put _ _ []).
Qed.

Lemma refines_commit_inner w st log mlog log' mlog' ls :
  wrapper_refines w (mkLogs st ((log, mlog) :: (log', mlog') :: ls)) ->
  exists w', wrapper_commit w = Ok w' /\
    wrapper_refines w' (mkLogs st ((log' ++ log, mlog' ++ mlog) :: ls)).
Proof.
  intros [Hst Hstk Hl Hm]. rewrite !pending_cons in Hl. rewrite !pending_metadata_cons in Hm.
  unfold wrapper_commit. rewrite Hstk. cbn. eexists; split; [reflexivity|]. split; cbn; try done.
  - by rewrite !fmap_app.
  - by rewrite pending_cons, app_assoc.
  - by rewrite pending_metadata_cons, app_assoc.
Qed.

Lemma refines_commit_bottom w st log mlog :
  wrapper_refines w (mkLogs st [(log, mlog)]) ->
  wrapper_commit w = (st' ← flush st log mlog; Ok (wrapper_new st')).
Proof.
  intros [Hst Hstk Hl Hm]. rewrite pending_cons in Hl. rewrite pending_metadata_cons in Hm.
  unfold wrapper_commit, flush. rewrite Hstk. cbn.
  rewrite (represents_bottom_commit _ log) by done. cbn. cbn in Hst. rewrite Hst.
  destruct (match log with [] => Ok st | _ => bs_put_all st log end); cbn; [|done..].
  by rewrite (represents_bottom_commit _ mlog).
Qed.

(** Outcomes of the wrapper and of the specification that correspond. *)
Definition run_refines (rw : Res Empty_set (RollbackWrapper S)) (rs : Res Empty_set (LogStack S))
  : Prop :=
  match rs with
  | Ok s' => exists w', rw = Ok w' /\ wrapper_refines w' s'
  | Err _ => False
  | Panic => rw = Panic
  end.

Lemma refines_step w s op :
  wrapper_refines w s -> run_refines (wrapper_step w op) (spec_step s op).
Proof.
  intros Hr. destruct s as [st [|[log mlog] ls]].
  - pose proof (wr_stack _ _ Hr) as Hstk. cbn in Hstk.
    destruct op; cbn; unfold wrapper_rollback, wrapper_commit, wrapper_put, wrapper_insert_metadata;
      try by rewrite Hstk.
    eexists; split; [done|]. by apply refines_nest in Hr.
  - destruct op; cbn.
    + eexists; split; [done|]. by apply refines_nest in Hr.
    + by eapply refines_rollback.
    + destruct ls as [|[log' mlog'] ls]; cbn.
      * rewrite (refines_commit_bottom _ _ _ _ Hr). destruct (flush st log mlog) as [|[]|]; cbn; [|done].
        eexists; split; [done|apply wrapper_new_refines].
      * by apply refines_commit_inner.
    + by apply refines_put.
    + by apply refines_insert_metadata.
Qed.

Lemma refines_run ops w s :
  wrapper_refines w s -> run_refines (wrapper_run w ops) (spec_run s ops).
Proof.
  revert w s; induction ops as [|op ops IH]; intros w s Hr; cbn; [by exists w|].
  pose proof (refines_step w s op Hr) as Hstep.
  destruct (spec_step s op) as [s'|[]|]; cbn in *.
  - destruct Hstep as (w' & Hw & Hr'). rewrite Hw. by apply IH.
  - by rewrite Hstep.
Qed.

Lemma refines_depth w s : wrapper_refines w s -> wrapper_depth w = length (ls_logs s).
Proof. intros Hr. unfold wrapper_depth. by rewrite (wr_stack _ _ Hr), length_fmap. Qed.

Lemma refines_get w s k :
  wrapper_refines w s -> ls_logs s <> [] ->
  wrapper_get w k = Ok (match last (values_of k (ls_pending s)) with
                        | Some v => Some v
                        | None => bs_get (ls_store s) k
                        end).
Proof.
  intros [Hst Hstk Hl Hm] Hls. unfold wrapper_get. rewrite Hstk, Hst.
  destruct (ls_logs s) eqn:?; [done|]. cbn. by rewrite (represents_lookup _ (ls_pending s)).
Qed.

Lemma refines_get_metadata w s c k :
  wrapper_refines w s -> ls_logs s <> [] ->
  wrapper_get_metadata w c k =
    match last (values_of (c, k) (ls_pending_metadata s)) with
    | Some v => Ok (Some v)
    | None => bs_get_metadata (ls_store s) c k
    end.
Proof.
  intros [Hst Hstk Hl Hm] Hls. unfold wrapper_get_metadata. rewrite Hstk, Hst.
  destruct (ls_logs s) eqn:?; [done|]. cbn. by rewrite (represents_lookup _ (ls_pending_metadata s)).
Qed.

Lemma refines_has_entry w s k :
  wrapper_refines w s -> ls_logs s <> [] ->
  wrapper_has_entry w k =
    Ok (match values_of k (ls_pending s) with [] => bs_has_entry (ls_store s) k | _ => true end).
Proof.
  intros [Hst Hstk Hl Hm] Hls. unfold wrapper_has_entry. rewrite Hstk, Hst.
  destruct (ls_logs s) eqn:?; [done|]. cbn. rewrite Hl. by destruct (values_of k (ls_pending s)).
Qed.

End refinement.

(** * Properties *)

(** The sequences of operations that close every context they open. *)
Inductive well_nested : list kv_op -> Prop :=
| wn_nil : well_nested []
| wn_put k v ops : well_nested ops -> well_nested (Put k v :: ops)
| wn_metadata c k v ops : well_nested ops -> well_nested (InsertMetadata c k v :: ops)
| wn_rollback ops1 ops2 :
    well_nested ops1 -> well_nested ops2 -> well_nested (Nest :: ops1 ++ Rollback :: ops2)
| wn_commit ops1 ops2 :
    well_nested ops1 -> well_nested ops2 -> well_nested (Nest :: ops1 ++ Commit :: ops2).

Section properties.
  Context {S M : Type} `{!ClarityBackingStore S M}.

Lemma spec_run_app (s : LogStack S) ops1 ops2 :
  spec_run s (ops1 ++ ops2) = (spec_run s ops1 ≫= fun s' => spec_run s' ops2).
Proof. apply foldM_app. Qed.

(** A well-nested sequence only extends the log of the current context. *)
Lemma well_nested_extends ops :
  well_nested ops -> forall (st : S) log mlog ls, exists log' mlog',
    spec_run (mkLogs st ((log, mlog) :: ls)) ops =
      Ok (mkLogs st ((log ++ log', mlog ++ mlog') :: ls)).
Proof.
  induction 1 as [|k v ops _ IH|c k v ops _ IH|ops1 ops2 _ IH1 _ IH2|ops1 ops2 _ IH1 _ IH2];
    intros st log mlog ls.
  - exists [], []. by rewrite !app_nil_r.
  - cbn. destruct (IH st (log ++ [(k, v)]) mlog ls) as (l & m & ->).
    exists ([(k, v)] ++ l), m. by rewrite app_assoc.
  - cbn. destruct (IH st log (mlog ++ [((c, k), v)]) ls) as (l & m & ->).
    exists l, ([((c, k), v)] ++ m). by rewrite app_assoc.
  - cbn. fold (spec_run (S := S)). rewrite spec_run_app.
    destruct (IH1 st [] [] ((log, mlog) :: ls)) as (l1 & m1 & ->). cbn. apply IH2.
  - cbn. fold (spec_run (S := S)). rewrite spec_run_app.
    destruct (IH1 st [] [] ((log, mlog) :: ls)) as (l1 & m1 & ->). cbn.
    destruct (IH2 st (log ++ l1) (mlog ++ m1) ls) as (l2 & m2 & H).
    exists (l1 ++ l2), (m1 ++ m2). rewrite !app_assoc. exact H.
Qed.

(** A wrapper reached from a fresh one stands for some log stack. *)
Lemma reachable_refines (st : S) pre w :
  wrapper_run (wrapper_new st) pre = Ok w ->
  exists s, spec_run (mkLogs st []) pre = Ok s /\ wrapper_refines w s.
Proof.
  intros Hw. pose proof (refines_run pre _ _ (wrapper_new_refines st)) as Hr.
  rewrite Hw in Hr. destruct (spec_run (mkLogs st []) pre) as [s|[]|]; cbn in Hr.
  - destruct Hr as (w' & [= <-] & Hr). eauto.
  - done.
Qed.

(** C29. Refinement: after any sequence of [nest], [put], [insert_metadata],
    [rollback] and [commit] calls on a fresh wrapper, the wrapper and a stack of
    edit logs over the same store either both panic, or both continue, and then
    [get], [has_entry] and [get_metadata] of a nested wrapper return the newest
    pending value of the key, and what the store holds where there is none. *)
Theorem wrapper_run_refines (st : S) (ops : list kv_op) :
  match spec_run (mkLogs st []) ops with
  | Ok s => exists w,
      wrapper_run (wrapper_new st) ops = Ok w /\
      store w = ls_store s /\ wrapper_depth w = length (ls_logs s) /\
      (wrapper_depth w <> 0%nat -> forall k c,
        wrapper_get w k = Ok (match last (values_of k (ls_pending s)) with
                              | Some v => Some v
                              | None => bs_get (ls_store s) k
                              end) /\
        wrapper_has_entry w k =
          Ok (match values_of k (ls_pending s) with
              | [] => bs_has_entry (ls_store s) k
              | _ => true
              end) /\
        wrapper_get_metadata w c k =
          match last (values_of (c, k) (ls_pending_metadata s)) with
          | Some v => Ok (Some v)
          | None => bs_get_metadata (ls_store s) c k
          end)
  | Err _ => False
  | Panic => wrapper_run (wrapper_new st) ops = Panic
  end.
Proof.
  pose proof (refines_run ops _ _ (wrapper_new_refines st)) as Hr.
  destruct (spec_run (mkLogs st []) ops) as [s|[]|]; cbn in Hr; [|done].
  destruct Hr as (w & Hw & Hr). exists w.
  pose proof (refines_depth _ _ Hr) as Hd. split_and!; [done|apply Hr|done|]. intros Hne k c.
  assert (ls_logs s <> []) by (destruct (ls_logs s); [done|discriminate]).
  split_and!; by (apply refines_get || apply refines_has_entry || apply refines_get_metadata).
Qed.

(** Rolling back restores the wrapper exactly: whatever a nested context
    did (writes, nested contexts committed into it or rolled back), closing it
    with [rollback] gives back the state before [nest]: same lookup maps, same
    edit stack, same store. *)
Theorem rollback_restores (st : S) (pre ops : list kv_op) (w : RollbackWrapper S) :
  wrapper_run (wrapper_new st) pre = Ok w ->
  well_nested ops ->
  wrapper_run w (Nest :: ops ++ [Rollback]) = Ok w.
Proof.
  intros Hw Hops. destruct (reachable_refines _ _ _ Hw) as ([st' ls] & _ & Hr).
  pose proof (refines_run (Nest :: ops ++ [Rollback]) _ _ Hr) as Hrun.
  assert (spec_run (mkLogs st' ls) (Nest :: ops ++ [Rollback]) = Ok (mkLogs st' ls)) as Hs.
  { cbn. fold (spec_run (S := S)). rewrite spec_run_app.
    destruct (well_nested_extends ops Hops st' [] [] ls) as (l & m & ->). done. }
  rewrite Hs in Hrun. destruct Hrun as (w' & Hw' & Hr').
  by rewrite Hw', (wrapper_refines_unique _ _ _ Hr' Hr).
Qed.

(** What a read of [k] sees: through the wrapper while a context is open, from
    the store once the last one is committed. *)
Definition visible (w : RollbackWrapper S) (k : string) : Res Empty_set (option string) :=
  match stack w with [] => Ok (bs_get (store w) k) | _ => wrapper_get w k end.

Lemma flush_reads `{!BackingStoreLaws S M} (st : S) log mlog :
  match flush st log mlog with
  | Ok st' => forall k, bs_get st' k =
      match last (values_of k log) with Some v => Some v | None => bs_get st k end
  | Err _ => False
  | Panic => exists s items, bs_put_all_metadata s items = Panic
  end.
Proof.
  unfold flush. destruct (bs_get_put_all st log) as (st1 & Hput & Hget).
  assert (exists st2, match log with [] => Ok st | _ => bs_put_all st log end = Ok st2 /\
            forall k, bs_get st2 k = match last (values_of k log) with
                                     | Some v => Some v | None => bs_get st k end) as
    (st2 & -> & Hget2) by (destruct log; eauto).
  cbn. destruct mlog as [|m mlog]; [done|].
  destruct (bs_put_all_metadata st2 (m :: mlog)) as [st3|[]|] eqn:Hmeta; [|by eauto].
  intros k. by rewrite (bs_get_put_all_metadata _ _ _ Hmeta).
Qed.

(** Committing publishes exactly what was readable: over a store that
    applies its batches in order, a commit of a nested context does not panic
    (unless writing contract metadata does), lowers the depth by one, and every
    key reads the same after it as before, also when the commit wrote the whole
    log to the store. *)
Theorem commit_preserves_reads `{!BackingStoreLaws S M}
    (st : S) (pre : list kv_op) (w : RollbackWrapper S) :
  wrapper_run (wrapper_new st) pre = Ok w ->
  wrapper_depth w <> 0%nat ->
  match wrapper_commit w with
  | Ok w' => wrapper_depth w = Datatypes.S (wrapper_depth w') /\
             forall k, visible w' k = wrapper_get w k
  | Err _ => False
  | Panic => wrapper_depth w = 1%nat /\
             exists s items, bs_put_all_metadata s items = Panic
  end.
Proof.
  intros Hw Hd. destruct (reachable_refines _ _ _ Hw) as ([st' ls] & _ & Hr).
  rewrite (refines_depth _ _ Hr) in Hd |- *.
  destruct ls as [|[log mlog] [|[log' mlog'] ls]]; [done|..]; cbn in *.
  - rewrite (refines_commit_bottom _ _ _ _ Hr).
    pose proof (flush_reads st' log mlog) as Hf.
    destruct (flush st' log mlog) as [st''|[]|]; cbn; [|by split].
    split; [done|]. intros k. unfold visible. cbn. rewrite Hf.
    rewrite (refines_get _ _ _ Hr) by done. by rewrite pending_cons.
  - destruct (refines_commit_inner _ _ _ _ _ _ _ Hr) as (w' & -> & Hr').
    rewrite (refines_depth _ _ Hr'). split; [done|]. intros k. unfold visible.
    rewrite (wr_stack _ _ Hr'). cbn. rewrite (refines_get _ _ _ Hr'), (refines_get _ _ _ Hr) by done.
    by rewrite !pending_cons, app_assoc.
Qed.

End properties.
