(* ===== verification/BackingStore.v ===== *)
(** The in-memory store: [SqliteConnection] of src/vm/database/sqlite.rs,
    [ContractCommitment] and [MemoryBackingStore] of src/vm/database/marf.rs.

    A table with a primary key is a finite map; the failures of SQL that the
    schema can raise (a duplicate key in [metadata_table]) are panics, as in the
    code. *)
From stdpp Require Import base strings numbers list gmap.
From Stdlib Require Import ZArith Lia.
From S2P Require Import Prelude Names Types Hex C32 C32Facts RollbackWrapper.
#[local] Open Scope Z_scope.

(** * SQLite tables *)

(** [BlockHeaderHash]: 32 bytes. *)
Notation BlockHeaderHash := (list Z).

Record SqliteConnection := mkSqlite {
  data_table : gmap string string;
  metadata_table : gmap (BlockHeaderHash * string) string;
}.

Definition sqlite_put (conn : SqliteConnection) (key value : string) : SqliteConnection :=
  mkSqlite (<[key := value]> (data_table conn)) (metadata_table conn).
Definition sqlite_get (conn : SqliteConnection) (key : string) : option string := data_table conn !! key.
Definition sqlite_has_entry (conn : SqliteConnection) (key : string) : bool :=
  match sqlite_get conn key with Some _ => true | None => false end.

Definition metadata_key (contract_hash key : string) : string :=
  "clr-meta::" +:+ contract_hash +:+ "::" +:+ key.

(** The table is UNIQUE in (key, blockhash). *)
Definition sqlite_insert_metadata (conn : SqliteConnection) (bhh : BlockHeaderHash) (contract_hash key value : string)
  : Res Empty_set SqliteConnection :=
  let key := metadata_key contract_hash key in
  match metadata_table conn !! (bhh, key) with
  | Some _ => Panic
  | None => Ok (mkSqlite (data_table conn) (<[(bhh, key) := value]> (metadata_table conn)))
  end.

Definition sqlite_get_metadata (conn : SqliteConnection) (bhh : BlockHeaderHash) (contract_hash key : string)
  : option string := metadata_table conn !! (bhh, metadata_key contract_hash key).

(** * Contract commitments *)

Record ContractCommitment := mkCommitment { cc_hash : list Z; cc_block_height : Z }.

Definition commitment_serialize (cc : ContractCommitment) : string :=
  to_hex (cc_hash cc) +:+ to_hex (be_encode 4 (cc_block_height cc)).

(** [Sha512Trunc256Sum::from_hex]. *)
Definition sum_from_hex (hex_str : string) : Res HexError (list Z) :=
  bytes ← hex_bytes hex_str;
  if Nat.eqb (length bytes) 32 then Ok bytes else Err (BadLength (str_len hex_str)).

(** A slice of a string whose ends must be at character boundaries. *)
Definition str_slice (s : list Z) (from to : nat) : Res Empty_set string :=
  let ok i := match s !! i with Some b => is_char_boundary b | None => Nat.eqb i (length s) end in
  if Nat.leb from to && ok from && ok to then Ok (bytes_string (take (to - from) (drop from s))) else Panic.

Definition commitment_deserialize (input : string) : Res Empty_set ContractCommitment :=
  let bytes := string_bytes input in
  if Nat.eqb (length bytes) 72 then
    s ← str_slice bytes 0 64;
    hash ← expect (sum_from_hex s);
    s ← str_slice bytes 64 72;
    height_bytes ← expect (hex_bytes s);
    if Nat.eqb (length height_bytes) 4 then Ok (mkCommitment hash (be_decode height_bytes)) else Panic
  else Panic.

(** * The memory store *)

Record MemoryBackingStore := mkMemory { side_store : SqliteConnection }.

(** [TrieFileStorage::block_sentinel]. *)
Definition block_sentinel : BlockHeaderHash := replicate 32 255.

Definition MemoryBackingStore_new : MemoryBackingStore := mkMemory (mkSqlite ∅ ∅).

Definition get_block_at_height (s : MemoryBackingStore) (height : Z) : option BlockHeaderHash :=
  if height =? 0 then Some block_sentinel else None.
Definition get_open_chain_tip (s : MemoryBackingStore) : BlockHeaderHash := block_sentinel.
Definition get_open_chain_tip_height (s : MemoryBackingStore) : Z := 0.

Definition get_current_block_height (s : MemoryBackingStore) : Z := 0.
Definition set_block_hash (s : MemoryBackingStore) (bhh : BlockHeaderHash)
  : Res VmError (BlockHeaderHash * MemoryBackingStore) :=
  Err (Runtime (UnknownBlockHeaderHash bhh)).

Definition make_contract_commitment (s : MemoryBackingStore) (contract_hash : list Z) : string :=
  commitment_serialize (mkCommitment contract_hash (get_open_chain_tip_height s)).

Definition put_all (s : MemoryBackingStore) (items : list (string * string)) : MemoryBackingStore :=
  mkMemory (foldl (fun conn '(key, value) => sqlite_put conn key value) (side_store s) items).

Section store.
Context `{!Sha256}.

Definition contract_string (contract : QualifiedContractIdentifier) : Res Empty_set string :=
  s ← QualifiedContractIdentifier_to_string contract; Ok (bytes_string s).

(** [MarfedKV::make_contract_hash_key]. *)
Definition make_contract_hash_key (contract : QualifiedContractIdentifier) : Res Empty_set string :=
  c ← contract_string contract; Ok ("clarity-contract::" +:+ c).

Definition get_contract_hash (s : MemoryBackingStore) (contract : QualifiedContractIdentifier)
  : Res VmError (BlockHeaderHash * list Z) :=
  key ← lift_panic (make_contract_hash_key contract);
  c ← lift_panic (contract_string contract);
  serialized ← ok_or (sqlite_get (side_store s) key) (Unchecked (NoSuchContract c));
  cc ← lift_panic (commitment_deserialize serialized);
  bhh ← expect_opt (get_block_at_height s (cc_block_height cc));
  Ok (bhh, cc_hash cc).

Definition insert_metadata (s : MemoryBackingStore) (contract : QualifiedContractIdentifier) (key value : string)
  : Res Empty_set MemoryBackingStore :=
  let bhh := get_open_chain_tip s in
  c ← contract_string contract;
  conn ← sqlite_insert_metadata (side_store s) bhh c key value;
  Ok (mkMemory conn).

Definition get_metadata (s : MemoryBackingStore) (contract : QualifiedContractIdentifier) (key : string)
  : Res VmError (option string) :=
  '(bhh, _) ← get_contract_hash s contract;
  c ← lift_panic (contract_string contract);
  Ok (sqlite_get_metadata (side_store s) bhh c key).

Definition put_all_metadata (s : MemoryBackingStore) (items : list ((QualifiedContractIdentifier * string) * string))
  : Res Empty_set MemoryBackingStore :=
  foldM (fun s '((contract, key), value) => insert_metadata s contract key value) s items.

#[global] Instance memory_store : ClarityBackingStore MemoryBackingStore VmError := {|
  bs_put_all s items := Ok (put_all s items);
  bs_get s key := sqlite_get (side_store s) key;
  bs_put_all_metadata := put_all_metadata;
  bs_get_metadata := get_metadata;
  bs_set_block_hash s bhh := set_block_hash s bhh;
  bs_get_block_at_height s height := Ok (get_block_at_height s height);
  bs_get_current_block_height s := Ok (get_current_block_height s);
  bs_make_contract_commitment s hash := Ok (make_contract_commitment s hash);
|}.

(** * The promises of a store *)

Lemma put_all_get s items k :
  sqlite_get (side_store (put_all s items)) k =
  match last (values_of k items) with Some v => Some v | None => sqlite_get (side_store s) k end.
Proof.
  destruct s as [conn]. unfold put_all. cbn [side_store].
  revert conn; induction items as [|[k' v] items IH]; intros conn; cbn [foldl]; [done|]. rewrite IH.
  unfold values_of. cbn [omap list_omap fst snd]. fold (values_of k items).
  destruct (decide (k' = k)) as [->|Hne].
  - destruct (values_of k items) as [|y l].
    + unfold sqlite_get, sqlite_put. cbn. by rewrite lookup_insert_eq.
    + change (last (v :: y :: l)) with (last (y :: l)). destruct (last (y :: l)) eqn:E; [done|].
      by apply last_None in E.
  - unfold sqlite_put, sqlite_get. cbn. by rewrite lookup_insert_ne.
Qed.

Lemma insert_metadata_data s contract key value s' :
  insert_metadata s contract key value = Ok s' -> data_table (side_store s') = data_table (side_store s).
Proof.
  unfold insert_metadata, sqlite_insert_metadata. intros Hi. res_inv.
  match goal with Hk : context [metadata_table ?m !! ?k] |- _ => destruct (metadata_table m !! k) end; by simplify_eq.
Qed.

#[global] Instance memory_store_laws : BackingStoreLaws MemoryBackingStore VmError.
Proof.
  split.
  - intros s items. exists (put_all s items). split; [done|]. apply put_all_get.
  - intros s items s' Hs k. cbn. unfold sqlite_get.
    apply (foldM_inv (fun m => data_table (side_store m) = data_table (side_store s)) _ _ _ _) in Hs; [by rewrite Hs| |done].
    intros m [[contract key] value] m' Hm _ Hi. by rewrite (insert_metadata_data _ _ _ _ _ Hi).
  - done.
Qed.
End store.

(** * Witnesses of the properties of the edit log *)

Section witnesses.
#[local] Existing Instance zero_sha256.

Definition example_log : list kv_op := [Put "a" "1"; Nest; Put "a" "2"; Commit; Nest; Put "b" "3"; Rollback].

Lemma rollback_restores_witness : exists w,
  wrapper_run (wrapper_new MemoryBackingStore_new) [Nest; Put "a" "0"] = Ok w /\
  wrapper_run w (Nest :: example_log ++ [Rollback]) = Ok w.
Proof.
  eexists. split; [vm_compute; reflexivity|].
  apply (rollback_restores MemoryBackingStore_new [Nest; Put "a" "0"]); [vm_compute; reflexivity|].
  apply wn_put. change [Nest; Put "a" "2"; Commit; Nest; Put "b" "3"; Rollback] with
    (Nest :: [Put "a" "2"] ++ Commit :: (Nest :: [Put "b" "3"] ++ Rollback :: [])).
  repeat constructor.
Defined.

End witnesses.
