(* ===== verification/Costs.v ===== *)
(** Execution costs: src/vm/costs/mod.rs and the table of cost functions of
    src/vm/costs/cost_functions.rs.  Costs are [u64]; a method that mutates its
    receiver returns the new receiver next to its result, also when it fails. *)
From stdpp Require Import base list strings numbers.
From Stdlib Require Import ZArith Lia.
From S2P Require Import Prelude Types.
#[local] Open Scope Z_scope.

(** * Costs *)

(** [CostOverflowingMath] for [u64]. *)
Definition cost_overflow_mul (a b : Z) : Res CostErrors Z := ok_or (checked_mul 64 a b) CostOverflow.
Definition cost_overflow_add (a b : Z) : Res CostErrors Z := ok_or (checked_add 64 a b) CostOverflow.

Definition u64_max : Z := 2 ^ 64 - 1.

Definition ExecutionCost_zero : ExecutionCost := mkCost 0 0 0 0 0.
Definition ExecutionCost_max_value : ExecutionCost := mkCost u64_max u64_max u64_max u64_max u64_max.
Definition ExecutionCost_runtime (runtime : Z) : ExecutionCost := mkCost 0 0 0 0 runtime.

(** A sequence of field updates, each of which may end the method early with
    the updates made so far. *)
Definition update_field (self : ExecutionCost) (new : Res CostErrors Z)
    (set : Z -> ExecutionCost) (k : ExecutionCost -> ExecutionCost * Res CostErrors unit)
  : ExecutionCost * Res CostErrors unit :=
  match new with
  | Ok z => k (set z)
  | Err e => (self, Err e)
  | Panic => (self, Panic)
  end.

Definition set_runtime (c : ExecutionCost) (z : Z) : ExecutionCost :=
  mkCost (write_length c) (write_count c) (read_length c) (read_count c) z.
Definition set_read_count (c : ExecutionCost) (z : Z) : ExecutionCost :=
  mkCost (write_length c) (write_count c) (read_length c) z (runtime c).
Definition set_read_length (c : ExecutionCost) (z : Z) : ExecutionCost :=
  mkCost (write_length c) (write_count c) z (read_count c) (runtime c).
Definition set_write_length (c : ExecutionCost) (z : Z) : ExecutionCost :=
  mkCost z (write_count c) (read_length c) (read_count c) (runtime c).
Definition set_write_count (c : ExecutionCost) (z : Z) : ExecutionCost :=
  mkCost (write_length c) z (read_length c) (read_count c) (runtime c).

Definition ExecutionCost_add_runtime (self : ExecutionCost) (runtime' : Z)
  : ExecutionCost * Res CostErrors unit :=
  update_field self (cost_overflow_add (runtime self) runtime') (set_runtime self) (fun c => (c, Ok tt)).

(** The field updates of [add] and [multiply], in their order. *)
Definition update_cost (op : Z -> Z -> Res CostErrors Z) (self other : ExecutionCost)
  : ExecutionCost * Res CostErrors unit :=
  update_field self (op (runtime self) (runtime other)) (set_runtime self) (fun c =>
  update_field c (op (read_count c) (read_count other)) (set_read_count c) (fun c =>
  update_field c (op (read_length c) (read_length other)) (set_read_length c) (fun c =>
  update_field c (op (write_length c) (write_length other)) (set_write_length c) (fun c =>
  update_field c (op (write_count c) (write_count other)) (set_write_count c) (fun c =>
  (c, Ok tt)))))).

Definition ExecutionCost_add : ExecutionCost -> ExecutionCost -> ExecutionCost * Res CostErrors unit :=
  update_cost cost_overflow_add.
Definition ExecutionCost_multiply (self : ExecutionCost) (times : Z)
  : ExecutionCost * Res CostErrors unit :=
  update_cost cost_overflow_mul self (mkCost times times times times times).

Definition exceeds (self other : ExecutionCost) : bool :=
  (runtime other <? runtime self)
  || (write_length other <? write_length self)
  || (write_count other <? write_count self)
  || (read_count other <? read_count self)
  || (read_length other <? read_length self).

Definition max_cost (first second : ExecutionCost) : ExecutionCost :=
  mkCost (Z.max (write_length first) (write_length second))
         (Z.max (write_count first) (write_count second))
         (Z.max (read_length first) (read_length second))
         (Z.max (read_count first) (read_count second))
         (Z.max (runtime first) (runtime second)).

(** * Cost functions *)

(** [u64::leading_zeros] and [u64::trailing_zeros]. *)
Definition leading_zeros (n : Z) : Z := if n =? 0 then 64 else 63 - Z.log2 n.
Fixpoint pos_trailing_zeros (p : positive) : Z :=
  match p with
  | xO p => 1 + pos_trailing_zeros p
  | _ => 0
  end.
Definition trailing_zeros (n : Z) : Z :=
  match n with
  | Zpos p => pos_trailing_zeros p
  | _ => 64
  end.

Definition int_log2 (input : Z) : option Z :=
  floor_log ← checked_sub 32 63 (leading_zeros input);
  Some (if trailing_zeros input =? floor_log then floor_log else floor_log + 1).

Inductive CostFunctions :=
| Constant (val : Z)
| Linear (a b : Z)
| NLogN (a b : Z)
| LogN (a b : Z).

Definition compute_cost (f : CostFunctions) (input : Z) : Res CostErrors Z :=
  match f with
  | Constant val => Ok val
  | Linear a b => x ← cost_overflow_mul a input; cost_overflow_add x b
  | LogN a b =>
    l ← ok_or (int_log2 (Z.max input 1)) CostOverflow;
    x ← cost_overflow_mul l a;
    cost_overflow_add x b
  | NLogN a b =>
    l ← ok_or (int_log2 (Z.max input 1)) CostOverflow;
    x ← cost_overflow_mul l input;
    y ← cost_overflow_mul x a;
    cost_overflow_add y b
  end.

Record SimpleCostSpecification := mkSpec {
  spec_write_count : CostFunctions;
  spec_write_length : CostFunctions;
  spec_read_count : CostFunctions;
  spec_read_length : CostFunctions;
  spec_runtime : CostFunctions;
}.

Definition spec_compute_cost (s : SimpleCostSpecification) (input : Z) : Res CostErrors ExecutionCost :=
  wl ← compute_cost (spec_write_length s) input;
  wc ← compute_cost (spec_write_count s) input;
  rc ← compute_cost (spec_read_count s) input;
  rl ← compute_cost (spec_read_length s) input;
  rt ← compute_cost (spec_runtime s) input;
  Ok (mkCost wl wc rl rc rt).

(** [From<ExecutionCost>]. *)
Definition spec_of_cost (value : ExecutionCost) : SimpleCostSpecification :=
  mkSpec (Constant (write_count value)) (Constant (write_length value))
         (Constant (read_count value)) (Constant (read_length value)) (Constant (runtime value)).

(** * Trackers *)

(** [CostTracker]: what charging code may call. *)
Class CostTracker (T : Type) := {
  add_cost : T -> ExecutionCost -> T * Res CostErrors unit;
  add_memory : T -> Z -> T * Res CostErrors unit;
  drop_memory : T -> Z -> Res Empty_set T;
  reset_memory : T -> T;
}.

(** The tracker [()] that does not track. *)
#[global] Instance unit_tracker : CostTracker unit := {|
  add_cost s _ := (s, Ok tt);
  add_memory s _ := (s, Ok tt);
  drop_memory s _ := Ok s;
  reset_memory s := s;
|}.

Definition CLARITY_MEMORY_LIMIT : Z := 100 * 1000 * 1000.

Record LimitedCostTracker := mkTracker {
  total : ExecutionCost;
  limit : ExecutionCost;
  memory : Z;
  memory_limit : Z;
}.

Definition LimitedCostTracker_new (limit : ExecutionCost) : LimitedCostTracker :=
  mkTracker ExecutionCost_zero limit 0 CLARITY_MEMORY_LIMIT.
Definition LimitedCostTracker_new_max_limit : LimitedCostTracker :=
  mkTracker ExecutionCost_zero ExecutionCost_max_value 0 CLARITY_MEMORY_LIMIT.

Definition limited_add_cost (s : LimitedCostTracker) (cost : ExecutionCost)
  : LimitedCostTracker * Res CostErrors unit :=
  let '(t, r) := ExecutionCost_add (total s) cost in
  let s := mkTracker t (limit s) (memory s) (memory_limit s) in
  match r with
  | Ok _ => if exceeds t (limit s) then (s, Err (CostBalanceExceeded t (limit s))) else (s, Ok tt)
  | e => (s, e)
  end.

Definition limited_add_memory (s : LimitedCostTracker) (mem : Z)
  : LimitedCostTracker * Res CostErrors unit :=
  match cost_overflow_add (memory s) mem with
  | Ok m =>
    let s := mkTracker (total s) (limit s) m (memory_limit s) in
    if memory_limit s <? m then (s, Err (MemoryBalanceExceeded m (memory_limit s))) else (s, Ok tt)
  | Err e => (s, Err e)
  | Panic => (s, Panic)
  end.

Definition limited_drop_memory (s : LimitedCostTracker) (mem : Z) : Res Empty_set LimitedCostTracker :=
  m ← expect_opt (checked_sub 64 (memory s) mem);
  Ok (mkTracker (total s) (limit s) m (memory_limit s)).

Definition limited_reset_memory (s : LimitedCostTracker) : LimitedCostTracker :=
  mkTracker (total s) (limit s) 0 (memory_limit s).

#[global] Instance limited_tracker : CostTracker LimitedCostTracker := {|
  add_cost := limited_add_cost;
  add_memory := limited_add_memory;
  drop_memory := limited_drop_memory;
  reset_memory := limited_reset_memory;
|}.

(** The macro [def_runtime_cost]. *)
Definition runtime_spec (f : CostFunctions) : SimpleCostSpecification :=
  mkSpec (Constant 0) (Constant 0) (Constant 0) (Constant 0) f.

(** * The table of src/vm/costs/cost_functions.rs *)

Module cost_functions.
Definition ANALYSIS_TYPE_ANNOTATE := runtime_spec (Linear 1 1).
Definition ANALYSIS_TYPE_CHECK := runtime_spec (Linear 1 1).
Definition ANALYSIS_TYPE_LOOKUP := runtime_spec (Linear 1 1).
Definition ANALYSIS_VISIT := runtime_spec (Constant 1).
Definition ANALYSIS_ITERABLE_FUNC := runtime_spec (Constant 1).
Definition ANALYSIS_OPTION_CONS := runtime_spec (Constant 1).
Definition ANALYSIS_OPTION_CHECK := runtime_spec (Constant 1).
Definition ANALYSIS_BIND_NAME := runtime_spec (Linear 1 1).
Definition ANALYSIS_LIST_ITEMS_CHECK := runtime_spec (Linear 1 1).
Definition ANALYSIS_CHECK_TUPLE_GET := runtime_spec (LogN 1 1).
Definition ANALYSIS_CHECK_TUPLE_CONS := runtime_spec (NLogN 1 1).
Definition ANALYSIS_TUPLE_ITEMS_CHECK := runtime_spec (Linear 1 1).
Definition ANALYSIS_CHECK_LET := runtime_spec (Linear 1 1).
Definition ANALYSIS_LOOKUP_FUNCTION := runtime_spec (Constant 1).
Definition ANALYSIS_LOOKUP_FUNCTION_TYPES := runtime_spec (Linear 1 1).
Definition ANALYSIS_LOOKUP_VARIABLE_CONST := runtime_spec (Constant 1).
Definition ANALYSIS_LOOKUP_VARIABLE_DEPTH := runtime_spec (NLogN 1 1).
Definition AST_PARSE := runtime_spec (Linear 1 1).
Definition AST_CYCLE_DETECTION := runtime_spec (Linear 1 1).
Definition ANALYSIS_STORAGE := mkSpec (Constant 1) (Linear 1 1) (Constant 1) (Constant 1) (Linear 1 1).
Definition ANALYSIS_USE_TRAIT_ENTRY := mkSpec (Constant 0) (Linear 1 1) (Constant 1) (Linear 1 1) (Linear 1 1).
Definition ANALYSIS_GET_FUNCTION_ENTRY := mkSpec (Constant 0) (Constant 0) (Constant 1) (Linear 1 1) (Linear 1 1).
Definition ANALYSIS_FETCH_CONTRACT_ENTRY := mkSpec (Constant 0) (Constant 0) (Constant 1) (Linear 1 1) (Linear 1 1).
Definition LOOKUP_VARIABLE_DEPTH := runtime_spec (Linear 1 1).
Definition LOOKUP_VARIABLE_SIZE := runtime_spec (Linear 1 0).
Definition LOOKUP_FUNCTION := runtime_spec (Constant 1).
Definition BIND_NAME := runtime_spec (Constant 1).
Definition INNER_TYPE_CHECK_COST := runtime_spec (Linear 1 1).
Definition USER_FUNCTION_APPLICATION := runtime_spec (Linear 1 1).
Definition LET := runtime_spec (Linear 1 1).
Definition IF := runtime_spec (Constant 1).
Definition ASSERTS := runtime_spec (Constant 1).
Definition MAP := runtime_spec (Constant 1).
Definition FILTER := runtime_spec (Constant 1).
Definition LEN := runtime_spec (Constant 1).
Definition FOLD := runtime_spec (Constant 1).
Definition LIST_CONS := runtime_spec (Linear 1 1).
Definition TYPE_PARSE_STEP := runtime_spec (Constant 1).
Definition DATA_HASH_COST := runtime_spec (Linear 1 1).
Definition TUPLE_GET := runtime_spec (NLogN 1 1).
Definition TUPLE_CONS := runtime_spec (NLogN 1 1).
Definition ADD := runtime_spec (Linear 1 1).
Definition SUB := runtime_spec (Linear 1 1).
Definition MUL := runtime_spec (Linear 1 1).
Definition DIV := runtime_spec (Linear 1 1).
Definition GEQ := runtime_spec (Constant 1).
Definition LEQ := runtime_spec (Constant 1).
Definition LE := runtime_spec (Constant 1).
Definition GE := runtime_spec (Constant 1).
Definition INT_CAST := runtime_spec (Constant 1).
Definition MOD := runtime_spec (Constant 1).
Definition POW := runtime_spec (Constant 1).
Definition XOR := runtime_spec (Constant 1).
Definition NOT := runtime_spec (Constant 1).
Definition EQ := runtime_spec (Linear 1 1).
Definition BEGIN := runtime_spec (Constant 1).
Definition HASH160 := runtime_spec (Constant 1).
Definition SHA256 := runtime_spec (Constant 1).
Definition SHA512 := runtime_spec (Constant 1).
Definition SHA512T256 := runtime_spec (Constant 1).
Definition KECCAK256 := runtime_spec (Constant 1).
Definition PRINT := runtime_spec (Linear 1 1).
Definition SOME_CONS := runtime_spec (Constant 1).
Definition OK_CONS := runtime_spec (Constant 1).
Definition ERR_CONS := runtime_spec (Constant 1).
Definition DEFAULT_TO := runtime_spec (Constant 1).
Definition UNWRAP_RET := runtime_spec (Constant 1).
Definition UNWRAP_ERR_OR_RET := runtime_spec (Constant 1).
Definition IS_OKAY := runtime_spec (Constant 1).
Definition IS_NONE := runtime_spec (Constant 1).
Definition IS_ERR := runtime_spec (Constant 1).
Definition IS_SOME := runtime_spec (Constant 1).
Definition UNWRAP := runtime_spec (Constant 1).
Definition UNWRAP_ERR := runtime_spec (Constant 1).
Definition TRY_RET := runtime_spec (Constant 1).
Definition MATCH := runtime_spec (Constant 1).
Definition OR := runtime_spec (Linear 1 1).
Definition AND := runtime_spec (Linear 1 1).
Definition APPEND := runtime_spec (Linear 1 1).
Definition CONCAT := runtime_spec (Linear 1 1).
Definition AS_MAX_LEN := runtime_spec (Constant 1).
Definition CONTRACT_CALL := runtime_spec (Constant 1).
Definition AT_BLOCK := mkSpec (Constant 0) (Constant 0) (Constant 1) (Constant 1) (Constant 1).
Definition LOAD_CONTRACT := mkSpec (Constant 0) (Constant 0) (Constant 1) (Linear 1 1) (Linear 1 1).
Definition CREATE_MAP := mkSpec (Constant 1) (Linear 1 1) (Constant 0) (Constant 0) (Linear 1 1).
Definition CREATE_VAR := mkSpec (Constant 2) (Linear 1 1) (Constant 0) (Constant 0) (Linear 1 1).
Definition CREATE_NFT := mkSpec (Constant 1) (Linear 1 1) (Constant 0) (Constant 0) (Linear 1 1).
Definition CREATE_FT := mkSpec (Constant 2) (Constant 1) (Constant 0) (Constant 0) (Constant 1).
Definition FETCH_ENTRY := mkSpec (Constant 0) (Constant 0) (Constant 1) (Linear 1 1) (Linear 1 1).
Definition SET_ENTRY := mkSpec (Constant 1) (Linear 1 1) (Constant 1) (Constant 0) (Linear 1 1).
Definition FETCH_VAR := mkSpec (Constant 0) (Constant 0) (Constant 1) (Linear 1 1) (Linear 1 1).
Definition SET_VAR := mkSpec (Constant 1) (Linear 1 1) (Constant 1) (Constant 0) (Linear 1 1).
Definition CONTRACT_STORAGE := mkSpec (Constant 1) (Linear 1 1) (Constant 0) (Constant 0) (Linear 1 1).
Definition BLOCK_INFO := mkSpec (Constant 0) (Constant 0) (Constant 1) (Constant 1) (Constant 1).
Definition STX_TRANSFER := mkSpec (Constant 1) (Constant 1) (Constant 1) (Constant 1) (Constant 1).
Definition FT_MINT := mkSpec (Constant 2) (Constant 1) (Constant 2) (Constant 1) (Constant 1).
Definition FT_TRANSFER := mkSpec (Constant 2) (Constant 1) (Constant 2) (Constant 1) (Constant 1).
Definition FT_BALANCE := mkSpec (Constant 0) (Constant 0) (Constant 1) (Constant 1) (Constant 1).
Definition NFT_MINT := mkSpec (Constant 1) (Constant 1) (Constant 1) (Constant 1) (Linear 1 1).
Definition NFT_TRANSFER := mkSpec (Constant 1) (Constant 1) (Constant 1) (Constant 1) (Linear 1 1).
Definition NFT_OWNER := mkSpec (Constant 0) (Constant 0) (Constant 1) (Constant 1) (Linear 1 1).

(** Every entry of the table, in three parts: the analysis of contracts, the
    evaluation of expressions, and what reads or writes the store. *)
Definition analysis_table : list SimpleCostSpecification :=
  [ANALYSIS_TYPE_ANNOTATE; ANALYSIS_TYPE_CHECK; ANALYSIS_TYPE_LOOKUP; ANALYSIS_VISIT; ANALYSIS_ITERABLE_FUNC;
   ANALYSIS_OPTION_CONS; ANALYSIS_OPTION_CHECK; ANALYSIS_BIND_NAME; ANALYSIS_LIST_ITEMS_CHECK;
   ANALYSIS_CHECK_TUPLE_GET; ANALYSIS_CHECK_TUPLE_CONS; ANALYSIS_TUPLE_ITEMS_CHECK; ANALYSIS_CHECK_LET;
   ANALYSIS_LOOKUP_FUNCTION; ANALYSIS_LOOKUP_FUNCTION_TYPES; ANALYSIS_LOOKUP_VARIABLE_CONST;
   ANALYSIS_LOOKUP_VARIABLE_DEPTH; AST_PARSE; AST_CYCLE_DETECTION; ANALYSIS_STORAGE; ANALYSIS_USE_TRAIT_ENTRY;
   ANALYSIS_GET_FUNCTION_ENTRY; ANALYSIS_FETCH_CONTRACT_ENTRY].
Definition evaluation_table : list SimpleCostSpecification :=
  [LOOKUP_VARIABLE_DEPTH; LOOKUP_VARIABLE_SIZE; LOOKUP_FUNCTION; BIND_NAME; INNER_TYPE_CHECK_COST;
   USER_FUNCTION_APPLICATION; LET; IF; ASSERTS; MAP; FILTER; LEN; FOLD; LIST_CONS; TYPE_PARSE_STEP;
   DATA_HASH_COST; TUPLE_GET; TUPLE_CONS; ADD; SUB; MUL; DIV; GEQ; LEQ; LE; GE; INT_CAST; MOD; POW; XOR; NOT;
   EQ; BEGIN; HASH160; SHA256; SHA512; SHA512T256; KECCAK256; PRINT; SOME_CONS; OK_CONS; ERR_CONS; DEFAULT_TO;
   UNWRAP_RET; UNWRAP_ERR_OR_RET; IS_OKAY; IS_NONE; IS_ERR; IS_SOME; UNWRAP; UNWRAP_ERR; TRY_RET; MATCH; OR;
   AND; APPEND; CONCAT; AS_MAX_LEN; CONTRACT_CALL].
Definition storage_table : list SimpleCostSpecification :=
  [AT_BLOCK; LOAD_CONTRACT; CREATE_MAP; CREATE_VAR; CREATE_NFT; CREATE_FT; FETCH_ENTRY; SET_ENTRY; FETCH_VAR;
   SET_VAR; CONTRACT_STORAGE; BLOCK_INFO; STX_TRANSFER; FT_MINT; FT_TRANSFER; FT_BALANCE; NFT_MINT;
   NFT_TRANSFER; NFT_OWNER].
Definition all : list SimpleCostSpecification := analysis_table ++ evaluation_table ++ storage_table.
End cost_functions.

(** The macro [runtime_cost]. *)
Definition runtime_cost {T} `{CostTracker T} (spec : SimpleCostSpecification) (env : T) (input : Z)
  : T * Res CostErrors unit :=
  match (i ← ok_or (checked_u 64 input) CostOverflow; spec_compute_cost spec i) with
  | Ok cost => add_cost env cost
  | Err e => (env, Err e)
  | Panic => (env, Panic)
  end.

(** [analysis_typecheck_cost] and [TypeCheckCost::compute_cost]. *)
Definition analysis_typecheck_cost {T} `{CostTracker T} (track : T) (t1 t2 : TypeSignature)
  : T * Res CostErrors unit :=
  match (s1 ← map_err (fun _ => CostOverflow) (type_size t1);
         s2 ← map_err (fun _ => CostOverflow) (type_size t2);
         spec_compute_cost cost_functions.ANALYSIS_TYPE_CHECK (Z.max s1 s2)) with
  | Ok cost => add_cost track cost
  | Err e => (track, Err e)
  | Panic => (track, Panic)
  end.

Definition TypeCheckCost_compute_cost (t : TypeSignature) : Res CostErrors ExecutionCost :=
  s ← size t;
  spec_compute_cost cost_functions.INNER_TYPE_CHECK_COST s.

(** The macro [finally_drop_memory]: the memory is dropped whatever the result. *)
Definition finally_drop_memory {T R} `{CostTracker T} (env : T) (used_mem : Z)
    (exec : T -> Res Empty_set (T * R)) : Res Empty_set (T * R) :=
  '(env, result) ← exec env;
  env ← drop_memory env used_mem;
  Ok (env, result).

(** [MemoryConsumer] for values. *)
Definition get_memory_use {E} (v : Value) : Res E Z := value_size v.
