(* ===== verification/CostFacts.v ===== *)
(** Facts about execution costs: the cost functions compute the formulas they
    stand for or report an overflow, and a tracker accepts a sequence of charges
    exactly if their sum is within its limit. *)
From stdpp Require Import base strings numbers list.
From Stdlib Require Import ZArith Lia.
From S2P Require Import Prelude Types Costs.
#[local] Open Scope Z_scope.

(** * Logarithms *)

Lemma pos_trailing_zeros_spec p :
  0 <= pos_trailing_zeros p /\ exists q, Zpos p = (2 * q + 1) * 2 ^ pos_trailing_zeros p /\ 0 <= q.
Proof.
  induction p as [p [IH1 (q & IH2 & IH3)]|p [IH1 (q & IH2 & IH3)]|]; cbn [pos_trailing_zeros].
  - split; [lia|]. exists (Zpos p). lia.
  - split; [lia|]. exists q. split; [|done]. rewrite Z.pow_add_r, Pos2Z.inj_xO, IH2 by lia. lia.
  - split; [lia|]. exists 0. lia.
Qed.

Lemma trailing_zeros_log2 n : 0 < n -> trailing_zeros n = Z.log2 n <-> exists b, n = 2 ^ b /\ 0 <= b.
Proof.
  intros Hn. destruct n as [|p|p]; try lia. cbn [trailing_zeros].
  destruct (pos_trailing_zeros_spec p) as (H0 & q & Hq & Hq0). split.
  - intros E. exists (Z.log2 (Zpos p)). split; [|apply Z.log2_nonneg].
    pose proof (Z.log2_spec (Zpos p) Hn) as [H1 H2]. rewrite Z.pow_succ_r in H2 by apply Z.log2_nonneg.
    rewrite E in Hq. pose proof (Z.pow_pos_nonneg 2 (Z.log2 (Zpos p)) ltac:(lia) (Z.log2_nonneg _)).
    assert (q = 0) as -> by nia. lia.
  - intros (b & Hb & Hb0). rewrite Hb, Z.log2_pow2 by done. rewrite Hb in Hq.
    destruct (Z.lt_trichotomy (pos_trailing_zeros p) b) as [Hlt|[|Hlt]]; [|done|].
    + replace b with (pos_trailing_zeros p + (1 + (b - pos_trailing_zeros p - 1))) in Hq by lia.
      rewrite !Z.pow_add_r in Hq by lia.
      pose proof (Z.pow_pos_nonneg 2 (pos_trailing_zeros p) ltac:(lia) H0).
      rewrite (Z.mul_comm (2 * q + 1)) in Hq. apply Z.mul_cancel_l in Hq; lia.
    + replace (pos_trailing_zeros p) with (b + (pos_trailing_zeros p - b)) in Hq by lia.
      rewrite Z.pow_add_r in Hq by lia. pose proof (Z.pow_pos_nonneg 2 b ltac:(lia) Hb0).
      pose proof (Z.pow_gt_1 2 (pos_trailing_zeros p - b) ltac:(lia)) as [Hp _]. specialize (Hp ltac:(lia)). nia.
Qed.

Lemma int_log2_up n : 1 <= n < 2 ^ 64 -> int_log2 n = Some (Z.log2_up n).
Proof.
  intros Hn. unfold int_log2, leading_zeros. rewrite (proj2 (Z.eqb_neq n 0)) by lia.
  assert (0 <= Z.log2 n < 64).
  { split; [apply Z.log2_nonneg|]. apply Z.log2_lt_pow2; lia. }
  assert (checked_sub 32 63 (63 - Z.log2 n) = Some (Z.log2 n)) as ->.
  { apply checked_sub_Some. split; [lia|]. unfold in_u. lia. }
  cbn. f_equal. pose proof (trailing_zeros_log2 n ltac:(lia)) as Ht.
  pose proof (Z.log2_log2_up_exact n ltac:(lia)) as He. pose proof (Z.le_log2_up_succ_log2 n).
  pose proof (Z.le_log2_log2_up n).
  destruct (Z.eqb_spec (trailing_zeros n) (Z.log2 n)) as [E|E].
  - apply Ht in E as (b & Hb & _). apply He. by exists b.
  - assert (Z.log2 n <> Z.log2_up n) as Hne; [|lia]. intros E'. apply He in E' as (b & Hb).
    apply E, Ht. exists b. split; [done|]. destruct (Z.le_gt_cases 0 b); [done|].
    rewrite Hb, Z.pow_neg_r in Hn by lia. lia.
Qed.

(** * The formulas of the cost functions *)

Definition math_cost (f : CostFunctions) (n : Z) : Z :=
  match f with
  | Constant v => v
  | Linear a b => a * n + b
  | LogN a b => Z.log2_up (Z.max n 1) * a + b
  | NLogN a b => Z.log2_up (Z.max n 1) * n * a + b
  end.

(** Coefficients are [u64]; the slope of a cost that grows is positive. *)
Definition coefficients_ok (f : CostFunctions) : Prop :=
  match f with
  | Constant v => in_u 64 v
  | Linear a b | LogN a b | NLogN a b => 0 < a < 2 ^ 64 /\ in_u 64 b
  end.

Lemma cost_mul a b : 0 <= a * b -> cost_overflow_mul a b = if a * b <? 2 ^ 64 then Ok (a * b) else Err CostOverflow.
Proof.
  intros H. unfold cost_overflow_mul, checked_mul, checked_u, in_u.
  destruct (Z.ltb_spec (a * b) (2 ^ 64)); [rewrite decide_True by lia|rewrite decide_False by lia]; done.
Qed.

Lemma cost_add a b : 0 <= a + b -> cost_overflow_add a b = if a + b <? 2 ^ 64 then Ok (a + b) else Err CostOverflow.
Proof.
  intros H. unfold cost_overflow_add, checked_add, checked_u, in_u.
  destruct (Z.ltb_spec (a + b) (2 ^ 64)); [rewrite decide_True by lia|rewrite decide_False by lia]; done.
Qed.

Lemma cost_mul_add a x b :
  0 <= a -> 0 <= x -> in_u 64 b ->
  (y ← cost_overflow_mul x a; cost_overflow_add y b) =
  if x * a + b <? 2 ^ 64 then Ok (x * a + b) else Err CostOverflow.
Proof.
  unfold in_u. intros Ha Hx Hb. rewrite cost_mul by nia. destruct (Z.ltb_spec (x * a) (2 ^ 64)); cbn.
  - rewrite cost_add by nia. done.
  - destruct (Z.ltb_spec (x * a + b) (2 ^ 64)); [nia|done].
Qed.

Lemma compute_cost_math f n :
  coefficients_ok f -> in_u 64 n ->
  compute_cost f n = if math_cost f n <? 2 ^ 64 then Ok (math_cost f n) else Err CostOverflow.
Proof.
  intros Hf Hn. unfold in_u in Hn.
  assert (int_log2 (Z.max n 1) = Some (Z.log2_up (Z.max n 1))) as Hl by (apply int_log2_up; lia).
  pose proof (Z.log2_up_nonneg (Z.max n 1)) as Hnn. destruct f as [v|a b|a b|a b]; cbn [compute_cost math_cost coefficients_ok] in *.
  - unfold in_u in Hf. by rewrite (proj2 (Z.ltb_lt _ _)) by lia.
  - destruct Hf as [Ha Hb]. unfold cost_overflow_mul, checked_mul. rewrite (Z.mul_comm a n).
    apply (cost_mul_add a n b); [lia|lia|done].
  - destruct Hf as [Ha Hb]. rewrite Hl. cbn [ok_or mbind res_bind]. set (l := Z.log2_up (Z.max n 1)) in *.
    rewrite cost_mul by nia. unfold in_u in Hb. destruct (Z.ltb_spec (l * n) (2 ^ 64)); cbn [mbind res_bind].
    + apply cost_mul_add; [lia|nia|done].
    + destruct (Z.ltb_spec (l * n * a + b) (2 ^ 64)); [nia|done].
  - destruct Hf as [Ha Hb]. rewrite Hl. cbn [ok_or mbind res_bind]. apply cost_mul_add; [lia|lia|done].
Qed.

(** * Vectors of costs *)

Definition cost_sum (a b : ExecutionCost) : ExecutionCost :=
  mkCost (write_length a + write_length b) (write_count a + write_count b)
         (read_length a + read_length b) (read_count a + read_count b) (runtime a + runtime b).

(** [a] is within [b] in every dimension. *)
Definition cost_le (a b : ExecutionCost) : Prop :=
  write_length a <= write_length b /\ write_count a <= write_count b /\
  read_length a <= read_length b /\ read_count a <= read_count b /\ runtime a <= runtime b.

Definition cost_ok (c : ExecutionCost) : Prop :=
  cost_le ExecutionCost_zero c /\ cost_le c ExecutionCost_max_value.

Lemma exceeds_false a b : exceeds a b = false <-> cost_le a b.
Proof. unfold exceeds, cost_le. rewrite !orb_false_iff, !Z.ltb_ge. tauto. Qed.

#[global] Instance cost_le_dec a b : Decision (cost_le a b).
Proof. unfold cost_le. apply _. Defined.

(** [add] adds in every dimension, or reports an overflow. *)
Lemma ExecutionCost_add_spec a b :
  cost_ok a -> cost_ok b ->
  if decide (cost_le (cost_sum a b) ExecutionCost_max_value)
  then ExecutionCost_add a b = (cost_sum a b, Ok tt)
  else exists c, ExecutionCost_add a b = (c, Err CostOverflow).
Proof.
  destruct a as [a1 a2 a3 a4 a5], b as [b1 b2 b3 b4 b5]. unfold cost_ok, cost_le, cost_sum, u64_max; cbn.
  unfold u64_max. intros [Ha _] [Hb _].
  case_decide as Hle; unfold ExecutionCost_add, update_cost, update_field; cbn;
    repeat (rewrite cost_add by lia; cbn);
    repeat match goal with |- context [?x <? 2 ^ 64] => destruct (Z.ltb_spec x (2 ^ 64)); cbn end; eauto; lia.
Qed.

(** * Trackers *)

Definition tracker_ok (s : LimitedCostTracker) : Prop :=
  cost_le ExecutionCost_zero (total s) /\ cost_le (total s) (limit s) /\ cost_ok (limit s) /\
  0 <= memory s <= memory_limit s /\ in_u 64 (memory_limit s).

Lemma cost_le_trans a b c : cost_le a b -> cost_le b c -> cost_le a c.
Proof. unfold cost_le. lia. Qed.

(** One charge succeeds exactly if the new total is within the limit. *)
Lemma add_cost_spec s c :
  tracker_ok s -> cost_ok c ->
  if decide (cost_le (cost_sum (total s) c) (limit s))
  then add_cost s c = (mkTracker (cost_sum (total s) c) (limit s) (memory s) (memory_limit s), Ok tt)
  else exists s' e, add_cost s c = (s', Err e) /\
    (e = CostOverflow \/ e = CostBalanceExceeded (cost_sum (total s) c) (limit s)).
Proof.
  intros (H0 & Hle & Hlim & _) Hc. assert (cost_ok (total s)) as Ht.
  { split; [done|]. eapply cost_le_trans; [exact Hle|apply Hlim]. }
  pose proof (ExecutionCost_add_spec _ _ Ht Hc) as Hadd. cbn [add_cost limited_tracker]. unfold limited_add_cost.
  destruct (decide (cost_le (cost_sum (total s) c) (limit s))) as [Hs|Hs].
  - rewrite decide_True in Hadd by (eapply cost_le_trans; [exact Hs|apply Hlim]). rewrite Hadd. cbn.
    by rewrite (proj2 (exceeds_false _ _)).
  - destruct (decide _) as [Hm|Hm] in Hadd.
    + rewrite Hadd. cbn. destruct (exceeds _ _) eqn:E; [|by apply exceeds_false in E]. eauto.
    + destruct Hadd as (t & ->). cbn. eauto.
Qed.

Lemma tracker_ok_charge s c :
  tracker_ok s -> cost_ok c -> cost_le (cost_sum (total s) c) (limit s) ->
  tracker_ok (mkTracker (cost_sum (total s) c) (limit s) (memory s) (memory_limit s)).
Proof.
  unfold tracker_ok, cost_ok. cbn [total limit memory memory_limit].
  intros (H0 & _ & Hl & Hm) [Hc _] Hle. split; [|done]. unfold cost_le, cost_sum in *; cbn in *; lia.
Qed.

(** Charging in sequence, as a run of [?] on [add_cost] does. *)
Fixpoint charge_all {T} `{CostTracker T} (s : T) (costs : list ExecutionCost) : T * Res CostErrors unit :=
  match costs with
  | [] => (s, Ok tt)
  | c :: costs =>
    match add_cost s c with
    | (s', Ok _) => charge_all s' costs
    | r => r
    end
  end.

Definition cost_total (costs : list ExecutionCost) : ExecutionCost := foldr cost_sum ExecutionCost_zero costs.

Lemma cost_sum_zero a : cost_sum a ExecutionCost_zero = a.
Proof. destruct a. unfold cost_sum; cbn. f_equal; lia. Qed.

Lemma cost_sum_assoc a b c : cost_sum (cost_sum a b) c = cost_sum a (cost_sum b c).
Proof. unfold cost_sum; cbn. f_equal; lia. Qed.

Lemma cost_total_nonneg costs : Forall cost_ok costs -> cost_le ExecutionCost_zero (cost_total costs).
Proof.
  induction 1 as [|c costs [Hc _] _ IH]; cbn [cost_total foldr]; [unfold cost_le; lia|].
  fold (cost_total costs). unfold cost_le, cost_sum in *; cbn in *. lia.
Qed.

Lemma charge_all_spec costs s :
  tracker_ok s -> Forall cost_ok costs ->
  if decide (cost_le (cost_sum (total s) (cost_total costs)) (limit s))
  then charge_all s costs =
    (mkTracker (cost_sum (total s) (cost_total costs)) (limit s) (memory s) (memory_limit s), Ok tt)
  else exists s' e, charge_all s costs = (s', Err e).
Proof.
  revert s; induction costs as [|c costs IH]; intros s Hs Hcs.
  { cbn [cost_total foldr charge_all]. rewrite cost_sum_zero. rewrite decide_True by apply Hs. by destruct s. }
  apply Forall_cons_1 in Hcs as [Hc Hcs]. cbn [charge_all cost_total foldr]. fold (cost_total costs).
  pose proof (add_cost_spec s c Hs Hc) as Hadd. pose proof (cost_total_nonneg costs Hcs) as Hnn.
  destruct (decide (cost_le (cost_sum (total s) (cost_sum c (cost_total costs))) (limit s))) as [Hle|Hle].
  - assert (cost_le (cost_sum (total s) c) (limit s)) as Hle1.
    { unfold cost_le, cost_sum in *; cbn in *; lia. }
    rewrite decide_True in Hadd by done. rewrite Hadd.
    pose proof (tracker_ok_charge s c Hs Hc Hle1) as Hs'.
    specialize (IH _ Hs' Hcs). cbn [total limit memory memory_limit] in IH.
    rewrite cost_sum_assoc in IH. by rewrite decide_True in IH.
  - destruct (decide _) as [Hle1|Hle1] in Hadd; [|destruct Hadd as (s' & e & -> & _); eauto]. rewrite Hadd.
    pose proof (tracker_ok_charge s c Hs Hc Hle1) as Hs'.
    specialize (IH _ Hs' Hcs). cbn [total limit memory memory_limit] in IH.
    rewrite cost_sum_assoc in IH. by rewrite decide_False in IH.
Qed.

(** * The table *)

(** The coefficients that occur in the table. *)
Definition small_function (f : CostFunctions) : bool :=
  match f with
  | Constant v => (0 <=? v) && (v <=? 2)
  | Linear a b | LogN a b | NLogN a b => (a =? 1) && (0 <=? b) && (b <=? 1)
  end.
Definition small_spec (s : SimpleCostSpecification) : bool :=
  small_function (spec_write_count s) && small_function (spec_write_length s)
  && small_function (spec_read_count s) && small_function (spec_read_length s)
  && small_function (spec_runtime s).

Lemma log2_up_small n : 0 <= n < 2 ^ 57 -> 0 <= Z.log2_up (Z.max n 1) <= 57.
Proof.
  intros Hn. split; [apply Z.log2_up_nonneg|]. apply Z.log2_up_le_pow2; lia.
Qed.

Lemma small_function_cost f n :
  small_function f = true -> 0 <= n < 2 ^ 57 -> exists v, compute_cost f n = Ok v /\ 0 <= v < 2 ^ 64.
Proof.
  intros Hf Hn. assert (coefficients_ok f) as Hc.
  { destruct f; cbn in *; unfold in_u; lia. }
  rewrite compute_cost_math by (done || unfold in_u; lia).
  assert (0 <= math_cost f n < 2 ^ 64) as Hm.
  { pose proof (log2_up_small n Hn). destruct f as [v|a b|a b|a b]; cbn in *; try lia.
    assert (a = 1 /\ 0 <= b <= 1) as [-> ?] by lia. nia. }
  rewrite (proj2 (Z.ltb_lt _ _)) by lia. eauto.
Qed.

Lemma small_spec_cost s n :
  small_spec s = true -> 0 <= n < 2 ^ 57 -> exists c, spec_compute_cost s n = Ok c /\ cost_ok c.
Proof.
  unfold small_spec, spec_compute_cost. rewrite !andb_true_iff. intros [[[[H1 H2] H3] H4] H5] Hn.
  destruct (small_function_cost _ n H1 Hn) as (v1 & E1 & ?). destruct (small_function_cost _ n H2 Hn) as (v2 & E2 & ?).
  destruct (small_function_cost _ n H3 Hn) as (v3 & E3 & ?). destruct (small_function_cost _ n H4 Hn) as (v4 & E4 & ?).
  destruct (small_function_cost _ n H5 Hn) as (v5 & E5 & ?). rewrite E1, E2, E3, E4, E5. cbn.
  eexists; split; [done|]. unfold cost_ok, cost_le, ExecutionCost_max_value, u64_max; cbn. lia.
Qed.

(** * Memory *)

Lemma add_memory_spec s m :
  tracker_ok s -> 0 <= m < 2 ^ 64 ->
  if decide (memory s + m <= memory_limit s)
  then add_memory s m = (mkTracker (total s) (limit s) (memory s + m) (memory_limit s), Ok tt)
  else exists s' e, add_memory s m = (s', Err e).
Proof.
  intros (_ & _ & _ & Hm & Hl) H. unfold in_u in Hl. cbn. unfold limited_add_memory. rewrite cost_add by lia.
  destruct (Z.ltb_spec (memory s + m) (2 ^ 64)).
  - cbn [memory_limit]. destruct (Z.ltb_spec (memory_limit s) (memory s + m)).
    + rewrite decide_False by lia. eauto.
    + by rewrite decide_True by lia.
  - rewrite decide_False by lia. eauto.
Qed.

(** * Properties *)

(** Each cost function computes its formula ([a*n+b], [a*log2(n)+b] with the
    logarithm rounded up, [a*n*log2(n)+b]) and reports an overflow exactly if the
    value does not fit 64 bits. *)
Theorem cost_function_formula f n :
  coefficients_ok f -> in_u 64 n ->
  compute_cost f n = if math_cost f n <? 2 ^ 64 then Ok (math_cost f n) else Err CostOverflow.
Proof. apply compute_cost_math. Qed.

(** A tracker accepts a sequence of charges exactly if the sum of all of them,
    added to what was spent, is within the limit in each of the five dimensions;
    the total it then records is that sum. *)
Theorem charges_within_limit s costs :
  tracker_ok s -> Forall cost_ok costs ->
  if decide (cost_le (cost_sum (total s) (cost_total costs)) (limit s))
  then charge_all s costs =
    (mkTracker (cost_sum (total s) (cost_total costs)) (limit s) (memory s) (memory_limit s), Ok tt)
  else exists s' e, charge_all s costs = (s', Err e).
Proof. apply charge_all_spec. Qed.


(** No entry of the cost table overflows on an input below 2^57, far above
    every size the interpreter charges for. *)
Theorem cost_table_total :
  Forall (fun spec => forall n, 0 <= n < 2 ^ 57 -> exists c, spec_compute_cost spec n = Ok c /\ cost_ok c)
    cost_functions.all.
Proof.
  assert (Forall (fun spec => small_spec spec = true) cost_functions.all) as H.
  { apply List.Forall_forall. intros s Hs. by apply (proj1 (forallb_forall small_spec cost_functions.all) eq_refl). }
  eapply Forall_impl; [exact H|]. intros s Hs n Hn. by apply small_spec_cost.
Qed.

(** Charging memory around code that leaves the memory count as it found it
    restores the count, and dropping the memory does not panic, whatever the code
    returns. *)
Theorem memory_bracket {R} (s s1 : LimitedCostTracker) m (exec : LimitedCostTracker -> Res Empty_set (LimitedCostTracker * R))
    s2 r :
  tracker_ok s -> 0 <= m < 2 ^ 64 -> add_memory s m = (s1, Ok tt) ->
  exec s1 = Ok (s2, r) -> memory s2 = memory s1 ->
  exists s3, finally_drop_memory s1 m exec = Ok (s3, r) /\ memory s3 = memory s /\ total s3 = total s2.
Proof.
  intros Hs Hm Ha He Hmem. pose proof (add_memory_spec s m Hs Hm) as Hadd.
  case_decide; [|destruct Hadd as (? & ? & ?); congruence]. 
  assert (memory s1 = memory s + m) as H1 by (rewrite Hadd in Ha; by injection Ha as <-).
  destruct Hs as (_ & _ & _ & ? & Hl). unfold in_u in Hl.
  unfold finally_drop_memory. rewrite He. cbn. unfold limited_drop_memory.
  assert (checked_sub 64 (memory s2) m = Some (memory s)) as ->.
  { apply checked_sub_Some. split; [lia|]. unfold in_u. lia. }
  eexists; split; [done|done].
Qed.

Lemma memory_bracket_witness :
  exists s3, finally_drop_memory (fst (add_memory LimitedCostTracker_new_max_limit 500)) 500
      (fun s => Ok (s, Ok (E := CostErrors) 1)) = Ok (s3, Ok 1) /\
    memory s3 = memory LimitedCostTracker_new_max_limit /\
    total s3 = total (fst (add_memory LimitedCostTracker_new_max_limit 500)).
Proof.
  apply (memory_bracket LimitedCostTracker_new_max_limit); try reflexivity; [|lia].
  unfold tracker_ok, cost_ok, cost_le, in_u; cbn; unfold u64_max, CLARITY_MEMORY_LIMIT; lia.
Defined.
