(* ===== verification/ClarityDatabase.v ===== *)
(** The typed database of the VM: src/vm/database/clarity_db.rs and
    src/vm/database/structures.rs, over the edit log.

    A method returns its result with the log it leaves; where it returns an
    error it has written nothing, so that an error comes without a log. *)
From stdpp Require Import base strings numbers list gmap.
From Stdlib Require Import ZArith Lia.
From S2P Require Import Prelude Names Types Representations TypeFacts Values Serialization C32 RollbackWrapper BackingStore Costs.
#[local] Open Scope Z_scope.

(** * Records kept as text *)

Record FungibleTokenMetadata := mkFT { total_supply : option Z }.
Record NonFungibleTokenMetadata := mkNFT { nft_key_type : TypeSignature }.
Record DataMapMetadata := mkMap { map_key_type : TypeSignature; map_value_type : TypeSignature }.
Record DataVariableMetadata := mkVar { value_type : TypeSignature }.
(** Integers that are stored as such. *)
Record U128 := mkU128 { u128_val : Z }.
Record U64 := mkU64 { u64_val : Z }.

(** What can be stored: the values that the Rust types hold. *)
Class Storable (T : Type) := storable : T -> Prop.
#[global] Instance storable_u128 : Storable U128 := fun x => in_u 128 (u128_val x).
#[global] Instance storable_u64 : Storable U64 := fun x => in_u 64 (u64_val x).
#[global] Instance storable_ft : Storable FungibleTokenMetadata := fun x => forall s, total_supply x = Some s -> in_u 128 s.
#[global] Instance storable_nft : Storable NonFungibleTokenMetadata := fun x => wf_type (nft_key_type x).
#[global] Instance storable_map : Storable DataMapMetadata := fun x => wf_type (map_key_type x) /\ wf_type (map_value_type x).
#[global] Instance storable_var : Storable DataVariableMetadata := fun x => wf_type (value_type x).
#[global] Instance storable_principal : Storable PrincipalData := fun x => principal_ok x = true.

(** [clarity_serializable!]: the crate [serde_json] writes a value that it can
    read back. *)
Class ClaritySerializable (T : Type) `{!Storable T} := {
  json_to_string : T -> string;
  json_from_str : string -> Res Empty_set T;
  json_round_trip : forall x, storable x -> json_from_str (json_to_string x) = Ok x;
}.

(** [Sha512Trunc256Sum::from_data]: 32 bytes. *)
Class Sha512Trunc256 := {
  sha512_256 : list Z -> list Z;
  sha512_256_length : forall data, length (sha512_256 data) = 32%nat;
  sha512_256_u8 : forall data, Forall u8 (sha512_256 data);
}.

(** [HeadersDB]. *)
Class HeadersDB := {
  get_stacks_block_header_hash_for_block : list Z -> option (list Z);
  get_burn_header_hash_for_block : list Z -> option (list Z);
  get_vrf_seed_for_block : list Z -> option (list Z);
  get_burn_block_time_for_block : list Z -> option Z;
  get_miner_address_for_block : list Z -> option StandardPrincipalData;
}.

(** * Keys *)

Inductive StoreType :=
| DataMap | Variable_ | FungibleToken | CirculatingSupply | NonFungibleToken | DataMapMeta | VariableMeta
| FungibleTokenMeta | NonFungibleTokenMeta | ContractMeta | SimmedBlock | SimmedBlockHeight | Nonce | STXBalance.

Definition store_type_u8 (t : StoreType) : Z :=
  match t with
  | DataMap => 0x00 | Variable_ => 0x01 | FungibleToken => 0x02 | CirculatingSupply => 0x03
  | NonFungibleToken => 0x04 | DataMapMeta => 0x05 | VariableMeta => 0x06 | FungibleTokenMeta => 0x07
  | NonFungibleTokenMeta => 0x08 | ContractMeta => 0x09 | SimmedBlock => 0x10 | SimmedBlockHeight => 0x11
  | Nonce => 0x12 | STXBalance => 0x13
  end.

Definition make_metadata_key (data : StoreType) (var_name : string) : string :=
  "vm-metadata::" +:+ fmt_dec (store_type_u8 data) +:+ "::" +:+ var_name.

Section keys.
Context `{!Sha256}.

Definition make_key_for_trip (contract_identifier : QualifiedContractIdentifier) (data : StoreType) (var_name : string)
  : Res Empty_set string :=
  c ← contract_string contract_identifier;
  Ok ("vm::" +:+ c +:+ "::" +:+ fmt_dec (store_type_u8 data) +:+ "::" +:+ var_name).

Definition make_key_for_quad (contract_identifier : QualifiedContractIdentifier) (data : StoreType)
    (var_name key_value : string) : Res Empty_set string :=
  c ← contract_string contract_identifier;
  Ok ("vm::" +:+ c +:+ "::" +:+ fmt_dec (store_type_u8 data) +:+ "::" +:+ var_name +:+ "::" +:+ key_value).

Definition make_key_for_data_map_entry (contract_identifier : QualifiedContractIdentifier) (map_name : string)
    (key_value : Value) : Res Empty_set string :=
  k ← serialize key_value;
  make_key_for_quad contract_identifier DataMap map_name k.

Definition make_key_for_account (principal : PrincipalData) (data : StoreType) : Res Empty_set string :=
  p ← PrincipalData_display principal;
  Ok ("vm-account::" +:+ bytes_string p +:+ "::" +:+ fmt_dec (store_type_u8 data)).
Definition make_key_for_account_balance (principal : PrincipalData) : Res Empty_set string :=
  make_key_for_account principal STXBalance.
Definition make_key_for_account_nonce (principal : PrincipalData) : Res Empty_set string :=
  make_key_for_account principal Nonce.
End keys.

(** * The database *)

Definition Db (S A : Type) : Type := RollbackWrapper S -> Res VmError (A * RollbackWrapper S).
#[global] Instance db_ret S : MRet (Db S) := fun A a w => Ok (a, w).
#[global] Instance db_bind S : MBind (Db S) := fun A B f m w =>
  match m w with
  | Ok (a, w) => f a w
  | Err e => Err e
  | Panic => Panic
  end.
(** A computation that does not touch the log, under [?]. *)
Definition db_lift {S A} (r : Res VmError A) : Db S A := fun w => a ← r; Ok (a, w).
(** A read of the log. *)
Definition db_read {S A} (f : RollbackWrapper S -> Res VmError A) : Db S A := fun w => a ← f w; Ok (a, w).
(** A write to the log. *)
Definition db_write {S} (f : RollbackWrapper S -> Res Empty_set (RollbackWrapper S)) : Db S unit := fun w =>
  w ← lift_panic (f w); Ok (tt, w).

Section database.
Context {S : Type} `{!ClarityBackingStore S VmError} `{!Sha256} `{!Sha512Trunc256} `{!HeadersDB}.
Context `{!ClaritySerializable U128} `{!ClaritySerializable U64} `{!ClaritySerializable PrincipalData}.
Context `{!ClaritySerializable FungibleTokenMetadata} `{!ClaritySerializable NonFungibleTokenMetadata}.
Context `{!ClaritySerializable DataMapMetadata} `{!ClaritySerializable DataVariableMetadata}.
Context `{!Storable ContractData} `{!ClaritySerializable ContractData}.

(** [begin], [commit] and [roll_back]. *)
Definition db_begin (w : RollbackWrapper S) : RollbackWrapper S := wrapper_nest w.
Definition db_commit (w : RollbackWrapper S) : Res Empty_set (RollbackWrapper S) := wrapper_commit w.
Definition db_roll_back (w : RollbackWrapper S) : Res Empty_set (RollbackWrapper S) := wrapper_rollback w.
Definition db_set_block_hash (bhh : list Z) : Db S (list Z) := fun w => wrapper_set_block_hash w bhh.

(** [put] and [get] for the types kept as JSON. *)
Definition put_json {T} `{ClaritySerializable T} (key : string) (value : T) : Db S unit :=
  db_write (fun w => wrapper_put w key (json_to_string value)).
Definition get_json {T} `{ClaritySerializable T} (key : string) : Db S (option T) :=
  db_read (fun w =>
    r ← lift_panic (wrapper_get w key);
    match r with
    | Some x => v ← lift_panic (json_from_str x); Ok (Some v)
    | None => Ok None
    end).

(** [put] and [get_value] for Clarity values. *)
Definition put_value (key : string) (value : Value) : Db S unit :=
  db_write (fun w => s ← serialize value; wrapper_put w key s).
Definition get_value (key : string) (expected : TypeSignature) : Db S (option Value) :=
  db_read (fun w =>
    r ← lift_panic (wrapper_get w key);
    match r with
    | Some x => v ← deserialize x expected; Ok (Some v)
    | None => Ok None
    end).

(** [insert_metadata], with the text of the datum, and [fetch_metadata]. *)
Definition db_insert_metadata (contract_identifier : QualifiedContractIdentifier) (key data : string) : Db S unit :=
  has ← db_read (fun w => wrapper_has_metadata_entry w contract_identifier key);
  if (has : bool) then db_lift Panic
  else db_write (fun w => wrapper_insert_metadata w contract_identifier key data).
Definition fetch_metadata {T} `{ClaritySerializable T} (contract_identifier : QualifiedContractIdentifier) (key : string)
  : Db S (option T) :=
  db_read (fun w =>
    x_opt ← wrapper_get_metadata w contract_identifier key;
    match x_opt with
    | Some x => v ← lift_panic (json_from_str x); Ok (Some v)
    | None => Ok None
    end).

(** ** Contracts *)

(** [prepare_for_contract_metadata] of the log. *)
Definition prepare_for_contract_metadata (contract : QualifiedContractIdentifier) (content_hash : list Z) : Db S unit :=
  key ← db_lift (lift_panic (make_contract_hash_key contract));
  db_write (fun w =>
    value ← bs_make_contract_commitment (store w) content_hash;
    wrapper_put w key value).

Definition insert_contract_hash (contract_identifier : QualifiedContractIdentifier) (contract_content : string) : Db S unit :=
  let hash := sha512_256 (string_bytes contract_content) in
  _ ← prepare_for_contract_metadata contract_identifier hash;
  _ ← db_insert_metadata contract_identifier (make_metadata_key ContractMeta "contract-size")
        (json_to_string (mkU64 (wrap 64 (str_len contract_content))));
  db_insert_metadata contract_identifier (make_metadata_key ContractMeta "contract-src") contract_content.

(** [get_contract_src]: a [String] is its own text. *)
Definition get_contract_src (contract_identifier : QualifiedContractIdentifier) : Db S (option string) :=
  db_read (fun w =>
    match wrapper_get_metadata w contract_identifier (make_metadata_key ContractMeta "contract-src") with
    | Ok x => Ok x
    | Err _ => Ok None
    | Panic => Panic
    end).

(** The [expect] on a metadatum that a contract must have. *)
Definition fetch_expected {T} `{ClaritySerializable T} (contract_identifier : QualifiedContractIdentifier) (key : string)
  : Db S T :=
  x ← fetch_metadata contract_identifier key;
  db_lift (expect_opt x).

Definition get_contract_size (contract_identifier : QualifiedContractIdentifier) : Db S Z :=
  contract_size ← fetch_expected (T := U64) contract_identifier (make_metadata_key ContractMeta "contract-size");
  data_size ← fetch_expected (T := U64) contract_identifier (make_metadata_key ContractMeta "contract-data-size");
  mret (wrap 64 (u64_val data_size + u64_val contract_size)).

Definition set_contract_data_size (contract_identifier : QualifiedContractIdentifier) (data_size : Z) : Db S unit :=
  contract_size ← fetch_expected (T := U64) contract_identifier (make_metadata_key ContractMeta "contract-size");
  _ ← db_lift (map_err (fun e => Unchecked (CheckCost e)) (cost_overflow_add (u64_val contract_size) data_size));
  db_insert_metadata contract_identifier (make_metadata_key ContractMeta "contract-data-size")
    (json_to_string (mkU64 data_size)).

Definition insert_contract (contract_identifier : QualifiedContractIdentifier) (contract : ContractData) : Db S unit :=
  db_insert_metadata contract_identifier (make_metadata_key ContractMeta "contract") (json_to_string contract).
Definition has_contract (contract_identifier : QualifiedContractIdentifier) : Db S bool :=
  db_read (fun w => wrapper_has_metadata_entry w contract_identifier (make_metadata_key ContractMeta "contract")).
Definition get_contract (contract_identifier : QualifiedContractIdentifier) : Db S ContractData :=
  fetch_expected contract_identifier (make_metadata_key ContractMeta "contract").

(** ** Blocks *)

Definition get_index_block_header_hash (block_height : Z) : Db S (list Z) :=
  db_read (fun w => r ← lift_panic (bs_get_block_at_height (store w) block_height); expect_opt r).
Definition db_get_current_block_height : Db S Z :=
  db_read (fun w => lift_panic (bs_get_current_block_height (store w))).
(** The methods that ask [headers_db] about a block. *)
Definition get_block_datum {A} (get : list Z -> option A) (block_height : Z) : Db S A :=
  id_bhh ← get_index_block_header_hash block_height;
  db_lift (expect_opt (get id_bhh)).
Definition get_block_header_hash : Z -> Db S (list Z) := get_block_datum get_stacks_block_header_hash_for_block.
Definition get_block_time : Z -> Db S Z := get_block_datum get_burn_block_time_for_block.
Definition get_burnchain_block_header_hash : Z -> Db S (list Z) := get_block_datum get_burn_header_hash_for_block.
Definition get_block_vrf_seed : Z -> Db S (list Z) := get_block_datum get_vrf_seed_for_block.
Definition get_miner_address : Z -> Db S StandardPrincipalData := get_block_datum get_miner_address_for_block.

(** ** Variables *)

Definition map_no_contract_as_none {A} (m : Db S (option A)) : Db S (option A) := fun w =>
  match m w with
  | Err (Unchecked (NoSuchContract _)) => Ok (None, w)
  | r => r
  end.

Definition create_variable (contract_identifier : QualifiedContractIdentifier) (variable_name : string)
    (value_type : TypeSignature) : Db S unit :=
  db_insert_metadata contract_identifier (make_metadata_key VariableMeta variable_name) (json_to_string (mkVar value_type)).

Definition load_variable (contract_identifier : QualifiedContractIdentifier) (variable_name : string)
  : Db S DataVariableMetadata :=
  r ← map_no_contract_as_none (fetch_metadata contract_identifier (make_metadata_key VariableMeta variable_name));
  db_lift (ok_or r (Unchecked (NoSuchDataVariable variable_name))).

(** The test [admits] and the error if it fails. *)
Definition check_admits (t : TypeSignature) (v : Value) : Db S unit :=
  ok ← db_lift (admits t v);
  if (ok : bool) then mret tt else db_lift (Err (Unchecked (TypeValueError t v))).

Definition set_variable (contract_identifier : QualifiedContractIdentifier) (variable_name : string) (value : Value)
  : Db S Value :=
  variable_descriptor ← load_variable contract_identifier variable_name;
  _ ← check_admits (value_type variable_descriptor) value;
  key ← db_lift (lift_panic (make_key_for_trip contract_identifier Variable_ variable_name));
  _ ← put_value key value;
  mret (VBool true).

Definition lookup_data_variable (contract_identifier : QualifiedContractIdentifier) (variable_name : string) : Db S Value :=
  variable_descriptor ← load_variable contract_identifier variable_name;
  key ← db_lift (lift_panic (make_key_for_trip contract_identifier Variable_ variable_name));
  result ← get_value key (value_type variable_descriptor);
  mret (match result with None => Value_none | Some data => data end).

(** ** Data maps *)

Definition create_map (contract_identifier : QualifiedContractIdentifier) (map_name : string)
    (key_type value_type : list (string * TypeSignature)) : Db S unit :=
  db_insert_metadata contract_identifier (make_metadata_key DataMapMeta map_name)
    (json_to_string (mkMap (TupleType key_type) (TupleType value_type))).

Definition load_map (contract_identifier : QualifiedContractIdentifier) (map_name : string) : Db S DataMapMetadata :=
  r ← map_no_contract_as_none (fetch_metadata contract_identifier (make_metadata_key DataMapMeta map_name));
  db_lift (ok_or r (Unchecked (NoSuchMap map_name))).

Definition unchecked {A} (r : Res CheckErrors A) : Db S A := db_lift (map_err Unchecked r).

Definition fetch_entry (contract_identifier : QualifiedContractIdentifier) (map_name : string) (key_value : Value) : Db S Value :=
  map_descriptor ← load_map contract_identifier map_name;
  _ ← check_admits (map_key_type map_descriptor) key_value;
  key ← db_lift (lift_panic (make_key_for_data_map_entry contract_identifier map_name key_value));
  stored_type ← unchecked (new_option (map_value_type map_descriptor));
  result ← get_value key stored_type;
  mret (match result with None => Value_none | Some data => data end).

Definition data_map_entry_exists (key : string) (expected_value : TypeSignature) : Db S bool :=
  r ← get_value key expected_value;
  mret (match r with
        | None => false
        | Some value => negb (value_eqb value Value_none)
        end).

Definition inner_set_entry (contract_identifier : QualifiedContractIdentifier) (map_name : string)
    (key_value value : Value) (return_if_exists : bool) : Db S Value :=
  map_descriptor ← load_map contract_identifier map_name;
  _ ← check_admits (map_key_type map_descriptor) key_value;
  _ ← check_admits (map_value_type map_descriptor) value;
  key ← db_lift (lift_panic (make_key_for_data_map_entry contract_identifier map_name key_value));
  stored_type ← unchecked (new_option (map_value_type map_descriptor));
  exists_ ← (if return_if_exists then data_map_entry_exists key stored_type else mret false);
  if (exists_ : bool) then mret (VBool false)
  else
    placed_value ← db_lift (Value_some value);
    _ ← put_value key placed_value;
    mret (VBool true).

Definition set_entry (contract_identifier : QualifiedContractIdentifier) (map_name : string) (key value : Value) : Db S Value :=
  inner_set_entry contract_identifier map_name key value false.
Definition insert_entry (contract_identifier : QualifiedContractIdentifier) (map_name : string) (key value : Value) : Db S Value :=
  inner_set_entry contract_identifier map_name key value true.

Definition delete_entry (contract_identifier : QualifiedContractIdentifier) (map_name : string) (key_value : Value) : Db S Value :=
  map_descriptor ← load_map contract_identifier map_name;
  _ ← check_admits (map_key_type map_descriptor) key_value;
  key ← db_lift (lift_panic (make_key_for_data_map_entry contract_identifier map_name key_value));
  stored_type ← unchecked (new_option (map_value_type map_descriptor));
  exists_ ← data_map_entry_exists key stored_type;
  if negb exists_ then mret (VBool false)
  else
    _ ← put_value key Value_none;
    mret (VBool true).

(** ** Tokens *)

Definition create_fungible_token (contract_identifier : QualifiedContractIdentifier) (token_name : string)
    (supply : option Z) : Db S unit :=
  _ ← db_insert_metadata contract_identifier (make_metadata_key FungibleTokenMeta token_name) (json_to_string (mkFT supply));
  match supply with
  | Some _ =>
    supply_key ← db_lift (lift_panic (make_key_for_trip contract_identifier CirculatingSupply token_name));
    put_json supply_key (mkU128 0)
  | None => mret tt
  end.

Definition load_ft (contract_identifier : QualifiedContractIdentifier) (token_name : string) : Db S FungibleTokenMetadata :=
  r ← map_no_contract_as_none (fetch_metadata contract_identifier (make_metadata_key FungibleTokenMeta token_name));
  db_lift (ok_or r (Unchecked (NoSuchFT token_name))).

Definition create_non_fungible_token (contract_identifier : QualifiedContractIdentifier) (token_name : string)
    (key_type : TypeSignature) : Db S unit :=
  db_insert_metadata contract_identifier (make_metadata_key NonFungibleTokenMeta token_name) (json_to_string (mkNFT key_type)).

Definition load_nft (contract_identifier : QualifiedContractIdentifier) (token_name : string) : Db S NonFungibleTokenMetadata :=
  r ← map_no_contract_as_none (fetch_metadata contract_identifier (make_metadata_key NonFungibleTokenMeta token_name));
  db_lift (ok_or r (Unchecked (NoSuchNFT token_name))).

Definition checked_increase_token_supply (contract_identifier : QualifiedContractIdentifier) (token_name : string)
    (amount : Z) : Db S unit :=
  descriptor ← load_ft contract_identifier token_name;
  match total_supply descriptor with
  | Some total_supply =>
    key ← db_lift (lift_panic (make_key_for_trip contract_identifier CirculatingSupply token_name));
    r ← get_json (T := U128) key;
    current_supply ← db_lift (expect_opt r);
    new_supply ← db_lift (ok_or (checked_add 128 (u128_val current_supply) amount) (Runtime ArithmeticOverflow));
    if total_supply <? new_supply then db_lift (Err (Runtime (SupplyOverflow new_supply total_supply)))
    else put_json key (mkU128 new_supply)
  | None => mret tt
  end.

Definition get_ft_balance (contract_identifier : QualifiedContractIdentifier) (token_name : string)
    (principal : PrincipalData) : Db S Z :=
  _ ← load_ft contract_identifier token_name;
  key ← db_lift (lift_panic (make_key_for_quad contract_identifier FungibleToken token_name (json_to_string principal)));
  result ← get_json (T := U128) key;
  mret (match result with None => 0 | Some balance => u128_val balance end).

Definition set_ft_balance (contract_identifier : QualifiedContractIdentifier) (token_name : string)
    (principal : PrincipalData) (balance : Z) : Db S unit :=
  key ← db_lift (lift_panic (make_key_for_quad contract_identifier FungibleToken token_name (json_to_string principal)));
  put_json key (mkU128 balance).

Definition nft_entry_key (contract_identifier : QualifiedContractIdentifier) (asset_name : string) (asset : Value) : Db S string :=
  a ← db_lift (serialize asset);
  db_lift (lift_panic (make_key_for_quad contract_identifier NonFungibleToken asset_name a)).

Definition get_nft_owner (contract_identifier : QualifiedContractIdentifier) (asset_name : string) (asset : Value)
  : Db S PrincipalData :=
  descriptor ← load_nft contract_identifier asset_name;
  _ ← check_admits (nft_key_type descriptor) asset;
  key ← nft_entry_key contract_identifier asset_name asset;
  result ← get_json key;
  db_lift (ok_or result (Runtime NoSuchToken)).

Definition get_nft_key_type (contract_identifier : QualifiedContractIdentifier) (asset_name : string) : Db S TypeSignature :=
  descriptor ← load_nft contract_identifier asset_name;
  mret (nft_key_type descriptor).

Definition set_nft_owner (contract_identifier : QualifiedContractIdentifier) (asset_name : string) (asset : Value)
    (principal : PrincipalData) : Db S unit :=
  descriptor ← load_nft contract_identifier asset_name;
  _ ← check_admits (nft_key_type descriptor) asset;
  key ← nft_entry_key contract_identifier asset_name asset;
  put_json key principal.

(** ** Accounts *)

Definition get_account_stx_balance (principal : PrincipalData) : Db S Z :=
  key ← db_lift (lift_panic (make_key_for_account_balance principal));
  result ← get_json (T := U128) key;
  mret (match result with None => 0 | Some balance => u128_val balance end).
Definition set_account_stx_balance (principal : PrincipalData) (balance : Z) : Db S unit :=
  key ← db_lift (lift_panic (make_key_for_account_balance principal));
  put_json key (mkU128 balance).
Definition get_account_nonce (principal : PrincipalData) : Db S Z :=
  key ← db_lift (lift_panic (make_key_for_account_nonce principal));
  result ← get_json (T := U64) key;
  mret (match result with None => 0 | Some nonce => u64_val nonce end).
Definition set_account_nonce (principal : PrincipalData) (nonce : Z) : Db S unit :=
  key ← db_lift (lift_panic (make_key_for_account_nonce principal));
  put_json key (mkU64 nonce).
End database.
