(* ===== verification/Keys.v ===== *)
(** The keys of the database do not clash: each kind of key is read back from
    its text, for principals that addresses can express and for the names that
    the language admits. *)
From stdpp Require Import base strings numbers list gmap.
From Stdlib Require Import ZArith Lia.
From S2P Require Import Prelude Names Types C32 C32Facts BackingStore ClarityDatabase.
#[local] Open Scope Z_scope.

(** * Text without colons *)

Definition no_colon (s : string) : Prop := Forall (fun b => b <> 58) (string_bytes s).

Lemma string_bytes_app a b : string_bytes (a +:+ b) = string_bytes a ++ string_bytes b.
Proof.
  induction a as [|c a IH]; [done|]. change (string_bytes (String c a +:+ b)) with (byte_of_ascii c :: string_bytes (a +:+ b)).
  by rewrite IH.
Qed.

Lemma string_bytes_inj a b : string_bytes a = string_bytes b -> a = b.
Proof. intros H. by rewrite <-(bytes_string_bytes a), <-(bytes_string_bytes b), H. Qed.

Lemma split_colons a a' b b' :
  no_colon a -> no_colon a' -> a +:+ "::" +:+ b = a' +:+ "::" +:+ b' -> a = a' /\ b = b'.
Proof.
  intros Ha Ha' H. apply (f_equal string_bytes) in H. rewrite !string_bytes_app in H.
  cut (string_bytes a = string_bytes a' /\ string_bytes b = string_bytes b').
  { intros [? ?]. split; by apply string_bytes_inj. }
  unfold no_colon in *. revert Ha' H. generalize (string_bytes a') as l'. induction Ha as [|c l Hc _ IH].
  - intros l' Hl' H. destruct Hl' as [|c' l' Hc' _]; cbn in H; [by injection H|]. by injection H as <- _.
  - intros l' Hl' H. destruct Hl' as [|c' l' Hc' Hl']; cbn in H; [by injection H as -> _|].
    injection H as -> H. destruct (IH l' Hl' H) as [-> ->]. done.
Qed.

Lemma no_colon_split a b s : no_colon a -> a +:+ "::" +:+ b = s -> no_colon s -> False.
Proof.
  intros _ <- Hs. unfold no_colon in Hs. rewrite !string_bytes_app in Hs.
  apply Forall_app in Hs as [_ Hs]. cbn in Hs. by inversion Hs.
Qed.

Lemma alpha_not_colon c : is_alpha c = true -> c <> 58.
Proof. unfold is_alpha, byte_in. lia. Qed.

Lemma one_of_not_colon s c : one_of s 58 = false -> one_of s c = true -> c <> 58.
Proof. intros Hs Hc ->. congruence. Qed.

Lemma name_tail_no_colon s l :
  one_of s 58 = false -> forallb (fun c => is_alpha c || is_digit c || one_of s c) l = true ->
  Forall (fun b => b <> 58) l.
Proof.
  intros Hs Hl. apply Forall_forall. intros c Hc. rewrite forallb_forall in Hl.
  specialize (Hl c (proj1 (list_elem_of_In _ _) Hc)). apply orb_true_iff in Hl as [Hl|Hl]; [|by eapply one_of_not_colon].
  apply orb_true_iff in Hl as [Hl|Hl]; [by apply alpha_not_colon|]. unfold is_digit, byte_in in Hl. lia.
Qed.

Lemma clarity_name_no_colon n : clarity_name_ok n = true -> no_colon n.
Proof.
  intros [_ H]%andb_true_iff. unfold no_colon. destruct (string_bytes n) as [|b l]; [done|]. cbn [clarity_name_regex] in H.
  apply orb_true_iff in H as [H|[Hb Hl]%andb_true_iff]; [apply orb_true_iff in H as [[Hb Hl]%andb_true_iff|[Hb Hl]%andb_true_iff]|].
  - apply Forall_cons_2; [by apply alpha_not_colon|]. by apply (name_tail_no_colon "-_!?+<>=/*").
  - destruct l; [|done]. apply Forall_cons_2; [by apply (one_of_not_colon "-+=/*")|apply Forall_nil_2].
  - apply Forall_cons_2; [by apply (one_of_not_colon "<>")|]. destruct l as [|c [|]]; [apply Forall_nil_2| |done].
    apply Forall_cons_2; [|apply Forall_nil_2]. apply Z.eqb_eq in Hl. lia.
Qed.

Lemma contract_name_no_colon n : contract_name_ok n = true -> no_colon n.
Proof.
  intros [_ H]%andb_true_iff. unfold no_colon, contract_name_regex in *. apply orb_true_iff in H as [H|H].
  - destruct (string_bytes n) as [|b l]; [done|]. apply andb_true_iff in H as [Hb Hl].
    apply Forall_cons_2; [by apply alpha_not_colon|]. by apply (name_tail_no_colon "-_").
  - apply bool_decide_eq_true in H as ->. vm_compute. repeat constructor; discriminate.
Qed.

Lemma store_type_no_colon t : no_colon (fmt_dec (store_type_u8 t)).
Proof. unfold no_colon. destruct t; vm_compute; repeat constructor; discriminate. Qed.

Lemma store_type_inj t t' : fmt_dec (store_type_u8 t) = fmt_dec (store_type_u8 t') -> t = t'.
Proof. destruct t, t'; vm_compute; congruence. Qed.

(** * Kinds of keys *)

Inductive DataKey :=
| KTrip (c : QualifiedContractIdentifier) (t : StoreType) (n : string)
| KQuad (c : QualifiedContractIdentifier) (t : StoreType) (n key_value : string)
| KAccount (p : PrincipalData) (t : StoreType)
| KContract (c : QualifiedContractIdentifier).

Section keys.
Context `{Hsha : !Sha256}.

(** The text of a key. *)
Definition key_text (k : DataKey) : Res Empty_set string :=
  match k with
  | KTrip c t n => make_key_for_trip c t n
  | KQuad c t n key_value => make_key_for_quad c t n key_value
  | KAccount p t => make_key_for_account p t
  | KContract c => make_contract_hash_key c
  end.

(** The identifiers are ones that the language admits, with issuers that
    addresses can express. *)
Definition key_ok (k : DataKey) : Prop :=
  match k with
  | KTrip c _ n | KQuad c _ n _ => addressable (Contract c) /\ clarity_name_ok n = true
  | KAccount p _ => addressable p
  | KContract c => addressable (Contract c)
  end.

(** ** Text of principals *)

Lemma ch_text d : digit d -> u8 (ch d) /\ ch d <> 58.
Proof.
  intros Hd. pose proof (digit_cases (fun d => bool_decide (u8 (ch d) /\ ch d <> 58)) ltac:(vm_compute; done) d Hd) as H.
  by apply bool_decide_eq_true in H.
Qed.

Lemma address_text y : Forall digit y -> Forall u8 (83 :: map ch y) /\ Forall (fun b => b <> 58) (83 :: map ch y).
Proof.
  intros Hy. split; (apply Forall_cons_2; [by vm_compute|]); apply Forall_map; (eapply Forall_impl; [exact Hy|]);
    intros d Hd; by apply ch_text.
Qed.

Lemma display_text (p : PrincipalData) :
  addressable p -> exists s, PrincipalData_display p = Ok s /\ Forall u8 s /\ Forall (fun b => b <> 58) s.
Proof.
  destruct p as [p|[p n]]; intros Hp; cbn in Hp.
  - destruct (@standard_round_trip _ ascii_to_uppercase p Hp) as (y & Hy & Ha & _). exists (83 :: map ch y).
    split; [done|by apply address_text].
  - destruct Hp as [Hp Hn]. destruct (@standard_round_trip _ ascii_to_uppercase p Hp) as (y & Hy & Ha & _).
    destruct (address_text y Hy) as [Hu Hc].
    exists ((83 :: map ch y) ++ 46 :: string_bytes n). cbn [PrincipalData_display].
    unfold QualifiedContractIdentifier_to_string. cbn [issuer name]. rewrite Ha. split_and!; [done|..].
    + apply Forall_app. split; [done|]. apply Forall_cons_2; [by vm_compute|apply string_bytes_u8].
    + apply Forall_app. split; [done|]. apply Forall_cons_2; [done|]. by apply contract_name_no_colon.
Qed.

Lemma display_inj p q s : addressable p -> addressable q -> PrincipalData_display p = Ok s -> PrincipalData_display q = Ok s -> p = q.
Proof.
  intros Hp Hq Hs Hs'. destruct (@display_parse _ ascii_to_uppercase p Hp) as (s1 & H1 & P1).
  destruct (@display_parse _ ascii_to_uppercase q Hq) as (s2 & H2 & P2).
  rewrite Hs in H1. rewrite Hs' in H2. simplify_eq. rewrite P1 in P2. by simplify_eq.
Qed.

Lemma string_bytes_string l : Forall u8 l -> string_bytes (bytes_string l) = l.
Proof. induction 1 as [|b l Hb _ IH]; cbn; [done|]. by rewrite byte_of_ascii_of_byte, IH. Qed.

(** The text of a principal as a string: no colon, and one text per principal. *)
Lemma principal_string (p : PrincipalData) :
  addressable p -> exists s, PrincipalData_display p = Ok s /\ no_colon (bytes_string s) /\
    forall q s', addressable q -> PrincipalData_display q = Ok s' -> bytes_string s' = bytes_string s -> q = p.
Proof.
  intros Hp. destruct (display_text p Hp) as (s & Hs & Hu & Hc). exists s. split_and!; [done|..].
  - unfold no_colon. by rewrite string_bytes_string.
  - intros q s' Hq Hs' Heq. destruct (display_text q Hq) as (s2 & Hs2 & Hu2 & _). rewrite Hs' in Hs2. simplify_eq.
    apply (f_equal string_bytes) in Heq. rewrite !string_bytes_string in Heq by done. subst.
    by apply (display_inj _ _ s).
Qed.

Lemma contract_string_spec c :
  addressable (Contract c) -> exists s, contract_string c = Ok s /\ no_colon s /\
    forall c', addressable (Contract c') -> contract_string c' = Ok s -> c' = c.
Proof.
  intros Hc. destruct (principal_string (Contract c) Hc) as (s & Hs & Hn & Hinj). exists (bytes_string s).
  unfold contract_string. cbn [PrincipalData_display] in Hs. rewrite Hs. split_and!; [done..|].
  intros c' Hc' H. destruct (display_text (Contract c') Hc') as (s' & Hs' & _). pose proof Hs' as Hd.
  cbn [PrincipalData_display] in Hs'. rewrite Hs' in H. cbn in H. injection H as H.
  pose proof (Hinj (Contract c') s' Hc' Hd H). by simplify_eq.
Qed.

(** ** Keys are read back *)

Lemma key_text_total k : key_ok k -> exists s, key_text k = Ok s.
Proof.
  destruct k as [c t n|c t n v|p t|c]; cbn; unfold make_key_for_trip, make_key_for_quad, make_key_for_account, make_contract_hash_key.
  1,2: intros [Hc _]; destruct (contract_string_spec c Hc) as (s & -> & _); by eexists.
  - intros Hp. destruct (principal_string p Hp) as (s & -> & _). by eexists.
  - intros Hc. destruct (contract_string_spec c Hc) as (s & -> & _). by eexists.
Qed.

(** The text as a list of parts, all but the last without colons. *)
Definition key_parts (k : DataKey) (c : string) : list string :=
  match k with
  | KTrip _ t n => ["vm"; c; fmt_dec (store_type_u8 t); n]
  | KQuad _ t n v => ["vm"; c; fmt_dec (store_type_u8 t); n; v]
  | KAccount _ t => ["vm-account"; c; fmt_dec (store_type_u8 t)]
  | KContract _ => ["clarity-contract"; c]
  end.

Fixpoint join (l : list string) : string :=
  match l with
  | [] => ""
  | [s] => s
  | s :: l => s +:+ "::" +:+ join l
  end.

(** The principal or contract a key is about. *)
Definition key_owner (k : DataKey) : PrincipalData :=
  match k with KTrip c _ _ | KQuad c _ _ _ | KContract c => Contract c | KAccount p _ => p end.

Lemma key_text_join k s : PrincipalData_display (key_owner k) = Ok s -> key_text k = Ok (join (key_parts k (bytes_string s))).
Proof.
  destruct k; cbn [key_owner PrincipalData_display key_text]; intros Hs;
    unfold make_key_for_trip, make_key_for_quad, make_key_for_account, make_contract_hash_key, contract_string;
    try rewrite Hs; reflexivity.
Qed.

Lemma key_owner_ok k : key_ok k -> addressable (key_owner k).
Proof. destruct k; cbn; tauto. Qed.

(** Two lists of parts with the same text are equal if the parts before the end
    of the shorter one have no colons and neither ends earlier inside the last. *)
Lemma join_inj l l' :
  Forall no_colon (removelast l) -> Forall no_colon (removelast l') -> length l = length l' -> join l = join l' -> l = l'.
Proof.
  revert l'. induction l as [|a [|b l] IH]; intros [|a' [|b' l']] Hl Hl' Hlen H; try discriminate; [done|by cbn in H; subst|].
  cbn [removelast] in Hl, Hl'. apply Forall_cons_1 in Hl as [Ha Hl]. apply Forall_cons_1 in Hl' as [Ha' Hl'].
  change (join (a :: b :: l)) with (a +:+ "::" +:+ join (b :: l)) in H.
  change (join (a' :: b' :: l')) with (a' +:+ "::" +:+ join (b' :: l')) in H.
  apply split_colons in H as [-> H]; [|done..]. f_equal. apply IH; try done. cbn in *. lia.
Qed.

Lemma join_longer l l' :
  l <> [] -> Forall no_colon l -> Forall no_colon (removelast l') -> (length l < length l')%nat -> join l <> join l'.
Proof.
  revert l'. induction l as [|a [|b l] IH]; intros [|a' [|b' l']] Hne Hl Hl' Hlen H; try done; try (cbn in Hlen; lia).
  - inversion Hl as [|?? Ha]; subst. cbn [removelast] in Hl'. apply Forall_cons_1 in Hl' as [Ha' _].
    by eapply (no_colon_split a' (join (b' :: l'))).
  - apply Forall_cons_1 in Hl as [Ha Hl]. cbn [removelast] in Hl'. apply Forall_cons_1 in Hl' as [Ha' Hl'].
    change (join (a :: b :: l)) with (a +:+ "::" +:+ join (b :: l)) in H.
    change (join (a' :: b' :: l')) with (a' +:+ "::" +:+ join (b' :: l')) in H.
    apply split_colons in H as [_ H]; [|done..]. revert H. apply IH; try done. cbn in *. lia.
Qed.

Lemma no_colon_parts k s :
  key_ok k -> no_colon s ->
  Forall no_colon (removelast (key_parts k s)) /\
  (match k with KQuad _ _ _ _ => True | _ => Forall no_colon (key_parts k s) end).
Proof.
  intros Hk Hs. pose proof store_type_no_colon as Ht.
  assert (no_colon "vm" /\ no_colon "vm-account" /\ no_colon "clarity-contract") as (H1 & H2 & H3).
  { unfold no_colon. split_and!; vm_compute; repeat constructor; discriminate. }
  destruct k; cbn [key_parts key_ok removelast] in *; try destruct Hk as [_ Hn%clarity_name_no_colon]; split;
    repeat (apply Forall_cons_2 || apply Forall_nil_2); auto.
Qed.

Lemma key_parts_inj k k' s :
  addressable (key_owner k) -> addressable (key_owner k') ->
  PrincipalData_display (key_owner k) = Ok s -> PrincipalData_display (key_owner k') = Ok s ->
  key_parts k (bytes_string s) = key_parts k' (bytes_string s) -> k = k'.
Proof.
  intros Ha Ha' Hs Hs' Heq. pose proof (display_inj _ _ _ Ha Ha' Hs Hs') as Ho.
  destruct k, k'; cbn [key_parts key_owner] in Heq, Ho; try discriminate Heq;
    try (injection Heq as); repeat match goal with H : fmt_dec _ = fmt_dec _ |- _ => apply store_type_inj in H end; congruence.
Qed.

Lemma key_text_inj k k' s : key_ok k -> key_ok k' -> key_text k = Ok s -> key_text k' = Ok s -> k = k'.
Proof.
  intros Hk Hk' Ht Ht'. pose proof (key_owner_ok k Hk) as Ha. pose proof (key_owner_ok k' Hk') as Ha'.
  destruct (principal_string _ Ha) as (p & Hp & Hnp & _). destruct (principal_string _ Ha') as (p' & Hp' & Hnp' & Hinj).
  rewrite (key_text_join _ _ Hp) in Ht. rewrite (key_text_join _ _ Hp') in Ht'.
  apply Ok_inj in Ht, Ht'. subst s. symmetry in Ht'.
  destruct (no_colon_parts k _ Hk Hnp) as [Hl Hf]. destruct (no_colon_parts k' _ Hk' Hnp') as [Hl' Hf'].
  destruct (Nat.lt_trichotomy (length (key_parts k (bytes_string p))) (length (key_parts k' (bytes_string p')))) as [Hlt|[Heq|Hlt]].
  - exfalso. revert Ht'. apply join_longer; [by destruct k|destruct k, k'; cbn [key_parts length] in Hlt; (exact Hf || lia)|exact Hl'|exact Hlt].
  - apply join_inj in Ht'; [|done..].
    assert (bytes_string p = bytes_string p') as Hb by (destruct k, k'; cbn [key_parts] in Ht'; congruence).
    pose proof (Hinj _ _ Ha Hp Hb) as Ho. rewrite Ho in Hp. rewrite Hp in Hp'. simplify_eq.
    apply (key_parts_inj k k' p'); try done. by rewrite Ho.
  - exfalso. symmetry in Ht'. revert Ht'. apply join_longer; [by destruct k'|destruct k, k'; cbn [key_parts length] in Hlt; (exact Hf' || lia)|exact Hl|exact Hlt].
Qed.
End keys.

(** Database keys do not clash: for contracts and principals that addresses
    can express and names that the language admits, every key has a text, and
    variables, supplies, map entries, balances, owners, accounts, nonces and
    contract hashes of different contracts, names, kinds or entries have
    different texts. *)
Theorem keys_injective `{!Sha256} (k k' : DataKey) :
  key_ok k -> key_ok k' -> (exists s, key_text k = Ok s) /\ (key_text k = key_text k' <-> k = k').
Proof.
  intros Hk Hk'. split; [by apply key_text_total|]. split; [|by intros ->]. intros Heq.
  destruct (key_text_total k Hk) as (s & Hs). apply (key_text_inj k k' s); congruence.
Qed.
