(* ===== verification/DatabaseFacts.v ===== *)
(** Correctness of the typed database: what is written is read back, and nothing
    else changes. *)
From stdpp Require Import base strings numbers list gmap.
From Stdlib Require Import ZArith Lia.
From S2P Require Import Prelude Names BTree Types Representations TypeFacts Subtyping Supertypes Values Serialization Codec C32 C32Facts RollbackWrapper BackingStore Costs ClarityDatabase Keys.
#[local] Open Scope Z_scope.

(** * One write to the log *)

Section log.
Context {S : Type} `{!ClarityBackingStore S VmError}.
Implicit Types w : RollbackWrapper S.

(** [w'] is [w] with the value [v] at the key [k]. *)
Record updated (k v : string) (w w' : RollbackWrapper S) : Prop := {
  upd_get : forall k', wrapper_get w' k' = if decide (k' = k) then Ok (Some v) else wrapper_get w k';
  upd_metadata : forall c k', wrapper_get_metadata w' c k' = wrapper_get_metadata w c k';
  upd_nested : wrapper_depth w' = wrapper_depth w;
}.

Lemma upd_get_eq k v w w' : updated k v w w' -> wrapper_get w' k = Ok (Some v).
Proof. intros Hu. rewrite (upd_get _ _ _ _ Hu). by rewrite decide_True. Qed.

Lemma put_updated w k v : wrapper_depth w <> 0%nat -> exists w', wrapper_put w k v = Ok w' /\ updated k v w w'.
Proof.
  unfold wrapper_depth, wrapper_put. destruct w as [st lm mlm [|top rest]]; [done|]. intros _.
  eexists. split; [done|]. split; [|done|done]. intros k'. unfold wrapper_get. cbn [stack lookup_map store].
  unfold inner_put. cbn [fst snd].
  destruct (decide (k' = k)) as [->|Hne].
  - rewrite lookup_alter, decide_True by done. destruct (lm !! k) as [l|] eqn:E.
    + rewrite E. cbn. by rewrite last_snoc.
    + rewrite lookup_insert_eq. done.
  - rewrite lookup_alter_ne by done. destruct (lm !! k); [done|]. by rewrite lookup_insert_ne.
Qed.
End log.

(** * Sequencing *)

Lemma db_bind_Ok {S A B} (m : Db S A) (f : A -> Db S B) w a w' : m w = Ok (a, w') -> (m ≫= f) w = f a w'.
Proof. intros H. unfold mbind, db_bind. by rewrite H. Qed.
Lemma db_lift_Ok {S A} (r : Res VmError A) (w : RollbackWrapper S) a : r = Ok a -> db_lift r w = Ok (a, w).
Proof. by intros ->. Qed.
Lemma lift_panic_of_Ok {E A} (m : Res Empty_set A) a : m = Ok a -> lift_panic (E := E) m = Ok a.
Proof. by intros ->. Qed.
#[local] Hint Resolve db_lift_Ok lift_panic_of_Ok : stacks.

(** Run the next operation, whose outcome is known. *)
Ltac db_step :=
  erewrite db_bind_Ok; [|by eauto with stacks]; cbn [value_type map_key_type map_value_type nft_key_type total_supply].

(** * Values *)

Section database.
Context {S : Type} `{Hbs : !ClarityBackingStore S VmError} `{Hsha : !Sha256}.
Context `{Hu128 : !ClaritySerializable U128} `{Hu64 : !ClaritySerializable U64}.
Context `{Hprincipal : !ClaritySerializable PrincipalData}.
Context `{Hft : !ClaritySerializable FungibleTokenMetadata} `{Hnft : !ClaritySerializable NonFungibleTokenMetadata}.
Context `{Hmap : !ClaritySerializable DataMapMetadata} `{Hvar : !ClaritySerializable DataVariableMetadata}.
Implicit Types w : RollbackWrapper S.

(** Only the key [dk] reads differently in [w']. *)
Definition only_changes (dk : DataKey) w w' : Prop :=
  (forall k s, key_ok k -> k <> dk -> key_text k = Ok s -> wrapper_get w' s = wrapper_get w s) /\
  (forall c k, wrapper_get_metadata w' c k = wrapper_get_metadata w c k).

Lemma updated_only dk key v w w' :
  key_ok dk -> key_text dk = Ok key -> updated key v w w' -> only_changes dk w w'.
Proof.
  intros Hdk Hkey Hupd. split; [|apply Hupd]. intros k s Hk Hne Hs. rewrite (upd_get _ _ _ _ Hupd).
  rewrite decide_False; [done|]. intros ->. by apply Hne, (key_text_inj _ _ key).
Qed.

(** A value that its type admits can be stored and read back at that type. *)
Definition storable_at (t : TypeSignature) (v : Value) : Prop :=
  wf_type t /\ valued t /\ wf_value v /\ has_type t v /\ (nesting v <= MAX_LEVELS)%nat.

Lemma put_value_updated key t v w :
  wrapper_depth w <> 0%nat -> storable_at t v ->
  exists s w', put_value key v w = Ok (tt, w') /\ updated key s w w' /\
    (forall w2, wrapper_get w2 key = Ok (Some s) -> get_value key t w2 = Ok (Some (retype t v), w2)).
Proof.
  intros Hd (Hwt & Hvt & Hwf & Ht & Hn).
  destruct (deserialize_serialize (E := Empty_set) t v Hwt Hvt Hwf Ht Hn) as (hex & Hser & _).
  destruct (deserialize_serialize (E := VmError) t v Hwt Hvt Hwf Ht Hn) as (hex' & Hser' & Hde).
  assert (hex' = hex) as ->. { unfold serialize in *. destruct (serialize_write v); by simplify_eq/=. }
  destruct (put_updated w key hex Hd) as (w' & Hput & Hupd). exists hex, w'. split_and!; [|done|].
  - unfold put_value, db_write. rewrite Hser. cbn. by rewrite Hput.
  - intros w2 Hget. unfold get_value, db_read. rewrite Hget. cbn. by rewrite Hde.
Qed.

Lemma json_updated {T} `{!Storable T} `{!ClaritySerializable T} key (x : T) w :
  wrapper_depth w <> 0%nat -> storable x ->
  exists s w', put_json key x w = Ok (tt, w') /\ updated key s w w' /\
    (forall w2, wrapper_get w2 key = Ok (Some s) -> get_json (T := T) key w2 = Ok (Some x, w2)).
Proof.
  intros Hd Hx. destruct (put_updated w key (json_to_string x) Hd) as (w' & Hput & Hupd).
  exists (json_to_string x), w'. split_and!; [|done|].
  - unfold put_json, db_write. by rewrite Hput.
  - intros w2 Hget. unfold get_json, db_read. rewrite Hget. cbn. by rewrite json_round_trip.
Qed.

Lemma check_admits_Ok t v w : has_type t v -> check_admits t v w = Ok (tt, w).
Proof.
  intros Ht. unfold check_admits, mbind, db_bind, db_lift. by rewrite (proj2 (admits_iff t v) Ht).
Qed.

#[local] Hint Resolve check_admits_Ok : stacks.

(** Descriptors are metadata. *)
Lemma load_ext {T} `{!Storable T} `{!ClaritySerializable T} c key (e : VmError) (d : T) w w' :
  (forall c k, wrapper_get_metadata w' c k = wrapper_get_metadata w c k) ->
  (r ← map_no_contract_as_none (fetch_metadata (T := T) c key); db_lift (ok_or r e)) w = Ok (d, w) ->
  (r ← map_no_contract_as_none (fetch_metadata (T := T) c key); db_lift (ok_or r e)) w' = Ok (d, w').
Proof.
  intros Hm. unfold mbind, db_bind, map_no_contract_as_none, fetch_metadata, db_read, db_lift. rewrite Hm.
  match goal with |- context [wrapper_get_metadata w c key ≫= ?f] => generalize (wrapper_get_metadata w c key ≫= f) end.
  intros m. destruct m as [[x|]|[[]| | |]|]; cbn; congruence.
Qed.

(** ** Variables *)

(** Data variables: where a variable is declared with type [t], writing a
    value of that type in an open context succeeds, and reading the variable
    gives the value back at type [t]; every other key of the database and all
    metadata read as before.  A value that the type does not admit is refused
    with TypeValueError. *)
Theorem variable_read_after_write c n t v w :
  wrapper_depth w <> 0%nat -> addressable (Contract c) -> clarity_name_ok n = true ->
  load_variable c n w = Ok (mkVar t, w) ->
  (storable_at t v -> exists w',
     set_variable c n v w = Ok (VBool true, w') /\
     lookup_data_variable c n w' = Ok (retype t v, w') /\ value_eqb (retype t v) v = true /\
     only_changes (KTrip c Variable_ n) w w') /\
  (admits (E := VmError) t v = Ok false -> set_variable c n v w = Err (Unchecked (TypeValueError t v))).
Proof.
  intros Hd Hc Hn Hload. split.
  - intros Hst. pose proof Hst as (_ & _ & _ & Ht & _).
    assert (key_ok (KTrip c Variable_ n)) as Hk by done.
    destruct (key_text_total _ Hk) as (key & Hkey). pose proof Hkey as Hkey'. cbn in Hkey'.
    destruct (put_value_updated key t v w Hd Hst) as (s & w' & Hput & Hupd & Hget).
    exists w'. split_and!.
    + unfold set_variable. do 4 db_step. done.
    + assert (load_variable c n w' = Ok (mkVar t, w')) as Hload'
        by (apply (load_ext _ _ _ _ w); [apply Hupd|exact Hload]).
      unfold lookup_data_variable. do 2 db_step.
      by rewrite (db_bind_Ok _ _ _ _ _ (Hget _ (upd_get_eq _ _ _ _ Hupd))).
    + apply retype_veq.
    + by apply (updated_only _ key s).
  - intros Ha. unfold set_variable. db_step. cbn [value_type].
    unfold check_admits, mbind, db_bind, db_lift. by rewrite Ha.
Qed.

(** ** Data maps *)

Lemma serialize_Ok v : wf_value v -> exists hex, forall E, serialize (E := E) v = Ok hex.
Proof.
  intros Hv. destruct (serialize_write_wf v Hv) as (bs & Hs & _). eexists. intros E. unfold serialize. by rewrite Hs.
Qed.

Lemma none_has_type t : has_type (OptionalType t) Value_none.
Proof. apply (proj1 (admits_iff (E := VmError) _ _)). by destruct t. Qed.

Lemma new_option_step t w : wf_type (OptionalType t) -> unchecked (new_option t) w = Ok (OptionalType t, w).
Proof. intros Ht. apply new_option_complete in Ht. unfold unchecked, db_lift. by rewrite Ht. Qed.
#[local] Hint Resolve new_option_step : stacks.

Section maps.
Context (c : QualifiedContractIdentifier) (m : string) (kt vt : TypeSignature) (k : Value) (hex : string) (w : RollbackWrapper S).
Context (Hd : wrapper_depth w <> 0%nat) (Hc : addressable (Contract c)) (Hm : clarity_name_ok m = true).
Context (Hload : load_map c m w = Ok (mkMap kt vt, w)) (Hkt : has_type kt k) (Hhex : forall E, serialize (E := E) k = Ok hex).
Context (Hwt : wf_type (OptionalType vt)) (Hvt : valued (OptionalType vt)).

Lemma entry_key : exists key, make_key_for_data_map_entry c m k = Ok key /\ key_text (KQuad c DataMap m hex) = Ok key.
Proof.
  destruct (key_text_total (KQuad c DataMap m hex)) as (key & Hkey); [done|]. exists key. split; [|done].
  unfold make_key_for_data_map_entry. rewrite Hhex. exact Hkey.
Qed.

(** [fetch_entry] in a log with the same metadata. *)
Lemma fetch_entry_run w' key r :
  (forall c k, wrapper_get_metadata w' c k = wrapper_get_metadata w c k) ->
  make_key_for_data_map_entry c m k = Ok key -> get_value key (OptionalType vt) w' = Ok (r, w') ->
  fetch_entry c m k w' = Ok (match r with None => Value_none | Some data => data end, w').
Proof.
  intros Hmeta Hkey Hget. assert (load_map c m w' = Ok (mkMap kt vt, w')) as Hload'
    by (apply (load_ext _ _ _ _ w); [exact Hmeta|exact Hload]).
  unfold fetch_entry. do 5 db_step. done.
Qed.

Lemma store_entry w0 v key :
  wrapper_depth w0 <> 0%nat -> (forall c k, wrapper_get_metadata w0 c k = wrapper_get_metadata w c k) ->
  make_key_for_data_map_entry c m k = Ok key -> storable_at (OptionalType vt) v ->
  exists w', put_value key v w0 = Ok (tt, w') /\ fetch_entry c m k w' = Ok (retype (OptionalType vt) v, w') /\
    only_changes (KQuad c DataMap m hex) w0 w'.
Proof.
  intros Hd0 Hmeta Hkey Hst. destruct entry_key as (key' & Hk1 & Hk2). rewrite Hkey in Hk1. apply Ok_inj in Hk1 as <-.
  destruct (put_value_updated key _ v w0 Hd0 Hst) as (s & w' & Hput & Hupd & Hget). exists w'. split_and!; [done|..].
  - apply (fetch_entry_run w' key (Some (retype (OptionalType vt) v))); [|done|].
    + intros. by rewrite (upd_metadata _ _ _ _ Hupd).
    + apply Hget, (upd_get_eq _ _ _ _ Hupd).
  - by apply (updated_only _ key s).
Qed.

(** Whether an entry is present, as [fetch_entry] sees it. *)
Lemma entry_exists_fetch key o :
  make_key_for_data_map_entry c m k = Ok key -> fetch_entry c m k w = Ok (VOptional o, w) ->
  data_map_entry_exists key (OptionalType vt) w = Ok (bool_decide (is_Some o), w).
Proof.
  intros Hkey. unfold fetch_entry. do 4 db_step. unfold data_map_entry_exists, mbind, db_bind.
  destruct (get_value key (OptionalType vt) w) as [[r w1]|e|]; cbn; [|done..].
  intros H. injection H as Hr ->. destruct r as [r|].
  - subst r. by destruct o.
  - injection Hr as <-. done.
Qed.
End maps.

(** C32. Data maps: for a declared map, a key of its key type and a value of its
    value type, [set_entry] stores the value under the key; [insert_entry] does
    so exactly if [fetch_entry] finds nothing, and otherwise returns false
    without a change; [delete_entry] empties the entry exactly if there was one.
    The entry is read back at the declared type, and nothing else changes.  The
    value is one that can be stored and read back ([storable_at]): with the option
    around it, it is nested at most 16 deep; a deeper value is stored as well, but
    the code panics when it is read. *)
Theorem map_operations c m kt vt k v (o : option Value) w :
  wrapper_depth w <> 0%nat -> addressable (Contract c) -> clarity_name_ok m = true ->
  load_map c m w = Ok (mkMap kt vt, w) ->
  wf_value k -> has_type kt k -> wf_value v -> has_type vt v -> storable_at (OptionalType vt) (VOptional (Some v)) ->
  fetch_entry c m k w = Ok (VOptional o, w) ->
  exists hex, serialize (E := Empty_set) k = Ok hex /\
  (exists w1, set_entry c m k v w = Ok (VBool true, w1) /\
     fetch_entry c m k w1 = Ok (VOptional (Some (retype vt v)), w1) /\ only_changes (KQuad c DataMap m hex) w w1 /\
     insert_entry c m k v w = match o with None => Ok (VBool true, w1) | Some _ => Ok (VBool false, w) end) /\
  match o with
  | None => delete_entry c m k w = Ok (VBool false, w)
  | Some _ => exists w2, delete_entry c m k w = Ok (VBool true, w2) /\
      fetch_entry c m k w2 = Ok (VOptional None, w2) /\ only_changes (KQuad c DataMap m hex) w w2
  end.
Proof.
  intros Hd Hc Hm Hload Hwk Hkt Hwv Hvt Hst Hfetch. destruct (serialize_Ok k Hwk) as (hex & Hhex). exists hex.
  split; [apply Hhex|]. pose proof Hst as (Hwo & Hvo & Hws & _ & _).
  destruct (entry_key c m k hex Hc Hm Hhex) as (key & Hkey & _).
  pose proof (entry_exists_fetch c m kt vt k w Hload Hkt Hwo key o Hkey Hfetch) as Hex.
  assert (Value_some v = Ok (VOptional (Some v))) as Hsome by (by apply Value_some_exact).
  split.
  - destruct (store_entry c m kt vt k hex w Hc Hm Hload Hkt Hhex Hwo w _ key Hd ltac:(done) Hkey Hst) as (w1 & Hput & Hf1 & Ho1).
    exists w1. split_and!; [|exact Hf1|exact Ho1|].
    + unfold set_entry, inner_set_entry. do 6 db_step. cbn beta iota. do 2 db_step. done.
    + unfold insert_entry, inner_set_entry. do 5 db_step. rewrite (db_bind_Ok _ _ _ _ _ Hex).
      destruct o; [done|]. rewrite bool_decide_false by (by intros []). cbn beta iota. do 2 db_step. done.
  - assert (storable_at (OptionalType vt) Value_none) as Hnone.
    { split_and!; [done..|apply none_has_type|cbn; unfold MAX_LEVELS; lia]. }
    destruct (store_entry c m kt vt k hex w Hc Hm Hload Hkt Hhex Hwo w _ key Hd ltac:(done) Hkey Hnone) as (w2 & Hput & Hf2 & Ho2).
    destruct o.
    + exists w2. split_and!; [|exact Hf2|exact Ho2]. unfold delete_entry. do 4 db_step.
      rewrite (db_bind_Ok _ _ _ _ _ Hex), bool_decide_true by done. cbn [negb]. cbn beta iota. db_step. done.
    + unfold delete_entry. do 4 db_step. rewrite (db_bind_Ok _ _ _ _ _ Hex). by rewrite bool_decide_false by (by intros []).
Qed.

(** ** Tokens *)

(** Writing JSON under a data key, and reading it back. *)
Lemma json_stored {T} `{!Storable T} `{!ClaritySerializable T} dk (x : T) w :
  wrapper_depth w <> 0%nat -> key_ok dk -> storable x ->
  exists key w', key_text dk = Ok key /\ put_json key x w = Ok (tt, w') /\ get_json (T := T) key w' = Ok (Some x, w') /\
    only_changes dk w w'.
Proof.
  intros Hd Hk Hx. destruct (key_text_total dk Hk) as (key & Hkey).
  destruct (json_updated key x w Hd Hx) as (s & w' & Hput & Hupd & Hget). exists key, w'.
  split_and!; [done..|apply Hget, (upd_get_eq _ _ _ _ Hupd)|by apply (updated_only _ key s)].
Qed.

(** Minting against a declared supply: the circulating supply grows by the
    amount exactly if it stays within the total supply, and nothing else
    changes; otherwise the mint is refused with SupplyOverflow, or with
    ArithmeticOverflow if the sum is no u128. *)
Theorem supply_within_total c n total cur amount w key :
  wrapper_depth w <> 0%nat -> addressable (Contract c) -> clarity_name_ok n = true ->
  load_ft c n w = Ok (mkFT (Some total), w) -> in_u 128 total ->
  key_text (KTrip c CirculatingSupply n) = Ok key -> get_json key w = Ok (Some (mkU128 cur), w) ->
  0 <= cur -> 0 <= amount ->
  if decide (cur + amount <= total) then
    exists w', checked_increase_token_supply c n amount w = Ok (tt, w') /\
      get_json key w' = Ok (Some (mkU128 (cur + amount)), w') /\ only_changes (KTrip c CirculatingSupply n) w w'
  else checked_increase_token_supply c n amount w =
    Err (Runtime (if decide (cur + amount < 2 ^ 128) then SupplyOverflow (cur + amount) total else ArithmeticOverflow)).
Proof.
  intros Hd Hc Hn Hload Htotal Hkey Hget Hcur Hamount. unfold in_u in Htotal.
  assert (key_ok (KTrip c CirculatingSupply n)) as Hk by done. pose proof Hkey as Hkey'. cbn in Hkey'.
  assert (forall f : Z -> Db S unit, (cs ← db_lift (ok_or (checked_add 128 cur amount) (Runtime ArithmeticOverflow)); f cs) w =
    if decide (cur + amount < 2 ^ 128) then f (cur + amount) w else Err (Runtime ArithmeticOverflow)) as Hadd.
  { intros f. unfold mbind, db_bind, db_lift. destruct (checked_add 128 cur amount) as [z|] eqn:E.
    - apply checked_add_Some in E as [-> [_ E]]. by rewrite decide_True.
    - rewrite decide_False; [done|]. intros Hlt.
      assert (in_u 128 (cur + amount)) as Hin by (unfold in_u; lia).
      by rewrite (proj2 (checked_add_Some 128 cur amount _) (conj eq_refl Hin)) in E. }
  unfold checked_increase_token_supply. destruct (decide (cur + amount <= total)) as [Hle|Hle].
  - destruct (json_stored (KTrip c CirculatingSupply n) (mkU128 (cur + amount)) w Hd Hk) as (key' & w' & Hk' & Hput & Hget' & Ho).
    { unfold storable, storable_u128, in_u. cbn. lia. }
    rewrite Hkey in Hk'. apply Ok_inj in Hk' as <-. exists w'. split_and!; [|done..].
    db_step. cbn beta iota. do 3 db_step. cbn [u128_val]. rewrite Hadd, decide_True by lia.
    by rewrite (proj2 (Z.ltb_ge _ _)) by lia.
  - db_step. cbn beta iota. do 3 db_step. cbn [u128_val]. rewrite Hadd.
    destruct (decide (cur + amount < 2 ^ 128)); [|done]. by rewrite (proj2 (Z.ltb_lt _ _)) by lia.
Qed.

(** Balances and owners: a token balance (of any principal) and the owner
    of an asset, once set, are read back, and nothing else changes. *)
Theorem token_read_after_write c n p w :
  wrapper_depth w <> 0%nat -> addressable (Contract c) -> clarity_name_ok n = true -> principal_ok p = true ->
  (forall ft balance, load_ft c n w = Ok (ft, w) -> in_u 128 balance -> exists w',
     set_ft_balance c n p balance w = Ok (tt, w') /\ get_ft_balance c n p w' = Ok (balance, w') /\
     only_changes (KQuad c FungibleToken n (json_to_string p)) w w') /\
  (forall kt asset, load_nft c n w = Ok (mkNFT kt, w) -> wf_value asset -> has_type kt asset -> exists hex w',
     serialize (E := Empty_set) asset = Ok hex /\
     set_nft_owner c n asset p w = Ok (tt, w') /\ get_nft_owner c n asset w' = Ok (p, w') /\
     only_changes (KQuad c NonFungibleToken n hex) w w').
Proof.
  intros Hd Hc Hn Hp. split.
  - intros ft balance Hload Hb. set (dk := KQuad c FungibleToken n (json_to_string p)).
    destruct (json_stored dk (mkU128 balance) w Hd ltac:(done) Hb) as (key & w' & Hkey & Hput & Hget & Ho).
    cbn in Hkey. exists w'. split_and!; [by unfold set_ft_balance; db_step| |done].
    assert (load_ft c n w' = Ok (ft, w')) by (apply (load_ext _ _ _ _ w); [apply Ho|exact Hload]).
    unfold get_ft_balance. do 2 db_step. by rewrite (db_bind_Ok _ _ _ _ _ Hget).
  - intros kt asset Hload Hwf Ht. destruct (serialize_Ok asset Hwf) as (hex & Hhex). set (dk := KQuad c NonFungibleToken n hex).
    destruct (json_stored dk p w Hd ltac:(done) Hp) as (key & w' & Hkey & Hput & Hget & Ho). cbn in Hkey.
    assert (forall w0, nft_entry_key (S := S) c n asset w0 = Ok (key, w0)) as Hek
      by (intros w0; unfold nft_entry_key; db_step; by rewrite Hkey).
    exists hex, w'. split_and!; [apply Hhex|by unfold set_nft_owner; do 3 db_step| |done].
    assert (load_nft c n w' = Ok (mkNFT kt, w')) by (apply (load_ext _ _ _ _ w); [apply Ho|exact Hload]).
    unfold get_nft_owner. do 3 db_step. by rewrite (db_bind_Ok _ _ _ _ _ Hget).
Qed.

(** ** Accounts *)

(** Accounts: the STX balance and the nonce of an addressable principal, once
    set, are read back; the balance and the nonce of every other principal, and
    everything else, read as before. *)
Theorem account_read_after_write p w :
  wrapper_depth w <> 0%nat -> addressable p ->
  (forall balance, in_u 128 balance -> exists w',
     set_account_stx_balance p balance w = Ok (tt, w') /\ get_account_stx_balance p w' = Ok (balance, w') /\
     only_changes (KAccount p STXBalance) w w') /\
  (forall nonce, in_u 64 nonce -> exists w',
     set_account_nonce p nonce w = Ok (tt, w') /\ get_account_nonce p w' = Ok (nonce, w') /\
     only_changes (KAccount p Nonce) w w').
Proof.
  intros Hd Hp. split.
  - intros balance Hb. destruct (json_stored (KAccount p STXBalance) (mkU128 balance) w Hd Hp Hb) as (key & w' & Hkey & Hput & Hget & Ho).
    cbn in Hkey. unfold set_account_stx_balance, get_account_stx_balance, make_key_for_account_balance. exists w'.
    split_and!; [by db_step| |done]. db_step. by rewrite (db_bind_Ok _ _ _ _ _ Hget).
  - intros nonce Hb. destruct (json_stored (KAccount p Nonce) (mkU64 nonce) w Hd Hp Hb) as (key & w' & Hkey & Hput & Hget & Ho).
    cbn in Hkey. unfold set_account_nonce, get_account_nonce, make_key_for_account_nonce. exists w'.
    split_and!; [by db_step| |done]. db_step. by rewrite (db_bind_Ok _ _ _ _ _ Hget).
Qed.

(** Principals with a version byte of 32 or more have one account between
    them: setting the STX balance of one sets that of every other. *)
Theorem unaddressable_accounts_shared v v' data data' balance w :
  wrapper_depth w <> 0%nat -> 32 <= v -> 32 <= v' -> in_u 128 balance ->
  exists w', set_account_stx_balance (Standard (mkStandard v data)) balance w = Ok (tt, w') /\
    get_account_stx_balance (Standard (mkStandard v' data')) w' = Ok (balance, w').
Proof.
  intros Hd Hv Hv' Hb. set (key := ("vm-account::INVALID_C32_ADD::19")%string).
  assert (forall u d, 32 <= u -> make_key_for_account_balance (Standard (mkStandard u d)) = Ok key) as Hkey.
  { intros u d Hu. unfold make_key_for_account_balance, make_key_for_account. cbn [PrincipalData_display].
    unfold to_address, c32_address, c32_check_encode. cbn [sp_version sp_bytes]. by rewrite (proj2 (Z.leb_le 32 u)). }
  destruct (json_updated key (mkU128 balance) w Hd Hb) as (s & w' & Hput & Hupd & Hget).
  pose proof (Hkey v data Hv). pose proof (Hkey v' data' Hv'). exists w'.
  unfold set_account_stx_balance, get_account_stx_balance. split; [by db_step|]. db_step.
  by rewrite (db_bind_Ok _ _ _ _ _ (Hget _ (upd_get_eq _ _ _ _ Hupd))).
Qed.
End database.
