(* ===== verification/Instances.v ===== *)
(** Concrete instances of the interfaces to other libraries, and the database
    properties applied to them. *)
From stdpp Require Import base strings numbers list gmap countable.
From Stdlib Require Import Ascii ZArith Lia.
From S2P Require Import Prelude Names BTree Types Representations TypeFacts Subtyping Supertypes Values Serialization Codec C32 C32Facts RollbackWrapper BackingStore Costs ClarityDatabase Keys DatabaseFacts.
#[local] Open Scope Z_scope.

(** * Text for countable types *)

Fixpoint pos_text (p : positive) : string :=
  match p with
  | xH => ""
  | xO p => String "0"%char (pos_text p)
  | xI p => String "1"%char (pos_text p)
  end.
Fixpoint text_pos (s : string) : option positive :=
  match s with
  | EmptyString => Some xH
  | String "0"%char s => xO <$> text_pos s
  | String "1"%char s => xI <$> text_pos s
  | _ => None
  end.

Lemma text_pos_text p : text_pos (pos_text p) = Some p.
Proof. induction p as [p IH|p IH|]; cbn; [by rewrite IH..|done]. Qed.

(** Types as trees. *)
Notation leaf := (Z + (string + TraitIdentifier))%type.
Fixpoint type_tree (t : TypeSignature) : gen_tree leaf :=
  match t with
  | NoType => GenNode 0 []
  | IntType => GenNode 1 []
  | UIntType => GenNode 2 []
  | BoolType => GenNode 3 []
  | PrincipalType => GenNode 4 []
  | BufferType n => GenNode 5 [GenLeaf (inl n)]
  | ListType n e => GenNode 6 [GenLeaf (inl n); type_tree e]
  | TupleType m => GenNode 7 (flat_map (fun kv => [GenLeaf (inr (inl kv.1)); type_tree kv.2]) m)
  | OptionalType t => GenNode 8 [type_tree t]
  | ResponseType a b => GenNode 9 [type_tree a; type_tree b]
  | TraitReferenceType i => GenNode 10 [GenLeaf (inr (inr i))]
  end.
Fixpoint tree_type (g : gen_tree leaf) : TypeSignature :=
  match g with
  | GenNode 1 _ => IntType
  | GenNode 2 _ => UIntType
  | GenNode 3 _ => BoolType
  | GenNode 4 _ => PrincipalType
  | GenNode 5 [GenLeaf (inl n)] => BufferType n
  | GenNode 6 [GenLeaf (inl n); e] => ListType n (tree_type e)
  | GenNode 7 l => TupleType ((fix pairs (l : list (gen_tree leaf)) : list (string * TypeSignature) :=
      match l with
      | GenLeaf (inr (inl k)) :: t :: l => (k, tree_type t) :: pairs l
      | _ => []
      end) l)
  | GenNode 8 [t] => OptionalType (tree_type t)
  | GenNode 9 [a; b] => ResponseType (tree_type a) (tree_type b)
  | GenNode 10 [GenLeaf (inr (inr i))] => TraitReferenceType i
  | _ => NoType
  end.

Lemma tree_type_tree t : tree_type (type_tree t) = t.
Proof.
  induction t as [| | | |n| |n e IH|m Hm|t IH|a b IHa IHb|i] using TypeSignature_ind'; cbn; rewrite ?IH, ?IHa, ?IHb; try done.
  f_equal. induction Hm as [|[k t] m Ht _ IH]; cbn; [done|]. cbn in Ht. by rewrite Ht, IH.
Qed.

(** A codec from a retraction to a countable type. *)
Definition countable_serde {T U : Type} `{!Storable T} `{Countable U} (to : T -> U) (from : U -> T)
    (Hfrom : forall x, from (to x) = x) : ClaritySerializable T.
Proof.
  refine {| json_to_string x := pos_text (encode (to x));
            json_from_str s := y ← expect_opt (text_pos s ≫= decode); Ok (from y) |}.
  intros x _. rewrite text_pos_text. cbn. rewrite decode_encode. cbn. by rewrite Hfrom.
Defined.

Definition u128_serde : ClaritySerializable U128 := countable_serde u128_val mkU128 ltac:(by intros []).
Definition u64_serde : ClaritySerializable U64 := countable_serde u64_val mkU64 ltac:(by intros []).
Definition principal_serde : ClaritySerializable PrincipalData := countable_serde id id ltac:(done).
Definition ft_serde : ClaritySerializable FungibleTokenMetadata := countable_serde total_supply mkFT ltac:(by intros []).
Definition nft_serde : ClaritySerializable NonFungibleTokenMetadata.
Proof.
  apply (countable_serde (fun x => type_tree (nft_key_type x)) (fun g => mkNFT (tree_type g))).
  intros []. cbn. by rewrite tree_type_tree.
Defined.
Definition var_serde : ClaritySerializable DataVariableMetadata.
Proof.
  apply (countable_serde (fun x => type_tree (value_type x)) (fun g => mkVar (tree_type g))).
  intros []. cbn. by rewrite tree_type_tree.
Defined.
Definition map_serde : ClaritySerializable DataMapMetadata.
Proof.
  apply (countable_serde (fun x => (type_tree (map_key_type x), type_tree (map_value_type x)))
    (fun g => mkMap (tree_type g.1) (tree_type g.2))).
  intros []. cbn. by rewrite !tree_type_tree.
Defined.

(** * Witnesses *)

(** Closes an equation by evaluating both sides, without leaving the evaluated
    states in the proof. *)
Ltac by_evaluation :=
  lazymatch goal with
  | |- _ = ?rhs => vm_cast_no_check (eq_refl rhs)
  | _ => vm_compute; reflexivity
  end.

Section witnesses.
#[local] Existing Instances zero_sha256 u128_serde u64_serde principal_serde ft_serde nft_serde var_serde map_serde.

Notation log := (RollbackWrapper MemoryBackingStore).

(** The log a database operation leaves. *)
Definition log_after {A} (m : Db MemoryBackingStore A) (w : log) : log :=
  match m w with Ok (_, w) => w | _ => w end.

Definition open_log : log := wrapper_nest (wrapper_new MemoryBackingStore_new).
Definition declared_log : log :=
  log_after (_ ← create_variable example_contract "counter" UIntType;
             _ ← create_map example_contract "names" [("id", UIntType)] [("tag", BufferType 4)];
             _ ← create_fungible_token example_contract "coin" (Some 100);
             create_non_fungible_token example_contract "coin" UIntType) open_log.

Lemma example_addressable : addressable (Contract example_contract).
Proof.
  split; [|vm_compute; reflexivity]. split; [by unfold digit|]. split; [|reflexivity].
  apply Forall_replicate. by unfold u8, in_u.
Qed.

Definition example_key : Value := VTuple [("id", UIntType)] [("id", VUInt 1)].
Definition example_entry : Value := VTuple [("tag", BufferType 4)] [("tag", VBuffer [1; 2; 3; 4])].

Lemma map_operations_witness :
  exists hex, serialize (E := Empty_set) example_key = Ok hex /\
  (exists w1, set_entry example_contract "names" example_key example_entry declared_log = Ok (VBool true, w1) /\
     fetch_entry example_contract "names" example_key w1 =
       Ok (VOptional (Some (retype (TupleType [("tag", BufferType 4)]) example_entry)), w1) /\
     only_changes (KQuad example_contract DataMap "names" hex) declared_log w1 /\
     insert_entry example_contract "names" example_key example_entry declared_log = Ok (VBool true, w1)) /\
  delete_entry example_contract "names" example_key declared_log = Ok (VBool false, declared_log).
Proof.
  apply (map_operations example_contract "names" (TupleType [("id", UIntType)]) (TupleType [("tag", BufferType 4)])
    example_key example_entry None declared_log).
  - vm_compute. discriminate.
  - apply example_addressable.
  - by_evaluation.
  - by_evaluation.
  - by_evaluation.
  - apply admitsb_iff. by_evaluation.
  - by_evaluation.
  - apply admitsb_iff. by_evaluation.
  - split; [by_evaluation|]. split; [by_evaluation|]. split; [by_evaluation|].
    split; [apply admitsb_iff; by_evaluation|vm_compute; lia].
  - by_evaluation.
Defined.

End witnesses.
