(* ===== verification/AssetMap.v ===== *)
(** The record of what a transaction moved: [AssetMap] of src/vm/contexts.rs.
    A [HashMap] is a [gmap]; draining one visits its entries in an unspecified
    order, for which the model takes that of [map_to_list], and the theorems
    determine the outcome by look-ups, hence for every order: [commit_other] adds up
    amounts and appends transfers entry by entry, or fails without an effect if a
    sum overflows. *)
From stdpp Require Import base strings numbers list gmap.
From Stdlib Require Import ZArith Lia.
From S2P Require Import Prelude Names Types.
#[local] Open Scope Z_scope.

Record AssetMap := mkAssetMap {
  stx_map : gmap PrincipalData Z;
  burn_map : gmap PrincipalData Z;
  token_map : gmap PrincipalData (gmap AssetIdentifier Z);
  asset_map : gmap PrincipalData (gmap AssetIdentifier (list Value));
}.

Inductive AssetMapEntry :=
| EntrySTX (amount : Z)
| EntryBurn (amount : Z)
| EntryToken (amount : Z)
| EntryAsset (values : list Value).

Definition AssetMap_new : AssetMap := mkAssetMap ∅ ∅ ∅ ∅.

(** The sum that the tables would hold next. *)
Definition next_amount (current : option Z) (amount : Z) : Res VmError Z :=
  ok_or (checked_add 128 (default 0 current) amount) (Runtime ArithmeticOverflow).

Definition get_next_stx_amount (self : AssetMap) (principal : PrincipalData) (amount : Z) : Res VmError Z :=
  next_amount (stx_map self !! principal) amount.
Definition get_next_stx_burn_amount (self : AssetMap) (principal : PrincipalData) (amount : Z) : Res VmError Z :=
  next_amount (burn_map self !! principal) amount.
Definition get_next_amount (self : AssetMap) (principal : PrincipalData) (asset : AssetIdentifier) (amount : Z)
  : Res VmError Z :=
  next_amount (token_map self !! principal ≫= (fun principal_map => principal_map !! asset)) amount.

(** [contains_key], [insert] of an empty map if not, then [insert] into the map
    found. *)
Definition insert_nested {A} (m : gmap PrincipalData (gmap AssetIdentifier A))
    (principal : PrincipalData) (asset : AssetIdentifier) (a : A)
  : gmap PrincipalData (gmap AssetIdentifier A) :=
  let m := match m !! principal with Some _ => m | None => <[principal := ∅]> m end in
  alter (insert asset a) principal m.

Definition add_stx_transfer (self : AssetMap) (principal : PrincipalData) (amount : Z) : Res VmError AssetMap :=
  n ← get_next_stx_amount self principal amount;
  Ok (mkAssetMap (<[principal := n]> (stx_map self)) (burn_map self) (token_map self) (asset_map self)).

Definition add_stx_burn (self : AssetMap) (principal : PrincipalData) (amount : Z) : Res VmError AssetMap :=
  n ← get_next_stx_burn_amount self principal amount;
  Ok (mkAssetMap (stx_map self) (<[principal := n]> (burn_map self)) (token_map self) (asset_map self)).

(** The values recorded for an asset, with more appended. *)
Definition append_nested (m : gmap PrincipalData (gmap AssetIdentifier (list Value)))
    (principal : PrincipalData) (asset : AssetIdentifier) (l : list Value)
  : gmap PrincipalData (gmap AssetIdentifier (list Value)) :=
  insert_nested m principal asset
    (match m !! principal ≫= (fun principal_map => principal_map !! asset) with
     | Some transfers => transfers ++ l
     | None => l
     end).

Definition add_asset_transfer (self : AssetMap) (principal : PrincipalData) (asset : AssetIdentifier)
    (transfered : Value) : AssetMap :=
  mkAssetMap (stx_map self) (burn_map self) (token_map self)
    (append_nested (asset_map self) principal asset [transfered]).

Definition add_token_transfer (self : AssetMap) (principal : PrincipalData) (asset : AssetIdentifier)
    (amount : Z) : Res VmError AssetMap :=
  n ← get_next_amount self principal asset amount;
  Ok (mkAssetMap (stx_map self) (burn_map self) (insert_nested (token_map self) principal asset n) (asset_map self)).

(** The entries of a map of maps, as the two nested loops visit them. *)
Definition nested_entries {A} (m : gmap PrincipalData (gmap AssetIdentifier A))
  : list (PrincipalData * AssetIdentifier * A) :=
  flat_map (fun '(p, pm) => map (fun '(a, x) => (p, a, x)) (map_to_list pm)) (map_to_list m).

(** [commit_other]: the sums are computed first, so that an overflow leaves
    [self] as it is. *)
Definition commit_other (self other : AssetMap) : Res VmError AssetMap :=
  to_add ← mapMR (fun '(p, a, amount) => n ← get_next_amount self p a amount; Ok (p, a, n))
             (nested_entries (token_map other));
  stx_to_add ← mapMR (fun '(p, amount) => n ← get_next_stx_amount self p amount; Ok (p, n))
                 (map_to_list (stx_map other));
  stx_burn_to_add ← mapMR (fun '(p, amount) => n ← get_next_stx_burn_amount self p amount; Ok (p, n))
                      (map_to_list (burn_map other));
  let assets := foldl (fun m '(p, a, transfers) => append_nested m p a transfers)
                  (asset_map self) (nested_entries (asset_map other)) in
  let stx := foldl (fun m '(p, n) => <[p := n]> m) (stx_map self) stx_to_add in
  let burn := foldl (fun m '(p, n) => <[p := n]> m) (burn_map self) stx_burn_to_add in
  let tokens := foldl (fun m '(p, a, n) => insert_nested m p a n) (token_map self) to_add in
  Ok (mkAssetMap stx burn tokens assets).

(** [to_table]. *)
Definition to_table (self : AssetMap) : gmap PrincipalData (gmap AssetIdentifier AssetMapEntry) :=
  let map := foldl (fun (map : gmap PrincipalData (gmap AssetIdentifier AssetMapEntry)) '(p, pm) =>
      <[p := foldl (fun (out : gmap AssetIdentifier AssetMapEntry) '(a, n) => <[a := EntryToken n]> out)
               ∅ (map_to_list pm)]> map) ∅ (map_to_list (token_map self)) in
  let map := foldl (fun map '(p, n) => insert_nested map p AssetIdentifier_STX (EntrySTX n))
      map (map_to_list (stx_map self)) in
  let map := foldl (fun map '(p, n) => insert_nested map p AssetIdentifier_STX_burned (EntryBurn n))
      map (map_to_list (burn_map self)) in
  foldl (fun (map : gmap PrincipalData (gmap AssetIdentifier AssetMapEntry)) '(p, pm) =>
      let map := match map !! p with Some _ => map | None => <[p := ∅]> map end in
      alter (fun out => foldl (fun (out : gmap AssetIdentifier AssetMapEntry) '(a, l) => <[a := EntryAsset l]> out)
               out (map_to_list pm)) p map)
    map (map_to_list (asset_map self)).

(** Look-ups. *)
Definition get_stx (self : AssetMap) (principal : PrincipalData) : option Z := stx_map self !! principal.
Definition get_stx_burned (self : AssetMap) (principal : PrincipalData) : option Z := burn_map self !! principal.
Definition get_fungible_tokens (self : AssetMap) (principal : PrincipalData) (asset : AssetIdentifier) : option Z :=
  token_map self !! principal ≫= (fun assets => assets !! asset).
Definition get_nonfungible_tokens (self : AssetMap) (principal : PrincipalData) (asset : AssetIdentifier)
  : option (list Value) :=
  asset_map self !! principal ≫= (fun assets => assets !! asset).

(** [get_stx_burned_total]: panics if the sum overflows. *)
Definition get_stx_burned_total (self : AssetMap) : Res Empty_set Z :=
  foldM (fun total '(p, _) => expect_opt (checked_add 128 total (default 0 (burn_map self !! p))))
    0 (map_to_list (burn_map self)).

(** * Loops that update one key at a time *)

Section updates.
Context {M K V W : Type} `{EqDecision K}.
Context (lk : M -> K -> option W) (f : M -> K * V -> M) (g : option W -> V -> W).
Context (lk_f : forall m k v k', lk (f m (k, v)) k' = if decide (k' = k) then Some (g (lk m k) v) else lk m k').

Lemma foldl_upd_other l m k : k ∉ l.*1 -> lk (foldl f m l) k = lk m k.
Proof.
  revert m; induction l as [|[k1 v1] l IH]; intros m Hk; cbn [foldl]; [done|].
  cbn in Hk. apply not_elem_of_cons in Hk as [Hne Hk]. rewrite IH by done. rewrite lk_f.
  by rewrite decide_False.
Qed.

Lemma foldl_upd_elem l m k v :
  NoDup l.*1 -> (k, v) ∈ l -> lk (foldl f m l) k = Some (g (lk m k) v).
Proof.
  revert m; induction l as [|[k1 v1] l IH]; intros m Hnd Hin; [by apply not_elem_of_nil in Hin|].
  cbn [fmap list_fmap fst] in Hnd. apply NoDup_cons in Hnd as [Hk1 Hnd]. cbn [foldl].
  apply elem_of_cons in Hin as [[= -> ->]|Hin].
  - rewrite foldl_upd_other by done. rewrite lk_f. by rewrite decide_True.
  - rewrite IH by done. rewrite lk_f. rewrite decide_False; [done|]. cbn.
    intros ->. apply Hk1. apply list_elem_of_fmap. by exists (k1, v).
Qed.

(** The list is the graph of a finite map [lk']. *)
Lemma foldl_upd_graph (lk' : K -> option V) l m k :
  NoDup l.*1 -> (forall k v, (k, v) ∈ l <-> lk' k = Some v) ->
  lk (foldl f m l) k = match lk' k with Some v => Some (g (lk m k) v) | None => lk m k end.
Proof.
  intros Hnd Hg. destruct (lk' k) as [v|] eqn:E.
  - apply foldl_upd_elem; [done|]. by apply Hg.
  - apply foldl_upd_other. intros ([k0 v] & -> & Hin)%list_elem_of_fmap. apply Hg in Hin. cbn in E. congruence.
Qed.
End updates.

(** * Maps of maps *)

Definition lookup2 {A} (m : gmap PrincipalData (gmap AssetIdentifier A)) (k : PrincipalData * AssetIdentifier)
  : option A := m !! k.1 ≫= (fun pm => pm !! k.2).

Lemma lookup2_insert_nested {A} (m : gmap PrincipalData (gmap AssetIdentifier A)) p a x k :
  lookup2 (insert_nested m p a x) k = if decide (k = (p, a)) then Some x else lookup2 m k.
Proof.
  destruct k as [p' a']. unfold lookup2, insert_nested; cbn [fst snd].
  destruct (decide (p = p')) as [<-|Hp].
  - rewrite lookup_alter, decide_True by done. destruct (m !! p) as [pm|] eqn:E.
    + rewrite E. cbn. rewrite lookup_insert. repeat case_decide; congruence.
    + rewrite lookup_insert_eq. cbn. rewrite lookup_insert, lookup_empty. repeat case_decide; congruence.
  - rewrite lookup_alter_ne by done. rewrite (decide_False (P := (p', a') = (p, a))) by congruence.
    destruct (m !! p); [done|]. by rewrite lookup_insert_ne.
Qed.

Definition append_opt {A} (a : option (list A)) (l : list A) : list A := default [] a ++ l.

Lemma lookup2_append_nested m p a l k :
  lookup2 (append_nested m p a l) k = if decide (k = (p, a)) then Some (append_opt (lookup2 m (p, a)) l) else lookup2 m k.
Proof.
  unfold append_nested. rewrite lookup2_insert_nested. case_decide; [|done].
  unfold append_opt, lookup2; cbn [fst snd]. by destruct (m !! p ≫= _).
Qed.

Lemma elem_nested_entries {A} (m : gmap PrincipalData (gmap AssetIdentifier A)) k x :
  (k, x) ∈ nested_entries m <-> lookup2 m k = Some x.
Proof.
  destruct k as [p a]. unfold nested_entries, lookup2; cbn [fst snd].
  rewrite list_elem_of_In, in_flat_map. split.
  - intros ([p' pm] & Hp & Hin). apply in_map_iff in Hin as ([a' x'] & [= -> -> ->] & Ha).
    apply list_elem_of_In, elem_of_map_to_list in Hp, Ha. by rewrite Hp.
  - intros (pm & Hp & Ha)%bind_Some. exists (p, pm). split; [by apply list_elem_of_In, elem_of_map_to_list|].
    apply in_map_iff. exists (a, x). split; [done|]. by apply list_elem_of_In, elem_of_map_to_list.
Qed.

Lemma NoDup_nested_entries {A} (m : gmap PrincipalData (gmap AssetIdentifier A)) :
  NoDup (nested_entries m).*1.
Proof.
  unfold nested_entries. pose proof (NoDup_fst_map_to_list m) as Hnd. revert Hnd.
  induction (map_to_list m) as [|[p pm] l IH]; intros Hnd; cbn [flat_map]; [apply NoDup_nil_2|].
  cbn [fmap list_fmap fst] in Hnd. apply NoDup_cons in Hnd as [Hp Hnd].
  rewrite fmap_app. apply NoDup_app. split_and!; [| |by apply IH].
  - assert ((map (fun '(a, x) => (p, a, x)) (map_to_list pm)).*1 = pair p <$> (map_to_list pm).*1) as ->.
    { induction (map_to_list pm) as [|[] ? IHl]; [done|]. cbn. f_equal. apply IHl. }
    apply NoDup_fmap_2; [by intros ?? [=]|apply NoDup_fst_map_to_list].
  - intros [p' a] Hin Hin'. apply list_elem_of_fmap in Hin as ([[] x] & [= <- <-] & Hin).
    apply list_elem_of_In, in_map_iff in Hin as ([] & [= -> -> ->] & _).
    apply list_elem_of_fmap in Hin' as ([[] x'] & [= <- <-] & Hin').
    apply list_elem_of_In, in_flat_map in Hin' as ([q qm] & Hq & Hin').
    apply in_map_iff in Hin' as ([] & [= -> -> ->] & _).
    apply Hp, list_elem_of_fmap. exists (p', qm). split; [done|]. by apply list_elem_of_In.
Qed.

(** * Adding amounts *)

(** Amount recorded after adding an entry of the other map. *)
Definition sum_opt (a b : option Z) : option Z :=
  match b with Some y => Some (default 0 a + y) | None => a end.

Definition fits_sum (a : option Z) (y : Z) : bool := bool_decide (in_u 128 (default 0 a + y)).

Lemma next_amount_cases a y :
  next_amount a y = if fits_sum a y then Ok (default 0 a + y) else Err (Runtime ArithmeticOverflow).
Proof.
  unfold next_amount, fits_sum. destruct (checked_add _ _ _) eqn:E.
  - apply checked_add_Some in E as [-> E]. by rewrite bool_decide_true.
  - rewrite bool_decide_false; [done|]. intros H.
    by rewrite (proj2 (checked_add_Some _ _ _ _) (conj eq_refl H)) in E.
Qed.

Lemma mapMR_cases {E A B} (f : A -> Res E B) (p : A -> bool) (h : A -> B) e l :
  (forall x, f x = if p x then Ok (h x) else Err e) ->
  mapMR f l = if forallb p l then Ok (map h l) else Err e.
Proof.
  intros Hf. induction l as [|x l IH]; cbn; [done|]. rewrite Hf, IH.
  by destruct (p x); cbn; [destruct (forallb p l)|].
Qed.

Section sums.
Context {M K : Type} `{EqDecision K}.
Context (lk : M -> K -> option Z) (f : M -> K * Z -> M).
Context (lk_f : forall m k v k', lk (f m (k, v)) k' = if decide (k' = k) then Some v else lk m k').
Context (self : M) (lk' : K -> option Z) (l : list (K * Z)).
Context (Hnd : NoDup l.*1) (Hg : forall k v, (k, v) ∈ l <-> lk' k = Some v).

Definition sums_to_add : list (K * Z) := map (fun kv => (kv.1, default 0 (lk self kv.1) + kv.2)) l.

(** Sums computed by a first loop and stored by a second one. *)
Lemma sums_stored k : lk (foldl f self sums_to_add) k = sum_opt (lk self k) (lk' k).
Proof.
  unfold sums_to_add. rewrite (foldl_upd_graph lk f (fun _ v => v) lk_f (fun k => (fun y => default 0 (lk self k) + y) <$> lk' k)).
  - by destruct (lk' k).
  - rewrite <-list_fmap_compose. exact Hnd.
  - intros k1 v1. rewrite list_elem_of_In, in_map_iff. split.
    + intros ([k2 v2] & [= -> <-] & Hin). apply list_elem_of_In, Hg in Hin. by rewrite Hin.
    + intros (y & Hy & ->)%fmap_Some. exists (k1, y). split; [done|]. by apply list_elem_of_In, Hg.
Qed.

Lemma sums_fit :
  forallb (fun kv => fits_sum (lk self kv.1) kv.2) l = true <->
  (forall k y, lk' k = Some y -> in_u 128 (default 0 (lk self k) + y)).
Proof.
  rewrite forallb_forall. split.
  - intros H k y Hk%Hg%list_elem_of_In. apply H in Hk. by apply bool_decide_eq_true in Hk.
  - intros H [k y] Hin%list_elem_of_In%Hg. apply bool_decide_eq_true. by apply H.
Qed.
End sums.

(** * Merging *)

(** Every sum that merging [b] into [a] stores is a [u128]. *)
Definition no_overflow (a b : AssetMap) : Prop :=
  (forall p y, get_stx b p = Some y -> in_u 128 (default 0 (get_stx a p) + y)) /\
  (forall p y, get_stx_burned b p = Some y -> in_u 128 (default 0 (get_stx_burned a p) + y)) /\
  (forall p x y, get_fungible_tokens b p x = Some y -> in_u 128 (default 0 (get_fungible_tokens a p x) + y)).

Definition merged (a b c : AssetMap) : Prop :=
  (forall p, get_stx c p = sum_opt (get_stx a p) (get_stx b p)) /\
  (forall p, get_stx_burned c p = sum_opt (get_stx_burned a p) (get_stx_burned b p)) /\
  (forall p x, get_fungible_tokens c p x = sum_opt (get_fungible_tokens a p x) (get_fungible_tokens b p x)) /\
  (forall p x, get_nonfungible_tokens c p x =
     match get_nonfungible_tokens b p x with
     | Some l => Some (default [] (get_nonfungible_tokens a p x) ++ l)
     | None => get_nonfungible_tokens a p x
     end).

Lemma lookup_insert_rev (m : gmap PrincipalData Z) k v k' :
  <[k := v]> m !! k' = if decide (k' = k) then Some v else m !! k'.
Proof. rewrite lookup_insert. repeat case_decide; congruence. Qed.

Definition lookup1 (m : gmap PrincipalData Z) (p : PrincipalData) : option Z := m !! p.

Lemma commit_amounts (a b : gmap PrincipalData Z) p :
  foldl (fun m '(p, n) => <[p := n]> m) a (sums_to_add lookup1 a (map_to_list b)) !! p = sum_opt (a !! p) (b !! p).
Proof.
  apply (sums_stored lookup1 _ lookup_insert_rev a (lookup1 b));
    [apply NoDup_fst_map_to_list|intros; apply elem_of_map_to_list].
Qed.

Lemma amounts_fit (a b : gmap PrincipalData Z) :
  forallb (fun kv => fits_sum (a !! kv.1) kv.2) (map_to_list b) = true <->
  (forall p y, b !! p = Some y -> in_u 128 (default 0 (a !! p) + y)).
Proof. apply (sums_fit lookup1 a (lookup1 b)). intros; apply elem_of_map_to_list. Qed.

Lemma lookup2_insert_entry {A} (m : gmap PrincipalData (gmap AssetIdentifier A)) (k : PrincipalData * AssetIdentifier) x k' :
  lookup2 (insert_nested m k.1 k.2 x) k' = if decide (k' = k) then Some x else lookup2 m k'.
Proof. destruct k. apply lookup2_insert_nested. Qed.

Definition insert_entry {A} (m : gmap PrincipalData (gmap AssetIdentifier A)) (e : PrincipalData * AssetIdentifier * A)
  := let '(p, a, n) := e in insert_nested m p a n.
Definition append_entry m (e : PrincipalData * AssetIdentifier * list Value) :=
  let '(p, a, l) := e in append_nested m p a l.

Lemma commit_tokens (a b : gmap PrincipalData (gmap AssetIdentifier Z)) k :
  lookup2 (foldl insert_entry a (sums_to_add lookup2 a (nested_entries b))) k = sum_opt (lookup2 a k) (lookup2 b k).
Proof.
  apply (sums_stored lookup2 insert_entry); [|apply NoDup_nested_entries|apply elem_nested_entries].
  intros m [p x] v k'. apply lookup2_insert_nested.
Qed.

Lemma tokens_fit (a b : gmap PrincipalData (gmap AssetIdentifier Z)) :
  forallb (fun kv => fits_sum (lookup2 a kv.1) kv.2) (nested_entries b) = true <->
  (forall p x y, lookup2 b (p, x) = Some y -> in_u 128 (default 0 (lookup2 a (p, x)) + y)).
Proof.
  rewrite (sums_fit lookup2 a (lookup2 b) _ (elem_nested_entries b)).
  split; [intros H p x; apply H|intros H [p x]; apply H].
Qed.

Lemma commit_assets (a b : gmap PrincipalData (gmap AssetIdentifier (list Value))) k :
  lookup2 (foldl append_entry a (nested_entries b)) k =
  match lookup2 b k with Some l => Some (default [] (lookup2 a k) ++ l) | None => lookup2 a k end.
Proof.
  apply (foldl_upd_graph lookup2 append_entry append_opt);
    [|apply NoDup_nested_entries|apply elem_nested_entries].
  intros m [p x] v k'. apply lookup2_append_nested.
Qed.

(** The two phases of [commit_other] in closed form. *)
Lemma commit_other_cases a b :
  commit_other a b =
  if forallb (fun kv => fits_sum (lookup2 (token_map a) kv.1) kv.2) (nested_entries (token_map b))
     && forallb (fun kv => fits_sum (stx_map a !! kv.1) kv.2) (map_to_list (stx_map b))
     && forallb (fun kv => fits_sum (burn_map a !! kv.1) kv.2) (map_to_list (burn_map b))
  then Ok (mkAssetMap
         (foldl (fun m '(p, n) => <[p := n]> m) (stx_map a) (sums_to_add lookup1 (stx_map a) (map_to_list (stx_map b))))
         (foldl (fun m '(p, n) => <[p := n]> m) (burn_map a) (sums_to_add lookup1 (burn_map a) (map_to_list (burn_map b))))
         (foldl insert_entry (token_map a) (sums_to_add lookup2 (token_map a) (nested_entries (token_map b))))
         (foldl append_entry (asset_map a) (nested_entries (asset_map b))))
  else Err (Runtime ArithmeticOverflow).
Proof.
  unfold commit_other.
  rewrite (mapMR_cases _ (fun kv => fits_sum (lookup2 (token_map a) kv.1) kv.2)
    (fun kv => (kv.1, default 0 (lookup2 (token_map a) kv.1) + kv.2)) (Runtime ArithmeticOverflow)).
  2:{ intros [[p x] n]. unfold get_next_amount. rewrite next_amount_cases. unfold lookup2. cbn [fst snd].
      by destruct (fits_sum _ _). }
  destruct (forallb _ (nested_entries _)); cbn [mbind res_bind andb]; [|done].
  rewrite (mapMR_cases (fun '(p, y) => n ← get_next_stx_amount a p y; Ok (p, n))
    (fun kv => fits_sum (stx_map a !! kv.1) kv.2)
    (fun kv => (kv.1, default 0 (lookup1 (stx_map a) kv.1) + kv.2)) (Runtime ArithmeticOverflow)).
  2:{ intros [p n]. unfold get_next_stx_amount. rewrite next_amount_cases. cbn. by destruct (fits_sum _ _). }
  destruct (forallb _ (map_to_list (stx_map b))); cbn [mbind res_bind andb]; [|done].
  rewrite (mapMR_cases (fun '(p, y) => n ← get_next_stx_burn_amount a p y; Ok (p, n))
    (fun kv => fits_sum (burn_map a !! kv.1) kv.2)
    (fun kv => (kv.1, default 0 (lookup1 (burn_map a) kv.1) + kv.2)) (Runtime ArithmeticOverflow)).
  2:{ intros [p n]. unfold get_next_stx_burn_amount. rewrite next_amount_cases. cbn. by destruct (fits_sum _ _). }
  by destruct (forallb _ (map_to_list (burn_map b))).
Qed.

Lemma commit_other_total (a b : AssetMap) :
  (no_overflow a b /\ exists c, commit_other a b = Ok c /\ merged a b c) \/
  (~ no_overflow a b /\ commit_other a b = Err (Runtime ArithmeticOverflow)).
Proof.
  rewrite commit_other_cases. destruct (forallb _ _ && _ && _) eqn:E.
  - left. apply andb_true_iff in E as [E Hb]. apply andb_true_iff in E as [Ht Hs].
    pose proof (proj1 (tokens_fit _ _) Ht) as Ht'.
    pose proof (proj1 (amounts_fit _ _) Hs) as Hs'. pose proof (proj1 (amounts_fit _ _) Hb) as Hb'.
    split; [done|].
    eexists; split; [done|]. split_and!; intros; [apply commit_amounts..| |].
    + apply (commit_tokens _ _ (_, _)).
    + apply (commit_assets _ _ (_, _)).
  - right. split; [|done]. intros (Hs & Hb & Ht).
    apply (proj2 (tokens_fit (token_map a) (token_map b))) in Ht.
    apply (proj2 (amounts_fit (stx_map a) (stx_map b))) in Hs.
    apply (proj2 (amounts_fit (burn_map a) (burn_map b))) in Hb. by rewrite Ht, Hs, Hb in E.
Qed.

Lemma commit_other_cases_spec a b :
  (exists c, commit_other a b = Ok c /\ merged a b c) \/
  (~ no_overflow a b /\ commit_other a b = Err (Runtime ArithmeticOverflow)).
Proof.
  destruct (commit_other_total a b) as [(_ & c & Hc)|Hc]; [left|right]; eauto.
Qed.

(** Merging the asset map of a nested execution into the enclosing one
    ([commit_other]) never panics.  It succeeds exactly if no sum leaves the
    range of u128; then every amount is the sum of the two amounts and every
    list of transferred assets is the two lists appended, for every principal
    and asset.  Otherwise the result is ArithmeticOverflow. *)
Theorem commit_other_spec (a b : AssetMap) :
  (no_overflow a b /\ exists c, commit_other a b = Ok c /\ merged a b c) \/
  (~ no_overflow a b /\ commit_other a b = Err (Runtime ArithmeticOverflow)).
Proof. apply commit_other_total. Qed.

(** * The table reported to clients *)

(** What the table shows for one principal and asset. *)
Definition table_entry (m : AssetMap) (p : PrincipalData) (x : AssetIdentifier) : option AssetMapEntry :=
  match get_nonfungible_tokens m p x with
  | Some l => Some (EntryAsset l)
  | None =>
      match (if decide (x = AssetIdentifier_STX_burned) then get_stx_burned m p else None) with
      | Some n => Some (EntryBurn n)
      | None =>
          match (if decide (x = AssetIdentifier_STX) then get_stx m p else None) with
          | Some n => Some (EntrySTX n)
          | None => EntryToken <$> get_fungible_tokens m p x
          end
      end
  end.

Lemma fold_entries {A} (c : A -> AssetMapEntry) (out : gmap AssetIdentifier AssetMapEntry) (pm : gmap AssetIdentifier A) x :
  foldl (fun (out : gmap AssetIdentifier AssetMapEntry) '(a, n) => <[a := c n]> out) out (map_to_list pm) !! x =
  match pm !! x with Some n => Some (c n) | None => out !! x end.
Proof.
  apply (foldl_upd_graph (fun (m : gmap AssetIdentifier AssetMapEntry) x => m !! x) _ (fun _ n => c n)) with (lk' := fun x => pm !! x);
    [|apply NoDup_fst_map_to_list|intros; apply elem_of_map_to_list].
  intros m k v k'. rewrite lookup_insert. repeat case_decide; congruence.
Qed.

Lemma fold_single (c : Z -> AssetMapEntry) id (m0 : gmap PrincipalData (gmap AssetIdentifier AssetMapEntry)) (sm : gmap PrincipalData Z) p x :
  lookup2 (foldl (fun map '(p, n) => insert_nested map p id (c n)) m0 (map_to_list sm)) (p, x) =
  match (if decide (x = id) then sm !! p else None) with Some n => Some (c n) | None => lookup2 m0 (p, x) end.
Proof.
  destruct (decide (x = id)) as [->|Hne].
  - apply (foldl_upd_graph (fun m p => lookup2 m (p, id)) _ (fun _ n => c n)) with (lk' := fun p => sm !! p);
      [|apply NoDup_fst_map_to_list|intros; apply elem_of_map_to_list].
    intros m k v k'. rewrite lookup2_insert_nested. repeat case_decide; congruence.
  - revert m0; induction (map_to_list sm) as [|[p' n] l IH]; intros m0; cbn [foldl]; [done|].
    rewrite IH, lookup2_insert_nested. rewrite decide_False by congruence. done.
Qed.

Lemma fold_tokens (tm : gmap PrincipalData (gmap AssetIdentifier Z)) p x :
  lookup2 (foldl (fun (map : gmap PrincipalData (gmap AssetIdentifier AssetMapEntry)) '(p, pm) =>
      <[p := foldl (fun (out : gmap AssetIdentifier AssetMapEntry) '(a, n) => <[a := EntryToken n]> out)
               ∅ (map_to_list pm)]> map) ∅ (map_to_list tm)) (p, x) = EntryToken <$> lookup2 tm (p, x).
Proof.
  unfold lookup2 at 1. cbn [fst snd].
  rewrite (foldl_upd_graph (fun (m : gmap PrincipalData (gmap AssetIdentifier AssetMapEntry)) p => m !! p) _
    (fun _ pm => foldl (fun (out : gmap AssetIdentifier AssetMapEntry) '(a, n) => <[a := EntryToken n]> out)
               ∅ (map_to_list pm))) with (lk' := fun p => tm !! p);
    [|..|apply NoDup_fst_map_to_list|intros; apply elem_of_map_to_list].
  - unfold lookup2. cbn [fst snd]. destruct (tm !! p) as [pm|]; cbn; [|done].
    rewrite fold_entries. by destruct (pm !! x).
  - intros m k v k'. rewrite lookup_insert. repeat case_decide; congruence.
Qed.

Lemma fold_assets (m0 : gmap PrincipalData (gmap AssetIdentifier AssetMapEntry)) (am : gmap PrincipalData (gmap AssetIdentifier (list Value))) p x :
  lookup2 (foldl (fun (map : gmap PrincipalData (gmap AssetIdentifier AssetMapEntry)) '(p, pm) =>
      let map := match map !! p with Some _ => map | None => <[p := ∅]> map end in
      alter (fun out => foldl (fun (out : gmap AssetIdentifier AssetMapEntry) '(a, l) => <[a := EntryAsset l]> out)
               out (map_to_list pm)) p map) m0 (map_to_list am)) (p, x) =
  match lookup2 am (p, x) with Some l => Some (EntryAsset l) | None => lookup2 m0 (p, x) end.
Proof.
  unfold lookup2. cbn [fst snd].
  rewrite (foldl_upd_graph (fun (m : gmap PrincipalData (gmap AssetIdentifier AssetMapEntry)) p => m !! p) _
    (fun out pm => foldl (fun (out : gmap AssetIdentifier AssetMapEntry) '(a, l) => <[a := EntryAsset l]> out)
               (default ∅ out) (map_to_list pm))) with (lk' := fun p => am !! p);
    [|..|apply NoDup_fst_map_to_list|intros; apply elem_of_map_to_list].
  - destruct (am !! p) as [pm|]; cbn; [|done]. rewrite fold_entries.
    destruct (pm !! x); [done|]. by destruct (m0 !! p).
  - intros m k v k'. rewrite lookup_alter. destruct (m !! k) as [o|] eqn:E.
    + repeat case_decide; try congruence. subst. by rewrite E.
    + rewrite !lookup_insert. repeat case_decide; try congruence. done.
Qed.

(** The table of [to_table] shows, for every principal and asset, exactly
    what the four maps record: transferred assets first, then burnt and sent
    STX under their reserved identifiers, then token amounts. *)
Theorem to_table_lookup (m : AssetMap) (p : PrincipalData) (x : AssetIdentifier) :
  to_table m !! p ≫= (fun entries => entries !! x) = table_entry m p x.
Proof.
  change (lookup2 (to_table m) (p, x) = table_entry m p x). unfold to_table, table_entry.
  by rewrite fold_assets, fold_single, fold_single, fold_tokens.
Qed.

Lemma burned_total_loop (m : gmap PrincipalData Z) l acc :
  (forall p n, (p, n) ∈ l -> m !! p = Some n) -> (forall p n, (p, n) ∈ l -> 0 <= n) -> in_u 128 acc ->
  foldM (fun total '(p, _) => expect_opt (E := Empty_set) (checked_add 128 total (default 0 (m !! p)))) acc l =
  if decide (in_u 128 (acc + foldr Z.add 0 (map snd l))) then Ok (acc + foldr Z.add 0 (map snd l)) else Panic.
Proof.
  revert acc; induction l as [|[p n] l IH]; intros acc Hm Hpos Hacc; cbn [foldM foldr map snd].
  - rewrite Z.add_0_r. by rewrite decide_True.
  - rewrite (Hm p n) by (by left). cbn [default from_option].
    assert (0 <= foldr Z.add 0 (map snd l)).
    { clear -Hpos. induction l as [|[q k] l IHl]; cbn; [done|].
      specialize (IHl ltac:(intros q' k' Hq; apply (Hpos q' k'); apply elem_of_cons in Hq as [->|Hq]; [by left|by right; right])).
      pose proof (Hpos q k ltac:(right; by left)). lia. }
    pose proof (Hpos p n ltac:(by left)). unfold id.
    destruct (checked_add 128 acc n) as [s|] eqn:E; cbn.
    + apply checked_add_Some in E as [-> E]. rewrite IH; [|set_solver..|done].
      by replace (acc + (n + foldr Z.add 0 (map snd l))) with (acc + n + foldr Z.add 0 (map snd l)) by lia.
    + rewrite decide_False; [done|]. intros Hin. unfold in_u in *.
      rewrite (proj2 (checked_add_Some 128 acc n (acc + n))) in E; [done|]. split; [done|]. unfold in_u. lia.
Qed.

(** [get_stx_burned_total] is the sum of the burnt amounts if that is a
    u128, and a panic otherwise. *)
Lemma burned_total_sum (m : AssetMap) :
  (forall p n, get_stx_burned m p = Some n -> 0 <= n) ->
  let total := foldr Z.add 0 (map snd (map_to_list (burn_map m))) in
  get_stx_burned_total m = if decide (in_u 128 total) then Ok total else Panic.
Proof.
  intros Hpos total. unfold get_stx_burned_total. apply (burned_total_loop (burn_map m) _ 0).
  - intros p n. apply elem_of_map_to_list.
  - intros p n Hin%elem_of_map_to_list. by apply (Hpos p).
  - done.
Qed.
