(* ===== verification/Natives.v ===== *)
(** The native functions of the language that work on values alone:
    src/vm/functions/arithmetic.rs, src/vm/functions/options.rs, and the native
    functions of src/vm/functions/mod.rs, boolean.rs and iterables.rs; and the
    arithmetic of Clarity against the integers. *)
From stdpp Require Import base strings numbers list gmap.
From Stdlib Require Import ZArith Lia.
From S2P Require Import Prelude Names Types Values C32 ClarityDatabase.
#[local] Open Scope Z_scope.

(** [check_argument_count] and [check_arguments_at_least]. *)
Definition check_argument_count {T} (expected : Z) (args : list T) : Res VmError unit :=
  if Z.of_nat (length args) =? expected then Ok tt
  else Err (Unchecked (IncorrectArgumentCount expected (Z.of_nat (length args)))).
Definition check_arguments_at_least {T} (expected : Z) (args : list T) : Res VmError unit :=
  if Z.of_nat (length args) <? expected then Err (Unchecked (RequiresAtLeastArguments expected (Z.of_nat (length args))))
  else Ok tt.

(** * Arithmetic *)

(** [U128Ops] and [I128Ops]: the values, the range and the type of the integers
    that the macros are expanded for. *)
Record IntOps := mkOps {
  make_value : Z -> Value;
  in_range : Z -> Prop;
  in_range_dec : forall z, Decision (in_range z);
  int_type : TypeSignature;
}.
#[global] Existing Instance in_range_dec.
Definition U128Ops : IntOps := mkOps VUInt (in_u 128) _ UIntType.
Definition I128Ops : IntOps := mkOps VInt (in_i 128) _ IntType.

(** The checked operations of Rust's integers; division truncates. *)
Section checked.
Context (o : IntOps).
Definition checked (z : Z) : option Z := if decide (in_range o z) then Some z else None.
Definition int_checked_add (a b : Z) : option Z := checked (a + b).
Definition int_checked_sub (a b : Z) : option Z := checked (a - b).
Definition int_checked_mul (a b : Z) : option Z := checked (a * b).
Definition int_checked_neg (a : Z) : option Z := checked (- a).
Definition int_checked_div (a b : Z) : option Z := if b =? 0 then None else checked (Z.quot a b).
Definition int_checked_rem (a b : Z) : option Z :=
  if b =? 0 then None else if decide (in_range o (Z.quot a b)) then Some (Z.rem a b) else None.
(** Exponentiation by squaring. *)
Fixpoint checked_pow_pos (base acc : Z) (exp : positive) : option Z :=
  match exp with
  | xH => int_checked_mul acc base
  | xO exp => base2 ← int_checked_mul base base; checked_pow_pos base2 acc exp
  | xI exp => acc ← int_checked_mul acc base; base2 ← int_checked_mul base base; checked_pow_pos base2 acc exp
  end.
Definition int_checked_pow (base exp : Z) : option Z :=
  match exp with Zpos p => checked_pow_pos base 1 p | _ => Some 1 end.
End checked.

(** [Iterator::try_fold] with an operation that may overflow. *)
Fixpoint try_fold (f : Z -> Z -> option Z) (acc : Z) (l : list Z) : option Z :=
  match l with
  | [] => Some acc
  | x :: l => acc ← f acc x; try_fold f acc l
  end.

(** The macro [make_arithmetic_ops]. *)
Section ops.
Context (o : IntOps).
Definition op_xor (x y : Z) : Res VmError Value := Ok (make_value o (Z.lxor x y)).
Definition op_leq (x y : Z) : Res VmError Value := Ok (VBool (x <=? y)).
Definition op_geq (x y : Z) : Res VmError Value := Ok (VBool (y <=? x)).
Definition op_greater (x y : Z) : Res VmError Value := Ok (VBool (y <? x)).
Definition op_less (x y : Z) : Res VmError Value := Ok (VBool (x <? y)).
Definition op_add (args : list Z) : Res VmError Value :=
  r ← ok_or (try_fold (int_checked_add o) 0 args) (Runtime ArithmeticOverflow);
  Ok (make_value o r).
Definition op_sub (args : list Z) : Res VmError Value :=
  match args with
  | [] => Err (Unchecked (IncorrectArgumentCount 1 0))
  | [first] => r ← ok_or (int_checked_neg o first) (Runtime ArithmeticUnderflow); Ok (make_value o r)
  | first :: rest =>
    r ← ok_or (try_fold (int_checked_sub o) first rest) (Runtime ArithmeticUnderflow);
    Ok (make_value o r)
  end.
Definition op_mul (args : list Z) : Res VmError Value :=
  r ← ok_or (try_fold (int_checked_mul o) 1 args) (Runtime ArithmeticOverflow);
  Ok (make_value o r).
Definition op_div (args : list Z) : Res VmError Value :=
  match args with
  | [] => Err (Unchecked (IncorrectArgumentCount 1 0))
  | first :: rest =>
    r ← ok_or (try_fold (int_checked_div o) first rest) (Runtime DivisionByZero);
    Ok (make_value o r)
  end.
Definition op_modulo (numerator denominator : Z) : Res VmError Value :=
  r ← ok_or (int_checked_rem o numerator denominator) (Runtime DivisionByZero);
  Ok (make_value o r).
Definition op_pow (base power : Z) : Res VmError Value :=
  if (power <? 0) || (2 ^ 32 - 1 <? power)
  then Err (Runtime (Arithmetic "Power argument to (pow ...) must be a u32 integer"))
  else
    r ← ok_or (int_checked_pow o base power) (Runtime ArithmeticOverflow);
    Ok (make_value o r).
End ops.

(** The macro [type_force_binary_arithmetic]. *)
Definition type_force_binary_arithmetic (function : IntOps -> Z -> Z -> Res VmError Value) (x y : Value) : Res VmError Value :=
  match x, y with
  | VInt x, VInt y => function I128Ops x y
  | VUInt x, VUInt y => function U128Ops x y
  | x, _ => Err (Unchecked (UnionTypeValueError [IntType; UIntType] x))
  end.

(** The arguments of [type_force_variadic_arithmetic], each of the expected
    type. *)
Definition typed_int (x : Value) : Res VmError Z :=
  match x with VInt value => Ok value | _ => Err (Unchecked (TypeValueError IntType x)) end.
Definition typed_uint (x : Value) : Res VmError Z :=
  match x with VUInt value => Ok value | _ => Err (Unchecked (TypeValueError UIntType x)) end.

Definition type_force_variadic_arithmetic (function : IntOps -> list Z -> Res VmError Value) (args : list Value)
  : Res VmError Value :=
  match args with
  | [] => Err (Unchecked (IncorrectArgumentCount 1 0))
  | VInt _ :: _ => checked_args ← mapMR typed_int args; function I128Ops checked_args
  | VUInt _ :: _ => checked_args ← mapMR typed_uint args; function U128Ops checked_args
  | first :: _ => Err (Unchecked (UnionTypeValueError [IntType; UIntType] first))
  end.

Definition native_xor (a b : Value) : Res VmError Value := type_force_binary_arithmetic op_xor a b.
Definition native_geq (a b : Value) : Res VmError Value := type_force_binary_arithmetic (fun _ => op_geq) a b.
Definition native_leq (a b : Value) : Res VmError Value := type_force_binary_arithmetic (fun _ => op_leq) a b.
Definition native_ge (a b : Value) : Res VmError Value := type_force_binary_arithmetic (fun _ => op_greater) a b.
Definition native_le (a b : Value) : Res VmError Value := type_force_binary_arithmetic (fun _ => op_less) a b.
Definition native_add (args : list Value) : Res VmError Value := type_force_variadic_arithmetic op_add args.
Definition native_sub (args : list Value) : Res VmError Value := type_force_variadic_arithmetic op_sub args.
Definition native_mul (args : list Value) : Res VmError Value := type_force_variadic_arithmetic op_mul args.
Definition native_div (args : list Value) : Res VmError Value := type_force_variadic_arithmetic op_div args.
Definition native_pow (a b : Value) : Res VmError Value := type_force_binary_arithmetic op_pow a b.
Definition native_mod (a b : Value) : Res VmError Value := type_force_binary_arithmetic op_modulo a b.

Definition native_to_uint (input : Value) : Res VmError Value :=
  match input with
  | VInt int_val => if decide (in_u 128 int_val) then Ok (VUInt int_val) else Err (Runtime ArithmeticUnderflow)
  | _ => Err (Unchecked (TypeValueError IntType input))
  end.
Definition native_to_int (input : Value) : Res VmError Value :=
  match input with
  | VUInt uint_val => if decide (in_i 128 uint_val) then Ok (VInt uint_val) else Err (Runtime ArithmeticOverflow)
  | _ => Err (Unchecked (TypeValueError UIntType input))
  end.

(** * Booleans *)

Definition type_force_bool (value : Value) : Res VmError bool :=
  match value with
  | VBool boolean => Ok boolean
  | _ => Err (Unchecked (TypeValueError BoolType value))
  end.
Definition native_not (input : Value) : Res VmError Value :=
  value ← type_force_bool input; Ok (VBool (negb value)).

(** * Options and responses *)

Definition inner_unwrap (to_unwrap : Value) : Res VmError (option Value) :=
  match to_unwrap with
  | VOptional data => Ok data
  | VResponse committed data => Ok (if committed then Some data else None)
  | _ => Err (Unchecked (ExpectedOptionalOrResponseValue to_unwrap))
  end.
Definition inner_unwrap_err (to_unwrap : Value) : Res VmError (option Value) :=
  match to_unwrap with
  | VResponse committed data => Ok (if committed then None else Some data)
  | _ => Err (Unchecked (ExpectedResponseValue to_unwrap))
  end.

Definition native_unwrap (input : Value) : Res VmError Value :=
  opt_value ← inner_unwrap input; ok_or opt_value (Runtime UnwrapFailure).
Definition native_unwrap_or_ret (input thrown : Value) : Res VmError Value :=
  opt_value ← inner_unwrap input; ok_or opt_value (ShortReturn (ExpectedValue thrown)).
Definition native_unwrap_err (input : Value) : Res VmError Value :=
  opt_value ← inner_unwrap_err input; ok_or opt_value (Runtime UnwrapFailure).
Definition native_unwrap_err_or_ret (input thrown : Value) : Res VmError Value :=
  opt_value ← inner_unwrap_err input; ok_or opt_value (ShortReturn (ExpectedValue thrown)).

Definition native_try_ret (input : Value) : Res VmError Value :=
  match input with
  | VOptional (Some data) => Ok data
  | VOptional None => Err (ShortReturn (ExpectedValue Value_none))
  | VResponse true data => Ok data
  | VResponse false data => Err (ShortReturn (ExpectedValue data))
  | _ => Err (Unchecked (ExpectedOptionalOrResponseValue input))
  end.

Definition is_some (input : Value) : Res VmError bool :=
  match input with
  | VOptional data => Ok (match data with Some _ => true | None => false end)
  | _ => Err (Unchecked (ExpectedOptionalValue input))
  end.
Definition is_okay (input : Value) : Res VmError bool :=
  match input with
  | VResponse committed _ => Ok committed
  | _ => Err (Unchecked (ExpectedResponseValue input))
  end.

Definition native_some (input : Value) : Res VmError Value := Value_some input.
Definition native_is_some (input : Value) : Res VmError Value := b ← is_some input; Ok (VBool b).
Definition native_is_none (input : Value) : Res VmError Value := b ← is_some input; Ok (VBool (negb b)).
Definition native_is_okay (input : Value) : Res VmError Value := b ← is_okay input; Ok (VBool b).
Definition native_is_err (input : Value) : Res VmError Value := b ← is_okay input; Ok (VBool (negb b)).
Definition native_okay (input : Value) : Res VmError Value := Value_okay input.
Definition native_error (input : Value) : Res VmError Value := Value_error input.
Definition native_default_to (default input : Value) : Res VmError Value :=
  match input with
  | VOptional data => Ok (match data with Some data => data | None => default end)
  | _ => Err (Unchecked (ExpectedOptionalValue input))
  end.

(** * Equality, sequences and hashes *)

(** The loop of [native_eq]: the types of the arguments up to the first one that
    differs must have a common supertype. *)
Fixpoint native_eq_loop (first : Value) (arg_type : TypeSignature) (args : list Value) : Res VmError Value :=
  match args with
  | [] => Ok (VBool true)
  | x :: args =>
    t ← lift_panic (type_of x);
    arg_type ← map_err Unchecked (least_supertype t arg_type);
    if value_eqb x first then native_eq_loop first arg_type args else Ok (VBool false)
  end.
Definition native_eq (args : list Value) : Res VmError Value :=
  match args with
  | [] | [_] => Ok (VBool true)
  | first :: _ => arg_type ← lift_panic (type_of first); native_eq_loop first arg_type args
  end.

Definition native_begin (args : list Value) : Res VmError Value :=
  ok_or (last args) (Unchecked (RequiresAtLeastArguments 1 0)).

Definition native_len (iterable : Value) : Res VmError Value :=
  match iterable with
  | VList data _ _ => Ok (VUInt (Z.of_nat (length data)))
  | VBuffer data => Ok (VUInt (Z.of_nat (length data)))
  | _ => t ← lift_panic (type_of iterable); Err (Unchecked (ExpectedListOrBuffer t))
  end.

(** The hash functions of src/util/hash.rs that contracts may call and that are
    not used elsewhere in this development; they wrap library code. *)
Class NativeHashes := {
  hash160 : list Z -> list Z;
  sha512 : list Z -> list Z;
  keccak256 : list Z -> list Z;
  hash160_spec : forall data, length (hash160 data) = 20%nat /\ Forall u8 (hash160 data);
  sha512_spec : forall data, length (sha512 data) = 64%nat /\ Forall u8 (sha512 data);
  keccak256_spec : forall data, length (keccak256 data) = 32%nat /\ Forall u8 (keccak256 data);
}.

(** [to_le_bytes] of a 128-bit integer. *)
Definition to_le_bytes (z : Z) : list Z := reverse (be_encode 16 (wrap 128 z)).

(** The macro [native_hash_func]. *)
Definition native_hash_func (from_data : list Z -> list Z) (input : Value) : Res VmError Value :=
  bytes ← match input with
          | VInt value => Ok (to_le_bytes value)
          | VUInt value => Ok (to_le_bytes value)
          | VBuffer value => Ok value
          | _ => Err (Unchecked (UnionTypeValueError [IntType; UIntType; max_buffer] input))
          end;
  buff_from (from_data bytes).

Section hashes.
Context `{!Sha256} `{!Sha512Trunc256} `{!NativeHashes}.
Definition native_hash160 : Value -> Res VmError Value := native_hash_func hash160.
Definition native_sha256 : Value -> Res VmError Value := native_hash_func sha256.
Definition native_sha512 : Value -> Res VmError Value := native_hash_func sha512.
Definition native_sha512trunc256 : Value -> Res VmError Value := native_hash_func sha512_256.
Definition native_keccak256 : Value -> Res VmError Value := native_hash_func keccak256.
End hashes.

(** * Calling natives *)

Inductive NativeHandle :=
| SingleArg (function : Value -> Res VmError Value)
| DoubleArg (function : Value -> Value -> Res VmError Value)
| MoreArg (function : list Value -> Res VmError Value).

(** [NativeHandle::apply]. *)
Definition native_apply (self : NativeHandle) (args : list Value) : Res VmError Value :=
  match self with
  | SingleArg function =>
    _ ← check_argument_count 1 args;
    match args with [a] => function a | _ => Panic end
  | DoubleArg function =>
    _ ← check_argument_count 2 args;
    match args with [first; second] => function first second | _ => Panic end
  | MoreArg function => function args
  end.

(** * Exponentiation by squaring *)

(** What the two ranges of integers have in common: a product that leaves the
    range does not come back. *)
Class Range (o : IntOps) : Prop := {
  range_zero : in_range o 0;
  range_one : in_range o 1;
  range_mul : forall n k, ~ in_range o n -> 1 <= k -> ~ in_range o (n * k);
  range_square : forall b c, in_range o b -> in_range o c -> c <> 0 -> ~ in_range o (b * b) -> ~ in_range o (c * (b * b));
}.

#[global] Instance u128_range : Range U128Ops.
Proof. split; cbn; unfold in_u; [lia|lia|nia|nia]. Qed.

(** The bound of the signed integers is not a square. *)
Lemma not_square b : b * b <> 2 ^ 127.
Proof.
  intros H. assert (Z.sqrt (b * b) * Z.sqrt (b * b) = b * b) as Hs.
  { replace (b * b) with (Z.abs b * Z.abs b) by lia. by rewrite Z.sqrt_square by lia. }
  rewrite H in Hs. by vm_compute in Hs.
Qed.

#[global] Instance i128_range : Range I128Ops.
Proof.
  split; cbn; unfold in_i; change (128 - 1) with 127.
  - lia.
  - lia.
  - nia.
  - intros b c _ _ Hc Hb. pose proof (not_square b) as Hn. intros [Hlo Hhi]. apply Hb.
    assert (0 <= b * b) by nia. split; [lia|]. destruct (Z.lt_total (b * b) (2 ^ 127)) as [|[|]]; [done|done|].
    destruct (Z.lt_total c 0) as [|[|]]; [|done|]; nia.
Qed.

Section pow.
Context (o : IntOps) `{!Range o}.

Lemma checked_in z : in_range o z -> checked o z = Some z.
Proof. intros Hz. unfold checked. by rewrite decide_True. Qed.
Lemma checked_out z : ~ in_range o z -> checked o z = None.
Proof. intros Hz. unfold checked. by rewrite decide_False. Qed.

Lemma pow_pos_zero acc p : checked_pow_pos o 0 acc p = Some 0.
Proof.
  revert acc. induction p as [p IH|p IH|]; intros acc; cbn; unfold int_checked_mul, checked;
    rewrite ?Z.mul_0_r, ?decide_True by apply range_zero; cbn; done.
Qed.

Lemma square_pow_pos b e : b <> 0 -> 0 <= e -> 1 <= (b * b) ^ e.
Proof. intros Hb He. assert (0 < (b * b) ^ e); [|lia]. apply Z.pow_pos_nonneg; nia. Qed.

(** A square outside of the range keeps every product with its powers outside. *)
Lemma square_out base c p :
  in_range o base -> in_range o c -> base <> 0 -> c <> 0 -> ~ in_range o (base * base) ->
  ~ in_range o (c * (base * base) ^ Z.pos p).
Proof.
  intros Hb Hc Hb0 Hc0 Hout.
  replace ((base * base) ^ Z.pos p) with ((base * base) * (base * base) ^ (Z.pos p - 1)).
  2: { rewrite <-Z.pow_succ_r by lia. f_equal. lia. }
  rewrite Z.mul_assoc. apply range_mul; [by apply range_square|]. apply square_pow_pos; [done|lia].
Qed.

Lemma pow_pos_exact base acc p :
  in_range o base -> in_range o acc -> base <> 0 -> acc <> 0 ->
  checked_pow_pos o base acc p = checked o (acc * base ^ Z.pos p).
Proof.
  revert base acc. induction p as [p IH|p IH|]; intros base acc Hb Ha Hb0 Ha0.
  - assert (base ^ Z.pos p~1 = base * (base * base) ^ Z.pos p) as ->.
    { rewrite Pos2Z.inj_xI, Z.pow_add_r, Z.pow_mul_r, Z.pow_2_r, Z.pow_1_r by lia. lia. }
    rewrite Z.mul_assoc. cbn [checked_pow_pos]. unfold int_checked_mul.
    destruct (decide (in_range o (acc * base))) as [Hab|Hab].
    2: { rewrite (checked_out _ Hab). symmetry. apply checked_out, range_mul; [done|]. apply square_pow_pos; [done|lia]. }
    assert (acc * base <> 0) by nia. rewrite (checked_in _ Hab). cbn.
    destruct (decide (in_range o (base * base))) as [Hbb|Hbb].
    + rewrite (checked_in _ Hbb). cbn. apply IH; try done. nia.
    + rewrite (checked_out _ Hbb), checked_out; [done|]. by apply square_out.
  - assert (base ^ Z.pos p~0 = (base * base) ^ Z.pos p) as ->.
    { rewrite Pos2Z.inj_xO, Z.pow_mul_r, Z.pow_2_r by lia. done. }
    cbn [checked_pow_pos]. unfold int_checked_mul. destruct (decide (in_range o (base * base))) as [Hbb|Hbb].
    + rewrite (checked_in _ Hbb). cbn. apply IH; try done. nia.
    + rewrite (checked_out _ Hbb), checked_out; [done|]. by apply square_out.
  - cbn. unfold int_checked_mul. by rewrite Z.pow_1_r.
Qed.

Lemma checked_pow_exact base exp :
  in_range o base -> 0 <= exp -> int_checked_pow o base exp = checked o (base ^ exp).
Proof.
  intros Hb He. destruct exp as [|p|p]; [|cbn|lia].
  - by rewrite checked_in by apply range_one.
  - destruct (decide (base = 0)) as [->|Hb0].
    + rewrite pow_pos_zero, Z.pow_0_l by lia. by rewrite checked_in by apply range_zero.
    + rewrite pow_pos_exact, Z.mul_1_l; [done|done|apply range_one|done|done].
Qed.
End pow.

(** * The natives *)

(** The operations on one of the two types of integers. *)
Definition ops (signed : bool) : IntOps := if signed then I128Ops else U128Ops.
#[global] Instance ops_range signed : Range (ops signed).
Proof. destruct signed; apply _. Qed.

Lemma binary_ops (function : IntOps -> Z -> Z -> Res VmError Value) signed a b :
  type_force_binary_arithmetic function (make_value (ops signed) a) (make_value (ops signed) b) = function (ops signed) a b.
Proof. by destruct signed. Qed.
Lemma variadic_ops (function : IntOps -> list Z -> Res VmError Value) signed a b :
  type_force_variadic_arithmetic function [make_value (ops signed) a; make_value (ops signed) b] = function (ops signed) [a; b].
Proof. by destruct signed. Qed.

(** [pow] is exponentiation: by squaring with checks at every step, it
    computes the power exactly if the power is in range, also where an
    intermediate square is compared against the asymmetric range of the signed
    integers; exponents outside of 32 bits are refused. *)
Theorem pow_exact (signed : bool) (base power : Z) :
  in_range (ops signed) base ->
  native_pow (make_value (ops signed) base) (make_value (ops signed) power) =
    if decide (0 <= power < 2 ^ 32) then
      if decide (in_range (ops signed) (base ^ power)) then Ok (make_value (ops signed) (base ^ power))
      else Err (Runtime ArithmeticOverflow)
    else Err (Runtime (Arithmetic "Power argument to (pow ...) must be a u32 integer")).
Proof.
  intros Hb. unfold native_pow. rewrite binary_ops. unfold op_pow.
  destruct (Z.ltb_spec power 0), (Z.ltb_spec (2 ^ 32 - 1) power); cbn; destruct (decide _) as [Hp|Hp]; try lia; try done.
  rewrite (checked_pow_exact (ops signed)) by (done || lia). unfold checked. by destruct (decide _).
Qed.

(** Quotients leave the range in one case only. *)
Lemma quot_in_range signed a b :
  in_range (ops signed) a -> in_range (ops signed) b -> b <> 0 ->
  in_range (ops signed) (Z.quot a b) <-> ~ (a = - 2 ^ 127 /\ b = -1).
Proof.
  intros Ha Hb Hb0. assert (Z.abs (Z.quot a b) = Z.abs a / Z.abs b) as Hq.
  { rewrite <-Z.quot_abs by done. apply Z.quot_div_nonneg; lia. }
  destruct signed; cbn in *; unfold in_i, in_u in *; change (128 - 1) with 127 in *.
  - destruct (decide (b = 1)) as [->|]; [rewrite Z.quot_1_r; lia|].
    destruct (decide (b = -1)) as [->|]; [change (-1) with (- (1)); rewrite Z.quot_opp_r, Z.quot_1_r by done; lia|].
    assert (Z.abs a / Z.abs b < 2 ^ 127) by (apply Z.div_lt_upper_bound; nia). lia.
  - assert (Z.abs a / Z.abs b <= Z.abs a) by (apply Z.div_le_upper_bound; nia).
    pose proof (Z.quot_pos a b ltac:(lia) ltac:(lia)). lia.
Qed.

(** Division truncates, and is refused with a division by zero also where
    the quotient overflows: the least signed integer divided by minus one, or
    taken modulo minus one. *)
Theorem division_exact (signed : bool) (a b : Z) :
  in_range (ops signed) a -> in_range (ops signed) b ->
  let undefined := b = 0 \/ (a = - 2 ^ 127 /\ b = -1) in
  (undefined ->
     native_div [make_value (ops signed) a; make_value (ops signed) b] = Err (Runtime DivisionByZero) /\
     native_mod (make_value (ops signed) a) (make_value (ops signed) b) = Err (Runtime DivisionByZero)) /\
  (~ undefined ->
     native_div [make_value (ops signed) a; make_value (ops signed) b] = Ok (make_value (ops signed) (Z.quot a b)) /\
     native_mod (make_value (ops signed) a) (make_value (ops signed) b) = Ok (make_value (ops signed) (Z.rem a b))).
Proof.
  intros Ha Hb undefined. unfold native_div, native_mod. rewrite variadic_ops, binary_ops.
  unfold op_div, op_modulo, try_fold, int_checked_div, int_checked_rem, checked.
  pose proof (quot_in_range signed a b Ha Hb) as Hq. destruct (Z.eqb_spec b 0) as [->|Hb0]; cbn.
  - unfold undefined. split; [done|]. intros []. by left.
  - specialize (Hq Hb0). unfold undefined. split; intros Hu.
    + by rewrite !decide_False by (rewrite Hq; intros Hn; destruct Hu; tauto).
    + by rewrite !decide_True by (rewrite Hq; tauto).
Qed.
