(* ===== verification/TypeParser.v ===== *)
(** Types from expressions: the parsing functions of
    src/vm/types/signatures.rs.  Each step is charged to a cost tracker. *)
From stdpp Require Import base strings numbers list gmap.
From Stdlib Require Import ZArith Lia.
From S2P Require Import Prelude Names BTree Types Representations Costs.
#[local] Open Scope Z_scope.

(** Code that charges a tracker and may fail. *)
Definition Charged (T A : Type) : Type := T -> T * Res CheckErrors A.
#[global] Instance charged_ret T : MRet (Charged T) := fun A a t => (t, Ok a).
#[global] Instance charged_bind T : MBind (Charged T) := fun A B f m t =>
  match m t with
  | (t, Ok a) => f a t
  | (t, Err e) => (t, Err e)
  | (t, Panic) => (t, Panic)
  end.
Definition charged_lift {T A} (r : Res CheckErrors A) : Charged T A := fun t => (t, r).

Definition parse_atom_type (typename : string) : Res CheckErrors TypeSignature :=
  if decide (typename = "int") then Ok IntType
  else if decide (typename = "uint") then Ok UIntType
  else if decide (typename = "bool") then Ok BoolType
  else if decide (typename = "principal") then Ok PrincipalType
  else Err (UnknownTypeName typename).

Definition parse_buff_type_repr (type_args : list SymbolicExpression) : Res CheckErrors TypeSignature :=
  match type_args with
  | [LiteralValue _ (VInt buff_len)] =>
    buff_len ← BufferLength_try_from_i128 buff_len;
    Ok (BufferType buff_len)
  | _ => Err InvalidTypeDescription
  end.

(** The first step of [parse_name_type_pairs]: every item is a pair. *)
Definition as_pairs (name_type_pairs : list SymbolicExpression) : Res CheckErrors unit :=
  if forallb (fun pair => match pair with SList _ [_; _] => true | _ => false end) name_type_pairs then Ok tt
  else Err BadSyntaxExpectedListOfPairs.

Section parsing.
Context {T : Type} `{!CostTracker T}.

Section pairs.
Context (parse : SymbolicExpression -> Charged T TypeSignature).
(** The second step, with the parser for the types. *)
Fixpoint named_types (name_type_pairs : list SymbolicExpression) : Charged T (list (string * TypeSignature)) :=
  match name_type_pairs with
  | SList _ [name_symbol; type_symbol] :: pairs =>
    name ← charged_lift (ok_or (match_atom name_symbol) BadSyntaxExpectedListOfPairs);
    type_info ← parse type_symbol;
    key_types ← named_types pairs;
    mret ((name, type_info) :: key_types)
  | _ => mret []
  end.
End pairs.

Definition type_parse_step : Charged T unit := fun t =>
  let '(t, r) := runtime_cost cost_functions.TYPE_PARSE_STEP t 0 in (t, map_err CheckCost r).

Fixpoint parse_type_repr (x : SymbolicExpression) : Charged T TypeSignature :=
  _ ← type_parse_step;
  match x with
  | Atom _ atom_type_str => charged_lift (parse_atom_type atom_type_str)
  | SList _ (Atom _ compound_type :: rest) =>
    if decide (compound_type = "list") then
      match rest with
      | [LiteralValue _ (VInt max_len); atomic_type_arg] =>
        entry_type ← parse_type_repr atomic_type_arg;
        max_len ← charged_lift (ok_or (checked_u 32 max_len) ValueTooLarge);
        charged_lift (list_of entry_type max_len)
      | _ => charged_lift (Err InvalidTypeDescription)
      end
    else if decide (compound_type = "buff") then charged_lift (parse_buff_type_repr rest)
    else if decide (compound_type = "tuple") then
      _ ← charged_lift (as_pairs rest);
      mapped_key_types ← named_types parse_type_repr rest;
      charged_lift (r ← TupleTypeSignature_try_from_vec mapped_key_types; Ok (TupleType r))
    else if decide (compound_type = "optional") then
      match rest with
      | [arg] => inner_type ← parse_type_repr arg; charged_lift (new_option inner_type)
      | _ => charged_lift (Err InvalidTypeDescription)
      end
    else if decide (compound_type = "response") then
      match rest with
      | [ok_arg; err_arg] =>
        ok_type ← parse_type_repr ok_arg;
        err_type ← parse_type_repr err_arg;
        charged_lift (new_response ok_type err_type)
      | _ => charged_lift (Err InvalidTypeDescription)
      end
    else charged_lift (Err InvalidTypeDescription)
  | TraitReference _ _ (Defined trait_id) => mret (TraitReferenceType trait_id)
  | TraitReference _ _ (Imported trait_id) => mret (TraitReferenceType trait_id)
  | _ => charged_lift (Err InvalidTypeDescription)
  end.

Definition parse_name_type_pairs (name_type_pairs : list SymbolicExpression) : Charged T (list (string * TypeSignature)) :=
  _ ← charged_lift (as_pairs name_type_pairs);
  named_types parse_type_repr name_type_pairs.

Definition parse_name_type_pair_list (type_def : SymbolicExpression) : Charged T (list (string * TypeSignature)) :=
  match type_def with
  | SList _ name_type_pairs =>
    mapped_key_types ← parse_name_type_pairs name_type_pairs;
    charged_lift (TupleTypeSignature_try_from_vec mapped_key_types)
  | _ => charged_lift (Err BadSyntaxExpectedListOfPairs)
  end.

(** Types in order. *)
Fixpoint parse_types (l : list SymbolicExpression) : Charged T (list TypeSignature) :=
  match l with
  | [] => mret []
  | x :: l => t ← parse_type_repr x; ts ← parse_types l; mret (t :: ts)
  end.

(** The return type of a trait method; whatever goes wrong with it is reported as
    a bad signature. *)
Definition parse_trait_return (x : SymbolicExpression) : Charged T TypeSignature := fun t =>
  match parse_type_repr x t with
  | (t, Ok (ResponseType a b)) => (t, Ok (ResponseType a b))
  | (t, Panic) => (t, Panic)
  | (t, _) => (t, Err DefineTraitBadSignature)
  end.

(** The loop of [parse_trait_type_repr] over the methods of a trait. *)
Fixpoint parse_trait_methods (functions_types : list SymbolicExpression)
    (trait_signature : list (string * FunctionSignature)) : Charged T (list (string * FunctionSignature)) :=
  match functions_types with
  | [] => mret trait_signature
  | function_type :: functions_types =>
    args ← charged_lift (ok_or (match_list function_type) DefineTraitBadSignature);
    match args with
    | [name; fn_args_exprs; returns] =>
      fn_name ← charged_lift (ok_or (match_atom name) DefineTraitBadSignature);
      fn_args_exprs ← charged_lift (ok_or (match_list fn_args_exprs) DefineTraitBadSignature);
      fn_args ← parse_types fn_args_exprs;
      fn_return ← parse_trait_return returns;
      parse_trait_methods functions_types (bt_insert fn_name (mkSignature fn_args fn_return) trait_signature)
    | _ => charged_lift (Err InvalidTypeDescription)
    end
  end.

Definition parse_trait_type_repr (type_args : list SymbolicExpression) : Charged T (list (string * FunctionSignature)) :=
  match type_args with
  | [] => charged_lift Panic
  | arg :: _ =>
    functions_types ← charged_lift (ok_or (match_list arg) DefineTraitBadSignature);
    parse_trait_methods functions_types []
  end.
End parsing.
