(* ===== verification/Contexts.v ===== *)
(** Execution contexts: src/vm/contexts.rs over the edit log of the database,
    and the events of src/chainstate/stacks/events.rs.

    Each of the stacks of [GlobalContext] is a list whose head is the top.  Code
    that works on the context and returns a [Result] is an [Exec]: the context it
    leaves behind comes with its error as well as with its value. *)
From stdpp Require Import base strings numbers list gmap.
From Stdlib Require Import ZArith Lia.
From S2P Require Import Prelude Names Types RollbackWrapper Costs AssetMap ClarityDatabase.
#[local] Open Scope Z_scope.

(** * Events *)

Inductive STXEventType :=
| STXTransferEvent (sender recipient : PrincipalData) (amount : Z)
| STXMintEvent (recipient : PrincipalData) (amount : Z)
| STXBurnEvent (sender : PrincipalData) (amount : Z).

Inductive NFTEventType :=
| NFTTransferEvent (asset_identifier : AssetIdentifier) (sender recipient : PrincipalData) (value : Value)
| NFTMintEvent (asset_identifier : AssetIdentifier) (recipient : PrincipalData) (value : Value).

Inductive FTEventType :=
| FTTransferEvent (asset_identifier : AssetIdentifier) (sender recipient : PrincipalData) (amount : Z)
| FTMintEvent (asset_identifier : AssetIdentifier) (recipient : PrincipalData) (amount : Z).

Inductive StacksTransactionEvent :=
| SmartContractEvent (key : QualifiedContractIdentifier * string) (value : Value)
| STXEvent (e : STXEventType)
| NFTEvent (e : NFTEventType)
| FTEvent (e : FTEventType).

Notation EventBatch := (list StacksTransactionEvent).

(** * The global context *)

Record GlobalContext (S : Type) := mkGlobal {
  asset_maps : list AssetMap;
  event_batches : list EventBatch;
  database : RollbackWrapper S;
  read_only : list bool;
  cost_track : LimitedCostTracker;
}.
Arguments mkGlobal {S}.
Arguments asset_maps {S}.
Arguments event_batches {S}.
Arguments database {S}.
Arguments read_only {S}.
Arguments cost_track {S}.

(** The code of the VM is modelled by recursion on fuel where it is recursive:
    this outcome is that of a model that ran out of it. *)
Inductive OutOfFuel := out_of_fuel.

(** [X] is what else the code at hand may change: the call stack of an
    [Environment], or the contract under definition. *)
Definition Exec (S X A : Type) : Type :=
  GlobalContext S * X -> Res OutOfFuel ((GlobalContext S * X) * (VmError + A)).

#[global] Instance exec_ret S X : MRet (Exec S X) := fun A a s => Ok (s, inr a).
#[global] Instance exec_bind S X : MBind (Exec S X) := fun A B f m s =>
  match m s with
  | Ok (s, inr a) => f a s
  | Ok (s, inl e) => Ok (s, inl e)
  | Err e => Err e
  | Panic => Panic
  end.

Section exec.
Context {S X : Type}.

Definition throw {A} (e : VmError) : Exec S X A := fun s => Ok (s, inl e).
(** A result computed without the context, under [?]. *)
Definition lift_res {A} (r : Res VmError A) : Exec S X A := fun s =>
  match r with
  | Ok a => Ok (s, inr a)
  | Err e => Ok (s, inl e)
  | Panic => Panic
  end.
(** A result at hand, returned. *)
Definition of_result {A} (r : VmError + A) : Exec S X A := fun s => Ok (s, r).
(** The result of a computation, for code that goes on after an error. *)
Definition attempt {A} (m : Exec S X A) : Exec S X (VmError + A) := fun s =>
  match m s with
  | Ok (s, r) => Ok (s, inr r)
  | Err e => Err e
  | Panic => Panic
  end.
(** A read of the context. *)
Definition gets {A} (f : GlobalContext S -> A) : Exec S X A := fun s => Ok (s, inr (f s.1)).
(** An update of the context that cannot fail. *)
Definition modify (f : GlobalContext S -> GlobalContext S) : Exec S X unit := fun s => Ok ((f s.1, s.2), inr tt).
(** An update of the context that may panic. *)
Definition modifyP (f : GlobalContext S -> Res Empty_set (GlobalContext S)) : Exec S X unit := fun s =>
  g ← lift_panic (f s.1); Ok ((g, s.2), inr tt).
End exec.

Section contexts.
Context {S : Type} `{!ClarityBackingStore S VmError}.
Implicit Types g : GlobalContext S.

Definition set_asset_maps g (l : list AssetMap) : GlobalContext S := mkGlobal l (event_batches g) (database g) (read_only g) (cost_track g).
Definition set_event_batches g (l : list EventBatch) : GlobalContext S := mkGlobal (asset_maps g) l (database g) (read_only g) (cost_track g).
Definition set_database g (w : RollbackWrapper S) : GlobalContext S := mkGlobal (asset_maps g) (event_batches g) w (read_only g) (cost_track g).
Definition set_cost_track g (c : LimitedCostTracker) : GlobalContext S := mkGlobal (asset_maps g) (event_batches g) (database g) (read_only g) c.

Definition GlobalContext_new (db : RollbackWrapper S) (cost : LimitedCostTracker) : GlobalContext S :=
  mkGlobal [] [] db [] cost.

Definition is_top_level g : bool := bool_decide (length (asset_maps g) = 0%nat).

Definition is_read_only g : bool := default false (head (read_only g)).

Definition begin g : GlobalContext S :=
  mkGlobal (AssetMap_new :: asset_maps g) ([] :: event_batches g) (wrapper_nest (database g))
    (is_read_only g :: read_only g) (cost_track g).

Definition begin_read_only g : GlobalContext S :=
  mkGlobal (AssetMap_new :: asset_maps g) ([] :: event_batches g) (wrapper_nest (database g))
    (true :: read_only g) (cost_track g).

(** [commit], with the error it returns. *)
Definition commit g : Res Empty_set (GlobalContext S * (VmError + option AssetMap * option EventBatch)) :=
  let ro := tail (read_only g) in
  match asset_maps g, event_batches g with
  | asset_map :: maps, event_batch :: batches =>
    let merged := match maps with
                  | tail_back :: rest => tail_back ← commit_other tail_back asset_map; Ok (tail_back :: rest, None)
                  | [] => Ok ([], Some asset_map)
                  end in
    match merged with
    | Err e =>
      db ← wrapper_rollback (database g);
      Ok (mkGlobal maps batches db ro (cost_track g), inl e)
    | Panic => Panic
    | Ok (maps, out_map) =>
      let '(batches, out_batch) := match batches with
                                   | tail_back :: rest => ((tail_back ++ event_batch) :: rest, None)
                                   | [] => ([], Some event_batch)
                                   end in
      db ← wrapper_commit (database g);
      Ok (mkGlobal maps batches db ro (cost_track g), inr (out_map, out_batch))
    end
  | _, _ => Panic
  end.

Definition roll_back g : Res Empty_set (GlobalContext S) :=
  match asset_maps g, read_only g, event_batches g with
  | _ :: maps, _ :: ro, _ :: batches =>
    db ← wrapper_rollback (database g);
    Ok (mkGlobal maps batches db ro (cost_track g))
  | _, _, _ => Panic
  end.

Definition context_destruct g : option (RollbackWrapper S * LimitedCostTracker) :=
  if is_top_level g then Some (database g, cost_track g) else None.

Section methods.
Context {X : Type}.

(** [get_asset_map] and a method of the map found, whose error leaves it as it
    is. *)
Definition on_asset_map (f : AssetMap -> Res VmError AssetMap) : Exec S X unit := fun s =>
  match asset_maps s.1 with
  | [] => Panic
  | m :: maps =>
    match f m with
    | Ok m' => Ok ((set_asset_maps s.1 (m' :: maps), s.2), inr tt)
    | Err e => Ok (s, inl e)
    | Panic => Panic
    end
  end.

Definition log_asset_transfer (sender : PrincipalData) (contract_identifier : QualifiedContractIdentifier)
    (asset_name : string) (transfered : Value) : Exec S X unit :=
  on_asset_map (fun m => Ok (add_asset_transfer m sender (mkAssetId contract_identifier asset_name) transfered)).
Definition log_token_transfer (sender : PrincipalData) (contract_identifier : QualifiedContractIdentifier)
    (asset_name : string) (transfered : Z) : Exec S X unit :=
  on_asset_map (fun m => add_token_transfer m sender (mkAssetId contract_identifier asset_name) transfered).
Definition log_stx_transfer (sender : PrincipalData) (transfered : Z) : Exec S X unit :=
  on_asset_map (fun m => add_stx_transfer m sender transfered).
Definition log_stx_burn (sender : PrincipalData) (transfered : Z) : Exec S X unit :=
  on_asset_map (fun m => add_stx_burn m sender transfered).

(** [commit] and [roll_back] on the context. *)
Definition commit_ : Exec S X (option AssetMap * option EventBatch) := fun s =>
  '(g, r) ← lift_panic (commit s.1); Ok ((g, s.2), r).
Definition roll_back_ : Exec S X unit := modifyP roll_back.

Definition execute {T} (f : Exec S X T) : Exec S X T :=
  _ ← modify begin;
  r ← attempt f;
  match r with
  | inr result => _ ← commit_; mret result
  | inl e => _ ← roll_back_; throw e
  end.

Definition handle_tx_result (result : VmError + Value) : Exec S X Value :=
  match result with
  | inr (VResponse committed data as result) =>
    if committed then _ ← commit_; mret result
    else _ ← roll_back_; mret result
  | inr result =>
    t ← lift_res (lift_panic (type_of result));
    throw (Unchecked (PublicFunctionMustReturnResponse t))
  | inl e => _ ← roll_back_; throw e
  end.

(** [Environment::execute_function_as_transaction]; [execute_apply] runs the
    function in the nested environment. *)
Definition execute_function_as_transaction (make_read_only : bool) (execute_apply : Exec S X Value) : Exec S X Value :=
  _ ← modify (if make_read_only then begin_read_only else begin);
  result ← attempt execute_apply;
  if make_read_only then _ ← roll_back_; of_result result
  else handle_tx_result result.

(** [Environment::evaluate_at_block]; [closure] evaluates the expression. *)
Definition evaluate_at_block (bhh : list Z) (closure : Exec S X Value) : Exec S X Value := fun s =>
  let g := begin_read_only s.1 in
  match wrapper_set_block_hash (database g) bhh with
  | Ok (prior_bhh, w) =>
    match closure (set_database g w, s.2) with
    | Ok ((g, x), result) =>
      match wrapper_set_block_hash (database g) prior_bhh with
      | Ok (_, w) => g ← lift_panic (roll_back (set_database g w)); Ok ((g, x), result)
      | _ => Panic
      end
    | r => r
    end
  | Err e => g ← lift_panic (roll_back g); Ok ((g, s.2), inl e)
  | Panic => Panic
  end.

(** [OwnedEnvironment::commit]. *)
Definition owned_commit : Exec S X (AssetMap * EventBatch) :=
  '(asset_map, event_batch) ← commit_;
  asset_map ← lift_res (ok_or asset_map (Interpreter FailedToConstructAssetTable));
  event_batch ← lift_res (ok_or event_batch (Interpreter FailedToConstructEventBatch));
  mret (asset_map, event_batch).

(** [OwnedEnvironment::execute_in_env], [f] already applied to the environment
    of the sender. *)
Definition execute_in_env {A} (f : Exec S X A) : Exec S X (A * AssetMap * EventBatch) := fun s =>
  if is_top_level s.1 then
    (_ ← modify begin;
     result ← attempt f;
     match result with
     | inr return_value =>
       '(asset_map, event_batch) ← owned_commit;
       mret (return_value, asset_map, event_batch)
     | inl e => _ ← roll_back_; throw e
     end) s
  else Panic.

(** Events go to the top batch; without one they are dropped. *)
Definition register_event (e : StacksTransactionEvent) : Exec S X unit :=
  modify (fun g => match event_batches g with
                   | batch :: batches => set_event_batches g ((batch ++ [e]) :: batches)
                   | [] => g
                   end).

Definition register_print_event (contract_identifier : QualifiedContractIdentifier) (value : Value) : Exec S X unit :=
  register_event (SmartContractEvent (contract_identifier, "print") value).
Definition register_stx_transfer_event (sender recipient : PrincipalData) (amount : Z) : Exec S X unit :=
  register_event (STXEvent (STXTransferEvent sender recipient amount)).
Definition register_stx_burn_event (sender : PrincipalData) (amount : Z) : Exec S X unit :=
  register_event (STXEvent (STXBurnEvent sender amount)).
Definition register_nft_transfer_event (sender recipient : PrincipalData) (value : Value)
    (asset_identifier : AssetIdentifier) : Exec S X unit :=
  register_event (NFTEvent (NFTTransferEvent asset_identifier sender recipient value)).
Definition register_nft_mint_event (recipient : PrincipalData) (value : Value)
    (asset_identifier : AssetIdentifier) : Exec S X unit :=
  register_event (NFTEvent (NFTMintEvent asset_identifier recipient value)).
Definition register_ft_transfer_event (sender recipient : PrincipalData) (amount : Z)
    (asset_identifier : AssetIdentifier) : Exec S X unit :=
  register_event (FTEvent (FTTransferEvent asset_identifier sender recipient amount)).
Definition register_ft_mint_event (recipient : PrincipalData) (amount : Z)
    (asset_identifier : AssetIdentifier) : Exec S X unit :=
  register_event (FTEvent (FTMintEvent asset_identifier recipient amount)).

(** Charging: the methods of [CostTracker] on the context. *)
Definition charge (f : LimitedCostTracker -> LimitedCostTracker * Res CostErrors unit) : Exec S X unit := fun s =>
  let '(c, r) := f (cost_track s.1) in
  lift_res (map_err (fun e => Unchecked (CheckCost e)) r) (set_cost_track s.1 c, s.2).
Definition context_add_cost (cost : ExecutionCost) : Exec S X unit := charge (fun c => add_cost c cost).
Definition context_add_memory (memory : Z) : Exec S X unit := charge (fun c => add_memory c memory).
Definition context_drop_memory (memory : Z) : Exec S X unit :=
  modifyP (fun g => c ← drop_memory (cost_track g) memory; Ok (set_cost_track g c)).
(** The macro [runtime_cost!] on the context. *)
Definition env_cost (spec : SimpleCostSpecification) (input : Z) : Exec S X unit := charge (fun c => runtime_cost spec c input).

(** A method of the database; one that fails writes nothing. *)
Definition on_database {A} (m : Db S A) : Exec S X A := fun s =>
  match m (database s.1) with
  | Ok (a, w) => Ok ((set_database s.1 w, s.2), inr a)
  | Err e => Ok (s, inl e)
  | Panic => Panic
  end.
End methods.
End contexts.

(** * Local contexts *)

Definition MAX_CONTEXT_DEPTH : Z := 256.

(** [parent], [variables], [callable_contracts] and [depth]. *)
Inductive LocalContext := mkLocal {
  parent : option LocalContext;
  variables : gmap string Value;
  callable_contracts : gmap string (QualifiedContractIdentifier * TraitIdentifier);
  lc_depth : Z;
}.

Definition LocalContext_new : LocalContext := mkLocal None ∅ ∅ 0.

Definition extend (self : LocalContext) : Res VmError LocalContext :=
  if MAX_CONTEXT_DEPTH <=? lc_depth self then Err (Runtime MaxContextDepthReached)
  else Ok (mkLocal (Some self) ∅ ∅ (wrap 16 (lc_depth self + 1))).

Fixpoint lookup_variable (self : LocalContext) (name : string) : option Value :=
  match self with
  | mkLocal parent variables _ _ =>
    match variables !! name with
    | Some value => Some value
    | None => match parent with
              | Some parent => lookup_variable parent name
              | None => None
              end
    end
  end.

(** * The call stack *)

(** [FunctionIdentifier] is a string; the head of [cs_stack] is the newest. *)
Record CallStack := mkCallStack {
  cs_stack : list string;
  cs_set : gset string;
}.

Definition CallStack_new : CallStack := mkCallStack [] ∅.
Definition CallStack_depth (self : CallStack) : nat := length (cs_stack self).
Definition CallStack_contains (self : CallStack) (function : string) : bool := bool_decide (function ∈ cs_set self).
Definition CallStack_insert (self : CallStack) (function : string) (track : bool) : CallStack :=
  mkCallStack (function :: cs_stack self) (if track then {[function]} ∪ cs_set self else cs_set self).

(** The error comes with the stack already popped. *)
Definition CallStack_remove (self : CallStack) (function : string) (tracked : bool)
  : Res Empty_set (CallStack * (VmError + unit)) :=
  let err := Interpreter (InterpreterErrorMsg "Tried to remove item from empty call stack.") in
  match cs_stack self with
  | removed :: stack =>
    if decide (removed <> function) then Ok (mkCallStack stack (cs_set self), inl err)
    else if tracked then
      if decide (function ∈ cs_set self) then Ok (mkCallStack stack (cs_set self ∖ {[function]}), inr tt)
      else Panic
    else Ok (mkCallStack stack (cs_set self), inr tt)
  | [] => Ok (self, inl err)
  end.
