(* ===== verification/ContextFacts.v ===== *)
(** Atomicity of contract calls: what [GlobalContext] leaves behind when a
    nested execution succeeds, fails, or was read-only. *)
From stdpp Require Import base strings numbers list gmap.
From Stdlib Require Import ZArith Lia.
From S2P Require Import Prelude Names Types C32Facts RollbackWrapper BackingStore Costs AssetMap ClarityDatabase Contexts.
#[local] Open Scope Z_scope.

Section facts.
Context {S : Type} `{Hstore : !ClarityBackingStore S VmError} `{Hlaws : !BackingStoreLaws S VmError}.
Implicit Types g : GlobalContext S.

(** * Invariant *)

(** The stacks have one entry per open context, and the database stands for a
    stack of edit logs, one for each open context over those that were there
    before. *)
Definition represents_context g (s : LogStack S) : Prop :=
  wrapper_refines (database g) s /\
  (length (asset_maps g) <= length (ls_logs s))%nat /\
  length (event_batches g) = length (asset_maps g) /\
  length (read_only g) = length (asset_maps g).

Definition context_wf g : Prop := exists s, represents_context g s.

(** What code running in an open context may do to the global context: charge,
    record assets and events in the top frame, write to the database, and run
    code in nested contexts that it closes, also on the state of an earlier
    block. *)
Inductive touches : GlobalContext S -> GlobalContext S -> Prop :=
| touch_refl g : touches g g
| touch_trans g1 g2 g3 : touches g1 g2 -> touches g2 g3 -> touches g1 g3
| touch_cost g c : touches g (set_cost_track g c)
| touch_assets g m m' maps : asset_maps g = m :: maps -> touches g (set_asset_maps g (m' :: maps))
| touch_events g b b' batches : event_batches g = b :: batches -> touches g (set_event_batches g (b' :: batches))
| touch_put g k v w : wrapper_put (database g) k v = Ok w -> touches g (set_database g w)
| touch_metadata g c k v w : wrapper_insert_metadata (database g) c k v = Ok w -> touches g (set_database g w)
| touch_commit g g1 g2 r (ro : bool) :
    touches (if ro then begin_read_only g else begin g) g1 -> commit g1 = Ok (g2, r) -> touches g g2
| touch_roll_back g g1 g2 (ro : bool) :
    touches (if ro then begin_read_only g else begin g) g1 -> roll_back g1 = Ok g2 -> touches g g2
| touch_at_block g g1 g2 bhh prior bhh' w w' :
    wrapper_set_block_hash (database (begin_read_only g)) bhh = Ok (prior, w) ->
    touches (set_database (begin_read_only g) w) g1 ->
    wrapper_set_block_hash (database g1) prior = Ok (bhh', w') -> roll_back (set_database g1 w') = Ok g2 ->
    touches g g2.

(** * Frames *)

(** The context has a top frame over the given frames. *)
Definition frame g st ls maps batches ro : Prop :=
  exists m b log mlog,
    asset_maps g = m :: maps /\ event_batches g = b :: batches /\ read_only g = ro /\
    wrapper_refines (database g) (mkLogs st ((log, mlog) :: ls)) /\
    (length maps <= length ls)%nat /\ length batches = length maps /\ length ro = Datatypes.S (length maps).

Lemma begin_frame g s (ro : bool) :
  represents_context g s ->
  frame (if ro then begin_read_only g else begin g) (ls_store s) (ls_logs s) (asset_maps g) (event_batches g)
    ((if ro then true else is_read_only g) :: read_only g).
Proof.
  intros (Hr & Hm & Hb & Hro). apply refines_nest in Hr.
  exists AssetMap_new, [], [], []. by destruct ro; cbn; rewrite Hro.
Qed.

Lemma frame_represents g st ls maps batches ro :
  frame g st ls maps batches ro -> exists log mlog, represents_context g (mkLogs st ((log, mlog) :: ls)).
Proof.
  intros (m & b & log & mlog & Hm & Hb & Hro & Hr & Hlm & Hlb & Hlr). exists log, mlog.
  split; [done|]. rewrite Hm, Hb, Hro. cbn. rewrite Hlb. split_and!; [lia|done..].
Qed.

(** The frames of a context nested in another. *)
Lemma frame_begin g st ls maps batches ro (nro : bool) :
  frame g st ls maps batches ro ->
  exists m b log mlog r,
    frame (if nro then begin_read_only g else begin g) st ((log, mlog) :: ls) (m :: maps) (b :: batches) (r :: ro) /\
    (length maps <= length ls)%nat /\ length batches = length maps /\ length ro = Datatypes.S (length maps).
Proof.
  intros Hf. pose proof Hf as (m & b & _ & _ & Hm & Hb & Hro & _ & Hl).
  destruct (frame_represents _ _ _ _ _ _ Hf) as (log & mlog & Hrep).
  exists m, b, log, mlog, (if nro then true else is_read_only g). split; [|done].
  rewrite <-Hm, <-Hb, <-Hro. exact (begin_frame g _ nro Hrep).
Qed.

Lemma roll_back_frame g st ls maps batches r ro :
  frame g st ls maps batches (r :: ro) ->
  exists w, roll_back g = Ok (mkGlobal maps batches w ro (cost_track g)) /\ wrapper_refines w (mkLogs st ls).
Proof.
  intros (m & b & log & mlog & Hm & Hb & Hro & Hr & _). unfold roll_back. rewrite Hm, Hb, Hro.
  destruct (refines_rollback _ _ _ _ _ Hr) as (w & -> & Hw). by exists w.
Qed.

Lemma frame_set_block_hash g st ls maps batches ro bhh prior w :
  frame g st ls maps batches ro -> wrapper_set_block_hash (database g) bhh = Ok (prior, w) ->
  exists st', bs_set_block_hash st bhh = Ok (prior, st') /\ frame (set_database g w) st' ls maps batches ro.
Proof.
  intros (m & b & log & mlog & Hm & Hb & Hro & Hr & Hl) Hset.
  destruct (refines_set_block_hash _ _ _ _ _ _ Hr Hset) as (st' & Hst & Hr'). exists st'. split; [done|].
  by exists m, b, log, mlog.
Qed.

(** Committing over an enclosing frame. *)
Lemma commit_frame g st log0 mlog0 ls m0 maps b0 batches r ro :
  frame g st ((log0, mlog0) :: ls) (m0 :: maps) (b0 :: batches) (r :: ro) ->
  exists m b log mlog, asset_maps g = m :: m0 :: maps /\ event_batches g = b :: b0 :: batches /\
   wrapper_refines (database g) (mkLogs st ((log, mlog) :: (log0, mlog0) :: ls)) /\
   ((exists c w, commit_other m0 m = Ok c /\ merged m0 m c /\
      commit g = Ok (mkGlobal (c :: maps) ((b0 ++ b) :: batches) w ro (cost_track g), inr (None, None)) /\
      wrapper_refines w (mkLogs st ((log0 ++ log, mlog0 ++ mlog) :: ls))) \/
    (exists w, ~ no_overflow m0 m /\
      commit g = Ok (mkGlobal (m0 :: maps) (b0 :: batches) w ro (cost_track g), inl (Runtime ArithmeticOverflow)) /\
      wrapper_refines w (mkLogs st ((log0, mlog0) :: ls)))).
Proof.
  intros (m & b & log & mlog & Hm & Hb & Hro & Hr & _). exists m, b, log, mlog. split_and!; try done.
  unfold commit. rewrite Hm, Hb, Hro. cbn [tail].
  destruct (commit_other_cases_spec m0 m) as [(c & Hc & Hmerged)|(Hno & ->)].
  - left. rewrite Hc. cbn. destruct (refines_commit_inner _ _ _ _ _ _ _ Hr) as (w & -> & Hw).
    exists c, w. by split_and!.
  - right. cbn. destruct (refines_rollback _ _ _ _ _ Hr) as (w & -> & Hw). by exists w.
Qed.

(** Confined code leaves the frames below the top one as they are. *)
Lemma touches_frame g g' :
  touches g g' -> forall st ls maps batches ro,
  frame g st ls maps batches ro -> frame g' st ls maps batches ro.
Proof.
  induction 1 as [g|g1 g2 g3 _ IH1 _ IH2|g c|g m m' maps0 Hm0|g b b' batches0 Hb0|g k v w Hput|g c k v w Hput
    |g g1 g2 r nro _ IH Hc|g g1 g2 nro _ IH Hc|g g1 g2 bhh prior bhh' w w' Hgo _ IH Hback Hc]; intros st ls maps batches ro Hf; auto.
  - destruct Hf as (m1 & b1 & log & mlog & Hm & Hb & Hro & Hr & Hl). rewrite Hm in Hm0. simplify_eq.
    by exists m', b1, log, mlog.
  - destruct Hf as (m1 & b1 & log & mlog & Hm & Hb & Hro & Hr & Hl). rewrite Hb in Hb0. simplify_eq.
    by exists m1, b', log, mlog.
  - destruct Hf as (m1 & b1 & log & mlog & Hm & Hb & Hro & Hr & Hl).
    destruct (refines_put _ _ _ _ _ k v Hr) as (w' & Hw & Hr'). rewrite Hput in Hw. simplify_eq.
    by exists m1, b1, (log ++ [(k, v)]), mlog.
  - destruct Hf as (m1 & b1 & log & mlog & Hm & Hb & Hro & Hr & Hl).
    destruct (refines_insert_metadata _ _ _ _ _ c k v Hr) as (w' & Hw & Hr'). rewrite Hput in Hw. simplify_eq.
    by exists m1, b1, log, (mlog ++ [((c, k), v)]).
  - destruct (frame_begin _ _ _ _ _ _ nro Hf) as (m1 & b1 & log & mlog & r1 & Hf1 & Hl). apply IH in Hf1.
    apply commit_frame in Hf1 as (m & b & log' & mlog' & _ & _ & _ & Hcases).
    destruct Hcases as [(c & w & _ & _ & Hc' & Hw)|(w & _ & Hc' & Hw)]; rewrite Hc in Hc'; simplify_eq/=;
      unfold frame; cbn; eauto 20.
  - destruct (frame_begin _ _ _ _ _ _ nro Hf) as (m1 & b1 & log & mlog & r1 & Hf1 & Hl). apply IH in Hf1.
    apply roll_back_frame in Hf1 as (w & Hc' & Hw). rewrite Hc in Hc'. simplify_eq/=. unfold frame; cbn; eauto 20.
  - destruct (frame_begin _ _ _ _ _ _ true Hf) as (m1 & b1 & log & mlog & r1 & Hf1 & Hl).
    destruct (frame_set_block_hash _ _ _ _ _ _ _ _ _ Hf1 Hgo) as (st1 & Hst1 & Hf2). apply IH in Hf2.
    destruct (frame_set_block_hash _ _ _ _ _ _ _ _ _ Hf2 Hback) as (st2 & Hst2 & Hf3).
    rewrite (bs_set_block_hash_back _ _ _ _ _ _ Hst1 Hst2) in Hf3.
    apply roll_back_frame in Hf3 as (w2 & Hc' & Hw). rewrite Hc in Hc'. simplify_eq/=. unfold frame; cbn; eauto 20.
Qed.

(** The context [g], with the costs charged in [g1]. *)
Definition restored g g1 : GlobalContext S := set_cost_track g (cost_track g1).

(** Whatever confined code did in a nested context, rolling back undoes it. *)
Lemma nested_roll_back g g1 (ro : bool) :
  context_wf g -> touches (if ro then begin_read_only g else begin g) g1 -> roll_back g1 = Ok (restored g g1).
Proof.
  intros [s Hrep] Ht. pose proof (touches_frame _ _ Ht _ _ _ _ _ (begin_frame g s ro Hrep)) as Hf.
  apply roll_back_frame in Hf as (w & -> & Hw). unfold restored, set_cost_track.
  destruct s as [st ls]. by rewrite (wrapper_refines_unique _ _ _ Hw (proj1 Hrep)).
Qed.

(** The same on the state of another block. *)
Lemma nested_at_block g g1 g2 bhh prior bhh' w w' :
  context_wf g -> wrapper_set_block_hash (database (begin_read_only g)) bhh = Ok (prior, w) ->
  touches (set_database (begin_read_only g) w) g1 ->
  wrapper_set_block_hash (database g1) prior = Ok (bhh', w') -> roll_back (set_database g1 w') = Ok g2 ->
  g2 = restored g g1.
Proof.
  intros [s Hrep] Hgo Ht Hback Hc. pose proof (begin_frame g s true Hrep) as Hf.
  destruct (frame_set_block_hash _ _ _ _ _ _ _ _ _ Hf Hgo) as (st1 & Hst1 & Hf2).
  apply (touches_frame _ _ Ht) in Hf2.
  destruct (frame_set_block_hash _ _ _ _ _ _ _ _ _ Hf2 Hback) as (st2 & Hst2 & Hf3).
  rewrite (bs_set_block_hash_back _ _ _ _ _ _ Hst1 Hst2) in Hf3.
  apply roll_back_frame in Hf3 as (w2 & Hc' & Hw). rewrite Hc in Hc'. simplify_eq/=. unfold restored, set_cost_track.
  destruct s as [st ls]. by rewrite (wrapper_refines_unique _ _ _ Hw (proj1 Hrep)).
Qed.

(** ** Publication of a nested context *)

(** [g'] is [g] with the top frame of [g1] merged into its own: transfers added
    up, events appended, and every key reads as it did in [g1]. *)
Definition published g g1 g' : Prop :=
  exists m0 m c maps b0 b batches,
    asset_maps g = m0 :: maps /\ asset_maps g1 = m :: m0 :: maps /\ asset_maps g' = c :: maps /\ merged m0 m c /\
    event_batches g = b0 :: batches /\ event_batches g1 = b :: b0 :: batches /\
    event_batches g' = (b0 ++ b) :: batches /\
    read_only g' = read_only g /\ cost_track g' = cost_track g1 /\
    wrapper_depth (database g') = wrapper_depth (database g) /\
    (forall k, wrapper_get (database g') k = wrapper_get (database g1) k).

Lemma published_reads g g1 g' : published g g1 g' -> forall k, wrapper_get (database g') k = wrapper_get (database g1) k.
Proof. intros (m0 & m & c & maps & b0 & b & batches & _ & _ & _ & _ & _ & _ & _ & _ & _ & _ & H). exact H. Qed.

(** The transfers that the top frame of [g1] would add to that of [g] exceed
    the range of amounts. *)
Definition overflows g g1 : Prop :=
  exists m0 m maps, asset_maps g = m0 :: maps /\ asset_maps g1 = m :: m0 :: maps /\ ~ no_overflow m0 m.

Lemma nested_commit g g1 (ro : bool) :
  context_wf g -> asset_maps g <> [] -> touches (if ro then begin_read_only g else begin g) g1 ->
  (exists g', commit g1 = Ok (g', inr (None, None)) /\ published g g1 g') \/
  (overflows g g1 /\ commit g1 = Ok (restored g g1, inl (Runtime ArithmeticOverflow))).
Proof.
  intros [[st ls] Hrep] Hne Ht. pose proof Hrep as (Hr & Hlm & Hlb & Hlr).
  pose proof (touches_frame _ _ Ht _ _ _ _ _ (begin_frame g _ ro Hrep)) as Hf.
  cbn [ls_store ls_logs] in *.
  destruct (asset_maps g) as [|m0 maps] eqn:Em; [done|]. destruct ls as [|[log0 mlog0] ls]; [cbn in Hlm; lia|]. destruct (event_batches g) as [|b0 batches] eqn:Eb; [done|].
  apply commit_frame in Hf as (m & b & log & mlog & Hm & Hb & Hr1 & Hcases).
  destruct Hcases as [(c & w & Hc & Hmerged & Hcommit & Hw)|(w & Hover & Hcommit & Hw)].
  - left. eexists. split; [done|]. exists m0, m, c, maps, b0, b, batches. split_and!; try done; cbn.
    + by rewrite (refines_depth _ _ Hw), (refines_depth _ _ Hr).
    + intros k. rewrite (refines_get _ _ _ Hw), (refines_get _ _ _ Hr1) by done. by rewrite !pending_cons, app_assoc.
  - right. split; [exists m0, m, maps; by split_and!|]. rewrite Hcommit. unfold restored, set_cost_track.
    by rewrite (wrapper_refines_unique _ _ _ Hw Hr), Em, Eb.
Qed.


(** ** Closing a context *)

Section closing.
Context {X : Type}.
Implicit Types x : X.

Lemma roll_back_step g g1 x (ro : bool) :
  context_wf g -> touches (if ro then begin_read_only g else begin g) g1 ->
  roll_back_ (g1, x) = Ok ((restored g g1, x), inr tt).
Proof. intros Hwf Ht. unfold roll_back_, modifyP. cbn [fst snd]. by rewrite (nested_roll_back g g1 ro). Qed.

(** A public call: a public function run in a context of its
    own either publishes everything it did to the caller's context, when it
    returned a committing response whose transfers can be added up, or changes
    nothing there but the costs charged (an error, an aborting response, or
    transfers that overflow). *)
Lemma public_call_atomic (f : Exec S X Value) g x g1 x1 (r : VmError + Value) :
  context_wf g -> asset_maps g <> [] -> f (begin g, x) = Ok ((g1, x1), r) -> touches (begin g) g1 ->
  match r with
  | inl e => execute_function_as_transaction false f (g, x) = Ok ((restored g g1, x1), inl e)
  | inr (VResponse false v) =>
      execute_function_as_transaction false f (g, x) = Ok ((restored g g1, x1), inr (VResponse false v))
  | inr (VResponse true v) =>
      (exists g', execute_function_as_transaction false f (g, x) = Ok ((g', x1), inr (VResponse true v)) /\ published g g1 g') \/
      (overflows g g1 /\
       execute_function_as_transaction false f (g, x) = Ok ((restored g g1, x1), inl (Runtime ArithmeticOverflow)))
  | inr v =>
      execute_function_as_transaction false f (g, x) =
        (t ← lift_panic (type_of v); Ok ((g1, x1), inl (Unchecked (PublicFunctionMustReturnResponse t))))
  end.
Proof.
  intros Hwf Hne Hrun Ht. unfold execute_function_as_transaction, mbind, exec_bind, modify, attempt. cbn [fst snd].
  rewrite Hrun. destruct r as [e|v].
  - unfold handle_tx_result, mbind, exec_bind. by rewrite (roll_back_step g g1 x1 false).
  - destruct v as [| | | | | | | |[] v]; unfold handle_tx_result, mbind, exec_bind, lift_res;
      try (by destruct (type_of _) as [|[]|]).
    + unfold commit_. cbn [fst snd].
      destruct (nested_commit g g1 false Hwf Hne Ht) as [(g' & -> & Hp)|(Ho & ->)]; [left|right]; [|done].
      exists g'. by split.
    + by rewrite (roll_back_step g g1 x1 false).
Qed.

(** A read-only call leaves the context as it found it but for the costs,
    whatever it did and returned, and all of its code runs with the read-only
    flag set, also in contexts nested inside it. *)
Lemma read_only_call_restores (f : Exec S X Value) g x g1 x1 (r : VmError + Value) :
  context_wf g -> f (begin_read_only g, x) = Ok ((g1, x1), r) -> touches (begin_read_only g) g1 ->
  execute_function_as_transaction true f (g, x) = Ok ((restored g g1, x1), r) /\
  (forall g2, touches (begin_read_only g) g2 -> is_read_only g2 = true /\ is_read_only (begin g2) = true).
Proof.
  intros Hwf Hrun Ht. split.
  - unfold execute_function_as_transaction, mbind, exec_bind, modify, attempt. cbn [fst snd]. rewrite Hrun.
    by rewrite (roll_back_step g g1 x1 true).
  - intros g2 Ht2. destruct Hwf as [s Hrep].
    destruct (touches_frame _ _ Ht2 _ _ _ _ _ (begin_frame g s true Hrep)) as (m & b & log & mlog & _ & _ & Hro & _).
    unfold begin, is_read_only. cbn. by rewrite Hro.
Qed.

(** Committing a frame keeps what can be read. *)
Lemma commit_reads w st log mlog ls :
  wrapper_refines w (mkLogs st ((log, mlog) :: ls)) ->
  match wrapper_commit w with
  | Ok w' => (exists s, wrapper_refines w' s /\ length (ls_logs s) = length ls) /\
             forall k, wrapper_get (wrapper_nest w') k = wrapper_get w k
  | Err _ => False
  | Panic => True
  end.
Proof.
  intros Hr. destruct ls as [|[log0 mlog0] ls].
  - rewrite (refines_commit_bottom _ _ _ _ Hr). pose proof (flush_reads st log mlog) as Hfl.
    destruct (flush st log mlog) as [st'|[]|]; cbn; [|done]. split; [exists (mkLogs st' []); split; [apply wrapper_new_refines|done]|].
    intros k. rewrite (refines_get _ _ _ Hr), pending_cons by done. unfold wrapper_get. cbn. by rewrite lookup_empty, Hfl.
  - destruct (refines_commit_inner _ _ _ _ _ _ _ Hr) as (w' & -> & Hw). split; [by eexists|]. intros k.
    rewrite (refines_get _ _ _ Hr), (refines_get _ _ _ (refines_nest _ _ Hw)) by done. cbn [ls_store ls_logs].
    by rewrite !pending_cons, app_nil_r, app_assoc.
Qed.

(** The writes and the metadata of the innermost log go to the next one, or to the
    store. *)
Definition committed (w w' : RollbackWrapper S) : Prop :=
  exists s s', wrapper_refines w s /\ spec_step s Commit = Ok s' /\ wrapper_refines w' s'.
Lemma commit_committed w w' s : wrapper_refines w s -> wrapper_commit w = Ok w' -> committed w w'.
Proof.
  intros Hr Hw. pose proof (refines_step w s Commit Hr) as Hs. cbn [wrapper_step] in Hs. rewrite Hw in Hs.
  destruct (spec_step s Commit) as [s'|[]|] eqn:E; [|done]. destruct Hs as (w2 & [= <-] & Hr'). by exists s, s'.
Qed.
(** Over another log the metadata read as before as well. *)
Lemma commit_metadata w w' st l l' ls c k : wrapper_refines w (mkLogs st (l :: l' :: ls)) -> wrapper_commit w = Ok w' ->
  wrapper_get_metadata (wrapper_nest w') c k = wrapper_get_metadata w c k.
Proof.
  destruct l as [log mlog], l' as [log' mlog']. intros Hr Hw. destruct (refines_commit_inner _ _ _ _ _ _ _ Hr) as (w2 & Hw2 & Hr2).
  rewrite Hw in Hw2. injection Hw2 as <-. rewrite (refines_get_metadata _ _ _ _ Hr), (refines_get_metadata _ _ _ _ (refines_nest _ _ Hr2)) by done.
  cbn [ls_store ls_logs]. by rewrite !pending_metadata_cons, app_nil_r, app_assoc.
Qed.

(** A transaction: at the top level, an error leaves the
    database and the context as they were, and a value comes with the assets and
    events of the whole transaction, its writes committed, and no context left
    open. *)
Lemma transaction_run_atomic {A} (f : Exec S X A) g s x g1 x1 (r : VmError + A) :
  represents_context g s -> is_top_level g = true -> f (begin g, x) = Ok ((g1, x1), r) -> touches (begin g) g1 ->
  match r with
  | inl e => execute_in_env f (g, x) = Ok ((restored g g1, x1), inl e)
  | inr a => exists m b log mlog,
      asset_maps g1 = [m] /\ event_batches g1 = [b] /\
      wrapper_refines (database g1) (mkLogs (ls_store s) ((log, mlog) :: ls_logs s)) /\
      execute_in_env f (g, x) =
        (w ← lift_panic (wrapper_commit (database g1)); Ok ((mkGlobal [] [] w [] (cost_track g1), x1), inr (a, m, b)))
  end.
Proof.
  intros Hrep Htop Hrun Ht. unfold execute_in_env, mbind, exec_bind, modify, attempt. cbn [fst snd]. rewrite Htop, Hrun.
  destruct r as [e|a].
  - rewrite (roll_back_step g g1 x1 false); [done| |done]. by exists s.
  - destruct s as [st ls]. pose proof (touches_frame _ _ Ht _ _ _ _ _ (begin_frame g _ false Hrep)) as Hf1.
    destruct Hrep as (Hr & Hlm & Hlb & Hlr).
    apply bool_decide_eq_true in Htop. destruct (asset_maps g); [|done]. destruct (event_batches g); [|done].
    destruct (read_only g); [|done]. destruct Hf1 as (m & b & log & mlog & Hm & Hb & Hro & Hr1 & _).
    exists m, b, log, mlog. split_and!; try done.
    unfold owned_commit, mbind, exec_bind, commit_, commit. cbn [fst snd]. rewrite Hm, Hb, Hro.
    by destruct (wrapper_commit (database g1)) as [|[]|].
Qed.
End closing.
End facts.

Section witnesses.
#[local] Existing Instance zero_sha256.
Notation store := MemoryBackingStore.

Definition example_sender : PrincipalData := Standard (mkStandard 22 (replicate 20 7)).

(** A function that writes, sends, reports, and returns. *)
Definition example_call (result : Value) : Exec store unit Value :=
  _ ← on_database (db_write (fun w => wrapper_put w "k" "v"));
  _ ← log_stx_transfer example_sender 5;
  _ ← register_stx_burn_event example_sender 5;
  mret result.

Definition top_context : GlobalContext store :=
  GlobalContext_new (wrapper_new MemoryBackingStore_new) LimitedCostTracker_new_max_limit.

Lemma top_context_wf : context_wf top_context.
Proof. exists (mkLogs MemoryBackingStore_new []). split; [apply wrapper_new_refines|done]. Qed.

Lemma begin_wf g : context_wf g -> context_wf (begin (S := store) g).
Proof.
  intros [s Hs]. destruct (frame_represents _ _ _ _ _ _ (begin_frame g s false Hs)) as (log & mlog & Hr). by eexists.
Qed.

(** A public function that returns a value which is not a response leaves
    its context open: after the error the context is not at the top level, so
    that the next transaction panics. *)
Theorem non_response_leaves_context_open :
  match execute_function_as_transaction false (example_call (VInt 1)) (top_context, tt) with
  | Ok ((g, x), inl _) => is_top_level top_context = true /\ is_top_level g = false /\
                     execute_in_env (example_call (VInt 1)) (g, x) = Panic
  | _ => False
  end.
Proof. vm_compute. done. Qed.
End witnesses.
