(* ===== verification/Interpreter.v ===== *)
(** The interpreter: src/vm/mod.rs, src/vm/callables.rs, src/vm/variables.rs and
    the functions of src/vm/functions that evaluate their arguments themselves.

    [apply] is defined by recursion on fuel.  The functions below take the
    evaluator and [apply] as arguments; [apply] passes itself with one unit of
    fuel less.  A stack trace is empty outside the developer mode, so that it is
    not kept. *)
From stdpp Require Import base strings numbers list gmap.
From Stdlib Require Import Ascii ZArith Lia.
From S2P Require Import Prelude Names BTree Types Representations Values C32 RollbackWrapper BackingStore Costs AssetMap ClarityDatabase Natives Contexts.
#[local] Open Scope Z_scope.

Definition MAX_CALL_STACK_DEPTH : nat := 64.
Definition AS_CONTRACT_MEMORY : Z := 1.
Definition AT_BLOCK_MEMORY : Z := 1.

(** * Environments *)

(** [Environment], but for the references to the global context and to the call
    stack, which are the state of [Exec]. *)
Record Environment := mkEnvironment {
  contract_context_ : ContractContext;
  env_sender : option Value;
  env_caller : option Value;
}.

(** The methods of [ContractContext]. *)
Definition cx_lookup_variable (c : ContractContext) (name : string) : option Value := cx_variables c !! name.
Definition cx_lookup_function (c : ContractContext) (name : string) : option DefinedFunction := cx_functions c !! name.
Definition lookup_trait_definition (c : ContractContext) (name : string) : option (list (string * FunctionSignature)) :=
  cx_defined_traits c !! name.
Definition is_explicitly_implementing_trait (c : ContractContext) (t : TraitIdentifier) : bool :=
  bool_decide (t ∈ cx_implemented_traits c).

(** [FunctionSignature::check_args_trait_compliance]. *)
Fixpoint args_comply (expected args : list TypeSignature) : Res Empty_set bool :=
  match expected, args with
  | expected_arg :: expected, arg :: args =>
    b ← match expected_arg, arg with
        | TraitReferenceType expected, TraitReferenceType candidate => Ok (bool_decide (candidate = expected))
        | _, _ => admits_type arg expected_arg
        end;
    if (b : bool) then args_comply expected args else Ok false
  | _, _ => Ok true
  end.
Definition check_args_trait_compliance (self : FunctionSignature) (args : list TypeSignature) : Res Empty_set bool :=
  if negb (Nat.eqb (length args) (length (fs_args self))) then Ok false else args_comply (fs_args self) args.

(** [DefinedFunction::check_trait_expectations]. *)
Definition check_trait_expectations (self : DefinedFunction) (contract_defining_trait : ContractContext)
    (trait_identifier : TraitIdentifier) : Res VmError unit :=
  let name := trait_name trait_identifier in
  constraining_trait ← ok_or (lookup_trait_definition contract_defining_trait name)
    (Unchecked (TraitReferenceUnknown name));
  expected_sig ← ok_or (bt_get (fn_name self) constraining_trait)
    (Unchecked (TraitMethodUnknown name (fn_name self)));
  b ← lift_panic (check_args_trait_compliance expected_sig (fn_arg_types self));
  if (b : bool) then Ok tt else Err (Unchecked (BadTraitImplementation name (fn_name self))).

(** * Reserved names *)

Inductive NativeVariables :=
| ContractCaller | TxSender | BlockHeight | BurnBlockHeight | NativeNone | NativeTrue | NativeFalse.

Definition native_variable_names : list (string * NativeVariables) :=
  [("contract-caller", ContractCaller); ("tx-sender", TxSender); ("block-height", BlockHeight);
   ("burn-block-height", BurnBlockHeight); ("none", NativeNone); ("true", NativeTrue); ("false", NativeFalse)].

(** [lookup_by_name] of an enum with names. *)
Fixpoint lookup_by_name {V} (names : list (string * V)) (name : string) : option V :=
  match names with
  | [] => None
  | (n, v) :: names => if decide (name = n) then Some v else lookup_by_name names name
  end.

Definition is_reserved_name (name : string) : bool :=
  match lookup_by_name native_variable_names name with Some _ => true | None => false end.

(** The functions that evaluate their arguments themselves. *)
Inductive Special :=
| F_and | F_or | F_if | F_let | F_fetch_variable | F_set_variable | F_map
| F_filter | F_fold | F_concat | F_as_max_len | F_append | F_list_cons | F_fetch_entry
| F_set_entry | F_insert_entry | F_delete_entry | F_tuple_cons | F_tuple_get | F_print
| F_contract_call | F_as_contract | F_get_block_info | F_asserts | F_match
| F_mint_asset | F_mint_token | F_transfer_asset | F_transfer_token | F_get_balance
| F_get_owner | F_at_block | F_stx_transfer | F_stx_burn.

Inductive CallableType :=
| UserFunction (f : DefinedFunction)
| NativeFunction (name : string) (handle : NativeHandle) (cost_function : SimpleCostSpecification)
| SpecialFunction (name : string) (f : Special).

(** [CallableType::get_identifier]. *)
Definition get_identifier (self : CallableType) : string :=
  match self with
  | UserFunction f => fn_identifier f
  | NativeFunction s _ _ => "_native_:" +:+ s
  | SpecialFunction s _ => "_native_:" +:+ s
  end.

(** [NativeFunctions] with its names, and the callables of
    [lookup_reserved_functions]. *)
Section natives.
Context `{!Sha256} `{!Sha512Trunc256} `{!NativeHashes}.
Import cost_functions.
Definition native_functions : list (string * CallableType) :=
  [("+", NativeFunction "native_add" (MoreArg native_add) ADD);
   ("-", NativeFunction "native_sub" (MoreArg native_sub) SUB);
   ("*", NativeFunction "native_mul" (MoreArg native_mul) MUL);
   ("/", NativeFunction "native_div" (MoreArg native_div) DIV);
   (">=", NativeFunction "native_geq" (DoubleArg native_geq) GEQ);
   ("<=", NativeFunction "native_leq" (DoubleArg native_leq) LEQ);
   ("<", NativeFunction "native_le" (DoubleArg native_le) LE);
   (">", NativeFunction "native_ge" (DoubleArg native_ge) GE);
   ("to-int", NativeFunction "native_to_int" (SingleArg native_to_int) INT_CAST);
   ("to-uint", NativeFunction "native_to_uint" (SingleArg native_to_uint) INT_CAST);
   ("mod", NativeFunction "native_mod" (DoubleArg native_mod) MOD);
   ("pow", NativeFunction "native_pow" (DoubleArg native_pow) POW);
   ("xor", NativeFunction "native_xor" (DoubleArg native_xor) XOR);
   ("and", SpecialFunction "special_and" F_and);
   ("or", SpecialFunction "special_or" F_or);
   ("not", NativeFunction "native_not" (SingleArg native_not) NOT);
   ("is-eq", NativeFunction "native_eq" (MoreArg native_eq) EQ);
   ("if", SpecialFunction "special_if" F_if);
   ("let", SpecialFunction "special_let" F_let);
   ("map", SpecialFunction "special_map" F_map);
   ("fold", SpecialFunction "special_fold" F_fold);
   ("append", SpecialFunction "special_append" F_append);
   ("concat", SpecialFunction "special_concat" F_concat);
   ("as-max-len?", SpecialFunction "special_as_max_len" F_as_max_len);
   ("len", NativeFunction "native_len" (SingleArg native_len) LEN);
   ("list", SpecialFunction "special_list_cons" F_list_cons);
   ("var-get", SpecialFunction "special_var-get" F_fetch_variable);
   ("var-set", SpecialFunction "special_set-var" F_set_variable);
   ("map-get?", SpecialFunction "special_map-get?" F_fetch_entry);
   ("map-set", SpecialFunction "special_set-entry" F_set_entry);
   ("map-insert", SpecialFunction "special_insert-entry" F_insert_entry);
   ("map-delete", SpecialFunction "special_delete-entry" F_delete_entry);
   ("tuple", SpecialFunction "special_tuple" F_tuple_cons);
   ("get", SpecialFunction "special_get-tuple" F_tuple_get);
   ("begin", NativeFunction "native_begin" (MoreArg native_begin) BEGIN);
   ("hash160", NativeFunction "native_hash160" (SingleArg native_hash160) HASH160);
   ("sha256", NativeFunction "native_sha256" (SingleArg native_sha256) SHA256);
   ("sha512", NativeFunction "native_sha512" (SingleArg native_sha512) SHA512);
   ("sha512/256", NativeFunction "native_sha512trunc256" (SingleArg native_sha512trunc256) SHA512T256);
   ("keccak256", NativeFunction "native_keccak256" (SingleArg native_keccak256) KECCAK256);
   ("print", SpecialFunction "special_print" F_print);
   ("contract-call?", SpecialFunction "special_contract-call" F_contract_call);
   ("as-contract", SpecialFunction "special_as-contract" F_as_contract);
   ("at-block", SpecialFunction "special_at_block" F_at_block);
   ("get-block-info?", SpecialFunction "special_get_block_info" F_get_block_info);
   ("err", NativeFunction "native_error" (SingleArg native_error) ERR_CONS);
   ("ok", NativeFunction "native_okay" (SingleArg native_okay) OK_CONS);
   ("some", NativeFunction "native_some" (SingleArg native_some) SOME_CONS);
   ("default-to", NativeFunction "native_default_to" (DoubleArg native_default_to) DEFAULT_TO);
   ("asserts!", SpecialFunction "special_asserts" F_asserts);
   ("unwrap!", NativeFunction "native_unwrap_ret" (DoubleArg native_unwrap_or_ret) UNWRAP_RET);
   ("unwrap-err!", NativeFunction "native_unwrap_err_ret" (DoubleArg native_unwrap_err_or_ret) UNWRAP_ERR_OR_RET);
   ("unwrap-panic", NativeFunction "native_unwrap" (SingleArg native_unwrap) UNWRAP);
   ("unwrap-err-panic", NativeFunction "native_unwrap_err" (SingleArg native_unwrap_err) UNWRAP_ERR);
   ("match", SpecialFunction "special_match" F_match);
   ("try!", NativeFunction "native_try_ret" (SingleArg native_try_ret) TRY_RET);
   ("is-ok", NativeFunction "native_is_okay" (SingleArg native_is_okay) IS_OKAY);
   ("is-none", NativeFunction "native_is_none" (SingleArg native_is_none) IS_NONE);
   ("is-err", NativeFunction "native_is_err" (SingleArg native_is_err) IS_ERR);
   ("is-some", NativeFunction "native_is_some" (SingleArg native_is_some) IS_SOME);
   ("filter", SpecialFunction "special_filter" F_filter);
   ("ft-get-balance", SpecialFunction "special_get_balance" F_get_balance);
   ("nft-get-owner?", SpecialFunction "special_get_owner" F_get_owner);
   ("ft-transfer?", SpecialFunction "special_transfer_token" F_transfer_token);
   ("nft-transfer?", SpecialFunction "special_transfer_asset" F_transfer_asset);
   ("nft-mint?", SpecialFunction "special_mint_asset" F_mint_asset);
   ("ft-mint?", SpecialFunction "special_mint_token" F_mint_token);
   ("stx-transfer?", SpecialFunction "special_stx_transfer" F_stx_transfer);
   ("stx-burn?", SpecialFunction "special_stx_burn" F_stx_burn)].

Definition lookup_reserved_functions (name : string) : option CallableType := lookup_by_name native_functions name.

Definition is_reserved (name : string) : bool :=
  match lookup_reserved_functions name with Some _ => true | None => is_reserved_name name end.

(** [ContractContext::is_name_used]. *)
Definition is_name_used (c : ContractContext) (name : string) : bool :=
  is_reserved name || bool_decide (is_Some (cx_variables c !! name)) || bool_decide (is_Some (cx_functions c !! name)) ||
  bool_decide (name ∈ cx_persisted_names c) || bool_decide (is_Some (cx_defined_traits c !! name)).
End natives.

(** * Helpers of the evaluators *)

Section interpreter.
Context {S : Type} `{!ClarityBackingStore S VmError} `{!Sha256} `{!Sha512Trunc256} `{!NativeHashes} `{!HeadersDB}.
Context `{!ClaritySerializable U128} `{!ClaritySerializable U64} `{!ClaritySerializable PrincipalData}.
Context `{!ClaritySerializable FungibleTokenMetadata} `{!ClaritySerializable NonFungibleTokenMetadata}.
Context `{!ClaritySerializable DataMapMetadata} `{!ClaritySerializable DataVariableMetadata}.
Context `{!Storable ContractData} `{!ClaritySerializable ContractData}.

#[local] Notation Run := (Exec S CallStack).

(** The call stack. *)
Definition get_stack : Run CallStack := fun s => Ok (s, inr s.2).
Definition insert_call (identifier : string) (track : bool) : Run unit := fun s =>
  Ok ((s.1, CallStack_insert s.2 identifier track), inr tt).
Definition remove_call (identifier : string) (tracked : bool) : Run unit := fun s =>
  '(cs, r) ← lift_panic (CallStack_remove s.2 identifier tracked); Ok ((s.1, cs), r).

Definition check_err {A} (e : CheckErrors) : Run A := throw (Unchecked e).
(** [.ok_or(..)?]. *)
Definition some_or {A} (x : option A) (e : CheckErrors) : Run A := lift_res (ok_or x (Unchecked e)).
Definition expect_value_type (v : Value) : Run TypeSignature := lift_res (lift_panic (type_of v)).
Definition size_of_value (v : Value) : Run Z := lift_res (value_size v).
Definition size_of_type (t : TypeSignature) : Run Z := lift_res (size t).
Definition add_costs (a b : Z) : Run Z := lift_res (map_err (fun e => Unchecked (CheckCost e)) (cost_overflow_add a b)).

(** Memory that is dropped whatever the outcome. *)
Definition finally_drop {A} (used : Z) (m : Run A) : Run A :=
  r ← attempt m;
  _ ← context_drop_memory used;
  of_result r.

Section specials.
(** The evaluator and [apply]. *)
Context (eval : SymbolicExpression -> Environment -> LocalContext -> Run Value).
Context (apply : CallableType -> list SymbolicExpression -> Environment -> LocalContext -> Run Value).
Implicit Types (args : list SymbolicExpression) (env : Environment) (context : LocalContext).

(** [iter().map(eval).collect()]. *)
Fixpoint eval_list args env context : Run (list Value) :=
  match args with
  | [] => mret []
  | x :: args => v ← eval x env context; vs ← eval_list args env context; mret (v :: vs)
  end.

(** ** Variables and functions *)

Definition lookup_reserved_variable (name : string) env : Run (option Value) :=
  match lookup_by_name native_variable_names name with
  | None => mret None
  | Some TxSender => v ← lift_res (ok_or (env_sender env) (Runtime NoSenderInContext)); mret (Some v)
  | Some ContractCaller => v ← lift_res (ok_or (env_caller env) (Runtime NoSenderInContext)); mret (Some v)
  | Some BlockHeight => h ← on_database db_get_current_block_height; mret (Some (VUInt h))
  | Some BurnBlockHeight => throw (Runtime NotImplemented)
  | Some NativeNone => mret (Some Value_none)
  | Some NativeTrue => mret (Some (VBool true))
  | Some NativeFalse => mret (Some (VBool false))
  end.

(** [starts_with(char::is_numeric) || starts_with('\'')], on ASCII names. *)
Definition bad_variable_name (name : string) : bool :=
  match name with
  | EmptyString => false
  | String c _ => is_digit (byte_of_ascii c) || (byte_of_ascii c =? 39)
  end.

Definition vm_lookup_variable (name : string) context env : Run Value :=
  if bad_variable_name name then throw (Interpreter (BadSymbolicRepresentation ("Unexpected variable name: " +:+ name)))
  else
    reserved ← lookup_reserved_variable name env;
    match reserved with
    | Some value => mret value
    | None =>
      _ ← env_cost cost_functions.LOOKUP_VARIABLE_DEPTH (lc_depth context);
      let found := match lookup_variable context name with
                   | Some value => Some value
                   | None => cx_lookup_variable (contract_context_ env) name
                   end in
      match found with
      | Some value =>
        s ← size_of_value value;
        _ ← env_cost cost_functions.LOOKUP_VARIABLE_SIZE s;
        mret value
      | None =>
        match callable_contracts context !! name with
        | Some (contract_identifier, _) => mret (VPrincipal (Contract contract_identifier))
        | None => check_err (UndefinedVariable name)
        end
      end
    end.

Definition lookup_function (name : string) env : Run CallableType :=
  _ ← env_cost cost_functions.LOOKUP_FUNCTION 0;
  match lookup_reserved_functions name with
  | Some result => mret result
  | None =>
    user_function ← some_or (cx_lookup_function (contract_context_ env) name) (UndefinedFunction name);
    mret (UserFunction user_function)
  end.

(** ** Control: src/vm/functions/mod.rs and boolean.rs *)

Fixpoint or_loop args env context : Run Value :=
  match args with
  | [] => mret (VBool false)
  | arg :: args =>
    evaluated ← eval arg env context;
    result ← lift_res (type_force_bool evaluated);
    if (result : bool) then mret (VBool true) else or_loop args env context
  end.
Definition special_or args env context : Run Value :=
  _ ← lift_res (check_arguments_at_least 1 args);
  _ ← env_cost cost_functions.OR (Z.of_nat (length args));
  or_loop args env context.

Fixpoint and_loop args env context : Run Value :=
  match args with
  | [] => mret (VBool true)
  | arg :: args =>
    evaluated ← eval arg env context;
    result ← lift_res (type_force_bool evaluated);
    if (result : bool) then and_loop args env context else mret (VBool false)
  end.
Definition special_and args env context : Run Value :=
  _ ← lift_res (check_arguments_at_least 1 args);
  _ ← env_cost cost_functions.AND (Z.of_nat (length args));
  and_loop args env context.

Definition special_print args env context : Run Value :=
  match args with
  | [] => lift_res Panic
  | arg :: _ =>
    input ← eval arg env context;
    s ← size_of_value input;
    _ ← env_cost cost_functions.PRINT s;
    _ ← register_print_event (cx_contract_identifier (contract_context_ env)) input;
    mret input
  end.

Definition special_if args env context : Run Value :=
  _ ← lift_res (check_argument_count 3 args);
  _ ← env_cost cost_functions.IF 0;
  match args with
  | [c; t; e] =>
    conditional ← eval c env context;
    match conditional with
    | VBool result => if result then eval t env context else eval e env context
    | _ => check_err (TypeValueError BoolType conditional)
    end
  | _ => lift_res Panic
  end.

Definition special_asserts args env context : Run Value :=
  _ ← lift_res (check_argument_count 2 args);
  _ ← env_cost cost_functions.ASSERTS 0;
  match args with
  | [c; t] =>
    conditional ← eval c env context;
    match conditional with
    | VBool result =>
      if result then mret conditional
      else
        thrown ← eval t env context;
        throw (ShortReturn (AssertionFailed thrown))
    | _ => check_err (TypeValueError BoolType conditional)
    end
  | _ => lift_res Panic
  end.

(** A binding [(name expression)] of [handle_binding_list]. *)
Definition parse_binding (binding : SymbolicExpression) : Res VmError (string * SymbolicExpression) :=
  binding_expression ← ok_or (match_list binding) (Unchecked BadSyntaxBinding);
  match binding_expression with
  | [name; var_sexp] =>
    var_name ← ok_or (match_atom name) (Unchecked BadSyntaxBinding);
    Ok (var_name, var_sexp)
  | _ => Err (Unchecked BadSyntaxBinding)
  end.

Fixpoint parse_eval_bindings (bindings : list SymbolicExpression) env context : Run (list (string * Value)) :=
  match bindings with
  | [] => mret []
  | binding :: bindings =>
    '(var_name, var_sexp) ← lift_res (parse_binding binding);
    value ← eval var_sexp env context;
    result ← parse_eval_bindings bindings env context;
    mret ((var_name, value) :: result)
  end.

(** The names that a local binding may not take. *)
Definition name_taken (name : string) env (inner_context : LocalContext) : bool :=
  is_reserved name || bool_decide (is_Some (cx_lookup_function (contract_context_ env) name)) ||
  bool_decide (is_Some (lookup_variable inner_context name)).

Definition bind_variable (c : LocalContext) (name : string) (value : Value) : LocalContext :=
  mkLocal (parent c) (<[name := value]> (variables c)) (callable_contracts c) (lc_depth c).

(** One binding of [special_let]: its memory and the context with it. *)
Definition let_binding (binding : SymbolicExpression) env context (inner_context : LocalContext) : Run (Z * LocalContext) :=
  '(binding_name, var_sexp) ← lift_res (parse_binding binding);
  if name_taken binding_name env inner_context then check_err (NameAlreadyUsed binding_name)
  else
    binding_value ← eval var_sexp env context;
    bind_mem_use ← lift_res (get_memory_use binding_value);
    _ ← context_add_memory bind_mem_use;
    mret (bind_mem_use, bind_variable inner_context binding_name binding_value).

(** The bindings of [special_let], with the memory in use at the end or at the
    first error. *)
Fixpoint let_bindings (bindings : list SymbolicExpression) env context (inner_context : LocalContext) (memory_use : Z)
  : Run (Z * (VmError + LocalContext)) :=
  match bindings with
  | [] => mret (memory_use, inr inner_context)
  | binding :: bindings =>
    r ← attempt (let_binding binding env context inner_context);
    match r with
    | inl e => mret (memory_use, inl e)
    | inr (bind_mem_use, inner_context) =>
      let_bindings bindings env context inner_context (wrap 64 (memory_use + bind_mem_use))
    end
  end.

Fixpoint eval_bodies (last_result : option Value) (bodies : list SymbolicExpression) env context : Run Value :=
  match bodies with
  | [] => lift_res (expect_opt last_result)
  | body :: bodies =>
    body_result ← eval body env context;
    eval_bodies (Some body_result) bodies env context
  end.

Definition special_let args env context : Run Value :=
  _ ← lift_res (check_arguments_at_least 2 args);
  match args with
  | [] => lift_res Panic
  | arg :: bodies =>
    bindings ← some_or (match_list arg) BadLetSyntax;
    _ ← env_cost cost_functions.LET (Z.of_nat (length bindings));
    inner_context ← lift_res (extend context);
    '(memory_use, r) ← let_bindings bindings env context inner_context 0;
    finally_drop memory_use (
      inner_context ← of_result r;
      eval_bodies None bodies env inner_context)
  end.

Definition special_as_contract args env context : Run Value :=
  _ ← lift_res (check_argument_count 1 args);
  _ ← context_add_memory AS_CONTRACT_MEMORY;
  match args with
  | [body] =>
    let contract_principal := VPrincipal (Contract (cx_contract_identifier (contract_context_ env))) in
    finally_drop AS_CONTRACT_MEMORY
      (eval body (mkEnvironment (contract_context_ env) (Some contract_principal) (Some contract_principal)) context)
  | _ => lift_res Panic
  end.

(** ** Tuples: src/vm/functions/tuples.rs *)

Definition tuple_cons args env context : Run Value :=
  _ ← lift_res (check_arguments_at_least 1 args);
  bindings ← parse_eval_bindings args env context;
  _ ← env_cost cost_functions.TUPLE_CONS (Z.of_nat (length bindings));
  lift_res (tuple_from_data bindings).

Definition special_tuple_get args env context : Run Value :=
  _ ← lift_res (check_argument_count 2 args);
  match args with
  | [name; arg] =>
    arg_name ← some_or (match_atom name) ExpectedName;
    value ← eval arg env context;
    match value with
    | VOptional (Some (VTuple ts data_map)) =>
      _ ← env_cost cost_functions.TUPLE_GET (Z.of_nat (length data_map));
      v ← lift_res (tuple_get ts data_map arg_name);
      lift_res (expect (Value_some v))
    | VOptional (Some data) => t ← expect_value_type data; check_err (ExpectedTuple t)
    | VOptional None => mret Value_none
    | VTuple ts data_map =>
      _ ← env_cost cost_functions.TUPLE_GET (Z.of_nat (length data_map));
      lift_res (tuple_get ts data_map arg_name)
    | _ => t ← expect_value_type value; check_err (ExpectedTuple t)
    end
  | _ => lift_res Panic
  end.

(** [get_definition_type_of_tuple_argument], followed by the evaluation that each
    of its results calls for; an empty list makes it panic. *)
Definition eval_tuple_argument (arg : SymbolicExpression) env context : Run Value :=
  match arg with
  | SList _ [] => lift_res Panic
  | SList _ (SList i l :: outer_expr) => tuple_cons (SList i l :: outer_expr) env context
  | _ => eval arg env context
  end.

(** ** Options: src/vm/functions/options.rs *)

Definition eval_with_new_binding (body : SymbolicExpression) (bind_name : string) (bind_value : Value) env context : Run Value :=
  inner_context ← lift_res (extend context);
  if name_taken bind_name env inner_context then check_err (NameAlreadyUsed bind_name)
  else
    memory_use ← lift_res (get_memory_use bind_value);
    _ ← context_add_memory memory_use;
    finally_drop memory_use (eval body env (bind_variable inner_context bind_name bind_value)).

Definition special_match_opt (input : option Value) args env context : Run Value :=
  match args with
  | [name; some_branch; none_branch] =>
    bind_name ← some_or (match_atom name) (BadMatchOptionSyntax ExpectedName);
    match input with
    | Some data => eval_with_new_binding some_branch bind_name data env context
    | None => eval none_branch env context
    end
  | _ => check_err (BadMatchOptionSyntax (IncorrectArgumentCount 4 (Z.of_nat (length args) + 1)))
  end.

Definition special_match_resp (committed : bool) (data : Value) args env context : Run Value :=
  match args with
  | [ok_name; ok_branch; err_name; err_branch] =>
    ok_bind_name ← some_or (match_atom ok_name) (BadMatchResponseSyntax ExpectedName);
    err_bind_name ← some_or (match_atom err_name) (BadMatchResponseSyntax ExpectedName);
    if committed then eval_with_new_binding ok_branch ok_bind_name data env context
    else eval_with_new_binding err_branch err_bind_name data env context
  | _ => check_err (BadMatchResponseSyntax (IncorrectArgumentCount 5 (Z.of_nat (length args) + 1)))
  end.

Definition special_match args env context : Run Value :=
  _ ← lift_res (check_arguments_at_least 1 args);
  match args with
  | [] => lift_res Panic
  | arg :: branches =>
    input ← eval arg env context;
    _ ← env_cost cost_functions.MATCH 0;
    match input with
    | VResponse committed data => special_match_resp committed data branches env context
    | VOptional data => special_match_opt data branches env context
    | _ => t ← expect_value_type input; check_err (BadMatchInput t)
    end
  end.

(** ** Sequences: src/vm/functions/iterables.rs *)

Fixpoint sum_sizes (arg_size : Z) (values : list Value) : Run Z :=
  match values with
  | [] => mret arg_size
  | a :: values =>
    s ← size_of_value a;
    arg_size ← add_costs arg_size s;
    sum_sizes arg_size values
  end.

Definition list_cons args env context : Run Value :=
  values ← eval_list args env context;
  arg_size ← sum_sizes 0 values;
  _ ← env_cost cost_functions.LIST_CONS arg_size;
  lift_res (list_from values).

(** The items for which [function] returns true; [wrap_item] makes a value of an
    item. *)
Fixpoint filter_loop {A} (wrap_item : A -> Res VmError Value) (function : CallableType) (items : list A) env context
  : Run (list A) :=
  match items with
  | [] => mret []
  | x :: items =>
    v ← lift_res (wrap_item x);
    filter_eval ← apply function [atom_value v] env context;
    match filter_eval with
    | VBool include =>
      filtered_vec ← filter_loop wrap_item function items env context;
      mret (if include then x :: filtered_vec else filtered_vec)
    | _ => check_err (TypeValueError BoolType filter_eval)
    end
  end.

Definition special_filter args env context : Run Value :=
  _ ← lift_res (check_argument_count 2 args);
  _ ← env_cost cost_functions.FILTER 0;
  match args with
  | [name; arg] =>
    function_name ← some_or (match_atom name) ExpectedName;
    function ← lookup_function function_name env;
    iterable ← eval arg env context;
    match iterable with
    | VList data max_len entry_type =>
      filtered_vec ← filter_loop (fun x => Ok x) function data env context;
      lift_res (list_with_type filtered_vec max_len entry_type)
    | VBuffer data =>
      filtered_vec ← filter_loop (fun x => buff_from [x]) function data env context;
      lift_res (buff_from filtered_vec)
    | _ => t ← expect_value_type iterable; check_err (ExpectedListOrBuffer t)
    end
  | _ => lift_res Panic
  end.

(** The items of a list or the bytes of a buffer, as expressions. *)
Definition iterable_args (iterable : Value) : Run (list SymbolicExpression) :=
  match iterable with
  | VList data _ _ => mret (atom_value <$> data)
  | VBuffer data => mret ((fun x => atom_value (VBuffer [x])) <$> data)
  | _ => t ← expect_value_type iterable; check_err (ExpectedListOrBuffer t)
  end.

Fixpoint fold_loop (function : CallableType) (acc : Value) (mapped_args : list SymbolicExpression) env context : Run Value :=
  match mapped_args with
  | [] => mret acc
  | x :: mapped_args =>
    acc ← apply function [x; atom_value acc] env context;
    fold_loop function acc mapped_args env context
  end.

Definition special_fold args env context : Run Value :=
  _ ← lift_res (check_argument_count 3 args);
  _ ← env_cost cost_functions.FILTER 0;
  match args with
  | [name; arg; init] =>
    function_name ← some_or (match_atom name) ExpectedName;
    function ← lookup_function function_name env;
    iterable ← eval arg env context;
    initial ← eval init env context;
    mapped_args ← iterable_args iterable;
    fold_loop function initial mapped_args env context
  | _ => lift_res Panic
  end.

Fixpoint map_loop (function : CallableType) (mapped_args : list SymbolicExpression) env context : Run (list Value) :=
  match mapped_args with
  | [] => mret []
  | x :: mapped_args =>
    v ← apply function [x] env context;
    vs ← map_loop function mapped_args env context;
    mret (v :: vs)
  end.

Definition special_map args env context : Run Value :=
  _ ← lift_res (check_argument_count 2 args);
  _ ← env_cost cost_functions.MAP 0;
  match args with
  | [name; arg] =>
    function_name ← some_or (match_atom name) ExpectedName;
    iterable ← eval arg env context;
    function ← lookup_function function_name env;
    mapped_args ← iterable_args iterable;
    mapped_vec ← map_loop function mapped_args env context;
    lift_res (list_from mapped_vec)
  | _ => lift_res Panic
  end.

(** [special_append] on a list and an element, after their evaluation. *)
Definition append_element (data : list Value) (max_len : Z) (entry_type : TypeSignature) (element : Value)
    (element_type : TypeSignature) : Res VmError Value :=
  if is_no_type entry_type then
    if max_len =? 0 then list_from [element] else Panic
  else
    match least_supertype entry_type element_type with
    | Ok next_entry_type =>
      next_type_signature ← map_err Unchecked (new_list next_entry_type (wrap 32 (max_len + 1)));
      Ok (VList (data ++ [element]) next_type_signature.1 next_type_signature.2)
    | Err _ => Err (Unchecked (TypeValueError entry_type element))
    | Panic => Panic
    end.

Definition special_append args env context : Run Value :=
  _ ← lift_res (check_argument_count 2 args);
  match args with
  | [list_arg; element_arg] =>
    iterable ← eval list_arg env context;
    match iterable with
    | VList data max_len entry_type =>
      element ← eval element_arg env context;
      element_type ← expect_value_type element;
      entry_size ← size_of_type entry_type;
      element_size ← size_of_type element_type;
      _ ← env_cost cost_functions.APPEND (Z.max entry_size element_size);
      lift_res (append_element data max_len entry_type element element_type)
    | _ => check_err ExpectedListApplication
    end
  | _ => lift_res Panic
  end.

Definition special_concat args env context : Run Value :=
  _ ← lift_res (check_argument_count 2 args);
  match args with
  | [lhs_arg; rhs_arg] =>
    lhs ← eval lhs_arg env context;
    rhs ← eval rhs_arg env context;
    lhs_size ← size_of_value lhs;
    rhs_size ← size_of_value rhs;
    s ← add_costs lhs_size rhs_size;
    _ ← env_cost cost_functions.CONCAT s;
    match lhs, rhs with
    | VList lhs_data _ _, VList rhs_data _ _ => lift_res (list_from (lhs_data ++ rhs_data))
    | VBuffer lhs_data, VBuffer rhs_data => lift_res (buff_from (lhs_data ++ rhs_data))
    | _, _ => throw (Runtime BadTypeConstruction)
    end
  | _ => lift_res Panic
  end.

Definition special_as_max_len args env context : Run Value :=
  _ ← lift_res (check_argument_count 2 args);
  match args with
  | [arg; len_arg] =>
    iterable ← eval arg env context;
    _ ← env_cost cost_functions.AS_MAX_LEN 0;
    match match_literal_value len_arg with
    | Some (VUInt expected_len) =>
      iterable_len ← match iterable with
                     | VList data _ _ => mret (Z.of_nat (length data))
                     | VBuffer data => mret (Z.of_nat (length data))
                     | _ => t ← expect_value_type iterable; check_err (ExpectedListOrBuffer t)
                     end;
      if expected_len <? iterable_len then mret Value_none else lift_res (Value_some iterable)
    | _ =>
      actual_len ← eval len_arg env context;
      t ← expect_value_type actual_len;
      check_err (TypeError UIntType t)
    end
  | _ => lift_res Panic
  end.

(** ** The database: src/vm/functions/database.rs *)

Definition own_contract env : QualifiedContractIdentifier := cx_contract_identifier (contract_context_ env).
Definition contract_to_string (c : QualifiedContractIdentifier) : Run string := lift_res (lift_panic (contract_string c)).

(** The guard of the functions that write. *)
Definition refuse_read_only : Run unit :=
  ro ← gets is_read_only;
  if (ro : bool) then check_err WriteAttemptedInReadOnly else mret tt.

Definition special_fetch_variable args env context : Run Value :=
  _ ← lift_res (check_argument_count 1 args);
  match args with
  | [name] =>
    var_name ← some_or (match_atom name) ExpectedName;
    data_types ← on_database (load_variable (own_contract env) var_name);
    s ← size_of_type (value_type data_types);
    _ ← env_cost cost_functions.FETCH_VAR s;
    on_database (lookup_data_variable (own_contract env) var_name)
  | _ => lift_res Panic
  end.

Definition special_set_variable args env context : Run Value :=
  _ ← refuse_read_only;
  _ ← lift_res (check_argument_count 2 args);
  match args with
  | [name; arg] =>
    value ← eval arg env context;
    var_name ← some_or (match_atom name) ExpectedName;
    data_types ← on_database (load_variable (own_contract env) var_name);
    s ← size_of_type (value_type data_types);
    _ ← env_cost cost_functions.SET_VAR s;
    m ← lift_res (get_memory_use value);
    _ ← context_add_memory m;
    on_database (set_variable (own_contract env) var_name value)
  | _ => lift_res Panic
  end.

(** The cost input [value_type.size() + key_type.size()], added in 32 bits. *)
Definition entry_cost_input (data_types : DataMapMetadata) : Run Z :=
  v ← size_of_type (map_value_type data_types);
  k ← size_of_type (map_key_type data_types);
  mret (wrap 32 (v + k)).

Definition special_fetch_entry args env context : Run Value :=
  _ ← lift_res (check_argument_count 2 args);
  match args with
  | [name; key_arg] =>
    map_name ← some_or (match_atom name) ExpectedName;
    key ← eval_tuple_argument key_arg env context;
    data_types ← on_database (load_map (own_contract env) map_name);
    s ← entry_cost_input data_types;
    _ ← env_cost cost_functions.FETCH_ENTRY s;
    on_database (fetch_entry (own_contract env) map_name key)
  | _ => lift_res Panic
  end.

Definition special_at_block args env context : Run Value :=
  _ ← lift_res (check_argument_count 2 args);
  _ ← env_cost cost_functions.AT_BLOCK 0;
  match args with
  | [hash_arg; closure] =>
    hash ← eval hash_arg env context;
    bhh ← match hash with
          | VBuffer data => if Nat.eqb (length data) 32 then mret data else throw (Runtime (BadBlockHash data))
          | x => check_err (TypeValueError (BufferType 32) x)
          end;
    _ ← context_add_memory AT_BLOCK_MEMORY;
    finally_drop AT_BLOCK_MEMORY (evaluate_at_block bhh (eval closure env context))
  | _ => lift_res Panic
  end.

(** [special_set_entry] and [special_insert_entry], which differ in the database
    method. *)
Definition write_entry (write : QualifiedContractIdentifier -> string -> Value -> Value -> Db S Value) args env context : Run Value :=
  _ ← refuse_read_only;
  _ ← lift_res (check_argument_count 3 args);
  match args with
  | [name; key_arg; value_arg] =>
    key ← eval_tuple_argument key_arg env context;
    value ← eval_tuple_argument value_arg env context;
    map_name ← some_or (match_atom name) ExpectedName;
    data_types ← on_database (load_map (own_contract env) map_name);
    s ← entry_cost_input data_types;
    _ ← env_cost cost_functions.SET_ENTRY s;
    k ← lift_res (get_memory_use key);
    _ ← context_add_memory k;
    v ← lift_res (get_memory_use value);
    _ ← context_add_memory v;
    on_database (write (own_contract env) map_name key value)
  | _ => lift_res Panic
  end.
Definition special_set_entry : list SymbolicExpression -> Environment -> LocalContext -> Run Value := write_entry set_entry.
Definition special_insert_entry : list SymbolicExpression -> Environment -> LocalContext -> Run Value := write_entry insert_entry.

Definition special_delete_entry args env context : Run Value :=
  _ ← refuse_read_only;
  _ ← lift_res (check_argument_count 2 args);
  match args with
  | [name; key_arg] =>
    key ← eval_tuple_argument key_arg env context;
    map_name ← some_or (match_atom name) ExpectedName;
    data_types ← on_database (load_map (own_contract env) map_name);
    s ← size_of_type (map_key_type data_types);
    _ ← env_cost cost_functions.SET_ENTRY s;
    k ← lift_res (get_memory_use key);
    _ ← context_add_memory k;
    on_database (delete_entry (own_contract env) map_name key)
  | _ => lift_res Panic
  end.

Inductive BlockInfoProperty := Time_ | VrfSeed | HeaderHash | IdentityHeaderHash | BurnchainHeaderHash | MinerAddress.
Definition block_info_names : list (string * BlockInfoProperty) :=
  [("time", Time_); ("vrf-seed", VrfSeed); ("header-hash", HeaderHash); ("id-header-hash", IdentityHeaderHash);
   ("burnchain-header-hash", BurnchainHeaderHash); ("miner-address", MinerAddress)].

Definition block_info (prop : BlockInfoProperty) (height : Z) : Run Value :=
  match prop with
  | Time_ => t ← on_database (get_block_time height); mret (VUInt t)
  | VrfSeed => h ← on_database (get_block_vrf_seed height); mret (VBuffer h)
  | HeaderHash => h ← on_database (get_block_header_hash height); mret (VBuffer h)
  | BurnchainHeaderHash => h ← on_database (get_burnchain_block_header_hash height); mret (VBuffer h)
  | IdentityHeaderHash => h ← on_database (get_index_block_header_hash height); mret (VBuffer h)
  | MinerAddress => p ← on_database (get_miner_address height); mret (VPrincipal (Standard p))
  end.

Definition special_get_block_info args env context : Run Value :=
  _ ← env_cost cost_functions.BLOCK_INFO 0;
  _ ← lift_res (check_argument_count 2 args);
  match args with
  | [name; height_arg] =>
    property_name ← some_or (match_atom name) GetBlockInfoExpectPropertyName;
    block_info_prop ← some_or (lookup_by_name block_info_names property_name) GetBlockInfoExpectPropertyName;
    height_eval ← eval height_arg env context;
    height_value ← match height_eval with
                   | VUInt result => mret result
                   | x => check_err (TypeValueError UIntType x)
                   end;
    if decide (in_u 32 height_value) then
      current_block_height ← on_database db_get_current_block_height;
      if current_block_height <=? height_value then mret Value_none
      else
        result ← block_info block_info_prop height_value;
        lift_res (Value_some result)
    else mret Value_none
  | _ => lift_res Panic
  end.

(** ** Assets: src/vm/functions/assets.rs *)

Definition okay_true : Value := VResponse true (VBool true).
Definition err_uint (ecode : Z) : Value := VResponse false (VUInt ecode).

(** The error codes. *)
Definition MINT_ASSET_ALREADY_EXIST : Z := 1.
Definition MINT_TOKEN_NON_POSITIVE_AMOUNT : Z := 1.
Definition TRANSFER_ASSET_NOT_OWNED_BY : Z := 1.
Definition TRANSFER_ASSET_SENDER_IS_RECIPIENT : Z := 2.
Definition TRANSFER_ASSET_DOES_NOT_EXIST : Z := 3.
Definition NOT_ENOUGH_BALANCE : Z := 1.
Definition SENDER_IS_RECIPIENT : Z := 2.
Definition NON_POSITIVE_AMOUNT : Z := 3.
Definition SENDER_IS_NOT_TX_SENDER : Z := 4.

(** [env.add_memory(T.size() as u64)?] *)
Definition add_type_memory (t : TypeSignature) : Run unit := s ← size_of_type t; context_add_memory s.

Definition is_sender env (from_val : Value) : bool :=
  match env_sender env with Some sender => value_eqb from_val sender | None => false end.

(** [special_stx_transfer] after the evaluation of its arguments. *)
Definition stx_transfer env (amount_val from_val to_val : Value) : Run Value :=
  match from_val, to_val, amount_val with
  | VPrincipal from, VPrincipal to, VUInt amount =>
    if amount <=? 0 then mret (err_uint NON_POSITIVE_AMOUNT)
    else if decide (from = to) then mret (err_uint SENDER_IS_RECIPIENT)
    else if negb (is_sender env from_val) then mret (err_uint SENDER_IS_NOT_TX_SENDER)
    else
      from_bal ← on_database (get_account_stx_balance from);
      to_bal ← on_database (get_account_stx_balance to);
      if from_bal <? amount then mret (err_uint NOT_ENOUGH_BALANCE)
      else
        let final_from_bal := from_bal - amount in
        final_to_bal ← lift_res (ok_or (checked_add 128 to_bal amount) (Runtime ArithmeticOverflow));
        _ ← add_type_memory PrincipalType;
        _ ← add_type_memory PrincipalType;
        _ ← add_type_memory UIntType;
        _ ← add_type_memory UIntType;
        _ ← on_database (set_account_stx_balance from final_from_bal);
        _ ← on_database (set_account_stx_balance to final_to_bal);
        _ ← log_stx_transfer from amount;
        _ ← register_stx_transfer_event from to amount;
        mret okay_true
  | _, _, _ => check_err BadTransferSTXArguments
  end.

Definition special_stx_transfer args env context : Run Value :=
  _ ← lift_res (check_argument_count 3 args);
  _ ← env_cost cost_functions.STX_TRANSFER 0;
  match args with
  | [amount_arg; from_arg; to_arg] =>
    amount_val ← eval amount_arg env context;
    from_val ← eval from_arg env context;
    to_val ← eval to_arg env context;
    stx_transfer env amount_val from_val to_val
  | _ => lift_res Panic
  end.

Definition stx_burn env (amount_val from_val : Value) : Run Value :=
  match from_val, amount_val with
  | VPrincipal from, VUInt amount =>
    if amount <=? 0 then mret (err_uint NON_POSITIVE_AMOUNT)
    else if negb (is_sender env from_val) then mret (err_uint SENDER_IS_NOT_TX_SENDER)
    else
      from_bal ← on_database (get_account_stx_balance from);
      if from_bal <? amount then mret (err_uint NOT_ENOUGH_BALANCE)
      else
        let final_from_bal := from_bal - amount in
        _ ← add_type_memory PrincipalType;
        _ ← add_type_memory UIntType;
        _ ← on_database (set_account_stx_balance from final_from_bal);
        _ ← log_stx_burn from amount;
        _ ← register_stx_burn_event from amount;
        mret okay_true
  | _, _ => check_err BadTransferSTXArguments
  end.

Definition special_stx_burn args env context : Run Value :=
  _ ← lift_res (check_argument_count 2 args);
  _ ← env_cost cost_functions.STX_TRANSFER 0;
  match args with
  | [amount_arg; from_arg] =>
    amount_val ← eval amount_arg env context;
    from_val ← eval from_arg env context;
    stx_burn env amount_val from_val
  | _ => lift_res Panic
  end.

Definition mint_token env (token_name : string) (amount_val to : Value) : Run Value :=
  match amount_val, to with
  | VUInt amount, VPrincipal to_principal =>
    if amount <=? 0 then mret (err_uint MINT_TOKEN_NON_POSITIVE_AMOUNT)
    else
      _ ← on_database (checked_increase_token_supply (own_contract env) token_name amount);
      to_bal ← on_database (get_ft_balance (own_contract env) token_name to_principal);
      final_to_bal ← lift_res (ok_or (checked_add 128 to_bal amount) (Runtime ArithmeticOverflow));
      _ ← add_type_memory PrincipalType;
      _ ← add_type_memory UIntType;
      _ ← on_database (set_ft_balance (own_contract env) token_name to_principal final_to_bal);
      _ ← register_ft_mint_event to_principal amount (mkAssetId (own_contract env) token_name);
      mret okay_true
  | _, _ => check_err BadMintFTArguments
  end.

Definition special_mint_token args env context : Run Value :=
  _ ← lift_res (check_argument_count 3 args);
  _ ← env_cost cost_functions.FT_MINT 0;
  match args with
  | [name; amount_arg; to_arg] =>
    token_name ← some_or (match_atom name) BadTokenName;
    amount ← eval amount_arg env context;
    to ← eval to_arg env context;
    mint_token env token_name amount to
  | _ => lift_res Panic
  end.

(** [get_nft_owner], with a missing token as [None]. *)
Definition nft_owner env (asset_name : string) (asset : Value) : Run (option PrincipalData) :=
  r ← attempt (on_database (get_nft_owner (own_contract env) asset_name asset));
  match r with
  | inr owner => mret (Some owner)
  | inl (Runtime NoSuchToken) => mret None
  | inl e => throw e
  end.

(** The type of the asset, charged for, and the check of the asset. *)
Definition asset_type env (spec : SimpleCostSpecification) (asset_name : string) (asset : Value) : Run TypeSignature :=
  expected_asset_type ← on_database (get_nft_key_type (own_contract env) asset_name);
  s ← size_of_type expected_asset_type;
  _ ← env_cost spec s;
  b ← lift_res (admits expected_asset_type asset);
  if (b : bool) then mret expected_asset_type else check_err (TypeValueError expected_asset_type asset).

Definition special_mint_asset args env context : Run Value :=
  _ ← lift_res (check_argument_count 3 args);
  match args with
  | [name; asset_arg; to_arg] =>
    asset_name ← some_or (match_atom name) BadTokenName;
    asset ← eval asset_arg env context;
    to ← eval to_arg env context;
    expected_asset_type ← asset_type env cost_functions.NFT_MINT asset_name asset;
    match to with
    | VPrincipal to_principal =>
      owner ← nft_owner env asset_name asset;
      match owner with
      | Some _ => mret (err_uint MINT_ASSET_ALREADY_EXIST)
      | None =>
        _ ← add_type_memory PrincipalType;
        _ ← add_type_memory expected_asset_type;
        _ ← on_database (set_nft_owner (own_contract env) asset_name asset to_principal);
        _ ← register_nft_mint_event to_principal asset (mkAssetId (own_contract env) asset_name);
        mret okay_true
      end
    | _ => check_err (TypeValueError PrincipalType to)
    end
  | _ => lift_res Panic
  end.

Definition transfer_asset env (asset_name : string) (asset : Value) (expected_asset_type : TypeSignature) (from to : Value)
  : Run Value :=
  match from, to with
  | VPrincipal from_principal, VPrincipal to_principal =>
    if decide (from_principal = to_principal) then mret (err_uint TRANSFER_ASSET_SENDER_IS_RECIPIENT)
    else
      owner ← nft_owner env asset_name asset;
      match owner with
      | None => mret (err_uint TRANSFER_ASSET_DOES_NOT_EXIST)
      | Some current_owner =>
        if decide (current_owner = from_principal) then
          _ ← add_type_memory PrincipalType;
          _ ← add_type_memory expected_asset_type;
          _ ← on_database (set_nft_owner (own_contract env) asset_name asset to_principal);
          _ ← log_asset_transfer from_principal (own_contract env) asset_name asset;
          _ ← register_nft_transfer_event from_principal to_principal asset (mkAssetId (own_contract env) asset_name);
          mret okay_true
        else mret (err_uint TRANSFER_ASSET_NOT_OWNED_BY)
      end
  | _, _ => check_err BadTransferNFTArguments
  end.

Definition special_transfer_asset args env context : Run Value :=
  _ ← lift_res (check_argument_count 4 args);
  match args with
  | [name; asset_arg; from_arg; to_arg] =>
    asset_name ← some_or (match_atom name) BadTokenName;
    asset ← eval asset_arg env context;
    from ← eval from_arg env context;
    to ← eval to_arg env context;
    expected_asset_type ← asset_type env cost_functions.NFT_TRANSFER asset_name asset;
    transfer_asset env asset_name asset expected_asset_type from to
  | _ => lift_res Panic
  end.

Definition transfer_token env (token_name : string) (amount_val from to : Value) : Run Value :=
  match amount_val, from, to with
  | VUInt amount, VPrincipal from_principal, VPrincipal to_principal =>
    if amount <=? 0 then mret (err_uint NON_POSITIVE_AMOUNT)
    else if decide (from_principal = to_principal) then mret (err_uint SENDER_IS_RECIPIENT)
    else
      from_bal ← on_database (get_ft_balance (own_contract env) token_name from_principal);
      if from_bal <? amount then mret (err_uint NOT_ENOUGH_BALANCE)
      else
        let final_from_bal := from_bal - amount in
        to_bal ← on_database (get_ft_balance (own_contract env) token_name to_principal);
        final_to_bal ← lift_res (ok_or (checked_add 128 to_bal amount) (Runtime ArithmeticOverflow));
        _ ← add_type_memory PrincipalType;
        _ ← add_type_memory PrincipalType;
        _ ← add_type_memory UIntType;
        _ ← add_type_memory UIntType;
        _ ← on_database (set_ft_balance (own_contract env) token_name from_principal final_from_bal);
        _ ← on_database (set_ft_balance (own_contract env) token_name to_principal final_to_bal);
        _ ← log_token_transfer from_principal (own_contract env) token_name amount;
        _ ← register_ft_transfer_event from_principal to_principal amount (mkAssetId (own_contract env) token_name);
        mret okay_true
  | _, _, _ => check_err BadTransferFTArguments
  end.

Definition special_transfer_token args env context : Run Value :=
  _ ← lift_res (check_argument_count 4 args);
  _ ← env_cost cost_functions.FT_TRANSFER 0;
  match args with
  | [name; amount_arg; from_arg; to_arg] =>
    token_name ← some_or (match_atom name) BadTokenName;
    amount ← eval amount_arg env context;
    from ← eval from_arg env context;
    to ← eval to_arg env context;
    transfer_token env token_name amount from to
  | _ => lift_res Panic
  end.

Definition special_get_balance args env context : Run Value :=
  _ ← lift_res (check_argument_count 2 args);
  _ ← env_cost cost_functions.FT_BALANCE 0;
  match args with
  | [name; owner_arg] =>
    token_name ← some_or (match_atom name) BadTokenName;
    owner ← eval owner_arg env context;
    match owner with
    | VPrincipal principal =>
      balance ← on_database (get_ft_balance (own_contract env) token_name principal);
      mret (VUInt balance)
    | _ => check_err (TypeValueError PrincipalType owner)
    end
  | _ => lift_res Panic
  end.

Definition special_get_owner args env context : Run Value :=
  _ ← lift_res (check_argument_count 2 args);
  match args with
  | [name; asset_arg] =>
    asset_name ← some_or (match_atom name) BadTokenName;
    asset ← eval asset_arg env context;
    _ ← asset_type env cost_functions.NFT_OWNER asset_name asset;
    owner ← nft_owner env asset_name asset;
    match owner with
    | Some owner => lift_res (expect (Value_some (VPrincipal owner)))
    | None => mret Value_none
    end
  | _ => lift_res Panic
  end.

(** ** Functions of contracts: src/vm/callables.rs and [Environment] *)

(** The value that a short return carries. *)
Definition short_return_value (v : ShortReturnType) : Value :=
  match v with ExpectedValue v => v | AssertionFailed v => v end.

(** One argument of a function, bound in its local context. *)
Definition bind_argument (c : LocalContext) (name : string) (type_sig : TypeSignature) (value : Value) : Res VmError LocalContext :=
  match type_sig, value with
  | TraitReferenceType trait_identifier, VPrincipal (Contract callee_contract_id) =>
    Ok (mkLocal (parent c) (variables c) (<[name := (callee_contract_id, trait_identifier)]> (callable_contracts c)) (lc_depth c))
  | _, _ =>
    b ← admits type_sig value;
    if (b : bool) then
      if decide (is_Some (variables c !! name)) then Err (Unchecked (NameAlreadyUsed name))
      else Ok (bind_variable c name value)
    else Err (Unchecked (TypeValueError type_sig value))
  end.
Fixpoint bind_arguments (c : LocalContext) (names : list string) (types : list TypeSignature) (values : list Value)
  : Res VmError LocalContext :=
  match names, types, values with
  | name :: names, type_sig :: types, value :: values =>
    c ← bind_argument c name type_sig value;
    bind_arguments c names types values
  | _, _, _ => Ok c
  end.

Definition type_check_cost (t : TypeSignature) : Run unit := charge (fun c =>
  match TypeCheckCost_compute_cost t with
  | Ok cost => add_cost c cost
  | Err e => (c, Err e)
  | Panic => (c, Panic)
  end).
Fixpoint type_check_costs (ts : list TypeSignature) : Run unit :=
  match ts with
  | [] => mret tt
  | t :: ts => _ ← type_check_cost t; type_check_costs ts
  end.

(** A short return ends the function with a value. *)
Definition catch_short_return (m : Run Value) : Run Value :=
  r ← attempt m;
  match r with
  | inl (ShortReturn v) => mret (short_return_value v)
  | r => of_result r
  end.

Definition execute_apply (self : DefinedFunction) (args : list Value) env : Run Value :=
  _ ← env_cost cost_functions.USER_FUNCTION_APPLICATION (Z.of_nat (length (fn_arguments self)));
  _ ← type_check_costs (fn_arg_types self);
  if Nat.eqb (length args) (length (fn_arguments self)) then
    context ← lift_res (bind_arguments LocalContext_new (fn_arguments self) (fn_arg_types self) args);
    catch_short_return (eval (fn_body self) env context)
  else check_err (IncorrectArgumentCount (Z.of_nat (length (fn_arguments self))) (Z.of_nat (length args))).

(** [Environment::execute_function_as_transaction]. *)
Definition call_as_transaction (function : DefinedFunction) (args : list Value) (next_contract_context : option ContractContext)
    env : Run Value :=
  execute_function_as_transaction (fn_is_read_only function)
    (execute_apply function args
       (mkEnvironment (default (contract_context_ env) next_contract_context) (env_sender env) (env_caller env))).

(** [DefinedFunction::apply]. *)
Definition function_apply (self : DefinedFunction) (args : list Value) env : Run Value :=
  match fn_define_type self with
  | DefinePrivate => execute_apply self args env
  | DefinePublic | DefineReadOnly => call_as_transaction self args None env
  end.

(** A call that is on the call stack while it runs. *)
Definition with_call {A} (identifier : string) (track : bool) (m : Run A) : Run A :=
  _ ← insert_call identifier track;
  res ← attempt m;
  _ ← remove_call identifier track;
  of_result res.

(** The function of a contract that a call names, if it may be called. *)
Definition callable_function (contract_identifier : QualifiedContractIdentifier) (contract : ContractData) (tx_name : string)
    (read_only : bool) : Run DefinedFunction :=
  func ← some_or (cx_lookup_function (contract_context contract) tx_name) (UndefinedFunction tx_name);
  if negb (fn_is_public func) then
    c ← contract_to_string contract_identifier; check_err (NoSuchPublicFunction c tx_name)
  else if read_only && negb (fn_is_read_only func) then
    c ← contract_to_string contract_identifier; check_err (PublicFunctionNotReadOnly c tx_name)
  else mret func.

Definition execute_contract (contract_identifier : QualifiedContractIdentifier) (tx_name : string) args (read_only : bool)
    env : Run Value :=
  contract_size ← on_database (get_contract_size contract_identifier);
  _ ← env_cost cost_functions.LOAD_CONTRACT contract_size;
  _ ← context_add_memory contract_size;
  finally_drop contract_size (
    contract ← on_database (get_contract contract_identifier);
    func ← callable_function contract_identifier contract tx_name read_only;
    values ← lift_res (mapMR (fun arg => ok_or (match_atom_value arg)
      (Interpreter (InterpreterErrorMsg ("Passed non-value expression to exec_tx on " +:+ tx_name +:+ "!")))) args);
    stack ← get_stack;
    if CallStack_contains stack (fn_identifier func) then check_err (CircularReference [fn_identifier func])
    else with_call (fn_identifier func) true (call_as_transaction func values (Some (contract_context contract)) env)).

(** ** Contract calls *)

(** [get_contract(..).map_err(|_e| NoSuchContract(..))?] *)
Definition get_contract_or_none (contract_identifier : QualifiedContractIdentifier) : Run ContractData :=
  r ← attempt (on_database (get_contract contract_identifier));
  match r with
  | inr contract => mret contract
  | inl _ => c ← contract_to_string contract_identifier; check_err (NoSuchContract c)
  end.

(** The return type that a trait demands of a function, where the contract does
    not declare that it implements the trait. *)
Definition trait_return_type (contract_identifier : QualifiedContractIdentifier) (trait_identifier : TraitIdentifier)
    (function_name : string) (contract_context_to_check : ContractContext) : Run TypeSignature :=
  let name := trait_name trait_identifier in
  contract_defining_trait ← get_contract_or_none (trait_contract trait_identifier);
  let contract_context_defining_trait := contract_context contract_defining_trait in
  function_to_check ← some_or (cx_lookup_function contract_context_to_check function_name)
    (BadTraitImplementation name function_name);
  ro ← gets is_read_only;
  if (ro : bool) then check_err TraitBasedContractCallInReadOnly
  else if negb (fn_is_public function_to_check) then
    c ← contract_to_string contract_identifier; check_err (NoSuchPublicFunction c function_name)
  else
    _ ← lift_res (check_trait_expectations function_to_check contract_context_defining_trait trait_identifier);
    constraining_trait ← some_or (lookup_trait_definition contract_context_defining_trait name) (TraitReferenceUnknown name);
    expected_sig ← some_or (bt_get function_name constraining_trait) (TraitMethodUnknown name function_name);
    mret (fs_returns expected_sig).

(** The contract that a call goes to, with the return type that is demanded. *)
Definition call_target (target : SymbolicExpression) (function_name : string) env context
  : Run (QualifiedContractIdentifier * option TypeSignature) :=
  match target with
  | LiteralValue _ (VPrincipal (Contract contract_identifier)) => mret (contract_identifier, None)
  | Atom _ contract_ref =>
    match callable_contracts context !! contract_ref with
    | Some (contract_identifier, trait_identifier) =>
      if decide (contract_identifier = own_contract env) then check_err (CircularReference [Names.name contract_identifier])
      else
        contract_to_check ← get_contract_or_none contract_identifier;
        if is_explicitly_implementing_trait (contract_context contract_to_check) trait_identifier
        then mret (contract_identifier, None)
        else
          t ← trait_return_type contract_identifier trait_identifier function_name (contract_context contract_to_check);
          mret (contract_identifier, Some t)
    | None => check_err ContractCallExpectName
    end
  | _ => check_err ContractCallExpectName
  end.

Definition special_contract_call args env context : Run Value :=
  _ ← lift_res (check_arguments_at_least 2 args);
  _ ← env_cost cost_functions.CONTRACT_CALL 0;
  match args with
  | target :: name :: rest =>
    function_name ← some_or (match_atom name) ExpectedName;
    rest_args ← eval_list rest env context;
    '(contract_identifier, type_returns_constraint) ← call_target target function_name env context;
    let contract_principal := VPrincipal (Contract (own_contract env)) in
    result ← execute_contract contract_identifier function_name (atom_value <$> rest_args) false
      (mkEnvironment (contract_context_ env) (env_sender env) (Some contract_principal));
    match type_returns_constraint with
    | None => mret result
    | Some returns_type_signature =>
      actual_returns ← expect_value_type result;
      b ← lift_res (lift_panic (admits_type returns_type_signature actual_returns));
      if (b : bool) then mret result else check_err (ReturnTypesMustMatch returns_type_signature actual_returns)
    end
  | _ => lift_res Panic
  end.

(** * Application *)

Definition special (f : Special) : list SymbolicExpression -> Environment -> LocalContext -> Run Value :=
  match f with
  | F_and => special_and | F_or => special_or | F_if => special_if | F_let => special_let
  | F_fetch_variable => special_fetch_variable | F_set_variable => special_set_variable | F_map => special_map
  | F_filter => special_filter | F_fold => special_fold | F_concat => special_concat
  | F_as_max_len => special_as_max_len | F_append => special_append | F_list_cons => list_cons
  | F_fetch_entry => special_fetch_entry | F_set_entry => special_set_entry | F_insert_entry => special_insert_entry
  | F_delete_entry => special_delete_entry | F_tuple_cons => tuple_cons | F_tuple_get => special_tuple_get
  | F_print => special_print | F_contract_call => special_contract_call | F_as_contract => special_as_contract
  | F_get_block_info => special_get_block_info | F_asserts => special_asserts | F_match => special_match
  | F_mint_asset => special_mint_asset | F_mint_token => special_mint_token | F_transfer_asset => special_transfer_asset
  | F_transfer_token => special_transfer_token | F_get_balance => special_get_balance
  | F_get_owner => special_get_owner | F_at_block => special_at_block | F_stx_transfer => special_stx_transfer
  | F_stx_burn => special_stx_burn
  end.

(** The loop of [apply] over its arguments, with the memory in use at the end or
    at the first error. *)
Fixpoint eval_args args env context (used_memory : Z) (evaluated_args : list Value) : Run (Z * (VmError + list Value)) :=
  match args with
  | [] => mret (used_memory, inr evaluated_args)
  | arg_x :: args =>
    r ← attempt (eval arg_x env context);
    match r with
    | inl e => mret (used_memory, inl e)
    | inr arg_value =>
      arg_use ← lift_res (get_memory_use arg_value);
      r ← attempt (context_add_memory arg_use);
      match r with
      | inl e => mret (used_memory, inl e)
      | inr _ => eval_args args env context (wrap 64 (used_memory + arg_use)) (evaluated_args ++ [arg_value])
      end
    end
  end.

(** The call itself, its arguments evaluated.  The cost of a native function is
    charged here: when that fails, neither the memory nor the call stack is
    restored. *)
Definition run_callable (function : CallableType) (values : list Value) env : Run (VmError + Value) :=
  match function with
  | NativeFunction _ function cost_function =>
    _ ← env_cost cost_function (Z.of_nat (length values));
    attempt (lift_res (native_apply function values))
  | UserFunction function => attempt (function_apply function values env)
  | SpecialFunction _ _ => lift_res Panic
  end.

Definition is_user_function (function : CallableType) : bool :=
  match function with UserFunction _ => true | _ => false end.

Definition apply_body (function : CallableType) args env context : Run Value :=
  let identifier := get_identifier function in
  let track_recursion := is_user_function function in
  call_stack ← get_stack;
  if track_recursion && CallStack_contains call_stack identifier then check_err (CircularReference [identifier])
  else if Nat.leb MAX_CALL_STACK_DEPTH (CallStack_depth call_stack) then throw (Runtime MaxStackDepthReached)
  else
    match function with
    | SpecialFunction _ f => with_call identifier track_recursion (special f args env context)
    | _ =>
      _ ← insert_call identifier track_recursion;
      '(used_memory, r) ← eval_args args env context 0 [];
      resp ← match r with
             | inl e => mret (inl e)
             | inr evaluated_args => run_callable function evaluated_args env
             end;
      _ ← context_drop_memory used_memory;
      _ ← remove_call identifier track_recursion;
      of_result resp
    end.

Definition eval_body (exp : SymbolicExpression) env context : Run Value :=
  match exp with
  | AtomValue _ value | LiteralValue _ value => mret value
  | Atom _ value => vm_lookup_variable value context env
  | SList _ children =>
    match children with
    | [] => check_err NonFunctionApplication
    | function_variable :: rest =>
      function_name ← some_or (match_atom function_variable) BadFunctionName;
      f ← lookup_function function_name env;
      apply f rest env context
    end
  | TraitReference _ _ _ | Field _ _ => lift_res Panic
  end.
End specials.

Fixpoint apply_fuel (fuel : nat) (function : CallableType) (args : list SymbolicExpression) (env : Environment)
    (context : LocalContext) : Run Value :=
  match fuel with
  | O => fun _ => Err out_of_fuel
  | Datatypes.S fuel => apply_body (eval_body (apply_fuel fuel)) (apply_fuel fuel) function args env context
  end.

(** Enough fuel: an application on a call stack of the maximal depth is refused. *)
Definition FUEL : nat := Datatypes.S MAX_CALL_STACK_DEPTH.
Definition apply : CallableType -> list SymbolicExpression -> Environment -> LocalContext -> Run Value := apply_fuel FUEL.
Definition eval : SymbolicExpression -> Environment -> LocalContext -> Run Value := eval_body apply.
End interpreter.
