(* ===== verification/Runs.v ===== *)
(** A logic for the interpreter: what holds of every run of an expression,
    whatever the program, is what its primitive steps preserve.

    [Preserved] collects the steps that a relation between the state before and
    the state after has to be closed under; [apply_runs] and [eval_runs] then give
    the relation for the evaluator, together with its termination. *)
From stdpp Require Import base strings numbers list gmap relations.
From Stdlib Require Import ZArith Lia.
From S2P Require Import Prelude Names BTree Types Representations Values Serialization C32 RollbackWrapper BackingStore Costs AssetMap ClarityDatabase Natives Contexts Interpreter.
#[local] Open Scope Z_scope.

Create HintDb runs.
Create HintDb writes.

(** * What the methods of the database write *)

(** The keys of what contracts store; those of accounts start with
    ["vm-account::"]. *)
Definition contract_key (k : string) : Prop := exists rest, k = "vm::" +:+ rest.

Section writes.
Context {S : Type} `{!ClarityBackingStore S VmError} `{!Sha256} `{!Sha512Trunc256} `{!HeadersDB}.
Context `{!ClaritySerializable U128} `{!ClaritySerializable U64} `{!ClaritySerializable PrincipalData}.
Context `{!ClaritySerializable FungibleTokenMetadata} `{!ClaritySerializable NonFungibleTokenMetadata}.
Context `{!ClaritySerializable DataMapMetadata} `{!ClaritySerializable DataVariableMetadata}.
Context `{!Storable ContractData} `{!ClaritySerializable ContractData}.

Lemma trip_contract_key c t n k : lift_panic (E := VmError) (make_key_for_trip c t n) = Ok k -> contract_key k.
Proof. unfold make_key_for_trip. destruct (contract_string c) as [s| |]; [|done..]. intros [= <-]. by eexists. Qed.
Lemma quad_contract_key c t n d k : lift_panic (E := VmError) (make_key_for_quad c t n d) = Ok k -> contract_key k.
Proof. unfold make_key_for_quad. destruct (contract_string c) as [s| |]; [|done..]. intros [= <-]. by eexists. Qed.
Lemma entry_contract_key c n v k : lift_panic (E := VmError) (make_key_for_data_map_entry c n v) = Ok k -> contract_key k.
Proof.
  unfold make_key_for_data_map_entry. destruct (serialize v) as [d|[]|]; [|done..]. apply quad_contract_key.
Qed.

(** Methods that write to keys in [K] only. *)
Context (K : string -> Prop).
Definition put_in (w w' : RollbackWrapper S) : Prop := exists k v, K k /\ wrapper_put w k v = Ok w'.
Definition writes {A} (m : Db S A) : Prop := forall w a w', m w = Ok (a, w') -> rtc put_in w w'.

Lemma writes_ret {A} (a : A) : writes (mret a).
Proof. intros w b w' [= <- <-]. apply rtc_refl. Qed.
Lemma writes_lift {A} (r : Res VmError A) : writes (db_lift r).
Proof. intros w b w'. unfold db_lift. destruct r; cbn; [|done..]. intros [= _ <-]. apply rtc_refl. Qed.
Lemma writes_read {A} (f : RollbackWrapper S -> Res VmError A) : writes (db_read f).
Proof. intros w b w'. unfold db_read. destruct (f w); cbn; [|done..]. intros [= _ <-]. apply rtc_refl. Qed.
Lemma writes_bind {A B} (m : Db S A) (f : A -> Db S B) : writes m -> (forall a, writes (f a)) -> writes (m ≫= f).
Proof.
  intros Hm Hf w b w'. unfold mbind, db_bind. destruct (m w) as [[a w1]| |] eqn:E; [|done..]. intros Hb.
  transitivity w1; [by eapply Hm|by eapply Hf].
Qed.
Lemma writes_bind_lift {A B} (r : Res VmError A) (f : A -> Db S B) :
  (forall a, r = Ok a -> writes (f a)) -> writes (db_lift r ≫= f).
Proof. intros Hf w b w'. unfold mbind at 1, db_bind, db_lift. destruct r as [a| |]; cbn; [|done..]. by apply Hf. Qed.
Lemma writes_no_contract {A} (m : Db S (option A)) : writes m -> writes (map_no_contract_as_none m).
Proof.
  intros Hm w a w'. unfold map_no_contract_as_none. destruct (m w) as [[]| |] eqn:E; [|repeat case_match|done];
    intros [= <- <-]; [by eapply Hm|apply rtc_refl].
Qed.

Lemma writes_write f (k : string) :
  K k -> (forall w w', f w = Ok w' -> exists v, wrapper_put w k v = Ok w') -> writes (db_write (S := S) f).
Proof.
  intros Hk Hf w a w'. unfold db_write. destruct (f w) as [w1| |] eqn:E; cbn; [|done..]. intros [= _ <-].
  destruct (Hf _ _ E) as [v Hv]. apply rtc_once. by exists k, v.
Qed.
Lemma writes_put_json {T} `{!Storable T} `{!ClaritySerializable T} k (x : T) : K k -> writes (put_json k x).
Proof. intros Hk. apply (writes_write _ k); [done|]. intros w w' Hw. by eexists. Qed.
Lemma writes_put_value k v : K k -> writes (put_value k v).
Proof.
  intros Hk. apply (writes_write _ k); [done|]. intros w w'. destruct (serialize v) as [x|[]|]; cbn; [|done..].
  intros Hw. by exists x.
Qed.
End writes.

#[export] Hint Resolve writes_ret writes_lift writes_read writes_no_contract writes_put_json writes_put_value : writes.
#[export] Hint Resolve trip_contract_key quad_contract_key entry_contract_key : writes.

Ltac writes_step :=
  lazymatch goal with
  | |- writes _ (db_lift _ ≫= _) => apply writes_bind_lift; intros ? ?
  | |- writes _ (_ ≫= _) => apply writes_bind; [|intros ?]
  | |- writes _ (match ?x with _ => _ end) => destruct x
  | |- _ => solve [eauto with writes]
  end.
Ltac writes_steps := repeat writes_step.

Section methods.
Context {S : Type} `{!ClarityBackingStore S VmError} `{!Sha256} `{!Sha512Trunc256} `{!HeadersDB}.
Context `{!ClaritySerializable U128} `{!ClaritySerializable U64} `{!ClaritySerializable PrincipalData}.
Context `{!ClaritySerializable FungibleTokenMetadata} `{!ClaritySerializable NonFungibleTokenMetadata}.
Context `{!ClaritySerializable DataMapMetadata} `{!ClaritySerializable DataVariableMetadata}.
Context `{!Storable ContractData} `{!ClaritySerializable ContractData}.

Lemma get_json_writes {T} `{!Storable T} `{!ClaritySerializable T} k : writes (S := S) contract_key (get_json (T := T) k).
Proof. apply writes_read. Qed.
Lemma get_value_writes k t : writes (S := S) contract_key (get_value k t).
Proof. apply writes_read. Qed.
Lemma check_admits_writes t v : writes (S := S) contract_key (check_admits t v).
Proof. unfold check_admits. writes_steps. Qed.
Lemma fetch_expected_writes {T} `{!Storable T} `{!ClaritySerializable T} c k : writes (S := S) contract_key (fetch_expected (T := T) c k).
Proof. unfold fetch_expected, fetch_metadata. writes_steps. Qed.
Lemma load_variable_writes c n : writes (S := S) contract_key (load_variable c n).
Proof. unfold load_variable, fetch_metadata. writes_steps. Qed.
Lemma load_map_writes c n : writes (S := S) contract_key (load_map c n).
Proof. unfold load_map, fetch_metadata. writes_steps. Qed.
Lemma load_ft_writes c n : writes (S := S) contract_key (load_ft c n).
Proof. unfold load_ft, fetch_metadata. writes_steps. Qed.
Lemma load_nft_writes c n : writes (S := S) contract_key (load_nft c n).
Proof. unfold load_nft, fetch_metadata. writes_steps. Qed.
#[local] Hint Resolve get_json_writes get_value_writes check_admits_writes fetch_expected_writes : writes.
#[local] Hint Resolve load_variable_writes load_map_writes load_ft_writes load_nft_writes : writes.

Lemma get_contract_writes c : writes (S := S) contract_key (get_contract c).
Proof. unfold get_contract. writes_steps. Qed.
Lemma get_contract_size_writes c : writes (S := S) contract_key (get_contract_size c).
Proof. unfold get_contract_size. writes_steps. Qed.
Lemma current_block_height_writes : writes (S := S) contract_key db_get_current_block_height.
Proof. apply writes_read. Qed.
Lemma index_header_hash_writes h : writes (S := S) contract_key (get_index_block_header_hash h).
Proof. apply writes_read. Qed.
Lemma block_datum_writes {A} (get : list Z -> option A) h : writes (S := S) contract_key (get_block_datum get h).
Proof. unfold get_block_datum, get_index_block_header_hash. writes_steps. Qed.
Lemma lookup_data_variable_writes c n : writes (S := S) contract_key (lookup_data_variable c n).
Proof. unfold lookup_data_variable. writes_steps. Qed.
Lemma set_variable_writes c n v : writes (S := S) contract_key (set_variable c n v).
Proof. unfold set_variable. writes_steps. Qed.
Lemma fetch_entry_writes c n k : writes (S := S) contract_key (fetch_entry c n k).
Proof. unfold fetch_entry, unchecked. writes_steps. Qed.
Lemma inner_set_entry_writes c n k v b : writes (S := S) contract_key (inner_set_entry c n k v b).
Proof. unfold inner_set_entry, unchecked, data_map_entry_exists. writes_steps. Qed.
Lemma delete_entry_writes c n k : writes (S := S) contract_key (delete_entry c n k).
Proof. unfold delete_entry, unchecked, data_map_entry_exists. writes_steps. Qed.
Lemma increase_supply_writes c n a : writes (S := S) contract_key (checked_increase_token_supply c n a).
Proof. unfold checked_increase_token_supply. writes_steps. Qed.
Lemma get_ft_balance_writes c n p : writes (S := S) contract_key (get_ft_balance c n p).
Proof. unfold get_ft_balance. writes_steps. Qed.
Lemma set_ft_balance_writes c n p b : writes (S := S) contract_key (set_ft_balance c n p b).
Proof. unfold set_ft_balance. writes_steps. Qed.
Lemma get_nft_owner_writes c n v : writes (S := S) contract_key (get_nft_owner c n v).
Proof. unfold get_nft_owner, nft_entry_key. writes_steps. Qed.
Lemma get_nft_key_type_writes c n : writes (S := S) contract_key (get_nft_key_type c n).
Proof. unfold get_nft_key_type. writes_steps. Qed.
Lemma nft_entry_key_Ok c n v w k w' : nft_entry_key (S := S) c n v w = Ok (k, w') -> w' = w /\ contract_key k.
Proof.
  unfold nft_entry_key. unfold mbind at 1, db_bind, db_lift. destruct (serialize v) as [a|e|]; cbn; [|done..].
  destruct (lift_panic (E := VmError) (make_key_for_quad c NonFungibleToken n a)) as [key| |] eqn:E; cbn; [|done..].
  intros [= <- <-]. split; [done|]. by eapply quad_contract_key.
Qed.
Lemma set_nft_owner_writes c n v p : writes (S := S) contract_key (set_nft_owner c n v p).
Proof.
  unfold set_nft_owner. do 2 (writes_step; [writes_step|]). intros w b w'. unfold mbind at 1, db_bind.
  destruct (nft_entry_key c n v w) as [[k w1]| |] eqn:E; [|done..]. apply nft_entry_key_Ok in E as [-> Hk].
  by apply writes_put_json.
Qed.
Lemma get_stx_balance_writes p : writes (S := S) contract_key (get_account_stx_balance p).
Proof. unfold get_account_stx_balance. writes_steps. Qed.
End methods.

#[export] Hint Resolve get_contract_writes get_contract_size_writes current_block_height_writes index_header_hash_writes : writes.
#[export] Hint Resolve block_datum_writes lookup_data_variable_writes set_variable_writes fetch_entry_writes : writes.
#[export] Hint Resolve inner_set_entry_writes delete_entry_writes increase_supply_writes get_ft_balance_writes : writes.
#[export] Hint Resolve set_ft_balance_writes get_nft_owner_writes get_nft_key_type_writes set_nft_owner_writes : writes.
#[export] Hint Resolve get_stx_balance_writes load_variable_writes load_map_writes load_ft_writes load_nft_writes : writes.

(** * Relations that steps preserve *)

(** The error of a result. *)
Definition failure {A} (r : VmError + A) : option VmError := match r with inl e => Some e | inr _ => None end.

Notation VmState S := (GlobalContext S * CallStack)%type.

(** A run from [s] that ends has [R] between [s] and its final state, with its
    error; a value may stand for an error, [fail]. *)
Definition post {S A} (R : VmState S -> VmState S -> option VmError -> Prop) (s : VmState S) (fail : A -> option VmError)
    (o : Res OutOfFuel (VmState S * (VmError + A))) : Prop :=
  match o with
  | Ok (s', inr a) => R s s' (fail a)
  | Ok (s', inl e) => R s s' (Some e)
  | Err _ => False
  | Panic => True
  end.

Section preserved.
Context {S : Type} `{!ClarityBackingStore S VmError} `{!Sha256} `{!ClaritySerializable U128}.
Context (sender_ok : option Value -> Prop) (R : VmState S -> VmState S -> option VmError -> Prop).

(** Steps that happen in every function. *)
Class Steps : Prop := {
  pres_refl s r : R s s r;
  pres_trans s1 s2 s3 r : R s1 s2 None -> R s2 s3 r -> R s1 s3 r;
  (** Charges. *)
  pres_cost g x cost c r :
    add_cost (cost_track g) cost = (c, r) -> r <> Panic ->
    R (g, x) (set_cost_track g c, x) (match r with Err e => Some (Unchecked (CheckCost e)) | _ => None end);
  pres_memory g x m c r :
    add_memory (cost_track g) m = (c, r) -> r <> Panic ->
    R (g, x) (set_cost_track g c, x) (match r with Err e => Some (Unchecked (CheckCost e)) | _ => None end);
  pres_drop s g x r m c : R s (g, x) r -> drop_memory (cost_track g) m = Ok c -> R s (set_cost_track g c, x) r;
  (** Records in the open frame. *)
  pres_assets g x m m' maps : asset_maps g = m :: maps -> R (g, x) (set_asset_maps g (m' :: maps), x) None;
  pres_events g x b b' batches : event_batches g = b :: batches -> R (g, x) (set_event_batches g (b' :: batches), x) None;
}.

(** Writes to the keys in [K]. *)
Definition puts (K : string -> Prop) : Prop := forall g x k v w,
  K k -> wrapper_put (database g) k v = Ok w -> R (g, x) (set_database g w, x) None.

(** Nested contexts and calls. *)
Class Brackets : Prop := {
  (** A short return is caught, other errors are not. *)
  pres_short s s' v : R s s' (Some (ShortReturn v)) -> R s s' None;
  pres_commit g x g1 x1 g2 r :
    R (begin g, x) (g1, x1) None -> commit g1 = Ok (g2, r) -> R (g, x) (g2, x1) (failure r);
  pres_roll_back (ro : bool) g x g1 x1 g2 r :
    R (if ro then begin_read_only g else begin g, x) (g1, x1) r -> roll_back g1 = Ok g2 -> R (g, x) (g2, x1) r;
  pres_open g x s' t :
    R (begin g, x) s' None -> R (g, x) s' (Some (Unchecked (PublicFunctionMustReturnResponse t)));
  pres_at_block g x bhh prior w g1 x1 r bhh' w' g2 :
    wrapper_set_block_hash (database (begin_read_only g)) bhh = Ok (prior, w) ->
    R (set_database (begin_read_only g) w, x) (g1, x1) r ->
    wrapper_set_block_hash (database g1) prior = Ok (bhh', w') -> roll_back (set_database g1 w') = Ok g2 ->
    R (g, x) (g2, x1) r;
  (** Calls, and a native call whose cost cannot be charged. *)
  pres_call g x id (track : bool) g1 x1 x2 r r' :
    (track = true -> CallStack_contains x id = false) ->
    R (g, CallStack_insert x id track) (g1, x1) r -> CallStack_remove x1 id track = Ok (x2, r') ->
    R (g, x) (g1, x2) (match r' with inl e => Some e | inr _ => r end);
  pres_leak g x id s' e :
    R (g, CallStack_insert x id false) s' (Some (Unchecked (CheckCost e))) -> R (g, x) s' (Some (Unchecked (CheckCost e)));
}.

(** [sender_ok] is what the relation assumes of the sender, for the transfers of
    STX. *)
Class Preserved : Prop := {
  pres_steps :: Steps;
  pres_brackets :: Brackets;
  pres_put : puts contract_key;
  pres_contract_sender c : sender_ok (Some (VPrincipal (Contract c)));
  pres_stx_transfer env a f t s : sender_ok (env_sender env) -> post R s (fun _ => None) (stx_transfer env a f t s);
  pres_stx_burn env a f s : sender_ok (env_sender env) -> post R s (fun _ => None) (stx_burn env a f s);
}.
End preserved.
Arguments pres_refl {S R _}.
Arguments pres_trans {S R _}.
Arguments pres_cost {S R _}.
Arguments pres_memory {S R _}.
Arguments pres_drop {S R _}.
Arguments pres_assets {S R _}.
Arguments pres_events {S R _}.
Arguments pres_short {S _ R _}.
Arguments pres_commit {S _ R _}.
Arguments pres_roll_back {S _ R _}.
Arguments pres_open {S _ R _}.
Arguments pres_at_block {S _ R _}.
Arguments pres_call {S _ R _}.
Arguments pres_leak {S _ R _}.
Arguments pres_put {S _ _ _ sender_ok R _}.
Arguments pres_contract_sender {S _ _ _ sender_ok R _}.
Arguments pres_stx_transfer {S _ _ _ sender_ok R _}.
Arguments pres_stx_burn {S _ _ _ sender_ok R _}.

(** * Rules *)

(** Enough fuel for the depth of the call stack. *)
Definition fueled {S} (n : nat) (s : VmState S) : Prop := (1 <= n /\ FUEL <= n + CallStack_depth s.2)%nat.

Section rules.
Context {S : Type} `{!ClarityBackingStore S VmError} `{!Sha256} `{!Sha512Trunc256} `{!NativeHashes} `{!HeadersDB}.
Context `{!ClaritySerializable U128} `{!ClaritySerializable U64} `{!ClaritySerializable PrincipalData}.
Context `{!ClaritySerializable FungibleTokenMetadata} `{!ClaritySerializable NonFungibleTokenMetadata}.
Context `{!ClaritySerializable DataMapMetadata} `{!ClaritySerializable DataVariableMetadata}.
Context `{!Storable ContractData} `{!ClaritySerializable ContractData}.
Context {R : VmState S -> VmState S -> option VmError -> Prop} `{HS : !Steps R}.
(** The call stack does not get shorter. *)
Context (Hdepth : forall s s' r, R s s' r -> (CallStack_depth s.2 <= CallStack_depth s'.2)%nat).

#[local] Notation Run := (Exec S CallStack).
#[local] Notation post := (post R).

(** A computation that, with fuel [n], ends in [R]. *)
Definition runs_fail {A} (n : nat) (fail : A -> option VmError) (m : Run A) : Prop :=
  forall s, fueled n s -> post s fail (m s).
Definition runs {A} (n : nat) (m : Run A) : Prop := runs_fail n (fun _ => None) m.

Lemma fueled_after n s s' r : fueled n s -> R s s' r -> fueled n s'.
Proof. intros [Hn Hs] Hr%Hdepth. split; lia. Qed.

Lemma fueled_enough s : fueled (S := S) FUEL s.
Proof. unfold fueled, FUEL. lia. Qed.

(** Going on after a run without an error. *)
Lemma post_trans {A} s s' (fail : A -> option VmError) o : R s s' None -> post s' fail o -> post s fail o.
Proof. intros Hs. destruct o as [[s1 [e|a]]| |]; cbn; try done; by apply pres_trans. Qed.

(** ** Computations that leave the state alone *)

Lemma runs_ret {A} n (a : A) : runs n (mret a).
Proof. intros s _. apply (pres_refl (R := R)). Qed.
Lemma runs_fail_ret {A} n fail (a : A) : runs_fail n fail (mret a).
Proof. intros s _. apply (pres_refl (R := R)). Qed.
Lemma runs_throw {A} n e : runs n (throw (A := A) e).
Proof. intros s _. apply (pres_refl (R := R)). Qed.
Lemma runs_lift {A} n (r : Res VmError A) : runs n (lift_res r).
Proof. intros s _. destruct r; cbn; [apply (pres_refl (R := R))..|done]. Qed.
Lemma runs_gets {A} n (f : GlobalContext S -> A) : runs n (gets f).
Proof. intros s _. apply (pres_refl (R := R)). Qed.

Lemma runs_fail_bind {A B} n (m : Run A) (k : A -> Run B) fail :
  runs n m -> (forall a, runs_fail n fail (k a)) -> runs_fail n fail (m ≫= k).
Proof.
  intros Hm Hk s Hs. specialize (Hm s Hs). unfold mbind, exec_bind. destruct (m s) as [[s1 [e|a]]| |]; cbn in *; try done.
  eapply post_trans; [done|]. apply Hk. by eapply fueled_after.
Qed.
Lemma runs_bind {A B} n (m : Run A) (k : A -> Run B) : runs n m -> (forall a, runs n (k a)) -> runs n (m ≫= k).
Proof. apply runs_fail_bind. Qed.

(** Going on after a run that may have failed. *)
Lemma post_attempt {A B} n (m : Run A) (k : VmError + A -> Run B) fail s :
  runs n m -> fueled n s -> (forall s' r, R s s' (failure r) -> post s fail (k r s')) ->
  post s fail ((attempt m ≫= k) s).
Proof.
  intros Hm Hs Hk. specialize (Hm s Hs). unfold mbind, exec_bind, attempt.
  destruct (m s) as [[s1 [e|a]]| |]; cbn in *; try done; by apply Hk.
Qed.

(** ** Charges *)

Lemma runs_charge n f :
  (forall g x c r, f (cost_track g) = (c, r) -> r <> Panic ->
     R (g, x) (set_cost_track g c, x) (match r with Err e => Some (Unchecked (CheckCost e)) | _ => None end)) ->
  runs n (charge f).
Proof.
  intros Hf [g x] _. unfold charge. cbn [fst snd]. specialize (Hf g x). destruct (f (cost_track g)) as [c [[]|e|]]; cbn.
  - by apply (Hf c (Ok tt)).
  - by apply (Hf c (Err e)).
  - done.
Qed.
Lemma set_cost_same (g : GlobalContext S) : set_cost_track g (cost_track g) = g.
Proof. by destruct g. Qed.
Lemma runs_env_cost n spec input : runs n (env_cost spec input).
Proof.
  apply runs_charge. intros g x c r. unfold runtime_cost.
  destruct (ok_or _ _ ≫= _) as [cost|e|]; intros E Hp; [by eapply pres_cost|simplify_eq; rewrite set_cost_same; apply (pres_refl (R := R))|].
  by simplify_eq.
Qed.
Lemma runs_add_memory n m : runs n (context_add_memory m).
Proof. apply runs_charge. intros. by eapply pres_memory. Qed.
Lemma runs_type_check_cost n t : runs n (type_check_cost t).
Proof.
  apply runs_charge. intros g x c r. destruct (TypeCheckCost_compute_cost t) as [cost|e|]; intros E Hp;
    [by eapply pres_cost|simplify_eq; rewrite set_cost_same; apply (pres_refl (R := R))|by simplify_eq].
Qed.

(** Memory dropped at the end, whatever the result. *)
Lemma post_drop {A} s s1 used (res : VmError + A) :
  R s s1 (failure res) -> post s (fun _ => None) ((_ ← context_drop_memory used; of_result res) s1).
Proof.
  intros Hr. destruct s1 as [g x]. unfold mbind, exec_bind, context_drop_memory, modifyP. cbn [fst snd].
  destruct (drop_memory (cost_track g) used) as [c|[]|] eqn:E; cbn; [|done].
  destruct res as [e|a]; cbn; by eapply pres_drop.
Qed.
Lemma runs_finally_drop {A} n used (m : Run A) : runs n m -> runs n (finally_drop used m).
Proof. intros Hm s Hs. eapply post_attempt; [done..|]. intros s' r Hr. by apply post_drop. Qed.

(** ** The database, assets and events *)

Lemma runs_on_database {A} n K (m : Db S A) : puts R K -> writes K m -> runs n (on_database m).
Proof.
  intros Hput Hm [g x] _. unfold on_database. cbn [fst snd]. destruct (m (database g)) as [[a w]|e|] eqn:E; cbn;
    [|apply (pres_refl (R := R))|done].
  apply Hm in E. replace g with (set_database g (database g)) at 1 by by destruct g.
  induction E as [w|w0 w1 w2 (k & v & Hk & Hw) _ IH]; [apply (pres_refl (R := R))|].
  apply (pres_trans _ (set_database g w1, x)); [|done].
  exact (Hput (set_database g w0) x k v w1 Hk Hw).
Qed.
Lemma runs_event n e : runs n (register_event e).
Proof.
  intros [g x] _. unfold register_event, modify. cbn. destruct (event_batches g) as [|b batches] eqn:E; [apply (pres_refl (R := R))|].
  by eapply pres_events.
Qed.
Lemma runs_asset_map n f : runs n (on_asset_map f).
Proof.
  intros [g x] _. unfold on_asset_map. cbn. destruct (asset_maps g) as [|m maps] eqn:E; [done|].
  destruct (f m); cbn; [by eapply pres_assets|apply (pres_refl (R := R))|done].
Qed.

#[local] Hint Resolve runs_ret runs_fail_ret runs_throw runs_lift runs_gets runs_env_cost runs_add_memory : runs.
#[local] Hint Resolve runs_type_check_cost runs_finally_drop runs_event runs_asset_map : runs.
#[local] Hint Unfold size_of_value size_of_type add_costs expect_value_type some_or check_err contract_to_string : runs.
#[local] Hint Unfold log_stx_transfer log_stx_burn register_stx_transfer_event register_stx_burn_event : runs.

Ltac runs_step :=
  lazymatch goal with
  | |- runs _ (_ ≫= _) => apply runs_bind; [|intros ?]
  | |- runs_fail _ _ (_ ≫= _) => apply runs_fail_bind; [|intros ?]
  | |- runs _ (match ?x with _ => _ end) => destruct x
  | |- runs_fail _ _ (match ?x with _ => _ end) => destruct x
  | |- _ => solve [eauto with runs]
  end.
Ltac runs_steps := repeat runs_step.

Lemma add_type_memory_runs n t : runs n (add_type_memory t).
Proof. unfold add_type_memory. runs_steps. Qed.
#[local] Hint Resolve add_type_memory_runs : runs.

(** Transfers of STX, for a relation that allows writes to all balances. *)
Section any_put.
Context (K : string -> Prop).
Hypothesis Hput : puts R K.
Hypothesis Hbalance : forall p k, make_key_for_account_balance p = Ok k -> K k.

Lemma get_stx_balance_any n p : runs n (on_database (get_account_stx_balance p)).
Proof. apply (runs_on_database n _ _ Hput). unfold get_account_stx_balance, get_json. writes_steps. Qed.
Lemma set_stx_balance_any n p b : runs n (on_database (set_account_stx_balance p b)).
Proof.
  apply (runs_on_database n _ _ Hput). unfold set_account_stx_balance. apply writes_bind_lift. intros k Hk.
  apply writes_put_json. eapply Hbalance. by apply lift_panic_Ok in Hk.
Qed.
#[local] Hint Resolve get_stx_balance_any set_stx_balance_any : runs.

Lemma stx_transfer_any env a f t s : post s (fun _ => None) (stx_transfer env a f t s).
Proof. apply (fun H : runs FUEL _ => H s (fueled_enough s)). unfold stx_transfer. runs_steps. Qed.
Lemma stx_burn_any env a f s : post s (fun _ => None) (stx_burn env a f s).
Proof. apply (fun H : runs FUEL _ => H s (fueled_enough s)). unfold stx_burn. runs_steps. Qed.
End any_put.

(** ** Nested contexts and calls *)

Section brackets.
Context {sender_ok : option Value -> Prop} `{HR : !Preserved sender_ok R}.

Lemma runs_short_return n (m : Run Value) : runs n m -> runs n (catch_short_return m).
Proof.
  intros Hm s Hs. eapply post_attempt; [done..|]. intros s' r Hr. destruct r as [[]|]; cbn; try done.
  by eapply pres_short.
Qed.

Lemma post_roll_back (ro : bool) g x g1 x1 {A} (res : VmError + A) :
  R (if ro then begin_read_only g else begin g, x) (g1, x1) (failure res) ->
  post (g, x) (fun _ => None) ((_ ← roll_back_; of_result res) (g1, x1)).
Proof.
  intros Hr. unfold mbind, exec_bind, roll_back_, modifyP. cbn [fst snd].
  destruct (roll_back g1) as [g2|[]|] eqn:E; cbn; [|done].
  pose proof (pres_roll_back ro g x g1 x1 g2 _ Hr E) as Hr2. by destruct res.
Qed.

Lemma post_commit g x g1 x1 {A} (a : A) :
  R (begin g, x) (g1, x1) None -> post (g, x) (fun _ => None) ((_ ← commit_; mret a) (g1, x1)).
Proof.
  intros Hr. unfold mbind, exec_bind, commit_. cbn [fst snd].
  destruct (commit g1) as [[g2 r]|[]|] eqn:E; cbn; [|done].
  pose proof (pres_commit g x g1 x1 g2 _ Hr E) as Hr2. by destruct r.
Qed.

Lemma post_tx_result g x s1 res :
  R (begin g, x) s1 (failure res) -> post (g, x) (fun _ => None) (handle_tx_result res s1).
Proof.
  intros Hr. destruct s1 as [g1 x1].
  destruct res as [e|v]; [exact (post_roll_back false g x g1 x1 (A := Value) (inl e) Hr)|].
  assert (forall v, post (g, x) (fun _ => None)
    ((t ← lift_res (lift_panic (type_of v)); throw (A := Value) (Unchecked (PublicFunctionMustReturnResponse t))) (g1, x1))) as Hopen.
  { intros u. unfold mbind, exec_bind, lift_res. destruct (type_of u) as [t|[]|]; cbn; [|done]. by apply pres_open. }
  destruct v as [| | | | | | | |[] v]; try apply Hopen; [by apply post_commit|].
  exact (post_roll_back false g x g1 x1 (inr (VResponse false v)) Hr).
Qed.

Lemma fueled_begin n (ro : bool) g x : fueled n (g, x) -> fueled (S := S) n (if ro then begin_read_only g else begin g, x).
Proof. done. Qed.

Lemma runs_transaction n (ro : bool) (m : Run Value) : runs n m -> runs n (execute_function_as_transaction ro m).
Proof.
  intros Hm [g x] Hs. specialize (Hm _ (fueled_begin n ro g x Hs)). unfold execute_function_as_transaction.
  assert (forall k : VmError + Value -> Run Value,
    (forall s1 r, R (if ro then begin_read_only g else begin g, x) s1 (failure r) -> post (g, x) (fun _ => None) (k r s1)) ->
    post (g, x) (fun _ => None) ((_ ← modify (if ro then begin_read_only else begin); result ← attempt m; k result) (g, x))) as Hrun.
  { intros k Hk. unfold mbind, exec_bind, modify, attempt. cbn [fst snd].
    destruct ro; destruct (m _) as [[s1 [e|a]]| |]; cbn in *; try done; by apply Hk. }
  apply Hrun. intros [g1 x1] r Hr. destruct ro; [by apply (post_roll_back true)|by apply post_tx_result].
Qed.

Lemma runs_at_block n bhh (m : Run Value) : runs n m -> runs n (evaluate_at_block bhh m).
Proof.
  intros Hm [g x] Hs. unfold evaluate_at_block. cbn [fst snd].
  destruct (wrapper_set_block_hash (database (begin_read_only g)) bhh) as [[prior w]|e|] eqn:E; [| |done].
  - specialize (Hm (set_database (begin_read_only g) w, x) Hs). destruct (m _) as [[[g1 x1] r]| |]; [|done..].
    destruct (wrapper_set_block_hash (database g1) prior) as [[bhh' w']| |] eqn:E'; [|done..].
    destruct (roll_back (set_database g1 w')) as [g2|[]|] eqn:Er; [|done]. cbn.
    destruct r; cbn in *; by eapply pres_at_block.
  - destruct (roll_back (begin_read_only g)) as [g2|[]|] eqn:Er; [|done]. cbn.
    exact (pres_roll_back true g x _ x g2 _ (pres_refl (R := R) _ _) Er).
Qed.

(** The end of a call that was put on the stack. *)
Lemma post_remove {A} g x id (track : bool) s1 (res : VmError + A) :
  (track = true -> CallStack_contains x id = false) ->
  R (g, CallStack_insert x id track) s1 (failure res) ->
  post (g, x) (fun _ => None) ((_ ← remove_call id track; of_result res) s1).
Proof.
  intros Hc Hr. destruct s1 as [g1 x1]. unfold mbind, exec_bind, remove_call. cbn [fst snd].
  destruct (CallStack_remove x1 id track) as [[x2 r']|[]|] eqn:E; cbn; [|done].
  pose proof (pres_call g x id track g1 x1 x2 _ r' Hc Hr E) as Hr2. by destruct r', res.
Qed.
Lemma fueled_insert n g x id (track : bool) : fueled n (g, x) -> fueled (S := S) n (g, CallStack_insert x id track).
Proof.
  intros [Hn Hs]. split; [done|]. change (FUEL <= n + Datatypes.S (CallStack_depth x))%nat. cbn [fst snd] in Hs. lia.
Qed.
Lemma fueled_call n g x id (track : bool) :
  fueled (Datatypes.S n) (g, x) -> (CallStack_depth x < MAX_CALL_STACK_DEPTH)%nat ->
  fueled (S := S) n (g, CallStack_insert x id track).
Proof.
  intros [Hn Hs] Hd. unfold fueled, FUEL in *. cbn [fst snd] in *.
  change (CallStack_depth (CallStack_insert x id track)) with (Datatypes.S (CallStack_depth x)). lia.
Qed.
Lemma post_call {A} n g x id (track : bool) (m : Run A) :
  (track = true -> CallStack_contains x id = false) -> fueled n (g, CallStack_insert x id track) -> runs n m ->
  post (g, x) (fun _ => None) (with_call id track m (g, x)).
Proof.
  intros Hc Hs Hm. unfold with_call. change ((insert_call id track ≫= ?k) (g, x)) with (k tt (g, CallStack_insert x id track)).
  cbv beta. specialize (Hm _ Hs). unfold mbind at 1, exec_bind, attempt.
  destruct (m _) as [[s1 [e|a]]| |]; cbn in Hm; try done; by apply post_remove.
Qed.
Lemma runs_contract_database {A} n (m : Db S A) : writes contract_key m -> runs n (on_database m).
Proof. apply runs_on_database, pres_put. Qed.
#[local] Hint Resolve runs_short_return runs_transaction runs_at_block runs_contract_database : runs.
#[local] Hint Extern 5 (writes _ _) => eauto with writes : runs.

Section specials.
Context (n : nat) (eval : SymbolicExpression -> Environment -> LocalContext -> Run Value).
Context (apply : CallableType -> list SymbolicExpression -> Environment -> LocalContext -> Run Value).
Hypothesis Heval : forall e env context, sender_ok (env_sender env) -> runs n (eval e env context).
Hypothesis Happly : forall f args env context, sender_ok (env_sender env) -> runs n (apply f args env context).
Implicit Types (args : list SymbolicExpression) (env : Environment) (context : LocalContext).
#[local] Hint Resolve Heval Happly : runs.

Lemma eval_list_runs args env context : sender_ok (env_sender env) -> runs n (eval_list eval args env context).
Proof. intros He. induction args; cbn [eval_list]; runs_steps. Qed.
#[local] Hint Resolve eval_list_runs : runs.


Lemma lookup_variable_runs name context env : runs n (vm_lookup_variable name context env).
Proof. unfold vm_lookup_variable, lookup_reserved_variable. runs_steps. Qed.
Lemma lookup_function_runs name env : runs n (lookup_function name env).
Proof. unfold lookup_function. runs_steps. Qed.
Lemma refuse_read_only_runs : runs n refuse_read_only.
Proof. unfold refuse_read_only. runs_steps. Qed.
#[local] Hint Resolve lookup_variable_runs lookup_function_runs refuse_read_only_runs : runs.

Lemma or_loop_runs args env context : sender_ok (env_sender env) -> runs n (or_loop eval args env context).
Proof. intros He. induction args; cbn [or_loop]; runs_steps. Qed.
Lemma and_loop_runs args env context : sender_ok (env_sender env) -> runs n (and_loop eval args env context).
Proof. intros He. induction args; cbn [and_loop]; runs_steps. Qed.
Lemma parse_eval_bindings_runs args env context :
  sender_ok (env_sender env) -> runs n (parse_eval_bindings eval args env context).
Proof. intros He. induction args; cbn [parse_eval_bindings]; runs_steps. Qed.
Lemma eval_bodies_runs o args env context : sender_ok (env_sender env) -> runs n (eval_bodies eval o args env context).
Proof. intros He. revert o. induction args; intros o; cbn [eval_bodies]; runs_steps. Qed.
Lemma let_binding_runs b env context c : sender_ok (env_sender env) -> runs n (let_binding eval b env context c).
Proof. intros He. unfold let_binding. runs_steps. Qed.
Lemma sum_sizes_runs z vs : runs n (sum_sizes z vs).
Proof. revert z. induction vs; intros z; cbn [sum_sizes]; runs_steps. Qed.
Lemma filter_loop_runs {A} wrap_item f (items : list A) env context :
  sender_ok (env_sender env) -> runs n (filter_loop apply wrap_item f items env context).
Proof. intros He. induction items; cbn [filter_loop]; runs_steps. Qed.
Lemma iterable_args_runs v : runs n (iterable_args v).
Proof. unfold iterable_args. runs_steps. Qed.
Lemma fold_loop_runs f acc items env context :
  sender_ok (env_sender env) -> runs n (fold_loop apply f acc items env context).
Proof. intros He. revert acc. induction items; intros acc; cbn [fold_loop]; runs_steps. Qed.
Lemma map_loop_runs f items env context : sender_ok (env_sender env) -> runs n (map_loop apply f items env context).
Proof. intros He. induction items; cbn [map_loop]; runs_steps. Qed.
#[local] Hint Resolve or_loop_runs and_loop_runs parse_eval_bindings_runs eval_bodies_runs let_binding_runs : runs.
#[local] Hint Resolve sum_sizes_runs filter_loop_runs iterable_args_runs fold_loop_runs map_loop_runs : runs.

Lemma let_bindings_runs args env context c used :
  sender_ok (env_sender env) -> runs_fail n (fun p => failure p.2) (let_bindings eval args env context c used).
Proof.
  intros He. revert c used. induction args as [|b args IH]; intros c used; cbn [let_bindings]; [runs_step|].
  intros s Hs. eapply post_attempt; [by apply let_binding_runs|done|]. intros s' [e|[m c']] Hr; [done|].
  eapply post_trans; [done|]. apply IH. by eapply fueled_after.
Qed.

(** Bodies that run after bindings that may have failed. *)
Lemma runs_after_bindings {A B} (m : Run (Z * (VmError + A))) (k : A -> Run B) :
  runs_fail n (fun p => failure p.2) m -> (forall a, runs n (k a)) ->
  runs n ('(used, r) ← m; finally_drop used (a ← of_result r; k a)).
Proof.
  intros Hm Hk s Hs. specialize (Hm s Hs). unfold mbind at 1, exec_bind at 1.
  destruct (m s) as [[s1 [e|[used [e|a]]]]| |]; cbn in Hm; try done.
  - unfold finally_drop. change ((attempt (of_result (inl e) ≫= k) ≫= ?f) s1) with (f (inl e) s1).
    by apply (post_drop s s1 used (inl e)).
  - eapply post_trans; [done|]. eapply runs_finally_drop; [apply Hk|]. by eapply fueled_after.
Qed.

Lemma special_let_runs args env context : sender_ok (env_sender env) -> runs n (special_let eval args env context).
Proof.
  intros He. unfold special_let. runs_step; [runs_step|]. destruct args as [|arg bodies]; [runs_step|].
  do 3 (runs_step; [runs_step|]).
  apply runs_after_bindings; [by apply let_bindings_runs|]. intros c. by apply eval_bodies_runs.
Qed.

#[local] Hint Extern 1 (sender_ok (env_sender (mkEnvironment _ _ _))) =>
  cbn [env_sender]; first [done|apply (pres_contract_sender (R := R))] : runs.

Lemma special_as_contract_runs args env context : runs n (special_as_contract eval args env context).
Proof. unfold special_as_contract. runs_steps. Qed.
Lemma tuple_cons_runs args env context : sender_ok (env_sender env) -> runs n (tuple_cons eval args env context).
Proof. intros He. unfold tuple_cons. runs_steps. Qed.
#[local] Hint Resolve tuple_cons_runs : runs.
Lemma special_tuple_get_runs args env context : sender_ok (env_sender env) -> runs n (special_tuple_get eval args env context).
Proof. intros He. unfold special_tuple_get. runs_steps. Qed.
Lemma eval_tuple_argument_runs arg env context :
  sender_ok (env_sender env) -> runs n (eval_tuple_argument eval arg env context).
Proof. intros He. unfold eval_tuple_argument. runs_steps. Qed.
Lemma eval_with_new_binding_runs body b v env context :
  sender_ok (env_sender env) -> runs n (eval_with_new_binding eval body b v env context).
Proof. intros He. unfold eval_with_new_binding. runs_steps. Qed.
#[local] Hint Resolve eval_tuple_argument_runs eval_with_new_binding_runs : runs.
Lemma special_match_runs args env context : sender_ok (env_sender env) -> runs n (special_match eval args env context).
Proof. intros He. unfold special_match, special_match_resp, special_match_opt. runs_steps. Qed.
Lemma write_entry_runs write args env context :
  (forall c m k v, writes contract_key (write c m k v)) -> sender_ok (env_sender env) -> runs n (write_entry eval write args env context).
Proof. intros Hw He. unfold write_entry, entry_cost_input. runs_steps. Qed.
Lemma block_info_runs p h : runs n (block_info p h).
Proof. unfold block_info. runs_steps. Qed.
#[local] Hint Resolve block_info_runs : runs.

(** ** Assets *)

Lemma runs_database_or {A B} (m : Db S A) (k : VmError + A -> Run B) :
  writes contract_key m -> (forall r, runs n (k r)) -> runs n (r ← attempt (on_database m); k r).
Proof.
  intros Hm Hk s Hs. pose proof (runs_contract_database n m Hm s Hs) as Hrun. unfold mbind, exec_bind, attempt, on_database in *.
  destruct (m (database s.1)) as [[a w]|e|]; cbn in *; [|by apply Hk|done].
  eapply post_trans; [done|]. apply Hk. by eapply fueled_after.
Qed.
Lemma nft_owner_runs env name v : runs n (nft_owner env name v).
Proof. apply runs_database_or; [eauto with writes|]. intros r. runs_steps. Qed.
Lemma asset_type_runs env spec name v : runs n (asset_type env spec name v).
Proof. unfold asset_type. runs_steps. Qed.
#[local] Hint Resolve nft_owner_runs asset_type_runs : runs.
#[local] Hint Unfold register_nft_transfer_event register_nft_mint_event register_ft_transfer_event : runs.
#[local] Hint Unfold register_ft_mint_event register_print_event log_asset_transfer log_token_transfer : runs.
Lemma transfer_asset_runs env name v t from to : runs n (transfer_asset env name v t from to).
Proof. unfold transfer_asset. runs_steps. Qed.
Lemma transfer_token_runs env name v from to : runs n (transfer_token env name v from to).
Proof. unfold transfer_token. runs_steps. Qed.
Lemma mint_token_runs env name v to : runs n (mint_token env name v to).
Proof. unfold mint_token. runs_steps. Qed.
Lemma stx_transfer_runs env a f t : sender_ok (env_sender env) -> runs n (stx_transfer env a f t).
Proof. intros He s _. by apply pres_stx_transfer. Qed.
Lemma stx_burn_runs env a f : sender_ok (env_sender env) -> runs n (stx_burn env a f).
Proof. intros He s _. by apply pres_stx_burn. Qed.
#[local] Hint Resolve transfer_asset_runs transfer_token_runs mint_token_runs stx_transfer_runs stx_burn_runs : runs.

(** ** Calls *)

Lemma type_check_costs_runs ts : runs n (type_check_costs ts).
Proof. induction ts; cbn [type_check_costs]; runs_steps. Qed.
#[local] Hint Resolve type_check_costs_runs : runs.
Lemma execute_apply_runs f vs env : sender_ok (env_sender env) -> runs n (execute_apply eval f vs env).
Proof. intros He. unfold execute_apply. runs_steps. Qed.
#[local] Hint Resolve execute_apply_runs : runs.
Lemma call_as_transaction_runs f vs c env : sender_ok (env_sender env) -> runs n (call_as_transaction eval f vs c env).
Proof. intros He. unfold call_as_transaction. runs_steps. Qed.
#[local] Hint Resolve call_as_transaction_runs : runs.
Lemma function_apply_runs f vs env : sender_ok (env_sender env) -> runs n (function_apply eval f vs env).
Proof. intros He. unfold function_apply. runs_steps. Qed.

Lemma tracked_call_runs id (m : Run Value) : runs n m ->
  runs n (stack ← get_stack;
          if CallStack_contains stack id then check_err (CircularReference [id]) else with_call id true m).
Proof.
  intros Hm [g x] Hs. unfold get_stack, mbind at 1, exec_bind at 1. cbn [fst snd].
  destruct (CallStack_contains x id) eqn:E; [apply (pres_refl (R := R))|]. eapply post_call; [done|by apply fueled_insert|done].
Qed.
Lemma execute_contract_runs c name args (ro : bool) env :
  sender_ok (env_sender env) -> runs n (execute_contract eval c name args ro env).
Proof.
  intros He. unfold execute_contract, callable_function. do 3 (runs_step; [runs_step|]).
  apply runs_finally_drop. do 3 (runs_step; [runs_steps|]). apply tracked_call_runs. runs_steps.
Qed.
#[local] Hint Resolve execute_contract_runs : runs.

Lemma get_contract_or_none_runs c : runs n (get_contract_or_none c).
Proof. apply runs_database_or; [eauto with writes|]. intros r. runs_steps. Qed.
#[local] Hint Resolve get_contract_or_none_runs : runs.
Lemma trait_return_type_runs c t f cx : runs n (trait_return_type c t f cx).
Proof. unfold trait_return_type. runs_steps. Qed.
#[local] Hint Resolve trait_return_type_runs : runs.
Lemma call_target_runs target f env context : runs n (call_target target f env context).
Proof. unfold call_target. runs_steps. Qed.
#[local] Hint Resolve call_target_runs : runs.
Lemma special_contract_call_runs args env context :
  sender_ok (env_sender env) -> runs n (special_contract_call eval args env context).
Proof. intros He. unfold special_contract_call. runs_steps. Qed.

#[local] Hint Resolve special_as_contract_runs special_tuple_get_runs special_match_runs special_let_runs : runs.
#[local] Hint Resolve special_contract_call_runs : runs.

Ltac unfold_head m :=
  lazymatch m with
  | ?f _ => unfold_head f
  | ?f => unfold f
  end.
Lemma special_runs f args env context : sender_ok (env_sender env) -> runs n (special eval apply f args env context).
Proof.
  intros He. destruct f; cbn [special];
    lazymatch goal with
    | |- runs _ (special_set_entry _ _ _ _) => apply write_entry_runs; [intros; apply inner_set_entry_writes|done]
    | |- runs _ (special_insert_entry _ _ _ _) => apply write_entry_runs; [intros; apply inner_set_entry_writes|done]
    | |- runs _ ?m => first [solve [eauto with runs]|unfold_head m]
    end; try unfold entry_cost_input; runs_steps.
Qed.

(** ** Application *)

(** Errors of arguments are results of the loop. *)
Lemma eval_args_runs args env context used acc s : sender_ok (env_sender env) -> fueled n s ->
  match eval_args eval args env context used acc s with
  | Ok (s', inr p) => R s s' (failure p.2)
  | Ok (_, inl _) | Err _ => False
  | Panic => True
  end.
Proof.
  intros He. revert used acc s. induction args as [|a args IH]; intros used acc s Hs; cbn [eval_args].
  { apply (pres_refl (R := R)). }
  pose proof (Heval a env context He s Hs) as Ha. unfold mbind at 1, exec_bind at 1, attempt at 1.
  destruct (eval a env context s) as [[s1 [e|v]]| |]; cbn in Ha; [done| |done..].
  unfold mbind at 1, exec_bind at 1, lift_res, get_memory_use, value_size.
  destruct (type_of v ≫= size) as [m|[]|]; cbn [lift_panic]; [|done].
  pose proof (fueled_after _ _ _ _ Hs Ha) as Hs1. pose proof (runs_add_memory n m s1 Hs1) as Hm.
  unfold mbind at 1, exec_bind at 1, attempt. destruct (context_add_memory m s1) as [[s2 [e|[]]]| |]; cbn in Hm; [| |done..].
  - by eapply pres_trans.
  - specialize (IH (wrap 64 (used + m)) (acc ++ [v]) s2 (fueled_after _ _ _ _ Hs1 Hm)).
    destruct (eval_args eval args env context _ _ s2) as [[s3 [e|p]]| |]; [done| |done..].
    eapply pres_trans; [exact Ha|]. by eapply pres_trans.
Qed.

(** The end of a call whose arguments may have failed to evaluate: only the
    charge of a native function skips it. *)
Lemma run_callable_runs f values env : sender_ok (env_sender env) ->
  (exists id h spec, f = NativeFunction id h spec) \/ is_user_function f = true ->
  forall s, fueled n s ->
  match run_callable eval f values env s with
  | Ok (s', inr r) => R s s' (failure r)
  | Ok (s', inl e) => is_user_function f = false /\ exists c, e = Unchecked (CheckCost c) /\ R s s' (Some e)
  | Err _ => False
  | Panic => True
  end.
Proof.
  intros He Hf s Hs. destruct f as [f|id h spec|id f]; [| |naive_solver].
  - cbn [run_callable]. pose proof (function_apply_runs f values env He s Hs) as Hr. unfold attempt.
    by destruct (function_apply eval f values env s) as [[s1 [e|v]]| |].
  - cbn [run_callable]. unfold mbind, exec_bind, attempt.
    pose proof (runs_env_cost n spec (Z.of_nat (length values)) s Hs) as Hr.
    unfold env_cost, charge in *. destruct (runtime_cost spec (cost_track s.1) _) as [c [[]|e|]]; cbn in *; [|naive_solver|done].
    destruct (native_apply h values); cbn; [done| |done]. by eapply pres_trans, (pres_refl (R := R)).
Qed.

Lemma post_call_end g x id (track : bool) s2 used (resp : VmError + Value) :
  (track = true -> CallStack_contains x id = false) -> R (g, CallStack_insert x id track) s2 (failure resp) ->
  post (g, x) (fun _ => None) ((_ ← context_drop_memory used; _ ← remove_call id track; of_result resp) s2).
Proof.
  intros Hc Hr. destruct s2 as [g2 x2]. unfold mbind at 1, exec_bind at 1, context_drop_memory, modifyP. cbn [fst snd].
  destruct (drop_memory (cost_track g2) used) as [c|[]|] eqn:E; cbn -[remove_call]; [|done].
  apply post_remove; [done|]. by eapply pres_drop.
Qed.

(** A call after its arguments: [s2] is the state they were evaluated in. *)
Lemma post_callable f g x s2 used (r : VmError + list Value) env :
  sender_ok (env_sender env) -> (exists id h spec, f = NativeFunction id h spec) \/ is_user_function f = true ->
  (is_user_function f = true -> CallStack_contains x (get_identifier f) = false) ->
  R (g, CallStack_insert x (get_identifier f) (is_user_function f)) s2 (failure r) -> fueled n s2 ->
  post (g, x) (fun _ => None)
    ((resp ← match r with inl e => mret (inl e) | inr values => run_callable eval f values env end;
      _ ← context_drop_memory used;
      _ ← remove_call (get_identifier f) (is_user_function f);
      of_result resp) s2).
Proof.
  intros He Hf Hc Hr Hs. destruct r as [e|values]; [by apply (post_call_end _ _ _ _ s2 used (inl e))|].
  pose proof (run_callable_runs f values env He Hf s2 Hs) as Hrun. unfold mbind at 1, exec_bind at 1.
  destruct (run_callable eval f values env s2) as [[s3 [e|resp]]| |]; [| |done..].
  - destruct Hrun as (Hu & c & -> & Hrun). rewrite Hu in Hr. cbn. destruct s3. eapply pres_leak, pres_trans; eassumption.
  - apply post_call_end; [done|]. by eapply pres_trans.
Qed.

Lemma post_evaluated f g x args env context :
  sender_ok (env_sender env) -> (exists id h spec, f = NativeFunction id h spec) \/ is_user_function f = true ->
  (is_user_function f = true -> CallStack_contains x (get_identifier f) = false) ->
  fueled n (g, CallStack_insert x (get_identifier f) (is_user_function f)) ->
  post (g, x) (fun _ => None)
    ((_ ← insert_call (get_identifier f) (is_user_function f);
      '(used_memory, r) ← eval_args eval args env context 0 [];
      resp ← match r with inl e => mret (inl e) | inr values => run_callable eval f values env end;
      _ ← context_drop_memory used_memory;
      _ ← remove_call (get_identifier f) (is_user_function f);
      of_result resp) (g, x)).
Proof.
  intros He Hf Hc Hs. unfold insert_call at 1. unfold mbind at 1, exec_bind at 1. cbn [fst snd].
  pose proof (eval_args_runs args env context 0 [] _ He Hs) as Hargs. unfold mbind at 1, exec_bind at 1.
  destruct (eval_args eval args env context 0 [] _) as [[s2 [e|[used r]]]| |]; try done.
  apply post_callable; try done. by eapply fueled_after.
Qed.

Lemma apply_body_runs f args env context :
  sender_ok (env_sender env) -> runs (Datatypes.S n) (apply_body eval apply f args env context).
Proof.
  intros He [g x] Hs. unfold apply_body, get_stack at 1. unfold mbind at 1, exec_bind at 1. cbn [fst snd].
  destruct (is_user_function f && CallStack_contains x (get_identifier f)) eqn:Hrec; [apply (pres_refl (R := R))|].
  apply andb_false_iff in Hrec. destruct (Nat.leb_spec MAX_CALL_STACK_DEPTH (CallStack_depth x)) as [_|Hd];
    [apply (pres_refl (R := R))|].
  pose proof (fueled_call n g x (get_identifier f) (is_user_function f) Hs Hd) as Hs1.
  assert (is_user_function f = true -> CallStack_contains x (get_identifier f) = false) as Hc.
  { intros Hu. destruct Hrec as [Hrec|]; [congruence|done]. }
  destruct f as [f|id h spec|id f].
  - by apply (post_evaluated (UserFunction f)); [|right|..].
  - apply (post_evaluated (NativeFunction id h spec)); [done|left; eauto|done..].
  - eapply post_call; [done..|by apply special_runs].
Qed.

Lemma eval_body_runs e env context : sender_ok (env_sender env) -> runs n (eval_body apply e env context).
Proof. intros He. unfold eval_body. runs_steps. Qed.
End specials.

(** * The interpreter *)

Lemma apply_fuel_runs n f args env context :
  sender_ok (env_sender env) -> runs n (apply_fuel n f args env context).
Proof.
  revert f args env context. induction n as [|n IH]; intros f args env context He; [intros s [Hn _]; lia|].
  apply apply_body_runs; [|done..]. intros. by apply eval_body_runs.
Qed.

Theorem apply_runs f args env context s :
  sender_ok (env_sender env) -> post s (fun _ => None) (apply f args env context s).
Proof. intros He. apply apply_fuel_runs; [done|apply fueled_enough]. Qed.
Theorem eval_runs e env context s :
  sender_ok (env_sender env) -> post s (fun _ => None) (eval e env context s).
Proof.
  intros He. eapply eval_body_runs; [|done|apply fueled_enough]. intros. by apply apply_fuel_runs.
Qed.
Theorem execute_contract_run c name args (ro : bool) env s :
  sender_ok (env_sender env) -> post s (fun _ => None) (execute_contract eval c name args ro env s).
Proof.
  intros He. apply (execute_contract_runs FUEL); [|done|apply fueled_enough]. intros e env' context He' s' _. by apply eval_runs.
Qed.
End brackets.
End rules.

(** * Conjunctions *)

Section conjunction.
Context {S : Type} `{!ClarityBackingStore S VmError}.
Context (R1 R2 : VmState S -> VmState S -> option VmError -> Prop).
Definition both (s s' : VmState S) (r : option VmError) : Prop := R1 s s' r /\ R2 s s' r.

#[export] Instance both_steps : Steps R1 -> Steps R2 -> Steps both.
Proof.
  intros H1 H2. split; unfold both; intros.
  - split; apply pres_refl.
  - destruct_and!; split; by eapply pres_trans.
  - split; by eapply pres_cost.
  - split; by eapply pres_memory.
  - destruct_and!; split; by eapply pres_drop.
  - split; by eapply pres_assets.
  - split; by eapply pres_events.
Qed.
#[export] Instance both_brackets : Brackets R1 -> Brackets R2 -> Brackets both.
Proof.
  intros H1 H2. split; unfold both; intros; destruct_and!.
  - split; by eapply pres_short.
  - split; by eapply pres_commit.
  - split; by eapply (pres_roll_back ro).
  - split; by eapply pres_open.
  - split; by eapply pres_at_block.
  - split; by eapply pres_call.
  - split; by eapply pres_leak.
Qed.
Lemma both_puts K : puts R1 K -> puts R2 K -> puts both K.
Proof. intros H1 H2 g x k v w Hk Hw. split; [by eapply H1|by eapply H2]. Qed.
End conjunction.
