(* ===== verification/InterpreterFacts.v ===== *)
(** What holds of every program: evaluation ends, whatever the fuel beyond the
    maximal depth of the call stack, the call stack and the nested contexts are
    balanced, contract calls and transactions are atomic, costs stay within the
    limit. *)
From stdpp Require Import base strings numbers list gmap relations.
From Stdlib Require Import ZArith Lia.
From S2P Require Import Prelude Names BTree Types Representations Values C32 RollbackWrapper BackingStore Costs CostFacts ClarityDatabase AssetMap Natives Contexts ContextFacts Interpreter Runs.
#[local] Open Scope Z_scope.

(** * The call stack *)

(** The errors after which the call stack may hold calls that have ended. *)
Definition unbalanced (r : option VmError) : Prop :=
  (exists e, r = Some (Unchecked (CheckCost e))) \/ (exists m, r = Some (Interpreter (InterpreterErrorMsg m))).
(** The error after which nested contexts may be open. *)
Definition left_open (r : option VmError) : Prop :=
  exists t, r = Some (Unchecked (PublicFunctionMustReturnResponse t)).

(** Calls are removed from the stack in the order in which they end. *)
Definition stack_kept {S} (s s' : VmState S) (r : option VmError) : Prop :=
  (exists ended, cs_stack s'.2 = ended ++ cs_stack s.2) /\ (~ unbalanced r -> s'.2 = s.2).

Lemma stack_depth {S} (s s' : VmState S) r : stack_kept s s' r -> (CallStack_depth s.2 <= CallStack_depth s'.2)%nat.
Proof. intros [[ended He] _]. unfold CallStack_depth. rewrite He, length_app. lia. Qed.

Lemma stack_kept_refl {S} (g g' : GlobalContext S) x r : stack_kept (g, x) (g', x) r.
Proof. split; [by exists []|done]. Qed.

Lemma not_unbalanced_None : ~ unbalanced None.
Proof. intros [[? [=]]|[? [=]]]. Qed.
Lemma not_left_open_None : ~ left_open None.
Proof. intros [? [=]]. Qed.
#[global] Instance left_open_dec r : Decision (left_open r).
Proof.
  destruct r as [[[] | | |]|]; first [by left; eexists|right; by intros [? [=]]].
Defined.
#[export] Hint Resolve not_unbalanced_None not_left_open_None stack_kept_refl : runs.

Lemma stack_kept_trans {S} (s1 s2 s3 : VmState S) r : stack_kept s1 s2 None -> stack_kept s2 s3 r -> stack_kept s1 s3 r.
Proof.
  intros [_ H12] [[ended He] H23]. rewrite H12 in * by apply not_unbalanced_None. split; [by exists ended|done].
Qed.

(** Leaving a call. *)
Lemma CallStack_remove_suffix x1 id (track : bool) x2 r' ended stack :
  CallStack_remove x1 id track = Ok (x2, r') -> cs_stack x1 = ended ++ id :: stack ->
  (exists ended', cs_stack x2 = ended' ++ stack) /\ (is_Some (failure r') -> unbalanced (failure r')).
Proof.
  unfold CallStack_remove. intros Hr Hx. rewrite Hx in Hr. destruct ended as [|top ended]; cbn in Hr.
  - destruct (decide (id <> id)); [done|]. repeat case_match; simplify_eq/=.
    all: split; [by exists []|]; by intros [].
  - assert (exists ended', ended ++ id :: stack = ended' ++ stack) as Hex by (exists (ended ++ [id]); by rewrite <-app_assoc).
    repeat case_match; simplify_eq/=; (split; [done|]); try (by intros []). intros _. right. by eexists.
Qed.

Lemma CallStack_remove_insert x id (track : bool) :
  (track = true -> CallStack_contains x id = false) ->
  CallStack_remove (CallStack_insert x id track) id track = Ok (x, inr tt).
Proof.
  intros Hc. unfold CallStack_remove, CallStack_insert. cbn. destruct (decide (id <> id)); [done|].
  destruct x as [stack set]. destruct track; [|done]. cbn. rewrite decide_True by set_solver.
  specialize (Hc eq_refl). apply bool_decide_eq_false in Hc. cbn in Hc. do 3 f_equal. set_solver.
Qed.

Lemma stack_kept_call {S} (g : GlobalContext S) x id (track : bool) g1 x1 x2 r r' :
  (track = true -> CallStack_contains x id = false) ->
  stack_kept (g, CallStack_insert x id track) (g1, x1) r -> CallStack_remove x1 id track = Ok (x2, r') ->
  stack_kept (g, x) (g1, x2) (match r' with inl e => Some e | inr _ => r end) /\ (~ unbalanced r -> r' = inr tt).
Proof.
  intros Hc [[ended He] Hbal] Hr. pose proof (CallStack_remove_suffix _ _ _ _ _ ended (cs_stack x) Hr He) as [Hsuf Hu].
  assert (~ unbalanced r -> r' = inr tt /\ x2 = x) as Hok.
  { intros Hn. cbn in Hbal. rewrite Hbal, CallStack_remove_insert in Hr by done. by simplify_eq. }
  split; [|naive_solver]. split; [done|]. intros Hn. destruct r' as [e|]; [|naive_solver].
  destruct Hn. apply Hu. by eexists.
Qed.

Section facts.
Context {S : Type} `{!ClarityBackingStore S VmError} `{!BackingStoreLaws S VmError} `{!Sha256} `{!Sha512Trunc256} `{!NativeHashes} `{!HeadersDB}.
Context `{!ClaritySerializable U128} `{!ClaritySerializable U64} `{!ClaritySerializable PrincipalData}.
Context `{!ClaritySerializable FungibleTokenMetadata} `{!ClaritySerializable NonFungibleTokenMetadata}.
Context `{!ClaritySerializable DataMapMetadata} `{!ClaritySerializable DataVariableMetadata}.
Context `{!Storable ContractData} `{!ClaritySerializable ContractData}.
#[local] Notation State := (VmState S).

(** A relation that allows every write of contracts, with the call stack. *)
Lemma preserved_any (R : State -> State -> option VmError -> Prop) (K : string -> Prop) :
  Steps R -> Brackets R -> puts R K ->
  (forall k, contract_key k -> K k) -> (forall q k, make_key_for_account_balance q = Ok k -> K k) ->
  (forall s s' r, R s s' r -> (CallStack_depth s.2 <= CallStack_depth s'.2)%nat) ->
  Preserved (fun _ => True) R.
Proof.
  intros HS HB Hput HK Hbal Hd. constructor; [done|done| |done| |].
  - intros g x k v w Hk. apply Hput. auto.
  - intros. by eapply stx_transfer_any.
  - intros. by eapply stx_burn_any.
Qed.

(** * Confinement *)

(** Code changes what [touches] allows, unless it left a context open. *)
Definition confined (s s' : State) (r : option VmError) : Prop :=
  stack_kept s s' r /\ (~ left_open r -> touches s.1 s'.1).

#[export] Instance confined_steps : Steps confined.
Proof.
  split.
  - intros s r. split; [by destruct s; apply stack_kept_refl|]. intros _. apply touch_refl.
  - intros s1 s2 s3 r [Hk12 Ht12] [Hk23 Ht23]. split; [by eapply stack_kept_trans|]. intros Hn.
    eapply touch_trans; eauto with runs.
  - intros. split; [eauto with runs|]. intros _. apply touch_cost.
  - intros. split; [eauto with runs|]. intros _. apply touch_cost.
  - intros s g x r m c [Hk Ht] _. split; [done|]. intros Hn. eapply touch_trans; [by apply Ht|]. apply touch_cost.
  - intros. split; [eauto with runs|]. intros _. by eapply touch_assets.
  - intros. split; [eauto with runs|]. intros _. by eapply touch_events.
Qed.

Lemma confined_puts : puts confined (fun _ => True).
Proof. intros g x k v w _ Hw. split; [eauto with runs|]. intros _. by eapply touch_put. Qed.

Lemma left_open_balanced r : left_open r -> ~ unbalanced r.
Proof. intros [t ->] [[? [=]]|[? [=]]]. Qed.

#[export] Instance confined_brackets : Brackets confined.
Proof.
  split.
  - intros s s' v [[Hs Hk] Ht]. split; [split; [done|]|]; intros _; [apply Hk|apply Ht].
    + intros [[? [=]]|[? [=]]].
    + intros [? [=]].
  - intros g x g1 x1 g2 r [[Hs Hk] Ht] Hc. split; [split; [done|]|]; intros _; [by apply Hk, not_unbalanced_None|].
    apply (touch_commit _ g1 _ r false); [by apply Ht, not_left_open_None|done].
  - intros ro g x g1 x1 g2 r [Hk Ht] Hc. split; [by destruct ro|]. intros Hn.
    by apply (touch_roll_back _ g1 _ ro); [apply Ht|].
  - intros g x s' t [[Hs Hk] _]. split; [split; [done|]|]; [intros _; by apply Hk, not_unbalanced_None|].
    intros []. by eexists.
  - intros g x bhh prior w g1 x1 r bhh' w' g2 Hgo [Hk Ht] Hback Hc. split; [done|]. intros Hn.
    eapply touch_at_block; [done|by apply Ht|done..].
  - intros g x id track g1 x1 x2 r r' Htr [Hk Ht] Hr. destruct (stack_kept_call _ _ _ _ _ _ _ _ _ Htr Hk Hr) as [Hk' Hbal].
    split; [done|]. intros Hn. apply Ht. intros Hopen. by rewrite (Hbal (left_open_balanced _ Hopen)) in Hn.
  - intros g x id s' e [[[ended He] Hk] Ht]. split; [split|].
    + exists (ended ++ [id]). by rewrite <-app_assoc.
    + intros []. left. by eexists.
    + intros _. apply Ht. intros [? [=]].
Qed.

Lemma confined_depth s s' r : confined s s' r -> (CallStack_depth s.2 <= CallStack_depth s'.2)%nat.
Proof. intros [Hk _]. by eapply stack_depth. Qed.

#[export] Instance confined_preserved : Preserved (fun _ => True) confined.
Proof. by eapply preserved_any; [exact _|exact _|apply confined_puts| | |apply confined_depth]. Qed.

(** The runs of the evaluator and of contract calls are confined. *)
Lemma eval_confined e env context s : post confined s (fun _ => None) (eval e env context s).
Proof. by eapply (eval_runs confined_depth). Qed.
Lemma execute_contract_confined c name args (ro : bool) env s :
  post confined s (fun _ => None) (execute_contract eval c name args ro env s).
Proof. by eapply (execute_contract_run confined_depth). Qed.
Lemma execute_apply_confined f args env s : post confined s (fun _ => None) (execute_apply eval f args env s).
Proof.
  eapply (execute_apply_runs confined_depth FUEL); [|exact I|apply fueled_enough]. intros e env' context _ s' _. apply eval_confined.
Qed.

(** * Atomicity *)

(** A call of a public function: what it did is published, or undone. *)
Definition call_outcome (function : DefinedFunction) (g g' : GlobalContext S) (r : VmError + Value) : Prop :=
  if fn_is_read_only function then g' = restored g g'
  else match r with
       | inr (VResponse true _) => exists g1, touches (begin g) g1 /\ published g g1 g'
       | inr (VResponse false _) | inl _ => g' = restored g g'
       | inr _ => False
       end.

Lemma transaction_run (ro : bool) (f : Exec S CallStack Value) g x :
  execute_function_as_transaction ro f (g, x) =
    match f (if ro then begin_read_only g else begin g, x) with
    | Ok (s1, r) => (if ro then _ ← roll_back_; of_result r else handle_tx_result r) s1
    | Err e => Err e
    | Panic => Panic
    end.
Proof.
  unfold execute_function_as_transaction, mbind, exec_bind, modify, attempt. cbn [fst snd].
  destruct ro; by destruct (f _) as [[]| |].
Qed.

Lemma roll_back_result {A} (r r' : VmError + A) (s s' : State) : (_ ← roll_back_; of_result r) s = Ok (s', r') -> r' = r.
Proof.
  unfold mbind, exec_bind, roll_back_, modifyP, of_result. destruct (roll_back s.1) as [|[]|]; cbn; [|done]. by intros [=].
Qed.

Lemma read_only_outcome (f : Exec S CallStack Value) g x g' x' r :
  context_wf g -> post confined (begin_read_only g, x) (fun _ => None) (f (begin_read_only g, x)) ->
  execute_function_as_transaction true f (g, x) = Ok ((g', x'), r) -> ~ left_open (failure r) -> g' = restored g g'.
Proof.
  intros Hwf Hpost Hrun Hn. pose proof Hrun as Hrun1. rewrite transaction_run in Hrun1.
  destruct (f (begin_read_only g, x)) as [[[g1 x1] r1]| |] eqn:E; [|done..].
  apply roll_back_result in Hrun1 as ->.
  assert (touches (begin_read_only g) g1) as Ht by (destruct r1; apply Hpost; exact Hn).
  destruct (read_only_call_restores f g x g1 x1 r1 Hwf E Ht) as [Hrun' _]. rewrite Hrun in Hrun'. by simplify_eq.
Qed.

Lemma public_outcome (f : Exec S CallStack Value) g x g' x' r :
  context_wf g -> asset_maps g <> [] -> post confined (begin g, x) (fun _ => None) (f (begin g, x)) ->
  execute_function_as_transaction false f (g, x) = Ok ((g', x'), r) -> ~ left_open (failure r) ->
  match r with
  | inr (VResponse true _) => exists g1, touches (begin g) g1 /\ published g g1 g'
  | inr (VResponse false _) | inl _ => g' = restored g g'
  | inr _ => False
  end.
Proof.
  intros Hwf Hne Hpost Hrun Hn. pose proof Hrun as Hrun1. rewrite transaction_run in Hrun1.
  destruct (f (begin g, x)) as [[[g1 x1] r1]| |] eqn:E; [|done..].
  destruct (decide (left_open (failure r1))) as [Hl|Hl].
  { exfalso. destruct r1 as [e|]; [|by destruct (not_left_open_None)].
    by apply (roll_back_result (A := Value) (inl e)) in Hrun1 as ->. }
  assert (touches (begin g) g1) as Ht by (destruct r1; apply Hpost; exact Hl).
  pose proof (public_call_atomic f g x g1 x1 r1 Hwf Hne E Ht) as Hout. rewrite Hrun in Hout.
  destruct r1 as [e|v]; [by simplify_eq|].
  destruct v as [| | | | | | | |[] v]; try (destruct (type_of _) as [t|[]|]; cbn in Hout; simplify_eq; destruct Hn; by eexists).
  - destruct Hout as [(g2 & Hout & Hp)|(_ & Hout)]; simplify_eq; [by exists g1|done].
  - by simplify_eq.
Qed.

(** Atomicity of contract calls, whatever the contract: a call ends; a public
    function that returns a committing response has published everything it did
    to the caller's context, and with any other result the caller's context is as
    it was but for the costs; a read-only function never changes it.  The call
    stack is restored as well.  The exceptions are the error after which contexts
    stay open, and the errors after which calls stay on the stack. *)
Theorem contract_call_atomic (function : DefinedFunction) args next env g x :
  context_wf g -> asset_maps g <> [] ->
  match call_as_transaction eval function args next env (g, x) with
  | Ok ((g', x'), r) =>
    (~ unbalanced (failure r) -> x' = x) /\ (~ left_open (failure r) -> call_outcome function g g' r)
  | Err _ => False
  | Panic => True
  end.
Proof.
  intros Hwf Hne.
  assert (post confined (g, x) (fun _ => None) (call_as_transaction eval function args next env (g, x))) as Hpost.
  { eapply (call_as_transaction_runs confined_depth FUEL); [|exact I|apply fueled_enough]. intros e env' c _ s' _. apply eval_confined. }
  destruct (call_as_transaction eval function args next env (g, x)) as [[[g' x'] r]| |] eqn:E; [|done..].
  split; [destruct r; apply Hpost|]. intros Hn. unfold call_outcome. unfold call_as_transaction in E.
  destruct (fn_is_read_only function); [eapply read_only_outcome|eapply public_outcome]; try done; apply execute_apply_confined.
Qed.

(** * Costs *)

(** The total stays within the limit, unless a charge failed. *)
Definition within_limit (s s' : State) (r : option VmError) : Prop :=
  limit (cost_track s'.1) = limit (cost_track s.1) /\
  (~ unbalanced r -> cost_le (total (cost_track s.1)) (limit (cost_track s.1)) ->
   cost_le (total (cost_track s'.1)) (limit (cost_track s'.1))).

Lemma unbalanced_cost e : unbalanced (Some (Unchecked (CheckCost e))).
Proof. left. by eexists. Qed.

Lemma commit_cost_track (g g' : GlobalContext S) r : commit g = Ok (g', r) -> cost_track g' = cost_track g.
Proof. unfold commit. intros Hc. repeat case_match; simplify_eq/=; try done; apply bind_Ok in Hc as (w & _ & Hc); by simplify_eq/=. Qed.
Lemma roll_back_cost_track (g g' : GlobalContext S) : roll_back g = Ok g' -> cost_track g' = cost_track g.
Proof. unfold roll_back. intros Hc. repeat case_match; try done. apply bind_Ok in Hc as (w & _ & Hc). by simplify_eq/=. Qed.
Lemma remove_error x id (track : bool) x' e : CallStack_remove x id track = Ok (x', inl e) -> unbalanced (Some e).
Proof. unfold CallStack_remove. intros Hr. repeat case_match; simplify_eq/=; right; by eexists. Qed.

#[export] Instance within_limit_steps : Steps within_limit.
Proof.
  unfold within_limit. split; cbn [fst].
  - done.
  - intros s1 s2 s3 r [Hl12 H12] [Hl23 H23]. split; [congruence|]. auto with runs.
  - intros g x cost c r Hc Hp. cbn [add_cost limited_tracker] in Hc. unfold limited_add_cost in Hc.
    destruct (ExecutionCost_add _ _) as [t [[]|e|]]; [destruct (exceeds _ _) eqn:E|..]; simplify_eq/=; (split; [done|]).
    all: intros Hn _; first [by apply exceeds_false|by destruct Hn; apply unbalanced_cost].
  - intros g x m c r Hc _. cbn [add_memory limited_tracker] in Hc. unfold limited_add_memory in Hc.
    repeat case_match; by simplify_eq/=.
  - intros s g x r m c [Hl Hw] Hd. cbn [drop_memory limited_tracker] in Hd. unfold limited_drop_memory in Hd.
    destruct (checked_sub 64 _ m); cbn in Hd; by simplify_eq/=.
  - done.
  - done.
Qed.

#[export] Instance within_limit_brackets : Brackets within_limit.
Proof.
  unfold within_limit. split; cbn [fst].
  - intros s s' v [Hl Hw]. split; [done|]. intros _. apply Hw. intros [[? [=]]|[? [=]]].
  - intros g x g1 x1 g2 r [Hl Hw] Hc. rewrite (commit_cost_track _ _ _ Hc). split; [done|]. intros _. auto with runs.
  - intros ro g x g1 x1 g2 r [Hl Hw] Hc. rewrite (roll_back_cost_track _ _ Hc). by destruct ro.
  - intros g x s' t [Hl Hw]. split; [done|]. intros _. auto with runs.
  - intros g x bhh prior w g1 x1 r bhh' w' g2 _ [Hl Hw] _ Hc. by rewrite (roll_back_cost_track _ _ Hc).
  - intros g x id track g1 x1 x2 r r' _ [Hl Hw] Hr. split; [done|]. intros Hn. apply Hw.
    destruct r' as [e|]; [|done]. by apply remove_error in Hr.
  - done.
Qed.

Lemma within_limit_puts K : puts within_limit K.
Proof. done. Qed.

#[local] Notation spends := (both confined within_limit).
Lemma spends_depth s s' r : spends s s' r -> (CallStack_depth s.2 <= CallStack_depth s'.2)%nat.
Proof. intros [Hc _]. by eapply confined_depth. Qed.
#[export] Instance spends_preserved : Preserved (fun _ => True) spends.
Proof.
  by eapply preserved_any;
    [exact _|exact _|apply both_puts; [apply confined_puts|apply within_limit_puts]| | |apply spends_depth].
Qed.

(** C34. No program exceeds its budget: an evaluation that started within the limit
    of the cost tracker in all five dimensions leaves it within the same limit, if
    it ends with a value or with an error other than a cost error and than the
    internal error of the call stack, which may stand in for a cost error. *)
Theorem evaluation_within_limit e env context g x g' x' r :
  cost_le (total (cost_track g)) (limit (cost_track g)) ->
  eval e env context (g, x) = Ok ((g', x'), r) -> ~ unbalanced (failure r) ->
  limit (cost_track g') = limit (cost_track g) /\ cost_le (total (cost_track g')) (limit (cost_track g')).
Proof.
  intros Hle He Hn. pose proof (eval_runs spends_depth e env context (g, x) I) as Hpost. rewrite He in Hpost.
  destruct r as [e'|v]; destruct Hpost as [_ [Hl Hw]]; cbn in *; auto.
Qed.

(** * Traits *)

(** A function that takes a trait can call it, but not from inside a [let] or
    a [match]: in a context that extends another one the contracts passed as
    traits are not visible, and a contract call on one of them is refused. *)
Theorem trait_argument_hidden context inner i contract_ref function_name env (s : State) :
  extend context = Ok inner ->
  call_target (Atom i contract_ref) function_name env inner s = Ok (s, inl (Unchecked ContractCallExpectName)).
Proof. unfold extend. case_match; [done|]. intros [= <-]. cbn. by rewrite lookup_empty. Qed.
End facts.

Create HintDb agree.

Section agree.
Context {S : Type} `{!ClarityBackingStore S VmError} `{!BackingStoreLaws S VmError}.
Context `{!Sha256} `{!Sha512Trunc256} `{!NativeHashes} `{!HeadersDB}.
Context `{!ClaritySerializable U128} `{!ClaritySerializable U64} `{!ClaritySerializable PrincipalData}.
Context `{!ClaritySerializable FungibleTokenMetadata} `{!ClaritySerializable NonFungibleTokenMetadata}.
Context `{!ClaritySerializable DataMapMetadata} `{!ClaritySerializable DataVariableMetadata}.
Context `{!Storable ContractData} `{!ClaritySerializable ContractData}.
#[local] Notation Run := (Exec S CallStack).

(** [m2] does what [m1] does, where the latter does not run out of fuel. *)
Definition agree {A} (m1 m2 : Run A) : Prop := forall s, m1 s = Err out_of_fuel \/ m1 s = m2 s.

Lemma agree_refl {A} (m : Run A) : agree m m.
Proof. by right. Qed.
Lemma agree_bind {A B} (m1 m2 : Run A) (k1 k2 : A -> Run B) :
  agree m1 m2 -> (forall a, agree (k1 a) (k2 a)) -> agree (m1 ≫= k1) (m2 ≫= k2).
Proof.
  intros Hm Hk s. unfold mbind, exec_bind. destruct (Hm s) as [->| ->]; [by left|].
  destruct (m2 s) as [[s' [e|a]]| |]; [by right|apply Hk|by right..].
Qed.
Lemma agree_attempt {A} (m1 m2 : Run A) : agree m1 m2 -> agree (attempt m1) (attempt m2).
Proof. intros Hm s. unfold attempt. destruct (Hm s) as [->| ->]; [by left|by right]. Qed.
Lemma agree_at_block bhh (m1 m2 : Run Value) : agree m1 m2 -> agree (evaluate_at_block bhh m1) (evaluate_at_block bhh m2).
Proof.
  intros Hm s. unfold evaluate_at_block. destruct (wrapper_set_block_hash _ bhh) as [[prior w]| |]; [|by right..].
  destruct (Hm (set_database (begin_read_only s.1) w, s.2)) as [->| ->]; [by left|by right].
Qed.
#[local] Hint Resolve agree_refl agree_attempt agree_at_block : agree.

Ltac agree_step :=
  lazymatch goal with
  | |- agree ?m ?m => apply agree_refl
  | |- agree (_ ≫= _) (_ ≫= _) => apply agree_bind; [|intros ?]
  | |- agree (attempt _) (attempt _) => apply agree_attempt
  | |- agree (match ?x with _ => _ end) (match ?x with _ => _ end) => destruct x
  | |- _ => solve [eauto with agree]
  end.
Ltac agree_steps := repeat agree_step.

Lemma agree_finally {A} used (m1 m2 : Run A) : agree m1 m2 -> agree (finally_drop used m1) (finally_drop used m2).
Proof. intros Hm. unfold finally_drop. agree_steps. Qed.
Lemma agree_transaction (ro : bool) (m1 m2 : Run Value) :
  agree m1 m2 -> agree (execute_function_as_transaction ro m1) (execute_function_as_transaction ro m2).
Proof. intros Hm. unfold execute_function_as_transaction. agree_steps. Qed.
Lemma agree_short_return (m1 m2 : Run Value) : agree m1 m2 -> agree (catch_short_return m1) (catch_short_return m2).
Proof. intros Hm. unfold catch_short_return. agree_steps. Qed.
Lemma agree_with_call {A} id (track : bool) (m1 m2 : Run A) : agree m1 m2 -> agree (with_call id track m1) (with_call id track m2).
Proof. intros Hm. unfold with_call. agree_steps. Qed.
#[local] Hint Resolve agree_finally agree_transaction agree_short_return agree_with_call : agree.

Section specials.
Context (eval1 eval2 : SymbolicExpression -> Environment -> LocalContext -> Run Value).
Context (apply1 apply2 : CallableType -> list SymbolicExpression -> Environment -> LocalContext -> Run Value).
Hypothesis Heval : forall e env context, agree (eval1 e env context) (eval2 e env context).
Hypothesis Happly : forall f args env context, agree (apply1 f args env context) (apply2 f args env context).
Implicit Types (args : list SymbolicExpression) (env : Environment) (context : LocalContext).
#[local] Hint Resolve Heval Happly : agree.

(** The loops. *)
Lemma eval_list_agree args env context : agree (eval_list eval1 args env context) (eval_list eval2 args env context).
Proof. induction args; cbn [eval_list]; agree_steps. Qed.
Lemma or_loop_agree args env context : agree (or_loop eval1 args env context) (or_loop eval2 args env context).
Proof. induction args; cbn [or_loop]; agree_steps. Qed.
Lemma and_loop_agree args env context : agree (and_loop eval1 args env context) (and_loop eval2 args env context).
Proof. induction args; cbn [and_loop]; agree_steps. Qed.
Lemma parse_eval_bindings_agree args env context :
  agree (parse_eval_bindings eval1 args env context) (parse_eval_bindings eval2 args env context).
Proof. induction args; cbn [parse_eval_bindings]; agree_steps. Qed.
Lemma eval_bodies_agree o args env context : agree (eval_bodies eval1 o args env context) (eval_bodies eval2 o args env context).
Proof. revert o. induction args; intros o; cbn [eval_bodies]; agree_steps. Qed.
Lemma let_bindings_agree args env context c used :
  agree (let_bindings eval1 args env context c used) (let_bindings eval2 args env context c used).
Proof. revert c used. induction args; intros c used; cbn [let_bindings]; unfold let_binding; agree_steps. Qed.
Lemma filter_loop_agree {A} wrap_item f (items : list A) env context :
  agree (filter_loop apply1 wrap_item f items env context) (filter_loop apply2 wrap_item f items env context).
Proof. induction items; cbn [filter_loop]; agree_steps. Qed.
Lemma fold_loop_agree f acc items env context :
  agree (fold_loop apply1 f acc items env context) (fold_loop apply2 f acc items env context).
Proof. revert acc. induction items; intros acc; cbn [fold_loop]; agree_steps. Qed.
Lemma map_loop_agree f items env context : agree (map_loop apply1 f items env context) (map_loop apply2 f items env context).
Proof. induction items; cbn [map_loop]; agree_steps. Qed.
Lemma eval_args_agree args env context used acc :
  agree (eval_args eval1 args env context used acc) (eval_args eval2 args env context used acc).
Proof. revert used acc. induction args; intros used acc; cbn [eval_args]; agree_steps. Qed.
#[local] Hint Resolve eval_list_agree or_loop_agree and_loop_agree parse_eval_bindings_agree eval_bodies_agree : agree.
#[local] Hint Resolve let_bindings_agree filter_loop_agree fold_loop_agree map_loop_agree eval_args_agree : agree.

Lemma tuple_cons_agree args env context : agree (tuple_cons eval1 args env context) (tuple_cons eval2 args env context).
Proof. unfold tuple_cons. agree_steps. Qed.
#[local] Hint Resolve tuple_cons_agree : agree.
Lemma tuple_argument_agree arg env context :
  agree (eval_tuple_argument eval1 arg env context) (eval_tuple_argument eval2 arg env context).
Proof. unfold eval_tuple_argument. agree_steps. Qed.
Lemma execute_apply_agree f vs env : agree (execute_apply eval1 f vs env) (execute_apply eval2 f vs env).
Proof. unfold execute_apply. agree_steps. Qed.
#[local] Hint Resolve tuple_argument_agree execute_apply_agree : agree.
Lemma function_apply_agree f vs env : agree (function_apply eval1 f vs env) (function_apply eval2 f vs env).
Proof. unfold function_apply, call_as_transaction. agree_steps. Qed.
Lemma execute_contract_agree c name args (ro : bool) env :
  agree (execute_contract eval1 c name args ro env) (execute_contract eval2 c name args ro env).
Proof.
  unfold execute_contract, call_as_transaction. do 3 (agree_step; [agree_step|]). apply agree_finally. agree_steps.
Qed.
#[local] Hint Resolve function_apply_agree execute_contract_agree : agree.

Ltac unfold_heads m1 m2 :=
  lazymatch m1 with
  | ?f _ => lazymatch m2 with ?h _ => unfold_heads f h end
  | ?f => unfold f
  end.
Lemma special_agree f args env context :
  agree (special eval1 apply1 f args env context) (special eval2 apply2 f args env context).
Proof.
  destruct f; cbn [special];
    lazymatch goal with
    | |- agree (special_match _ _ _ _) _ => unfold special_match, special_match_resp, special_match_opt, eval_with_new_binding
    | |- agree (special_set_entry _ _ _ _) _ => unfold special_set_entry, write_entry
    | |- agree (special_insert_entry _ _ _ _) _ => unfold special_insert_entry, write_entry
    | |- agree ?m1 ?m2 => first [solve [eauto with agree]|unfold_heads m1 m2]
    end; agree_steps; apply agree_finally; agree_steps.
Qed.

Lemma apply_body_agree f args env context :
  agree (apply_body eval1 apply1 f args env context) (apply_body eval2 apply2 f args env context).
Proof.
  unfold apply_body, run_callable. agree_steps; apply agree_with_call, special_agree.
Qed.
Lemma eval_body_agree e env context : agree (eval_body apply1 e env context) (eval_body apply2 e env context).
Proof. unfold eval_body. agree_steps. Qed.
End specials.

Lemma apply_fuel_agree n m f args env context :
  (n <= m)%nat -> agree (apply_fuel n f args env context) (apply_fuel m f args env context).
Proof.
  revert m f args env context. induction n as [|n IH]; intros m f args env context Hm; [by left|].
  destruct m as [|m]; [lia|]. assert (n <= m)%nat as Hnm by lia.
  apply apply_body_agree; intros; [apply eval_body_agree; intros|]; by apply IH.
Qed.

(** C1. Evaluation ends, whatever the program: the recursion of [apply] is
    bounded by the maximal depth of the call stack, so that fuel for that depth is
    never used up, and any larger amount gives the same result. *)
Theorem evaluation_terminates n e env context s :
  (FUEL <= n)%nat ->
  eval e env context s <> Err out_of_fuel /\ eval_body (apply_fuel n) e env context s = eval e env context s.
Proof.
  intros Hn. assert (eval e env context s <> Err out_of_fuel) as Hend.
  { pose proof (eval_confined e env context s) as Hpost. by destruct (eval e env context s). }
  split; [done|]. destruct (eval_body_agree apply (apply_fuel n) (fun f args env' c => apply_fuel_agree _ _ f args env' c Hn)
    e env context s) as [Hbad|Heq]; [done|]. by rewrite <-Heq.
Qed.
End agree.
