(* ===== verification/Define.v ===== *)
(** Contracts: definitions (src/vm/functions/define.rs), the evaluation of a
    contract at its launch ([eval_all] of src/vm/mod.rs, src/vm/contracts.rs), and
    the transactions of src/vm/contexts.rs. *)
From stdpp Require Import base strings numbers list gmap.
From Stdlib Require Import ZArith Lia.
From S2P Require Import Prelude Names BTree Types Representations Values C32 RollbackWrapper BackingStore Costs AssetMap ClarityDatabase Natives TypeParser Contexts Interpreter.
#[local] Open Scope Z_scope.

(** * Definitions *)

Inductive DefineFunctions :=
| Constant | PrivateFunction | PublicFunction | ReadOnlyFunction | Map_ | PersistedVariable | FungibleToken_
| NonFungibleToken_ | Trait_ | UseTrait | ImplTrait.

Definition define_names : list (string * DefineFunctions) :=
  [("define-constant", Constant); ("define-private", PrivateFunction); ("define-public", PublicFunction);
   ("define-read-only", ReadOnlyFunction); ("define-map", Map_); ("define-data-var", PersistedVariable);
   ("define-fungible-token", FungibleToken_); ("define-non-fungible-token", NonFungibleToken_);
   ("define-trait", Trait_); ("use-trait", UseTrait); ("impl-trait", ImplTrait)].

(** [DefineFunctionsParsed]; the three kinds of functions share a constructor. *)
Inductive DefineFunctionsParsed :=
| P_Constant (name : string) (value : SymbolicExpression)
| P_Function (define_type : DefineType) (signature : list SymbolicExpression) (body : SymbolicExpression)
| P_NonFungibleToken (name : string) (nft_type : SymbolicExpression)
| P_BoundedFungibleToken (name : string) (max_supply : SymbolicExpression)
| P_UnboundedFungibleToken (name : string)
| P_Map (name : string) (key_type value_type : SymbolicExpression)
| P_PersistedVariable (name : string) (data_type initial : SymbolicExpression)
| P_Trait (name : string) (functions : list SymbolicExpression)
| P_UseTrait (name : string) (trait_identifier : TraitIdentifier)
| P_ImplTrait (trait_identifier : TraitIdentifier).

Inductive DefineResult :=
| D_Variable (name : string) (value : Value)
| D_Function (name : string) (function : DefinedFunction)
| D_Map (name : string) (key_type value_type : list (string * TypeSignature))
| D_PersistedVariable (name : string) (value_type : TypeSignature) (value : Value)
| D_FungibleToken (name : string) (total_supply : option Z)
| D_NonFungibleAsset (name : string) (asset_type : TypeSignature)
| D_Trait (name : string) (trait_type : list (string * FunctionSignature))
| D_UseTrait (name : string) (trait_identifier : TraitIdentifier)
| D_ImplTrait (trait_identifier : TraitIdentifier)
| D_NoDefine.

(** [DefineFunctions::try_parse]. *)
Definition define_try_parse (expression : SymbolicExpression) : option (DefineFunctions * list SymbolicExpression) :=
  match match_list expression with
  | Some (function_name :: args) =>
    match match_atom function_name with
    | Some function_name =>
      match lookup_by_name define_names function_name with
      | Some define_type => Some (define_type, args)
      | None => None
      end
    | None => None
    end
  | _ => None
  end.

(** [args[0].match_atom().ok_or(ExpectedName)?] *)
Definition define_name (x : SymbolicExpression) : Res VmError string := ok_or (match_atom x) (Unchecked ExpectedName).

Definition parse_function (define_type : DefineType) (args : list SymbolicExpression) : Res VmError DefineFunctionsParsed :=
  _ ← check_argument_count 2 args;
  match args with
  | [signature; body] =>
    signature ← ok_or (match_list signature) (Unchecked DefineFunctionBadSignature);
    Ok (P_Function define_type signature body)
  | _ => Panic
  end.

Definition expect_field (x : SymbolicExpression) : Res VmError TraitIdentifier :=
  match x with
  | Field _ field => Ok field
  | _ => Err (Unchecked ExpectedTraitIdentifier)
  end.

(** [DefineFunctionsParsed::try_parse], with the arguments of the definition.  A
    fungible token without arguments makes it panic. *)
Definition parse_define (define_type : DefineFunctions) (args : list SymbolicExpression) : Res VmError DefineFunctionsParsed :=
  match define_type with
  | Constant =>
    _ ← check_argument_count 2 args;
    match args with [x; value] => name ← define_name x; Ok (P_Constant name value) | _ => Panic end
  | PrivateFunction => parse_function DefinePrivate args
  | ReadOnlyFunction => parse_function DefineReadOnly args
  | PublicFunction => parse_function DefinePublic args
  | NonFungibleToken_ =>
    _ ← check_argument_count 2 args;
    match args with [x; nft_type] => name ← define_name x; Ok (P_NonFungibleToken name nft_type) | _ => Panic end
  | FungibleToken_ =>
    match args with
    | [] => Panic
    | x :: rest =>
      name ← define_name x;
      match rest with
      | [] => Ok (P_UnboundedFungibleToken name)
      | [max_supply] => Ok (P_BoundedFungibleToken name max_supply)
      | _ => Err (Unchecked (IncorrectArgumentCount 1 (Z.of_nat (length args))))
      end
    end
  | Map_ =>
    _ ← check_argument_count 3 args;
    match args with [x; k; v] => name ← define_name x; Ok (P_Map name k v) | _ => Panic end
  | PersistedVariable =>
    _ ← check_argument_count 3 args;
    match args with [x; data_type; initial] => name ← define_name x; Ok (P_PersistedVariable name data_type initial) | _ => Panic end
  | Trait_ =>
    _ ← check_argument_count 2 args;
    match args with x :: functions => name ← define_name x; Ok (P_Trait name functions) | [] => Panic end
  | UseTrait =>
    _ ← check_argument_count 2 args;
    match args with
    | [x; field] => name ← define_name x; trait_identifier ← expect_field field; Ok (P_UseTrait name trait_identifier)
    | _ => Panic
    end
  | ImplTrait =>
    _ ← check_argument_count 1 args;
    match args with [field] => trait_identifier ← expect_field field; Ok (P_ImplTrait trait_identifier) | _ => Panic end
  end.

Definition define_parsed_try_parse (expression : SymbolicExpression) : Res VmError (option DefineFunctionsParsed) :=
  match define_try_parse expression with
  | Some (define_type, args) => result ← parse_define define_type args; Ok (Some result)
  | None => Ok None
  end.

Section define.
Context {S : Type} `{!ClarityBackingStore S VmError} `{!Sha256} `{!Sha512Trunc256} `{!NativeHashes} `{!HeadersDB}.
Context `{!ClaritySerializable U128} `{!ClaritySerializable U64} `{!ClaritySerializable PrincipalData}.
Context `{!ClaritySerializable FungibleTokenMetadata} `{!ClaritySerializable NonFungibleTokenMetadata}.
Context `{!ClaritySerializable DataMapMetadata} `{!ClaritySerializable DataVariableMetadata}.
Context `{!Storable ContractData} `{!ClaritySerializable ContractData}.

#[local] Notation Run := (Exec S CallStack).

Definition check_legal_define (name : string) (contract_context : ContractContext) : Res VmError unit :=
  if is_name_used contract_context name then Err (Unchecked (NameAlreadyUsed name)) else Ok tt.

(** Parsing of types, charged to the context. *)
Definition charged {X A} (m : Charged LimitedCostTracker A) : Exec S X A := fun s =>
  let '(c, r) := m (cost_track s.1) in
  lift_res (map_err Unchecked r) (set_cost_track s.1 c, s.2).

Definition handle_define_variable (variable : string) (expression : SymbolicExpression) (env : Environment) : Run DefineResult :=
  _ ← lift_res (check_legal_define variable (contract_context_ env));
  value ← eval expression env LocalContext_new;
  mret (D_Variable variable value).

Fixpoint check_legal_arguments (arguments : list (string * TypeSignature)) (c : ContractContext) : Res VmError unit :=
  match arguments with
  | [] => Ok tt
  | (argument, _) :: arguments => _ ← check_legal_define argument c; check_legal_arguments arguments c
  end.

Definition handle_define_function (signature : list SymbolicExpression) (expression : SymbolicExpression) (env : Environment)
    (define_type : DefineType) : Run DefineResult :=
  match signature with
  | [] => check_err DefineFunctionBadSignature
  | function_symbol :: arg_symbols =>
    function_name ← some_or (match_atom function_symbol) ExpectedName;
    _ ← lift_res (check_legal_define function_name (contract_context_ env));
    arguments ← charged (parse_name_type_pairs arg_symbols);
    _ ← lift_res (check_legal_arguments arguments (contract_context_ env));
    c ← contract_to_string (own_contract env);
    mret (D_Function function_name (DefinedFunction_new arguments expression define_type function_name c))
  end.

Definition handle_define_persisted_variable (variable_str : string) (value_type value : SymbolicExpression)
    (env : Environment) : Run DefineResult :=
  _ ← lift_res (check_legal_define variable_str (contract_context_ env));
  value_type_signature ← charged (parse_type_repr value_type);
  value ← eval value env LocalContext_new;
  mret (D_PersistedVariable variable_str value_type_signature value).

Definition handle_define_nonfungible_asset (asset_name : string) (key_type : SymbolicExpression) (env : Environment)
  : Run DefineResult :=
  _ ← lift_res (check_legal_define asset_name (contract_context_ env));
  key_type_signature ← charged (parse_type_repr key_type);
  mret (D_NonFungibleAsset asset_name key_type_signature).

Definition handle_define_fungible_token (asset_name : string) (total_supply : option SymbolicExpression) (env : Environment)
  : Run DefineResult :=
  _ ← lift_res (check_legal_define asset_name (contract_context_ env));
  match total_supply with
  | Some total_supply_expr =>
    total_supply_value ← eval total_supply_expr env LocalContext_new;
    match total_supply_value with
    | VUInt total_supply_int => mret (D_FungibleToken asset_name (Some total_supply_int))
    | _ => check_err (TypeValueError UIntType total_supply_value)
    end
  | None => mret (D_FungibleToken asset_name None)
  end.

Definition handle_define_map (map_str : string) (key_type value_type : SymbolicExpression) (env : Environment)
  : Run DefineResult :=
  _ ← lift_res (check_legal_define map_str (contract_context_ env));
  key_type_signature ← charged (parse_name_type_pair_list key_type);
  value_type_signature ← charged (parse_name_type_pair_list value_type);
  mret (D_Map map_str key_type_signature value_type_signature).

Definition handle_define_trait (name : string) (functions : list SymbolicExpression) (env : Environment) : Run DefineResult :=
  _ ← lift_res (check_legal_define name (contract_context_ env));
  trait_signature ← charged (parse_trait_type_repr functions);
  mret (D_Trait name trait_signature).

Definition evaluate_define (expression : SymbolicExpression) (env : Environment) : Run DefineResult :=
  parsed ← lift_res (define_parsed_try_parse expression);
  match parsed with
  | None => mret D_NoDefine
  | Some (P_Constant name value) => handle_define_variable name value env
  | Some (P_Function define_type signature body) => handle_define_function signature body env define_type
  | Some (P_NonFungibleToken name nft_type) => handle_define_nonfungible_asset name nft_type env
  | Some (P_BoundedFungibleToken name max_supply) => handle_define_fungible_token name (Some max_supply) env
  | Some (P_UnboundedFungibleToken name) => handle_define_fungible_token name None env
  | Some (P_Map name key_type value_type) => handle_define_map name key_type value_type env
  | Some (P_PersistedVariable name data_type initial) => handle_define_persisted_variable name data_type initial env
  | Some (P_Trait name functions) => handle_define_trait name functions env
  | Some (P_UseTrait name trait_identifier) => mret (D_UseTrait name trait_identifier)
  | Some (P_ImplTrait trait_identifier) => mret (D_ImplTrait trait_identifier)
  end.

(** * The evaluation of a contract *)

(** The contract under definition is the other state of [eval_all]. *)
#[local] Notation Defining := (Exec S ContractContext).

Definition get_context : Defining ContractContext := fun s => Ok (s, inr s.2).
Definition modify_context (f : ContractContext -> ContractContext) : Defining unit := fun s => Ok ((s.1, f s.2), inr tt).

Definition insert_variable (name : string) (value : Value) (c : ContractContext) : ContractContext :=
  mkContractContext (cx_contract_identifier c) (<[name := value]> (cx_variables c)) (cx_functions c) (cx_defined_traits c)
    (cx_implemented_traits c) (cx_persisted_names c) (cx_data_size c).
Definition insert_function (name : string) (value : DefinedFunction) (c : ContractContext) : ContractContext :=
  mkContractContext (cx_contract_identifier c) (cx_variables c) (<[name := value]> (cx_functions c)) (cx_defined_traits c)
    (cx_implemented_traits c) (cx_persisted_names c) (cx_data_size c).
Definition insert_trait (name : string) (t : list (string * FunctionSignature)) (c : ContractContext) : ContractContext :=
  mkContractContext (cx_contract_identifier c) (cx_variables c) (cx_functions c) (<[name := t]> (cx_defined_traits c))
    (cx_implemented_traits c) (cx_persisted_names c) (cx_data_size c).
Definition insert_implemented (t : TraitIdentifier) (c : ContractContext) : ContractContext :=
  mkContractContext (cx_contract_identifier c) (cx_variables c) (cx_functions c) (cx_defined_traits c)
    ({[t]} ∪ cx_implemented_traits c) (cx_persisted_names c) (cx_data_size c).
Definition insert_persisted (name : string) (c : ContractContext) : ContractContext :=
  mkContractContext (cx_contract_identifier c) (cx_variables c) (cx_functions c) (cx_defined_traits c)
    (cx_implemented_traits c) ({[name]} ∪ cx_persisted_names c) (cx_data_size c).
Definition set_data_size (data_size : Z) (c : ContractContext) : ContractContext :=
  mkContractContext (cx_contract_identifier c) (cx_variables c) (cx_functions c) (cx_defined_traits c)
    (cx_implemented_traits c) (cx_persisted_names c) data_size.

(** Code of the interpreter, in an environment of its own: a new call stack, no
    sender and no caller. *)
Definition in_new_environment {A} (m : Environment -> Run A) : Defining A := fun s =>
  match m (mkEnvironment s.2 None None) (s.1, CallStack_new) with
  | Ok ((g, _), r) => Ok ((g, s.2), r)
  | Err e => Err e
  | Panic => Panic
  end.

(** [global_context.add_memory(t.type_size().expect(..) as u64)?] *)
Definition add_signature_memory (t : TypeSignature) : Defining unit :=
  m ← lift_res (expect (type_size t)); context_add_memory m.

(** What [eval_all] does with a definition: the memory that stays in use, and the
    value of an expression that is not a definition. *)
Definition apply_define (exp : SymbolicExpression) (try_define : DefineResult) : Defining (Z * option Value) :=
  contract_context ← get_context;
  let contract_identifier := cx_contract_identifier contract_context in
  match try_define with
  | D_Variable name value =>
    _ ← env_cost cost_functions.BIND_NAME 0;
    value_memory_use ← lift_res (get_memory_use value);
    _ ← context_add_memory value_memory_use;
    _ ← modify_context (insert_variable name value);
    mret (value_memory_use, None)
  | D_Function name value =>
    _ ← env_cost cost_functions.BIND_NAME 0;
    _ ← modify_context (insert_function name value);
    mret (0, None)
  | D_PersistedVariable name value_type value =>
    s ← lift_res (size value_type);
    _ ← env_cost cost_functions.CREATE_VAR s;
    _ ← modify_context (insert_persisted name);
    _ ← add_signature_memory value_type;
    value_size ← lift_res (value_size value);
    _ ← context_add_memory value_size;
    _ ← on_database (create_variable contract_identifier name value_type);
    _ ← on_database (set_variable contract_identifier name value);
    mret (0, None)
  | D_Map name key_type value_type =>
    k ← lift_res (size (TupleType key_type));
    v ← lift_res (size (TupleType value_type));
    input ← lift_res (map_err (fun e => Unchecked (CheckCost e)) (cost_overflow_add k v));
    _ ← env_cost cost_functions.CREATE_MAP input;
    _ ← modify_context (insert_persisted name);
    _ ← add_signature_memory (TupleType key_type);
    _ ← add_signature_memory (TupleType value_type);
    _ ← on_database (create_map contract_identifier name key_type value_type);
    mret (0, None)
  | D_FungibleToken name total_supply =>
    _ ← env_cost cost_functions.CREATE_FT 0;
    _ ← modify_context (insert_persisted name);
    _ ← add_signature_memory UIntType;
    _ ← on_database (create_fungible_token contract_identifier name total_supply);
    mret (0, None)
  | D_NonFungibleAsset name asset_type =>
    s ← lift_res (size asset_type);
    _ ← env_cost cost_functions.CREATE_NFT s;
    _ ← modify_context (insert_persisted name);
    _ ← add_signature_memory asset_type;
    _ ← on_database (create_non_fungible_token contract_identifier name asset_type);
    mret (0, None)
  | D_Trait name trait_type => _ ← modify_context (insert_trait name trait_type); mret (0, None)
  | D_UseTrait _ _ => mret (0, None)
  | D_ImplTrait trait_identifier => _ ← modify_context (insert_implemented trait_identifier); mret (0, None)
  | D_NoDefine =>
    result ← Contexts.execute (in_new_environment (fun env => eval exp env LocalContext_new));
    mret (0, Some result)
  end.

(** The loop of [eval_all], with the memory in use at its end or at the first
    error. *)
Fixpoint eval_all_loop (expressions : list SymbolicExpression) (total_memory_use : Z) (last_executed : option Value)
  : Defining (Z * (VmError + option Value)) :=
  match expressions with
  | [] => mret (total_memory_use, inr last_executed)
  | exp :: expressions =>
    r ← attempt (try_define ← Contexts.execute (in_new_environment (evaluate_define exp)); apply_define exp try_define);
    match r with
    | inl e => mret (total_memory_use, inl e)
    | inr (used, executed) =>
      eval_all_loop expressions (wrap 64 (total_memory_use + used))
        (match executed with Some _ => executed | None => last_executed end)
    end
  end.

Definition eval_all (expressions : list SymbolicExpression) : Defining (option Value) :=
  '(total_memory_use, r) ← eval_all_loop expressions 0 None;
  _ ← match r with
      | inr _ => modify_context (set_data_size total_memory_use)
      | inl _ => mret tt
      end;
  _ ← context_drop_memory total_memory_use;
  of_result r.

(** [Contract::initialize_from_ast]. *)
Definition initialize_from_ast (contract_identifier : QualifiedContractIdentifier) (expressions : list SymbolicExpression)
  : Run ContractData := fun s =>
  match eval_all expressions (s.1, ContractContext_new contract_identifier) with
  | Ok ((g, c), inr _) => Ok ((g, s.2), inr (mkContract c))
  | Ok ((g, _), inl e) => Ok ((g, s.2), inl e)
  | Err e => Err e
  | Panic => Panic
  end.

(** * Transactions *)

(** The closure of [initialize_contract_from_ast]. *)
Definition initialize_closure (contract_identifier : QualifiedContractIdentifier) (contract_content : list SymbolicExpression)
    (contract_string : string) : Run ContractData :=
  _ ← env_cost cost_functions.CONTRACT_STORAGE (str_len contract_string);
  has ← on_database (has_contract contract_identifier);
  if (has : bool) then
    c ← contract_to_string contract_identifier; check_err (ContractAlreadyExists c)
  else
    _ ← on_database (insert_contract_hash contract_identifier contract_string);
    let memory_use := wrap 64 (str_len contract_string) in
    _ ← context_add_memory memory_use;
    finally_drop memory_use (initialize_from_ast contract_identifier contract_content).

(** [Environment::initialize_contract_from_ast]; an error of
    [set_contract_data_size] leaves the context open. *)
Definition initialize_contract_from_ast (contract_identifier : QualifiedContractIdentifier)
    (contract_content : list SymbolicExpression) (contract_string : string) : Run unit :=
  _ ← modify begin;
  result ← attempt (initialize_closure contract_identifier contract_content contract_string);
  match result with
  | inr contract =>
    let data_size := cx_data_size (contract_context contract) in
    _ ← on_database (insert_contract contract_identifier contract);
    _ ← on_database (set_contract_data_size contract_identifier data_size);
    _ ← commit_;
    mret tt
  | inl e => _ ← roll_back_; throw e
  end.

(** [OwnedEnvironment]: its global context and call stack are the state, its
    default contract is the transient one. *)
Definition default_contract : ContractContext :=
  ContractContext_new (mkContractId (mkStandard 1 (replicate 20 1)) "__transient").
Definition get_exec_environment (sender : option Value) : Environment := mkEnvironment default_contract sender sender.

Definition execute_transaction (sender : PrincipalData) (contract_identifier : QualifiedContractIdentifier)
    (tx_name : string) (args : list SymbolicExpression) : Run (Value * AssetMap * EventBatch) :=
  execute_in_env
    (execute_contract eval contract_identifier tx_name args false (get_exec_environment (Some (VPrincipal sender)))).

Definition owned_initialize_contract_from_ast (contract_identifier : QualifiedContractIdentifier)
    (contract_content : list SymbolicExpression) (contract_string : string) : Run (unit * AssetMap * EventBatch) :=
  execute_in_env (initialize_contract_from_ast contract_identifier contract_content contract_string).

(** [Environment::eval_read_only] and [eval_raw], with the program parsed.  The
    former leaves its context open when there is no such contract. *)
Definition eval_read_only (contract_identifier : QualifiedContractIdentifier) (parsed : list SymbolicExpression)
    (env : Environment) : Run Value :=
  match parsed with
  | [] => throw (Runtime (ParseError "Expected a program of at least length 1"))
  | program :: _ =>
    _ ← modify begin;
    contract ← on_database (get_contract contract_identifier);
    result ← attempt (eval program (mkEnvironment (contract_context contract) (env_sender env) (env_caller env)) LocalContext_new);
    _ ← roll_back_;
    of_result result
  end.
Definition eval_raw (parsed : list SymbolicExpression) (env : Environment) : Run Value :=
  match parsed with
  | [] => throw (Runtime (ParseError "Expected a program of at least length 1"))
  | program :: _ => eval program env LocalContext_new
  end.
End define.
