(* ===== verification/Ast.v ===== *)
(** Syntax trees before and after the passes of src/vm/ast: the expressions of the
    parser ([PreSymbolicExpression] of src/vm/representations.rs), the errors of
    src/vm/ast/errors.rs, [ContractAST] with the draining of its expressions
    (src/vm/ast/types.rs), and the passes that need no graph:
    [StackDepthChecker], [ExpressionIdentifier], [TraitsResolver] and
    [SugarExpander]. *)
From stdpp Require Import base strings numbers list gmap.
From Stdlib Require Import ZArith Lia.
From S2P Require Import Prelude Names Types Representations Values Costs Interpreter Define.
#[local] Open Scope Z_scope.

(** * Expressions of the parser *)

Record Span := mkSpan { start_line : Z; start_column : Z; end_line : Z; end_column : Z }.
Definition Span_zero : Span := mkSpan 0 0 0 0.

(** The fields [id] and [span] of an expression. *)
Record Label := mkLabel { label_id : Z; label_span : Span }.
(** [PreSymbolicExpression::cons]. *)
Definition fresh_label : Label := mkLabel 0 Span_zero.

(** [PreSymbolicExpression] with its [PreSymbolicExpressionType]. *)
Inductive PreSymbolicExpression :=
| PreAtomValue (b : Label) (v : Value)
| PreAtom (b : Label) (n : string)
| PreList (b : Label) (l : list PreSymbolicExpression)
| PreTuple (b : Label) (l : list PreSymbolicExpression)
| PreSugaredContractIdentifier (b : Label) (contract_name : string)
| PreSugaredFieldIdentifier (b : Label) (contract_name n : string)
| PreFieldIdentifier (b : Label) (t : TraitIdentifier)
| PreTraitReference (b : Label) (n : string).

Definition pre_label (e : PreSymbolicExpression) : Label :=
  match e with
  | PreAtomValue b _ | PreAtom b _ | PreList b _ | PreTuple b _ | PreSugaredContractIdentifier b _
  | PreSugaredFieldIdentifier b _ _ | PreFieldIdentifier b _ | PreTraitReference b _ => b
  end.
Definition pre_id (e : PreSymbolicExpression) : Z := label_id (pre_label e).

Definition with_label (e : PreSymbolicExpression) (b : Label) : PreSymbolicExpression :=
  match e with
  | PreAtomValue _ v => PreAtomValue b v
  | PreAtom _ n => PreAtom b n
  | PreList _ l => PreList b l
  | PreTuple _ l => PreTuple b l
  | PreSugaredContractIdentifier _ c => PreSugaredContractIdentifier b c
  | PreSugaredFieldIdentifier _ c n => PreSugaredFieldIdentifier b c n
  | PreFieldIdentifier _ t => PreFieldIdentifier b t
  | PreTraitReference _ n => PreTraitReference b n
  end.
Definition pre_set_id (id : Z) (e : PreSymbolicExpression) : PreSymbolicExpression :=
  with_label e (mkLabel id (label_span (pre_label e))).
Definition set_span (e : PreSymbolicExpression) (start_line start_column end_line end_column : Z)
  : PreSymbolicExpression :=
  with_label e (mkLabel (pre_id e) (mkSpan start_line start_column end_line end_column)).

Definition pre_match_list (e : PreSymbolicExpression) : option (list PreSymbolicExpression) :=
  match e with PreList _ l => Some l | _ => None end.
Definition pre_match_atom (e : PreSymbolicExpression) : option string :=
  match e with PreAtom _ n => Some n | _ => None end.

(** Induction through the lists of subexpressions. *)
Section pre_induction.
Context (P : PreSymbolicExpression -> Prop).
Hypothesis (Hvalue : forall b v, P (PreAtomValue b v)).
Hypothesis (Hatom : forall b n, P (PreAtom b n)).
Hypothesis (Hlist : forall b l, Forall P l -> P (PreList b l)).
Hypothesis (Htuple : forall b l, Forall P l -> P (PreTuple b l)).
Hypothesis (Hcontract : forall b c, P (PreSugaredContractIdentifier b c)).
Hypothesis (Hsugared : forall b c n, P (PreSugaredFieldIdentifier b c n)).
Hypothesis (Hfield : forall b t, P (PreFieldIdentifier b t)).
Hypothesis (Htrait : forall b n, P (PreTraitReference b n)).

Fixpoint pre_ind' (e : PreSymbolicExpression) : P e :=
  let all := fix all (l : list PreSymbolicExpression) : Forall P l :=
    match l with [] => Forall_nil_2 _ | x :: l => Forall_cons_2 _ _ _ (pre_ind' x) (all l) end in
  match e with
  | PreAtomValue b v => Hvalue b v
  | PreAtom b n => Hatom b n
  | PreList b l => Hlist b l (all l)
  | PreTuple b l => Htuple b l (all l)
  | PreSugaredContractIdentifier b c => Hcontract b c
  | PreSugaredFieldIdentifier b c n => Hsugared b c n
  | PreFieldIdentifier b t => Hfield b t
  | PreTraitReference b n => Htrait b n
  end.
End pre_induction.

(** * Errors *)

Module ParseErrors.
Inductive t :=
| CostOverflow
| CostBalanceExceeded (total limit : ExecutionCost)
| MemoryBalanceExceeded (used limit : Z)
| TooManyExpressions
| ExpressionStackDepthTooDeep
| FailedCapturingInput
| SeparatorExpected (found : string)
| ProgramTooLarge
| IllegalVariableName (name : string)
| IllegalContractName (name : string)
| UnknownQuotedValue (value : string)
| FailedParsingIntValue (value : string)
| FailedParsingBuffer (value : string)
| FailedParsingHexValue (value reason : string)
| FailedParsingPrincipal (value : string)
| FailedParsingField (value : string)
| FailedParsingRemainder (remainder : string)
| ClosingParenthesisUnexpected
| ClosingParenthesisExpected
| ClosingTupleLiteralUnexpected
| ClosingTupleLiteralExpected
| CircularReference (names : list string)
| NameAlreadyUsed (name : string)
| TraitReferenceNotAllowed
| ImportTraitBadSignature
| DefineTraitBadSignature
| ImplTraitBadSignature
| TraitReferenceUnknown (name : string)
| CommaSeparatorUnexpected
| ColonSeparatorUnexpected.
End ParseErrors.

(** [ParseError]; its diagnostic is the message of [err] with the spans of
    [pre_expressions]. *)
Module ParseError.
Record t := mk { err : ParseErrors.t; pre_expressions : option (list PreSymbolicExpression) }.
Definition new (err : ParseErrors.t) : t := mk err None.
Definition set_pre_expression (e : t) (expr : PreSymbolicExpression) : t := mk (err e) (Some [expr]).
(** [From<CostErrors>]. *)
Definition from_cost (e : CostErrors) : t :=
  match e with
  | CostOverflow => new ParseErrors.CostOverflow
  | CostBalanceExceeded a b => new (ParseErrors.CostBalanceExceeded a b)
  | MemoryBalanceExceeded a b => new (ParseErrors.MemoryBalanceExceeded a b)
  end.
End ParseError.

#[global] Notation ParseResult := (Res ParseError.t).
Definition parse_err {A} (e : ParseErrors.t) : ParseResult A := Err (ParseError.new e).

(** * Contracts as syntax trees *)

Record ContractAST := mkContractAST {
  ast_contract_identifier : QualifiedContractIdentifier;
  ast_pre_expressions : list PreSymbolicExpression;
  ast_expressions : list SymbolicExpression;
  ast_top_level_expression_sorting : option (list nat);
  ast_referenced_traits : gmap string TraitDefinition;
  ast_implemented_traits : gset TraitIdentifier;
}.

Definition ContractAST_new (contract_identifier : QualifiedContractIdentifier)
    (pre_expressions : list PreSymbolicExpression) : ContractAST :=
  mkContractAST contract_identifier pre_expressions [] (Some []) ∅ ∅.

Definition ast_set_pre_expressions (a : ContractAST) (l : list PreSymbolicExpression) : ContractAST :=
  mkContractAST (ast_contract_identifier a) l (ast_expressions a) (ast_top_level_expression_sorting a)
    (ast_referenced_traits a) (ast_implemented_traits a).
Definition ast_set_expressions (a : ContractAST) (l : list SymbolicExpression) : ContractAST :=
  mkContractAST (ast_contract_identifier a) (ast_pre_expressions a) l (ast_top_level_expression_sorting a)
    (ast_referenced_traits a) (ast_implemented_traits a).
Definition ast_set_sorting (a : ContractAST) (sorting : option (list nat)) : ContractAST :=
  mkContractAST (ast_contract_identifier a) (ast_pre_expressions a) (ast_expressions a) sorting
    (ast_referenced_traits a) (ast_implemented_traits a).
Definition ast_set_traits (a : ContractAST) (referenced : gmap string TraitDefinition) (implemented : gset TraitIdentifier)
  : ContractAST :=
  mkContractAST (ast_contract_identifier a) (ast_pre_expressions a) (ast_expressions a)
    (ast_top_level_expression_sorting a) referenced implemented.

(** The iterator [PreExpressionsDrain]. *)
Record PreExpressionsDrain := mkDrain {
  drain_pre_expressions : gmap nat PreSymbolicExpression;
  drain_sorting : option (list nat);
  drain_index : nat;
  drain_len : nat;
}.

Definition PreExpressionsDrain_new (pre_exprs_drain : list PreSymbolicExpression) (sorting : option (list nat))
  : PreExpressionsDrain :=
  let pre_expressions := list_to_map (zip (seq 0 (length pre_exprs_drain)) pre_exprs_drain) in
  let sorting := match sorting with Some (i :: l) => Some (i :: l) | _ => None end in
  mkDrain pre_expressions sorting 0 (base.size pre_expressions).

(** [Iterator::next]: indexing past the end of the sorting panics. *)
Definition drain_next (d : PreExpressionsDrain) : Res Empty_set (option PreSymbolicExpression * PreExpressionsDrain) :=
  if (drain_len d <=? drain_index d)%nat then Ok (None, d)
  else
    expr_index ← match drain_sorting d with
                 | Some indirections => expect_opt (indirections !! drain_index d)
                 | None => Ok (drain_index d)
                 end;
    Ok (drain_pre_expressions d !! expr_index,
        mkDrain (delete expr_index (drain_pre_expressions d)) (drain_sorting d) (S (drain_index d)) (drain_len d)).

(** What a [for] loop over the iterator visits: [next] until it returns [None]. *)
Fixpoint drain_visits (fuel : nat) (d : PreExpressionsDrain) : Res Empty_set (list PreSymbolicExpression) :=
  match fuel with
  | O => Ok []
  | S fuel =>
    '(x, d) ← drain_next d;
    match x with
    | Some e => l ← drain_visits fuel d; Ok (e :: l)
    | None => Ok []
    end
  end.
(** Every step that returns an expression raises the index towards the length. *)
Definition drain_iter (d : PreExpressionsDrain) : Res Empty_set (list PreSymbolicExpression) :=
  drain_visits (S (drain_len d)) d.

Definition pre_expressions_drain (a : ContractAST) : PreExpressionsDrain :=
  PreExpressionsDrain_new (ast_pre_expressions a) (ast_top_level_expression_sorting a).

(** * The depth of expressions (stack_depth_checker.rs) *)

Definition AST_CALL_STACK_DEPTH_BUFFER : Z := 5.
Definition AST_DEPTH_LIMIT : Z := AST_CALL_STACK_DEPTH_BUFFER + Z.of_nat MAX_CALL_STACK_DEPTH.

Section check.
Context (check_inner : PreSymbolicExpression -> Z -> ParseResult unit).
Definition check_args (args : list PreSymbolicExpression) (depth : Z) : ParseResult unit :=
  if AST_DEPTH_LIMIT <=? depth then parse_err ParseErrors.ExpressionStackDepthTooDeep
  else foldM (fun _ expression => check_inner expression depth) tt args.
End check.

(** The body of the loop of [check] on one expression. *)
Fixpoint check_expression (expression : PreSymbolicExpression) (depth : Z) : ParseResult unit :=
  match expression with
  | PreList _ exprs => check_args check_expression exprs (wrap 64 (depth + 1))
  | _ => Ok tt
  end.
Definition check : list PreSymbolicExpression -> Z -> ParseResult unit := check_args check_expression.

Definition StackDepthChecker_run_pass (a : ContractAST) : ParseResult unit := check (ast_pre_expressions a) 0.

(** * Identifiers of expressions (expression_identifier/mod.rs) *)

(** [SymbolicExpressionCommon]: [match_list_mut] returns the list with the way to
    write it back, and [list_depth] bounds the recursion through it. *)
Class SymbolicExpressionCommon (T : Type) := {
  set_id : Z -> T -> T;
  get_id : T -> Z;
  match_list_mut : T -> option (list T * (list T -> T));
  list_depth : T -> nat;
}.

Section relabel.
Context {T} `{!SymbolicExpressionCommon T}.

Definition next_id (current : Z) : ParseResult Z :=
  ok_or (checked_add 64 current 1) (ParseError.new ParseErrors.TooManyExpressions).

Section each.
Context (inner_relabel : list T -> Z -> ParseResult (list T * Z)).
Definition relabel_one (expression : T) (current : Z) : ParseResult (T * Z) :=
  let expression := set_id current expression in
  match match_list_mut expression with
  | Some (exprs, put) => '(exprs, current) ← inner_relabel exprs current; Ok (put exprs, current)
  | None => current ← next_id current; Ok (expression, current)
  end.
Fixpoint relabel_each (args : list T) (current : Z) : ParseResult (list T * Z) :=
  match args with
  | [] => Ok ([], current)
  | expression :: args =>
    '(expression, current) ← relabel_one expression current;
    '(args, current) ← relabel_each args current;
    Ok (expression :: args, current)
  end.
End each.

Fixpoint inner_relabel (fuel : nat) (args : list T) (index : Z) : ParseResult (list T * Z) :=
  match fuel with
  | O => Panic
  | S fuel => current ← next_id index; relabel_each (inner_relabel fuel) args current
  end.

Definition depth_of_list (l : list T) : nat := max_list (list_depth <$> l).
(** The recursion is as deep as the lists are nested. *)
Definition update_expression_id (exprs : list T) : ParseResult (list T) :=
  '(exprs, _) ← inner_relabel (S (depth_of_list exprs)) exprs 0; Ok exprs.
End relabel.

Fixpoint pre_list_depth (e : PreSymbolicExpression) : nat :=
  match e with PreList _ l => S (max_list (pre_list_depth <$> l)) | _ => O end.
#[global] Instance pre_common : SymbolicExpressionCommon PreSymbolicExpression := {|
  set_id := pre_set_id;
  get_id := pre_id;
  match_list_mut e := match e with PreList b l => Some (l, PreList b) | _ => None end;
  list_depth := pre_list_depth;
|}.

Definition expr_id (e : SymbolicExpression) : Z :=
  match e with
  | AtomValue id _ | Atom id _ | SList id _ | LiteralValue id _ | Field id _ | TraitReference id _ _ => id
  end.
Definition expr_set_id (id : Z) (e : SymbolicExpression) : SymbolicExpression :=
  match e with
  | AtomValue _ v => AtomValue id v
  | Atom _ n => Atom id n
  | SList _ l => SList id l
  | LiteralValue _ v => LiteralValue id v
  | Field _ t => Field id t
  | TraitReference _ n d => TraitReference id n d
  end.
Fixpoint expr_list_depth (e : SymbolicExpression) : nat :=
  match e with SList _ l => S (max_list (expr_list_depth <$> l)) | _ => O end.
#[global] Instance expr_common : SymbolicExpressionCommon SymbolicExpression := {|
  set_id := expr_set_id;
  get_id := expr_id;
  match_list_mut e := match e with SList id l => Some (l, SList id) | _ => None end;
  list_depth := expr_list_depth;
|}.

Definition run_pre_expression_pass (a : ContractAST) : ParseResult ContractAST :=
  l ← update_expression_id (ast_pre_expressions a); Ok (ast_set_pre_expressions a l).
Definition run_expression_pass (a : ContractAST) : ParseResult ContractAST :=
  l ← update_expression_id (ast_expressions a); Ok (ast_set_expressions a l).

(** * Traits (traits_resolver/mod.rs) *)

(** [DefineFunctions::lookup_by_name]. *)
Definition DefineFunctions_lookup_by_name (name : string) : option DefineFunctions := lookup_by_name define_names name.

Definition try_parse_pre_expr (expression : PreSymbolicExpression)
  : option (DefineFunctions * list PreSymbolicExpression) :=
  expression ← pre_match_list expression;
  '(function_name, args) ← match expression with x :: l => Some (x, l) | [] => None end;
  function_name ← pre_match_atom function_name;
  define_type ← DefineFunctions_lookup_by_name function_name;
  Some (define_type, args).

#[local] Notation Generics := (gmap string PreSymbolicExpression).

(** The body of the loop of [probe_for_generics]. *)
Fixpoint probe_generics_in (should_reference : bool) (referenced_traits : Generics) (expression : PreSymbolicExpression)
  : ParseResult Generics :=
  match expression with
  | PreList _ list => foldM (probe_generics_in should_reference) referenced_traits list
  | PreTraitReference _ trait_name =>
    if should_reference then Ok (<[trait_name := expression]> referenced_traits)
    else parse_err ParseErrors.TraitReferenceNotAllowed
  | _ => Ok referenced_traits
  end.
Definition probe_for_generics (exprs : list PreSymbolicExpression) (referenced_traits : Generics) (should_reference : bool)
  : ParseResult Generics := foldM (probe_generics_in should_reference) referenced_traits exprs.

(** A trait named by a [use-trait] or an [impl-trait]. *)
Definition named_trait (contract_identifier : QualifiedContractIdentifier) (e : PreSymbolicExpression)
  : option TraitIdentifier :=
  match e with
  | PreSugaredFieldIdentifier _ contract_name name =>
    Some (mkTraitId name (mkContractId (issuer contract_identifier) contract_name))
  | PreFieldIdentifier _ trait_identifier => Some trait_identifier
  | _ => None
  end.

Definition referenced_before (a : ContractAST) (trait_name : string) : ParseResult unit :=
  if decide (is_Some (ast_referenced_traits a !! trait_name)) then parse_err (ParseErrors.NameAlreadyUsed trait_name)
  else Ok tt.
Definition reference_trait (a : ContractAST) (trait_name : string) (d : TraitDefinition) : ContractAST :=
  ast_set_traits a (<[trait_name := d]> (ast_referenced_traits a)) (ast_implemented_traits a).

(** The body of the loop of [run] on a definition. *)
Definition resolve_definition (a : ContractAST) (referenced_traits : Generics) (define_type : DefineFunctions)
    (args : list PreSymbolicExpression) : ParseResult (ContractAST * Generics) :=
  match define_type with
  | Trait_ =>
    match args with
    | [PreAtom _ trait_name; PreList _ trait_definition] =>
      _ ← referenced_before a trait_name;
      referenced_traits ← probe_for_generics trait_definition referenced_traits true;
      Ok (reference_trait a trait_name (Defined (mkTraitId trait_name (ast_contract_identifier a))), referenced_traits)
    | _ => parse_err ParseErrors.DefineTraitBadSignature
    end
  | UseTrait =>
    match args with
    | [PreAtom _ trait_name; target] =>
      _ ← referenced_before a trait_name;
      trait_id ← ok_or (named_trait (ast_contract_identifier a) target) (ParseError.new ParseErrors.ImportTraitBadSignature);
      Ok (reference_trait a trait_name (Imported trait_id), referenced_traits)
    | _ => parse_err ParseErrors.ImportTraitBadSignature
    end
  | ImplTrait =>
    match args with
    | [target] =>
      trait_id ← ok_or (named_trait (ast_contract_identifier a) target) (ParseError.new ParseErrors.ImplTraitBadSignature);
      Ok (ast_set_traits a (ast_referenced_traits a) ({[ trait_id ]} ∪ ast_implemented_traits a), referenced_traits)
    | _ => parse_err ParseErrors.ImplTraitBadSignature
    end
  | PublicFunction | PrivateFunction | ReadOnlyFunction =>
    referenced_traits ← probe_for_generics args referenced_traits true;
    Ok (a, referenced_traits)
  | Constant | Map_ | PersistedVariable | FungibleToken_ | NonFungibleToken_ =>
    (* the slice [args[1..]] *)
    rest ← expect_opt (match args with _ :: rest => Some rest | [] => None end);
    referenced_traits ← probe_for_generics rest referenced_traits false;
    Ok (a, referenced_traits)
  end.

Definition resolve_expression (s : ContractAST * Generics) (exp : PreSymbolicExpression) : ParseResult (ContractAST * Generics) :=
  match try_parse_pre_expr exp with
  | Some (define_type, args) => resolve_definition s.1 s.2 define_type args
  | None => Ok s
  end.

(** The last loop of [run]; the map is visited in an unspecified order, for which
    the model takes that of [map_to_list]. *)
Definition check_references (a : ContractAST) (referenced_traits : Generics) : ParseResult unit :=
  foldM (fun _ '(trait_reference, expr) =>
    if decide (is_Some (ast_referenced_traits a !! trait_reference)) then Ok tt
    else Err (ParseError.set_pre_expression (ParseError.new (ParseErrors.TraitReferenceUnknown trait_reference)) expr))
  tt (map_to_list referenced_traits).

Definition TraitsResolver_run (a : ContractAST) : ParseResult ContractAST :=
  '(a, referenced_traits) ← foldM resolve_expression (a, ∅) (ast_pre_expressions a);
  _ ← check_references a referenced_traits;
  Ok a.

(** * Sugar (sugar_expander/mod.rs) *)

(** [chunks(2)]. *)
Fixpoint chunks2 {A} (l : list A) : list (list A) :=
  match l with
  | [] => []
  | [x] => [[x]]
  | x :: y :: l => [x; y] :: chunks2 l
  end.

(** The body of the loop of [transform]; the expressions inside a list or a tuple
    are drained without a sorting, hence in their order ([drain_unsorted]). *)
Fixpoint transform_expression (sp_issuer : StandardPrincipalData) (referenced_traits : gmap string TraitDefinition)
    (pre_expr : PreSymbolicExpression) : ParseResult SymbolicExpression :=
  match pre_expr with
  | PreAtomValue _ content => Ok (literal_value content)
  | PreAtom _ content => Ok (atom content)
  | PreList _ pre_exprs =>
    expression ← mapMR (transform_expression sp_issuer referenced_traits) pre_exprs;
    Ok (slist expression)
  | PreTuple _ pre_exprs =>
    expression ← mapMR (transform_expression sp_issuer referenced_traits) pre_exprs;
    Ok (slist (atom "tuple" :: (slist <$> chunks2 expression)))
  | PreSugaredContractIdentifier _ contract_name =>
    Ok (literal_value (VPrincipal (Contract (mkContractId sp_issuer contract_name))))
  | PreSugaredFieldIdentifier _ contract_name name =>
    Ok (Field 0 (mkTraitId name (mkContractId sp_issuer contract_name)))
  | PreFieldIdentifier _ trait_identifier => Ok (Field 0 trait_identifier)
  | PreTraitReference _ name =>
    match referenced_traits !! name with
    | Some trait_reference => Ok (TraitReference 0 name trait_reference)
    | None => parse_err (ParseErrors.TraitReferenceUnknown name)
    end
  end.

(** The drain takes the expressions out of the contract. *)
Definition SugarExpander_run (a : ContractAST) : ParseResult ContractAST :=
  pre_exprs ← lift_panic (drain_iter (pre_expressions_drain a));
  expressions ← mapMR (transform_expression (issuer (ast_contract_identifier a)) (ast_referenced_traits a)) pre_exprs;
  Ok (ast_set_expressions (ast_set_pre_expressions a []) expressions).
