(* ===== verification/DefinitionSorter.v ===== *)
(** The order of definitions: src/vm/ast/definition_sorter/mod.rs.  The top-level
    expressions are the nodes of a graph, with an edge to every definition that an
    expression mentions; the pass rejects a contract whose graph has a cycle, and
    otherwise sorts the expressions after what they depend on. *)
From stdpp Require Import base strings numbers list gmap.
From Stdlib Require Import ZArith Lia.
From S2P Require Import Prelude Names Types Costs Interpreter Define Ast.
#[local] Open Scope Z_scope.

(** * The names of native functions (src/vm/functions/mod.rs) *)

Inductive NativeFunctions :=
| N_Add | N_Subtract | N_Multiply | N_Divide | N_CmpGeq | N_CmpLeq | N_CmpLess | N_CmpGreater | N_ToInt
| N_ToUInt | N_Modulo | N_Power | N_BitwiseXOR | N_And | N_Or | N_Not | N_Equals | N_If | N_Let | N_Map
| N_Fold | N_Append | N_Concat | N_AsMaxLen | N_Len | N_ListCons | N_FetchVar | N_SetVar | N_FetchEntry
| N_SetEntry | N_InsertEntry | N_DeleteEntry | N_TupleCons | N_TupleGet | N_Begin | N_Hash160 | N_Sha256
| N_Sha512 | N_Sha512Trunc256 | N_Keccak256 | N_Print | N_ContractCall | N_AsContract | N_AtBlock
| N_GetBlockInfo | N_ConsError | N_ConsOkay | N_ConsSome | N_DefaultTo | N_Asserts | N_UnwrapRet
| N_UnwrapErrRet | N_Unwrap | N_UnwrapErr | N_Match | N_TryRet | N_IsOkay | N_IsNone | N_IsErr | N_IsSome
| N_Filter | N_GetTokenBalance | N_GetAssetOwner | N_TransferToken | N_TransferAsset | N_MintAsset
| N_MintToken | N_StxTransfer | N_StxBurn.

Definition native_names : list (string * NativeFunctions) :=
  [("+", N_Add); ("-", N_Subtract); ("*", N_Multiply); ("/", N_Divide); (">=", N_CmpGeq); ("<=", N_CmpLeq);
   ("<", N_CmpLess); (">", N_CmpGreater); ("to-int", N_ToInt); ("to-uint", N_ToUInt); ("mod", N_Modulo);
   ("pow", N_Power); ("xor", N_BitwiseXOR); ("and", N_And); ("or", N_Or); ("not", N_Not); ("is-eq", N_Equals);
   ("if", N_If); ("let", N_Let); ("map", N_Map); ("fold", N_Fold); ("append", N_Append); ("concat", N_Concat);
   ("as-max-len?", N_AsMaxLen); ("len", N_Len); ("list", N_ListCons); ("var-get", N_FetchVar);
   ("var-set", N_SetVar); ("map-get?", N_FetchEntry); ("map-set", N_SetEntry); ("map-insert", N_InsertEntry);
   ("map-delete", N_DeleteEntry); ("tuple", N_TupleCons); ("get", N_TupleGet); ("begin", N_Begin);
   ("hash160", N_Hash160); ("sha256", N_Sha256); ("sha512", N_Sha512); ("sha512/256", N_Sha512Trunc256);
   ("keccak256", N_Keccak256); ("print", N_Print); ("contract-call?", N_ContractCall);
   ("as-contract", N_AsContract); ("at-block", N_AtBlock); ("get-block-info?", N_GetBlockInfo);
   ("err", N_ConsError); ("ok", N_ConsOkay); ("some", N_ConsSome); ("default-to", N_DefaultTo);
   ("asserts!", N_Asserts); ("unwrap!", N_UnwrapRet); ("unwrap-err!", N_UnwrapErrRet); ("unwrap-panic", N_Unwrap);
   ("unwrap-err-panic", N_UnwrapErr); ("match", N_Match); ("try!", N_TryRet); ("is-ok", N_IsOkay);
   ("is-none", N_IsNone); ("is-err", N_IsErr); ("is-some", N_IsSome); ("filter", N_Filter);
   ("ft-get-balance", N_GetTokenBalance); ("nft-get-owner?", N_GetAssetOwner); ("ft-transfer?", N_TransferToken);
   ("nft-transfer?", N_TransferAsset); ("nft-mint?", N_MintAsset); ("ft-mint?", N_MintToken);
   ("stx-transfer?", N_StxTransfer); ("stx-burn?", N_StxBurn)].

Definition NativeFunctions_lookup_by_name (name : string) : option NativeFunctions := lookup_by_name native_names name.

(** * The graph *)

(** [adjacency_list]. *)
#[global] Notation Graph := (list (list nat)).

Definition add_node (g : Graph) : Graph := g ++ [[]].
Definition add_directed_edge (g : Graph) (src_expr_index dst_expr_index : nat) : ParseResult Graph :=
  list ← expect_opt (g !! src_expr_index);
  Ok (<[src_expr_index := list ++ [dst_expr_index]]> g).
Definition get_node_descendants (g : Graph) (expr_index : nat) : ParseResult (list nat) := expect_opt (g !! expr_index).
Definition has_node_descendants (g : Graph) (expr_index : nat) : ParseResult bool :=
  l ← expect_opt (g !! expr_index); Ok (negb (bool_decide (l = []))).
Definition nodes_count (g : Graph) : nat := length g.
Definition edges_count (g : Graph) : ParseResult Z :=
  foldM (fun total node => ok_or (checked_add 64 total (Z.of_nat (length node))) (ParseError.new ParseErrors.CostOverflow)) 0 g.

(** * Dependencies *)

Record TopLevelExpressionIndex := mkTopLevel { expr_index : nat; atom_index : Z }.
#[global] Notation TopLevelMap := (gmap string TopLevelExpressionIndex).

Definition find_expression_definition (exp : PreSymbolicExpression) : option (string * Z * PreSymbolicExpression) :=
  '(_, args) ← try_parse_pre_expr exp;
  arg ← args !! 0%nat;
  defined_name ← match pre_match_list arg with Some list => list !! 0%nat | None => Some arg end;
  tle_name ← pre_match_atom defined_name;
  Some (tle_name, pre_id defined_name, defined_name).

Section probe.
Context (top_level_expressions_map : TopLevelMap) (tle_index : nat).

(** An atom or a trait reference that names a definition other than itself. *)
Definition probe_name (name : string) (id : Z) (g : Graph) : ParseResult Graph :=
  match top_level_expressions_map !! name with
  | Some dep => if negb (atom_index dep =? id) then add_directed_edge g tle_index (expr_index dep) else Ok g
  | None => Ok g
  end.

Section inner.
Context (probe : PreSymbolicExpression -> Graph -> ParseResult Graph).
Definition probe_all (exprs : list PreSymbolicExpression) (g : Graph) : ParseResult Graph :=
  foldM (fun g expr => probe expr g) g exprs.
(** The second expression of a pair. *)
Definition probe_pair (g : Graph) (pair : PreSymbolicExpression) : ParseResult Graph :=
  match pair with PreList _ [_; value] => probe value g | _ => Ok g end.
Definition probe_for_dependencies_in_tuple (expr : PreSymbolicExpression) (g : Graph) : ParseResult Graph :=
  match expr with PreList _ tuple => foldM probe_pair g tuple | _ => Ok g end.
Definition probe_for_dependencies_in_tuple_list (tuples : list PreSymbolicExpression) (g : Graph) : ParseResult Graph :=
  foldM (fun g tuple => probe_for_dependencies_in_tuple tuple g) g tuples.
Definition probe_for_dependencies_in_define_args (expr : PreSymbolicExpression) (g : Graph) : ParseResult Graph :=
  match expr with PreList _ (_ :: args) => foldM probe_pair g args | _ => Ok g end.
(** A function of a trait: its arguments and its result. *)
Definition probe_function_signature (g : Graph) (func_sig : PreSymbolicExpression) : ParseResult Graph :=
  match func_sig with
  | PreList _ [_; arguments; result] => g ← probe arguments g; probe result g
  | _ => Ok g
  end.

(** The arguments of a definition. *)
Definition probe_define (define_function : DefineFunctions) (function_args : list PreSymbolicExpression) (g : Graph)
  : ParseResult Graph :=
  match define_function with
  | PersistedVariable | Constant => match function_args with _ :: rest => probe_all rest g | [] => Ok g end
  | PublicFunction | PrivateFunction | ReadOnlyFunction =>
    match function_args with
    | [signature; body] => g ← probe_for_dependencies_in_define_args signature g; probe body g
    | _ => Ok g
    end
  | Map_ =>
    match function_args with
    | [_; key; value] => g ← probe_for_dependencies_in_tuple key g; probe_for_dependencies_in_tuple value g
    | _ => Ok g
    end
  | Trait_ =>
    match function_args with
    | [_; PreList _ trait_sig] => foldM probe_function_signature g trait_sig
    | _ => Ok g
    end
  | ImplTrait | UseTrait | NonFungibleToken_ | FungibleToken_ => Ok g
  end.

(** The arguments of the native functions that are handled apart. *)
Definition probe_native (native_function : NativeFunctions) (function_args : list PreSymbolicExpression) (g : Graph)
  : option (ParseResult Graph) :=
  match native_function with
  | N_FetchEntry | N_DeleteEntry => Some
    match function_args with
    | [map_name; key] => g ← probe map_name g; probe_for_dependencies_in_tuple key g
    | _ => Ok g
    end
  | N_SetEntry | N_InsertEntry => Some
    match function_args with
    | [map_name; key; value] =>
      g ← probe map_name g;
      g ← probe_for_dependencies_in_tuple key g;
      probe_for_dependencies_in_tuple value g
    | _ => Ok g
    end
  | N_ContractCall => Some match function_args with _ :: _ :: rest => probe_all rest g | _ => Ok g end
  | N_Let => Some
    match function_args with
    | bindings :: ((_ :: _) as body) => g ← probe_for_dependencies_in_tuple bindings g; probe_all body g
    | _ => Ok g
    end
  | N_Len => Some match function_args with [e] => probe e g | _ => Ok g end
  | N_TupleGet => Some match function_args with [_; e] => probe e g | _ => Ok g end
  | N_TupleCons => Some (probe_for_dependencies_in_tuple_list function_args g)
  | _ => None
  end.
End inner.

Fixpoint probe_for_dependencies (expr : PreSymbolicExpression) (g : Graph) : ParseResult Graph :=
  match expr with
  | PreAtom b name | PreTraitReference b name => probe_name name (label_id b) g
  | PreList _ exprs =>
    match exprs with
    | PreAtom _ function_name :: function_args =>
      match DefineFunctions_lookup_by_name function_name with
      | Some define_function => probe_define probe_for_dependencies define_function function_args g
      | None =>
        match NativeFunctions_lookup_by_name function_name with
        | Some native_function =>
          match probe_native probe_for_dependencies native_function function_args g with
          | Some result => result
          | None => probe_all probe_for_dependencies exprs g
          end
        | None => probe_all probe_for_dependencies exprs g
        end
      end
    | _ => probe_all probe_for_dependencies exprs g
    end
  | PreTuple _ exprs => probe_for_dependencies_in_tuple_list probe_for_dependencies exprs g
  | PreAtomValue _ _ | PreFieldIdentifier _ _ | PreSugaredContractIdentifier _ _ | PreSugaredFieldIdentifier _ _ _ => Ok g
  end.
End probe.

(** * The walk *)

(** The nodes seen, and those finished in the order in which they were. *)
Record Walk := mkWalk { seen : gset nat; branch : list nat }.

(** [sort_dependencies_recursion]; [None] when the fuel runs out. *)
Fixpoint sort_dependencies_recursion (fuel : nat) (g : Graph) (tle_index : nat) (w : Walk) : option Walk :=
  match fuel with
  | O => None
  | S fuel =>
    if decide (tle_index ∈ seen w) then Some w
    else
      let w := mkWalk ({[ tle_index ]} ∪ seen w) (branch w) in
      w ← foldl (fun w neighbor => w ← w; sort_dependencies_recursion fuel g neighbor w) (Some w)
            (default [] (g !! tle_index));
      Some (mkWalk (seen w) (branch w ++ [tle_index]))
  end.

(** Every call that is not the last on its path sees a new node. *)
Definition walk_fuel (g : Graph) : nat := S (S (nodes_count g)).
Definition get_sorted_dependencies (g : Graph) : option (list nat) :=
  branch <$> foldl (fun w expr_index => w ← w; sort_dependencies_recursion (walk_fuel g) g expr_index w)
               (Some (mkWalk ∅ [])) (seq 0 (nodes_count g)).

(** The loop over the descendants of a node: the tainted nodes and how many of the
    descendants are. *)
Definition taint_descendant (g : Graph) (s : gset nat * nat) (descendant : nat) : ParseResult (gset nat * nat) :=
  let '(tainted, tainted_descendants_count) := s in
  has_descendants ← has_node_descendants g descendant;
  if negb has_descendants || bool_decide (descendant ∈ tainted)
  then Ok ({[ descendant ]} ∪ tainted, S tainted_descendants_count)
  else Ok (tainted, tainted_descendants_count).
Definition taint_node (g : Graph) (tainted : gset nat) (node : nat) : ParseResult (gset nat) :=
  descendants ← get_node_descendants g node;
  '(tainted, tainted_descendants_count) ← foldM (taint_descendant g) (tainted, O) descendants;
  if (tainted_descendants_count =? length descendants)%nat then Ok ({[ node ]} ∪ tainted) else Ok tainted.

(** The nodes that are not tainted, in the order of the elements of a set. *)
Definition get_cycling_dependencies (g : Graph) (sorted_indexes : list nat) : ParseResult (option (list nat)) :=
  tainted ← foldM (taint_node g) ∅ sorted_indexes;
  if (base.size tainted =? length sorted_indexes)%nat then Ok None
  else Ok (Some (elements (list_to_set (C := gset nat) sorted_indexes ∖ tainted))).

(** * The pass *)

(** The first loop: the nodes, and the definitions by name. *)
Definition collect_definition (s : Graph * TopLevelMap) (e : nat * PreSymbolicExpression) : Graph * TopLevelMap :=
  let '(g, m) := s in
  let g := add_node g in
  match find_expression_definition e.2 with
  | Some (definition_name, atom_index, _) => (g, <[definition_name := mkTopLevel e.1 atom_index]> m)
  | None => (g, m)
  end.
Definition enumerate {A} (l : list A) : list (nat * A) := zip (seq 0 (length l)) l.
Definition collect_definitions (exprs : list PreSymbolicExpression) : Graph * TopLevelMap :=
  foldl collect_definition ([], ∅) (enumerate exprs).

(** The second loop. *)
Definition dependency_graph (exprs : list PreSymbolicExpression) : ParseResult Graph :=
  let '(g, m) := collect_definitions exprs in
  foldM (fun g '(expr_index, expr) => probe_for_dependencies m expr_index expr g) g (enumerate exprs).

Section pass.
Context {T} `{!CostTracker T}.

(** The names of the definitions on a cycle. *)
Definition definition_names (exprs : list PreSymbolicExpression) (deps : list nat) : list string :=
  omap (fun i => exp ← exprs !! i; '(name, _, _) ← find_expression_definition exp; Some name) deps.

Definition DefinitionSorter_run (a : ContractAST) (accounting : T) : T * ParseResult ContractAST :=
  let exprs := ast_pre_expressions a in
  match g ← dependency_graph exprs; n ← edges_count g; Ok (g, n) with
  | Ok (g, n) =>
    let '(accounting, charged) := runtime_cost cost_functions.AST_CYCLE_DETECTION accounting n in
    (accounting,
     _ ← map_err ParseError.from_cost charged;
     sorted_indexes ← expect_opt (get_sorted_dependencies g);
     cycle ← get_cycling_dependencies g sorted_indexes;
     match cycle with
     | Some deps => parse_err (ParseErrors.CircularReference (definition_names exprs deps))
     | None => Ok (ast_set_sorting a (Some sorted_indexes))
     end)
  | Err e => (accounting, Err e)
  | Panic => (accounting, Panic)
  end.
End pass.
