(* ===== verification/SorterFacts.v ===== *)
(** What the definition sorter guarantees: the walk visits every expression once,
    an expression after everything it depends on, and the contract is rejected
    exactly when the graph of dependencies has a cycle. *)
From stdpp Require Import base strings numbers list gmap relations.
From Stdlib Require Import ZArith Lia.
From S2P Require Import Prelude Names Types Costs Interpreter Define Ast DefinitionSorter.
#[local] Open Scope nat_scope.

(** * Graphs *)

(** The edges stay inside the graph. *)
Definition graph_ok (n : nat) (g : Graph) : Prop := length g = n /\ Forall (Forall (fun j => j < n)) g.
Definition edge (g : Graph) (i j : nat) : Prop := exists l, g !! i = Some l /\ j ∈ l.
Definition acyclic (g : Graph) : Prop := forall i, ~ tc (edge g) i i.
Definition reaches_cycle (g : Graph) (i : nat) : Prop := exists j, rtc (edge g) i j /\ tc (edge g) j j.

(** [j] comes before [i] in [l]. *)
Definition before (l : list nat) (j i : nat) : Prop := exists k1 k2, l = k1 ++ i :: k2 /\ j ∈ k1.
(** A list of nodes in which everything comes after what it depends on. *)
Definition topological (g : Graph) (l : list nat) : Prop := forall i j, edge g i j -> before l j i.

(** The nodes from which no cycle can be reached, by recursion along the edges. *)
Inductive grounded (g : Graph) : nat -> Prop :=
| grounded_intro i l : g !! i = Some l -> (forall j, j ∈ l -> grounded g j) -> grounded g i.

Lemma edge_in n g i j : graph_ok n g -> edge g i j -> i < n /\ j < n.
Proof.
  intros [Hn Hg] (l & Hl & Hj). split; [rewrite <- Hn; by eapply lookup_lt_Some|].
  eapply Forall_lookup_1 in Hg; [|done]. by eapply Forall_forall in Hg.
Qed.

Lemma grounded_edge g i j : grounded g i -> edge g i j -> grounded g j.
Proof. intros [? l Hl Hg] (l' & Hl' & Hj). rewrite Hl in Hl'. injection Hl' as <-. auto. Qed.

Lemma grounded_no_cycle g i : grounded g i -> ~ tc (edge g) i i.
Proof.
  induction 1 as [i l Hl Hg IH]. intros Ht.
  assert (exists j, j ∈ l /\ rtc (edge g) j i) as (j & Hj & Hji).
  { inversion Ht as [? ? He|? j ? He Hr]; subst; destruct He as (l' & Hl' & Hj);
      rewrite Hl in Hl'; injection Hl' as <-; eexists; split; eauto using rtc_refl, tc_rtc. }
  apply (IH j Hj). eapply tc_rtc_l; [done|]. apply tc_once. exists l. split; [done|]. done.
Qed.

Lemma grounded_rtc g i j : grounded g i -> rtc (edge g) i j -> grounded g j.
Proof. intros Hg Hr. induction Hr; eauto using grounded_edge. Qed.

Lemma grounded_reaches g i : grounded g i -> ~ reaches_cycle g i.
Proof. intros Hg (j & Hr & Ht). eapply grounded_no_cycle; [|done]. by eapply grounded_rtc. Qed.

Lemma before_app_l l k j i : before l j i -> before (l ++ k) j i.
Proof. intros (k1 & k2 & -> & Hj). exists k1, (k2 ++ k). split; [by rewrite <- app_assoc|done]. Qed.
Lemma before_snoc l j i : j ∈ l -> before (l ++ [i]) j i.
Proof. intros Hj. by exists l, []. Qed.

(** * The walk *)

(** The nodes of a walk that are not finished. *)
Definition open (w : Walk) (x : nat) : Prop := x ∈ seen w /\ x ∉ branch w.

(** The invariant of the walk: a finished node was seen, it is finished once, and
    what it depends on was finished before it or leads back to it. *)
Record walk_ok (g : Graph) (w : Walk) : Prop := {
  walk_nodup : NoDup (branch w);
  walk_seen : forall x, x ∈ branch w -> x ∈ seen w;
  walk_order : forall i j, i ∈ branch w -> edge g i j -> before (branch w) j i \/ rtc (edge g) j i;
}.

(** What a call does: it only adds nodes, and finishes all those it adds. *)
Record walked (g : Graph) (n : nat) (w w' : Walk) : Prop := {
  walked_ok : walk_ok g w';
  walked_seen : seen w ⊆ seen w';
  walked_open : forall x, open w' x <-> open w x;
  walked_nodes : (forall x, x ∈ seen w -> x < n) -> forall x, x ∈ seen w' -> x < n;
}.

Lemma walked_refl g n w : walk_ok g w -> walked g n w w.
Proof. by split. Qed.
Lemma walked_trans g n w1 w2 w3 : walked g n w1 w2 -> walked g n w2 w3 -> walked g n w1 w3.
Proof.
  intros [? Hs1 Ho1 Hn1] [? Hs2 Ho2 Hn2]. split; [done|by etrans| |by auto].
  intros x. by rewrite Ho2.
Qed.

(** The nodes still to be seen. *)
Definition unseen (n : nat) (w : Walk) : nat := base.size ((set_seq 0 n : gset nat) ∖ seen w).

Lemma unseen_mono n w w' : seen w ⊆ seen w' -> unseen n w' <= unseen n w.
Proof. intros H. apply subseteq_size. set_solver. Qed.
Lemma unseen_visit n w i b : i < n -> i ∉ seen w -> unseen n (mkWalk ({[ i ]} ∪ seen w) b) < unseen n w.
Proof.
  intros Hi Hs. apply subset_size. cbn. split; [set_solver|]. intros H.
  assert (i ∈ (set_seq 0 n : gset nat) ∖ seen w) as Hin.
  { apply elem_of_difference. split; [|done]. apply elem_of_set_seq. lia. }
  apply H, elem_of_difference in Hin as [_ Hin]. apply Hin. set_solver.
Qed.

(** The loop over a list of nodes. *)
Definition walk_list (fuel : nat) (g : Graph) (l : list nat) (w : Walk) : option Walk :=
  foldl (fun w neighbor => w ← w; sort_dependencies_recursion fuel g neighbor w) (Some w) l.

Lemma walk_list_ok fuel g n l w :
  (forall i w, i ∈ l -> walk_ok g w -> (forall x, open w x -> rtc (edge g) x i) -> unseen n w < fuel ->
     exists w', sort_dependencies_recursion fuel g i w = Some w' /\ walked g n w w' /\ i ∈ seen w') ->
  walk_ok g w -> (forall x i, open w x -> i ∈ l -> rtc (edge g) x i) -> unseen n w < fuel ->
  exists w', walk_list fuel g l w = Some w' /\ walked g n w w' /\ (forall i, i ∈ l -> i ∈ seen w').
Proof.
  revert w. induction l as [|i l IH]; intros w Hrec Hw Hop Hf.
  - exists w. split; [done|]. split; [by apply walked_refl|]. intros i Hi. by apply elem_of_nil in Hi.
  - destruct (Hrec i w) as (w1 & Hw1 & Hwk & Hi); [left|done|intros; apply Hop; [done|left]|done|].
    destruct (IH w1) as (w2 & Hw2 & Hwk2 & Hl).
    + intros j w' Hj. apply Hrec. by right.
    + by eapply walked_ok.
    + intros x j Hx Hj. apply (walked_open _ _ _ _ Hwk) in Hx. apply Hop; [done|by right].
    + eapply Nat.le_lt_trans; [apply unseen_mono; by eapply walked_seen|done].
    + exists w2. split; [unfold walk_list in *; cbn [foldl mbind option_bind]; by rewrite Hw1|].
      split; [by eapply walked_trans|]. intros j [->|Hj]%elem_of_cons; [|auto].
      by apply (walked_seen _ _ _ _ Hwk2).
Qed.


(** A node is opened. *)
Lemma visit_open w i x : i ∉ branch w ->
  open (mkWalk ({[ i ]} ∪ seen w) (branch w)) x <-> x = i \/ open w x.
Proof.
  intros Hi. unfold open. cbn. rewrite elem_of_union, elem_of_singleton. split; [tauto|].
  intros [->|[? ?]]; tauto.
Qed.

Lemma visit_ok g w i : walk_ok g w -> walk_ok g (mkWalk ({[ i ]} ∪ seen w) (branch w)).
Proof. intros [H1 H2 H3]. split; cbn; [done| |done]. intros x Hx. apply elem_of_union. auto. Qed.

(** A node is finished, when everything it depends on was seen. *)
Lemma finish_ok g w i : walk_ok g w -> open w i -> (forall x, open w x -> rtc (edge g) x i) ->
  (forall j, edge g i j -> j ∈ seen w) -> walk_ok g (mkWalk (seen w) (branch w ++ [i])).
Proof.
  intros [H1 H2 H3] [Hi Hni] Hop Hj. split; cbn.
  - apply NoDup_app. split; [done|]. split; [|apply NoDup_singleton].
    intros x Hx ->%list_elem_of_singleton. done.
  - intros x [Hx| ->%list_elem_of_singleton]%elem_of_app; auto.
  - intros x j [Hx| ->%list_elem_of_singleton]%elem_of_app He.
    + destruct (H3 x j Hx He) as [Hb|Hb]; [left; by apply before_app_l|by right].
    + destruct (decide (j ∈ branch w)) as [Hb|Hb]; [left; by apply before_snoc|].
      right. apply Hop. split; auto.
Qed.

Lemma sort_recursion_ok fuel g n i w : graph_ok n g -> i < n -> walk_ok g w ->
  (forall x, open w x -> rtc (edge g) x i) -> unseen n w < fuel ->
  exists w', sort_dependencies_recursion fuel g i w = Some w' /\ walked g n w w' /\ i ∈ seen w'.
Proof.
  intros Hg. revert i w. induction fuel as [|fuel IH]; intros i w Hi Hw Hop Hf; [lia|].
  cbn [sort_dependencies_recursion]. case_decide as Hs; [exists w; eauto using walked_refl|].
  assert (Hnb : i ∉ branch w) by (intros H; by apply Hs, (walk_seen g)).
  set (w1 := mkWalk ({[ i ]} ∪ seen w) (branch w)). set (l := default [] (g !! i)).
  assert (Hedge : forall j, j ∈ l <-> edge g i j).
  { intros j. unfold l, edge. destruct (g !! i); cbn; [|rewrite elem_of_nil]; naive_solver. }
  destruct (walk_list_ok fuel g n l w1) as (w2 & Hw2 & Hwk & Hl).
  - intros j w' Hj. apply IH. eapply edge_in; [done|]. by apply Hedge.
  - by apply visit_ok.
  - intros x j [->|Hx]%visit_open Hj%Hedge; [by apply rtc_once| |done]. eapply rtc_r; [|done]. by apply Hop.
  - pose proof (unseen_visit n w i (branch w) Hi Hs). fold w1 in H. lia.
  - unfold walk_list in Hw2. fold w1. rewrite Hw2. cbn [mbind option_bind]. eexists. split; [done|].
    assert (Ho : forall x, open w2 x <-> x = i \/ open w x).
    { intros x. rewrite (walked_open _ _ _ _ Hwk). by apply visit_open. }
    assert (Hoi : open w2 i) by (apply Ho; by left).
    split; [|apply Hoi]. split.
    + apply finish_ok; [by eapply walked_ok|done| |by intros j Hj%Hedge; apply Hl].
      intros x [->|Hx]%Ho; [apply rtc_refl|by apply Hop].
    + cbn. etrans; [|by eapply walked_seen]. cbn. set_solver.
    + intros x. unfold open at 1. cbn. rewrite not_elem_of_app, list_elem_of_singleton. split.
      * intros (Hx & Hb & Hne). destruct (Ho x) as [H _]. destruct H; [by split|done|done].
      * intros Hx. pose proof (proj2 (Ho x) (or_intror Hx)) as [? ?]. split_and!; [done|done|].
        intros ->. apply Hs, Hx.
    + intros Hn. apply (walked_nodes _ _ _ _ Hwk). intros x [->%elem_of_singleton|Hx]%elem_of_union; auto.
Qed.

(** * The sorted nodes *)

Lemma get_sorted_ok g n : graph_ok n g ->
  exists l, get_sorted_dependencies g = Some l /\ Permutation l (seq 0 n) /\
    forall i j, edge g i j -> before l j i \/ rtc (edge g) j i.
Proof.
  intros Hg. pose proof Hg as [Hn _]. unfold get_sorted_dependencies, nodes_count. rewrite Hn.
  set (w0 := mkWalk ∅ []). assert (Hop : forall x, ~ open w0 x) by (intros x [Hx _]; set_solver).
  destruct (walk_list_ok (walk_fuel g) g n (seq 0 n) w0) as (w & Hw & Hwk & Hl).
  - intros i w Hi. apply sort_recursion_ok; [done|]. apply elem_of_seq in Hi. lia.
  - split; cbn; [by apply NoDup_nil|set_solver|set_solver].
  - intros x i Hx. by apply Hop in Hx.
  - unfold unseen, walk_fuel, nodes_count. cbn. rewrite Hn, difference_empty_L.
    rewrite size_set_seq. lia.
  - unfold walk_list in Hw. rewrite Hw. cbn. exists (branch w). split; [done|].
    pose proof (walked_ok _ _ _ _ Hwk) as [Hnd Hbs Hord].
    assert (Hin : forall x, x ∈ branch w <-> x < n).
    { intros x. split.
      - intros Hx. apply (walked_nodes _ _ _ _ Hwk); [cbn; set_solver|auto].
      - intros Hx. destruct (decide (x ∈ branch w)); [done|]. exfalso. apply (Hop x).
        apply (walked_open _ _ _ _ Hwk). split; [|done]. apply Hl, elem_of_seq. lia. }
    split.
    + apply NoDup_Permutation; [done|apply NoDup_seq|]. intros x. rewrite Hin, elem_of_seq. lia.
    + intros i j He. apply Hord; [|done]. apply Hin. by destruct (edge_in n g i j Hg He).
Qed.

(** * Cycles *)

Definition leaf (g : Graph) (i : nat) : Prop := g !! i = Some [].
#[local] Instance leaf_dec g i : Decision (leaf g i).
Proof. unfold leaf. apply _. Defined.

Lemma leaf_grounded g i : leaf g i -> grounded g i.
Proof. intros Hl. eapply grounded_intro; [done|]. intros j Hj. by apply elem_of_nil in Hj. Qed.

Lemma has_node_descendants_ok n g i : graph_ok n g -> i < n ->
  has_node_descendants g i = Ok (negb (bool_decide (leaf g i))).
Proof.
  intros [Hn _] Hi. rewrite <- Hn in Hi. apply lookup_lt_is_Some in Hi as [l Hl].
  unfold has_node_descendants. rewrite Hl. cbn. do 2 f_equal. apply bool_decide_ext. unfold leaf. rewrite Hl. naive_solver.
Qed.

Lemma taint_descendants_ok n g ds t c : graph_ok n g -> Forall (fun j => j < n) ds ->
  exists t' c', foldM (taint_descendant g) (t, c) ds = Ok (t', c') /\ t ⊆ t' /\
    (forall x, x ∈ t' -> x ∈ t \/ leaf g x) /\ c' <= c + length ds /\
    (c' = c + length ds <-> Forall (fun j => leaf g j \/ j ∈ t) ds).
Proof.
  intros Hg. revert t c. induction ds as [|d ds IH]; intros t c Hds.
  { exists t, c. cbn. split_and!; [done|done|by left|lia|]. split; [by constructor|lia]. }
  apply Forall_cons in Hds as [Hd Hds]. cbn [foldM]. unfold taint_descendant at 1.
  rewrite (has_node_descendants_ok n) by done. cbn [mbind res_bind]. rewrite negb_involutive, <- bool_decide_or.
  case_bool_decide as Ht.
  - destruct (IH ({[ d ]} ∪ t) (S c) Hds) as (t' & c' & -> & Hsub & Hleaf & Hc & Hall).
    assert (Hiff : forall x, leaf g x \/ x ∈ {[ d ]} ∪ t <-> leaf g x \/ x ∈ t) by (intros x; set_solver).
    exists t', c'. cbn [length]. split_and!; [done|set_solver| |lia|].
    + intros x [Hx|Hx]%Hleaf; [|by right]. specialize (Hiff x). tauto.
    + rewrite Forall_cons. transitivity (c' = S c + length ds); [lia|]. rewrite Hall.
      rewrite (Forall_iff _ _ _ Hiff). tauto.
  - destruct (IH t c Hds) as (t' & c' & -> & Hsub & Hleaf & Hc & Hall).
    exists t', c'. cbn [length]. split_and!; [done|done|done|lia|].
    rewrite Forall_cons. split; [lia|]. tauto.
Qed.

(** A node is tainted only when it is grounded, and it is when it is grounded and
    all that it depends on is tainted. *)
Lemma taint_node_ok n g t i : graph_ok n g -> i < n ->
  exists t', taint_node g t i = Ok t' /\ t ⊆ t' /\
    ((forall x, x ∈ t -> grounded g x) -> forall x, x ∈ t' -> grounded g x) /\
    ((forall j, edge g i j -> j ∈ t) -> i ∈ t').
Proof.
  intros Hg Hi. pose proof Hg as [Hn Hin]. rewrite <- Hn in Hi. apply lookup_lt_is_Some in Hi as [l Hl].
  unfold taint_node, get_node_descendants. rewrite Hl. cbn [expect_opt mbind res_bind].
  destruct (taint_descendants_ok n g l t 0 Hg) as (t' & c & -> & Hsub & Hleaf & _ & Hall).
  { by eapply Forall_lookup_1 in Hin. }
  cbn [mbind res_bind]. destruct (Nat.eqb_spec c (length l)) as [Hc|Hc].
  - eexists. split; [done|]. split; [set_solver|]. split; [|set_solver].
    apply Hall in Hc. intros Ht x [->%elem_of_singleton|Hx]%elem_of_union.
    + eapply grounded_intro; [done|]. intros j Hj. eapply Forall_forall in Hc; [|done].
      destruct Hc; [by apply leaf_grounded|auto].
    + destruct (Hleaf x Hx); [auto|by apply leaf_grounded].
  - exists t'. split; [done|]. split; [done|]. split.
    + intros Ht x Hx. destruct (Hleaf x Hx); [auto|by apply leaf_grounded].
    + intros He. destruct Hc. apply Hall, Forall_forall. intros j Hj. right. apply He. by exists l.
Qed.

Lemma before_NoDup p u r j : NoDup (p ++ u :: r) -> before (p ++ u :: r) j u -> j ∈ p.
Proof.
  intros Hnd (k1 & k2 & Heq & Hj). enough (length k1 = length p) as Hlen.
  { apply app_inj_1 in Heq as [-> _]; [done|by rewrite Hlen]. }
  eapply (NoDup_lookup _ _ _ u Hnd).
  - rewrite Heq, lookup_app_r by lia. by rewrite Nat.sub_diag.
  - rewrite lookup_app_r by lia. by rewrite Nat.sub_diag.
Qed.

Lemma taint_nodes_ok n g s p r t : graph_ok n g -> s = p ++ r -> NoDup s -> Forall (fun i => i < n) s ->
  (forall i j, edge g i j -> before s j i \/ rtc (edge g) j i) ->
  (forall x, x ∈ t -> grounded g x) -> (forall i, i ∈ p -> grounded g i -> i ∈ t) ->
  exists t', foldM (taint_node g) t r = Ok t' /\ (forall x, x ∈ t' -> grounded g x) /\
    (forall i, i ∈ s -> grounded g i -> i ∈ t').
Proof.
  intros Hg. revert p t. induction r as [|u r IH]; intros p t Hs Hnd Hlt Hord Hsound Hcomp.
  { exists t. split; [done|]. split; [done|]. rewrite app_nil_r in Hs. by subst. }
  assert (Hu : u < n) by (apply (proj1 (Forall_forall _ _) Hlt); subst; set_solver).
  destruct (taint_node_ok n g t u Hg Hu) as (t1 & Ht1 & Hsub & Hs1 & Hc1).
  cbn [foldM]. rewrite Ht1. cbn [mbind res_bind].
  apply (IH (p ++ [u])); [by rewrite <- app_assoc|done|done|done|by apply Hs1|].
  intros i [Hi| ->%list_elem_of_singleton]%elem_of_app Hgi; [by apply Hsub, Hcomp|].
  apply Hc1. intros j He. apply Hcomp; [|by eapply grounded_edge].
  destruct (Hord u j He) as [Hb|Hb]; [subst s; by eapply before_NoDup|].
  destruct (grounded_no_cycle g u Hgi). eapply tc_rtc_r; [by apply tc_once|done].
Qed.

(** A node that is not grounded leads to a cycle. *)
Lemma ungrounded_cycle n g s p (t : gset nat) : graph_ok n g -> NoDup s -> Forall (fun i => i < n) s ->
  (forall i j, edge g i j -> before s j i \/ rtc (edge g) j i) ->
  (forall i, i < n -> i ∈ t <-> grounded g i) -> p `prefix_of` s ->
  forall i, i ∈ p -> i ∉ t -> reaches_cycle g i.
Proof.
  intros Hg Hnd Hlt Hord Ht. induction p as [|u p IH] using rev_ind; intros [r Hs] i Hi Hit; [by apply elem_of_nil in Hi|].
  assert (Hp : p `prefix_of` s) by (exists ([u] ++ r); by rewrite app_assoc).
  apply elem_of_app in Hi as [Hi| ->%list_elem_of_singleton]; [by apply IH|].
  assert (Hu : u < n) by (apply (proj1 (Forall_forall _ _) Hlt); subst s; set_solver).
  pose proof Hu as Hu'. destruct Hg as [Hn Hin]. rewrite <- Hn in Hu'. apply lookup_lt_is_Some in Hu' as [l Hl].
  assert (Forall (fun j => j < n) l) as Hln by (by eapply Forall_lookup_1 in Hin).
  destruct (decide (Forall (fun j => j ∈ t) l)) as [Hall|Hex].
  - destruct Hit. apply Ht; [done|]. eapply grounded_intro; [done|]. intros j Hj.
    rewrite Forall_forall in Hall, Hln. apply Ht; auto.
  - apply not_Forall_Exists, Exists_exists in Hex as (j & Hj & Hjt); [|apply _].
    assert (He : edge g u j) by (by exists l).
    destruct (Hord u j He) as [Hb|Hb].
    + destruct (IH Hp j) as (k & Hk & Hc); [|done|exists k; split; [by eapply rtc_l|done]].
      subst s. rewrite <- app_assoc in Hnd, Hb. by eapply before_NoDup.
    + exists u. split; [apply rtc_refl|]. eapply tc_rtc_r; [by apply tc_once|done].
Qed.

Lemma cycle_node n g i j : graph_ok n g -> tc (edge g) i j -> i < n.
Proof. intros Hg Hc. inversion Hc; subst; eapply proj1; by eapply edge_in. Qed.
Lemma reaches_cycle_node n g i : graph_ok n g -> reaches_cycle g i -> i < n.
Proof. intros Hg (j & Hr & Hc). eapply cycle_node; [done|]. by eapply tc_rtc_l. Qed.

(** The tainted nodes are all the nodes exactly when nothing leads to a cycle. *)
Lemma full_set n (t : gset nat) : (forall i, i ∈ t -> i < n) -> base.size t = n <-> forall i, i < n -> i ∈ t.
Proof.
  intros Htn. assert (Hsub : t ⊆ set_seq 0 n) by (intros x Hx; apply elem_of_set_seq; specialize (Htn x Hx); lia).
  split.
  - intros Hsz i Hi. assert (t ≡ set_seq 0 n) as ->; [|apply elem_of_set_seq; lia].
    apply set_subseteq_size_equiv; [done|]. rewrite size_set_seq. lia.
  - intros Hall. rewrite <- (size_set_seq (C := gset nat) 0 n). apply set_size_proper. apply set_equiv_subseteq.
    split; [done|]. intros x Hx%elem_of_set_seq. apply Hall. lia.
Qed.

(** The cycle check: it accepts a graph without cycles, which the walk has sorted,
    and otherwise reports the nodes that lead to a cycle. *)
Lemma get_cycling_ok n g s : graph_ok n g -> Permutation s (seq 0 n) ->
  (forall i j, edge g i j -> before s j i \/ rtc (edge g) j i) ->
  (get_cycling_dependencies g s = Ok None /\ acyclic g /\ topological g s) \/
  (exists deps, get_cycling_dependencies g s = Ok (Some deps) /\ deps <> [] /\ NoDup deps /\
     forall i, i ∈ deps <-> reaches_cycle g i).
Proof.
  intros Hg Hs Hord. assert (Hnd : NoDup s) by (rewrite Hs; apply NoDup_seq).
  assert (Hin : forall i, i ∈ s <-> i < n) by (intros i; rewrite Hs, elem_of_seq; lia).
  assert (Hlt : Forall (fun i => i < n) s) by (apply Forall_forall; intros i; apply Hin).
  destruct (taint_nodes_ok n g s [] s ∅ Hg) as (t & Ht & Hsound & Hcomp);
    [done|done|done|done|set_solver|set_solver|].
  assert (Hiff : forall i, i < n -> i ∈ t <-> grounded g i) by (intros i Hi; split; [auto|by apply Hcomp, Hin]).
  assert (Htn : forall i, i ∈ t -> i < n).
  { intros i [j l Hl _]%Hsound. destruct Hg as [<- _]. by eapply lookup_lt_Some. }
  assert (length s = n) as Hlen by (rewrite Hs; apply length_seq).
  unfold get_cycling_dependencies. rewrite Ht, Hlen. cbn [mbind res_bind].
  destruct (Nat.eqb_spec (base.size t) n) as [Hsz|Hsz].
  - left. split; [done|]. pose proof (proj1 (full_set n t Htn) Hsz) as Hall. split.
    + intros i Hc. apply (grounded_no_cycle g i); [|done]. by eapply Hsound, Hall, cycle_node.
    + intros i j He. destruct (Hord i j He) as [Hb|Hb]; [done|]. exfalso.
      apply (grounded_no_cycle g i); [by eapply Hsound, Hall, cycle_node, tc_once|].
      eapply tc_rtc_r; [by apply tc_once|done].
  - right. eexists. split; [done|]. split_and!.
    + intros He. apply Hsz, full_set; [done|]. intros i Hi. destruct (decide (i ∈ t)); [done|].
      apply (f_equal (fun l => i ∈ l)) in He. exfalso. apply (not_elem_of_nil i). rewrite <- He.
      apply elem_of_elements, elem_of_difference. split; [by apply elem_of_list_to_set, Hin|done].
    + apply NoDup_elements.
    + intros i. rewrite elem_of_elements, elem_of_difference, elem_of_list_to_set. split.
      * intros [Hi Hit]. by apply (ungrounded_cycle n g s s t).
      * intros Hc. split; [by eapply Hin, reaches_cycle_node|].
        intros Hi%Hsound. by eapply grounded_reaches.
Qed.

(** * The graph of a contract *)

(** Steps that build the graph: they succeed, stay inside the [n] nodes and keep
    the edges. *)
Definition grows (n : nat) (g g' : Graph) : Prop := graph_ok n g' /\ forall i j, edge g i j -> edge g' i j.
Definition keeps (n : nat) (f : Graph -> ParseResult Graph) : Prop :=
  forall g, graph_ok n g -> exists g', f g = Ok g' /\ grows n g g'.

Lemma grows_refl n g : graph_ok n g -> grows n g g.
Proof. by split. Qed.
Lemma grows_trans n g1 g2 g3 : grows n g1 g2 -> grows n g2 g3 -> grows n g1 g3.
Proof. intros [? H1] [? H2]. split; auto. Qed.

Lemma keeps_ret n : keeps n Ok.
Proof. intros g Hg. exists g. auto using grows_refl. Qed.
Lemma keeps_bind n (f h : Graph -> ParseResult Graph) : keeps n f -> keeps n h -> keeps n (fun g => g ← f g; h g).
Proof.
  intros Hf Hh g Hg. destruct (Hf g Hg) as (g1 & -> & Hg1). cbn [mbind res_bind].
  destruct (Hh g1) as (g2 & -> & Hg2); [apply Hg1|].
  exists g2. split; [done|by eapply grows_trans].
Qed.
Lemma keeps_foldM {A} n (f : Graph -> A -> ParseResult Graph) l :
  (forall x, x ∈ l -> keeps n (fun g => f g x)) -> keeps n (fun g => foldM f g l).
Proof.
  induction l as [|x l IH]; intros Hl; [apply keeps_ret|].
  apply (keeps_bind n (fun g => f g x)); [apply Hl; left|]. apply IH. intros y Hy. apply Hl. by right.
Qed.
Lemma keeps_edge n i j : i < n -> j < n -> keeps n (fun g => add_directed_edge g i j).
Proof.
  intros Hi Hj g [Hn Hg]. unfold add_directed_edge. rewrite <- Hn in Hi. apply lookup_lt_is_Some in Hi as [l Hl].
  rewrite Hl. cbn [expect_opt mbind res_bind]. eexists. split; [done|]. split; [split|].
  - by rewrite length_insert.
  - apply Forall_insert; [done|]. apply Forall_app_2; [by eapply Forall_lookup_1 in Hg|by apply Forall_singleton].
  - intros i' j' (l' & Hl' & Hj'). destruct (decide (i = i')) as [<-|Hne].
    + exists (l ++ [j]). rewrite list_lookup_insert_eq by (by eapply lookup_lt_Some). split; [done|].
      rewrite Hl in Hl'. injection Hl' as <-. apply elem_of_app. by left.
    + exists l'. by rewrite list_lookup_insert_ne by done.
Qed.

(** The expressions inside an expression. *)
Definition children (e : PreSymbolicExpression) : list PreSymbolicExpression :=
  match e with PreList _ l | PreTuple _ l => l | _ => [] end.
Inductive inside : PreSymbolicExpression -> PreSymbolicExpression -> Prop :=
| inside_child x e : x ∈ children e -> inside x e
| inside_deeper x y e : inside x y -> y ∈ children e -> inside x e.

Lemma pre_strong_ind (P : PreSymbolicExpression -> Prop) :
  (forall e, (forall x, inside x e -> P x) -> P e) -> forall e, P e.
Proof.
  intros HP. enough (forall e, P e /\ forall x, inside x e -> P x) as H by (intros e; apply H).
  assert (Hstep : forall e, (forall x, x ∈ children e -> P x /\ forall y, inside y x -> P y) ->
    P e /\ forall x, inside x e -> P x).
  { intros e Hc. assert (Hin : forall x, inside x e -> P x).
    { intros x Hx. inversion Hx as [? ? Hin|? y ? Hxy Hin]; subst; [by apply Hc|]. by eapply Hc. }
    split; [by apply HP|done]. }
  induction e using pre_ind'; apply Hstep; cbn [children]; try (intros x Hx; by apply elem_of_nil in Hx);
    by apply Forall_forall.
Qed.

Lemma inside_down x y e : inside y e -> x ∈ children y -> inside x e.
Proof. intros Hy Hx. induction Hy; eauto using inside. Qed.

Section inner.
Context (n : nat) (probe : PreSymbolicExpression -> Graph -> ParseResult Graph).
(** What is probed is inside [e]. *)
Context (e : PreSymbolicExpression).
Hypothesis (IH : forall x, inside x e -> keeps n (probe x)).
#[local] Notation all_inside l := (forall x, x ∈ l -> inside x e).

Lemma keeps_all l : all_inside l -> keeps n (probe_all probe l).
Proof. intros Hl. apply keeps_foldM. auto. Qed.
Lemma keeps_pair pair : inside pair e -> keeps n (fun g => probe_pair probe g pair).
Proof.
  intros Hp. destruct pair as [| |b [|x [|y [|z l]]]| | | | |]; try apply keeps_ret. cbn. apply IH.
  eapply inside_down; [done|]. cbn. set_solver.
Qed.
Lemma keeps_pairs l : all_inside l -> keeps n (fun g => foldM (probe_pair probe) g l).
Proof. intros Hl. apply keeps_foldM. auto using keeps_pair. Qed.
Lemma keeps_tuple x : inside x e -> keeps n (probe_for_dependencies_in_tuple probe x).
Proof. intros Hx. destruct x; try apply keeps_ret. apply keeps_pairs. intros y Hy. by eapply inside_down. Qed.
Lemma keeps_tuples l : all_inside l -> keeps n (probe_for_dependencies_in_tuple_list probe l).
Proof. intros Hl. apply keeps_foldM. auto using keeps_tuple. Qed.
Lemma keeps_define_args x : inside x e -> keeps n (probe_for_dependencies_in_define_args probe x).
Proof.
  intros Hx. destruct x as [| |b [|y l]| | | | |]; try apply keeps_ret. apply keeps_pairs.
  intros z Hz. eapply inside_down; [done|]. cbn. by right.
Qed.
Lemma keeps_signature x : inside x e -> keeps n (fun g => probe_function_signature probe g x).
Proof.
  intros Hx. destruct x as [| |b [|y [|z [|u [|v l]]]]| | | | |]; try apply keeps_ret.
  apply (keeps_bind n); apply IH; (eapply inside_down; [done|]); cbn; set_solver.
Qed.

Lemma keeps_define d l : all_inside l -> keeps n (probe_define probe d l).
Proof.
  intros Hl. destruct d; try apply keeps_ret; destruct l as [|x [|y [|z [|u l]]]]; try apply keeps_ret;
    try (apply keeps_all; set_solver);
    try (apply (keeps_bind n); [apply keeps_define_args|apply IH]; apply Hl; set_solver);
    try (apply (keeps_bind n); apply keeps_tuple; apply Hl; set_solver).
  all: destruct y as [| |b sigs| | | | |]; try apply keeps_ret. apply keeps_foldM. intros f Hf. apply keeps_signature.
  apply (inside_down _ (PreList b sigs)); [|done]. apply Hl. set_solver.
Qed.

Lemma keeps_native f l alt : all_inside l -> keeps n alt ->
  keeps n (fun g => match probe_native probe f l g with Some r => r | None => alt g end).
Proof.
  intros Hl Halt. destruct f; try exact Halt; cbn [probe_native]; destruct l as [|x [|y [|z [|u l]]]]; try apply keeps_ret;
    try (apply keeps_tuples; set_solver); try (apply keeps_all; set_solver); try (apply IH; set_solver);
    try (apply (keeps_bind n); [apply keeps_tuple|apply keeps_all]; set_solver);
    try (apply (keeps_bind n); [apply IH|apply keeps_tuple]; set_solver);
    (apply (keeps_bind n); [apply IH; set_solver|]; apply (keeps_bind n); apply keeps_tuple; set_solver).
Qed.
End inner.

Section probes.
Context (n : nat) (m : TopLevelMap) (i : nat).
Hypothesis (Hi : i < n).
Hypothesis (Hm : forall name t, m !! name = Some t -> expr_index t < n).

Lemma keeps_name name id : keeps n (probe_name m i name id).
Proof.
  intros g. unfold probe_name. destruct (m !! name) as [t|] eqn:Ht; [|apply keeps_ret].
  destruct (negb _); [|apply keeps_ret]. apply keeps_edge; [done|by eapply Hm].
Qed.

Lemma keeps_probe e : keeps n (probe_for_dependencies m i e).
Proof.
  induction e as [e IH] using pre_strong_ind.
  destruct e as [| |b l|b l| | | |]; try apply keeps_ret; try apply keeps_name; cbn [probe_for_dependencies].
  - assert (Hl : forall x, x ∈ l -> inside x (PreList b l)) by (intros x Hx; by apply inside_child).
    pose proof (keeps_all _ _ _ IH l Hl) as Hall.
    destruct l as [|[| b' f| | | | | |] args]; try exact Hall.
    assert (Ha : forall x, x ∈ args -> inside x (PreList b (PreAtom b' f :: args))) by (intros x Hx; apply Hl; by right).
    destruct (DefineFunctions_lookup_by_name f); [by apply (keeps_define _ _ _ IH)|].
    destruct (NativeFunctions_lookup_by_name f); [|exact Hall]. by apply (keeps_native _ _ _ IH).
  - apply (keeps_tuples _ _ _ IH). intros x Hx. by apply inside_child.
Qed.
End probes.

Lemma enumerate_lookup {A} (l : list A) k x : (k, x) ∈ enumerate l <-> l !! k = Some x.
Proof.
  unfold enumerate. rewrite list_elem_of_lookup. split.
  - intros (j & Hj). apply lookup_zip_Some in Hj as [Hs Hx]. apply lookup_seq in Hs as [-> _]. done.
  - intros Hk. exists k. apply lookup_zip_Some. split; [|done]. apply lookup_seq. split; [done|]. by eapply lookup_lt_Some.
Qed.

Lemma enumerate_at {A} (l : list A) p k x : enumerate l !! p = Some (k, x) <-> k = p /\ l !! p = Some x.
Proof.
  unfold enumerate. rewrite lookup_zip_Some, lookup_seq. cbn. split; [by intros [[-> _] ?]|].
  intros [-> Hx]. pose proof (lookup_lt_Some _ _ _ Hx). done.
Qed.

Lemma collect_definitions_fold l g m g' m' : foldl collect_definition (g, m) l = (g', m') ->
  g' = g ++ replicate (length l) [] /\
  forall name t, m' !! name = Some t -> m !! name = Some t \/
    exists e x, (expr_index t, e) ∈ l /\ find_expression_definition e = Some (name, atom_index t, x).
Proof.
  revert g m. induction l as [|[k e] l IH]; intros g m; cbn [foldl].
  { intros [= <- <-]. split; [by rewrite app_nil_r|]. auto. }
  unfold collect_definition at 2. cbn [fst snd].
  destruct (find_expression_definition e) as [[[name id] x]|] eqn:He; intros [-> Hm]%IH;
    (split; [unfold add_node; by rewrite <- app_assoc|]); intros name' t Ht; apply Hm in Ht as [Ht|(e' & x' & Hin & Hf)].
  - destruct (decide (name' = name)) as [->|Hne].
    + rewrite lookup_insert_eq in Ht. injection Ht as <-. right. exists e, x. split; [left|done].
    + rewrite lookup_insert_ne in Ht by done. by left.
  - right. exists e', x'. split; [by right|done].
  - by left.
  - right. exists e', x'. split; [by right|done].
Qed.

(** The nodes are the expressions, and every definition is that of an expression. *)
Lemma collect_definitions_ok exprs g m : collect_definitions exprs = (g, m) ->
  graph_ok (length exprs) g /\
  forall name t, m !! name = Some t ->
    exists e x, exprs !! expr_index t = Some e /\ find_expression_definition e = Some (name, atom_index t, x).
Proof.
  intros [-> Hm]%collect_definitions_fold. split.
  - unfold enumerate. rewrite length_zip_with, length_seq, Nat.min_id. cbn.
    split; [by rewrite length_replicate|]. by apply Forall_replicate.
  - intros name t [Ht|(e & x & Hin & Hf)]%Hm; [done|]. exists e, x. split; [by apply enumerate_lookup|done].
Qed.

Lemma collect_definitions_index exprs g m name t : collect_definitions exprs = (g, m) -> m !! name = Some t ->
  expr_index t < length exprs.
Proof.
  intros [_ Hm]%collect_definitions_ok Ht. apply Hm in Ht as (e & x & He & _). by eapply lookup_lt_Some.
Qed.

(** The pass always has a graph. *)
Lemma dependency_graph_ok exprs : exists g, dependency_graph exprs = Ok g /\ graph_ok (length exprs) g.
Proof.
  unfold dependency_graph. destruct (collect_definitions exprs) as [g m] eqn:Hc.
  pose proof (collect_definitions_ok exprs g m Hc) as [Hg _].
  destruct (keeps_foldM (length exprs) (fun g '(i, e) => probe_for_dependencies m i e g) (enumerate exprs)) with (g := g)
    as (g' & Hg' & Hgr); [|done|by exists g'; split; [|apply Hgr]].
  intros [i e] Hin%enumerate_lookup. apply keeps_probe; [by eapply lookup_lt_Some|].
  intros name t. by apply (collect_definitions_index exprs g m).
Qed.

(** * What a dependency is *)

(** The forms whose arguments are not all probed as expressions. *)
Definition special_form (f : string) : bool :=
  match DefineFunctions_lookup_by_name f, NativeFunctions_lookup_by_name f with
  | Some _, _ => true
  | None, Some (N_FetchEntry | N_DeleteEntry | N_SetEntry | N_InsertEntry | N_ContractCall | N_Let | N_Len | N_TupleGet
               | N_TupleCons) => true
  | _, _ => false
  end.
Definition is_function_define (d : DefineFunctions) : bool :=
  match d with PublicFunction | PrivateFunction | ReadOnlyFunction => true | _ => false end.

(** An operation on a map, with its map and the given other arguments. *)
Definition map_form (f : string) (args : list PreSymbolicExpression) : bool :=
  match DefineFunctions_lookup_by_name f, NativeFunctions_lookup_by_name f, args with
  | None, Some (N_FetchEntry | N_DeleteEntry), [_] => true
  | None, Some (N_SetEntry | N_InsertEntry), [_; _] => true
  | _, _, _ => false
  end.

(** An occurrence of a name, with the identifier of the atom, where it is evaluated:
    in an application, in the value of a constant or a variable, in the body of a
    function, in the body and the bindings of a [let], in the arguments of a
    [contract-call?], of [len] and of [get], as the map of an operation on a map and
    in the pairs of its key and value.  (The value of a tuple, literal or made with
    [tuple], and a key or a value that is no list of pairs are no such places: the
    sorter does not look there.) *)
Inductive mentions (name : string) (id : Z) : PreSymbolicExpression -> Prop :=
| mentions_atom b : label_id b = id -> mentions name id (PreAtom b name)
| mentions_trait b : label_id b = id -> mentions name id (PreTraitReference b name)
| mentions_apply b l e :
    match l with PreAtom _ f :: _ => special_form f = false | _ => True end ->
    e ∈ l -> mentions name id e -> mentions name id (PreList b l)
| mentions_value b b' f d x l e :
    DefineFunctions_lookup_by_name f = Some d -> d = Constant \/ d = PersistedVariable ->
    e ∈ l -> mentions name id e -> mentions name id (PreList b (PreAtom b' f :: x :: l))
| mentions_body b b' f d signature body :
    DefineFunctions_lookup_by_name f = Some d -> is_function_define d = true ->
    mentions name id body -> mentions name id (PreList b [PreAtom b' f; signature; body])
| mentions_let_body b b' bindings l e :
    e ∈ l -> mentions name id e -> mentions name id (PreList b (PreAtom b' "let" :: bindings :: l))
| mentions_let_binding b b' b1 b2 bindings x y l e :
    PreList b2 [y; e] ∈ bindings -> mentions name id e ->
    mentions name id (PreList b (PreAtom b' "let" :: PreList b1 bindings :: x :: l))
| mentions_contract_call b b' x y l e :
    e ∈ l -> mentions name id e -> mentions name id (PreList b (PreAtom b' "contract-call?" :: x :: y :: l))
| mentions_len b b' e : mentions name id e -> mentions name id (PreList b [PreAtom b' "len"; e])
| mentions_get b b' x e : mentions name id e -> mentions name id (PreList b [PreAtom b' "get"; x; e])
| mentions_map b b' f e l : map_form f l = true -> mentions name id e -> mentions name id (PreList b (PreAtom b' f :: e :: l))
| mentions_map_pair b b' f x l b1 pairs b2 y e :
    map_form f l = true -> PreList b1 pairs ∈ l -> PreList b2 [y; e] ∈ pairs -> mentions name id e ->
    mentions name id (PreList b (PreAtom b' f :: x :: l)).

(** Steps that add an edge. *)
Definition adds (n i j : nat) (f : Graph -> ParseResult Graph) : Prop :=
  forall g, graph_ok n g -> exists g', f g = Ok g' /\ grows n g g' /\ edge g' i j.

Lemma adds_bind_l n i j (f h : Graph -> ParseResult Graph) :
  adds n i j f -> keeps n h -> adds n i j (fun g => g ← f g; h g).
Proof.
  intros Hf Hh g Hg. destruct (Hf g Hg) as (g1 & -> & Hg1 & He). cbn [mbind res_bind].
  destruct (Hh g1) as (g2 & -> & Hg2); [apply Hg1|]. exists g2. split_and!; [done|by eapply grows_trans|by apply Hg2].
Qed.
Lemma adds_bind_r n i j (f h : Graph -> ParseResult Graph) :
  keeps n f -> adds n i j h -> adds n i j (fun g => g ← f g; h g).
Proof.
  intros Hf Hh g Hg. destruct (Hf g Hg) as (g1 & -> & Hg1). cbn [mbind res_bind].
  destruct (Hh g1) as (g2 & -> & Hg2 & He); [apply Hg1|]. exists g2. split_and!; [done|by eapply grows_trans|done].
Qed.
Lemma adds_foldM {A} n i j (f : Graph -> A -> ParseResult Graph) l x :
  x ∈ l -> adds n i j (fun g => f g x) -> (forall y, y ∈ l -> keeps n (fun g => f g y)) -> adds n i j (fun g => foldM f g l).
Proof.
  intros Hx Ha. induction l as [|y l IH]; intros Hk; [by apply elem_of_nil in Hx|].
  apply elem_of_cons in Hx as [<-|Hx].
  - apply (adds_bind_l n i j (fun g => f g x)); [done|]. apply keeps_foldM. intros z Hz. apply Hk. by right.
  - apply (adds_bind_r n i j (fun g => f g y)); [apply Hk; left|]. apply IH; [done|]. intros z Hz. apply Hk. by right.
Qed.
Lemma adds_edge n i j : i < n -> j < n -> adds n i j (fun g => add_directed_edge g i j).
Proof.
  intros Hi Hj g Hg. destruct (keeps_edge n i j Hi Hj g Hg) as (g' & Hg' & Hgr). exists g'. split_and!; [done|done|].
  unfold add_directed_edge in Hg'. destruct Hg as [Hn _]. rewrite <- Hn in Hi. pose proof Hi as [l Hl]%lookup_lt_is_Some.
  rewrite Hl in Hg'. injection Hg' as <-. exists (l ++ [j]). rewrite list_lookup_insert_eq by done.
  split; [done|]. apply elem_of_app. right. by left.
Qed.

Section mentioned.
Context (n : nat) (m : TopLevelMap) (i : nat) (name : string) (id : Z) (t : TopLevelExpressionIndex).
Hypothesis (Hi : i < n).
Hypothesis (Hm : forall name t, m !! name = Some t -> expr_index t < n).
Hypothesis (Ht : m !! name = Some t).
Hypothesis (Hid : atom_index t <> id).
#[local] Notation adding e := (adds n i (expr_index t) (probe_for_dependencies m i e)).

Lemma adds_all l e : e ∈ l -> adding e -> adds n i (expr_index t) (probe_all (probe_for_dependencies m i) l).
Proof.
  intros He Ha. unfold probe_all. apply (adds_foldM _ _ _ (fun g expr => probe_for_dependencies m i expr g) l e); [done|done|].
  intros y _. by apply keeps_probe.
Qed.

Lemma adds_name : adds n i (expr_index t) (probe_name m i name id).
Proof. unfold probe_name. rewrite Ht, (proj2 (Z.eqb_neq _ _) Hid). cbn [negb]. apply adds_edge; [done|by eapply Hm]. Qed.

Lemma probe_apply b l : match l with PreAtom _ f :: _ => special_form f = false | _ => True end ->
  forall g, probe_for_dependencies m i (PreList b l) g = probe_all (probe_for_dependencies m i) l g.
Proof.
  intros Hf g. cbn [probe_for_dependencies]. destruct l as [|[| b' f| | | | | |] args]; try done.
  unfold special_form in Hf. destruct (DefineFunctions_lookup_by_name f); [done|].
  destruct (NativeFunctions_lookup_by_name f) as [[]|]; done.
Qed.

Lemma probe_map b b' f x l : map_form f l = true ->
  forall g, probe_for_dependencies m i (PreList b (PreAtom b' f :: x :: l)) g =
    (g ← probe_for_dependencies m i x g; foldM (fun g y => probe_for_dependencies_in_tuple (probe_for_dependencies m i) y g) g l).
Proof.
  intros Hf g. cbn [probe_for_dependencies]. unfold map_form in Hf. destruct (DefineFunctions_lookup_by_name f); [done|].
  destruct (NativeFunctions_lookup_by_name f) as [[]|]; try done; destruct l as [|k [|v [|]]]; try done; cbn [probe_native foldM];
    (destruct (probe_for_dependencies m i x g) as [g1| |]; [|done..]); cbn [mbind res_bind];
    (destruct (probe_for_dependencies_in_tuple _ k g1) as [g2| |]; [|done..]); cbn [mbind res_bind]; try done;
    by destruct (probe_for_dependencies_in_tuple _ v g2).
Qed.
Lemma adds_pair b2 y e pairs : PreList b2 [y; e] ∈ pairs -> adding e ->
  adds n i (expr_index t) (fun g => foldM (probe_pair (probe_for_dependencies m i)) g pairs).
Proof.
  intros Hp Ha. apply (adds_foldM _ _ _ _ _ _ Hp); [exact Ha|]. intros p _.
  apply (keeps_pair n (probe_for_dependencies m i) (PreTuple b2 [p])); [intros; by apply keeps_probe|].
  apply inside_child. cbn. by left.
Qed.
Lemma keeps_tuple_at x : keeps n (probe_for_dependencies_in_tuple (probe_for_dependencies m i) x).
Proof.
  apply (keeps_tuple n (probe_for_dependencies m i) (PreTuple fresh_label [x])); [intros; by apply keeps_probe|].
  apply inside_child. cbn. by left.
Qed.

(** A mention is an edge. *)
Lemma mentions_adds e : mentions name id e -> adding e.
Proof.
  induction 1 as [b Hb|b Hb|b l e Hf He _ IH|b b' f d x l e Hf Hd He _ IH|b b' f d sig body Hf Hd _ IH
                 |b b' bindings l e He _ IH|b b' b1 b2 bindings x y l e He _ IH|b b' x y l e He _ IH|b b' e _ IH|b b' x e _ IH
                 |b b' f e l Hf _ IH|b b' f x l b1 pairs b2 y e Hf Hl He _ IH].
  - intros g. cbn. rewrite Hb. apply adds_name.
  - intros g. cbn. rewrite Hb. apply adds_name.
  - intros g. rewrite (probe_apply b l Hf). by eapply adds_all.
  - intros g. cbn [probe_for_dependencies]. rewrite Hf. destruct Hd as [-> | ->]; by eapply adds_all.
  - intros g. cbn [probe_for_dependencies]. rewrite Hf. destruct d; try done; cbn [probe_define]; revert g;
      (apply adds_bind_r; [|done]); apply (keeps_define_args n (probe_for_dependencies m i) (PreTuple b [sig]));
      try (intros; by apply keeps_probe); apply inside_child; cbn; by left.
  - intros g. change (probe_for_dependencies m i (PreList b (PreAtom b' "let" :: bindings :: l)) g) with
      (match l with _ :: _ => g ← probe_for_dependencies_in_tuple (probe_for_dependencies m i) bindings g; probe_all (probe_for_dependencies m i) l g | [] => Ok g end).
    destruct l as [|z l]; [by apply elem_of_nil in He|]. revert g. apply adds_bind_r; [|by eapply adds_all].
    apply keeps_tuple_at.
  - intros g. change (probe_for_dependencies m i (PreList b (PreAtom b' "let" :: PreList b1 bindings :: x :: l)) g) with
      (g ← foldM (probe_pair (probe_for_dependencies m i)) g bindings; probe_all (probe_for_dependencies m i) (x :: l) g).
    revert g. apply adds_bind_l.
    + by eapply adds_pair.
    + apply (keeps_all n (probe_for_dependencies m i) (PreTuple b (x :: l))); [intros; by apply keeps_probe|].
      intros. by apply inside_child.
  - intros g. change (probe_for_dependencies m i (PreList b (PreAtom b' "contract-call?" :: x :: y :: l)) g) with
      (probe_all (probe_for_dependencies m i) l g). by eapply adds_all.
  - exact IH.
  - exact IH.
  - intros g. rewrite (probe_map b b' f e l Hf). revert g. apply adds_bind_l; [done|]. apply keeps_foldM. intros y _. apply keeps_tuple_at.
  - intros g. rewrite (probe_map b b' f x l Hf). revert g. apply adds_bind_r; [by apply keeps_probe|].
    apply (adds_foldM _ _ _ (fun g y => probe_for_dependencies_in_tuple (probe_for_dependencies m i) y g) l (PreList b1 pairs) Hl).
    + by eapply adds_pair.
    + intros z _. apply keeps_tuple_at.
Qed.
End mentioned.

(** * The pass *)

Section pass_facts.
Context {T} `{!CostTracker T}.
Implicit Types (a : ContractAST) (accounting : T).

Lemma run_charged a accounting g cnt accounting' :
  dependency_graph (ast_pre_expressions a) = Ok g -> edges_count g = Ok cnt ->
  runtime_cost cost_functions.AST_CYCLE_DETECTION accounting cnt = (accounting', Ok tt) ->
  DefinitionSorter_run a accounting = (accounting',
    sorted_indexes ← expect_opt (get_sorted_dependencies g);
    cycle ← get_cycling_dependencies g sorted_indexes;
    match cycle with
    | Some deps => parse_err (ParseErrors.CircularReference (definition_names (ast_pre_expressions a) deps))
    | None => Ok (ast_set_sorting a (Some sorted_indexes))
    end).
Proof. intros Hg Hc Hr. unfold DefinitionSorter_run. rewrite Hg. cbn [mbind res_bind]. rewrite Hc. cbn [mbind res_bind]. by rewrite Hr. Qed.

(** C10. The definition sorter always answers once its work is paid for.  On a
    contract whose dependencies have no cycle it orders the top-level expressions,
    each one exactly once and after everything it depends on; on any other contract
    it returns CircularReference with the definitions that lead to a cycle. *)
Theorem sorter_decides a accounting g cnt accounting' :
  dependency_graph (ast_pre_expressions a) = Ok g -> edges_count g = Ok cnt ->
  runtime_cost cost_functions.AST_CYCLE_DETECTION accounting cnt = (accounting', Ok tt) ->
  (acyclic g /\ exists sorted,
     DefinitionSorter_run a accounting = (accounting', Ok (ast_set_sorting a (Some sorted))) /\
     Permutation sorted (seq 0 (length (ast_pre_expressions a))) /\ topological g sorted) \/
  (~ acyclic g /\ exists deps,
     DefinitionSorter_run a accounting =
       (accounting', parse_err (ParseErrors.CircularReference (definition_names (ast_pre_expressions a) deps))) /\
     NoDup deps /\ forall i, i ∈ deps <-> reaches_cycle g i).
Proof.
  intros Hg Hc Hr. rewrite (run_charged a accounting g cnt accounting') by done.
  destruct (dependency_graph_ok (ast_pre_expressions a)) as (g' & Hg' & Hok). rewrite Hg in Hg'. injection Hg' as <-.
  destruct (get_sorted_ok g _ Hok) as (l & -> & Hl & Hord). cbn [expect_opt mbind res_bind].
  destruct (get_cycling_ok _ g l Hok Hl Hord) as [(-> & Hac & Ht)|(deps & -> & Hne & Hnd & Hd)]; cbn [mbind res_bind].
  - left. split; [done|]. by exists l.
  - right. split; [|by exists deps]. destruct deps as [|i deps]; [done|]. intros Hac.
    destruct (proj1 (Hd i) ltac:(left)) as (j & _ & Hj). by apply (Hac j).
Qed.

(** What a successful run has done. *)
Lemma sorter_run_Ok a accounting accounting' a' : DefinitionSorter_run a accounting = (accounting', Ok a') ->
  exists g sorted, dependency_graph (ast_pre_expressions a) = Ok g /\ a' = ast_set_sorting a (Some sorted) /\
    Permutation sorted (seq 0 (length (ast_pre_expressions a))) /\ topological g sorted.
Proof.
  unfold DefinitionSorter_run. destruct (dependency_graph_ok (ast_pre_expressions a)) as (g & Hg & Hok).
  rewrite Hg. cbn [mbind res_bind]. destruct (edges_count g) as [cnt| |]; [|done|done]. cbn [mbind res_bind].
  destruct (runtime_cost _ accounting cnt) as [acc r]. intros [= <- Hrun]. exists g.
  destruct r; cbn [map_err mbind res_bind] in Hrun; [|done|done].
  destruct (get_sorted_ok g _ Hok) as (l & Hs & Hl & Hord). rewrite Hs in Hrun. cbn [expect_opt mbind res_bind] in Hrun.
  destruct (get_cycling_ok _ g l Hok Hl Hord) as [(Hcy & Hac & Ht)|(deps & Hcy & _)]; rewrite Hcy in Hrun; cbn in Hrun; [|done].
  injection Hrun as <-. by exists l.
Qed.

(** The last definition of a name is the one that counts. *)
Lemma collect_definitions_last l1 l2 g m j d name aid x :
  find_expression_definition d = Some (name, aid, x) ->
  (forall k d' aid' x', (k, d') ∈ l2 -> find_expression_definition d' = Some (name, aid', x') -> False) ->
  (foldl collect_definition (g, m) (l1 ++ (j, d) :: l2)).2 !! name = Some (mkTopLevel j aid).
Proof.
  intros Hd Hlast. rewrite foldl_app. destruct (foldl collect_definition (g, m) l1) as [g1 m1]. cbn [foldl].
  unfold collect_definition at 2. cbn [fst snd]. rewrite Hd.
  assert (Hm : (<[name := mkTopLevel j aid]> m1) !! name = Some (mkTopLevel j aid)) by apply lookup_insert_eq.
  revert Hm. generalize (add_node g1) (<[name := mkTopLevel j aid]> m1). clear g1 m1.
  induction l2 as [|[k d'] l2 IH]; intros g1 m1 Hm; [done|]. cbn [foldl]. unfold collect_definition at 2. cbn [fst snd].
  assert (Hlast' : forall k d' aid' x', (k, d') ∈ l2 -> find_expression_definition d' = Some (name, aid', x') -> False)
    by (intros k' d'' aid' x' Hin; eapply Hlast; by right).
  destruct (find_expression_definition d') as [[[name' aid'] x']|] eqn:Hd'; apply IH; try done.
  rewrite lookup_insert_ne; [done|]. intros ->. eapply Hlast; [left|done].
Qed.

(** C15. After the sorting an expression that mentions a name, in a place at which
    the sorter looks, comes after the last expression that defines the name.  These
    places are the applications of functions and of the natives that take plain
    arguments, the bodies of functions, the values of constants and of variables,
    the bindings and the bodies of [let], the arguments of [contract-call?], [len]
    and [get], the maps of operations on maps and the pairs of their keys and
    values; not the values of tuples, nor a key or a value that is no list of
    pairs. *)
Theorem definitions_come_first a accounting accounting' a' i e name id j d aid x :
  DefinitionSorter_run a accounting = (accounting', Ok a') ->
  ast_pre_expressions a !! i = Some e -> mentions name id e ->
  ast_pre_expressions a !! j = Some d -> find_expression_definition d = Some (name, aid, x) -> aid <> id ->
  (forall k d' aid' x', j < k -> ast_pre_expressions a !! k = Some d' ->
     find_expression_definition d' = Some (name, aid', x') -> False) ->
  exists sorted, ast_top_level_expression_sorting a' = Some sorted /\ before sorted j i.
Proof.
  intros (g & sorted & Hg & -> & Hp & Ht)%sorter_run_Ok He Hme Hd Hf Hne Hlast. exists sorted. split; [done|]. apply Ht.
  set (exprs := ast_pre_expressions a) in *. unfold dependency_graph in Hg.
  destruct (collect_definitions exprs) as [g0 m] eqn:Hc.
  assert (Hm : m !! name = Some (mkTopLevel j aid)).
  { replace m with (collect_definitions exprs).2 by (by rewrite Hc). unfold collect_definitions.
    rewrite <- (take_drop_middle (enumerate exprs) j (j, d)) by (by apply enumerate_at).
    eapply collect_definitions_last; [done|]. intros k d' aid' x' [p Hk]%list_elem_of_lookup.
    rewrite lookup_drop in Hk. apply enumerate_at in Hk as [-> Hk]. eapply Hlast; [|done]. lia. }
  pose proof (collect_definitions_ok exprs g0 m Hc) as [Hg0 _].
  assert (Hidx : forall name t, m !! name = Some t -> expr_index t < length exprs)
    by (intros ? ?; by apply (collect_definitions_index exprs g0 m)).
  destruct (adds_foldM (length exprs) i j (fun g '(i, e) => probe_for_dependencies m i e g) (enumerate exprs) (i, e))
    with (g := g0) as (g' & Hg' & _ & Hedge); [by apply enumerate_lookup| | |done|].
  - change j with (expr_index (mkTopLevel j aid)). eapply mentions_adds; [by eapply lookup_lt_Some|done|done|done|done].
  - intros [k e'] Hin%enumerate_lookup. apply keeps_probe; [by eapply lookup_lt_Some|done].
  - rewrite Hg in Hg'. by injection Hg' as <-.
Qed.
End pass_facts.

(** * Dependencies that are not seen *)

(** A value of a tuple literal that has no pair inside: a call with atoms and
    literals for arguments, for example. *)
Definition no_pairs (v : PreSymbolicExpression) : Prop :=
  match v with PreList _ l => forall b x y, PreList b [x; y] ∈ l -> False | _ => True end.

(** The key of an operation on a map that is a name, and no list of pairs. *)
Lemma name_key_unseen m i b b' b1 x k g :
  probe_for_dependencies m i (PreList b [PreAtom b' "map-get?"; x; PreAtom b1 k]) g = probe_for_dependencies m i x g.
Proof.
  rewrite probe_map by done. cbn [foldM probe_for_dependencies_in_tuple]. by destruct (probe_for_dependencies m i x g).
Qed.

(** C37. The definition sorter does not look at the values of a tuple literal: it
    takes each value for a list of pairs, so that a call there is no dependency,
    whatever function it names, unless the function is called on a pair. *)
Theorem tuple_values_unseen m i b l g : Forall no_pairs l ->
  probe_for_dependencies m i (PreTuple b l) g = Ok g.
Proof.
  intros Hl. cbn [probe_for_dependencies]. unfold probe_for_dependencies_in_tuple_list.
  induction Hl as [|v l Hv _ IH]; [done|]. cbn [foldM].
  assert (probe_for_dependencies_in_tuple (probe_for_dependencies m i) v g = Ok g) as ->; [|exact IH].
  destruct v as [| |b' k| | | | |]; try done. cbn in *. induction k as [|p k IHk]; [done|]. cbn [foldM].
  assert (probe_pair (probe_for_dependencies m i) g p = Ok g) as ->.
  { destruct p as [| |b1 [|x [|y [|z p]]]| | | | |]; try done. destruct (Hv b1 x y). left. }
  apply IHk. intros b1 x y Hin. apply (Hv b1 x y). by right.
Qed.
