(* ===== verification/AstFacts.v ===== *)
(** What the passes over expressions guarantee: identifiers are distinct, draining
    follows the sorting, the depth check bounds the nesting of lists. *)
From stdpp Require Import base strings numbers list gmap.
From Stdlib Require Import ZArith Lia.
From S2P Require Import Prelude Names Types Representations Values Costs Interpreter Define Ast.
#[local] Open Scope Z_scope.

(** * Code that does not panic *)

Lemma bind_no_panic {E A B} (m : Res E A) (f : A -> Res E B) :
  m <> Panic -> (forall a, m = Ok a -> f a <> Panic) -> m ≫= f <> Panic.
Proof. destruct m; cbn; auto. Qed.
Lemma map_err_no_panic {E E' A} (f : E -> E') (m : Res E A) : m <> Panic -> map_err f m <> Panic.
Proof. by destruct m. Qed.
Lemma ok_or_no_panic {E A} (m : option A) (e : E) : ok_or m e <> Panic.
Proof. by destruct m. Qed.
Lemma foldM_no_panic {E A B} (f : B -> A -> Res E B) b l : (forall b x, x ∈ l -> f b x <> Panic) -> foldM f b l <> Panic.
Proof.
  revert b. induction l as [|x l IH]; intros b Hf; [done|]. cbn [foldM].
  apply bind_no_panic; [apply Hf; left|]. intros b' _. apply IH. intros b'' y Hy. apply Hf. by right.
Qed.
Lemma mapMR_no_panic {E A B} (f : A -> Res E B) l : Forall (fun x => f x <> Panic) l -> mapMR f l <> Panic.
Proof.
  induction 1 as [|x l Hx _ IH]; [done|]. cbn [mapMR]. apply bind_no_panic; [done|]. intros y _.
  apply bind_no_panic; [done|]. done.
Qed.
Create HintDb no_panic.
#[export] Hint Resolve map_err_no_panic ok_or_no_panic : no_panic.

(** * Identifiers *)

(** What [SymbolicExpressionCommon] promises: the identifier and the list of an
    expression are separate parts of it, and lists are nested. *)
Class CommonLaws (T : Type) `{!SymbolicExpressionCommon T} := {
  get_set_id i (e : T) : get_id (set_id i e) = i;
  put_get_id (e : T) l put l' : match_list_mut e = Some (l, put) -> get_id (put l') = get_id e;
  put_match (e : T) l put l' : match_list_mut e = Some (l, put) -> match_list_mut (put l') = Some (l', put);
  put_same (e : T) l put : match_list_mut e = Some (l, put) -> put l = e;
  put_depth (e : T) l put l' : match_list_mut e = Some (l, put) -> list_depth (put l') = S (depth_of_list l');
  match_depth (e : T) l put : match_list_mut e = Some (l, put) -> list_depth e = S (depth_of_list l);
  atom_depth (e : T) : match_list_mut e = None -> list_depth e = O;
  set_id_depth i (e : T) : list_depth (set_id i e) = list_depth e;
}.

#[global] Instance pre_common_laws : CommonLaws PreSymbolicExpression.
Proof.
  split; intros; match goal with e : _ |- _ => by destruct e; simplify_eq/= end.
Qed.
#[global] Instance expr_common_laws : CommonLaws SymbolicExpression.
Proof.
  split; intros; match goal with e : _ |- _ => by destruct e; simplify_eq/= end.
Qed.

Section relabel_facts.
Context {T} `{!SymbolicExpressionCommon T} `{!CommonLaws T}.
Implicit Types (e : T) (l args : list T).

(** The identifiers of an expression and of what is inside its lists, from left to
    right. *)
Fixpoint visible_ids (fuel : nat) (e : T) : list Z :=
  get_id e ::
  match fuel, match_list_mut e with
  | S fuel, Some (l, _) => flat_map (visible_ids fuel) l
  | _, _ => []
  end.

Lemma depth_of_cons e l : depth_of_list (e :: l) = Nat.max (list_depth e) (depth_of_list l).
Proof. done. Qed.
Lemma next_id_Ok c c' : next_id c = Ok c' <-> c' = c + 1 /\ in_u 64 (c + 1).
Proof. unfold next_id. rewrite ok_or_Ok. apply checked_add_Some. Qed.

(** Relabelling numbers the expressions one after the other. *)
Lemma relabel_each_ids fuel args c args' c' :
  (forall l i l' i', 0 <= i -> inner_relabel fuel l i = Ok (l', i') ->
     flat_map (visible_ids (pred fuel)) l' = seqZ (i + 1) (i' - i - 1) /\ i < i' < 2 ^ 64 /\ (depth_of_list l' < fuel)%nat) ->
  relabel_each (inner_relabel fuel) args c = Ok (args', c') -> 0 <= c < 2 ^ 64 ->
  flat_map (visible_ids fuel) args' = seqZ c (c' - c) /\ c <= c' < 2 ^ 64 /\ (depth_of_list args' < S fuel)%nat.
Proof.
  intros Hrec. revert c args'. induction args as [|e args IH]; intros c args'; cbn [relabel_each].
  { intros [= <- <-] Hc. cbn. rewrite Z.sub_diag. split; [done|]. split; [lia|]. unfold depth_of_list. cbn. lia. }
  intros Hb Hc. apply bind_Ok in Hb as ([e' c1] & He & Hb). apply bind_Ok in Hb as ([l' c2] & Hl & [= <- <-]).
  assert (visible_ids fuel e' = seqZ c (c1 - c) /\ c < c1 < 2 ^ 64 /\ (list_depth e' < S fuel)%nat) as (Hids & Hc1 & Hd).
  { unfold relabel_one in He. destruct (match_list_mut (set_id c e)) as [[l put]|] eqn:Hm.
    - apply bind_Ok in He as ([l1 c3] & Hin & [= <- <-]). apply Hrec in Hin as (Hf & Hlt & Hd); [|lia].
      destruct fuel as [|fuel]; [lia|]. cbn [visible_ids pred] in *.
      rewrite (put_match _ _ _ _ Hm), (put_get_id _ _ _ _ Hm), (put_depth _ _ _ _ Hm), get_set_id, Hf.
      split; [|lia]. rewrite (seqZ_cons c) by lia. do 2 f_equal; lia.
    - apply bind_Ok in He as (c3 & [-> Hu]%next_id_Ok & [= <- <-]).
      replace (visible_ids fuel (set_id c e)) with [c].
      + replace (c + 1 - c) with 1 by lia. rewrite (atom_depth _ Hm). unfold in_u in Hu. split; [done|]. lia.
      + destruct fuel; cbn [visible_ids]; rewrite ?Hm, get_set_id; done. }
  apply IH in Hl as (Hf & Hlt & Hd'); [|lia]. cbn [flat_map]. rewrite Hids, Hf, depth_of_cons.
  split; [|lia]. replace (c2 - c) with ((c1 - c) + (c2 - c1)) by lia. rewrite seqZ_app by lia. do 2 f_equal; lia.
Qed.

Lemma inner_relabel_ids fuel args i args' c : 0 <= i -> inner_relabel fuel args i = Ok (args', c) ->
  flat_map (visible_ids (pred fuel)) args' = seqZ (i + 1) (c - i - 1) /\ i < c < 2 ^ 64 /\ (depth_of_list args' < fuel)%nat.
Proof.
  revert args i args' c. induction fuel as [|fuel IH]; intros args i args' c Hi; cbn [inner_relabel]; [done|].
  intros (c0 & [-> Hu]%next_id_Ok & Hb)%bind_Ok. unfold in_u in Hu.
  apply relabel_each_ids in Hb as (Hf & Hlt & Hd); [|exact IH|lia]. cbn [pred]. rewrite Hf. split; [f_equal; lia|]. lia.
Qed.

(** What does not look at identifiers is not changed. *)
Lemma inner_relabel_observe {A} (F : T -> A) fuel args i args' c :
  (forall i e, F (set_id i e) = F e) ->
  (forall e l put l', match_list_mut e = Some (l, put) -> F <$> l' = F <$> l -> F (put l') = F e) ->
  inner_relabel fuel args i = Ok (args', c) -> F <$> args' = F <$> args.
Proof.
  intros Hset Hput. revert args i args' c. induction fuel as [|fuel IH]; intros args i args' c; cbn [inner_relabel]; [done|].
  intros (c0 & _ & Hb)%bind_Ok. revert c0 args' c Hb. induction args as [|e args IHa]; intros c0 args' c; cbn [relabel_each].
  { by intros [= <- _]. }
  intros ([e' c1] & He & ([l' c2] & Hl & [= <- <-])%bind_Ok)%bind_Ok. rewrite !fmap_cons, (IHa _ _ _ Hl). f_equal.
  unfold relabel_one in He. destruct (match_list_mut (set_id c0 e)) as [[l put]|] eqn:Hm.
  - apply bind_Ok in He as ([l1 c3] & Hin & [= <- <-]). rewrite <- (Hset c0 e). eapply Hput; [done|]. by eapply IH.
  - apply bind_Ok in He as (c3 & _ & [= <- <-]). apply Hset.
Qed.

(** The recursion has enough fuel. *)
Lemma inner_relabel_fuel fuel args i : (depth_of_list args < fuel)%nat -> inner_relabel fuel args i <> Panic.
Proof.
  revert args i. induction fuel as [|fuel IH]; intros args i Hd; [lia|]. cbn [inner_relabel].
  unfold next_id. destruct (checked_add 64 i 1) as [c|]; [|done]. cbn [ok_or mbind res_bind].
  revert c. induction args as [|e args IHa]; intros c; cbn [relabel_each]; [done|]. rewrite depth_of_cons in Hd.
  assert (relabel_one (inner_relabel fuel) e c <> Panic) as Ho.
  { unfold relabel_one. destruct (match_list_mut (set_id c e)) as [[l put]|] eqn:Hm.
    - apply match_depth in Hm. rewrite set_id_depth in Hm. specialize (IH l c). destruct (inner_relabel fuel l c) as [[]| |]; [done..|].
      destruct IH; [lia|done].
    - unfold next_id. by destruct (checked_add 64 c 1). }
  destruct (relabel_one (inner_relabel fuel) e c) as [[e' c']| |]; [|done|done]. cbn [mbind res_bind].
  specialize (IHa ltac:(lia) c'). by destruct (relabel_each (inner_relabel fuel) args c') as [[]| |].
Qed.

Lemma update_expression_id_no_panic l : update_expression_id l <> Panic.
Proof.
  unfold update_expression_id. pose proof (inner_relabel_fuel (S (depth_of_list l)) l 0 ltac:(lia)).
  by destruct (inner_relabel (S (depth_of_list l)) l 0) as [[]| |].
Qed.

Lemma update_expression_id_ids l l' : update_expression_id l = Ok l' ->
  exists fuel k, (depth_of_list l' <= fuel)%nat /\ flat_map (visible_ids fuel) l' = seqZ 1 k.
Proof.
  unfold update_expression_id. intros ([l1 c] & Hr & [= <-])%bind_Ok.
  apply inner_relabel_ids in Hr as (Hf & _ & Hd); [|done]. cbn [pred] in Hf.
  exists (depth_of_list l), (c - 0 - 1). split; [lia|done].
Qed.

Lemma update_expression_id_observe {A} (F : T -> A) l l' :
  (forall i e, F (set_id i e) = F e) ->
  (forall e l put l', match_list_mut e = Some (l, put) -> F <$> l' = F <$> l -> F (put l') = F e) ->
  update_expression_id l = Ok l' -> F <$> l' = F <$> l.
Proof.
  intros Hset Hput. unfold update_expression_id. intros ([l1 c] & Hr & [= <-])%bind_Ok. by eapply inner_relabel_observe.
Qed.
End relabel_facts.

(** The identifiers of an expression and of what is inside it. *)
Fixpoint expr_ids (e : SymbolicExpression) : list Z :=
  expr_id e :: match e with SList _ l => flat_map expr_ids l | _ => [] end.
(** An expression without its identifiers. *)
Fixpoint erase_ids (e : SymbolicExpression) : SymbolicExpression :=
  match e with
  | SList _ l => SList 0 (erase_ids <$> l)
  | _ => expr_set_id 0 e
  end.

Lemma max_list_elem (l : list nat) n : n ∈ l -> (n <= max_list l)%nat.
Proof. intros Hn. apply max_list_elem_of_le in Hn. done. Qed.

Lemma visible_expr_ids fuel e : (expr_list_depth e <= fuel)%nat -> visible_ids fuel e = expr_ids e.
Proof.
  revert e. induction fuel as [|fuel IH]; intros [] Hd; try done; cbn in Hd; [lia|]. cbn. f_equal.
  assert (Hl : Forall (fun e => (expr_list_depth e <= fuel)%nat) l).
  { apply Forall_forall. intros e He. etrans; [|apply le_S_n, Hd]. apply max_list_elem, list_elem_of_fmap_2, He. }
  clear Hd. induction Hl as [|e l He _ IHl]; cbn; [done|]. by rewrite IH, IHl.
Qed.

Lemma update_expr_ids l l' : update_expression_id l = Ok l' -> exists k, flat_map expr_ids l' = seqZ 1 k.
Proof.
  intros (fuel & k & Hd & Hf)%update_expression_id_ids. exists k. rewrite <- Hf. clear Hf.
  induction l' as [|e l' IH]; [done|]. rewrite depth_of_cons in Hd. cbn [flat_map].
  rewrite IH by lia. rewrite visible_expr_ids; [done|]. cbn in Hd. lia.
Qed.
Lemma update_erase_ids l l' : update_expression_id l = Ok l' -> erase_ids <$> l' = erase_ids <$> l.
Proof.
  apply update_expression_id_observe; [by intros i []|].
  intros [] k put k' Hm; simplify_eq/=. intros Hk. by f_equal.
Qed.

(** * Draining *)

(** The position that the iterator reads at an index. *)
Definition index_at (d : PreExpressionsDrain) (k : nat) : option nat :=
  match drain_sorting d with Some s => s !! k | None => Some k end.

(** An iterator that has the positions [r] of [xs] before it. *)
Record drains (xs : list PreSymbolicExpression) (r : list nat) (d : PreExpressionsDrain) : Prop := {
  drains_len : drain_len d = (drain_index d + length r)%nat;
  drains_index : forall p i, r !! p = Some i -> index_at d (drain_index d + p) = Some i;
  drains_nodup : NoDup r;
  drains_left : forall i, i ∈ r -> exists e, drain_pre_expressions d !! i = Some e /\ xs !! i = Some e;
}.

Lemma drain_visits_ok xs r d fuel : drains xs r d -> (length r < fuel)%nat ->
  drain_visits fuel d = Ok (omap (fun i => xs !! i) r).
Proof.
  revert d fuel. induction r as [|i r IH]; intros d fuel [Hlen Hidx Hnd Hleft] Hf; (destruct fuel as [|fuel]; [cbn in Hf; lia|]);
    cbn [drain_visits]; unfold drain_next.
  { rewrite (proj2 (Nat.leb_le _ _)) by (cbn in Hlen; lia). done. }
  rewrite (proj2 (Nat.leb_gt _ _)) by (cbn in Hlen; lia).
  pose proof (Hidx 0%nat i eq_refl) as Hi. rewrite Nat.add_0_r in Hi. unfold index_at in Hi.
  assert (match drain_sorting d with Some indirections => expect_opt (indirections !! drain_index d) | None => Ok (drain_index d) end
    = Ok (E := Empty_set) i) as ->.
  { destruct (drain_sorting d); [by rewrite Hi|by injection Hi as ->]. }
  cbn [mbind res_bind]. destruct (Hleft i ltac:(left)) as (e & -> & He). csimpl. rewrite He.
  apply NoDup_cons in Hnd as [Hni Hnd]. rewrite IH; [done| |cbn in Hf; lia]. split; cbn.
  - cbn in Hlen. lia.
  - intros p j Hp. rewrite <- (Hidx (S p) j) by done. unfold index_at. cbn. by rewrite Nat.add_succ_r.
  - done.
  - intros j Hj. rewrite lookup_delete_ne by (intros ->; done). apply Hleft. by right.
Qed.

Lemma drain_new_lookup l i e :
  (list_to_map (zip (seq 0 (length l)) l) : gmap nat PreSymbolicExpression) !! i = Some e <-> l !! i = Some e.
Proof.
  rewrite <- elem_of_list_to_map.
  - rewrite list_elem_of_lookup. split.
    + intros (k & Hk). apply lookup_zip_Some in Hk as [[-> _]%lookup_seq He]. done.
    + intros He. exists i. apply lookup_zip_Some. split; [|done]. apply lookup_seq. split; [done|]. by eapply lookup_lt_Some.
  - rewrite fst_zip by (by rewrite length_seq). apply NoDup_seq.
Qed.
Lemma drain_new_size l : base.size (list_to_map (zip (seq 0 (length l)) l) : gmap nat PreSymbolicExpression) = length l.
Proof.
  rewrite map_size_list_to_map; [rewrite length_zip_with, length_seq; lia|].
  rewrite fst_zip by (by rewrite length_seq). apply NoDup_seq.
Qed.

Lemma drain_iter_ok l sorting r : Permutation r (seq 0 (length l)) ->
  (forall p i, r !! p = Some i -> index_at (PreExpressionsDrain_new l sorting) p = Some i) ->
  drain_iter (PreExpressionsDrain_new l sorting) = Ok (omap (fun i => l !! i) r).
Proof.
  intros Hr Hidx. assert (Hlen : length r = length l) by (by rewrite Hr, length_seq).
  unfold drain_iter. cbn [PreExpressionsDrain_new drain_len]. rewrite drain_new_size. apply drain_visits_ok; [|lia].
  split; cbn.
  - by rewrite drain_new_size, Hlen.
  - intros p i Hp. by apply Hidx.
  - rewrite Hr. apply NoDup_seq.
  - intros i Hi. rewrite Hr in Hi. apply elem_of_seq in Hi. destruct (lookup_lt_is_Some_2 l i) as [e He]; [lia|].
    exists e. split; [by apply drain_new_lookup|done].
Qed.

Lemma omap_lookup_seq {A} (l k : list A) : omap (fun i => (k ++ l) !! i) (seq (length k) (length l)) = l.
Proof.
  revert k. induction l as [|x l IH]; intros k; [done|]. csimpl. rewrite list_lookup_middle by done. f_equal.
  specialize (IH (k ++ [x])). rewrite length_app, <- app_assoc in IH. cbn in IH. by rewrite Nat.add_1_r in IH.
Qed.

(** Without a sorting the expressions come in their order, with one in the order of
    the sorting. *)
Lemma drain_unsorted l : drain_iter (PreExpressionsDrain_new l None) = Ok l.
Proof.
  rewrite (drain_iter_ok l None (seq 0 (length l))); [f_equal; apply (omap_lookup_seq l [])|done|].
  by intros p i [-> _]%lookup_seq.
Qed.
Lemma drain_sorted l s : Permutation s (seq 0 (length l)) ->
  drain_iter (PreExpressionsDrain_new l (Some s)) = Ok (omap (fun i => l !! i) s).
Proof.
  intros Hs. apply drain_iter_ok; [done|]. unfold index_at. cbn. by destruct s.
Qed.

(** * Depth *)

Lemma foldM_unit {E A} (f : A -> Res E unit) l :
  foldM (fun _ x => f x) tt l = Ok tt <-> Forall (fun x => f x = Ok tt) l.
Proof.
  induction l as [|x l IH]; cbn [foldM]; [by split|]. rewrite Forall_cons, <- IH.
  destruct (f x) as [[]| |]; cbn [mbind res_bind]; naive_solver.
Qed.

Lemma Forall_depth l (n : nat) : Forall (fun e => (pre_list_depth e <= n)%nat) l <-> (depth_of_list l <= n)%nat.
Proof.
  induction l as [|e l IH]; [cbn; split; [lia|by constructor]|].
  rewrite Forall_cons, IH, depth_of_cons. cbn. lia.
Qed.

Lemma check_args_ok (f : PreSymbolicExpression -> Z -> ParseResult unit) l d :
  Forall (fun e => 0 <= d < AST_DEPTH_LIMIT -> f e d = Ok tt <-> d + Z.of_nat (pre_list_depth e) < AST_DEPTH_LIMIT) l ->
  0 <= d -> check_args f l d = Ok tt <-> d + Z.of_nat (depth_of_list l) < AST_DEPTH_LIMIT.
Proof.
  intros Hl Hd. unfold check_args. destruct (Z.leb_spec AST_DEPTH_LIMIT d); [split; [done|lia]|].
  rewrite (foldM_unit (fun e => f e d)).
  transitivity (Forall (fun e => (pre_list_depth e <= Z.to_nat (AST_DEPTH_LIMIT - 1 - d))%nat) l).
  - rewrite !Forall_forall. rewrite Forall_forall in Hl.
    split; intros H' e He; specialize (Hl e He ltac:(lia)); specialize (H' e He); [apply Hl in H'; lia|apply Hl; lia].
  - rewrite Forall_depth. lia.
Qed.

Lemma check_expression_ok e d : 0 <= d < AST_DEPTH_LIMIT ->
  check_expression e d = Ok tt <-> d + Z.of_nat (pre_list_depth e) < AST_DEPTH_LIMIT.
Proof.
  revert d. induction e as [| |b l IH| | | | |] using pre_ind'; intros d Hd; cbn [check_expression pre_list_depth];
    try (split; [lia|done]).
  assert (AST_DEPTH_LIMIT = 69) as HL by done. rewrite wrap_small by (unfold in_u; lia).
  rewrite check_args_ok; [|eapply Forall_impl; [exact IH|]; cbn; auto|lia].
  change (max_list (pre_list_depth <$> l)) with (depth_of_list l). lia.
Qed.

(** The depth check bounds the nesting of lists, exactly. *)
Lemma check_ok l : check l 0 = Ok tt <-> Z.of_nat (depth_of_list l) < AST_DEPTH_LIMIT.
Proof.
  unfold check. rewrite check_args_ok; [lia| |lia]. apply Forall_true. intros e. apply check_expression_ok.
Qed.

(** * Sugar *)

Lemma mapMR_fmap_eq {E A B} (f : A -> Res E B) l l' : f <$> l' = f <$> l -> mapMR f l' = mapMR f l.
Proof.
  revert l'. induction l as [|x l IH]; intros [|x' l'] Hl; try done. cbn [fmap list_fmap] in Hl. injection Hl as Hx Hl.
  cbn [mapMR]. by rewrite Hx, (IH l' Hl).
Qed.

(** Expanding does not look at identifiers. *)
Lemma transform_relabelled p tr l l' : update_expression_id l = Ok l' ->
  transform_expression p tr <$> l' = transform_expression p tr <$> l.
Proof.
  apply update_expression_id_observe; [by intros i []|].
  intros [] k put k' Hm; simplify_eq/=. intros Hk. by rewrite (mapMR_fmap_eq _ _ _ Hk).
Qed.

(** What is expanded has no identifiers yet. *)
Lemma erase_chunks l : Forall (fun e => erase_ids e = e) l -> erase_ids <$> (slist <$> chunks2 l) = slist <$> chunks2 l.
Proof.
  revert l. fix IH 1. intros [|x [|y l]] Hl; [done| |]; rewrite !Forall_cons in Hl; cbn.
  - destruct Hl as [-> _]. done.
  - destruct Hl as (-> & -> & Hl). f_equal. by apply IH.
Qed.
Lemma mapMR_Forall {E A B} (f : A -> Res E B) (P : B -> Prop) l l' :
  mapMR f l = Ok l' -> Forall (fun x => forall y, f x = Ok y -> P y) l -> Forall P l'.
Proof.
  intros Hl. apply mapMR_Ok_Forall2 in Hl. induction Hl as [|x y l l' Hxy _ IH]; intros Hf; [done|].
  apply Forall_cons in Hf as [Hx Hf]. constructor; auto.
Qed.
Lemma erase_fixed l : Forall (fun e => erase_ids e = e) l -> erase_ids <$> l = l.
Proof. induction 1 as [|e l He _ IH]; [done|]. cbn. by rewrite He, IH. Qed.
Lemma transform_erased p tr e e' : transform_expression p tr e = Ok e' -> erase_ids e' = e'.
Proof.
  revert e'. induction e as [| |b l IH|b l IH| | | |] using pre_ind'; intros e'; cbn [transform_expression];
    try (by intros [= <-]).
  - intros (l' & Hl & [= <-])%bind_Ok. cbn. f_equal. apply erase_fixed. by eapply mapMR_Forall.
  - intros (l' & Hl & [= <-])%bind_Ok. cbn. do 2 f_equal. apply erase_chunks. by eapply mapMR_Forall.
  - destruct (tr !! n); [|done]. by intros [= <-].
Qed.

(** * Traits *)

(** A trait that is referred to in the lists of an expression. *)
Inductive lists_trait (name : string) : PreSymbolicExpression -> Prop :=
| lists_trait_here b : lists_trait name (PreTraitReference b name)
| lists_trait_inside b l e : e ∈ l -> lists_trait name e -> lists_trait name (PreList b l).

Section probing.
#[local] Notation Generics := (gmap string PreSymbolicExpression).
Implicit Types (g : Generics).

(** Probing records every trait that is referred to, or rejects them all. *)
Definition records (f : Generics -> ParseResult Generics) (names : string -> Prop) : Prop :=
  forall g g', f g = Ok g' -> (forall n, is_Some (g !! n) -> is_Some (g' !! n)) /\ (forall n, names n -> is_Some (g' !! n)).

Lemma records_foldM (f : Generics -> PreSymbolicExpression -> ParseResult Generics) l :
  Forall (fun e => records (fun g => f g e) (fun n => lists_trait n e)) l ->
  records (fun g => foldM f g l) (fun n => exists e, e ∈ l /\ lists_trait n e).
Proof.
  induction 1 as [|e l He _ IH]; intros g g'; cbn [foldM].
  { intros [= <-]. split; [done|]. intros n (e & He & _). by apply elem_of_nil in He. }
  intros (g1 & Hg1 & Hg')%bind_Ok. destruct (He _ _ Hg1) as [Hm1 Hn1]. destruct (IH _ _ Hg') as [Hm2 Hn2]. split; [auto|].
  intros n (x & [->|Hx]%elem_of_cons & Hn); eauto.
Qed.

Lemma probe_generics_records e : records (fun g => probe_generics_in true g e) (fun n => lists_trait n e).
Proof.
  induction e as [| |b l IH| | | | |] using pre_ind'; intros g g'; cbn [probe_generics_in];
    try (intros [= <-]; split; [done|]; intros k Hk; by inversion Hk).
  - intros [Hm Hn]%(records_foldM _ _ IH). split; [done|]. intros k Hk. apply Hn. inversion Hk; subst. by eexists.
  - intros [= <-]. split.
    + intros k Hk. destruct (decide (k = n)) as [->|]; [by rewrite lookup_insert_eq|by rewrite lookup_insert_ne].
    + intros k Hk. inversion Hk; subst. by rewrite lookup_insert_eq.
Qed.
Lemma probe_for_generics_records l : records (fun g => probe_for_generics l g true) (fun n => exists e, e ∈ l /\ lists_trait n e).
Proof. apply records_foldM, Forall_true, probe_generics_records. Qed.

Lemma probe_generics_rejects e g g' : probe_generics_in false g e = Ok g' -> g' = g /\ forall n, ~ lists_trait n e.
Proof.
  revert g g'. induction e as [| |b l IH| | | | |] using pre_ind'; intros g g'; cbn [probe_generics_in]; try done;
    try (intros [= <-]; split; [done|]; intros k Hk; by inversion Hk).
  intros Hf. enough (g' = g /\ Forall (fun e => forall n, ~ lists_trait n e) l) as [-> Hl].
  { split; [done|]. intros n Hn. inversion Hn as [|? ? e He Hx]; subst. eapply Forall_forall in Hl; [|done]. by eapply Hl. }
  revert g g' Hf. induction IH as [|e l He _ IHl]; intros g g'; cbn [foldM]; [by intros [= <-]|].
  intros (g1 & [-> Hn]%He & [-> Hl]%IHl)%bind_Ok. split; [done|]. by constructor.
Qed.
Lemma probe_for_generics_rejects l g g' : probe_for_generics l g false = Ok g' ->
  g' = g /\ forall e n, e ∈ l -> ~ lists_trait n e.
Proof.
  unfold probe_for_generics. revert g g'. induction l as [|e l IH]; intros g g'; cbn [foldM].
  { intros [= <-]. split; [done|]. intros e n He. by apply elem_of_nil in He. }
  intros (g1 & [-> Hn]%probe_generics_rejects & [-> Hl]%IH)%bind_Ok. split; [done|].
  intros x n [->|Hx]%elem_of_cons; eauto.
Qed.
End probing.

(** The traits that a top-level expression refers to in signatures, those that it
    would store, and the one that it declares. *)
Definition refers (e : PreSymbolicExpression) (n : string) : Prop :=
  match try_parse_pre_expr e with
  | Some ((PublicFunction | PrivateFunction | ReadOnlyFunction), args) => exists x, x ∈ args /\ lists_trait n x
  | Some (Trait_, [_; PreList _ signatures]) => exists x, x ∈ signatures /\ lists_trait n x
  | _ => False
  end.
Definition stores (e : PreSymbolicExpression) (n : string) : Prop :=
  match try_parse_pre_expr e with
  | Some ((Constant | Map_ | PersistedVariable | FungibleToken_ | NonFungibleToken_), _ :: rest) =>
    exists x, x ∈ rest /\ lists_trait n x
  | _ => False
  end.
Definition declares (c : QualifiedContractIdentifier) (e : PreSymbolicExpression) (n : string) (d : TraitDefinition) : Prop :=
  match try_parse_pre_expr e with
  | Some (Trait_, [PreAtom _ name; _]) => n = name /\ d = Defined (mkTraitId name c)
  | Some (UseTrait, [PreAtom _ name; target]) => n = name /\ exists t, named_trait c target = Some t /\ d = Imported t
  | _ => False
  end.

(** Only the traits of the contract change. *)
Definition same_but_traits (a a' : ContractAST) : Prop :=
  exists referenced implemented, a' = ast_set_traits a referenced implemented.

#[local] Notation Generics := (gmap string PreSymbolicExpression).

(** What the loop of [run] does with an expression. *)
Record resolved (c : QualifiedContractIdentifier) (e : PreSymbolicExpression) (s s' : ContractAST * Generics) : Prop := {
  resolved_same : same_but_traits s.1 s'.1;
  resolved_kept : forall n d, ast_referenced_traits s.1 !! n = Some d -> ast_referenced_traits s'.1 !! n = Some d;
  resolved_recorded : forall n, is_Some (s.2 !! n) -> is_Some (s'.2 !! n);
  resolved_refers : forall n, refers e n -> is_Some (s'.2 !! n);
  resolved_stores : forall n, ~ stores e n;
  resolved_declares : forall n d, declares c e n d -> ast_referenced_traits s'.1 !! n = Some d;
}.

Lemma same_but_traits_refl a : same_but_traits a a.
Proof. exists (ast_referenced_traits a), (ast_implemented_traits a). by destruct a. Qed.
Lemma same_but_traits_trans a1 a2 a3 : same_but_traits a1 a2 -> same_but_traits a2 a3 -> same_but_traits a1 a3.
Proof. intros (r & i & ->) (r' & i' & ->). by exists r', i'. Qed.

Lemma referenced_before_Ok a n u : referenced_before a n = Ok u -> ast_referenced_traits a !! n = None.
Proof.
  unfold referenced_before. case_decide as Hd; [done|]. intros _. by apply eq_None_not_Some.
Qed.
Lemma reference_trait_kept a name d n d' : ast_referenced_traits a !! name = None ->
  ast_referenced_traits a !! n = Some d' -> ast_referenced_traits (reference_trait a name d) !! n = Some d'.
Proof. intros Hn Hd. cbn. rewrite lookup_insert_ne; [done|]. intros ->. congruence. Qed.

#[local] Ltac by_kind Hp :=
  split; unfold refers, stores, declares; rewrite ?Hp; cbn; try done; try (by intros ? []); try apply same_but_traits_refl.

Lemma resolve_expression_ok s e s' : resolve_expression s e = Ok s' -> resolved (ast_contract_identifier s.1) e s s'.
Proof.
  destruct s as [a g]. unfold resolve_expression. cbn [fst snd].
  destruct (try_parse_pre_expr e) as [[define_type args]|] eqn:Hp; [|intros [= <-]; by_kind Hp].
  destruct define_type; cbn [resolve_definition].
  all: try (intros (rest & Hr & (g' & [-> Hno]%probe_for_generics_rejects & [= <-])%bind_Ok)%bind_Ok;
    destruct args as [|x args]; [done|]; injection Hr as <-; by_kind Hp; intros n (y & Hy & Hn); by eapply Hno).
  all: try (intros (g' & [Hk Hn]%probe_for_generics_records & [= <-])%bind_Ok; by_kind Hp).
  - destruct args as [|[| b name| | | | | |] [|[| |b' sigs| | | | |] [|]]]; try done.
    intros (u & Hb%referenced_before_Ok & (g' & [Hk Hn]%probe_for_generics_records & [= <-])%bind_Ok)%bind_Ok. by_kind Hp.
    + by eexists _, _.
    + intros n d. by apply reference_trait_kept.
    + intros n d [-> ->]. apply lookup_insert_eq.
  - destruct args as [|[| b name| | | | | |] [|target [|]]]; try done.
    intros (u & Hb%referenced_before_Ok & (t & Ht%ok_or_Ok & [= <-])%bind_Ok)%bind_Ok. by_kind Hp.
    + by eexists _, _.
    + intros n d. by apply reference_trait_kept.
    + intros n d (-> & t' & Ht' & ->). rewrite Ht in Ht'. injection Ht' as <-. apply lookup_insert_eq.
  - destruct args as [|target [|]]; try done. intros (t & Ht%ok_or_Ok & [= <-])%bind_Ok. by_kind Hp. by eexists _, _.
Qed.

Lemma resolve_expressions_ok l s s' : foldM resolve_expression s l = Ok s' ->
  same_but_traits s.1 s'.1 /\ (forall n d, ast_referenced_traits s.1 !! n = Some d -> ast_referenced_traits s'.1 !! n = Some d) /\
  (forall n, is_Some (s.2 !! n) -> is_Some (s'.2 !! n)) /\
  forall e, e ∈ l -> (forall n, refers e n -> is_Some (s'.2 !! n)) /\ (forall n, ~ stores e n) /\
    forall n d, declares (ast_contract_identifier s.1) e n d -> ast_referenced_traits s'.1 !! n = Some d.
Proof.
  revert s. induction l as [|x l IH]; intros s; cbn [foldM].
  { intros [= <-]. split; [apply same_but_traits_refl|]. split_and!; [done|done|]. intros e He. by apply elem_of_nil in He. }
  intros (s1 & [Hs1 Hk1 Hr1 Hre Hst Hde]%resolve_expression_ok & (Hs2 & Hk2 & Hr2 & Hall)%IH)%bind_Ok.
  split_and!; [by eapply same_but_traits_trans|auto|auto|]. intros e [->|He]%elem_of_cons; [split_and!; auto|].
  destruct (Hall e He) as (H1 & H2 & H3). split_and!; [done|done|]. intros n d Hd. apply H3.
  destruct Hs1 as (r & i & ->). done.
Qed.

Lemma check_references_Ok a g u : check_references a g = Ok u ->
  forall n, is_Some (g !! n) -> is_Some (ast_referenced_traits a !! n).
Proof.
  unfold check_references. intros Hc n [e He]. destruct u.
  rewrite (foldM_unit (fun '(trait_reference, expr) => if decide (is_Some (ast_referenced_traits a !! trait_reference)) then Ok tt
    else Err (ParseError.set_pre_expression (ParseError.new (ParseErrors.TraitReferenceUnknown trait_reference)) expr))) in Hc.
  rewrite Forall_forall in Hc. specialize (Hc (n, e) ltac:(by apply elem_of_map_to_list)). cbn in Hc. by case_decide.
Qed.

(** C16. A contract that passes the traits resolver declares every trait that its
    public, private and read-only functions and its trait definitions refer to
    outside of tuple literals, each declared name stands for the trait that its
    declaration gives, and no constant, variable, map or token refers to a trait
    outside of tuple literals.  (The resolver does not look into tuple literals.) *)
Theorem traits_resolved a a' : TraitsResolver_run a = Ok a' ->
  same_but_traits a a' /\
  forall e, e ∈ ast_pre_expressions a ->
    (forall n, refers e n -> is_Some (ast_referenced_traits a' !! n)) /\ (forall n, ~ stores e n) /\
    forall n d, declares (ast_contract_identifier a) e n d -> ast_referenced_traits a' !! n = Some d.
Proof.
  unfold TraitsResolver_run. intros ([a1 g] & Hf & (u & Hc & [= <-])%bind_Ok)%bind_Ok.
  apply resolve_expressions_ok in Hf as (Hs & _ & _ & Hall). cbn [fst snd] in *. split; [done|].
  intros e He. destruct (Hall e He) as (H1 & H2 & H3). split_and!; [|done|done].
  intros n Hn%H1. by eapply check_references_Ok.
Qed.

(** * Depth that is not seen *)

(** Tuple literals inside each other. *)
Fixpoint nested_tuples (n : nat) : PreSymbolicExpression :=
  match n with
  | O => PreAtom fresh_label "x"
  | S n => PreTuple fresh_label [PreAtom fresh_label "a"; nested_tuples n]
  end.

(** The depth check does not look into tuple literals: expressions of any depth
    pass it, although the expander turns a tuple literal into two levels of lists, and
    the limit is on the nesting of lists. *)
Theorem tuple_depth_unseen p tr n : check [nested_tuples n] 0 = Ok tt /\
  exists e, transform_expression p tr (nested_tuples n) = Ok e /\ expr_list_depth e = (2 * n)%nat.
Proof.
  split; [apply check_ok; by destruct n|]. induction n as [|n (e & He & Hd)]; [by eexists|].
  cbn [nested_tuples transform_expression mapMR]. rewrite He. cbn [mbind res_bind]. eexists. split; [done|].
  cbn. rewrite Hd. lia.
Qed.
