(* ===== verification/Regex.v ===== *)
(** Regular expressions as the lexer uses them: the patterns as data, and the
    matching that the regex library documents, anchored at the start of the text.
    Among the ways to match, the library returns the one that a backtracking
    search finds first: alternatives from left to right, repetitions as long as
    possible.  The library itself is a parameter, the class [RegexEngine], whose
    law is this documented behaviour.  The lemmas say how long a match can be, which
    characters it can start with and contain, and how a repetition of a class of
    characters matches. *)
From stdpp Require Import base strings numbers list.
From Stdlib Require Import ZArith Lia.
From S2P Require Import Prelude Names.
#[local] Open Scope Z_scope.

Inductive Regex :=
| RClass (p : Z -> bool)
| RSeq (r1 r2 : Regex)
| RAlt (r1 r2 : Regex)
| RRep (min : nat) (max : option nat) (r : Regex)
| RValue (r : Regex).

Declare Scope regex_scope.
Delimit Scope regex_scope with regex.
Bind Scope regex_scope with Regex.
Infix "+++" := RSeq (at level 60, right associativity) : regex_scope.
Infix "+|+" := RAlt (at level 62, right associativity) : regex_scope.

(** Characters and texts; [*], [+], [?] and [{min,max}]. *)
Definition chr (c : Z) : Regex := RClass (Z.eqb c).
Definition star (r : Regex) : Regex := RRep 0 None r.
Definition plus (r : Regex) : Regex := RRep 1 None r.
Definition maybe (r : Regex) : Regex := RRep 0 (Some 1%nat) r.
Definition between (min max : nat) (r : Regex) : Regex := RRep min (Some max) r.

(** A match: its length, and the start and end of the group named [value]. *)
Record Match := mkMatch { m_end : nat; m_value : option (nat * nat) }.
Definition then_match (m1 m2 : Match) : Match :=
  mkMatch (m_end m1 + m_end m2)
    (match m_value m2 with
     | Some (a, b) => Some (m_end m1 + a, m_end m1 + b)%nat
     | None => m_value m1
     end).

Section repetition.
Context (step : list Z -> list Match).
(** One more round where the bound allows it and it consumes something, before
    stopping where enough rounds are done. *)
Fixpoint rep_matches (fuel : nat) (min : nat) (max : option nat) (s : list Z) : list Match :=
  match fuel with
  | O => []
  | S fuel =>
    (if decide (max = Some O) then []
     else flat_map (fun m =>
            if decide (m_end m = O) then []
            else then_match m <$> rep_matches fuel (pred min) (pred <$> max) (drop (m_end m) s)) (step s))
    ++ (if decide (min = O) then [mkMatch 0 None] else [])
  end.
End repetition.

(** All the matches at the start of a text, in the order of the search.  Every
    round of a repetition consumes a character of the text. *)
Fixpoint matches (r : Regex) (s : list Z) : list Match :=
  match r with
  | RClass p => match s with b :: _ => if p b then [mkMatch 1 None] else [] | [] => [] end
  | RSeq r1 r2 => flat_map (fun m1 => then_match m1 <$> matches r2 (drop (m_end m1) s)) (matches r1 s)
  | RAlt r1 r2 => matches r1 s ++ matches r2 s
  | RRep min max r => rep_matches (matches r) (S (length s)) min max s
  | RValue r => (fun m => mkMatch (m_end m) (Some (O, m_end m))) <$> matches r s
  end.

(** [Regex::captures] on a pattern that starts with [^]. *)
Class RegexEngine := { regex_captures : Regex -> list Z -> option Match }.
Class RegexLaws `{!RegexEngine} := {
  captures_leftmost_first r s : regex_captures r s = head (matches r s);
}.

(** Backtracking is such an engine. *)
Module Backtracking.
#[global] Instance backtracking : RegexEngine := {| regex_captures r s := head (matches r s) |}.
#[global] Instance backtracking_laws : RegexLaws.
Proof. done. Qed.
End Backtracking.

#[local] Open Scope nat_scope.

(** * Induction over the matches *)

(** A property of matches that the constructions of the matcher preserve holds of
    every match. *)
Section match_induction.
Context (P : Regex -> list Z -> Match -> Prop).
Hypothesis (Hclass : forall p b s, p b = true -> P (RClass p) (b :: s) (mkMatch 1 None)).
Hypothesis (Hseq : forall r1 r2 s m1 m2, P r1 s m1 -> P r2 (drop (m_end m1) s) m2 -> P (RSeq r1 r2) s (then_match m1 m2)).
Hypothesis (Halt1 : forall r1 r2 s m, P r1 s m -> P (RAlt r1 r2) s m).
Hypothesis (Halt2 : forall r1 r2 s m, P r2 s m -> P (RAlt r1 r2) s m).
Hypothesis (Hstop : forall max r s, P (RRep 0 max r) s (mkMatch 0 None)).
Hypothesis (Hmore : forall min max r s m1 m2, max <> Some 0 -> m_end m1 <> 0 -> P r s m1 ->
  P (RRep (pred min) (pred <$> max) r) (drop (m_end m1) s) m2 -> P (RRep min max r) s (then_match m1 m2)).
Hypothesis (Hvalue : forall r s m, P r s m -> P (RValue r) s (mkMatch (m_end m) (Some (0, m_end m)))).

Lemma match_ind r s m : m ∈ matches r s -> P r s m.
Proof.
  revert s m. induction r as [p|r1 IH1 r2 IH2|r1 IH1 r2 IH2|min max r IH|r IH]; intros s m; cbn [matches].
  - destruct s as [|b s]; [by intros ?%elem_of_nil|]. destruct (p b) eqn:Hb; [|by intros ?%elem_of_nil].
    intros ->%list_elem_of_singleton. auto.
  - rewrite list_elem_of_In, in_flat_map. setoid_rewrite <- list_elem_of_In.
    intros (m1 & H1 & (m2 & -> & H2)%list_elem_of_fmap). auto.
  - intros [?|?]%elem_of_app; auto.
  - generalize (S (length s)). intros fuel. revert min max s m. induction fuel as [|fuel IHf]; intros min max s m; cbn [rep_matches];
      [by intros ?%elem_of_nil|].
    intros [Hm|Hm]%elem_of_app.
    + case_decide as Hmax; [by apply elem_of_nil in Hm|].
      apply list_elem_of_In, in_flat_map in Hm as (m1 & H1%list_elem_of_In & Hm%list_elem_of_In).
      case_decide as He; [by apply elem_of_nil in Hm|]. apply list_elem_of_fmap in Hm as (m2 & -> & H2). auto.
    + case_decide as Hmin; [|by apply elem_of_nil in Hm]. apply list_elem_of_singleton in Hm as ->. subst. apply Hstop.
  - intros (m' & -> & Hm)%list_elem_of_fmap. auto.
Qed.
End match_induction.

(** A match is inside the text, and its value is inside the match. *)
Lemma match_bound r s m : m ∈ matches r s ->
  m_end m <= length s /\ forall a b, m_value m = Some (a, b) -> a <= b <= m_end m.
Proof.
  revert r s m. apply (match_ind (fun _ s m => m_end m <= length s /\ forall a b, m_value m = Some (a, b) -> a <= b <= m_end m)).
  - intros p b s _. cbn. split; [lia|done].
  - intros r1 r2 s m1 m2 [H1 V1] [H2 V2]. rewrite length_drop in H2. cbn. split; [lia|].
    intros a b. destruct (m_value m2) as [[a' b']|].
    + intros [= <- <-]. specialize (V2 _ _ eq_refl). lia.
    + intros Hv. specialize (V1 _ _ Hv). lia.
  - auto.
  - auto.
  - intros. cbn. split; [lia|done].
  - intros min max r s m1 m2 _ _ [H1 V1] [H2 V2]. rewrite length_drop in H2. cbn. split; [lia|].
    intros a b. destruct (m_value m2) as [[a' b']|].
    + intros [= <- <-]. specialize (V2 _ _ eq_refl). lia.
    + intros Hv. specialize (V1 _ _ Hv). lia.
  - intros r s m [H _]. cbn. split; [done|]. intros a b [= <- <-]. lia.
Qed.

(** Whether a pattern matches the empty text, and whether it captures a value. *)
Fixpoint nullable (r : Regex) : bool :=
  match r with
  | RClass _ => false
  | RSeq r1 r2 => nullable r1 && nullable r2
  | RAlt r1 r2 => nullable r1 || nullable r2
  | RRep min _ r => (min =? 0) || nullable r
  | RValue r => nullable r
  end.
Lemma match_consumes r s m : m ∈ matches r s -> nullable r = false -> m_end m <> 0.
Proof.
  revert r s m. apply (match_ind (fun r _ m => nullable r = false -> m_end m <> 0)); cbn.
  - done.
  - intros r1 r2 _ m1 m2 H1 H2 [H|H]%andb_false_iff; [specialize (H1 H)|specialize (H2 H)]; lia.
  - intros r1 r2 _ m H [? ?]%orb_false_iff. auto.
  - intros r1 r2 _ m H [? ?]%orb_false_iff. auto.
  - done.
  - intros. lia.
  - auto.
Qed.

(** The bytes of a match belong to the classes of the pattern. *)
Fixpoint classes (r : Regex) (P : Z -> Prop) : Prop :=
  match r with
  | RClass p => forall b, p b = true -> P b
  | RSeq r1 r2 | RAlt r1 r2 => classes r1 P /\ classes r2 P
  | RRep _ _ r | RValue r => classes r P
  end.
Lemma take_drop_Forall {A} (P : A -> Prop) n k (s : list A) :
  Forall P (take n s) -> Forall P (take k (drop n s)) -> Forall P (take (n + k) s).
Proof. intros H1 H2. rewrite <- (take_drop n (take (n + k) s)), take_take, Nat.min_l, skipn_firstn_comm by lia. apply Forall_app_2; [done|].
  by replace (n + k - n) with k by lia. Qed.
Lemma match_classes P r s m : m ∈ matches r s -> classes r P -> Forall P (take (m_end m) s).
Proof.
  revert r s m. apply (match_ind (fun r s m => classes r P -> Forall P (take (m_end m) s))); cbn [classes m_end then_match].
  - intros p b s Hb Hp. cbn. constructor; auto.
  - intros r1 r2 s m1 m2 H1 H2 [? ?]. apply take_drop_Forall; auto.
  - intros r1 r2 s m H [? ?]. auto.
  - intros r1 r2 s m H [? ?]. auto.
  - intros. constructor.
  - intros min max r s m1 m2 _ _ H1 H2 H. apply take_drop_Forall; auto.
  - auto.
Qed.

(** The characters that a match can start with. *)
Fixpoint may_start (r : Regex) (b : Z) : bool :=
  match r with
  | RClass p => p b
  | RSeq r1 r2 => may_start r1 b || nullable r1 && may_start r2 b
  | RAlt r1 r2 => may_start r1 b || may_start r2 b
  | RRep _ _ r | RValue r => may_start r b
  end.
Lemma match_start r s m : m ∈ matches r s ->
  (m_end m = 0 -> nullable r = true) /\ forall b, head s = Some b -> m_end m <> 0 -> may_start r b = true.
Proof.
  revert r s m.
  apply (match_ind (fun r s m => (m_end m = 0 -> nullable r = true) /\
    forall b, head s = Some b -> m_end m <> 0 -> may_start r b = true)); cbn [nullable may_start m_end then_match].
  - intros p b s Hb. split; [done|]. by intros b' [= <-].
  - intros r1 r2 s m1 m2 [N1 S1] [N2 S2]. split; [intros; rewrite N1, N2 by lia; done|].
    intros b Hb He. destruct (decide (m_end m1 = 0)) as [H0|H0]; [|by rewrite S1].
    rewrite N1 by done. rewrite H0, drop_0 in S2. rewrite S2 by (done || lia). by rewrite orb_true_r.
  - intros r1 r2 s m [N S]. split; [by intros ->%N|]. intros b Hb He. by rewrite S.
  - intros r1 r2 s m [N S]. split; [intros ->%N; by rewrite orb_true_r|]. intros b Hb He. rewrite S by done. by rewrite orb_true_r.
  - intros. split; done.
  - intros min max r s m1 m2 _ He [N1 S1] _. split; [lia|]. intros b Hb _. auto.
  - auto.
Qed.

(** A pattern that cannot start with a character does not match there. *)
Lemma matches_start r b s : nullable r = false -> may_start r b = false -> matches r (b :: s) = [].
Proof.
  intros Hn Hs. destruct (matches r (b :: s)) as [|m l] eqn:Hm; [done|].
  assert (Hin : m ∈ matches r (b :: s)) by (rewrite Hm; left).
  pose proof (match_consumes _ _ _ Hin Hn) as He. pose proof (proj2 (match_start _ _ _ Hin) b eq_refl He). congruence.
Qed.

(** * Classes of characters *)

(** A pattern that matches one character of a class. *)
Definition one_char (p : Z -> bool) (r : Regex) : Prop :=
  forall s, matches r s = match s with b :: _ => if p b then [mkMatch 1 None] else [] | [] => [] end.

Lemma one_char_class p : one_char p (RClass p).
Proof. by intros [|b s]. Qed.
Lemma one_char_alt p q r1 r2 : one_char p r1 -> one_char q r2 -> (forall b, p b = true -> q b = false) ->
  one_char (fun b => p b || q b) (RAlt r1 r2).
Proof.
  intros H1 H2 Hd s. cbn [matches]. rewrite H1, H2. destruct s as [|b s]; [done|].
  specialize (Hd b). destruct (p b); [by rewrite Hd|]. by destruct (q b).
Qed.

(** A repetition of a class takes a whole run of such characters first. *)
Lemma rep_run p r fuel min max run rest :
  one_char p r -> Forall (fun b => p b = true) run -> length run < fuel -> min <= length run ->
  match max with Some k => length run <= k | None => True end ->
  (max = Some (length run) \/ match rest with b :: _ => p b = false | [] => True end) ->
  head (rep_matches (matches r) fuel min max (run ++ rest)) = Some (mkMatch (length run) None).
Proof.
  intros Hr Hrun. revert fuel min max. induction Hrun as [|b run Hb Hrun IH]; intros fuel min max Hf Hmin Hmax Hend;
    (destruct fuel as [|fuel]; [cbn in Hf; lia|]); cbn [rep_matches app length] in *.
  - assert (min = 0) as -> by lia. rewrite Hr.
    destruct Hend as [->|Hrest]; [by rewrite decide_True|].
    case_decide; [done|]. destruct rest as [|b rest]; [done|]. by rewrite Hrest.
  - rewrite decide_False by (intros ->; lia). rewrite Hr, Hb. cbn [flat_map m_end]. rewrite decide_False by done.
    cbn [drop]. rewrite drop_0. assert (head (rep_matches (matches r) fuel (pred min) (pred <$> max) (run ++ rest)) = Some (mkMatch (length run) None)) as Hh.
    { apply IH; [lia|lia|destruct max; cbn; lia|]. destruct Hend as [->|Hend]; [by left|by right]. }
    destruct (rep_matches _ fuel _ _ (run ++ rest)) as [|m l]; [done|]. injection Hh as ->. reflexivity.
Qed.
(** and does not match where there are too few of them. *)
Lemma rep_none p r fuel max b rest : one_char p r -> p b = false -> rep_matches (matches r) fuel 1 max (b :: rest) = [].
Proof. intros Hr Hb. destruct fuel; [done|]. cbn [rep_matches]. rewrite Hr, Hb. by case_decide. Qed.
Lemma rep_none_nil p r fuel max : one_char p r -> rep_matches (matches r) fuel 1 max [] = [].
Proof. intros Hr. destruct fuel; [done|]. cbn [rep_matches]. rewrite Hr. by case_decide. Qed.
