(* ===== verification/Parser.v ===== *)
(** The lexer and the parser of src/vm/ast/parser/mod.rs: source text to tokens,
    tokens to expressions.  A text is the list of its UTF-8 bytes; the tokens only
    match ASCII characters, so that no slice splits a character.  The token parser
    accepts exactly a grammar of lists and tuple literals. *)
From stdpp Require Import base strings numbers list gmap.
From Stdlib Require Import ZArith Lia.
From S2P Require Import Prelude Names Types Representations Values Hex C32 Ast Regex.
#[local] Open Scope Z_scope.

(** * Tokens *)

Definition CONTRACT_MIN_NAME_LENGTH : nat := 5.
Definition CONTRACT_MAX_NAME_LENGTH : nat := 40.

Module LexItem.
Inductive t :=
| LeftParen
| RightParen
| LeftCurly
| RightCurly
| LiteralValue (length : Z) (value : Value)
| SugaredContractIdentifier (length : Z) (contract_name : string)
| SugaredFieldIdentifier (length : Z) (contract_name name : string)
| FieldIdentifier (length : Z) (trait_identifier : TraitIdentifier)
| TraitReference (length : Z) (name : string)
| Variable_ (name : string)
| CommaSeparator
| ColonSeparator
| Whitespace.
End LexItem.

Module TokenType.
Inductive t :=
| Whitespace | Comma | Colon | LParens | RParens | LCurly | RCurly | StringLiteral | HexStringLiteral | UIntLiteral
| IntLiteral | Variable_ | TraitReferenceLiteral | PrincipalLiteral | SugaredContractIdentifierLiteral
| FullyQualifiedContractIdentifierLiteral | SugaredFieldIdentifierLiteral | FullyQualifiedFieldIdentifierLiteral.
End TokenType.

Inductive LexContext := ExpectNothing | ExpectClosing.
Inductive ParseContext := CollectList | CollectTuple.

(** A pattern, which [LexMatcher::new] anchors, with what it recognises. *)
Record LexMatcher := mkMatcher { matcher : Regex; handler : TokenType.t }.

(** * Patterns *)

Section patterns.
#[local] Open Scope regex_scope.

(** [[:alnum:]], [[:word:]], [[:digit:]], [[:xdigit:]] and [[ -~]]. *)
Definition is_alnum (b : Z) : bool := is_alpha b || is_digit b.
Definition is_word (b : Z) : bool := is_alnum b || (b =? 95).
Definition is_xdigit (b : Z) : bool := is_digit b || byte_in 97 102 b || byte_in 65 70 b.
Definition is_printable (b : Z) : bool := byte_in 32 126 b.

Definition STANDARD_PRINCIPAL_REGEX : Regex := between 28 41 (RClass (one_of "0123456789ABCDEFGHJKMNPQRSTVWXYZ")).
Definition CONTRACT_NAME_REGEX : Regex :=
  RClass is_alpha +++
  between (CONTRACT_MIN_NAME_LENGTH - 1) (CONTRACT_MAX_NAME_LENGTH - 1) (RClass is_alnum +|+ RClass (one_of "-_")).
Definition CONTRACT_PRINCIPAL_REGEX : Regex := STANDARD_PRINCIPAL_REGEX +++ chr 46 +++ CONTRACT_NAME_REGEX.
Definition CLARITY_NAME_REGEX : Regex :=
  between 1 (Z.to_nat MAX_STRING_LEN) (RClass is_word +|+ RClass (one_of "-!?+<>=/*")).
(** The name of a field after the dot. *)
Definition FIELD_NAME_REGEX : Regex := between 1 (Z.to_nat MAX_STRING_LEN) (RClass is_alnum +|+ chr 45).

Definition lex_matchers : list LexMatcher :=
  [mkMatcher (chr 34 +++ RValue (star ((chr 92 +++ chr 34) +|+ RClass (fun b => is_printable b && negb (b =? 34)))) +++ chr 34)
     TokenType.StringLiteral;
   mkMatcher (chr 59 +++ chr 59 +++ star (RClass is_printable)) TokenType.Whitespace;
   mkMatcher (plus (chr 10)) TokenType.Whitespace;
   mkMatcher (plus (RClass (fun b => (b =? 32) || (b =? 9)))) TokenType.Whitespace;
   mkMatcher (chr 44) TokenType.Comma;
   mkMatcher (chr 58) TokenType.Colon;
   mkMatcher (chr 40) TokenType.LParens;
   mkMatcher (chr 41) TokenType.RParens;
   mkMatcher (chr 123) TokenType.LCurly;
   mkMatcher (chr 125) TokenType.RCurly;
   mkMatcher (chr 60 +++ RValue (plus (RClass is_word +|+ chr 45)) +++ chr 62) TokenType.TraitReferenceLiteral;
   mkMatcher (chr 48 +++ chr 120 +++ RValue (plus (RClass is_xdigit))) TokenType.HexStringLiteral;
   mkMatcher (chr 117 +++ RValue (plus (RClass is_digit))) TokenType.UIntLiteral;
   mkMatcher (RValue (maybe (chr 45) +++ plus (RClass is_digit))) TokenType.IntLiteral;
   mkMatcher (chr 39 +++ RValue (CONTRACT_PRINCIPAL_REGEX +++ chr 46 +++ FIELD_NAME_REGEX))
     TokenType.FullyQualifiedFieldIdentifierLiteral;
   mkMatcher (RValue (chr 46 +++ CONTRACT_NAME_REGEX +++ chr 46 +++ FIELD_NAME_REGEX))
     TokenType.SugaredFieldIdentifierLiteral;
   mkMatcher (chr 39 +++ RValue CONTRACT_PRINCIPAL_REGEX) TokenType.FullyQualifiedContractIdentifierLiteral;
   mkMatcher (RValue (chr 46 +++ CONTRACT_NAME_REGEX)) TokenType.SugaredContractIdentifierLiteral;
   mkMatcher (chr 39 +++ RValue STANDARD_PRINCIPAL_REGEX) TokenType.PrincipalLiteral;
   mkMatcher (RValue CLARITY_NAME_REGEX) TokenType.Variable_].
End patterns.

(** * Values of tokens *)

(** [input[start..end]]. *)
Definition slice (input : list Z) (from to : nat) : list Z := take (to - from) (drop from input).

Definition get_value_or_err (input : list Z) (captures : Match) : ParseResult (list Z) :=
  match m_value captures with
  | Some (from, to) => Ok (slice input from to)
  | None => parse_err ParseErrors.FailedCapturingInput
  end.

(** [from_str_radix(_, 10)] on an optional sign and digits. *)
Definition decimal_digits (l : list Z) : option Z :=
  match l with
  | [] => None
  | _ => if forallb is_digit l then Some (foldl (fun n b => n * 10 + (b - 48)) 0 l) else None
  end.
Definition u128_from_str (s : list Z) : option Z :=
  n ← decimal_digits (match s with 43 :: s => s | _ => s end);
  if n <? 2 ^ 128 then Some n else None.
Definition i128_from_str (s : list Z) : option Z :=
  match s with
  | 45 :: s => n ← decimal_digits s; if n <=? 2 ^ 127 then Some (- n) else None
  | _ => n ← decimal_digits (match s with 43 :: s => s | _ => s end); if n <? 2 ^ 127 then Some n else None
  end.

(** [str::replace] of two characters by one. *)
Fixpoint replace2 (a b c : Z) (s : list Z) : list Z :=
  match s with
  | x :: ((y :: s') as rest) => if (x =? a) && (y =? b) then c :: replace2 a b c s' else x :: replace2 a b c rest
  | _ => s
  end.

Section traits.
Context `{!Sha256} `{!ToUppercase}.
(** [TraitIdentifier::parse] and the parsers on it. *)
Definition BadName_to_vm (e : BadName) : VmError :=
  match e with BadNameValue label value => Runtime (RuntimeBadNameValue label value) end.
Definition TraitIdentifier_parse (literal : list Z) : Res VmError (option StandardPrincipalData * string * string) :=
  match split_dot literal with
  | (s0, Some rest) =>
    match split_dot rest with
    | (s1, Some s2) =>
      issuer ← match s0 with [] => Ok None | _ => p ← parse_standard_principal s0; Ok (Some p) end;
      contract_name ← map_err BadName_to_vm (ContractName_try_from (bytes_string s1));
      name ← map_err BadName_to_vm (ClarityName_try_from (bytes_string s2));
      Ok (issuer, contract_name, name)
    | _ => Err (Runtime (ParseError "Invalid principal literal: expected a `.` in a qualified contract name"))
    end
  | _ => Err (Runtime (ParseError "Invalid principal literal: expected a `.` in a qualified contract name"))
  end.
Definition parse_fully_qualified (literal : list Z) : Res VmError TraitIdentifier :=
  '(issuer, contract_name, name) ← TraitIdentifier_parse literal;
  issuer ← ok_or issuer (Runtime BadTypeConstruction);
  Ok (mkTraitId name (mkContractId issuer contract_name)).
Definition parse_sugared_syntax (literal : list Z) : Res VmError (string * string) :=
  '(_, contract_name, name) ← TraitIdentifier_parse literal;
  Ok (contract_name, name).
End traits.

(** [Display] of [HexError]; [{}] of a character. *)
Definition utf8_encode (c : Z) : list Z :=
  if c <? 0x80 then [c]
  else if c <? 0x800 then [0xC0 + c / 0x40; 0x80 + c mod 0x40]
  else if c <? 0x10000 then [0xE0 + c / 0x1000; 0x80 + c / 0x40 mod 0x40; 0x80 + c mod 0x40]
  else [0xF0 + c / 0x40000; 0x80 + c / 0x1000 mod 0x40; 0x80 + c / 0x40 mod 0x40; 0x80 + c mod 0x40].
Definition hex_error_display (e : HexError) : string :=
  match e with
  | BadLength n => "bad length " +:+ fmt_dec n +:+ " for sha256d hex string"
  | BadCharacter c => "bad character " +:+ bytes_string (utf8_encode c) +:+ " in sha256d hex string"
  end.

(** * The lexer *)

(** Whether a token closes an atom, and whether the next token has to. *)
Definition closes (h : TokenType.t) : bool :=
  match h with
  | TokenType.RParens | TokenType.RCurly | TokenType.Whitespace | TokenType.Comma | TokenType.Colon => true
  | _ => false
  end.
Definition context_after (h : TokenType.t) : LexContext :=
  match h with
  | TokenType.LParens | TokenType.Whitespace | TokenType.Comma | TokenType.Colon | TokenType.LCurly => ExpectNothing
  | _ => ExpectClosing
  end.

(** The token that a match of [handler] stands for. *)
Definition lex_item `{!Sha256} `{!ToUppercase} (h : TokenType.t) (current_slice : list Z) (captures : Match) : ParseResult LexItem.t :=
  let str_value := get_value_or_err current_slice captures in
  let literal (f : list Z -> ParseResult Value) : ParseResult LexItem.t :=
    s ← str_value; value ← f s; Ok (LexItem.LiteralValue (Z.of_nat (length s)) value) in
  match h with
  | TokenType.LParens => Ok LexItem.LeftParen
  | TokenType.RParens => Ok LexItem.RightParen
  | TokenType.Whitespace => Ok LexItem.Whitespace
  | TokenType.Comma => Ok LexItem.CommaSeparator
  | TokenType.Colon => Ok LexItem.ColonSeparator
  | TokenType.LCurly => Ok LexItem.LeftCurly
  | TokenType.RCurly => Ok LexItem.RightCurly
  | TokenType.Variable_ =>
    value ← str_value;
    if existsb (Z.eqb 35) value then parse_err (ParseErrors.IllegalVariableName (bytes_string value))
    else Ok (LexItem.Variable_ (bytes_string value))
  | TokenType.UIntLiteral => literal (fun s =>
    n ← ok_or (u128_from_str s) (ParseError.new (ParseErrors.FailedParsingIntValue (bytes_string s))); Ok (VUInt n))
  | TokenType.IntLiteral => literal (fun s =>
    n ← ok_or (i128_from_str s) (ParseError.new (ParseErrors.FailedParsingIntValue (bytes_string s))); Ok (VInt n))
  | TokenType.FullyQualifiedContractIdentifierLiteral => literal (fun s =>
    c ← map_err (fun _ => ParseError.new (ParseErrors.FailedParsingPrincipal (bytes_string s)))
          (QualifiedContractIdentifier_parse s);
    Ok (VPrincipal (Contract c)))
  | TokenType.SugaredContractIdentifierLiteral =>
    s ← str_value;
    value ← map_err (fun _ => ParseError.new (ParseErrors.FailedParsingPrincipal (bytes_string s)))
              (ContractName_try_from (bytes_string (drop 1 s)));
    Ok (LexItem.SugaredContractIdentifier (Z.of_nat (length s)) value)
  | TokenType.FullyQualifiedFieldIdentifierLiteral =>
    s ← str_value;
    value ← map_err (fun _ => ParseError.new (ParseErrors.FailedParsingField (bytes_string s))) (parse_fully_qualified s);
    Ok (LexItem.FieldIdentifier (Z.of_nat (length s)) value)
  | TokenType.SugaredFieldIdentifierLiteral =>
    s ← str_value;
    '(contract_name, field_name) ←
      map_err (fun _ => ParseError.new (ParseErrors.FailedParsingField (bytes_string s))) (parse_sugared_syntax s);
    Ok (LexItem.SugaredFieldIdentifier (Z.of_nat (length s)) contract_name field_name)
  | TokenType.PrincipalLiteral => literal (fun s =>
    p ← map_err (fun _ => ParseError.new (ParseErrors.FailedParsingPrincipal (bytes_string s))) (parse_standard_principal s);
    Ok (VPrincipal (Standard p)))
  | TokenType.TraitReferenceLiteral =>
    s ← str_value;
    data ← map_err (fun _ => ParseError.new (ParseErrors.IllegalVariableName (bytes_string s)))
             (ClarityName_try_from (bytes_string s));
    Ok (LexItem.TraitReference (Z.of_nat (length s)) data)
  | TokenType.HexStringLiteral => literal (fun s =>
    byte_vec ← map_err (fun x => ParseError.new (ParseErrors.FailedParsingHexValue (bytes_string s) (hex_error_display x)))
                 (hex_bytes (bytes_string s));
    map_err (fun _ => ParseError.new (ParseErrors.FailedParsingBuffer (bytes_string s))) (buff_from byte_vec))
  | TokenType.StringLiteral => literal (fun s =>
    let quote_unescaped := replace2 92 34 34 s in
    let slash_unescaped := replace2 92 92 92 quote_unescaped in
    map_err (fun _ => ParseError.new (ParseErrors.FailedParsingBuffer (bytes_string s))) (buff_from slash_unescaped))
  end.

(** [get_lines_at] before it is reversed: the positions of the line breaks, the
    next one first. *)
Fixpoint line_breaks_from (ix : nat) (input : list Z) : list nat :=
  match input with
  | [] => []
  | b :: input => if b =? 10 then ix :: line_breaks_from (S ix) input else line_breaks_from (S ix) input
  end.
Definition get_lines_at (input : list Z) : list nat := line_breaks_from 0 input.

(** The variables of the loop of [lex]; [next_line_break] is the head of
    [lex_line_indices]. *)
Record LexState := mkLex {
  lex_context : LexContext;
  lex_line_indices : list nat;
  lex_current_line : Z;
  lex_munch_index : nat;
  lex_column_pos : Z;
}.

(** The start of a round: at most one line break is passed. *)
Definition pass_line_break (s : LexState) : ParseResult LexState :=
  match lex_line_indices s with
  | next_line_ix :: line_indices =>
    if (next_line_ix <? lex_munch_index s)%nat then
      current_line ← ok_or (checked_add 32 (lex_current_line s) 1) (ParseError.new ParseErrors.ProgramTooLarge);
      Ok (mkLex (lex_context s) line_indices current_line (lex_munch_index s) 1)
    else Ok s
  | [] => Ok s
  end.

Section lex.
Context `{!RegexEngine} `{!Sha256} `{!ToUppercase}.

(** The loop over the matchers: the first one that matches. *)
Fixpoint first_match (matchers : list LexMatcher) (current_slice : list Z) : option (TokenType.t * Match) :=
  match matchers with
  | [] => None
  | m :: matchers =>
    match regex_captures (matcher m) current_slice with
    | Some captures => Some (handler m, captures)
    | None => first_match matchers current_slice
    end
  end.

(** What a round does with a match. *)
Definition accept_match (s : LexState) (current_slice : list Z) (h : TokenType.t) (captures : Match)
  : ParseResult ((LexItem.t * Z * Z) * LexState) :=
  let whole_match := m_end captures in
  _ ← match lex_context s with
      | ExpectNothing => Ok tt
      | ExpectClosing =>
        if closes h then Ok tt
        else parse_err (ParseErrors.SeparatorExpected (bytes_string (take whole_match current_slice)))
      end;
  token ← lex_item h current_slice captures;
  Ok ((token, lex_current_line s, lex_column_pos s),
      mkLex (context_after h) (lex_line_indices s) (lex_current_line s) (lex_munch_index s + whole_match)
        (wrap 32 (lex_column_pos s + wrap 32 (Z.of_nat whole_match)))).

(** The [while] loop. *)
Fixpoint lex_loop (fuel : nat) (input : list Z) (s : LexState) : ParseResult (list (LexItem.t * Z * Z)) :=
  if (lex_munch_index s =? length input)%nat then Ok []
  else match fuel with
  | O => Panic
  | S fuel =>
    s ← pass_line_break s;
    let current_slice := drop (lex_munch_index s) input in
    match first_match lex_matchers current_slice with
    | Some (h, captures) =>
      '(item, s) ← accept_match s current_slice h captures;
      result ← lex_loop fuel input s;
      Ok (item :: result)
    | None => parse_err (ParseErrors.FailedParsingRemainder (bytes_string current_slice))
    end
  end.

(** Every token has a character. *)
Definition lex (input : list Z) : ParseResult (list (LexItem.t * Z * Z)) :=
  lex_loop (length input) input (mkLex ExpectNothing (get_lines_at input) 1 0 1).
End lex.

(** * The parser *)

(** An open list or tuple of the parse stack, the innermost first. *)
Record Frame := mkFrame {
  frame_list : list PreSymbolicExpression;
  frame_line : Z;
  frame_column : Z;
  frame_context : ParseContext;
}.
Record ParseState := mkParse { parse_stack : list Frame; output_list : list PreSymbolicExpression }.

(** [parse_stack.last_mut()]: an expression goes to the innermost open list, or to
    the output. *)
Definition push_expression (s : ParseState) (e : PreSymbolicExpression) : ParseState :=
  match parse_stack s with
  | [] => mkParse [] (output_list s ++ [e])
  | f :: stack =>
    mkParse (mkFrame (frame_list f ++ [e]) (frame_line f) (frame_column f) (frame_context f) :: stack) (output_list s)
  end.
Definition open_frame (s : ParseState) (line_pos column_pos : Z) (c : ParseContext) : ParseState :=
  mkParse (mkFrame [] line_pos column_pos c :: parse_stack s) (output_list s).

(** The last column of a token, which may be empty. *)
Definition token_end (column_pos length : Z) : Z :=
  let end_column := wrap 32 (column_pos + wrap 32 length) in
  if 0 <? length then wrap 32 (end_column - 1) else end_column.
(** The last column of a name. *)
Definition name_end (column_pos : Z) (name : string) : Z :=
  wrap 32 (wrap 32 (column_pos + wrap 32 (str_len name)) - 1).

Definition illegal_name (name : string) : BadName -> ParseError.t :=
  fun _ => ParseError.new (ParseErrors.IllegalVariableName name).

(** One round of the loop of [parse_lexed]. *)
Definition parse_step (s : ParseState) (token : LexItem.t * Z * Z) : ParseResult ParseState :=
  let '(item, line_pos, column_pos) := token in
  let push (e : PreSymbolicExpression) (end_column : Z) : ParseState :=
    push_expression s (set_span e line_pos column_pos line_pos end_column) in
  match item with
  | LexItem.LeftParen => Ok (open_frame s line_pos column_pos CollectList)
  | LexItem.RightParen =>
    match parse_stack s with
    | f :: stack =>
      match frame_context f with
      | CollectList =>
        Ok (push_expression (mkParse stack (output_list s))
              (set_span (PreList fresh_label (frame_list f)) (frame_line f) (frame_column f) line_pos column_pos))
      | CollectTuple => parse_err ParseErrors.ClosingTupleLiteralExpected
      end
    | [] => parse_err ParseErrors.ClosingParenthesisUnexpected
    end
  | LexItem.LeftCurly => Ok (open_frame s line_pos column_pos CollectTuple)
  | LexItem.RightCurly =>
    match parse_stack s with
    | f :: stack =>
      match frame_context f with
      | CollectTuple =>
        Ok (push_expression (mkParse stack (output_list s))
              (set_span (PreTuple fresh_label (frame_list f)) (frame_line f) (frame_column f) line_pos column_pos))
      | CollectList => parse_err ParseErrors.ClosingParenthesisExpected
      end
    | [] => parse_err ParseErrors.ClosingTupleLiteralUnexpected
    end
  | LexItem.Variable_ value =>
    name ← map_err (illegal_name value) (ClarityName_try_from value);
    Ok (push (PreAtom fresh_label name) (name_end column_pos value))
  | LexItem.LiteralValue length value => Ok (push (PreAtomValue fresh_label value) (token_end column_pos length))
  | LexItem.SugaredContractIdentifier length value =>
    Ok (push (PreSugaredContractIdentifier fresh_label value) (token_end column_pos length))
  | LexItem.SugaredFieldIdentifier length contract_name name =>
    Ok (push (PreSugaredFieldIdentifier fresh_label contract_name name) (token_end column_pos length))
  | LexItem.FieldIdentifier length trait_identifier =>
    Ok (push (PreFieldIdentifier fresh_label trait_identifier) (token_end column_pos length))
  | LexItem.TraitReference _ value => Ok (push (PreTraitReference fresh_label value) (name_end column_pos value))
  | LexItem.ColonSeparator =>
    match parse_stack s with
    | mkFrame list _ _ CollectTuple :: _ =>
      if Nat.even (length list) then parse_err ParseErrors.ColonSeparatorUnexpected else Ok s
    | _ => parse_err ParseErrors.ColonSeparatorUnexpected
    end
  | LexItem.CommaSeparator =>
    match parse_stack s with
    | mkFrame list _ _ CollectTuple :: _ =>
      if (length list =? 0)%nat || Nat.odd (length list) then parse_err ParseErrors.CommaSeparatorUnexpected else Ok s
    | _ => parse_err ParseErrors.CommaSeparatorUnexpected
    end
  | LexItem.Whitespace => Ok s
  end.

Definition parse_lexed (input : list (LexItem.t * Z * Z)) : ParseResult (list PreSymbolicExpression) :=
  s ← foldM parse_step (mkParse [] []) input;
  match parse_stack s with
  | [] => Ok (output_list s)
  | _ => parse_err ParseErrors.ClosingParenthesisExpected
  end.

Definition parse `{!RegexEngine} `{!Sha256} `{!ToUppercase} (input : list Z) : ParseResult (list PreSymbolicExpression) :=
  lexed ← lex input; parse_lexed lexed.

(** * The grammar *)

#[local] Notation Token := (LexItem.t * Z * Z)%type.

(** The expression that a token is by itself. *)
Definition token_expression (t : Token) : option PreSymbolicExpression :=
  let '(item, line, column) := t in
  let at_end (e : PreSymbolicExpression) (end_column : Z) := Some (set_span e line column line end_column) in
  match item with
  | LexItem.Variable_ name =>
    if is_ok (ClarityName_try_from name) then at_end (PreAtom fresh_label name) (name_end column name) else None
  | LexItem.LiteralValue len value => at_end (PreAtomValue fresh_label value) (token_end column len)
  | LexItem.SugaredContractIdentifier len c => at_end (PreSugaredContractIdentifier fresh_label c) (token_end column len)
  | LexItem.SugaredFieldIdentifier len c n => at_end (PreSugaredFieldIdentifier fresh_label c n) (token_end column len)
  | LexItem.FieldIdentifier len t => at_end (PreFieldIdentifier fresh_label t) (token_end column len)
  | LexItem.TraitReference _ n => at_end (PreTraitReference fresh_label n) (name_end column n)
  | _ => None
  end.

(** What may stand between the expressions of a list or of a tuple literal that has
    [n] expressions so far: a colon only after a key, a comma only after a value. *)
Definition separator (c : ParseContext) (n : nat) (item : LexItem.t) : bool :=
  match item, c with
  | LexItem.Whitespace, _ => true
  | LexItem.ColonSeparator, CollectTuple => Nat.odd n
  | LexItem.CommaSeparator, CollectTuple => Nat.even n && negb (n =? 0)%nat
  | _, _ => false
  end.

(** The tokens of an expression, and of the expressions of a list or a tuple. *)
Inductive expression : list Token -> PreSymbolicExpression -> Prop :=
| expression_token t e : token_expression t = Some e -> expression [t] e
| expression_list line column ts es line' column' :
    expressions CollectList ts es ->
    expression (((LexItem.LeftParen, line, column) :: ts) ++ [(LexItem.RightParen, line', column')])
      (set_span (PreList fresh_label es) line column line' column')
| expression_tuple line column ts es line' column' :
    expressions CollectTuple ts es ->
    expression (((LexItem.LeftCurly, line, column) :: ts) ++ [(LexItem.RightCurly, line', column')])
      (set_span (PreTuple fresh_label es) line column line' column')
with expressions : ParseContext -> list Token -> list PreSymbolicExpression -> Prop :=
| expressions_nil c : expressions c [] []
| expressions_separator c ts es item line column :
    expressions c ts es -> separator c (length es) item = true -> expressions c (ts ++ [(item, line, column)]) es
| expressions_snoc c ts es t e : expressions c ts es -> expression t e -> expressions c (ts ++ t) (es ++ [e]).

Scheme expression_mind := Minimality for expression Sort Prop
  with expressions_mind := Minimality for expressions Sort Prop.
Combined Scheme grammar_ind from expression_mind, expressions_mind.

(** * The parser follows the grammar *)

Lemma parse_step_token s t e : token_expression t = Some e -> parse_step s t = Ok (push_expression s e).
Proof.
  destruct t as [[item line] column]. destruct item; cbn [token_expression parse_step]; try done;
    try (intros [= <-]; done).
  unfold ClarityName_try_from, guarded_try_from.
  destruct (_ <? _); [done|]. destruct (clarity_name_regex _); [|done]. by intros [= <-].
Qed.

Lemma parse_step_separator s item line column c l stack line0 column0 out :
  separator c (length l) item = true -> s = mkParse (mkFrame l line0 column0 c :: stack) out ->
  parse_step s (item, line, column) = Ok s.
Proof.
  intros Hs ->. destruct item, c; try done; cbn in *.
  - destruct (length l) as [|n]; [done|]. cbn [Nat.eqb orb negb] in *. rewrite andb_true_r in Hs.
    unfold Nat.odd. by rewrite Hs.
  - unfold Nat.odd in Hs. by destruct (Nat.even (length l)).
Qed.

Lemma grammar_accepted :
  (forall ts e, expression ts e -> forall s, foldM parse_step s ts = Ok (push_expression s e)) /\
  (forall c ts es, expressions c ts es ->
     (forall line column stack out, foldM parse_step (mkParse (mkFrame [] line column c :: stack) out) ts =
        Ok (mkParse (mkFrame es line column c :: stack) out)) /\
     (c = CollectList -> forall out, foldM parse_step (mkParse [] out) ts = Ok (mkParse [] (out ++ es)))).
Proof.
  apply grammar_ind.
  - intros t e Ht s. cbn [foldM]. by rewrite (parse_step_token s t e Ht).
  - intros line column ts es line' column' _ [IH _] s. rewrite foldM_app. cbn [foldM parse_step mbind res_bind].
    unfold open_frame. rewrite IH. cbn. done.
  - intros line column ts es line' column' _ [IH _] s. rewrite foldM_app. cbn [foldM parse_step mbind res_bind].
    unfold open_frame. rewrite IH. cbn. done.
  - intros c. split; [done|]. intros _ out. by rewrite app_nil_r.
  - intros c ts es item line column _ [IH1 IH2] Hs. split.
    + intros line0 column0 stack out. rewrite foldM_app, IH1. cbn [foldM mbind res_bind].
      by rewrite (parse_step_separator _ _ _ _ _ _ _ _ _ _ Hs eq_refl).
    + intros -> out. rewrite foldM_app, IH2 by done. cbn [foldM mbind res_bind]. by destruct item.
  - intros c ts es t e _ [IH1 IH2] _ IHe. split.
    + intros line column stack out. rewrite foldM_app, IH1. cbn [mbind res_bind]. by rewrite IHe.
    + intros -> out. rewrite foldM_app, IH2 by done. cbn [mbind res_bind]. rewrite IHe. cbn. by rewrite app_assoc.
Qed.

(** The tokens that lead to a state of the parser. *)
Definition opening (c : ParseContext) : LexItem.t :=
  match c with CollectList => LexItem.LeftParen | CollectTuple => LexItem.LeftCurly end.
Inductive consumed : list Token -> ParseState -> Prop :=
| consumed_bottom ts out : expressions CollectList ts out -> consumed ts (mkParse [] out)
| consumed_frame ts stack out ts' es line column c :
    consumed ts (mkParse stack out) -> expressions c ts' es ->
    consumed (ts ++ (opening c, line, column) :: ts') (mkParse (mkFrame es line column c :: stack) out).

Lemma consumed_push ts s t e : consumed ts s -> expression t e -> consumed (ts ++ t) (push_expression s e).
Proof.
  intros Hc Ht. inversion Hc as [? out Hs|ts1 stack out ts' es line column c H1 H2]; subst; cbn.
  - constructor. by constructor.
  - rewrite <- app_assoc. cbn. constructor; [done|]. by constructor.
Qed.

Lemma consumed_separator ts s item line column s' :
  match item with LexItem.Whitespace | LexItem.ColonSeparator | LexItem.CommaSeparator => True | _ => False end ->
  consumed ts s -> parse_step s (item, line, column) = Ok s' -> consumed (ts ++ [(item, line, column)]) s'.
Proof.
  intros Hi Hc Hp.
  assert (s' = s /\ match parse_stack s with
                    | f :: _ => separator (frame_context f) (length (frame_list f)) item = true
                    | [] => item = LexItem.Whitespace end) as [-> Hs].
  { destruct s as [[|[l line0 column0 c] stack] out]; destruct item; try done; cbn in Hp |- *; try (by injection Hp as <-); destruct c; try done.
    - rewrite orb_comm in Hp. unfold Nat.odd in Hp. destruct (Nat.even (length l)); cbn in Hp; [|done].
      destruct (length l =? 0)%nat; [done|]. by injection Hp as <-.
    - unfold Nat.odd. destruct (Nat.even (length l)); [done|]. by injection Hp as <-. }
  destruct Hc as [ts out Hs'|ts stack out ts' es line0 column0 c H1 H2]; cbn in Hs.
  - constructor. constructor; [done|]. by subst.
  - rewrite <- app_assoc. cbn. constructor; [done|]. by constructor.
Qed.

Lemma name_token value line column s s' : parse_step s (LexItem.Variable_ value, line, column) = Ok s' ->
  exists e, token_expression (LexItem.Variable_ value, line, column) = Some e /\ s' = push_expression s e.
Proof.
  cbn. unfold ClarityName_try_from, guarded_try_from. destruct (_ <? _); [done|].
  destruct (clarity_name_regex _); [|done]. intros [= <-]. by eexists.
Qed.

Lemma consumed_close ts f stack out line column item e :
  consumed ts (mkParse (f :: stack) out) ->
  (item, e) = match frame_context f with
              | CollectList => (LexItem.RightParen, PreList fresh_label (frame_list f))
              | CollectTuple => (LexItem.RightCurly, PreTuple fresh_label (frame_list f))
              end ->
  consumed (ts ++ [(item, line, column)])
    (push_expression (mkParse stack out) (set_span e (frame_line f) (frame_column f) line column)).
Proof.
  intros Hc He. inversion Hc as [|ts1 ? ? ts' es line0 column0 c H1 H2]; subst. cbn in He |- *.
  rewrite <- app_assoc. apply consumed_push; [done|]. destruct c; injection He as -> ->; by constructor.
Qed.

Lemma consumed_step ts s t s' : consumed ts s -> parse_step s t = Ok s' -> consumed (ts ++ [t]) s'.
Proof.
  intros Hc Hp. destruct t as [[item line] column].
  destruct item;
    try (injection Hp as <-; apply consumed_push; [done|by constructor]);
    try (by apply (consumed_separator ts s)).
  - injection Hp as <-. destruct s. by apply (consumed_frame ts _ _ [] [] line column CollectList); [|constructor].
  - destruct s as [[|f stack] out]; [done|]. cbn in Hp. destruct (frame_context f) eqn:Hf; [|done]. injection Hp as <-.
    apply (consumed_close ts f stack out line column LexItem.RightParen (PreList fresh_label (frame_list f))); [done|by rewrite Hf].
  - injection Hp as <-. destruct s. by apply (consumed_frame ts _ _ [] [] line column CollectTuple); [|constructor].
  - destruct s as [[|f stack] out]; [done|]. cbn in Hp. destruct (frame_context f) eqn:Hf; [done|]. injection Hp as <-.
    apply (consumed_close ts f stack out line column LexItem.RightCurly (PreTuple fresh_label (frame_list f))); [done|by rewrite Hf].
  - apply name_token in Hp as (e & He & ->). apply consumed_push; [done|by constructor].
Qed.

Lemma consumed_run ts s : foldM parse_step (mkParse [] []) ts = Ok s -> consumed ts s.
Proof.
  revert s. induction ts as [|t ts IH] using rev_ind; intros s.
  - intros [= <-]. repeat constructor.
  - rewrite foldM_app. intros (s1 & Hs1 & (s2 & Ht & [= <-])%bind_Ok)%bind_Ok. eapply consumed_step; eauto.
Qed.

(** C12. The token parser accepts exactly the sequences of tokens that the grammar
    derives, with matching parentheses and braces and with colons and commas where a
    tuple literal takes them, and returns the expressions of the derivation with
    their positions. *)
Theorem parse_lexed_grammar ts es : parse_lexed ts = Ok es <-> expressions CollectList ts es.
Proof.
  unfold parse_lexed. split.
  - intros (s & Hs%consumed_run & Hp)%bind_Ok. inversion Hs; subst; cbn in Hp; [|done]. by injection Hp as <-.
  - intros Hts. destruct (proj2 grammar_accepted _ _ _ Hts) as [_ H]. by rewrite H.
Qed.
