(* ===== verification/LexerFacts.v ===== *)
(** The lexer: what it accepts, and that it always answers. *)
From stdpp Require Import base strings numbers list gmap.
From Stdlib Require Import ZArith Lia.
From S2P Require Import Prelude Names Types Representations Values Hex C32 Ast AstFacts Regex Parser.
#[local] Open Scope Z_scope.

(** * Patterns *)

Lemma matchers_nonempty m : m ∈ lex_matchers -> nullable (matcher m) = false.
Proof.
  assert (forallb (fun m => negb (nullable (matcher m))) lex_matchers = true) as H by reflexivity.
  intros Hm%list_elem_of_In. apply negb_true_iff. by apply (proj1 (forallb_forall _ _) H).
Qed.

Definition ascii_byte (b : Z) : Prop := 0 <= b < 0x80.
Lemma byte_in_true lo hi b : byte_in lo hi b = true <-> lo <= b <= hi.
Proof. unfold byte_in. rewrite andb_true_iff, !Z.leb_le. done. Qed.
Lemma byte_one_of_ascii s b : forallb (byte_in 0 127) (string_bytes s) = true -> one_of s b = true -> ascii_byte b.
Proof.
  unfold one_of. rewrite existsb_exists, forallb_forall. intros Hs (c & Hc & ->%Z.eqb_eq).
  apply Hs, byte_in_true in Hc. unfold ascii_byte. lia.
Qed.
Lemma byte_is_alpha_ascii b : is_alpha b = true -> ascii_byte b.
Proof. unfold is_alpha, ascii_byte. rewrite orb_true_iff, !byte_in_true. lia. Qed.
Lemma byte_is_digit_ascii b : is_digit b = true -> ascii_byte b.
Proof. unfold is_digit, ascii_byte. rewrite byte_in_true. lia. Qed.
Lemma is_alnum_ascii b : is_alnum b = true -> ascii_byte b.
Proof. intros [?|?]%orb_true_iff; auto using byte_is_alpha_ascii, byte_is_digit_ascii. Qed.
Lemma is_word_ascii b : is_word b = true -> ascii_byte b.
Proof. intros [?| ->%Z.eqb_eq]%orb_true_iff; [by apply is_alnum_ascii|done]. Qed.
Lemma is_xdigit_ascii b : is_xdigit b = true -> ascii_byte b.
Proof. unfold is_xdigit, is_digit, ascii_byte. rewrite !orb_true_iff, !byte_in_true. lia. Qed.
Lemma is_printable_ascii b : is_printable b = true -> ascii_byte b.
Proof. unfold is_printable, ascii_byte. rewrite byte_in_true. lia. Qed.

(** The classes of the patterns. *)
Definition ascii_pattern (r : Regex) : Prop := classes r ascii_byte.
Lemma ascii_chr c : ascii_byte c -> ascii_pattern (chr c).
Proof. intros Hc b. by intros <-%Z.eqb_eq. Qed.
Lemma ascii_one_of s : forallb (byte_in 0 127) (string_bytes s) = true -> ascii_pattern (RClass (one_of s)).
Proof. intros Hs b. by apply byte_one_of_ascii. Qed.
Lemma ascii_seq r1 r2 : ascii_pattern r1 -> ascii_pattern r2 -> ascii_pattern (RSeq r1 r2).
Proof. by split. Qed.
Lemma ascii_alt r1 r2 : ascii_pattern r1 -> ascii_pattern r2 -> ascii_pattern (RAlt r1 r2).
Proof. by split. Qed.
Lemma ascii_rep min max r : ascii_pattern r -> ascii_pattern (RRep min max r).
Proof. done. Qed.
Lemma ascii_value r : ascii_pattern r -> ascii_pattern (RValue r).
Proof. done. Qed.
Lemma ascii_quoted : ascii_pattern (RClass (fun b => is_printable b && negb (b =? 34))).
Proof. intros b [Hb _]%andb_true_iff. by apply is_printable_ascii. Qed.
Lemma ascii_blank : ascii_pattern (RClass (fun b => (b =? 32) || (b =? 9))).
Proof. by intros b [->%Z.eqb_eq| ->%Z.eqb_eq]%orb_true_iff. Qed.
#[local] Hint Resolve ascii_seq ascii_alt ascii_rep ascii_value ascii_quoted ascii_blank : ascii.
#[local] Hint Extern 1 (ascii_pattern (chr _)) => apply ascii_chr; done : ascii.
#[local] Hint Extern 1 (ascii_pattern (RClass (one_of _))) => apply ascii_one_of; reflexivity : ascii.
#[local] Hint Extern 1 (ascii_pattern (RClass is_alpha)) => exact byte_is_alpha_ascii : ascii.
#[local] Hint Extern 1 (ascii_pattern (RClass is_digit)) => exact byte_is_digit_ascii : ascii.
#[local] Hint Extern 1 (ascii_pattern (RClass is_alnum)) => exact is_alnum_ascii : ascii.
#[local] Hint Extern 1 (ascii_pattern (RClass is_word)) => exact is_word_ascii : ascii.
#[local] Hint Extern 1 (ascii_pattern (RClass is_xdigit)) => exact is_xdigit_ascii : ascii.
#[local] Hint Extern 1 (ascii_pattern (RClass is_printable)) => exact is_printable_ascii : ascii.
Lemma matchers_ascii m : m ∈ lex_matchers -> classes (matcher m) ascii_byte.
Proof.
  revert m. apply Forall_forall. change (fun x => classes (matcher x) ascii_byte) with (fun x => ascii_pattern (matcher x)).
  unfold lex_matchers, CONTRACT_PRINCIPAL_REGEX, STANDARD_PRINCIPAL_REGEX, CONTRACT_NAME_REGEX, CLARITY_NAME_REGEX,
    FIELD_NAME_REGEX, star, plus, maybe, between.
  repeat apply Forall_cons_2; try apply Forall_nil_2; cbn [matcher]; auto 20 with ascii.
Qed.

Section lexer.
Context `{Hengine : !RegexEngine} `{Hlaws : !RegexLaws} `{Hsha : !Sha256} `{Hupper : !ToUppercase}.

Lemma first_match_Some ms s h m : first_match ms s = Some (h, m) ->
  exists x, x ∈ ms /\ handler x = h /\ m ∈ matches (matcher x) s.
Proof.
  induction ms as [|x ms IH]; cbn [first_match]; [done|]. rewrite captures_leftmost_first.
  destruct (matches (matcher x) s) as [|m' l] eqn:Hm; cbn [head].
  - intros (y & Hy & Hh & Hin)%IH. exists y. split_and!; [by right|done|done].
  - intros [= <- <-]. exists x. split_and!; [left|done|]. rewrite Hm. left.
Qed.

(** The matches of the lexer: some characters, all of them ASCII. *)
Lemma lex_match s h m : first_match lex_matchers s = Some (h, m) ->
  (0 < m_end m <= length s)%nat /\ Forall ascii_byte (take (m_end m) s) /\
  forall a b, m_value m = Some (a, b) -> (a <= b <= m_end m)%nat.
Proof.
  intros (x & Hx & <- & Hm)%first_match_Some. pose proof (match_bound _ _ _ Hm) as [Hb Hv].
  pose proof (match_consumes _ _ _ Hm (matchers_nonempty x Hx)). split_and!; [lia|lia| |done].
  by eapply match_classes, matchers_ascii.
Qed.

(** * What the lexer accepts *)

(** The tokens of a text, in a context: the first pattern that matches, and no two
    atoms side by side. *)
Inductive lexes : LexContext -> list Z -> list LexItem.t -> Prop :=
| lexes_end c : lexes c [] []
| lexes_item c s h m item items :
    first_match lex_matchers s = Some (h, m) -> (c = ExpectNothing \/ closes h = true) ->
    lex_item h s m = Ok item -> lexes (context_after h) (drop (m_end m) s) items ->
    lexes c s (item :: items).

Lemma pass_line_break_Ok s s' : pass_line_break s = Ok s' ->
  lex_context s' = lex_context s /\ lex_munch_index s' = lex_munch_index s.
Proof.
  unfold pass_line_break. destruct (lex_line_indices s) as [|ix l]; [by intros [= <-]|].
  case_match; [|by intros [= <-]]. by intros (c & _ & [= <-])%bind_Ok.
Qed.

Lemma accept_match_Ok s slice h m t s' : accept_match s slice h m = Ok (t, s') ->
  (lex_context s = ExpectNothing \/ closes h = true) /\ lex_item h slice m = Ok t.1.1 /\
  lex_context s' = context_after h /\ lex_munch_index s' = (lex_munch_index s + m_end m)%nat.
Proof.
  unfold accept_match. intros (u & Hu & (item & Hi & [= <- <-])%bind_Ok)%bind_Ok. split_and!; [|done|done|done].
  destruct (lex_context s); [by left|]. right. by destruct (closes h).
Qed.

Lemma lex_loop_lexes fuel input s ts : (lex_munch_index s <= length input)%nat -> lex_loop fuel input s = Ok ts ->
  lexes (lex_context s) (drop (lex_munch_index s) input) ts.*1.*1.
Proof.
  revert s ts. induction fuel as [|fuel IH]; intros s ts Hle; cbn [lex_loop].
  - destruct (Nat.eqb_spec (lex_munch_index s) (length input)) as [->|]; [|done]. intros [= <-]. rewrite drop_all. constructor.
  - destruct (Nat.eqb_spec (lex_munch_index s) (length input)) as [->|]; [intros [= <-]; rewrite drop_all; constructor|].
    intros (s1 & [Hc1 Hm1]%pass_line_break_Ok & Hb)%bind_Ok. rewrite Hm1 in Hb.
    destruct (first_match lex_matchers (drop (lex_munch_index s) input)) as [[h m]|] eqn:Hf; [|done].
    apply bind_Ok in Hb as ([t s2] & (Hc & Hi & Hc2 & Hm2)%accept_match_Ok & (ts' & Hl & [= <-])%bind_Ok).
    pose proof (lex_match _ _ _ Hf) as [Hend _]. rewrite length_drop in Hend. cbn [fmap list_fmap].
    eapply lexes_item; [done|by rewrite <- Hc1|done|]. rewrite <- Hc2, drop_drop, <- Hm1, <- Hm2.
    apply IH; [lia|done].
Qed.

(** The lines that are still to be passed fit in the counter. *)
Lemma pass_line_break_fits s : 0 <= lex_current_line s -> lex_current_line s + Z.of_nat (length (lex_line_indices s)) < 2 ^ 32 ->
  exists s', pass_line_break s = Ok s' /\ 0 <= lex_current_line s' /\
    lex_current_line s' + Z.of_nat (length (lex_line_indices s')) < 2 ^ 32.
Proof.
  intros H0 Hl. unfold pass_line_break. destruct (lex_line_indices s) as [|ix l] eqn:Hi; [exists s; by rewrite Hi|].
  cbn [length] in Hl. case_match; [|exists s; rewrite Hi; done].
  rewrite checked_add_in by (unfold in_u; lia). cbn. eexists. split; [done|]. cbn. lia.
Qed.

Lemma lexes_lex_loop c str items : lexes c str items -> forall fuel input s,
  c = lex_context s -> str = drop (lex_munch_index s) input -> (lex_munch_index s <= length input)%nat ->
  (length str <= fuel)%nat -> 0 <= lex_current_line s -> lex_current_line s + Z.of_nat (length (lex_line_indices s)) < 2 ^ 32 ->
  exists ts, lex_loop fuel input s = Ok ts /\ ts.*1.*1 = items.
Proof.
  induction 1 as [c|c str h m item items Hf Hc Hi _ IH]; intros fuel input s -> Hstr Hle Hfuel H0 Hl.
  - exists []. apply (f_equal length) in Hstr. rewrite length_drop in Hstr. cbn in Hstr.
    assert (lex_munch_index s = length input) as Heq by lia.
    destruct fuel; cbn [lex_loop]; by rewrite Heq, Nat.eqb_refl.
  - pose proof (lex_match _ _ _ Hf) as [Hend _]. assert (Hlen : length str = (length input - lex_munch_index s)%nat) by (by rewrite Hstr, length_drop).
    destruct fuel as [|fuel]; [lia|]. cbn [lex_loop]. rewrite (proj2 (Nat.eqb_neq _ _)) by lia.
    destruct (pass_line_break_fits s H0 Hl) as (s1 & Hs1 & H1 & Hl1). rewrite Hs1. cbn [mbind res_bind].
    apply pass_line_break_Ok in Hs1 as [Hc1 Hm1]. rewrite Hm1, <- Hstr, Hf. unfold accept_match. rewrite Hc1, Hm1.
    assert (match lex_context s with
      | ExpectNothing => Ok tt
      | ExpectClosing => if closes h then Ok tt else parse_err (ParseErrors.SeparatorExpected (bytes_string (take (m_end m) str)))
      end = Ok tt) as ->.
    { destruct (lex_context s); [done|]. by destruct Hc as [| ->]. }
    cbn [mbind res_bind]. rewrite Hi. cbn [mbind res_bind].
    edestruct (IH fuel input) as (ts & Hts & Hits); last first.
    { rewrite Hts. cbn [mbind res_bind]. eexists. split; [done|]. cbn. by rewrite Hits. }
    all: cbn; try done; try lia.
    + rewrite length_drop. lia.
    + by rewrite Hstr, drop_drop.
Qed.

Lemma line_breaks_length ix input : (length (line_breaks_from ix input) <= length input)%nat.
Proof.
  revert ix. induction input as [|b input IH]; intros ix; cbn [line_breaks_from length]; [lia|].
  specialize (IH (S ix)). destruct (b =? 10); cbn; lia.
Qed.

(** The lexer returns the tokens of the text, and fails only where there are none
    (or on a text of 4 GiB). *)
Lemma lex_lexes input ts : lex input = Ok ts -> lexes ExpectNothing input ts.*1.*1.
Proof. intros Hl. by apply (lex_loop_lexes (length input) input (mkLex ExpectNothing (get_lines_at input) 1 0 1) ts); [cbn; lia|]. Qed.
Lemma lexes_lex input items : lexes ExpectNothing input items -> Z.of_nat (length input) < 2 ^ 32 - 1 ->
  exists ts, lex input = Ok ts /\ ts.*1.*1 = items.
Proof.
  intros Hl Hlen. apply (lexes_lex_loop _ _ _ Hl); cbn; try done; try lia.
  pose proof (line_breaks_length 0 input). unfold get_lines_at. lia.
Qed.

(** * The lexer always answers *)

Lemma split_at_1_ascii {E} (l : list Z) : (2 <= length l)%nat -> Forall ascii_byte l ->
  exists a b, str_split_at_1 (E := E) l = Ok (a, b).
Proof.
  intros Hl Ha. destruct l as [|a [|b l]]; [cbn in Hl; lia..|]. cbn. rewrite !Forall_cons in Ha.
  destruct Ha as (_ & Hb & _). exists [a], (b :: l). unfold is_char_boundary, byte_in, ascii_byte in *.
  rewrite (proj2 (Z.leb_gt _ _)) by lia. done.
Qed.
Lemma normalize_ascii l : Forall ascii_byte l -> Forall ascii_byte (c32_normalize l) /\ length (c32_normalize l) = length l.
Proof.
  intros Hl. unfold c32_normalize, replace. rewrite to_uppercase_ascii by done. rewrite !length_map. split; [|done].
  rewrite !map_map. apply Forall_map. eapply Forall_impl; [exact Hl|]. intros b Hb. cbn. unfold ascii_byte, ascii_upper in *.
  repeat case_match; unfold byte_in in *; try done; lia.
Qed.
Lemma c32_decode_no_panic l : c32_decode l <> Panic.
Proof. unfold c32_decode. case_match; [done|]. by destruct (c32_decode_loop _ _ _ _) as [[] ?]. Qed.

Lemma c32_check_decode_no_panic l : Forall ascii_byte l -> c32_check_decode l <> Panic.
Proof.
  intros [Ha Hlen]%normalize_ascii. unfold c32_check_decode. destruct (Nat.ltb_spec (length l) 2) as [|Hl]; [done|].
  destruct (split_at_1_ascii (E := AddressError) (c32_normalize l)) as (v & d & ->); [lia|done|]. cbn [mbind res_bind].
  pose proof (c32_decode_no_panic d). destruct (c32_decode d) as [sum| |]; [|done|done]. cbn [mbind res_bind].
  destruct (Nat.ltb_spec (length sum) 5) as [|Hs]; [done|].
  pose proof (c32_decode_no_panic v). destruct (c32_decode v) as [check| |]; [|done|done]. cbn [mbind res_bind].
  case_decide; [done|].
  destruct ((check ++ take (length sum - 4) sum) !! 0%nat) as [b|] eqn:Hb; [done|]. apply lookup_ge_None in Hb.
  rewrite length_app, length_take in Hb. lia.
Qed.

Lemma standard_principal_no_panic l : Forall ascii_byte l -> parse_standard_principal l <> Panic.
Proof.
  intros Ha. unfold parse_standard_principal, c32_address_decode. destruct (Nat.leb_spec (length l) 5) as [|Hl]; [done|].
  destruct (split_at_1_ascii (E := AddressError) l) as (a & b & Hs); [lia|done|].
  assert (Forall ascii_byte b) as Hb.
  { destruct l as [|x [|y l]]; [cbn in Hl; lia..|]. cbn in Hs. destruct (is_char_boundary y); [|done]. injection Hs as <- <-.
    by apply Forall_cons in Ha as [_ Ha]. }
  rewrite Hs. cbn [mbind res_bind]. pose proof (c32_check_decode_no_panic b Hb).
  destruct (c32_check_decode b) as [[]| |]; [|done|done]. cbn [map_err mbind res_bind]. by case_match.
Qed.

Lemma split_dot_Forall (P : Z -> Prop) l : Forall P l ->
  Forall P (split_dot l).1 /\ match (split_dot l).2 with Some r => Forall P r | None => True end.
Proof.
  induction 1 as [|b l Hb Hl IH]; cbn; [done|]. destruct (b =? 46); [done|]. destruct (split_dot l). cbn in *.
  destruct IH. split; [by constructor|done].
Qed.
Lemma name_no_panic label regex s : guarded_try_from label regex s <> Panic.
Proof. unfold guarded_try_from. by repeat case_match. Qed.

Lemma contract_identifier_no_panic l : Forall ascii_byte l -> QualifiedContractIdentifier_parse l <> Panic.
Proof.
  intros Ha%split_dot_Forall. unfold QualifiedContractIdentifier_parse. destruct (split_dot l) as [s0 [s1|]]; [|done].
  cbn in Ha. destruct Ha as [Ha _]. pose proof (standard_principal_no_panic s0 Ha).
  destruct (parse_standard_principal s0); [|done|done]. cbn [mbind res_bind]. unfold ContractName_try_from.
  pose proof (name_no_panic "ContractName" contract_name_regex (bytes_string s1)).
  by destruct (guarded_try_from _ _ _).
Qed.
Lemma trait_identifier_no_panic l : Forall ascii_byte l -> TraitIdentifier_parse l <> Panic.
Proof.
  intros Ha%split_dot_Forall. unfold TraitIdentifier_parse. destruct (split_dot l) as [s0 [rest|]]; [|done].
  cbn in Ha. destruct Ha as [Ha _]. destruct (split_dot rest) as [s1 [s2|]]; [|done].
  assert (match s0 with [] => Ok None | _ => p ← parse_standard_principal s0; Ok (Some p) end <> Panic) as Hi.
  { destruct s0; [done|]. pose proof (standard_principal_no_panic _ Ha). by destruct (parse_standard_principal _). }
  destruct (match s0 with [] => Ok None | _ => _ end); [|done|done]. cbn [mbind res_bind].
  unfold ContractName_try_from, ClarityName_try_from. pose proof (name_no_panic "ContractName" contract_name_regex (bytes_string s1)).
  destruct (guarded_try_from "ContractName" _ _); [|done|done]. cbn [map_err mbind res_bind].
  pose proof (name_no_panic "ClarityName" clarity_name_regex (bytes_string s2)). by destruct (guarded_try_from _ _ _).
Qed.

Lemma value_ascii s h m v : first_match lex_matchers s = Some (h, m) -> get_value_or_err s m = Ok v -> Forall ascii_byte v.
Proof.
  intros (_ & Ha & Hv)%lex_match. unfold get_value_or_err. destruct (m_value m) as [[a b]|]; [|done]. intros [= <-].
  specialize (Hv a b eq_refl). unfold slice. apply (Forall_drop _ a) in Ha. rewrite skipn_firstn_comm in Ha.
  apply (Forall_take _ (b - a)) in Ha. by rewrite take_take, Nat.min_l in Ha by lia.
Qed.

Lemma hex_pairs_no_panic v l : hex_pairs v l <> Panic.
Proof. revert v. revert l. fix IH 1. intros [|a [|b l]] v; cbn [hex_pairs]; [done|done|]. repeat case_match; auto. Qed.
Lemma hex_bytes_no_panic s : hex_bytes s <> Panic.
Proof. apply bind_no_panic; [apply hex_pairs_no_panic|]. intros [v [c|]] _; done. Qed.
Lemma buff_from_no_panic l : buff_from l <> Panic.
Proof. unfold buff_from, BufferLength_try_from. by repeat case_match. Qed.
#[local] Hint Resolve hex_bytes_no_panic buff_from_no_panic name_no_panic contract_identifier_no_panic
  trait_identifier_no_panic standard_principal_no_panic : no_panic.

Lemma clarity_name_no_panic s : ClarityName_try_from s <> Panic.
Proof. apply name_no_panic. Qed.
Lemma contract_name_no_panic s : ContractName_try_from s <> Panic.
Proof. apply name_no_panic. Qed.
Lemma fully_qualified_no_panic l : Forall ascii_byte l -> parse_fully_qualified l <> Panic.
Proof.
  intros Ha. apply bind_no_panic; [by apply trait_identifier_no_panic|]. intros [[i c] n] _.
  apply bind_no_panic; [apply ok_or_no_panic|done].
Qed.
Lemma sugared_syntax_no_panic l : Forall ascii_byte l -> parse_sugared_syntax l <> Panic.
Proof. intros Ha. apply bind_no_panic; [by apply trait_identifier_no_panic|]. by intros [[i c] n] _. Qed.
#[local] Hint Resolve clarity_name_no_panic contract_name_no_panic fully_qualified_no_panic sugared_syntax_no_panic : no_panic.

Lemma get_value_no_panic s m : get_value_or_err s m <> Panic.
Proof. unfold get_value_or_err. by destruct (m_value m) as [[]|]. Qed.

Lemma lex_item_no_panic s h m : first_match lex_matchers s = Some (h, m) -> lex_item h s m <> Panic.
Proof.
  intros Hf. pose proof (value_ascii s h m) as Hv. specialize (fun v => Hv v Hf). clear Hf.
  destruct h; cbn [lex_item]; try done; (apply bind_no_panic; [apply get_value_no_panic|]); intros v Hval; specialize (Hv v Hval).
  all: try (by case_match).
  all: try (apply bind_no_panic; [|done]; try apply bind_no_panic; try done; auto with no_panic).
  apply bind_no_panic; [auto with no_panic|]. by intros [c n] _.
Qed.

Lemma lex_loop_no_panic fuel input s : (length input - lex_munch_index s <= fuel)%nat ->
  (lex_munch_index s <= length input)%nat -> lex_loop fuel input s <> Panic.
Proof.
  revert s. induction fuel as [|fuel IH]; intros s Hf Hle; cbn [lex_loop].
  - by rewrite (proj2 (Nat.eqb_eq _ _)) by lia.
  - case_match; [done|]. apply bind_no_panic.
    { unfold pass_line_break. destruct (lex_line_indices s); [done|]. case_match; [|done].
      apply bind_no_panic; [apply ok_or_no_panic|done]. }
    intros s1 [_ Hm1]%pass_line_break_Ok. rewrite Hm1.
    destruct (first_match lex_matchers (drop (lex_munch_index s) input)) as [[h m]|] eqn:Hfm; [|done].
    pose proof (lex_match _ _ _ Hfm) as [Hend _]. rewrite length_drop in Hend.
    apply bind_no_panic.
    + unfold accept_match. apply bind_no_panic; [by repeat case_match|]. intros _ _.
      apply bind_no_panic; [by apply lex_item_no_panic|done].
    + intros [t s2] (_ & _ & _ & Hm2)%accept_match_Ok. apply bind_no_panic; [apply IH; lia|done].
Qed.
Lemma parse_no_panic input : parse input <> Panic.
Proof.
  unfold parse, lex. apply bind_no_panic; [apply lex_loop_no_panic; cbn; lia|]. intros ts _. unfold parse_lexed.
  apply bind_no_panic; [|intros s' _; by case_match].
  apply foldM_no_panic. intros s [[item line] column] _.
  destruct item; cbn [parse_step]; try done; repeat case_match; try done.
  apply bind_no_panic; [auto with no_panic|done].
Qed.
End lexer.
