(* ===== verification/Display.v ===== *)
(** The text of values and expressions ([fmt::Display] in src/vm/types/mod.rs and
    src/vm/representations.rs), and that the text of an expression parses back to
    it. *)
From stdpp Require Import base strings numbers list gmap.
From Stdlib Require Import ZArith Lia.
From S2P Require Import Prelude Names Types Representations Values Hex C32 Ast AstFacts Regex Parser LexerFacts.
#[local] Open Scope Z_scope.

(** [{}] of an [i128]. *)
Definition dec_digits (n : Z) : list Z := digits_fuel 39 10 n [].
Definition display_int (n : Z) : list Z := if n <? 0 then 45 :: dec_digits (- n) else dec_digits n.

Section display.
Context `{!Sha256} `{!ToUppercase}.

(** Texts with a blank before each, or between them. *)
Definition spaced (l : list (list Z)) : list Z := flat_map (fun s => 32 :: s) l.
Definition joined (l : list (list Z)) : list Z := match l with [] => [] | s :: l => s ++ spaced l end.

Fixpoint display_value (v : Value) : Res Empty_set (list Z) :=
  match v with
  | VInt int => Ok (display_int int)
  | VUInt int => Ok (117 :: dec_digits int)
  | VBool boolean => Ok (string_bytes (if boolean then "true" else "false"))
  | VBuffer vec_bytes => Ok (string_bytes "0x" ++ string_bytes (to_hex vec_bytes))
  | VTuple _ data_map =>
    items ← mapMR (fun '(name, value) =>
              s ← display_value value; Ok (string_bytes "(" ++ string_bytes name ++ string_bytes " " ++ s ++ string_bytes ")")) data_map;
    Ok (string_bytes "(tuple" ++ spaced items ++ string_bytes ")")
  | VPrincipal principal_data => PrincipalData_display principal_data
  | VOptional (Some x) => s ← display_value x; Ok (string_bytes "(some " ++ s ++ string_bytes ")")
  | VOptional None => Ok (string_bytes "none")
  | VResponse committed data =>
    s ← display_value data; Ok (string_bytes (if committed then "(ok " else "(err ") ++ s ++ string_bytes ")")
  | VList data _ _ => items ← mapMR display_value data; Ok (string_bytes "(" ++ joined items ++ string_bytes ")")
  end.

Fixpoint display_expression (e : SymbolicExpression) : Res Empty_set (list Z) :=
  match e with
  | SList _ list => items ← mapMR display_expression list; Ok (string_bytes "(" ++ spaced items ++ string_bytes " )")
  | Atom _ value => Ok (string_bytes value)
  | AtomValue _ value | LiteralValue _ value => display_value value
  | TraitReference _ value _ => Ok (string_bytes "<" ++ string_bytes value ++ string_bytes ">")
  | Field _ value => s ← TraitIdentifier_display value; Ok (string_bytes "<" ++ s ++ string_bytes ">")
  end.
End display.

(** * The first token of a text *)

Lemma seq_chr c r s : matches (RSeq (chr c) r) (c :: s) = then_match (mkMatch 1 None) <$> matches r s.
Proof. cbn [matches]. unfold chr at 1. cbn [matches]. rewrite Z.eqb_refl. cbn [flat_map m_end drop]. by rewrite drop_0, app_nil_r. Qed.
Lemma seq_chr_ne c b r s : c <> b -> matches (RSeq (chr c) r) (b :: s) = [].
Proof. intros Hne. cbn [matches]. unfold chr at 1. cbn [matches]. by rewrite (proj2 (Z.eqb_neq _ _) Hne). Qed.

(** The patterns that may start with a byte. *)
Definition starting (b : Z) : list LexMatcher := List.filter (fun x => may_start (matcher x) b) lex_matchers.

Section tokens.
Context `{Hengine : !RegexEngine} `{Hlaws : !RegexLaws} `{Hsha : !Sha256} `{Hupper : !ToUppercase}.

Lemma first_match_starting ms b s : (forall x, x ∈ ms -> nullable (matcher x) = false) ->
  first_match ms (b :: s) = first_match (List.filter (fun x => may_start (matcher x) b) ms) (b :: s).
Proof.
  induction ms as [|x ms IH]; intros Hn; [done|]. cbn [first_match List.filter]. rewrite captures_leftmost_first.
  assert (Hms : forall x, x ∈ ms -> nullable (matcher x) = false) by (intros y Hy; apply Hn; by right).
  destruct (may_start (matcher x) b) eqn:Hs; cbn [first_match].
  - rewrite captures_leftmost_first. destruct (head _); [done|auto].
  - rewrite matches_start; [cbn; auto|apply Hn; left|done].
Qed.
Lemma lex_starting b s : first_match lex_matchers (b :: s) = first_match (starting b) (b :: s).
Proof. apply first_match_starting, matchers_nonempty. Qed.

Lemma first_match_cons x ms s m : head (matches (matcher x) s) = Some m -> first_match (x :: ms) s = Some (handler x, m).
Proof. intros Hm. cbn [first_match]. by rewrite captures_leftmost_first, Hm. Qed.
Lemma first_match_next x ms s : matches (matcher x) s = [] -> first_match (x :: ms) s = first_match ms s.
Proof. intros Hm. cbn [first_match]. by rewrite captures_leftmost_first, Hm. Qed.

(** What does not continue a token: the end of the text or a blank. *)
Definition ends (rest : list Z) : Prop := rest = [] \/ exists s, rest = 32 :: s.
Definition not_blank (s : list Z) : Prop := match s with b :: _ => b <> 32 /\ b <> 9 | [] => True end.

Lemma ends_class (p : Z -> bool) rest : p 32 = false -> ends rest -> match rest with b :: _ => p b = false | [] => True end.
Proof. by intros Hp [->|[s ->]]. Qed.

(** A run of characters of a class. *)
Lemma plus_run p r run rest : one_char p r -> Forall (fun b => p b = true) run -> run <> [] ->
  match rest with b :: _ => p b = false | [] => True end ->
  head (matches (plus r) (run ++ rest)) = Some (mkMatch (length run) None).
Proof.
  intros Hr Hrun Hne Hrest. apply (rep_run p); [done|done|rewrite length_app; lia| |done|by right].
  destruct run; [done|]. cbn. lia.
Qed.
Lemma value_run p r run rest : one_char p r -> Forall (fun b => p b = true) run -> run <> [] ->
  match rest with b :: _ => p b = false | [] => True end ->
  head (matches (RValue (plus r)) (run ++ rest)) = Some (mkMatch (length run) (Some (0, length run)%nat)).
Proof.
  intros Hr Hrun Hne Hrest. pose proof (plus_run p r run rest Hr Hrun Hne Hrest) as Hm. cbn [matches].
  destruct (matches (plus r) (run ++ rest)) as [|m l]; [done|]. injection Hm as ->. done.
Qed.

Lemma slice_prefix (run rest : list Z) : slice (run ++ rest) 0 (length run) = run.
Proof. unfold slice. rewrite Nat.sub_0_r, drop_0. apply take_app_length. Qed.

Lemma lexes_blank c s items : not_blank s -> lexes ExpectNothing s items -> lexes c (32 :: s) (LexItem.Whitespace :: items).
Proof.
  intros Hs Hl. eapply (lexes_item c (32 :: s) TokenType.Whitespace (mkMatch 1 None)); [|by right|done|done].
  rewrite lex_starting. apply first_match_cons. apply (plus_run (fun b => (b =? 32) || (b =? 9)) _ [32] s);
    [apply one_char_class|by constructor|done|]. destruct s as [|b s]; [done|]. destruct Hs. apply orb_false_iff. split; by apply Z.eqb_neq.
Qed.
Lemma lexes_open s items : lexes ExpectNothing s items -> lexes ExpectNothing (40 :: s) (LexItem.LeftParen :: items).
Proof.
  intros Hl. eapply (lexes_item _ (40 :: s) TokenType.LParens (mkMatch 1 None)); [|by left|done|done].
  rewrite lex_starting. by apply first_match_cons.
Qed.
Lemma lexes_close c s items : lexes ExpectClosing s items -> lexes c (41 :: s) (LexItem.RightParen :: items).
Proof.
  intros Hl. eapply (lexes_item _ (41 :: s) TokenType.RParens (mkMatch 1 None)); [|by right|done|done].
  rewrite lex_starting. by apply first_match_cons.
Qed.

(** * Names *)

Definition name_char (b : Z) : bool := is_word b || one_of "-!?+<>=/*" b.
Definition variable_matcher : LexMatcher := mkMatcher (RValue CLARITY_NAME_REGEX) TokenType.Variable_.

Lemma one_of_elem s b : one_of s b = true <-> b ∈ string_bytes s.
Proof.
  unfold one_of. rewrite existsb_exists, list_elem_of_In. split.
  - by intros (c & Hc & ->%Z.eqb_eq).
  - intros Hb. exists b. split; [done|apply Z.eqb_refl].
Qed.
Lemma one_of_forallb s (q : Z -> bool) b : forallb q (string_bytes s) = true -> one_of s b = true -> q b = true.
Proof. rewrite forallb_forall. intros Hq Hb%one_of_elem. by apply Hq, list_elem_of_In. Qed.

Lemma name_one_char : one_char name_char (RAlt (RClass is_word) (RClass (one_of "-!?+<>=/*"))).
Proof.
  apply one_char_alt; [apply one_char_class..|]. intros b Hb. destruct (one_of _ b) eqn:Ho; [|done].
  apply (one_of_forallb _ (fun b => negb (is_word b))) in Ho; [|done]. by rewrite Hb in Ho.
Qed.
Lemma name_chars l : clarity_name_regex l = true -> Forall (fun b => name_char b = true) l /\ l <> [].
Proof.
  unfold clarity_name_regex. destruct l as [|b l]; [done|]. intros H. split; [|done].
  apply orb_true_iff in H as [[[Hb Hl]%andb_true_iff|[Hb Hl]%andb_true_iff]%orb_true_iff|[Hb Hl]%andb_true_iff].
  - constructor; [unfold name_char, is_word, is_alnum; by rewrite Hb|]. apply forallb_True, Is_true_true in Hl || idtac.
    apply Forall_forall. intros c Hc. rewrite forallb_forall in Hl. apply list_elem_of_In, Hl in Hc.
    unfold name_char, is_word, is_alnum. apply orb_true_iff in Hc as [->|Hc]; [done|].
    by apply (one_of_forallb _ name_char) in Hc.
  - destruct l; [|done]. constructor; [|done]. by apply (one_of_forallb _ name_char) in Hb.
  - apply (one_of_forallb _ name_char) in Hb; [|done]. constructor; [done|].
    destruct l as [|c [|]]; [done| |done]. apply Z.eqb_eq in Hl as ->. by constructor.
Qed.

(** A name, at the end of the text or before a blank. *)
Lemma variable_run l rest : Forall (fun b => name_char b = true) l -> l <> [] -> Z.of_nat (length l) <= MAX_STRING_LEN -> ends rest ->
  head (matches (matcher variable_matcher) (l ++ rest)) = Some (mkMatch (length l) (Some (0, length l)%nat)).
Proof.
  intros Hl Hne Hlen Hr. unfold variable_matcher. cbn [matcher matches].
  assert (head (matches CLARITY_NAME_REGEX (l ++ rest)) = Some (mkMatch (length l) None)) as Hm.
  { apply (rep_run name_char); [apply name_one_char|done|rewrite length_app; lia|destruct l; [done|cbn; lia]| |].
    - unfold MAX_STRING_LEN in *. lia.
    - right. by apply ends_class. }
  destruct (matches CLARITY_NAME_REGEX (l ++ rest)) as [|m k]; [done|]. by injection Hm as ->.
Qed.

(** No character of the class. *)
Definition stops (p : Z -> bool) (s : list Z) : Prop := match s with b :: _ => p b = false | [] => True end.
Lemma plus_fails p r s : one_char p r -> stops p s -> matches (plus r) s = [].
Proof. intros Hr Hs. destruct s as [|b s]; [by apply (rep_none_nil p)|by apply (rep_none p)]. Qed.
Lemma value_fails r s : matches r s = [] -> matches (RValue r) s = [].
Proof. intros Hr. cbn [matches]. by rewrite Hr. Qed.

(** The pattern of signed integers. *)
Definition INT_REGEX : Regex := RValue (RSeq (maybe (chr 45)) (plus (RClass is_digit))).
Lemma maybe_minus s : matches (maybe (chr 45)) (45 :: s) = [mkMatch 1 None; mkMatch 0 None].
Proof. done. Qed.
Lemma maybe_no_minus b s : b <> 45 -> matches (maybe (chr 45)) (b :: s) = [mkMatch 0 None].
Proof.
  intros Hb. unfold maybe. cbn [matches rep_matches chr]. unfold chr. cbn [matches].
  by rewrite (proj2 (Z.eqb_neq 45 b)) by done.
Qed.

(** A name that starts like an unsigned literal is taken for one. *)
Definition uint_like (l : list Z) : bool := match l with 117 :: c :: _ => is_digit c | _ => false end.

Lemma starting_alpha b : is_alpha b = true -> b <> 117 -> starting b = [variable_matcher].
Proof.
  intros Hb Hne. unfold starting. rewrite <- (take_drop 19 lex_matchers), List.filter_app.
  assert (forallb (fun b => implb (is_alpha b && negb (b =? 117)) (forallb (fun x => negb (may_start (matcher x) b)) (take 19 lex_matchers)))
    (seqZ 0 128) = true) as H by (vm_compute; reflexivity).
  rewrite forallb_forall in H. specialize (H b). rewrite Hb, (proj2 (Z.eqb_neq _ _) Hne) in H.
  assert (In b (seqZ 0 128)) as Hin by (apply list_elem_of_In, elem_of_seqZ; apply byte_is_alpha_ascii in Hb; unfold ascii_byte in Hb; lia).
  specialize (H Hin). cbn [implb andb negb] in H. rewrite forallb_forall in H.
  assert (List.filter (fun x => may_start (matcher x) b) (take 19 lex_matchers) = []) as ->.
  { revert H. generalize (take 19 lex_matchers). induction l as [|x l IH]; intros H; [done|]. cbn [List.filter].
    rewrite (proj1 (negb_true_iff _) (H x (or_introl eq_refl))). apply IH. intros y Hy. apply H. by right. }
  cbn [drop lex_matchers List.filter app]. assert (may_start (RValue CLARITY_NAME_REGEX) b = true) as Hm.
  { cbn. unfold is_word, is_alnum. by rewrite Hb. }
  cbn [matcher]. by rewrite Hm.
Qed.

Lemma first_match_name l rest : clarity_name_regex l = true -> uint_like l = false -> Z.of_nat (length l) <= MAX_STRING_LEN -> ends rest ->
  first_match lex_matchers (l ++ rest) = Some (TokenType.Variable_, mkMatch (length l) (Some (0, length l)%nat)).
Proof.
  intros Hl Hu Hlen Hr. pose proof (name_chars l Hl) as [Hc Hne].
  pose proof (first_match_cons variable_matcher [] _ _ (variable_run l rest Hc Hne Hlen Hr)) as Hvar.
  destruct l as [|b l]; [done|]. cbn [app] in *. rewrite lex_starting. unfold clarity_name_regex in Hl.
  destruct (is_alpha b) eqn:Hb.
  - destruct (decide (b = 117)) as [->|Hb']; [|by rewrite starting_alpha].
    change (starting 117) with [mkMatcher (chr 117 +++ RValue (plus (RClass is_digit)))%regex TokenType.UIntLiteral; variable_matcher].
    rewrite first_match_next; [done|]. cbn [matcher]. rewrite seq_chr, value_fails; [done|].
    apply (plus_fails is_digit); [apply one_char_class|]. destruct l as [|c l]; [by apply ends_class|exact Hu].
  - cbn [andb orb] in Hl. apply orb_true_iff in Hl as [[Hb1 Hl1]%andb_true_iff|[Hb1 Hl1]%andb_true_iff].
    + destruct l; [|done]. apply one_of_elem in Hb1. change (string_bytes "-+=/*") with [45; 43; 61; 47; 42] in Hb1.
      repeat (apply elem_of_cons in Hb1 as [->|Hb1]; [try exact Hvar|]); [|by apply elem_of_nil in Hb1].
      change (starting 45) with [mkMatcher INT_REGEX TokenType.IntLiteral; variable_matcher].
      rewrite first_match_next; [done|]. apply value_fails. cbn [matches].
      rewrite maybe_minus. cbn [flat_map m_end drop app].
      rewrite drop_0, !(plus_fails is_digit); [done|apply one_char_class|done|apply one_char_class|by apply ends_class].
    + apply one_of_elem in Hb1. change (string_bytes "<>") with [60; 62] in Hb1.
      repeat (apply elem_of_cons in Hb1 as [->|Hb1]; [try exact Hvar|]); [|by apply elem_of_nil in Hb1].
      change (starting 60) with
        [mkMatcher (chr 60 +++ RValue (plus (RClass is_word +|+ chr 45)) +++ chr 62)%regex TokenType.TraitReferenceLiteral; variable_matcher].
      rewrite first_match_next; [done|]. cbn [matcher]. rewrite seq_chr.
      set (r := RValue (plus (RAlt (RClass is_word) (chr 45)))).
      assert (matches r (l ++ rest) = []) as Hr0; [|cbn [matches]; by rewrite Hr0].
      apply value_fails, (plus_fails (fun b => is_word b || (45 =? b))).
      * apply one_char_alt; [apply one_char_class..|]. intros b Hw. by destruct (Z.eqb_spec 45 b) as [<-|].
      * destruct l as [|c [|]]; [by apply (ends_class (fun b => is_word b || (45 =? b)))| |done].
        apply Z.eqb_eq in Hl1 as ->. done.
Qed.

(** * Literals *)

Lemma digits_fuel_value fuel n acc : 0 <= n < 10 ^ Z.of_nat fuel -> fuel <> O ->
  exists ds, digits_fuel fuel 10 n acc = ds ++ acc /\ ds <> [] /\ Forall (fun b => is_digit b = true) ds /\
    forall k, foldl (fun n b => n * 10 + (b - 48)) k ds = k * 10 ^ Z.of_nat (length ds) + n.
Proof.
  revert n acc. induction fuel as [|fuel IH]; intros n acc Hn Hf; [done|]. cbn [digits_fuel].
  pose proof (Z.mod_pos_bound n 10 ltac:(lia)) as Hm. rewrite (proj2 (Z.ltb_lt (n mod 10) 10)) by lia.
  assert (is_digit (48 + n mod 10) = true) as Hd by (apply byte_in_true; lia).
  destruct (Z.ltb_spec n 10) as [Hlt|Hge].
  - exists [48 + n mod 10]. split_and!; [done|done|by constructor|]. intros k. cbn. rewrite (Z.mod_small n 10) by lia. lia.
  - rewrite Nat2Z.inj_succ, Z.pow_succ_r in Hn by lia.
    destruct (IH (n / 10) ((48 + n mod 10) :: acc)) as (ds & -> & Hne & Hds & Hv).
    + split; [apply Z.div_pos; lia|apply Z.div_lt_upper_bound; lia].
    + intros ->. change (10 ^ Z.of_nat 0) with 1 in Hn. lia.
    + exists (ds ++ [48 + n mod 10]). rewrite <- app_assoc. split_and!; [done|by destruct ds|by apply Forall_app_2; [|constructor]|].
      intros k. rewrite foldl_app, Hv. cbn [foldl]. rewrite length_app. cbn [length].
      rewrite Nat2Z.inj_add, Z.pow_add_r by lia. pose proof (Z.div_mod n 10 ltac:(lia)). nia.
Qed.
Lemma dec_digits_value n : 0 <= n < 2 ^ 128 ->
  dec_digits n <> [] /\ Forall (fun b => is_digit b = true) (dec_digits n) /\ decimal_digits (dec_digits n) = Some n.
Proof.
  intros Hn. destruct (digits_fuel_value 39 n []) as (ds & Hds & Hne & Hd & Hv); [|done|].
  { split; [lia|]. eapply Z.lt_trans; [apply Hn|]. by vm_compute. }
  unfold dec_digits. rewrite Hds, app_nil_r. split_and!; [done|done|]. unfold decimal_digits.
  destruct ds as [|b ds]; [done|]. rewrite (proj2 (forallb_forall _ _)); [by rewrite Hv, Z.mul_0_l|].
  intros x Hx. rewrite Forall_forall in Hd. by apply Hd, list_elem_of_In.
Qed.

(** [from_str_radix] reads back what is written. *)
Lemma u128_digits n : 0 <= n < 2 ^ 128 -> u128_from_str (dec_digits n) = Some n.
Proof.
  intros Hn. destruct (dec_digits_value n Hn) as (_ & Hd & Hv). unfold u128_from_str.
  assert (match dec_digits n with 43 :: s => s | _ => dec_digits n end = dec_digits n) as ->.
  { destruct (dec_digits n) as [|b ds]; [done|]. apply Forall_cons in Hd as [Hb%byte_in_true _]. repeat case_match; try done; lia. }
  rewrite Hv. cbn [mbind option_bind]. by rewrite (proj2 (Z.ltb_lt _ _)) by lia.
Qed.
Lemma i128_digits n : - 2 ^ 127 <= n < 2 ^ 127 -> i128_from_str (display_int n) = Some n.
Proof.
  intros Hn. unfold display_int. destruct (Z.ltb_spec n 0) as [Hlt|Hge].
  - destruct (dec_digits_value (- n) ltac:(lia)) as (_ & Hd & Hv). unfold i128_from_str. rewrite Hv. cbn [mbind option_bind].
    rewrite (proj2 (Z.leb_le _ _)) by lia. by rewrite Z.opp_involutive.
  - destruct (dec_digits_value n ltac:(lia)) as (_ & Hd & Hv). unfold i128_from_str.
    assert (forall X : option Z, match dec_digits n with 45 :: s => n ← decimal_digits s; if n <=? 2 ^ 127 then Some (- n) else None | _ => X end = X) as ->.
    { intros X. destruct (dec_digits n) as [|b ds]; [done|]. apply Forall_cons in Hd as [Hb%byte_in_true _]. repeat case_match; try done; lia. }
    assert (match dec_digits n with 43 :: s => s | _ => dec_digits n end = dec_digits n) as ->.
    { destruct (dec_digits n) as [|b ds]; [done|]. apply Forall_cons in Hd as [Hb%byte_in_true _]. repeat case_match; try done; lia. }
    rewrite Hv. cbn [mbind option_bind]. by rewrite (proj2 (Z.ltb_lt _ _)) by lia.
Qed.

Lemma digit_not_blank ds rest : Forall (fun b => is_digit b = true) ds -> ds <> [] -> not_blank (ds ++ rest).
Proof. intros Hd Hne. destruct ds as [|b ds]; [done|]. apply Forall_cons in Hd as [Hb _]. apply byte_in_true in Hb. cbn. lia. Qed.

Lemma lexes_literal c s h m item items rest : first_match lex_matchers s = Some (h, m) -> c = ExpectNothing ->
  lex_item h s m = Ok item -> context_after h = ExpectClosing -> drop (m_end m) s = rest -> lexes ExpectClosing rest items ->
  lexes c s (item :: items).
Proof. intros Hf -> Hi Hc <- Hl. eapply lexes_item; [done|by left|done|]. by rewrite Hc. Qed.

Lemma lexes_uint n rest items : 0 <= n < 2 ^ 128 -> ends rest -> lexes ExpectClosing rest items ->
  exists len, lexes ExpectNothing ((117 :: dec_digits n) ++ rest) (LexItem.LiteralValue len (VUInt n) :: items).
Proof.
  intros Hn Hr Hl. destruct (dec_digits_value n Hn) as (Hne & Hd & Hv). set (ds := dec_digits n) in *. eexists.
  apply (lexes_literal _ _ TokenType.UIntLiteral (mkMatch (S (length ds)) (Some (1, S (length ds))%nat)) _ _ rest); try done.
  - cbn [app]. rewrite lex_starting. apply first_match_cons. cbn [matcher]. rewrite seq_chr.
    pose proof (value_run is_digit _ ds rest (one_char_class _) Hd Hne (ends_class is_digit rest eq_refl Hr)) as Hm.
    destruct (matches _ (ds ++ rest)); [done|]. by injection Hm as ->.
  - cbn [lex_item get_value_or_err m_value]. unfold slice. cbn [drop app]. rewrite Nat.sub_succ, Nat.sub_0_r, drop_0, take_app_length.
    cbn [mbind res_bind]. unfold ds. rewrite (u128_digits n Hn). done.
  - cbn [m_end app drop]. apply drop_app_length.
Qed.

Lemma int_run_minus ds rest : Forall (fun b => is_digit b = true) ds -> ds <> [] -> stops is_digit rest ->
  head (matches INT_REGEX (45 :: ds ++ rest)) = Some (mkMatch (S (length ds)) (Some (0, S (length ds))%nat)).
Proof.
  intros Hd Hne Hr. pose proof (plus_run is_digit _ ds rest (one_char_class _) Hd Hne Hr) as Hm.
  unfold INT_REGEX. cbn [matches]. rewrite maybe_minus. cbn [flat_map m_end drop]. rewrite drop_0.
  destruct (matches (plus (RClass is_digit)) (ds ++ rest)); [done|]. by injection Hm as ->.
Qed.
Lemma int_run ds rest : Forall (fun b => is_digit b = true) ds -> ds <> [] -> stops is_digit rest ->
  head (matches INT_REGEX (ds ++ rest)) = Some (mkMatch (length ds) (Some (0, length ds)%nat)).
Proof.
  intros Hd Hne Hr. pose proof (plus_run is_digit _ ds rest (one_char_class _) Hd Hne Hr) as Hm.
  unfold INT_REGEX. cbn [matches]. destruct ds as [|b ds]; [done|]. cbn [app].
  rewrite maybe_no_minus by (apply Forall_cons in Hd as [Hb%byte_in_true _]; lia). cbn [flat_map m_end drop].
  cbn [app] in Hm. destruct (matches (plus (RClass is_digit)) (b :: ds ++ rest)); [done|]. by injection Hm as ->.
Qed.

Definition HEX_REGEX : Regex := RSeq (chr 48) (RSeq (chr 120) (RValue (plus (RClass is_xdigit)))).
Lemma starting_digit b : is_digit b = true ->
  starting b = (if b =? 48 then [mkMatcher HEX_REGEX TokenType.HexStringLiteral] else []) ++
    [mkMatcher INT_REGEX TokenType.IntLiteral; variable_matcher].
Proof.
  intros Hb%byte_in_true.
  assert (b = 48 \/ b = 49 \/ b = 50 \/ b = 51 \/ b = 52 \/ b = 53 \/ b = 54 \/ b = 55 \/ b = 56 \/ b = 57) as H by lia.
  repeat destruct H as [->|H]; try done. by subst.
Qed.

Lemma first_match_int n rest : - 2 ^ 127 <= n < 2 ^ 127 -> ends rest ->
  first_match lex_matchers (display_int n ++ rest) =
    Some (TokenType.IntLiteral, mkMatch (length (display_int n)) (Some (0, length (display_int n))%nat)).
Proof.
  intros Hn Hr. pose proof (ends_class is_digit rest eq_refl Hr) as Hs. unfold display_int. destruct (Z.ltb_spec n 0).
  - destruct (dec_digits_value (- n) ltac:(lia)) as (Hne & Hd & _). cbn [app length]. rewrite lex_starting.
    change (starting 45) with [mkMatcher INT_REGEX TokenType.IntLiteral; variable_matcher].
    apply first_match_cons. by apply int_run_minus.
  - destruct (dec_digits_value n ltac:(lia)) as (Hne & Hd & _). pose proof (int_run _ _ Hd Hne Hs) as Hm.
    destruct (dec_digits n) as [|b ds]; [done|]. cbn [app] in *. apply Forall_cons in Hd as [Hb Hd].
    rewrite lex_starting, (starting_digit b Hb). destruct (Z.eqb_spec b 48) as [->|Hne']; cbn [app].
    + rewrite first_match_next; [by apply first_match_cons|]. unfold HEX_REGEX. cbn [matcher]. rewrite seq_chr.
      destruct (ds ++ rest) as [|c s] eqn:Hc; [done|]. rewrite seq_chr_ne; [done|]. intros <-.
      destruct ds as [|d ds]; [destruct Hr as [->|[? ->]]; done|]. injection Hc as -> _. by apply Forall_cons in Hd as [? _].
    + by apply first_match_cons.
Qed.

Lemma lexes_int n rest items : - 2 ^ 127 <= n < 2 ^ 127 -> ends rest -> lexes ExpectClosing rest items ->
  exists len, lexes ExpectNothing (display_int n ++ rest) (LexItem.LiteralValue len (VInt n) :: items).
Proof.
  intros Hn Hr Hl. eexists. eapply lexes_literal; [by apply first_match_int|done| |done| |done].
  - cbn [lex_item get_value_or_err m_value]. rewrite slice_prefix. cbn [mbind res_bind]. by rewrite (i128_digits n Hn).
  - apply drop_app_length.
Qed.

Lemma hex_digit_xdigit n : 0 <= n < 16 -> is_xdigit (hex_digit n) = true.
Proof.
  intros Hn. unfold is_xdigit, is_digit, hex_digit. rewrite !orb_true_iff, !byte_in_true. destruct (Z.ltb_spec n 10); lia.
Qed.
Lemma to_hex_xdigits l : Forall u8 l -> Forall (fun b => is_xdigit b = true) (string_bytes (to_hex l)).
Proof.
  intros Hl. unfold to_hex.
  assert (Forall (fun b => is_xdigit b = true) (flat_map (fun b => [hex_digit (b / 16); hex_digit (b mod 16)]) l)) as Hx.
  { induction Hl as [|b l Hb _ IH]; [done|]. unfold u8, in_u in Hb. cbn.
    repeat constructor; [apply hex_digit_xdigit|apply hex_digit_xdigit|done]; [|apply Z.mod_pos_bound; lia].
    split; [apply Z.div_pos; lia|apply Z.div_lt_upper_bound; lia]. }
  rewrite string_bytes_of_bytes; [done|]. eapply Forall_impl; [exact Hx|]. intros b Hb%is_xdigit_ascii.
  unfold ascii_byte, u8, in_u in *. lia.
Qed.
Lemma to_hex_nonempty l : l <> [] -> string_bytes (to_hex l) <> [].
Proof. by destruct l. Qed.

Lemma lexes_buffer l rest items : Forall u8 l -> l <> [] -> Z.of_nat (length l) <= MAX_VALUE_SIZE -> ends rest ->
  lexes ExpectClosing rest items ->
  exists len, lexes ExpectNothing ((string_bytes "0x" ++ string_bytes (to_hex l)) ++ rest) (LexItem.LiteralValue len (VBuffer l) :: items).
Proof.
  intros Hu Hne Hlen Hr Hl. pose proof (to_hex_xdigits l Hu) as Hx. pose proof (to_hex_nonempty l Hne) as Hxn.
  change (string_bytes "0x") with [48; 120]. set (hs := string_bytes (to_hex l)) in *. eexists.
  apply (lexes_literal _ _ TokenType.HexStringLiteral (mkMatch (S (S (length hs))) (Some (2, S (S (length hs)))%nat)) _ _ rest); try done.
  - cbn [app]. rewrite lex_starting, (starting_digit 48) by done. apply first_match_cons. cbn [matcher]. unfold HEX_REGEX.
    rewrite !seq_chr.
    pose proof (value_run is_xdigit _ hs rest (one_char_class _) Hx Hxn (ends_class is_xdigit rest eq_refl Hr)) as Hm.
    destruct (matches _ (hs ++ rest)); [done|]. by injection Hm as ->.
  - cbn [lex_item get_value_or_err m_value]. unfold slice. cbn [drop app]. rewrite !Nat.sub_succ, Nat.sub_0_r, drop_0, take_app_length.
    cbn [mbind res_bind]. unfold hs. rewrite bytes_string_bytes, hex_bytes_to_hex by done. cbn [map_err mbind res_bind].
    unfold buff_from, BufferLength_try_from. by rewrite (proj2 (Z.ltb_ge _ _)) by lia.
  - cbn [m_end app drop]. apply drop_app_length.
Qed.

Lemma lexes_name n rest items : ClarityName_try_from n = Ok n -> uint_like (string_bytes n) = false -> ends rest ->
  lexes ExpectClosing rest items -> lexes ExpectNothing (string_bytes n ++ rest) (LexItem.Variable_ n :: items).
Proof.
  unfold ClarityName_try_from, guarded_try_from. destruct (Z.ltb_spec MAX_STRING_LEN (str_len n)) as [|Hlen]; [done|].
  destruct (clarity_name_regex (string_bytes n)) eqn:Hre; [|done]. intros _ Hu Hr Hl.
  unfold str_len in Hlen. rewrite <- length_string_bytes in Hlen.
  eapply lexes_literal; [by apply first_match_name|done| |done| |done].
  - cbn [lex_item get_value_or_err m_value]. rewrite slice_prefix. cbn [mbind res_bind].
    destruct (existsb (Z.eqb 35) (string_bytes n)) eqn:He; [|by rewrite bytes_string_bytes].
    apply existsb_exists in He as (c & Hc%list_elem_of_In & <-%Z.eqb_eq). apply name_chars in Hre as [Hre _].
    rewrite Forall_forall in Hre. by apply Hre in Hc.
  - apply drop_app_length.
Qed.

(** * Expressions *)

(** The expressions whose text can be read back: lists of names, integers and
    buffers.  (A boolean is read as a name and an empty buffer, a principal or a
    composite value not at all; a name like [u1] is read as an integer.) *)
Inductive printable : SymbolicExpression -> Prop :=
| printable_atom id n : ClarityName_try_from n = Ok n -> uint_like (string_bytes n) = false -> printable (Atom id n)
| printable_int id n : - 2 ^ 127 <= n < 2 ^ 127 -> printable (LiteralValue id (VInt n))
| printable_uint id n : 0 <= n < 2 ^ 128 -> printable (LiteralValue id (VUInt n))
| printable_buffer id l : Forall u8 l -> l <> [] -> Z.of_nat (length l) <= MAX_VALUE_SIZE -> printable (LiteralValue id (VBuffer l))
| printable_nil id : printable (SList id [])
| printable_cons id e l : printable e -> printable (SList id l) -> printable (SList id (e :: l)).

(** The tokens of an expression. *)
Inductive spells : SymbolicExpression -> list LexItem.t -> Prop :=
| spells_atom id n : ClarityName_try_from n = Ok n -> spells (Atom id n) [LexItem.Variable_ n]
| spells_value id v len : spells (LiteralValue id v) [LexItem.LiteralValue len v]
| spells_nil id : spells (SList id []) [LexItem.LeftParen; LexItem.Whitespace; LexItem.RightParen]
| spells_cons id e l t ts : spells e t -> spells (SList id l) (LexItem.LeftParen :: ts) ->
    spells (SList id (e :: l)) (LexItem.LeftParen :: LexItem.Whitespace :: t ++ ts).

(** The text of a list after its parenthesis. *)
Definition list_text (items : list (list Z)) : list Z := spaced items ++ string_bytes " )".

Lemma not_blank_name n rest : ClarityName_try_from n = Ok n -> not_blank (string_bytes n ++ rest).
Proof.
  unfold ClarityName_try_from, guarded_try_from. destruct (_ <? _); [done|].
  destruct (clarity_name_regex (string_bytes n)) eqn:Hre; [|done]. intros _. apply name_chars in Hre as [Hc Hne].
  destruct (string_bytes n) as [|b l]; [done|]. apply Forall_cons in Hc as [Hb _]. cbn. split; intros ->; done.
Qed.

Lemma not_blank_int n rest : - 2 ^ 127 <= n < 2 ^ 127 -> not_blank (display_int n ++ rest).
Proof.
  intros Hn. unfold display_int. destruct (Z.ltb_spec n 0); [done|].
  destruct (dec_digits_value n ltac:(lia)) as (Hne & Hd & _). by apply digit_not_blank.
Qed.
Lemma list_text_cons s ss rest : list_text (s :: ss) ++ rest = 32 :: s ++ list_text ss ++ rest.
Proof. unfold list_text, spaced. cbn [flat_map]. by rewrite <- !app_assoc. Qed.
Lemma list_text_ends ss rest : ends (list_text ss ++ rest).
Proof. right. destruct ss; cbn; by eexists. Qed.
Lemma lexes_list_end c rest items : lexes ExpectClosing rest items ->
  lexes c (list_text [] ++ rest) ([LexItem.Whitespace; LexItem.RightParen] ++ items).
Proof. intros Hl. apply lexes_blank; [done|]. by apply lexes_close. Qed.

Lemma printed e s : printable e -> display_expression e = Ok s ->
  (forall rest, not_blank (s ++ rest)) /\
  (forall rest items, ends rest -> lexes ExpectClosing rest items ->
    exists toks, spells e toks /\ lexes ExpectNothing (s ++ rest) (toks ++ items)) /\
  match e with
  | SList id l => exists ss, mapMR display_expression l = Ok ss /\ s = 40 :: list_text ss /\
      forall c rest items, ends rest -> lexes ExpectClosing rest items ->
        exists toks, spells e (LexItem.LeftParen :: toks) /\ lexes c (list_text ss ++ rest) (toks ++ items)
  | _ => True
  end.
Proof.
  intros He. revert s. induction He as [id n Hn Hu|id n Hn|id n Hn|id l Hl Hne Hlen|id|id e l He IHe Hl IHl]; intros s.
  - intros [= <-]. split_and!; [intros; by apply not_blank_name| |done]. intros rest items Hr Hls.
    exists [LexItem.Variable_ n]. split; [by constructor|by apply lexes_name].
  - intros [= <-]. split_and!; [intros; by apply not_blank_int| |done]. intros rest items Hr Hls.
    destruct (lexes_int n rest items Hn Hr Hls) as [len Hlx].
    exists [LexItem.LiteralValue len (VInt n)]. split; [constructor|done].
  - intros [= <-]. split_and!; [done| |done]. intros rest items Hr Hls. destruct (lexes_uint n rest items Hn Hr Hls) as [len Hlx].
    exists [LexItem.LiteralValue len (VUInt n)]. split; [constructor|done].
  - intros [= <-]. split_and!; [done| |done]. intros rest items Hr Hls.
    destruct (lexes_buffer l rest items Hl Hne Hlen Hr Hls) as [len Hlx].
    exists [LexItem.LiteralValue len (VBuffer l)]. split; [constructor|done].
  - intros [= <-]. split_and!; [done| |].
    + intros rest items _ Hls. eexists. split; [apply spells_nil|]. apply lexes_open. by apply lexes_list_end.
    + exists []. split_and!; [done|done|]. intros c rest items _ Hls. eexists. split; [apply spells_nil|]. by apply lexes_list_end.
  - cbn [display_expression mapMR]. intros (ss & (s1 & Hs1 & (ss' & Hss & [= <-])%bind_Ok)%bind_Ok & [= <-])%bind_Ok.
    destruct (IHe s1 Hs1) as (Hb1 & Hlx1 & _).
    destruct (IHl (40 :: list_text ss')) as (_ & _ & ss2 & Hss2 & _ & Hrest); [cbn [display_expression]; by rewrite Hss|].
    rewrite Hss in Hss2. injection Hss2 as <-.
    assert (forall c rest items, ends rest -> lexes ExpectClosing rest items ->
      exists toks, spells (SList id (e :: l)) (LexItem.LeftParen :: toks) /\ lexes c (list_text (s1 :: ss') ++ rest) (toks ++ items)) as Hc.
    { intros c rest items Hr Hls. destruct (Hrest ExpectClosing rest items Hr Hls) as (toks & Hsp & Hlx).
      destruct (Hlx1 (list_text ss' ++ rest) (toks ++ items)) as (t & Ht & Hlt); [apply list_text_ends|done|].
      exists (LexItem.Whitespace :: t ++ toks). split; [by constructor|].
      rewrite list_text_cons. cbn [app]. apply lexes_blank; [apply Hb1|]. by rewrite <- app_assoc. }
    split_and!; [done| |].
    + intros rest items Hr Hls. destruct (Hc ExpectNothing rest items Hr Hls) as (toks & Hsp & Hlx).
      eexists. split; [done|]. by apply lexes_open.
    + exists (s1 :: ss'). split_and!; [|done|done]. cbn [mapMR]. by rewrite Hs1, Hss.
Qed.

(** * Tokens to expressions *)

Lemma expressions_app ts1 es1 ts2 es2 : expressions CollectList ts1 es1 -> expressions CollectList ts2 es2 ->
  expressions CollectList (ts1 ++ ts2) (es1 ++ es2).
Proof.
  intros H1 H2. remember CollectList as c eqn:Hc. induction H2 as [|c ts es item line column _ IH Hs|c ts es t e _ IH Ht]; subst.
  - by rewrite !app_nil_r.
  - rewrite app_assoc. constructor; [auto|]. by destruct item.
  - rewrite !app_assoc. constructor; auto.
Qed.
Lemma expressions_blank line column : expressions CollectList [(LexItem.Whitespace, line, column)] [].
Proof. apply (expressions_separator _ [] []); [constructor|done]. Qed.
Lemma expressions_one t e : expression t e -> expressions CollectList t [e].
Proof. apply (expressions_snoc _ [] []). constructor. Qed.

Lemma spelled_list id l (lp : LexItem.t * Z * Z) ts' line column es : lp.1.1 = LexItem.LeftParen ->
  expressions CollectList ts' es -> (forall p tr, mapMR (transform_expression p tr) es = Ok (erase_ids <$> l)) ->
  exists pre, expression (lp :: ts' ++ [(LexItem.RightParen, line, column)]) pre /\
    forall p tr, transform_expression p tr pre = Ok (erase_ids (SList id l)).
Proof.
  destruct lp as [[item line'] column']. intros Hlp Hes Htr. cbn in Hlp. subst item. eexists. split; [by apply expression_list|].
  intros p tr. cbn [set_span with_label transform_expression]. by rewrite Htr.
Qed.

Lemma spelled e toks : spells e toks -> forall ts : list (LexItem.t * Z * Z), ts.*1.*1 = toks ->
  exists pre, expression ts pre /\ (forall p tr, transform_expression p tr pre = Ok (erase_ids e)) /\
  match e with
  | SList _ l => exists lp ts' line column es, ts = lp :: ts' ++ [(LexItem.RightParen, line, column)] /\
      expressions CollectList ts' es /\ forall p tr, mapMR (transform_expression p tr) es = Ok (erase_ids <$> l)
  | _ => True
  end.
Proof.
  induction 1 as [id n Hn|id v len|id|id e l t toks He IHe _ IHl]; intros ts Hts.
  - destruct ts as [|[[item line] column] [|]]; try done. injection Hts as ->. eexists.
    split_and!; [constructor; cbn; rewrite Hn; reflexivity|done|done].
  - destruct ts as [|[[item line] column] [|]]; try done. injection Hts as ->. eexists. split_and!; [by constructor|done|done].
  - destruct ts as [|t1 [|[[i2 l2] c2] [|[[i3 l3] c3] [|]]]]; try done. injection Hts as Ht1 -> ->.
    destruct (spelled_list id [] t1 [(LexItem.Whitespace, l2, c2)] l3 c3 []) as (pre & Hpre & Htr); [done|apply expressions_blank|done|].
    exists pre. split_and!; [done|done|]. eexists t1, [_], _, _, []. split_and!; [done|apply expressions_blank|done].
  - destruct ts as [|t1 [|[[i2 l2] c2] ts]]; try done. cbn [fmap list_fmap] in Hts. injection Hts as Ht1 -> Hts.
    rewrite <- list_fmap_compose in Hts. apply fmap_app_inv in Hts as (ta & tb & Ha & Hb & ->).
    rewrite list_fmap_compose in Ha, Hb. destruct (IHe ta (eq_sym Ha)) as (pre & Hpre & Htr & _).
    destruct (IHl ((LexItem.LeftParen, 0, 0) :: tb)) as (_ & _ & _ & lp & ts' & line & column & es & Heq & Hes & Htrs).
    { cbn. by rewrite <- Hb. }
    injection Heq as _ ->.
    assert (expressions CollectList ((LexItem.Whitespace, l2, c2) :: ta ++ ts') (pre :: es)) as Hall.
    { apply (expressions_app [_] []); [apply expressions_blank|]. apply (expressions_app ta [pre]); [by apply expressions_one|done]. }
    assert (forall p tr, mapMR (transform_expression p tr) (pre :: es) = Ok (erase_ids <$> e :: l)) as Htr'.
    { intros p tr. cbn [mapMR]. by rewrite Htr, Htrs. }
    assert (t1 :: (LexItem.Whitespace, l2, c2) :: ta ++ ts' ++ [(LexItem.RightParen, line, column)] =
            t1 :: ((LexItem.Whitespace, l2, c2) :: ta ++ ts') ++ [(LexItem.RightParen, line, column)]) as ->.
    { cbn. by rewrite <- app_assoc. }
    destruct (spelled_list id (e :: l) t1 _ line column _ Ht1 Hall Htr') as (q & Hq & Hqt).
    exists q. split_and!; [done|done|]. by eexists t1, _, line, column, _.
Qed.

End tokens.
