(* ===== verification/BuildAst.v ===== *)
(** [build_ast] of src/vm/ast/mod.rs: the parser and the passes in their order, what
    they return, and when they do not. *)
From stdpp Require Import base strings numbers list gmap.
From Stdlib Require Import ZArith Lia.
From S2P Require Import Prelude Names Types Representations C32 Costs Interpreter Define Ast DefinitionSorter SorterFacts AstFacts Regex Parser LexerFacts.
#[local] Open Scope Z_scope.

Section build.
Context {T} `{!CostTracker T} `{!RegexEngine} `{!Sha256} `{!ToUppercase}.

(** What follows the charge for the text and precedes the sorting. *)
Definition parse_and_label (contract_identifier : QualifiedContractIdentifier) (source_code : string) : ParseResult ContractAST :=
  pre_expressions ← parse (string_bytes source_code);
  let contract_ast := ContractAST_new contract_identifier pre_expressions in
  _ ← StackDepthChecker_run_pass contract_ast;
  run_pre_expression_pass contract_ast.

(** What follows the sorting. *)
Definition resolve_and_expand (contract_ast : ContractAST) : ParseResult ContractAST :=
  contract_ast ← TraitsResolver_run contract_ast;
  contract_ast ← SugarExpander_run contract_ast;
  run_expression_pass contract_ast.

Definition build_ast (contract_identifier : QualifiedContractIdentifier) (source_code : string) (cost_track : T)
  : T * ParseResult ContractAST :=
  let '(cost_track, charged) := runtime_cost cost_functions.AST_PARSE cost_track (str_len source_code) in
  match _ ← map_err ParseError.from_cost charged; parse_and_label contract_identifier source_code with
  | Ok contract_ast =>
    let '(cost_track, sorted) := DefinitionSorter_run contract_ast cost_track in
    (cost_track, contract_ast ← sorted; resolve_and_expand contract_ast)
  | Err e => (cost_track, Err e)
  | Panic => (cost_track, Panic)
  end.
End build.

(** * Labels *)

(** An expression without identifiers and positions. *)
Fixpoint strip_labels (e : PreSymbolicExpression) : PreSymbolicExpression :=
  match e with
  | PreList _ l => PreList fresh_label (strip_labels <$> l)
  | PreTuple _ l => PreTuple fresh_label l
  | _ => with_label e fresh_label
  end.

Lemma strip_relabelled l l' : update_expression_id l = Ok l' -> strip_labels <$> l' = strip_labels <$> l.
Proof.
  apply update_expression_id_observe; [by intros i []|]. intros [] k put k' Hm; simplify_eq/=. intros Hk. by f_equal.
Qed.

Lemma relabelled_lookup (l l' : list PreSymbolicExpression) i : update_expression_id l = Ok l' -> strip_labels <$> l' !! i = strip_labels <$> l !! i.
Proof. intros Hl%strip_relabelled. by rewrite <- !list_lookup_fmap, Hl. Qed.
Lemma relabelled_length (l l' : list PreSymbolicExpression) : update_expression_id l = Ok l' -> length l' = length l.
Proof. intros Hl%strip_relabelled. apply (f_equal length) in Hl. by rewrite !length_fmap in Hl. Qed.

(** * Panics *)

(** A constant, a variable, a map or a token without any argument. *)
Definition bare_data_definition (e : PreSymbolicExpression) : bool :=
  match try_parse_pre_expr e with
  | Some ((Constant | Map_ | PersistedVariable | FungibleToken_ | NonFungibleToken_), []) => true
  | _ => false
  end.
Lemma bare_stripped e : bare_data_definition (strip_labels e) = bare_data_definition e.
Proof.
  destruct e as [| |b l| | | | |]; try done. unfold bare_data_definition, try_parse_pre_expr.
  destruct l as [|[| b' f| | | | | |] args]; try done. cbn [strip_labels fmap list_fmap with_label pre_match_list pre_match_atom mbind option_bind].
  destruct (DefineFunctions_lookup_by_name f) as [[]|]; try done; by destruct args.
Qed.
Lemma bare_relabelled (l l' : list PreSymbolicExpression) : update_expression_id l = Ok l' ->
  (exists e, e ∈ l' /\ bare_data_definition e = true) -> exists e, e ∈ l /\ bare_data_definition e = true.
Proof.
  intros Hl%strip_relabelled (e & He & Hb). apply (list_elem_of_fmap_2 strip_labels) in He. rewrite Hl in He.
  apply list_elem_of_fmap in He as (e' & Hs & He'). exists e'. split; [done|]. by rewrite <- bare_stripped, <- Hs, bare_stripped.
Qed.

Lemma probe_for_generics_no_panic l g r : probe_for_generics l g r <> Panic.
Proof.
  unfold probe_for_generics. apply foldM_no_panic. intros g' e _. revert g'.
  induction e as [| |b k IH| | | | |] using pre_ind'; intros g'; cbn [probe_generics_in]; try done.
  - apply foldM_no_panic. intros g1 x Hx. eapply Forall_forall in IH; [apply IH|done].
  - by destruct r.
Qed.

Lemma resolve_expression_panic s e : resolve_expression s e = Panic -> bare_data_definition e = true.
Proof.
  unfold resolve_expression, bare_data_definition. destruct (try_parse_pre_expr e) as [[d args]|]; [|done].
  destruct d; cbn [resolve_definition]; intros H; try (destruct args; [done|]); exfalso; revert H.
  all: repeat (case_match; try done).
  all: repeat (apply bind_no_panic; [auto using probe_for_generics_no_panic with no_panic; try (by unfold referenced_before; case_decide)|intros ? _]); done.
Qed.

Lemma check_references_no_panic a g : check_references a g <> Panic.
Proof. apply foldM_no_panic. intros _ [n e] _. by case_decide. Qed.

Lemma foldM_panic {E A B} (f : B -> A -> Res E B) b l : foldM f b l = Panic -> exists b' x, x ∈ l /\ f b' x = Panic.
Proof.
  revert b. induction l as [|x l IH]; intros b; cbn [foldM]; [done|]. destruct (f b x) eqn:Hf; cbn [mbind res_bind]; [|done|].
  - intros (b' & y & Hy & Hp)%IH. exists b', y. split; [by right|done].
  - intros _. exists b, x. split; [left|done].
Qed.

Lemma traits_resolver_panic a : TraitsResolver_run a = Panic ->
  exists e, e ∈ ast_pre_expressions a /\ bare_data_definition e = true.
Proof.
  unfold TraitsResolver_run. destruct (foldM _ _ _) as [[a' g]| |] eqn:Hf; cbn [mbind res_bind]; [|done|].
  - pose proof (check_references_no_panic a' g). by destruct (check_references a' g).
  - intros _. apply foldM_panic in Hf as (s & e & He & Hp%resolve_expression_panic). by exists e.
Qed.

Lemma check_args_no_panic f l d : Forall (fun e => forall d, f e d <> Panic) l -> check_args f l d <> Panic.
Proof.
  intros Hl. unfold check_args. case_match; [done|]. apply foldM_no_panic. intros _ e He. eapply Forall_forall in Hl; [|done].
  apply Hl.
Qed.
Lemma check_no_panic l : check l 0 <> Panic.
Proof.
  apply check_args_no_panic, Forall_true. intros e. induction e using pre_ind'; intros d; try done. by apply check_args_no_panic.
Qed.

Lemma transform_no_panic p tr e : transform_expression p tr e <> Panic.
Proof.
  induction e as [| |b l IH|b l IH| | | |] using pre_ind'; cbn [transform_expression]; try done.
  - apply bind_no_panic; [by apply mapMR_no_panic|done].
  - apply bind_no_panic; [by apply mapMR_no_panic|done].
  - by case_match.
Qed.

Lemma compute_cost_no_panic f n : compute_cost f n <> Panic.
Proof.
  destruct f; cbn [compute_cost]; try done; unfold cost_overflow_add, cost_overflow_mul;
    repeat (apply bind_no_panic; [auto with no_panic|intros ? _]); auto with no_panic.
Qed.
Lemma spec_compute_cost_no_panic spec n : spec_compute_cost spec n <> Panic.
Proof. unfold spec_compute_cost. repeat (apply bind_no_panic; [apply compute_cost_no_panic|intros ? _]). done. Qed.

Lemma update_field_no_panic self r set k : r <> Panic -> (forall c, (k c).2 <> Panic) -> (update_field self r set k).2 <> Panic.
Proof. intros Hr Hk. unfold update_field. destruct r; [apply Hk|done|done]. Qed.
Lemma limited_add_cost_no_panic (tr : LimitedCostTracker) cost : (limited_add_cost tr cost).2 <> Panic.
Proof.
  unfold limited_add_cost.
  assert ((ExecutionCost_add (total tr) cost).2 <> Panic) as Ha.
  { unfold ExecutionCost_add, update_cost, cost_overflow_add.
    repeat (apply update_field_no_panic; [apply ok_or_no_panic|intros ?]). done. }
  destruct (ExecutionCost_add (total tr) cost) as [t [[]| |]]; [|done|done]. by case_match.
Qed.

Lemma limited_runtime_cost_no_panic spec (tr : LimitedCostTracker) n : (runtime_cost spec tr n).2 <> Panic.
Proof.
  unfold runtime_cost. pose proof (bind_no_panic (ok_or (checked_u 64 n) CostOverflow) (spec_compute_cost spec)
    (ok_or_no_panic _ _) (fun a _ => spec_compute_cost_no_panic spec a)) as Hc.
  destruct (_ ≫= _) as [cost| |]; [|done|done]. apply limited_add_cost_no_panic.
Qed.

Section sorter_panic.
Context {T} `{!CostTracker T}.
Lemma sorter_no_panic a (tr : T) : (forall n, (runtime_cost cost_functions.AST_CYCLE_DETECTION tr n).2 <> Panic) ->
  (DefinitionSorter_run a tr).2 <> Panic.
Proof.
  intros Hc. unfold DefinitionSorter_run. destruct (dependency_graph_ok (ast_pre_expressions a)) as (g & -> & Hok).
  cbn [mbind res_bind].
  assert (edges_count g <> Panic) as He by (apply foldM_no_panic; auto with no_panic).
  destruct (edges_count g) as [n| |]; [|done|done]. cbn [mbind res_bind]. specialize (Hc n).
  destruct (runtime_cost _ tr n) as [tr' r]. cbn [snd] in *. apply bind_no_panic; [by apply map_err_no_panic|]. intros _ _.
  destruct (get_sorted_ok g _ Hok) as (l & -> & Hl & Hord). cbn [expect_opt mbind res_bind].
  by destruct (get_cycling_ok _ g l Hok Hl Hord) as [(-> & _)|(deps & -> & _)].
Qed.
End sorter_panic.

(** * The pipeline *)

Section build_facts.
Context `{Hengine : !RegexEngine} `{Hlaws : !RegexLaws} `{Hsha : !Sha256} `{Hupper : !ToUppercase}.

Lemma parse_and_label_Ok c src a : parse_and_label c src = Ok a ->
  exists pre labelled, parse (string_bytes src) = Ok pre /\ Z.of_nat (depth_of_list pre) < AST_DEPTH_LIMIT /\
    update_expression_id pre = Ok labelled /\ a = ast_set_pre_expressions (ContractAST_new c pre) labelled.
Proof.
  unfold parse_and_label. intros (pre & Hp & ([] & Hd & (labelled & Hl & [= <-])%bind_Ok)%bind_Ok)%bind_Ok.
  apply check_ok in Hd. by exists pre, labelled.
Qed.

Lemma TraitsResolver_same a a' : TraitsResolver_run a = Ok a' -> same_but_traits a a'.
Proof.
  unfold TraitsResolver_run. intros ([a1 g] & Hf & (u & _ & [= <-])%bind_Ok)%bind_Ok. by apply resolve_expressions_ok in Hf as [Hs _].
Qed.

Lemma fmap_omap_lookup {A B} (F : A -> B) (l : list A) (s : list nat) : F <$> omap (fun i => l !! i) s = omap (fun i => (F <$> l) !! i) s.
Proof.
  induction s as [|i s IH]; [done|]. csimpl. rewrite list_lookup_fmap. destruct (l !! i); csimpl; by rewrite IH.
Qed.

(** Expanding the labelled expressions in their order. *)
Lemma SugarExpander_Ok a a' pre sorted : SugarExpander_run a = Ok a' ->
  update_expression_id pre = Ok (ast_pre_expressions a) -> ast_top_level_expression_sorting a = Some sorted ->
  Permutation sorted (seq 0 (length pre)) ->
  exists exprs, a' = ast_set_expressions (ast_set_pre_expressions a []) exprs /\ erase_ids <$> exprs = exprs /\
    mapMR (transform_expression (issuer (ast_contract_identifier a)) (ast_referenced_traits a))
      (omap (fun i => pre !! i) sorted) = Ok exprs.
Proof.
  unfold SugarExpander_run, pre_expressions_drain. intros Hs Hl Hsort Hp. rewrite Hsort in Hs.
  rewrite drain_sorted in Hs by (by rewrite (relabelled_length _ _ Hl)). cbn [lift_panic mbind res_bind] in Hs.
  apply bind_Ok in Hs as (exprs & He & [= <-]). exists exprs. split; [done|]. split.
  - apply erase_fixed. eapply mapMR_Forall; [done|]. apply Forall_true. intros x y. apply transform_erased.
  - rewrite <- He. apply mapMR_fmap_eq. by rewrite !fmap_omap_lookup, (transform_relabelled _ _ _ _ Hl).
Qed.

(** C11. The syntax tree of a contract: its expressions are the expressions of the
    text, expanded, each of them once, in an order in which each comes after those it
    depends on; and the expressions, with everything inside their lists, are numbered
    1, 2, 3 and so on from left to right. *)
Theorem build_ast_result {T} `{!CostTracker T} c src (tr tr' : T) a : build_ast c src tr = (tr', Ok a) ->
  exists pre labelled g sorted,
    parse (string_bytes src) = Ok pre /\ update_expression_id pre = Ok labelled /\
    dependency_graph labelled = Ok g /\ Permutation sorted (seq 0 (length pre)) /\ topological g sorted /\
    mapMR (transform_expression (issuer c) (ast_referenced_traits a)) (omap (fun i => pre !! i) sorted) =
      Ok (erase_ids <$> ast_expressions a) /\
    exists k, flat_map expr_ids (ast_expressions a) = seqZ 1 k.
Proof.
  unfold build_ast. destruct (runtime_cost _ tr _) as [tr1 charged].
  destruct (_ ≫= _) as [a1| |] eqn:Hlab; [|done|done].
  apply bind_Ok in Hlab as (u & _ & (pre & labelled & Hpre & _ & Hl & ->)%parse_and_label_Ok).
  destruct (DefinitionSorter_run _ tr1) as [tr2 r] eqn:Hsort. intros [= <- Hr].
  apply bind_Ok in Hr as (a2 & -> & Hr). apply sorter_run_Ok in Hsort as (g & sorted & Hg & -> & Hp & Ht).
  cbn [ast_pre_expressions ast_set_pre_expressions] in *.
  rewrite (relabelled_length _ _ Hl) in Hp. unfold resolve_and_expand in Hr.
  apply bind_Ok in Hr as (a3 & (ref & impl & ->)%TraitsResolver_same & (a4 & Hs & Hr)%bind_Ok).
  eapply SugarExpander_Ok in Hs as (exprs & -> & He & Hm); [|done|done|done].
  unfold run_expression_pass in Hr. apply bind_Ok in Hr as (exprs' & Hids & [= <-]).
  exists pre, labelled, g, sorted. split_and!; [done..| |by eapply update_expr_ids].
  cbn in *. by rewrite (update_erase_ids _ _ Hids), He.
Qed.

(** C14. Building the syntax tree of a contract panics only on a contract with a
    constant, a variable, a map or a token that is defined without any argument; on
    every other text it returns a tree or an error. *)
Theorem build_ast_panics c src (tr : LimitedCostTracker) : (build_ast c src tr).2 = Panic ->
  exists pre e, parse (string_bytes src) = Ok pre /\ e ∈ pre /\ bare_data_definition e = true.
Proof.
  unfold build_ast. pose proof (limited_runtime_cost_no_panic cost_functions.AST_PARSE tr (str_len src)) as Hcharge.
  destruct (runtime_cost _ tr _) as [tr1 charged]. cbn [snd] in Hcharge.
  assert ((_ ← map_err ParseError.from_cost charged; parse_and_label c src) <> Panic) as Hlab.
  { apply bind_no_panic; [by apply map_err_no_panic|]. intros _ _. unfold parse_and_label.
    apply bind_no_panic; [apply parse_no_panic|]. intros pre _. apply bind_no_panic.
    - apply check_no_panic.
    - intros _ _. apply bind_no_panic; [apply update_expression_id_no_panic|done]. }
  destruct (_ ≫= _) as [a1| |] eqn:Ha1; [|done|done].
  apply bind_Ok in Ha1 as (u & _ & (pre & labelled & Hpre & _ & Hl & ->)%parse_and_label_Ok).
  pose proof (sorter_no_panic (ast_set_pre_expressions (ContractAST_new c pre) labelled) tr1
    (limited_runtime_cost_no_panic _ _)) as Hsort.
  destruct (DefinitionSorter_run _ tr1) as [tr2 r] eqn:Hrun. cbn [snd] in *.
  destruct r as [a2| |]; [|done|done]. apply sorter_run_Ok in Hrun as (g & sorted & Hg & -> & Hp & Ht).
  cbn [ast_pre_expressions ast_set_pre_expressions mbind res_bind] in *. unfold resolve_and_expand. intros Hr.
  exists pre. enough (exists e, e ∈ pre /\ bare_data_definition e = true) as (e & ? & ?) by eauto.
  eapply bare_relabelled; [done|].
  destruct (TraitsResolver_run _) as [a3| |] eqn:Htr; cbn [mbind res_bind] in Hr; [|done|by apply traits_resolver_panic in Htr].
  apply TraitsResolver_same in Htr as (ref & impl & ->). exfalso. revert Hr.
  apply bind_no_panic; [|intros a4 _; apply bind_no_panic; [apply update_expression_id_no_panic|done]].
  unfold SugarExpander_run, pre_expressions_drain.
  cbn [ast_pre_expressions ast_top_level_expression_sorting ast_set_traits ast_set_sorting].
  rewrite drain_sorted by done. cbn [lift_panic mbind res_bind].
  apply bind_no_panic; [|done]. apply mapMR_no_panic, Forall_true, transform_no_panic.
Qed.
End build_facts.
