(* ===== verification/AssetFacts.v ===== *)
(** Transfers move what they say: the balances, the assets and the events of
    [stx-transfer?]. *)
From stdpp Require Import base strings numbers list gmap relations.
From Stdlib Require Import ZArith Lia.
From S2P Require Import Prelude Names Types Representations Values C32 C32Facts RollbackWrapper BackingStore Costs AssetMap ClarityDatabase Keys DatabaseFacts Natives Contexts Interpreter.
#[local] Open Scope Z_scope.

Section assets.
Context {S : Type} `{Hstore : !ClarityBackingStore S VmError} `{Hsha : !Sha256} `{Hu128 : !ClaritySerializable U128}.
#[local] Notation Run := (Exec S CallStack).

Lemma exec_bind_Ok {A B} (m : Run A) (k : A -> Run B) s s' b :
  (m ≫= k) s = Ok (s', inr b) -> exists s1 a, m s = Ok (s1, inr a) /\ k a s1 = Ok (s', inr b).
Proof. unfold mbind, exec_bind. destruct (m s) as [[s1 [e|a]]| |]; [done| |done..]. eauto. Qed.

(** The context [g] with other costs. *)
Definition charged_only (g g' : GlobalContext S) : Prop := exists c, g' = set_cost_track g c.

Lemma add_type_memory_Ok t g x s' u : add_type_memory t (g, x) = Ok (s', inr u) -> exists g', s' = (g', x) /\ charged_only g g'.
Proof.
  unfold add_type_memory. intros (s1 & z & Hs & Hm)%exec_bind_Ok. unfold size_of_type, lift_res in Hs.
  destruct (size t); simplify_eq. unfold context_add_memory, charge in Hm. cbn in Hm.
  destruct (limited_add_memory _ _) as [c [[]|e|]]; cbn in Hm; simplify_eq. eexists. split; [done|]. by exists c.
Qed.

Lemma get_balance_Ok q g (x : CallStack) s' b :
  on_database (get_account_stx_balance q) (g, x) = Ok (s', inr b) ->
  s' = (g, x) /\ get_account_stx_balance q (database g) = Ok (b, database g).
Proof.
  unfold on_database. cbn. destruct (get_account_stx_balance q (database g)) as [[b' w]| |] eqn:E; [|done..]. intros [= <- <-].
  assert (w = database g) as ->; [|by destruct g]. revert E. unfold get_account_stx_balance, mbind, db_bind, db_lift.
  destruct (make_key_for_account_balance q) as [k|[]|]; cbn; [|done]. unfold get_json, db_read, mbind, res_bind.
  destruct (wrapper_get (database g) k) as [[t|]|[]|]; cbn; [|by intros [= _ <-]|done].
  destruct (json_from_str t) as [u|[]|]; cbn; [|done]. by intros [= _ <-].
Qed.

Lemma set_balance_Ok q key bal g (x : CallStack) s' u :
  make_key_for_account_balance q = Ok key -> on_database (set_account_stx_balance q bal) (g, x) = Ok (s', inr u) ->
  exists w, s' = (set_database g w, x) /\ updated key (json_to_string (mkU128 bal)) (database g) w.
Proof.
  intros Hk. unfold on_database. cbn. unfold set_account_stx_balance, mbind, db_bind, db_lift. rewrite Hk. cbn.
  unfold put_json, db_write. destruct (wrapper_put (database g) key _) as [w|[]|] eqn:E; cbn; [|done]. intros [= <- _].
  exists w. split; [done|]. destruct (put_updated (database g) key (json_to_string (mkU128 bal))) as (w' & Hw & Hupd).
  { unfold wrapper_put, wrapper_depth in *. by destruct (stack (database g)). }
  rewrite E in Hw. by injection Hw as <-.
Qed.

Lemma balance_read q key bal (w : RollbackWrapper S) :
  make_key_for_account_balance q = Ok key -> in_u 128 bal -> wrapper_get w key = Ok (Some (json_to_string (mkU128 bal))) ->
  get_account_stx_balance q w = Ok (bal, w).
Proof.
  intros Hk Hb Hw. unfold get_account_stx_balance, mbind, db_bind, db_lift. rewrite Hk. cbn.
  unfold get_json, db_read. rewrite Hw. cbn. by rewrite json_round_trip.
Qed.

Lemma balance_key_inj p q kp kq :
  addressable p -> addressable q -> p <> q -> make_key_for_account_balance p = Ok kp -> make_key_for_account_balance q = Ok kq -> kp <> kq.
Proof. intros Hp Hq Hne Hkp Hkq ->. apply Hne. assert (KAccount p STXBalance = KAccount q STXBalance) by by apply (key_text_inj _ _ kq). by simplify_eq. Qed.

(** What a transfer did to the database: [from] has less, [to] has more, and
    every other key reads as before. *)
Definition moved (w w' : RollbackWrapper S) (from to : PrincipalData) (from_bal to_bal amount : Z) : Prop :=
  get_account_stx_balance from w' = Ok (from_bal - amount, w') /\
  get_account_stx_balance to w' = Ok (to_bal + amount, w') /\
  (forall k s, key_ok k -> k <> KAccount from STXBalance -> k <> KAccount to STXBalance -> key_text k = Ok s ->
     wrapper_get w' s = wrapper_get w s) /\
  (forall c k, wrapper_get_metadata w' c k = wrapper_get_metadata w c k).

Lemma two_updates w w1 w2 from to kf kt from_bal to_bal amount :
  addressable from -> addressable to -> from <> to ->
  make_key_for_account_balance from = Ok kf -> make_key_for_account_balance to = Ok kt ->
  in_u 128 (from_bal - amount) -> in_u 128 (to_bal + amount) ->
  updated kf (json_to_string (mkU128 (from_bal - amount))) w w1 -> updated kt (json_to_string (mkU128 (to_bal + amount))) w1 w2 ->
  moved w w2 from to from_bal to_bal amount.
Proof.
  intros Hf Ht Hne Hkf Hkt Hbf Hbt H1 H2. pose proof (balance_key_inj _ _ _ _ Hf Ht Hne Hkf Hkt) as Hk. split_and!.
  - apply (balance_read _ kf); [done..|]. rewrite (upd_get _ _ _ _ H2), decide_False by done. by apply upd_get_eq in H1.
  - apply (balance_read _ kt); [done..|]. by apply upd_get_eq in H2.
  - intros k s Hk1 Hnf Hnt Hs. rewrite (upd_get _ _ _ _ H2), decide_False.
    + rewrite (upd_get _ _ _ _ H1), decide_False; [done|]. intros ->. by apply Hnf, (key_text_inj _ _ kf).
    + intros ->. by apply Hnt, (key_text_inj _ _ kt).
  - intros c k. by rewrite (upd_metadata _ _ _ _ H2), (upd_metadata _ _ _ _ H1).
Qed.

(** What a transfer adds to the open frame. *)
Definition recorded (g g' : GlobalContext S) (from to : PrincipalData) (amount : Z) : Prop :=
  exists m m' maps b batches,
    asset_maps g = m :: maps /\ add_stx_transfer m from amount = Ok m' /\ asset_maps g' = m' :: maps /\
    event_batches g = b :: batches /\ event_batches g' = (b ++ [STXEvent (STXTransferEvent from to amount)]) :: batches /\
    read_only g' = read_only g.

(** The bookkeeping at the end of a transfer. *)
Lemma record_transfer from to amount (g : GlobalContext S) (x : CallStack) s' v :
  event_batches g <> [] ->
  (_ ← log_stx_transfer from amount; _ ← register_stx_transfer_event from to amount; mret okay_true) (g, x) = Ok (s', inr v) ->
  v = okay_true /\ exists g', s' = (g', x) /\ database g' = database g /\ recorded g g' from to amount.
Proof.
  intros Hb (s1 & [] & Hlog & H)%exec_bind_Ok. unfold log_stx_transfer, on_asset_map in Hlog. cbn in Hlog.
  destruct (asset_maps g) as [|m maps] eqn:Em; [done|].
  destruct (add_stx_transfer m from amount) as [m'| |] eqn:Ea; [|done..]. simplify_eq.
  apply exec_bind_Ok in H as (s2 & [] & Hev & H). unfold register_stx_transfer_event, register_event, modify in Hev. cbn in Hev.
  destruct (event_batches g) as [|b batches] eqn:Eb; [done|]. simplify_eq. injection H as <- <-. split; [done|].
  eexists. split_and!; [done|done|]. by exists m, m', maps, b, batches.
Qed.

Lemma charge_frame (g g' : GlobalContext S) : charged_only g g' ->
  asset_maps g' = asset_maps g /\ event_batches g' = event_batches g /\ read_only g' = read_only g /\ database g' = database g.
Proof. by intros [c ->]. Qed.

Lemma four_charges t1 t2 t3 t4 (k : Run Value) g x s' v :
  (_ ← add_type_memory t1; _ ← add_type_memory t2; _ ← add_type_memory t3; _ ← add_type_memory t4; k) (g, x) = Ok (s', inr v) ->
  exists g1, charged_only g g1 /\ k (g1, x) = Ok (s', inr v).
Proof.
  intros (s1 & u1 & (g1 & -> & [c1 ->])%add_type_memory_Ok & H1)%exec_bind_Ok.
  apply exec_bind_Ok in H1 as (s2 & u2 & (g2 & -> & [c2 ->])%add_type_memory_Ok & H2).
  apply exec_bind_Ok in H2 as (s3 & u3 & (g3 & -> & [c3 ->])%add_type_memory_Ok & H3).
  apply exec_bind_Ok in H3 as (s4 & u4 & (g4 & -> & [c4 ->])%add_type_memory_Ok & H4).
  exists (set_cost_track g c4). split; [by exists c4|exact H4].
Qed.

Lemma recorded_frame g1 g2 g' from to amount :
  asset_maps g1 = asset_maps g2 -> event_batches g1 = event_batches g2 -> read_only g1 = read_only g2 ->
  recorded g1 g' from to amount -> recorded g2 g' from to amount.
Proof. unfold recorded. intros -> -> ->. done. Qed.

(** The reasons to refuse a transfer, with their codes. *)
Definition refused (env : Environment) (from to : PrincipalData) (amount from_bal code : Z) : Prop :=
  (code = 3 /\ amount <= 0) \/ (code = 2 /\ from = to) \/ (code = 4 /\ is_sender env (VPrincipal from) = false) \/
  (code = 1 /\ from_bal < amount).

(** [stx-transfer?] does what it says: a transfer of nothing, to oneself, of
    the funds of somebody else or of more than there is is refused with the code
    of the reason, and changes nothing; any other transfer that returns has moved
    the amount from the sender of the transaction to the recipient: no other key
    of the database has changed, the amount is in the asset map, and the event is
    at the end of the batch. *)
Theorem stx_transfer_moves env amount from to g x s' v from_bal to_bal :
  addressable from -> addressable to -> event_batches g <> [] -> in_u 128 from_bal ->
  get_account_stx_balance from (database g) = Ok (from_bal, database g) ->
  get_account_stx_balance to (database g) = Ok (to_bal, database g) ->
  stx_transfer env (VUInt amount) (VPrincipal from) (VPrincipal to) (g, x) = Ok (s', inr v) ->
  (exists code, refused env from to amount from_bal code /\ v = err_uint code /\ s' = (g, x)) \/
  (v = okay_true /\ 0 < amount <= from_bal /\ from <> to /\ is_sender env (VPrincipal from) = true /\
   exists g', s' = (g', x) /\ moved (database g) (database g') from to from_bal to_bal amount /\ recorded g g' from to amount).
Proof.
  intros Hf Ht Hb Hu Hgf Hgt. unfold stx_transfer.
  destruct (Z.leb_spec amount 0) as [|Hpos]; [intros [= <- <-]; left; exists 3; unfold refused; tauto|].
  destruct (decide (from = to)) as [|Hne]; [intros [= <- <-]; left; exists 2; unfold refused; tauto|].
  destruct (is_sender env (VPrincipal from)) eqn:Hs; cbv beta iota delta [negb]; [|intros [= <- <-]; left; exists 4; unfold refused; tauto].
  intros (s1 & fb & (-> & Hfb)%get_balance_Ok & H)%exec_bind_Ok.
  apply exec_bind_Ok in H as (s1 & tb & (-> & Htb)%get_balance_Ok & H).
  rewrite Hgf in Hfb. rewrite Hgt in Htb. injection Hfb as <-. injection Htb as <-.
  destruct (Z.ltb_spec from_bal amount) as [|Hle]; [injection H as <- <-; left; exists 1; unfold refused; tauto|]. right.
  apply exec_bind_Ok in H as (s1 & final & Hfin & H). unfold lift_res in Hfin.
  destruct (checked_add 128 to_bal amount) as [z|] eqn:Hadd; [|done]. cbn in Hfin. simplify_eq.
  apply checked_u_Some in Hadd as [-> Hadd]. apply four_charges in H as (g1 & (Hm & He & Hr & Hd)%charge_frame & H).
  destruct (key_text_total (KAccount from STXBalance) Hf) as [kf Hkf].
  destruct (key_text_total (KAccount to STXBalance) Ht) as [kt Hkt].
  apply exec_bind_Ok in H as (s2 & [] & (w1 & -> & Hw1)%(set_balance_Ok _ kf) & H); [|done].
  apply exec_bind_Ok in H as (s3 & [] & (w2 & -> & Hw2)%(set_balance_Ok _ kt) & H); [|done].
  apply record_transfer in H as (-> & g' & -> & Hdb & Hrec); [|cbn; by rewrite He].
  split_and!; try done; try lia. exists g'. split; [done|]. split.
  - rewrite Hdb. rewrite Hd in Hw1. cbn in Hw2 |- *. apply (two_updates _ w1 _ _ _ kf kt); try done. unfold in_u in *. lia.
  - by apply (recorded_frame (set_database (set_database g1 w1) w2)).
Qed.
End assets.
