(* ===== verification/StxFacts.v ===== *)
(** Nobody spends the STX of somebody else: whatever contracts do, the balance of
    a user goes down only in transactions that the user sent. *)
From stdpp Require Import base strings numbers list gmap relations.
From Stdlib Require Import Ascii ZArith Lia.
From S2P Require Import Prelude Names Types Representations Values C32 C32Facts RollbackWrapper BackingStore Costs AssetMap ClarityDatabase Keys DatabaseFacts Natives Contexts ContextFacts Interpreter Runs InterpreterFacts.
#[local] Open Scope Z_scope.

(** * Keys of accounts *)

Section keys.
Context `{Hsha : !Sha256}.

Lemma app_string_inj_r a b x : a +:+ x = b +:+ x -> a = b.
Proof.
  intros H%(f_equal string_bytes). rewrite !string_bytes_app in H. apply app_inv_tail in H. by apply string_bytes_inj.
Qed.
Lemma app_string_inj_l a b x : x +:+ a = x +:+ b -> a = b.
Proof.
  intros H%(f_equal string_bytes). rewrite !string_bytes_app in H. apply app_inv_head in H. by apply string_bytes_inj.
Qed.

Lemma balance_key_text q key :
  make_key_for_account_balance q = Ok key -> exists s, PrincipalData_display q = Ok s /\
    key = "vm-account::" +:+ bytes_string s +:+ "::" +:+ fmt_dec (store_type_u8 STXBalance).
Proof.
  unfold make_key_for_account_balance, make_key_for_account. destruct (PrincipalData_display q) as [s| |]; [|done..].
  intros [= <-]. by exists s.
Qed.

Lemma dot_in_string l : 46 ∈ l -> 46 ∈ string_bytes (bytes_string l).
Proof.
  induction l as [|b l IH]; [by intros ?%elem_of_nil|]. rewrite elem_of_cons. cbn. intros [<-|Hl]; [|right; auto].
  rewrite byte_of_ascii_of_byte by by vm_compute. left.
Qed.

Lemma standard_no_dot p s :
  valid_principal p -> PrincipalData_display (Standard p) = Ok s -> 46 ∉ string_bytes (bytes_string s).
Proof.
  intros Hp Hs. destruct (@standard_round_trip _ ascii_to_uppercase p Hp) as (y & Hy & Ha & _). cbn in Hs.
  rewrite Ha in Hs. simplify_eq. destruct (address_text y Hy) as [Hu _]. rewrite string_bytes_string by done.
  rewrite elem_of_cons. intros [?|Hin]; [done|]. apply list_elem_of_In, in_map_iff in Hin as (d & Hd & Hin).
  rewrite Forall_forall in Hy. apply list_elem_of_In, Hy in Hin.
  pose proof (digit_cases (fun d => bool_decide (ch d <> 46)) ltac:(by vm_compute) d Hin) as H.
  by apply bool_decide_eq_true in H.
Qed.

(** The account of a user has a key of its own. *)
Lemma balance_key_contract p c key :
  valid_principal p -> make_key_for_account_balance (Standard p) = Ok key ->
  make_key_for_account_balance (Contract c) <> Ok key.
Proof.
  intros Hp (s & Hs & ->)%balance_key_text (s' & Hs' & Heq)%balance_key_text.
  apply app_string_inj_l, app_string_inj_r in Heq.
  apply (standard_no_dot p s Hp Hs). rewrite Heq. apply dot_in_string.
  cbn in Hs'. unfold QualifiedContractIdentifier_to_string in Hs'. destruct (to_address (issuer c)) as [a| |]; [|done..].
  simplify_eq/=. rewrite elem_of_app, elem_of_cons. auto.
Qed.
Lemma balance_key_standard p q key :
  valid_principal p -> valid_principal q -> make_key_for_account_balance (Standard p) = Ok key ->
  make_key_for_account_balance (Standard q) = Ok key -> q = p.
Proof.
  intros Hp Hq (s & Hs & ->)%balance_key_text (s' & Hs' & Heq)%balance_key_text.
  apply app_string_inj_l, app_string_inj_r in Heq.
  destruct (principal_string (Standard p) Hp) as (s1 & Hs1 & _ & Hinj). rewrite Hs in Hs1. simplify_eq.
  pose proof (Hinj (Standard q) s' Hq Hs' (eq_sym Heq)). by simplify_eq.
Qed.
Lemma balance_key_not_contract q key : make_key_for_account_balance q = Ok key -> ~ contract_key key.
Proof. intros (s & _ & ->)%balance_key_text (rest & H). discriminate. Qed.
End keys.

(** * Balances along a run *)

Section balances.
Context {S : Type} `{Hstore : !ClarityBackingStore S VmError} `{Hlaws : !BackingStoreLaws S VmError}.
Context `{Hsha : !Sha256} `{Hsha512 : !Sha512Trunc256} `{Hhashes : !NativeHashes} `{Hheaders : !HeadersDB}.
Context `{Hu128 : !ClaritySerializable U128} `{Hu64 : !ClaritySerializable U64} `{Hprincipal : !ClaritySerializable PrincipalData}.
Context `{Hft : !ClaritySerializable FungibleTokenMetadata} `{Hnft : !ClaritySerializable NonFungibleTokenMetadata}.
Context `{Hmap : !ClaritySerializable DataMapMetadata} `{Hvar : !ClaritySerializable DataVariableMetadata}.
Context `{Hst : !Storable ContractData} `{Hcontract : !ClaritySerializable ContractData}.
#[local] Notation State := (VmState S).

(** The user and the key of its balance. *)
Context (p : StandardPrincipalData) (key : string).
Hypothesis Hp : valid_principal p.
Hypothesis Hkey : make_key_for_account_balance (Standard p) = Ok key.

Definition stored (g : GlobalContext S) : Res Empty_set (option string) := wrapper_get (database g) key.

Definition open_frame (g : GlobalContext S) : Prop := exists st ls maps batches ro, frame g st ls maps batches ro.

Lemma open_frame_wf g : open_frame g -> context_wf g /\ asset_maps g <> [].
Proof.
  intros (st & ls & maps & batches & ro & Hf). split; [|by destruct Hf as (m & b & log & mlog & -> & _)].
  apply frame_represents in Hf as (log & mlog & Hr). by eexists.
Qed.
Lemma begin_open (ro : bool) g : context_wf g -> open_frame (if ro then begin_read_only g else begin g).
Proof. intros [s Hs]. do 5 eexists. by apply (begin_frame g s ro). Qed.
Lemma touches_open g g' : touches g g' -> open_frame g -> open_frame g'.
Proof. intros Ht (st & ls & maps & batches & ro & Hf). do 5 eexists. by eapply touches_frame. Qed.

(** What is stored changes by [rho]. *)
Definition moves (rho : relation (Res Empty_set (option string))) (s s' : State) (r : option VmError) : Prop :=
  confined s s' r /\ (~ left_open r -> open_frame s.1 -> rho (stored s.1) (stored s'.1)).

Lemma put_other (w w' : RollbackWrapper S) k v : k <> key -> wrapper_put w k v = Ok w' -> wrapper_get w' key = wrapper_get w key.
Proof.
  intros Hk Hw. assert (wrapper_depth w <> 0%nat) as Hd.
  { unfold wrapper_depth, wrapper_put in *. by destruct (stack w). }
  destruct (put_updated w k v Hd) as (w2 & Hw2 & Hu). rewrite Hw in Hw2. simplify_eq.
  rewrite (upd_get _ _ _ _ Hu). by rewrite decide_False.
Qed.

Lemma stored_begin (ro : bool) g : open_frame g -> stored (if ro then begin_read_only g else begin g) = stored g.
Proof.
  intros (st & ls & maps & batches & ro' & m & b & log & mlog & _ & _ & _ & Hr & _). apply refines_depth in Hr.
  unfold stored, wrapper_get, wrapper_depth in *. destruct (stack (database g)) as [|top rest] eqn:E; [done|].
  by destruct ro.
Qed.

Section preorder.
Context (rho : relation (Res Empty_set (option string))) `{Hpre : !PreOrder rho}.

#[export] Instance moves_steps : Steps (moves rho).
Proof.
  unfold moves. split; cbn [fst].
  - intros s r. split; [apply pres_refl|done].
  - intros s1 s2 s3 r [Hc12 H12] [Hc23 H23]. split; [by eapply pres_trans|]. intros Hn Ho.
    transitivity (stored s2.1); [by apply H12; eauto with runs|]. apply H23; [done|].
    eapply touches_open; [|done]. apply Hc12. eauto with runs.
  - intros. split; [by eapply pres_cost|done].
  - intros. split; [by eapply pres_memory|done].
  - intros s g x r m c [Hc Hrho] Hd. split; [by eapply pres_drop|done].
  - intros. split; [by eapply pres_assets|done].
  - intros. split; [by eapply pres_events|done].
Qed.

Lemma moves_puts : puts (moves rho) (fun k => k <> key).
Proof.
  intros g x k v w Hk Hw. split; [by eapply confined_puts|]. intros _ _. unfold stored. cbn.
  by rewrite (put_other _ _ _ _ Hk Hw).
Qed.

#[export] Instance moves_brackets : Brackets (moves rho).
Proof.
  split.
  - intros s s' v [Hc Hrho]. split; [by eapply pres_short|]. intros _. apply Hrho. intros [? [=]].
  - intros g x g1 x1 g2 r [Hc Hrho] Hcommit. split; [by eapply pres_commit|]. intros _ Ho. cbn [fst] in *.
    destruct (open_frame_wf g Ho) as [Hwf Hne]. pose proof (proj2 Hc not_left_open_None) as Ht. cbn [fst] in Ht.
    pose proof (Hrho not_left_open_None (begin_open false g Hwf)) as H. cbn [fst] in H. rewrite (stored_begin false g Ho) in H.
    destruct (nested_commit g g1 false Hwf Hne Ht) as [(g' & Hc' & Hpub)|(_ & Hc')]; rewrite Hcommit in Hc'; simplify_eq; [|done].
    unfold stored in *. by rewrite (published_reads _ _ _ Hpub).
  - intros ro g x g1 x1 g2 r [Hc Hrho] Hback. split; [by eapply pres_roll_back|]. intros Hn Ho. cbn [fst] in *.
    destruct (open_frame_wf g Ho) as [Hwf _]. pose proof (proj2 Hc Hn) as Ht. cbn [fst] in Ht.
    rewrite (nested_roll_back g g1 ro Hwf Ht) in Hback. by simplify_eq.
  - intros g x s' t [Hc _]. split; [by eapply pres_open|]. intros []. by eexists.
  - intros g x bhh prior w g1 x1 r bhh' w' g2 Hgo [Hc Hrho] Hback Hr. split; [by eapply pres_at_block|]. intros Hn Ho.
    cbn [fst] in *. destruct (open_frame_wf g Ho) as [Hwf _]. pose proof (proj2 Hc Hn) as Ht. cbn [fst] in Ht.
    by rewrite (nested_at_block g g1 g2 _ _ _ _ _ Hwf Hgo Ht Hback Hr).
  - intros g x id track g1 x1 x2 r r' Htr [Hc Hrho] Hr. split; [by eapply pres_call|]. intros Hn. apply Hrho.
    destruct (stack_kept_call _ _ _ _ _ _ _ _ _ Htr (proj1 Hc) Hr) as [_ Hbal]. intros Hopen.
    by rewrite (Hbal (left_open_balanced _ Hopen)) in Hn.
  - intros g x id s' e [Hc Hrho]. split; [by eapply pres_leak|done].
Qed.
End preorder.

Lemma moves_depth rho s s' r : moves rho s s' r -> (CallStack_depth s.2 <= CallStack_depth s'.2)%nat.
Proof. intros [Hc _]. by eapply confined_depth. Qed.

(** ** Amounts *)

(** The balance in a stored text. *)
Definition amount_of (o : Res Empty_set (option string)) : option Z :=
  match o with
  | Ok None => Some 0
  | Ok (Some x) => match json_from_str (T := U128) x with Ok u => Some (u128_val u) | _ => None end
  | _ => None
  end.
Definition no_less (o o' : Res Empty_set (option string)) : Prop :=
  forall b, amount_of o = Some b -> exists b', amount_of o' = Some b' /\ b <= b'.
#[export] Instance no_less_preorder : PreOrder no_less.
Proof.
  split.
  - intros o b Hb. exists b. split; [done|lia].
  - intros o1 o2 o3 H12 H23 b Hb. destruct (H12 b Hb) as (b' & Hb' & ?). destruct (H23 b' Hb') as (b'' & ? & ?).
    exists b''. split; [done|lia].
Qed.

Lemma get_balance_amount q k (w w' : RollbackWrapper S) b :
  make_key_for_account_balance q = Ok k -> get_account_stx_balance q w = Ok (b, w') ->
  w' = w /\ amount_of (wrapper_get w k) = Some b.
Proof.
  intros Hk. unfold get_account_stx_balance, mbind, db_bind, db_lift. rewrite Hk. cbn.
  unfold get_json, db_read, mbind, res_bind. destruct (wrapper_get w k) as [[x|]|[]|]; cbn; [|by intros [= <- <-]|done].
  destruct (json_from_str x) as [u|[]|]; cbn; [|done]. by intros [= <- <-].
Qed.

Lemma moves_eq_le s s' r : moves eq s s' r -> moves no_less s s' r.
Proof. intros [Hc Heq]. split; [done|]. intros Hn Ho. by rewrite (Heq Hn Ho). Qed.

(** Writes to other accounts. *)
Lemma set_other_writes q b : make_key_for_account_balance q <> Ok key ->
  writes (S := S) (fun k => k <> key) (set_account_stx_balance q b).
Proof.
  intros Hq. unfold set_account_stx_balance. apply writes_bind_lift. intros k Hk. apply writes_put_json.
  apply lift_panic_Ok in Hk. congruence.
Qed.
Lemma get_balance_writes q K : writes (S := S) K (get_account_stx_balance q).
Proof. unfold get_account_stx_balance, get_json. writes_steps. Qed.

(** What the relation assumes of the sender. *)
Definition not_user (sender : option Value) : Prop :=
  match sender with
  | Some (VPrincipal (Standard q)) => valid_principal q /\ q <> p
  | _ => True
  end.
Lemma sender_other env from :
  not_user (env_sender env) -> is_sender env (VPrincipal from) = true -> make_key_for_account_balance from <> Ok key.
Proof.
  unfold is_sender. intros Hs. destruct (env_sender env) as [v|]; [|done]. destruct v as [| | | | |q| | |]; try done. cbn.
  rewrite bool_decide_eq_true. intros <-. destruct from as [q|c]; [|by apply (balance_key_contract p)].
  intros Hq. destruct Hs as [Hv Hne]. by apply Hne, (balance_key_standard p q key).
Qed.

(** ** Transfers *)

Section steps.
Context (rho : relation (Res Empty_set (option string))) `{Hpre : !PreOrder rho}.
#[local] Notation runs := (runs (R := moves rho)).

Lemma moves_get n q : runs n (on_database (get_account_stx_balance q)).
Proof. eapply runs_on_database; [exact (moves_puts rho)|apply get_balance_writes]. Qed.
Lemma moves_set n q b : make_key_for_account_balance q <> Ok key -> runs n (on_database (set_account_stx_balance q b)).
Proof. intros Hq. eapply runs_on_database; [exact (moves_puts rho)|by apply set_other_writes]. Qed.
Lemma moves_memory n t : runs n (add_type_memory t).
Proof. apply add_type_memory_runs, moves_depth. Qed.
Lemma moves_log n q amount : runs n (log_stx_transfer q amount) /\ runs n (log_stx_burn q amount).
Proof. split; apply runs_asset_map. Qed.
End steps.

Ltac moves_step :=
  lazymatch goal with
  | |- runs _ (_ ≫= _) => apply (runs_bind (moves_depth _)); [|intros ?]
  | |- runs _ (match ?x with _ => _ end) => destruct x eqn:?
  | |- runs _ (on_database (get_account_stx_balance _)) => apply moves_get
  | |- runs _ (on_database (set_account_stx_balance _ _)) => apply moves_set; [exact _|auto]
  | |- runs _ (add_type_memory _) => apply moves_memory
  | |- runs _ (log_stx_transfer _ _) => apply moves_log
  | |- runs _ (log_stx_burn _ _) => apply moves_log
  | |- runs _ (register_stx_transfer_event _ _ _) => apply runs_event
  | |- runs _ (register_stx_burn_event _ _) => apply runs_event
  | |- runs _ (lift_res _) => apply runs_lift
  | |- runs _ (mret _) => apply runs_ret
  | |- runs _ (check_err _) => apply runs_throw
  | |- PreOrder _ => exact _
  end.

Lemma stx_burn_moves env a f n : not_user (env_sender env) -> runs (R := moves no_less) n (stx_burn env a f).
Proof.
  intros He. unfold stx_burn. destruct f as [| | | | |from| | |], a as [|amount| | | | | | |]; try apply runs_throw.
  destruct (amount <=? 0); [moves_step|]. destruct (is_sender env (VPrincipal from)) eqn:Hs; cbv beta iota delta [negb]; [|moves_step].
  pose proof (sender_other env from He Hs) as Hfrom. repeat moves_step.
Qed.

(** A transfer to another account. *)
Lemma stx_transfer_other env a f to n :
  not_user (env_sender env) -> make_key_for_account_balance to <> Ok key ->
  runs (R := moves no_less) n (stx_transfer env a f (VPrincipal to)).
Proof.
  intros He Hto. unfold stx_transfer. destruct f as [| | | | |from| | |], a as [|amount| | | | | | |]; try apply runs_throw.
  destruct (amount <=? 0); [moves_step|]. destruct (decide (from = to)); [moves_step|].
  destruct (is_sender env (VPrincipal from)) eqn:Hs; cbv beta iota delta [negb]; [|moves_step].
  pose proof (sender_other env from He Hs) as Hfrom. repeat moves_step.
Qed.

(** A transfer to the user: nothing changes before the user is credited. *)
Lemma post_step {A B} (m : Exec S CallStack A) (k : A -> Exec S CallStack B) s s1 :
  runs (R := moves eq) FUEL m -> moves eq s s1 None ->
  (forall a s2, moves eq s s2 None -> post (moves no_less) s (fun _ => None) (k a s2)) ->
  post (moves no_less) s (fun _ => None) ((m ≫= k) s1).
Proof.
  intros Hm Hs Hk. specialize (Hm s1 (fueled_enough s1)). unfold mbind, exec_bind.
  destruct (m s1) as [[s2 [e|a]]| |]; cbn in Hm; [|apply Hk|done..].
  - apply moves_eq_le. by eapply pres_trans.
  - by eapply pres_trans.
Qed.

Lemma credit_moves s s6 to to_bal amount (rest : Exec S CallStack Value) :
  make_key_for_account_balance to = Ok key -> 0 < amount -> in_u 128 (to_bal + amount) ->
  moves eq s s6 None -> (open_frame s.1 -> amount_of (stored s.1) = Some to_bal) -> runs (R := moves no_less) FUEL rest ->
  post (moves no_less) s (fun _ => None) ((_ ← on_database (set_account_stx_balance to (to_bal + amount)); rest) s6).
Proof.
  intros Hto Ha Hu Hs6 Hbal Hrest. unfold mbind, exec_bind at 1, on_database, set_account_stx_balance.
  unfold mbind at 1, db_bind, db_lift. rewrite Hto. cbn [lift_panic mbind res_bind]. unfold put_json, db_write.
  destruct (wrapper_put (database s6.1) key (json_to_string (mkU128 (to_bal + amount)))) as [w|[]|] eqn:Hw; [|done]. cbn.
  eapply post_trans; [|apply Hrest, fueled_enough]. split.
  - eapply pres_trans; [apply Hs6|]. destruct s6. by eapply confined_puts.
  - intros _ Ho b Hb. rewrite (Hbal Ho) in Hb. simplify_eq. exists (b + amount). split; [|lia].
    destruct (put_updated (database s6.1) key (json_to_string (mkU128 (b + amount)))) as (w' & Hw' & Hupd).
    { unfold wrapper_put, wrapper_depth in *. by destruct (stack (database s6.1)). }
    rewrite Hw in Hw'. simplify_eq. unfold stored. cbn. rewrite (upd_get_eq _ _ _ _ Hupd). cbn. by rewrite json_round_trip.
Qed.

Lemma stx_transfer_user env a f to s :
  not_user (env_sender env) -> make_key_for_account_balance to = Ok key ->
  post (moves no_less) s (fun _ => None) (stx_transfer env a f (VPrincipal to) s).
Proof.
  intros He Hto. assert (forall r, moves no_less s s r) as Hsame by (intros r; apply pres_refl).
  unfold stx_transfer. destruct f as [| | | | |from| | |], a as [|amount| | | | | | |]; try apply Hsame.
  destruct (Z.leb_spec amount 0); [apply Hsame|]. destruct (decide (from = to)); [apply Hsame|].
  destruct (is_sender env (VPrincipal from)) eqn:Hs; cbv beta iota delta [negb]; [|apply Hsame].
  pose proof (sender_other env from He Hs) as Hfrom.
  apply post_step; [moves_step; moves_step|apply pres_refl|]. intros from_bal s1 Hs1.
  unfold mbind at 1, exec_bind at 1, on_database at 1.
  destruct (get_account_stx_balance to (database s1.1)) as [[to_bal w]|e|] eqn:Hget; [| |done].
  2: { apply moves_eq_le. eapply pres_trans; [exact Hs1|apply pres_refl]. }
  apply (get_balance_amount to key) in Hget as [-> Hbal]; [|done].
  replace (set_database s1.1 (database s1.1), s1.2) with s1 by by destruct s1 as [[]].
  assert (open_frame s.1 -> amount_of (stored s.1) = Some to_bal) as Hb.
  { intros Ho. rewrite (proj2 Hs1 not_left_open_None Ho). done. }
  destruct (from_bal <? amount); [by apply moves_eq_le|].
  destruct (checked_add 128 to_bal amount) as [final|] eqn:Hadd; [|by apply moves_eq_le; eapply pres_trans, pres_refl].
  apply checked_u_Some in Hadd as [-> Hu]. unfold mbind at 1, exec_bind at 1. cbn [lift_res ok_or].
  do 5 (apply post_step; [repeat moves_step|done|]; clear s1 Hs1 Hbal; intros _ s1 Hs1; pose proof Hs1 as Hbal).
  apply credit_moves; try done. repeat moves_step.
Qed.

#[export] Instance moves_preserved : Preserved not_user (moves no_less).
Proof.
  constructor; [exact _|exact _| |done| |].
  - intros g x k v w Hk. apply (moves_puts no_less). intros ->. by eapply balance_key_not_contract.
  - intros env a f t s He. destruct t as [| | | | |to| | |];
      try (unfold stx_transfer; destruct f; apply (pres_refl (R := moves no_less))).
    destruct (make_key_for_account_balance to) as [k|[]|] eqn:Hto; [destruct (decide (k = key)) as [->|Hne]|].
    + by apply stx_transfer_user.
    + apply (stx_transfer_other env a f to FUEL); [done|congruence|apply fueled_enough].
    + apply (stx_transfer_other env a f to FUEL); [done|congruence|apply fueled_enough].
  - intros env a f s He. apply (stx_burn_moves env a f FUEL); [done|apply fueled_enough].
Qed.

Lemma execute_contract_moves c name args (ro : bool) env s :
  not_user (env_sender env) -> post (moves no_less) s (fun _ => None) (execute_contract eval c name args ro env s).
Proof. apply (execute_contract_run (moves_depth no_less)). Qed.
End balances.
