(* ===== verification/Launches.v ===== *)
(** Contract launches: what they do to the global context, step by step.

    A relation between the context before and after that is closed under the
    steps of [LaunchSteps] holds of a launch, given that it holds of the
    expressions that the launch evaluates. *)
From stdpp Require Import base strings numbers list gmap relations.
From Stdlib Require Import ZArith Lia.
From S2P Require Import Prelude Names BTree Types Representations Values C32 C32Facts RollbackWrapper BackingStore Costs AssetMap ClarityDatabase Natives TypeParser Contexts ContextFacts Interpreter Runs InterpreterFacts Define.
#[local] Open Scope Z_scope.

Create HintDb confines.

(** The keys that a launch writes outside of the evaluation of expressions. *)
Definition launch_key (k : string) : Prop := contract_key k \/ exists c, k = "clarity-contract::" +:+ c.
Lemma hash_key_launch `{!Sha256} c k : lift_panic (E := VmError) (make_contract_hash_key c) = Ok k -> launch_key k.
Proof. unfold make_contract_hash_key. destruct (contract_string c) as [s| |]; [|done..]. intros [= <-]. right. by exists s. Qed.
Lemma contract_launch_key k : contract_key k -> launch_key k.
Proof. by left. Qed.
#[export] Hint Resolve contract_launch_key : confines.

Section steps.
Context {S : Type} `{!ClarityBackingStore S VmError} (R : relation (GlobalContext S)).

Class LaunchSteps : Prop := {
  launch_preorder :: PreOrder R;
  launch_cost g c : R g (set_cost_track g c);
  launch_put g k v w : launch_key k -> wrapper_put (database g) k v = Ok w -> R g (set_database g w);
  launch_metadata g c k v w : wrapper_insert_metadata (database g) c k v = Ok w -> R g (set_database g w);
  launch_commit g g1 g2 r : R (begin g) g1 -> commit g1 = Ok (g2, r) -> R g g2;
  launch_roll_back g g1 g2 : R (begin g) g1 -> roll_back g1 = Ok g2 -> R g g2;
}.
End steps.

Section launches.
Context {S : Type} `{Hstore : !ClarityBackingStore S VmError}.
Context `{Hsha : !Sha256} `{Hsha512 : !Sha512Trunc256} `{Hhashes : !NativeHashes} `{Hheaders : !HeadersDB}.
Context `{Hu128 : !ClaritySerializable U128} `{Hu64 : !ClaritySerializable U64} `{Hprincipal : !ClaritySerializable PrincipalData}.
Context `{Hft : !ClaritySerializable FungibleTokenMetadata} `{Hnft : !ClaritySerializable NonFungibleTokenMetadata}.
Context `{Hmap : !ClaritySerializable DataMapMetadata} `{Hvar : !ClaritySerializable DataVariableMetadata}.
Context `{Hst : !Storable ContractData} `{Hcontract : !ClaritySerializable ContractData}.
Context (R : relation (GlobalContext S)) `{HR : !LaunchSteps R}.

(** * Methods of the database *)

Definition touching {A} (m : Db S A) : Prop := forall g a w, m (database g) = Ok (a, w) -> R g (set_database g w).

Lemma touching_writes {A} (K : string -> Prop) (m : Db S A) : (forall k, K k -> launch_key k) -> writes K m -> touching m.
Proof.
  intros HK Hm g a w E. apply Hm in E. replace g with (set_database g (database g)) at 1 by by destruct g.
  induction E as [w|w0 w1 w2 (k & v & Hk & Hput) _ IH]; [done|].
  etransitivity; [|exact IH]. exact (launch_put R (set_database g w0) k v w1 (HK k Hk) Hput).
Qed.
Lemma touching_bind {A B} (m : Db S A) (f : A -> Db S B) : touching m -> (forall a, touching (f a)) -> touching (m ≫= f).
Proof.
  intros Hm Hf g b w. unfold mbind, db_bind. destruct (m (database g)) as [[a w1]| |] eqn:E; [|done..]. intros Hb.
  etransitivity; [by eapply Hm|]. exact (Hf a (set_database g w1) b w Hb).
Qed.
Lemma touching_any {A} (m : Db S A) : writes launch_key m -> touching m.
Proof. by apply touching_writes. Qed.
Lemma touching_contract {A} (m : Db S A) : writes contract_key m -> touching m.
Proof. apply touching_writes. intros k. by left. Qed.
Lemma touching_bind_lift {A B} (r : Res VmError A) (f : A -> Db S B) :
  (forall a, r = Ok a -> touching (f a)) -> touching (db_lift r ≫= f).
Proof. intros Hf g b w. unfold mbind at 1, db_bind, db_lift. destruct r as [a| |]; cbn; [|done..]. by apply Hf. Qed.
Lemma touching_metadata c k d : touching (db_insert_metadata c k d).
Proof.
  apply touching_bind; [apply touching_any, writes_read|]. intros [].
  - apply touching_any, writes_lift.
  - intros g a w. unfold db_write. destruct (wrapper_insert_metadata (database g) c k d) as [w1|[]|] eqn:E; [|done].
    intros [= _ <-]. by eapply launch_metadata.
Qed.
#[local] Hint Resolve touching_any touching_metadata : confines.
#[local] Hint Extern 1 (writes _ _) => solve [eauto with writes] : confines.
#[local] Hint Resolve contract_launch_key : writes.
#[local] Hint Unfold create_variable create_map create_non_fungible_token insert_contract : confines.

Ltac touching_steps :=
  repeat lazymatch goal with
    | |- touching (db_lift _ ≫= _) => apply touching_bind_lift; intros ? ?
    | |- touching (_ ≫= _) => apply touching_bind; [|intros ?]
    | |- touching (match ?x with _ => _ end) => destruct x
    | |- _ => solve [eauto with confines]
    end.

Lemma create_fungible_token_touching c n s : touching (create_fungible_token c n s).
Proof. unfold create_fungible_token. touching_steps. Qed.
Lemma set_variable_touching c n v : touching (set_variable c n v).
Proof. apply touching_contract, set_variable_writes. Qed.
Lemma has_contract_touching c : touching (has_contract c).
Proof. apply touching_any, writes_read. Qed.
Lemma insert_contract_hash_touching c s : touching (insert_contract_hash c s).
Proof.
  unfold insert_contract_hash, prepare_for_contract_metadata. touching_steps.
  intros g b w. unfold db_write. destruct (bs_make_contract_commitment _ _) as [v|[]|]; cbn; [|done].
  destruct (wrapper_put (database g) _ v) as [w1|[]|] eqn:E; [|done]. intros [= _ <-]. 
  refine (launch_put R g _ v w1 _ E). by eapply hash_key_launch.
Qed.

#[local] Hint Resolve create_fungible_token_touching set_variable_touching has_contract_touching : confines.
#[local] Hint Resolve insert_contract_hash_touching : confines.

(** * Confined code, outside the interpreter *)

Section confines.
Context {X : Type}.
#[local] Notation Code := (Exec S X).

(** The context changes as [R] allows, but for the errors in [P]. *)
Definition leaves (P : VmError -> Prop) {A} (g : GlobalContext S) (fail : A -> option VmError)
    (o : Res OutOfFuel ((GlobalContext S * X) * (VmError + A))) : Prop :=
  match o with
  | Ok ((g', _), inr a) => match fail a with Some e => P e | None => False end \/ R g g'
  | Ok ((g', _), inl e) => P e \/ R g g'
  | Err _ => False
  | Panic => True
  end.
Definition confines (P : VmError -> Prop) {A} (m : Code A) : Prop := forall g x, leaves P g (fun _ => None) (m (g, x)).

Context (P : VmError -> Prop).

Lemma leaves_trans {A} g g' (fail : A -> option VmError) o : R g g' -> leaves P g' fail o -> leaves P g fail o.
Proof.
  intros Ht. destruct o as [[[g1 x1] [e|a]]| |]; cbn; try done; intros [Hp|Ht']; [by left| |by left|];
    right; by etransitivity.
Qed.
Lemma confines_ret {A} (a : A) : confines P (mret a).
Proof. intros g x. right. reflexivity. Qed.
Lemma confines_throw {A} e : confines P (throw (A := A) e).
Proof. intros g x. right. reflexivity. Qed.
Lemma confines_lift {A} (r : Res VmError A) : confines P (lift_res r).
Proof. intros g x. destruct r; [right; reflexivity..|done]. Qed.
Lemma confines_bind {A B} (m : Code A) (k : A -> Code B) :
  confines P m -> (forall a, confines P (k a)) -> confines P (m ≫= k).
Proof.
  intros Hm Hk g x. specialize (Hm g x). unfold mbind, exec_bind. destruct (m (g, x)) as [[[g1 x1] [e|a]]| |]; cbn in Hm; try done.
  destruct Hm as [[]|Ht]. eapply leaves_trans; [done|]. apply Hk.
Qed.
Lemma confines_charge f : confines P (charge f).
Proof.
  intros g x. unfold charge. cbn. destruct (f (cost_track g)) as [c [[]|e|]]; cbn; [right; by apply launch_cost..|done].
Qed.
Lemma confines_drop m : confines P (context_drop_memory m).
Proof.
  intros g x. unfold context_drop_memory, modifyP. cbn [fst snd].
  destruct (drop_memory (cost_track g) m) as [c|[]|]; cbn; [right; by apply launch_cost|done].
Qed.
Lemma confines_database {A} (m : Db S A) : touching m -> confines P (on_database m).
Proof.
  intros Hm g x. unfold on_database. cbn. destruct (m (database g)) as [[a w]|e|] eqn:E; cbn; [|right; reflexivity|done].
  right. by eapply Hm.
Qed.

(** After an error in [P] nothing is claimed. *)
Lemma leaves_roll_back {A} (e : VmError) g g1 x1 : P e \/ R (begin g) g1 ->
  leaves (A := A) P g (fun _ => None) ((_ ← roll_back_; throw e) (g1, x1)).
Proof.
  intros H. unfold mbind, exec_bind, roll_back_, modifyP. cbn [fst snd]. destruct (roll_back g1) as [g2|[]|] eqn:E; cbn; [|done].
  destruct H as [Hp|Ht]; [by left|right]. by eapply launch_roll_back.
Qed.
Lemma leaves_commit {A} (a : A) g g1 x1 : R (begin g) g1 ->
  leaves P g (fun _ => None) ((_ ← commit_; mret a) (g1, x1)).
Proof.
  intros Ht. unfold mbind, exec_bind, commit_. cbn [fst snd]. destruct (commit g1) as [[g2 r]|[]|] eqn:E; cbn; [|done].
  pose proof (launch_commit R _ g1 g2 r Ht E). destruct r; by right.
Qed.
Lemma confines_execute {A} (f : Code A) : confines P f -> confines P (Contexts.execute f).
Proof.
  intros Hf g x. specialize (Hf (begin g) x). unfold Contexts.execute. unfold modify at 1, mbind at 1, exec_bind at 1. cbn [fst snd].
  unfold mbind at 1, exec_bind at 1, attempt. destruct (f (begin g, x)) as [[[g1 x1] [e|a]]| |]; cbn in Hf; try done.
  - by apply leaves_roll_back.
  - apply leaves_commit. by destruct Hf as [[]|].
Qed.
End confines.

#[local] Hint Resolve confines_ret confines_throw confines_lift confines_charge confines_drop confines_database : confines.
#[local] Hint Resolve confines_execute : confines.
#[local] Hint Unfold env_cost context_add_memory check_err some_or contract_to_string : confines.

Ltac confines_steps :=
  repeat lazymatch goal with
    | |- confines _ (_ ≫= _) => apply confines_bind; [|intros ?]
    | |- confines _ (match ?x with _ => _ end) => destruct x
    | |- _ => solve [eauto with confines]
    end.

(** * Definitions *)

Context (P : VmError -> Prop).
Hypothesis Heval : forall e c context, confines (X := CallStack) P (eval e (mkEnvironment c None None) context).
#[local] Hint Resolve Heval : confines.

Lemma charged_confines {X A} (m : Charged LimitedCostTracker A) : confines (X := X) P (charged m).
Proof.
  intros g x. unfold charged. cbn. destruct (m (cost_track g)) as [c [a|e|]]; cbn; [right; by apply launch_cost..|done].
Qed.
#[local] Hint Resolve charged_confines : confines.

Lemma evaluate_define_confines e c : confines P (evaluate_define e (mkEnvironment c None None)).
Proof.
  unfold evaluate_define, handle_define_variable, handle_define_function, handle_define_persisted_variable,
    handle_define_nonfungible_asset, handle_define_fungible_token, handle_define_map, handle_define_trait.
  confines_steps.
Qed.

Lemma new_environment_confines {A} (m : Environment -> Exec S CallStack A) :
  (forall c, confines P (m (mkEnvironment c None None))) -> confines P (in_new_environment m).
Proof.
  intros Hm g c. specialize (Hm c g CallStack_new). unfold in_new_environment. cbn [fst snd].
  by destruct (m _ (g, CallStack_new)) as [[[g1 x1] [e|a]]| |].
Qed.
#[local] Hint Resolve evaluate_define_confines new_environment_confines : confines.

Lemma modify_context_confines f : confines P (modify_context f).
Proof. intros g c. right. reflexivity. Qed.
Lemma add_signature_memory_confines t : confines P (add_signature_memory t).
Proof. unfold add_signature_memory. confines_steps. Qed.
#[local] Hint Resolve modify_context_confines add_signature_memory_confines : confines.

Lemma apply_define_confines e d : confines P (apply_define e d).
Proof.
  unfold apply_define. apply confines_bind; [intros g c; right; reflexivity|]. intros c. confines_steps.
Qed.

Lemma eval_all_loop_confines es total last g c :
  leaves P g (fun p => failure p.2) (eval_all_loop es total last (g, c)).
Proof.
  revert total last g c. induction es as [|e es IH]; intros total last g c; cbn [eval_all_loop]; [right; reflexivity|].
  assert (confines P (try_define ← Contexts.execute (in_new_environment (evaluate_define e)); apply_define e try_define)) as Hstep.
  { apply confines_bind; [eauto with confines|apply apply_define_confines]. }
  revert Hstep. generalize (try_define ← Contexts.execute (in_new_environment (evaluate_define e)); apply_define e try_define).
  intros step Hstep. specialize (Hstep g c). unfold mbind at 1, exec_bind at 1, attempt. destruct (step (g, c)) as [[[g1 c1] [err|[used v]]]| |];
    cbn in Hstep; [exact Hstep| |done..].
  destruct Hstep as [[]|Ht]. eapply leaves_trans; [done|]. apply IH.
Qed.

Lemma eval_all_confines es : confines P (eval_all es).
Proof.
  intros g c. pose proof (eval_all_loop_confines es 0 None g c) as Hloop. unfold eval_all.
  unfold mbind at 1, exec_bind at 1. destruct (eval_all_loop es 0 None (g, c)) as [[[g1 c1] [e|[total r]]]| |]; cbn in Hloop; try done.
  assert (forall c2 : ContractContext, leaves P g (fun _ => None) ((_ ← context_drop_memory total; of_result r) (g1, c2))) as Hend.
  { intros c2. unfold mbind, exec_bind, context_drop_memory, modifyP. cbn [fst snd].
    destruct (drop_memory (cost_track g1) total) as [t|[]|]; cbn; [|done].
    destruct r as [e|v]; cbn in *; destruct Hloop as [Hp|Ht]; try done; [by left|right|right];
      (etransitivity; [done|by apply launch_cost]). }
  destruct r; apply Hend.
Qed.
#[local] Hint Resolve eval_all_confines : confines.

(** * Launches *)

Lemma initialize_from_ast_confines c es : confines P (initialize_from_ast c es).
Proof.
  intros g x. pose proof (eval_all_confines es g (ContractContext_new c)) as Hrun. unfold initialize_from_ast. cbn [fst snd].
  by destruct (eval_all es (g, ContractContext_new c)) as [[[g1 c1] [e|v]]| |].
Qed.

Lemma finally_drop_confines {A} used (m : Exec S CallStack A) : confines P m -> confines P (finally_drop used m).
Proof.
  intros Hm g x. specialize (Hm g x). unfold finally_drop, mbind, exec_bind, attempt. destruct (m (g, x)) as [[[g1 x1] r]| |]; [|done..].
  unfold context_drop_memory, modifyP. cbn [fst snd]. destruct (drop_memory (cost_track g1) used) as [t|[]|]; cbn; [|done].
  destruct r as [e|v]; cbn in *; destruct Hm as [Hp|Ht]; try done; [by left|right|right]; (etransitivity; [done|by apply launch_cost]).
Qed.
#[local] Hint Resolve initialize_from_ast_confines finally_drop_confines : confines.

Lemma initialize_closure_confines c es s : confines P (initialize_closure c es s).
Proof. unfold initialize_closure. confines_steps. Qed.

Lemma insert_metadata_no_error c k d (w : RollbackWrapper S) e : db_insert_metadata c k d w <> Err e.
Proof.
  unfold db_insert_metadata, mbind, db_bind, db_read, wrapper_has_metadata_entry. cbn.
  destruct (wrapper_get_metadata w c _) as [[]| |]; cbn; try done; unfold db_write; by destruct (wrapper_insert_metadata _ _ _ _) as [|[]|].
Qed.

Lemma set_data_size_touching c d : touching (set_contract_data_size c d).
Proof.
  unfold set_contract_data_size. apply touching_bind; [apply touching_contract, fetch_expected_writes|]. intros u.
  apply touching_bind; [apply touching_any, writes_lift|]. intros z. apply touching_metadata.
Qed.

Lemma on_database_step {A B} (m : Db S A) (k : A -> Exec S CallStack B) g x :
  (on_database m ≫= k) (g, x) =
    match m (database g) with
    | Ok (a, w) => k a (set_database g w, x)
    | Err e => Ok ((g, x), inl e)
    | Panic => Panic
    end.
Proof. unfold mbind, exec_bind, on_database. cbn. by destruct (m (database g)) as [[]| |]. Qed.

(** An error in recording the size of the data leaves the context of the launch
    open. *)
Definition size_error (c : QualifiedContractIdentifier) (e : VmError) : Prop :=
  exists d (w : RollbackWrapper S), set_contract_data_size c d w = Err e.

Context (Q : VmError -> Prop) (c : QualifiedContractIdentifier).
Hypothesis HP : forall e, P e -> Q e.
Hypothesis Hopen : forall g g1 e, R (begin g) g1 -> size_error c e -> Q e \/ R g g1.

Lemma leaves_publish contract g g1 (x1 : CallStack) : R (begin g) g1 ->
  leaves Q g (fun _ => None)
    ((_ ← on_database (insert_contract c contract);
      _ ← on_database (set_contract_data_size c (cx_data_size (contract_context contract)));
      _ ← commit_; mret tt) (g1, x1)).
Proof.
  intros Ht. pose proof (touching_metadata c (make_metadata_key ContractMeta "contract") (json_to_string contract) g1) as Hins.
  rewrite on_database_step. destruct (insert_contract c contract (database g1)) as [[[] w1]|e|] eqn:E; [|by destruct (insert_metadata_no_error _ _ _ _ _ E)|exact I].
  specialize (Hins _ _ E). assert (R (begin g) (set_database g1 w1)) as Hg1 by by transitivity g1. clear E Ht Hins.
  rewrite on_database_step. cbn [database set_database]. destruct (set_contract_data_size c _ w1) as [[[] w2]|e|] eqn:E; [| |exact I].
  - apply leaves_commit. etransitivity; [exact Hg1|]. exact (set_data_size_touching _ _ (set_database g1 w1) _ _ E).
  - apply Hopen; [exact Hg1|]. red. eauto.
Qed.

Lemma initialize_confines es s : confines Q (initialize_contract_from_ast c es s).
Proof.
  intros g x. pose proof (initialize_closure_confines c es s (begin g) x) as Hrun. unfold initialize_contract_from_ast.
  unfold modify at 1, mbind at 1, exec_bind at 1. cbn [fst snd]. unfold mbind at 1, exec_bind at 1, attempt.
  destruct (initialize_closure c es s (begin g, x)) as [[[g1 x1] [e|contract]]| |]; cbn in Hrun; try done.
  - apply leaves_roll_back. destruct Hrun; [left; auto|by right].
  - apply leaves_publish. by destruct Hrun as [[]|].
Qed.

End launches.

Lemma confines_weaken {S X} `{!ClarityBackingStore S VmError} (R R' : relation (GlobalContext S)) P {A} (m : Exec S X A) :
  (forall g g', R g g' -> R' g g') -> confines R P m -> confines R' P m.
Proof.
  intros HR Hm g x. specialize (Hm g x). destruct (m (g, x)) as [[[g1 x1] [e|a]]| |]; cbn in *; try done;
    destruct Hm as [|]; auto.
Qed.
