(* ===== verification/TransactionFacts.v ===== *)
(** Transactions: what a contract call or a contract launch leaves behind. *)
From stdpp Require Import base strings numbers list gmap relations.
From Stdlib Require Import ZArith Lia.
From S2P Require Import Prelude Names BTree Types Representations Values C32 C32Facts RollbackWrapper BackingStore Costs AssetMap ClarityDatabase Natives TypeParser Contexts ContextFacts Interpreter Runs InterpreterFacts StxFacts Define Launches.
#[local] Open Scope Z_scope.

Section transactions.
Context {S : Type} `{Hstore : !ClarityBackingStore S VmError} `{Hlaws : !BackingStoreLaws S VmError}.
Context `{Hsha : !Sha256} `{Hsha512 : !Sha512Trunc256} `{Hhashes : !NativeHashes} `{Hheaders : !HeadersDB}.
Context `{Hu128 : !ClaritySerializable U128} `{Hu64 : !ClaritySerializable U64} `{Hprincipal : !ClaritySerializable PrincipalData}.
Context `{Hft : !ClaritySerializable FungibleTokenMetadata} `{Hnft : !ClaritySerializable NonFungibleTokenMetadata}.
Context `{Hmap : !ClaritySerializable DataMapMetadata} `{Hvar : !ClaritySerializable DataVariableMetadata}.
Context `{Hst : !Storable ContractData} `{Hcontract : !ClaritySerializable ContractData}.

(** * Confinement of launches *)

#[export] Instance touches_launch : LaunchSteps (S := S) touches.
Proof.
  split; [split; [exact touch_refl|exact touch_trans]| | | | |].
  - apply touch_cost.
  - intros g k v w _. apply touch_put.
  - apply touch_metadata.
  - intros g g1 g2 r. apply (touch_commit g g1 g2 r false).
  - intros g g1 g2. apply (touch_roll_back g g1 g2 false).
Qed.

Definition opens (e : VmError) : Prop := left_open (Some e).

Lemma confines_confined {A} (m : Exec S CallStack A) :
  (forall s, post confined s (fun _ => None) (m s)) -> confines touches opens m.
Proof.
  intros Hm g x. specialize (Hm (g, x)). destruct (m (g, x)) as [[[g1 x1] [e|a]]| |]; cbn in *; try done.
  - destruct (decide (left_open (Some e))); [by left|right]. by apply Hm.
  - right. apply Hm, not_left_open_None.
Qed.
(** The errors of a launch that leave its context open. *)
Definition launch_opens (c : QualifiedContractIdentifier) (e : VmError) : Prop := opens e \/ size_error c e.
Lemma initialize_confined c es s : confines touches (launch_opens c) (initialize_contract_from_ast c es s).
Proof.
  apply (initialize_confines touches opens); [|by left|by left; right].
  intros e cx context. apply confines_confined. intros s'. apply eval_confined.
Qed.

(** * Transactions *)

(** What a transaction that ran [f] leaves behind: nothing but the costs, or
    everything that [f] did, with its assets and events, for the next transaction
    to read: the writes and the metadata of its log are in the enclosing log, or in
    the store where there is none; and all keys, and over an enclosing log all
    metadata, read as they did at the end of [f]. *)
Definition transaction_outcome {A} (P : VmError -> Prop) (f : Exec S CallStack A) (g : GlobalContext S) (x : CallStack)
    (o : Res OutOfFuel (VmState S * (VmError + A * AssetMap * EventBatch))) : Prop :=
  match o with
  | Ok ((g', _), inl e) => P e \/ g' = restored g g'
  | Ok ((g', _), inr (a, assets, events)) =>
    context_wf g' /\ is_top_level g' = true /\
    (forall st log logs, wrapper_refines (database g) (mkLogs st (log :: logs)) ->
       exists log', wrapper_refines (database g') (mkLogs st (log' :: logs))) /\
    exists g1 x1, f (begin g, x) = Ok ((g1, x1), inr a) /\ asset_maps g1 = [assets] /\ event_batches g1 = [events] /\
      cost_track g' = cost_track g1 /\ (forall k, wrapper_get (database (begin g')) k = wrapper_get (database g1) k) /\
      committed (database g1) (database g') /\
      (wrapper_depth (database g) <> 0%nat ->
       forall c k, wrapper_get_metadata (database (begin g')) c k = wrapper_get_metadata (database g1) c k)
  | Err _ => False
  | Panic => True
  end.

Lemma top_represents (g : GlobalContext S) st logs : context_wf g -> is_top_level g = true ->
  wrapper_refines (database g) (mkLogs st logs) -> represents_context g (mkLogs st logs).
Proof.
  intros [s (_ & _ & Hb & Hro)] Htop%bool_decide_eq_true Hr. split; [done|]. cbn. rewrite Hb, Hro, Htop. split_and!; [lia|done..].
Qed.

Lemma execute_in_env_outcome {A} P (f : Exec S CallStack A) g x :
  context_wf g -> is_top_level g = true -> confines touches P f -> transaction_outcome P f g x (execute_in_env f (g, x)).
Proof.
  intros Hwf Htop Hf. specialize (Hf (begin g) x). destruct (f (begin g, x)) as [[[g1 x1] r]| |] eqn:E; [|done|].
  2: { unfold execute_in_env. cbn [fst snd]. rewrite Htop. unfold mbind, exec_bind, modify, attempt. cbn [fst snd]. by rewrite E. }
  assert ((exists e, r = inl e /\ P e) \/ touches (begin g) g1) as [(e & -> & He)|Ht].
  { destruct r; cbn in Hf; destruct Hf as [|]; eauto. done. }
  - unfold execute_in_env. cbn [fst snd]. rewrite Htop. unfold mbind, exec_bind, modify, attempt. cbn [fst snd]. rewrite E.
    unfold roll_back_, modifyP. cbn [fst]. destruct (roll_back g1) as [g2|[]|]; cbn; [by left|done].
  - pose proof Hwf as [s Hrep]. pose proof (transaction_run_atomic f g s x g1 x1 r Hrep Htop E Ht) as Hout. destruct r as [e|a].
    + rewrite Hout. by right.
    + destruct Hout as (m & b & log & mlog & Hm & Hb & Hr & ->). pose proof (commit_reads _ _ _ _ _ Hr) as Hw.
      destruct (wrapper_commit (database g1)) as [w|[]|] eqn:Ec; cbn; [|done]. destruct Hw as [(s' & Hs & Hl) Hget]. split_and!; [|done| |].
      * exists s'. split; [done|]. cbn. split_and!; [lia|done..].
      * intros st l ls Hl0. apply (top_represents g) in Hl0; [|done..].
        destruct (transaction_run_atomic f g _ x g1 x1 (inr a) Hl0 Htop E Ht) as (_ & _ & log1 & mlog1 & _ & _ & Hr1 & _).
        destruct l as [log0 mlog0]. destruct (refines_commit_inner _ _ _ _ _ _ _ Hr1) as (w' & Hw' & Hr').
        rewrite Ec in Hw'. simplify_eq. by eexists.
      * exists g1, x1. split_and!; [done..|by eapply commit_committed|].
        intros Hd c k. pose proof (refines_depth _ _ (proj1 Hrep)) as Hds. destruct s as [st [|l ls]]; [by rewrite Hds in Hd|].
        by eapply (commit_metadata (database g1)).
Qed.

(** C2. Atomicity of contract-call transactions: on a context at the top level, a
    call transaction ends; with an error it leaves the database, the assets and
    the events as they were; with a value it leaves the context at the top level,
    and the next transaction reads exactly what this one wrote.  The exception is
    the error after which contexts stay open. *)
Theorem call_transaction_atomic sender c name args g x :
  context_wf g -> is_top_level g = true ->
  transaction_outcome opens (execute_contract eval c name args false (get_exec_environment (Some (VPrincipal sender)))) g x
    (execute_transaction sender c name args (g, x)).
Proof.
  intros Hwf Htop. apply execute_in_env_outcome; [done..|]. apply confines_confined. intros s. apply execute_contract_confined.
Qed.

(** ** What a launch stores *)

Lemma insert_metadata_inserts c k d (w w1 : RollbackWrapper S) :
  db_insert_metadata c k d w = Ok (tt, w1) -> wrapper_insert_metadata w c k d = Ok w1.
Proof.
  unfold db_insert_metadata, mbind, db_bind, db_read. destruct (wrapper_has_metadata_entry w c k) as [[]| |]; cbn; [done| |done..].
  unfold db_write. destruct (wrapper_insert_metadata w c k d) as [w2|[]|]; cbn; [|done]. by intros [= ->].
Qed.
Lemma set_data_size_inserts c d (w w1 : RollbackWrapper S) : set_contract_data_size c d w = Ok (tt, w1) ->
  exists v, wrapper_insert_metadata w c (make_metadata_key ContractMeta "contract-data-size") v = Ok w1.
Proof.
  unfold set_contract_data_size, fetch_expected, fetch_metadata, mbind, db_bind, db_read.
  destruct (wrapper_get_metadata w c _) as [[u|]| |]; cbn; [|done..]. destruct (lift_panic (json_from_str u)) as [u'| |]; cbn; [|done..].
  unfold db_lift. cbn. destruct (map_err _ _) as [n|e|]; cbn; [|done..]. intros H%insert_metadata_inserts. eauto.
Qed.
Lemma commit_commits (g g' : GlobalContext S) r : commit g = Ok (g', inr r) -> wrapper_commit (database g) = Ok (database g').
Proof.
  unfold commit. destruct (asset_maps g) as [|m maps]; [done|]. destruct (event_batches g) as [|b batches]; [done|].
  destruct (match maps with [] => _ | _ => _ end) as [[maps' out]|e|]; [| |done].
  - destruct (match batches with [] => _ | _ => _ end) as [batches' outb]. destruct (wrapper_commit (database g)) as [w| |]; cbn; [|done..].
    by intros [= <- <-].
  - by destruct (wrapper_rollback (database g)).
Qed.
(** The contract is stored, and the size of its data after it. *)
Lemma publish_metadata c contract g1 (x1 : CallStack) g2 x2 st log mlog log0 mlog0 ls :
  wrapper_refines (database g1) (mkLogs st ((log, mlog) :: (log0, mlog0) :: ls)) ->
  (_ ← on_database (insert_contract c contract);
   _ ← on_database (set_contract_data_size c (cx_data_size (contract_context contract)));
   _ ← commit_; mret tt) (g1, x1) = Ok ((g2, x2), inr tt) ->
  exists size, wrapper_refines (database g2) (mkLogs st ((log0 ++ log, mlog0 ++ mlog ++
    [((c, make_metadata_key ContractMeta "contract"), json_to_string contract);
     ((c, make_metadata_key ContractMeta "contract-data-size"), size)]) :: ls)).
Proof.
  intros Hr. rewrite on_database_step. destruct (insert_contract c contract (database g1)) as [[[] w1]|e|] eqn:E1; [|done..].
  apply insert_metadata_inserts in E1. destruct (refines_insert_metadata _ _ _ _ _ c (make_metadata_key ContractMeta "contract") (json_to_string contract) Hr)
    as (w1' & E1' & Hr1).
  rewrite E1 in E1'. injection E1' as <-. rewrite on_database_step. cbn [database set_database].
  destruct (set_contract_data_size c _ w1) as [[[] w2]|e|] eqn:E2; [|done..].
  apply set_data_size_inserts in E2 as [size E2]. destruct (refines_insert_metadata _ _ _ _ _ c (make_metadata_key ContractMeta "contract-data-size") size Hr1) as (w2' & E2' & Hr2).
  rewrite E2 in E2'. injection E2' as <-. unfold commit_, mbind at 1, exec_bind. cbn [fst snd].
  destruct (commit _) as [[g3 [e|r]]|[]|] eqn:E3; cbn; [done| |done]. intros [= <- <-]. apply commit_commits in E3. cbn in E3.
  destruct (refines_commit_inner _ _ _ _ _ _ _ Hr2) as (w3 & E3' & Hr3). rewrite E3 in E3'. injection E3' as <-.
  exists size. by rewrite <- app_assoc in Hr3.
Qed.

(** A launch that succeeds stores the contract that its definitions made. *)
Definition contract_stored (c : QualifiedContractIdentifier) (expressions : list SymbolicExpression) (source : string)
    (s : VmState S) (w : RollbackWrapper S) : Prop :=
  exists s1 contract, initialize_closure c expressions source s = Ok (s1, inr contract) /\
    wrapper_get_metadata w c (make_metadata_key ContractMeta "contract") = Ok (Some (json_to_string contract)).
Lemma launch_stores c expressions source (g : GlobalContext S) (x : CallStack) g1 x1 : context_wf g ->
  initialize_contract_from_ast c expressions source (begin g, x) = Ok ((g1, x1), inr tt) ->
  contract_stored c expressions source (begin (begin g), x) (database g1).
Proof.
  intros [s Hs]. pose proof (begin_frame g s false Hs) as Hf. apply (frame_begin _ _ _ _ _ _ false) in Hf as (m & b & log0 & mlog0 & r & Hf & _).
  assert (confines touches opens (initialize_closure c expressions source)) as Hc.
  { apply initialize_closure_confines; [apply _|]. intros e cx context. apply confines_confined. intros s'. apply eval_confined. }
  specialize (Hc (begin (begin g)) x). unfold initialize_contract_from_ast.
  unfold modify at 1, mbind at 1, exec_bind at 1. cbn [fst snd]. unfold mbind at 1, exec_bind at 1, attempt.
  destruct (initialize_closure c expressions source (begin (begin g), x)) as [[[g2 x2] [e|contract]]| |] eqn:E; cbn in Hc; [| |done..].
  { unfold roll_back_, modifyP, mbind, exec_bind. cbn. by destruct (roll_back g2) as [|[]|]. }
  destruct Hc as [[]|Ht]. apply (touches_frame _ _ Ht) in Hf. destruct Hf as (m1 & b1 & log & mlog & _ & _ & _ & Hr & _).
  intros (size & Hr1)%(publish_metadata _ _ _ _ _ _ _ _ _ _ _ _ Hr). exists (g2, x2), contract. split; [done|].
  rewrite (refines_get_metadata _ _ _ _ Hr1) by done. rewrite pending_metadata_cons, !values_of_app.
  replace (values_of _ [_; _]) with [json_to_string contract]; [by rewrite !app_assoc, last_snoc|].
  unfold values_of. cbn. rewrite decide_True, decide_False by done. done.
Qed.


(** C28. Atomicity of contract launches: whatever the contract, its launch ends,
    and either its definitions, its data and its effects are all published, or
    nothing is; the exceptions are the error after which contexts stay open, and
    an error in recording the size of the data.  What is published is all that the
    launch wrote and all its metadata, and the metadata hold the contract that
    its definitions made. *)
Theorem contract_launch_atomic c expressions source g x :
  context_wf g -> is_top_level g = true ->
  transaction_outcome (launch_opens c) (initialize_contract_from_ast c expressions source) g x
    (owned_initialize_contract_from_ast c expressions source (g, x)) /\
  (forall g1 x1, initialize_contract_from_ast c expressions source (begin g, x) = Ok ((g1, x1), inr tt) ->
   contract_stored c expressions source (begin (begin g), x) (database g1)).
Proof.
  intros Hwf Htop. split; [apply execute_in_env_outcome; [done..|]; apply initialize_confined|].
  intros g1 x1. by apply launch_stores.
Qed.

(** ** The STX of others *)

Lemma balance_amount (user : PrincipalData) key (w : RollbackWrapper S) b :
  make_key_for_account_balance user = Ok key -> amount_of (wrapper_get w key) = Some b ->
  get_account_stx_balance user w = Ok (b, w).
Proof.
  intros Hk. unfold get_account_stx_balance, mbind, db_bind, db_lift. rewrite Hk. cbn. unfold get_json, db_read, mbind, res_bind.
  destruct (wrapper_get w key) as [[t|]|[]|]; cbn; [|by intros [= <-]|done].
  destruct (json_from_str t) as [u|[]|]; cbn; [|done]. by intros [= <-].
Qed.
Lemma balance_key (user : PrincipalData) (w w' : RollbackWrapper S) b :
  get_account_stx_balance user w = Ok (b, w') -> exists key, make_key_for_account_balance user = Ok key.
Proof.
  unfold get_account_stx_balance, mbind, db_bind, db_lift. destruct (make_key_for_account_balance user) as [key|[]|]; [|done].
  by exists key.
Qed.

(** Nobody spends the STX of somebody else: whatever contracts a transaction
    calls, the balance of a user that did not send it is not lower afterwards. *)
Theorem others_keep_stx (user : StandardPrincipalData) sender c name args g x g' x' r b :
  valid_principal user -> not_user user (Some (VPrincipal sender)) -> context_wf g -> is_top_level g = true ->
  execute_transaction sender c name args (g, x) = Ok ((g', x'), r) -> ~ left_open (failure r) ->
  get_account_stx_balance (Standard user) (database (begin g)) = Ok (b, database (begin g)) ->
  exists b', get_account_stx_balance (Standard user) (database (begin g')) = Ok (b', database (begin g')) /\ b <= b'.
Proof.
  intros Hv Hs Hwf Htop Hrun Hn Hb. destruct (balance_key _ _ _ _ Hb) as [key Hkey].
  destruct (get_balance_amount _ _ _ _ _ Hkey Hb) as [_ Hamount].
  set (f := execute_contract eval c name args false (get_exec_environment (Some (VPrincipal sender)))).
  assert (transaction_outcome opens f g x (execute_transaction sender c name args (g, x))) as Hout.
  { apply execute_in_env_outcome; [done..|]. apply confines_confined. intros s. apply execute_contract_confined. }
  rewrite Hrun in Hout. destruct r as [e|[[v assets] events]].
  - destruct Hout as [Ho|Heq]; [done|]. rewrite Heq. exists b. split; [exact Hb|lia].
  - destruct Hout as (_ & _ & _ & g1 & x1 & Hf & _ & _ & _ & Hget & _).
    pose proof (execute_contract_moves user key Hv Hkey c name args false
      (get_exec_environment (Some (VPrincipal sender))) (begin g, x) Hs) as Hpost.
    fold f in Hpost. rewrite Hf in Hpost. destruct Hpost as [_ Hle].
    destruct (Hle not_left_open_None (begin_open false g Hwf) b Hamount) as (b' & Hb' & Hbb). exists b'. split; [|done].
    apply (balance_amount _ key); [done|]. by rewrite Hget.
Qed.
End transactions.
