(* ===== verification/Ledger.v ===== *)
(** What runs of contracts do to the keys of accounts and to the store: the
    nonces stay as they are, the STX of others is not lowered, and nothing reaches
    the store before the outermost context is committed.  This holds of the
    launches of contracts as of the calls. *)
From stdpp Require Import base strings numbers list gmap relations.
From Stdlib Require Import Ascii ZArith Lia.
From S2P Require Import Prelude Names Types Representations Values C32 C32Facts RollbackWrapper BackingStore Costs AssetMap ClarityDatabase Keys DatabaseFacts Natives Contexts ContextFacts Interpreter Runs InterpreterFacts StxFacts Define Launches TransactionFacts.
#[local] Open Scope Z_scope.

(** * Keys *)

Section keys.
Context `{Hsha : !Sha256}.

Lemma nonce_key_text q key :
  make_key_for_account_nonce q = Ok key -> exists s, PrincipalData_display q = Ok s /\
    key = "vm-account::" +:+ bytes_string s +:+ "::" +:+ fmt_dec (store_type_u8 Nonce).
Proof.
  unfold make_key_for_account_nonce, make_key_for_account. destruct (PrincipalData_display q) as [s| |]; [|done..].
  intros [= <-]. by exists s.
Qed.

Lemma last_suffix s x d : last (string_bytes x) = Some d -> last (string_bytes (s +:+ x)) = Some d.
Proof. intros Hx. by rewrite string_bytes_app, last_app, Hx. Qed.

(** The texts of the two types of account data differ in their last character. *)
Lemma balance_not_nonce p q key : make_key_for_account_nonce p = Ok key -> make_key_for_account_balance q <> Ok key.
Proof.
  intros (s & _ & ->)%nonce_key_text (s' & _ & H)%balance_key_text.
  assert (forall a b t d, last (string_bytes (fmt_dec t)) = Some d ->
    last (string_bytes (a +:+ b +:+ "::" +:+ fmt_dec t)) = Some d) as Hlast by (intros; by repeat apply last_suffix).
  apply (f_equal (fun x => last (string_bytes x))) in H.
  rewrite (Hlast _ _ (store_type_u8 Nonce) 56 eq_refl), (Hlast _ _ (store_type_u8 STXBalance) 57 eq_refl) in H. discriminate.
Qed.

Lemma account_not_launch key rest : key = "vm-account::" +:+ rest -> ~ launch_key key.
Proof. intros -> [(r & H)|(r & H)]; discriminate. Qed.
Lemma nonce_not_launch q key : make_key_for_account_nonce q = Ok key -> ~ launch_key key.
Proof. intros (s & _ & H)%nonce_key_text. by eapply account_not_launch. Qed.
Lemma balance_not_launch q key : make_key_for_account_balance q = Ok key -> ~ launch_key key.
Proof. intros (s & _ & H)%balance_key_text. by eapply account_not_launch. Qed.
End keys.

Section ledger.
Context {S : Type} `{Hstore : !ClarityBackingStore S VmError} `{Hlaws : !BackingStoreLaws S VmError}.
Context `{Hsha : !Sha256} `{Hsha512 : !Sha512Trunc256} `{Hhashes : !NativeHashes} `{Hheaders : !HeadersDB}.
Context `{Hu128 : !ClaritySerializable U128} `{Hu64 : !ClaritySerializable U64} `{Hprincipal : !ClaritySerializable PrincipalData}.
Context `{Hft : !ClaritySerializable FungibleTokenMetadata} `{Hnft : !ClaritySerializable NonFungibleTokenMetadata}.
Context `{Hmap : !ClaritySerializable DataMapMetadata} `{Hvar : !ClaritySerializable DataVariableMetadata}.
Context `{Hst : !Storable ContractData} `{Hcontract : !ClaritySerializable ContractData}.
Implicit Types (g : GlobalContext S) (rho : relation (Res Empty_set (option string))).

(** * What is stored at a key *)

Section key.
Context (key : string) (rho : relation (Res Empty_set (option string))) `{Hpre : !PreOrder rho}.

Definition moved_at : relation (GlobalContext S) := fun g g' =>
  touches g g' /\ (open_frame g -> rho (stored key g) (stored key g')).

Lemma insert_metadata_stored g c k v w :
  wrapper_insert_metadata (database g) c k v = Ok w -> stored key (set_database g w) = stored key g.
Proof.
  unfold stored, wrapper_insert_metadata, wrapper_get. cbn. destruct (stack (database g)) as [|current rest]; [done|].
  destruct (inner_put _ _ _ _). by intros [= <-].
Qed.

#[export] Instance moved_launch : ~ launch_key key -> LaunchSteps moved_at.
Proof.
  intros Hkey. split; [split| | | | |].
  - intros g. split; [apply touch_refl|done].
  - intros g1 g2 g3 [Ht12 H12] [Ht23 H23]. split; [by eapply touch_trans|]. intros Ho.
    transitivity (stored key g2); [auto|]. by apply H23, (touches_open g1).
  - intros g c. split; [apply touch_cost|done].
  - intros g k v w Hk Hw. split; [by eapply touch_put|]. intros _. unfold stored. cbn.
    rewrite (put_other key (database g) w k v); [done| |done]. by intros ->.
  - intros g c k v w Hw. split; [by eapply touch_metadata|]. intros _. by rewrite (insert_metadata_stored _ _ _ _ _ Hw).
  - intros g g1 g2 r [Ht H] Hc. split; [by apply (touch_commit g g1 g2 r false)|]. intros Ho.
    destruct (open_frame_wf g Ho) as [Hwf Hne]. specialize (H (begin_open false g Hwf)). rewrite (stored_begin key false g Ho) in H.
    destruct (nested_commit g g1 false Hwf Hne Ht) as [(g' & Hc' & Hpub)|(_ & Hc')]; rewrite Hc in Hc'; simplify_eq; [|done].
    unfold stored in *. by rewrite (published_reads _ _ _ Hpub).
  - intros g g1 g2 [Ht _] Hc. split; [by apply (touch_roll_back g g1 g2 false)|]. intros Ho.
    destruct (open_frame_wf g Ho) as [Hwf _]. rewrite (nested_roll_back g g1 false Hwf Ht) in Hc. by simplify_eq.
Qed.

Lemma confines_moves {A} (m : Exec S CallStack A) :
  (forall s, post (moves key rho) s (fun _ => None) (m s)) -> confines moved_at opens m.
Proof.
  intros Hm g x. specialize (Hm (g, x)). destruct (m (g, x)) as [[[g1 x1] [e|a]]| |]; cbn in *; try done.
  - destruct (decide (left_open (Some e))) as [|Hn]; [by left|right]. destruct Hm as [Hc Hrho].
    split; [by apply Hc|]. by apply Hrho.
  - right. destruct Hm as [Hc Hrho]. split; [apply Hc, not_left_open_None|]. apply Hrho, not_left_open_None.
Qed.
End key.

(** * The store *)

(** Nothing is written to the store while contexts are open, and no context is
    closed that was open before. *)
Definition wrapper_kept : relation (RollbackWrapper S) := fun w w' =>
  (wrapper_depth w <= wrapper_depth w')%nat /\ ((1 <= wrapper_depth w)%nat -> store w' = store w).
#[export] Instance wrapper_kept_preorder : PreOrder wrapper_kept.
Proof.
  split; [done|]. intros w1 w2 w3 [Hd12 H12] [Hd23 H23]. split; [lia|]. intros Hd. rewrite H23 by lia. auto.
Qed.
Definition kept : relation (GlobalContext S) := fun g g' => wrapper_kept (database g) (database g').
#[export] Instance kept_preorder : PreOrder kept.
Proof. split; [by intros g|]. intros g1 g2 g3. unfold kept. by intros ->. Qed.

Lemma commit_wrapper g g' r : commit g = Ok (g', r) ->
  wrapper_commit (database g) = Ok (database g') \/ wrapper_rollback (database g) = Ok (database g').
Proof.
  unfold commit. intros Hc. repeat case_match; simplify_eq/=; try done; apply bind_Ok in Hc as (w & Hw & Hc); simplify_eq/=; auto.
Qed.
Lemma rollback_wrapper g g' : roll_back g = Ok g' -> wrapper_rollback (database g) = Ok (database g').
Proof. unfold roll_back. intros Hc. repeat case_match; try done. apply bind_Ok in Hc as (w & Hw & Hc). by simplify_eq/=. Qed.

Lemma wrapper_rollback_kept (w w' : RollbackWrapper S) :
  wrapper_rollback w = Ok w' -> wrapper_depth w = Datatypes.S (wrapper_depth w') /\ store w' = store w.
Proof.
  unfold wrapper_rollback, wrapper_depth. destruct (stack w) as [|top rest]; [done|].
  intros (lm & _ & (mlm & _ & [= <-])%bind_Ok)%bind_Ok. done.
Qed.
Lemma wrapper_commit_kept (w w' : RollbackWrapper S) :
  wrapper_commit w = Ok w' ->
  wrapper_depth w = Datatypes.S (wrapper_depth w') /\ ((1 <= wrapper_depth w')%nat -> store w' = store w).
Proof.
  unfold wrapper_commit, wrapper_depth. destruct (stack w) as [|top [|next rest]]; [done| |by intros [= <-]].
  intros ([edits lm] & _ & H)%bind_Ok. apply bind_Ok in H as (st & _ & H). apply bind_Ok in H as ([medits mlm] & _ & H).
  apply bind_Ok in H as (st' & _ & [= <-]). split; [done|]. cbn. lia.
Qed.

Lemma wrapper_kept_bracket (w w1 w2 : RollbackWrapper S) :
  wrapper_kept (wrapper_nest w) w1 -> wrapper_commit w1 = Ok w2 \/ wrapper_rollback w1 = Ok w2 -> wrapper_kept w w2.
Proof.
  unfold wrapper_kept, wrapper_depth. cbn. intros [Hd Hs] H.
  destruct H as [[Hd2 H]%wrapper_commit_kept|[Hd2 H]%wrapper_rollback_kept]; unfold wrapper_depth in *;
    (split; [lia|]; intros; rewrite H by lia; apply Hs; lia).
Qed.
Lemma wrapper_kept_put (w w' : RollbackWrapper S) k v : wrapper_put w k v = Ok w' -> wrapper_kept w w'.
Proof.
  unfold wrapper_kept, wrapper_put, wrapper_depth. destruct (stack w); [done|]. destruct (inner_put _ _ _ _). by intros [= <-].
Qed.
Lemma wrapper_kept_metadata (w w' : RollbackWrapper S) c k v : wrapper_insert_metadata w c k v = Ok w' -> wrapper_kept w w'.
Proof.
  unfold wrapper_kept, wrapper_insert_metadata, wrapper_depth. destruct (stack w); [done|]. destruct (inner_put _ _ _ _).
  by intros [= <-].
Qed.
Lemma kept_bracket g g1 g2 (ro : bool) :
  kept (if ro then begin_read_only g else begin g) g1 ->
  wrapper_commit (database g1) = Ok (database g2) \/ wrapper_rollback (database g1) = Ok (database g2) -> kept g g2.
Proof. intros Hk. apply wrapper_kept_bracket. by destruct ro. Qed.
Lemma kept_open g g1 : kept (begin g) g1 -> kept g g1.
Proof. unfold kept, wrapper_kept, wrapper_depth. cbn. intros [Hd Hs]. split; [lia|]. intros. apply Hs. lia. Qed.

#[export] Instance kept_launch : LaunchSteps kept.
Proof.
  split; [exact _|done| | | |].
  - intros g k v w _. apply wrapper_kept_put.
  - intros g c k v w. apply wrapper_kept_metadata.
  - intros g g1 g2 r Hk Hc. by eapply (kept_bracket g g1 g2 false), commit_wrapper.
  - intros g g1 g2 Hk Hc. eapply (kept_bracket g g1 g2 false); [done|]. right. by apply rollback_wrapper.
Qed.

Definition store_kept (s s' : VmState S) (r : option VmError) : Prop := kept s.1 s'.1.

#[export] Instance store_kept_steps : Steps store_kept.
Proof. split; unfold store_kept; cbn [fst]; try done. intros s1 s2 s3 r H12 H23. by etransitivity. Qed.
#[export] Instance store_kept_brackets : Brackets store_kept.
Proof.
  split; unfold store_kept; cbn [fst]; try done.
  - intros g x g1 x1 g2 r Hk Hc. by eapply (kept_bracket g g1 g2 false), commit_wrapper.
  - intros ro g x g1 x1 g2 r Hk Hc. eapply (kept_bracket g g1 g2 ro); [done|]. right. by apply rollback_wrapper.
  - intros g x s' t. apply kept_open.
  - intros g x bhh prior w g1 x1 r bhh' w' g2 Hgo [Hd Hs] Hback Hc%rollback_wrapper. unfold wrapper_set_block_hash in *.
    apply bind_Ok in Hgo as ([? st1] & Hst1 & [= -> <-]). apply bind_Ok in Hback as ([? st2] & Hst2 & [= <- <-]).
    apply wrapper_rollback_kept in Hc as [Hd2 Hs2]. unfold kept, wrapper_kept, wrapper_depth in *. cbn in *.
    rewrite Hs in Hst2 by lia. rewrite (bs_set_block_hash_back _ _ _ _ _ _ Hst1 Hst2) in Hs2. split; [lia|done].
Qed.

#[local] Notation guards := (both confined store_kept).
Lemma guards_depth s s' r : guards s s' r -> (CallStack_depth s.2 <= CallStack_depth s'.2)%nat.
Proof. intros [Hc _]. by eapply confined_depth. Qed.
#[export] Instance guards_preserved : Preserved (fun _ => True) guards.
Proof.
  eapply (preserved_any _ (fun _ => True)); [exact _|exact _| |done|done|apply guards_depth].
  apply both_puts; [apply confined_puts|]. intros g x k v w _. apply wrapper_kept_put.
Qed.

(** Runs of contracts keep the store. *)
Lemma confines_guards {A} (m : Exec S CallStack A) :
  (forall s, post guards s (fun _ => None) (m s)) -> confines kept (fun _ => False) m.
Proof.
  intros Hm g x. specialize (Hm (g, x)). destruct (m (g, x)) as [[[g1 x1] [e|a]]| |]; cbn in *; try done; right; apply Hm.
Qed.
Lemma execute_contract_kept c name args (ro : bool) env :
  confines kept (fun _ => False) (execute_contract eval c name args ro env).
Proof. apply confines_guards. intros s. by eapply (execute_contract_run guards_depth). Qed.
Lemma launch_kept c es src : confines kept (fun _ => False) (initialize_contract_from_ast c es src).
Proof.
  apply (initialize_confines kept (fun _ => False)); [|done|].
  - intros e cx context. apply confines_guards. intros s. by eapply (eval_runs guards_depth).
  - intros g g1 e Hk _. right. by apply kept_open.
Qed.

(** * Transactions *)

Lemma nest_reads (w : RollbackWrapper S) k : (1 <= wrapper_depth w)%nat -> wrapper_get (wrapper_nest w) k = wrapper_get w k.
Proof. unfold wrapper_depth, wrapper_get. cbn. destruct (stack w); [cbn; lia|done]. Qed.

(** A transaction keeps the store that its database has contexts open on. *)
Lemma execute_in_env_kept {A} (f : Exec S CallStack A) g x g' x' r :
  confines kept (fun _ => False) f -> execute_in_env f (g, x) = Ok ((g', x'), r) -> kept g g'.
Proof.
  intros Hf. unfold execute_in_env. cbn [fst snd]. destruct (is_top_level g); [|done].
  unfold mbind, exec_bind, modify, attempt. cbn [fst snd]. specialize (Hf (begin g) x).
  destruct (f (begin g, x)) as [[[g1 x1] r1]| |]; [|done..].
  assert (kept (begin g) g1) as Hk by by destruct r1; destruct Hf. destruct r1 as [e|a].
  - unfold roll_back_, modifyP. cbn [fst]. destruct (roll_back g1) as [g2|[]|] eqn:E; cbn; [|done]. intros [= <- _ _].
    apply (kept_bracket g g1 g2 false); [done|]. right. by apply rollback_wrapper.
  - unfold owned_commit, mbind, exec_bind, commit_. cbn [fst snd]. destruct (commit g1) as [[g2 c]|[]|] eqn:E; cbn; [|done].
    assert (kept g g2) as Hk2 by (eapply (kept_bracket g g1 g2 false), commit_wrapper; done).
    destruct c as [|[[m|] [b|]]]; cbn; by intros [= <- _ _].
Qed.

Lemma execute_in_env_ends {A} (f : Exec S CallStack A) g x e :
  confines kept (fun _ => False) f -> execute_in_env f (g, x) = Err e -> False.
Proof.
  intros Hf. unfold execute_in_env. cbn [fst snd]. destruct (is_top_level g); [|done].
  unfold mbind, exec_bind, modify, attempt. cbn [fst snd]. specialize (Hf (begin g) x).
  destruct (f (begin g, x)) as [[[g1 x1] r1]| |]; [|done..]. destruct r1 as [err|a].
  - unfold roll_back_, modifyP. cbn [fst]. by destruct (roll_back g1) as [g2|[]|].
  - unfold owned_commit, mbind, exec_bind, commit_. cbn [fst snd]. destruct (commit g1) as [[g2 c]|[]|]; cbn; [|done].
    by destruct c as [|[[m|] [b|]]].
Qed.

(** What a transaction that ends well does at a key. *)
Lemma execute_in_env_moved {A} key rho P (f : Exec S CallStack A) g x g' x' v :
  context_wf g -> is_top_level g = true -> (1 <= wrapper_depth (database g))%nat -> confines (moved_at key rho) P f ->
  execute_in_env f (g, x) = Ok ((g', x'), inr v) -> rho (stored key g) (stored key g').
Proof.
  intros Hwf Htop Hd Hf Hrun. pose proof (execute_in_env_outcome P f g x Hwf Htop) as Hout.
  rewrite Hrun in Hout. destruct v as [[a m] b]. destruct Hout as (_ & _ & Hl & g1 & x1 & Hf1 & _ & _ & _ & Hget & _).
  { apply (confines_weaken (moved_at key rho)); [by intros ?? []|done]. }
  specialize (Hf (begin g) x). rewrite Hf1 in Hf. destruct Hf as [[]|[_ Hrho]]. specialize (Hrho (begin_open false g Hwf)).
  unfold stored in *. rewrite <-Hget in Hrho. cbn [begin database] in Hrho. rewrite !nest_reads in Hrho; [done| |done].
  destruct Hwf as [[st [|l ls]] (Hr & _)]; [by rewrite (refines_depth _ _ Hr) in Hd; cbn in Hd; lia|].
  destruct (Hl _ _ _ Hr) as [l' Hr']. rewrite (refines_depth _ _ Hr'). cbn. lia.
Qed.

(** * Nonces *)

Section nonce.
Context (q : PrincipalData) (key : string).
Hypothesis Hkey : make_key_for_account_nonce q = Ok key.

#[export] Instance nonce_preserved : Preserved (fun _ => True) (moves (S := S) key eq).
Proof.
  eapply (preserved_any _ (fun k => k <> key)); [exact _|exact _|apply (moves_puts key eq)| | |apply (moves_depth key)].
  - intros k Hk ->. apply (nonce_not_launch _ _ Hkey). by left.
  - intros p k Hk ->. by apply (balance_not_nonce q p key).
Qed.

Lemma execute_contract_nonce c name args (ro : bool) env :
  confines (moved_at key eq) opens (execute_contract eval c name args ro env).
Proof. apply confines_moves. intros s. by eapply (execute_contract_run (moves_depth key eq)). Qed.
Lemma launch_nonce c es src : confines (moved_at key eq) (launch_opens c) (initialize_contract_from_ast c es src).
Proof.
  pose proof (moved_launch key eq (nonce_not_launch _ _ Hkey)) as Hsteps.
  apply (initialize_confines (moved_at key eq) opens); [|by left|by left; right]. intros e cx context. apply confines_moves. intros s. by eapply (eval_runs (moves_depth key eq)).
Qed.
End nonce.

(** * STX of others *)

Section others.
Context (p : StandardPrincipalData) (key : string).
Hypothesis Hp : valid_principal p.
Hypothesis Hkey : make_key_for_account_balance (Standard p) = Ok key.

Lemma execute_contract_others c name args (ro : bool) env :
  not_user p (env_sender env) -> confines (moved_at key no_less) opens (execute_contract eval c name args ro env).
Proof. intros Hs. apply confines_moves. intros s. by apply (execute_contract_moves p key). Qed.
Lemma launch_others c es src :
  confines (moved_at key no_less) (launch_opens c) (initialize_contract_from_ast c es src).
Proof.
  pose proof (moved_launch key no_less (balance_not_launch _ _ Hkey)) as Hsteps.
  apply (initialize_confines (moved_at key no_less) opens); [|by left|by left; right]. intros e cx context. apply confines_moves. intros s.
  pose proof (moves_preserved p key Hp Hkey) as Hpres. by eapply (eval_runs (moves_depth key no_less)).
Qed.
End others.
End ledger.
