(* ===== verification/StacksTypes.v ===== *)
(** Transactions of the chain as data: src/chainstate/stacks/mod.rs, with the
    accessors of transaction.rs and auth.rs that the processing of a transaction
    uses.  Integers are in the range of their types; hashes, keys and signatures
    are bytes. *)
From stdpp Require Import base strings numbers list gmap.
From Stdlib Require Import ZArith Lia.
From S2P Require Import Prelude Names Types.
#[local] Open Scope Z_scope.

(** * Addresses *)

Record StacksAddress := mkAddress { addr_version : Z; addr_bytes : list Z }.
#[global] Instance StacksAddress_eq_dec : EqDecision StacksAddress.
Proof. solve_decision. Defined.

Definition C32_ADDRESS_VERSION_MAINNET_SINGLESIG : Z := 22.
Definition C32_ADDRESS_VERSION_MAINNET_MULTISIG : Z := 20.
Definition C32_ADDRESS_VERSION_TESTNET_SINGLESIG : Z := 26.
Definition C32_ADDRESS_VERSION_TESTNET_MULTISIG : Z := 21.

(** [StandardPrincipalData::from] and [PrincipalData::from] of an address. *)
Definition StandardPrincipalData_from (addr : StacksAddress) : StandardPrincipalData :=
  mkStandard (addr_version addr) (addr_bytes addr).
Definition PrincipalData_from (addr : StacksAddress) : PrincipalData := Standard (StandardPrincipalData_from addr).

(** The hashes of src/core/mod.rs that stand for what comes before the first block. *)
Definition FIRST_BURNCHAIN_BLOCK_HASH : list Z := replicate 32 0.
Definition FIRST_STACKS_BLOCK_HASH : list Z := replicate 32 0.
Definition EMPTY_MICROBLOCK_PARENT_HASH : list Z := replicate 32 0.

(** * Authorizations *)

Inductive SinglesigHashMode := P2PKH | P2WPKH.
Inductive MultisigHashMode := P2SH | P2WSH.
Inductive TransactionPublicKeyEncoding := Compressed | Uncompressed.
(** [Secp256k1PublicKey]; the key is its compressed serialization. *)
Record StacksPublicKey := mkPublicKey { pubkey : list Z; compressed : bool }.
Inductive TransactionAuthField :=
| PublicKey (pubk : StacksPublicKey)
| Signature (encoding : TransactionPublicKeyEncoding) (sig : list Z).

Record MultisigSpendingCondition := mkMultisig {
  multi_hash_mode : MultisigHashMode;
  multi_signer : list Z;
  multi_nonce : Z;
  multi_fee_rate : Z;
  fields : list TransactionAuthField;
  multi_signatures_required : Z;
}.
Record SinglesigSpendingCondition := mkSinglesig {
  single_hash_mode : SinglesigHashMode;
  single_signer : list Z;
  single_nonce : Z;
  single_fee_rate : Z;
  key_encoding : TransactionPublicKeyEncoding;
  signature : list Z;
}.
Inductive TransactionSpendingCondition :=
| Singlesig (data : SinglesigSpendingCondition)
| Multisig (data : MultisigSpendingCondition).

Inductive TransactionAuth :=
| AuthStandard (origin : TransactionSpendingCondition)
| AuthSponsored (origin sponsor : TransactionSpendingCondition).

(** [TransactionSpendingCondition]. *)
Definition spending_nonce (self : TransactionSpendingCondition) : Z :=
  match self with Singlesig data => single_nonce data | Multisig data => multi_nonce data end.
Definition spending_fee_rate (self : TransactionSpendingCondition) : Z :=
  match self with Singlesig data => single_fee_rate data | Multisig data => multi_fee_rate data end.
Definition address_mainnet (self : TransactionSpendingCondition) : StacksAddress :=
  match self with
  | Singlesig data =>
    mkAddress (match single_hash_mode data with
               | P2PKH => C32_ADDRESS_VERSION_MAINNET_SINGLESIG
               | P2WPKH => C32_ADDRESS_VERSION_MAINNET_MULTISIG
               end) (single_signer data)
  | Multisig data => mkAddress C32_ADDRESS_VERSION_MAINNET_MULTISIG (multi_signer data)
  end.
Definition address_testnet (self : TransactionSpendingCondition) : StacksAddress :=
  match self with
  | Singlesig data =>
    mkAddress (match single_hash_mode data with
               | P2PKH => C32_ADDRESS_VERSION_TESTNET_SINGLESIG
               | P2WPKH => C32_ADDRESS_VERSION_TESTNET_MULTISIG
               end) (single_signer data)
  | Multisig data => mkAddress C32_ADDRESS_VERSION_TESTNET_MULTISIG (multi_signer data)
  end.

(** [TransactionAuth]. *)
Definition auth_origin (self : TransactionAuth) : TransactionSpendingCondition :=
  match self with AuthStandard s => s | AuthSponsored s _ => s end.
Definition auth_sponsor (self : TransactionAuth) : option TransactionSpendingCondition :=
  match self with AuthStandard _ => None | AuthSponsored _ s => Some s end.
Definition auth_fee_rate (self : TransactionAuth) : Z :=
  match self with AuthStandard s => spending_fee_rate s | AuthSponsored _ s => spending_fee_rate s end.

(** * Payloads *)

Record TransactionContractCall := mkContractCall {
  call_address : StacksAddress;
  call_contract_name : string;
  call_function_name : string;
  call_function_args : list Value;
}.
Definition to_clarity_contract_id (self : TransactionContractCall) : QualifiedContractIdentifier :=
  mkContractId (StandardPrincipalData_from (call_address self)) (call_contract_name self).

Record TransactionSmartContract := mkSmartContract { contract_name : string; code_body : string }.

Record StacksMicroblockHeader := mkMicroblockHeader {
  mblock_version : Z;
  mblock_sequence : Z;
  mblock_prev_block : list Z;
  mblock_tx_merkle_root : list Z;
  mblock_signature : list Z;
}.

Inductive TransactionPayload :=
| TokenTransfer (recipient : PrincipalData) (amount : Z) (memo : list Z)
| ContractCall (call : TransactionContractCall)
| SmartContract (contract : TransactionSmartContract)
| PoisonMicroblock (header_1 header_2 : StacksMicroblockHeader)
| Coinbase (payload : list Z).

(** * Post-conditions *)

Record AssetInfo := mkAssetInfo {
  info_contract_address : StacksAddress;
  info_contract_name : string;
  info_asset_name : string;
}.

Inductive FungibleConditionCode := SentEq | SentGt | SentGe | SentLt | SentLe.
(** [FungibleConditionCode::check]. *)
Definition fungible_check (self : FungibleConditionCode) (amount_sent_condition amount_sent : Z) : bool :=
  match self with
  | SentEq => amount_sent =? amount_sent_condition
  | SentGt => amount_sent_condition <? amount_sent
  | SentGe => amount_sent_condition <=? amount_sent
  | SentLt => amount_sent <? amount_sent_condition
  | SentLe => amount_sent <=? amount_sent_condition
  end.

Inductive NonfungibleConditionCode := Sent | NotSent.
Definition was_sent (nft_sent_condition : Value) (nfts_sent : list Value) : bool :=
  existsb (fun asset_sent => value_eqb asset_sent nft_sent_condition) nfts_sent.
(** [NonfungibleConditionCode::check]. *)
Definition nonfungible_check (self : NonfungibleConditionCode) (nft_sent_condition : Value) (nfts_sent : list Value) : bool :=
  match self with
  | Sent => was_sent nft_sent_condition nfts_sent
  | NotSent => negb (was_sent nft_sent_condition nfts_sent)
  end.

Inductive PostConditionPrincipal :=
| PC_Origin
| PC_Standard (addr : StacksAddress)
| PC_Contract (addr : StacksAddress) (contract_name : string).
Definition to_principal_data (self : PostConditionPrincipal) (origin_principal : PrincipalData) : PrincipalData :=
  match self with
  | PC_Origin => origin_principal
  | PC_Standard addr => PrincipalData_from addr
  | PC_Contract addr contract_name => Contract (mkContractId (StandardPrincipalData_from addr) contract_name)
  end.

Inductive TransactionPostCondition :=
| PC_STX (principal : PostConditionPrincipal) (condition_code : FungibleConditionCode) (amount : Z)
| PC_Fungible (principal : PostConditionPrincipal) (asset_info : AssetInfo) (condition_code : FungibleConditionCode) (amount : Z)
| PC_Nonfungible (principal : PostConditionPrincipal) (asset_info : AssetInfo) (asset_value : Value)
    (condition_code : NonfungibleConditionCode).

Inductive TransactionPostConditionMode := Allow | Deny.
#[global] Instance TransactionPostConditionMode_eq_dec : EqDecision TransactionPostConditionMode.
Proof. solve_decision. Defined.

(** * Transactions *)

Inductive TransactionVersion := Mainnet | Testnet.
Inductive TransactionAnchorMode := OnChainOnly | OffChainOnly | AnyAnchor.

Record StacksTransaction := mkTransaction {
  tx_version : TransactionVersion;
  tx_chain_id : Z;
  tx_auth : TransactionAuth;
  tx_anchor_mode : TransactionAnchorMode;
  post_condition_mode : TransactionPostConditionMode;
  post_conditions : list TransactionPostCondition;
  payload : TransactionPayload;
}.

Definition origin_address (self : StacksTransaction) : StacksAddress :=
  match tx_version self, tx_auth self with
  | Mainnet, AuthStandard origin_condition => address_mainnet origin_condition
  | Testnet, AuthStandard origin_condition => address_testnet origin_condition
  | Mainnet, AuthSponsored origin_condition _ => address_mainnet origin_condition
  | Testnet, AuthSponsored origin_condition _ => address_testnet origin_condition
  end.
Definition sponsor_address (self : StacksTransaction) : option StacksAddress :=
  match tx_version self, tx_auth self with
  | Mainnet, AuthStandard _ => None
  | Testnet, AuthStandard _ => None
  | Mainnet, AuthSponsored _ sponsor_condition => Some (address_mainnet sponsor_condition)
  | Testnet, AuthSponsored _ sponsor_condition => Some (address_testnet sponsor_condition)
  end.
Definition get_origin (self : StacksTransaction) : TransactionSpendingCondition := auth_origin (tx_auth self).
Definition get_payer (self : StacksTransaction) : TransactionSpendingCondition :=
  match auth_sponsor (tx_auth self) with Some tsc => tsc | None => auth_origin (tx_auth self) end.
Definition get_fee_rate (self : StacksTransaction) : Z := auth_fee_rate (tx_auth self).

(** * Blocks *)

Record StacksWorkScore := mkWorkScore { burn : Z; work : Z }.
Record StacksBlockHeader := mkBlockHeader {
  header_version : Z;
  total_work : StacksWorkScore;
  proof : list Z;
  parent_block : list Z;
  parent_microblock : list Z;
  parent_microblock_sequence : Z;
  header_tx_merkle_root : list Z;
  state_index_root : list Z;
  microblock_pubkey_hash : list Z;
}.
Record StacksBlock := mkStacksBlock { block_header : StacksBlockHeader; block_txs : list StacksTransaction }.
Record StacksMicroblock := mkMicroblock { mblock_header : StacksMicroblockHeader; mblock_txs : list StacksTransaction }.

(** The hash of a header, [block_hash]. *)
Class BlockHashes := {
  header_block_hash : StacksBlockHeader -> list Z;
  microblock_block_hash : StacksMicroblockHeader -> list Z;
}.

Definition get_coinbase_tx (self : StacksBlock) : option StacksTransaction :=
  match block_txs self with
  | [] => None
  | tx :: _ => match payload tx with Coinbase _ => Some tx | _ => None end
  end.
