(* ===== verification/Merkle.v ===== *)
(** Merkle trees: [MerkleTree] of src/util/hash.rs, which gives blocks the root of
    their transactions.  The theorems: every item has a path that verifies, a path
    that verifies belongs to an item, and the root determines the list of distinct
    items, unless the hash has a collision. *)
From stdpp Require Import base numbers countable sets list.
From Stdlib Require Import ZArith Lia.
From S2P Require Import Prelude.
#[local] Open Scope Z_scope.

(** [MerkleHashFunc]. *)
Class MerkleHashFunc (H : Type) := {
  hash_empty : H;
  from_tagged_data : Z -> list Z -> H;
  bits : H -> list Z;
}.

Inductive MerklePathOrder := Left | Right.
Definition MERKLE_PATH_LEAF_TAG : Z := 0x00.
Definition MERKLE_PATH_NODE_TAG : Z := 0x01.
Record MerklePathPoint (H : Type) := mkPoint { order : MerklePathOrder; point_hash : H }.
Arguments mkPoint {H}.
Arguments order {H}.
Arguments point_hash {H}.
(** The rows: the first is that of the leaves, the last has the root. *)
Record MerkleTree (H : Type) := mkTree { nodes : list (list H) }.
Arguments mkTree {H}.
Arguments nodes {H}.

Section merkle.
Context {H : Type} `{Hfunc : !MerkleHashFunc H} `{Heq : !EqDecision H}.
Implicit Types (row : list H) (data : list (list Z)).

Definition get_leaf_hash (leaf_data : list Z) : H := from_tagged_data MERKLE_PATH_LEAF_TAG leaf_data.
Definition get_node_hash (l r : H) : H := from_tagged_data MERKLE_PATH_NODE_TAG (bits l ++ bits r).

(** * Building *)

Fixpoint node_hashes row : list H :=
  match row with
  | l :: r :: row => get_node_hash l r :: node_hashes row
  | _ => []
  end.
Definition force_even row : list H :=
  if Nat.odd (length row) then match last row with Some dup => row ++ [dup] | None => row end else row.

(** The loop of [new] over the last row; a row has at most half the nodes of the one
    below, rounded to an even number, so the length of the first row bounds the
    rounds. *)
Fixpoint grow (fuel : nat) row : list (list H) :=
  match fuel with
  | O => []
  | S fuel =>
    let row_hashes := node_hashes row in
    if (length row_hashes =? 1)%nat then [row_hashes] else force_even row_hashes :: grow fuel (force_even row_hashes)
  end.
Definition merkle_new data : MerkleTree H :=
  match data with
  | [] => mkTree []
  | _ =>
    let leaf_hashes := force_even (map get_leaf_hash data) in
    mkTree (leaf_hashes :: grow (length leaf_hashes) leaf_hashes)
  end.
Definition root (self : MerkleTree H) : H :=
  match last (nodes self) with
  | Some (h :: _) => h
  | _ => hash_empty
  end.

(** * Paths *)

Fixpoint index_of (hash : H) row : option nat :=
  match row with
  | [] => None
  | h :: row => if decide (h = hash) then Some O else S <$> index_of hash row
  end.
Definition find_hash_index (self : MerkleTree H) (hash : H) (row_index : nat) : Res Empty_set (option nat) :=
  match nodes self !! row_index with
  | None => Panic
  | Some row => Ok (index_of hash row)
  end.
Definition find_siblings (self : MerkleTree H) (row_index hash_index : nat) : Res Empty_set (H * H) :=
  if (row_index =? length (nodes self) - 1)%nat then Panic
  else
    match nodes self !! row_index with
    | None => Panic
    | Some row =>
      if (length row <=? hash_index)%nat then Panic
      else if Nat.even hash_index then
        match row !! hash_index, row !! (hash_index + 1)%nat with
        | Some l, Some r => Ok (l, r)
        | _, _ => Panic
        end
      else
        match row !! (hash_index - 1)%nat, row !! hash_index with
        | Some l, Some r => Ok (l, r)
        | _, _ => Panic
        end
    end.

(** The loop of [path], [n] rounds from row [i]. *)
Fixpoint path_loop (self : MerkleTree H) (n i : nat) (next_hash : H) (hash_index : nat) :
    Res Empty_set (option (list (MerklePathPoint H))) :=
  match n with
  | O => Ok (Some [])
  | S n =>
    '(l, r) ← find_siblings self i hash_index;
    let point := if decide (next_hash = l) then mkPoint Left r else mkPoint Right l in
    let next_hash := get_node_hash l r in
    found ← find_hash_index self next_hash (i + 1);
    match found with
    | None => Ok None
    | Some hi =>
      rest ← path_loop self n (i + 1) next_hash hi;
      Ok (option_map (cons point) rest)
    end
  end.
Definition path (self : MerkleTree H) (data : list Z) : Res Empty_set (option (list (MerklePathPoint H))) :=
  let leaf_hash := get_leaf_hash data in
  found ← find_hash_index self leaf_hash 0;
  match found with
  | None => Ok None
  | Some i => path_loop self (length (nodes self) - 1) 0 leaf_hash i
  end.

Fixpoint climb (hash_acc : H) (p : list (MerklePathPoint H)) : H :=
  match p with
  | [] => hash_acc
  | mkPoint Left h :: p => climb (get_node_hash hash_acc h) p
  | mkPoint Right h :: p => climb (get_node_hash h hash_acc) p
  end.
Definition path_verify (data : list Z) (p : list (MerklePathPoint H)) (root : H) : bool :=
  if (length p <? 1)%nat then false else bool_decide (climb (get_leaf_hash data) p = root).

(** * Collisions *)

(** What is hashed, with its tag, for the nodes above a row, for a tree and along a
    path. *)
Definition hash_input (x : Z * list Z) : H := from_tagged_data x.1 x.2.
Fixpoint node_inputs row : list (Z * list Z) :=
  match row with
  | l :: r :: row => (MERKLE_PATH_NODE_TAG, bits l ++ bits r) :: node_inputs row
  | _ => []
  end.
Definition tree_inputs data : list (Z * list Z) :=
  map (pair MERKLE_PATH_LEAF_TAG) data ++ (nodes (merkle_new data) ≫= node_inputs).
Fixpoint climb_inputs (hash_acc : H) (p : list (MerklePathPoint H)) : list (Z * list Z) :=
  match p with
  | [] => []
  | mkPoint Left h :: p => (MERKLE_PATH_NODE_TAG, bits hash_acc ++ bits h) :: climb_inputs (get_node_hash hash_acc h) p
  | mkPoint Right h :: p => (MERKLE_PATH_NODE_TAG, bits h ++ bits hash_acc) :: climb_inputs (get_node_hash h hash_acc) p
  end.
Definition path_inputs (d : list Z) (p : list (MerklePathPoint H)) : list (Z * list Z) :=
  (MERKLE_PATH_LEAF_TAG, d) :: climb_inputs (get_leaf_hash d) p.

(** A collision between two computations: an input of the one and a different input
    of the other with the same hash. *)
Definition collision (I I' : list (Z * list Z)) : Prop :=
  exists x y, x ∈ I /\ y ∈ I' /\ x <> y /\ hash_input x = hash_input y.
Lemma hash_inj (I I' : list (Z * list Z)) x y : x ∈ I -> y ∈ I' -> hash_input x = hash_input y -> x = y \/ collision I I'.
Proof. intros Hx Hy Hh. destruct (decide (x = y)) as [E|E]; [by left|]. right. by exists x, y. Qed.
Lemma collision_mono I I' J J' : I ⊆ J -> I' ⊆ J' -> collision I I' -> collision J J'.
Proof. intros HI HI' (x & y & Hx & Hy & H'). exists x, y. split_and!; [auto..|apply H'|apply H']. Qed.

(** The bits of a hash have a size and determine it. *)
Class MerkleHashLaws (size : nat) : Prop := {
  bits_size : forall tag d, length (bits (from_tagged_data (H := H) tag d)) = size;
  bits_inj : forall h h' : H, bits h = bits h' -> h = h';
}.
End merkle.
Arguments collision H {Hfunc}.
Arguments tree_inputs H {Hfunc}.
Arguments MerkleHashLaws H {Hfunc}.

(** * Trees *)

Section facts.
Context {H : Type} `{Hfunc : !MerkleHashFunc H} `{Heq : !EqDecision H} {size : nat} `{Hlaws : !MerkleHashLaws H size}.
Implicit Types (row : list H) (data : list (list Z)) (p : list (MerklePathPoint H)) (I : list (Z * list Z)).

(** [h] is the hash of a perfect tree of height [n] over the items [ds], with the
    inputs of the hash among [I]. *)
Fixpoint tree I (n : nat) (h : H) (ds : list (list Z)) : Prop :=
  match n with
  | O => exists d, ds = [d] /\ h = get_leaf_hash d /\ (MERKLE_PATH_LEAF_TAG, d) ∈ I
  | S n => exists l r d1 d2, h = get_node_hash l r /\ (MERKLE_PATH_NODE_TAG, bits l ++ bits r) ∈ I /\
      ds = d1 ++ d2 /\ tree I n l d1 /\ tree I n r d2
  end.

Lemma tree_size I n h ds : tree I n h ds -> length (bits h) = size.
Proof. destruct n; cbn; [intros (d & _ & -> & _)|intros (l & r & d1 & d2 & -> & _)]; apply bits_size. Qed.
(** The hash of a node determines its children, if one of them has a size. *)
Lemma node_inj I I' l r l' r' :
  (MERKLE_PATH_NODE_TAG, bits l ++ bits r) ∈ I -> (MERKLE_PATH_NODE_TAG, bits l' ++ bits r') ∈ I' ->
  length (bits l) = length (bits l') -> get_node_hash l r = get_node_hash l' r' -> (l = l' /\ r = r') \/ collision H I I'.
Proof.
  intros Hx Hy Hlen Hh. destruct (hash_inj I I' _ _ Hx Hy Hh) as [[= Hb]|]; [left|by right].
  apply app_inj_1 in Hb as [Hl Hr]; [|done]. split; by apply bits_inj.
Qed.
Lemma leaf_inj I I' d d' :
  (MERKLE_PATH_LEAF_TAG, d) ∈ I -> (MERKLE_PATH_LEAF_TAG, d') ∈ I' ->
  get_leaf_hash (H := H) d = get_leaf_hash d' -> d = d' \/ collision H I I'.
Proof. intros Hx Hy Hh. destruct (hash_inj I I' _ _ Hx Hy Hh) as [[=]|]; auto. Qed.
Lemma leaf_node I I' d l r :
  (MERKLE_PATH_LEAF_TAG, d) ∈ I -> (MERKLE_PATH_NODE_TAG, bits l ++ bits r) ∈ I' ->
  get_leaf_hash (H := H) d = get_node_hash l r -> collision H I I'.
Proof. intros Hx Hy Hh. by destruct (hash_inj I I' _ _ Hx Hy Hh) as [[=]|]. Qed.
Lemma collision_sym I I' : collision H I I' -> collision H I' I.
Proof. intros (x & y & ? & ? & ? & ?). exists y, x. by split_and!. Qed.

Lemma tree_inj I I' n : forall m h ds ds', tree I n h ds -> tree I' m h ds' -> ds = ds' \/ collision H I I'.
Proof.
  induction n as [|n IH]; intros [|m] h ds ds'; cbn.
  - intros (d & -> & -> & Hx) (d' & -> & Hh & Hy). destruct (leaf_inj I I' d d') as [->|]; auto.
  - intros (d & -> & -> & Hx) (l & r & d1 & d2 & Hh & Hy & _). right. by eapply leaf_node.
  - intros (l & r & d1 & d2 & -> & Hy & _) (d & -> & Hh & Hx). right. apply collision_sym. by eapply leaf_node.
  - intros (l & r & d1 & d2 & -> & Hx & -> & Hl & Hr) (l' & r' & d1' & d2' & Hh & Hy & -> & Hl' & Hr').
    apply (node_inj I I') in Hh as [[<- <-]|]; [|auto|done|done|by erewrite !tree_size].
    destruct (IH m l d1 d1' Hl Hl') as [<-|]; [|auto]. destruct (IH m r d2 d2' Hr Hr') as [<-|]; auto.
Qed.

(** ** The rows of a tree *)

(** Each hash of the row is that of a tree of height [n]; together they have the
    items and, after them, items again. *)
Definition row_of I (n : nat) row data : Prop :=
  exists dss ext, Forall2 (tree I n) row dss /\ mjoin dss = data ++ ext /\ ext ⊆ data.

Lemma Forall2_last {A B} (R : A -> B -> Prop) l k x : Forall2 R l k -> last l = Some x -> exists y, last k = Some y /\ R x y.
Proof.
  intros HR Hl. rewrite last_lookup in Hl. destruct (Forall2_lookup_l _ _ _ _ _ HR Hl) as (y & Hy & Hxy).
  exists y. by rewrite last_lookup, <-(Forall2_length _ _ _ HR).
Qed.
Lemma last_In {A} (l : list A) x : last l = Some x -> x ∈ l.
Proof. rewrite last_lookup. apply list_elem_of_lookup_2. Qed.

Lemma force_even_row I n row data : row_of I n row data -> row_of I n (force_even row) data.
Proof.
  intros (dss & ext & Hr & Hc & He). unfold force_even. destruct (Nat.odd (length row)); [|by exists dss, ext].
  destruct (last row) as [h|] eqn:Hl; [|by exists dss, ext]. destruct (Forall2_last _ _ _ _ Hr Hl) as (ds & Hds & Hh).
  exists (dss ++ [ds]), (ext ++ ds). split_and!.
  - by apply Forall2_app; [|repeat constructor].
  - rewrite join_app, Hc. cbn. by rewrite app_nil_r, <-(assoc_L (++)).
  - apply list_subseteq_app_iff_l. split; [done|]. intros d Hd. apply last_In in Hds.
    assert (d ∈ mjoin dss) as Hin by (apply list_elem_of_join; eauto). rewrite Hc in Hin. set_solver.
Qed.
Lemma pair_ind {A} (P : list A -> Prop) :
  P [] -> (forall x, P [x]) -> (forall x y l, P l -> P (x :: y :: l)) -> forall l, P l.
Proof.
  intros H0 H1 H2 l. enough (P l /\ forall x, P (x :: l)) as [? _] by done.
  induction l as [|x l [IH1 IH2]]; auto.
Qed.
Lemma length_node_hashes row : length (node_hashes row) = Nat.div2 (length row).
Proof. induction row as [| |l r row IH] using pair_ind; cbn; [done..|by rewrite IH]. Qed.
Lemma length_force_even row : length (force_even row) = (length row + length row mod 2)%nat.
Proof.
  unfold force_even. rewrite <-Nat.bit0_mod, Nat.bit0_odd. destruct (Nat.odd (length row)) eqn:Ho; cbn [Nat.b2n]; [|lia].
  destruct (last row) eqn:Hl; [by rewrite length_app|]. by apply last_None in Hl as ->.
Qed.
Lemma force_even_even row : Nat.Even (length (force_even row)).
Proof.
  rewrite length_force_even. exists ((length row + 1) / 2)%nat. pose proof (Nat.div_mod_eq (length row) 2).
  pose proof (Nat.mod_upper_bound (length row) 2). pose proof (Nat.div_mod_eq (length row + 1) 2).
  pose proof (Nat.mod_upper_bound (length row + 1) 2). lia.
Qed.

Lemma node_hashes_row I n row data :
  Nat.Even (length row) -> node_inputs row ⊆ I -> row_of I n row data -> row_of I (S n) (node_hashes row) data.
Proof.
  intros Hev Hi (dss & ext & Hr & Hc & He).
  assert (exists dss', Forall2 (tree I (S n)) (node_hashes row) dss' /\ mjoin dss' = mjoin dss) as (dss' & Hr' & Hj).
  { clear Hc. revert dss Hev Hi Hr. induction row as [|l|l r row IH] using pair_ind; intros dss Hev Hi Hr.
    - apply Forall2_nil_inv_l in Hr as ->. by exists [].
    - destruct Hev as [k Hk]. cbn in Hk. lia.
    - apply Forall2_cons_inv_l in Hr as (d1 & dss1 & Hl & (d2 & dss2 & Hr & Hrow & ->)%Forall2_cons_inv_l & ->).
      destruct (IH dss2) as (dss' & Hd & Hj); [destruct Hev as [k Hk]; exists (k - 1)%nat; cbn in Hk; lia|cbn in Hi; set_solver|done|].
      exists ((d1 ++ d2) :: dss'). split; [constructor; [|done]; exists l, r, d1, d2; cbn in Hi; set_solver|].
      change ((d1 ++ d2) ++ mjoin dss' = d1 ++ d2 ++ mjoin dss2). by rewrite Hj, <-(assoc_L (++)). }
  exists dss', ext. by rewrite Hj.
Qed.

Lemma grow_top I fuel : forall n row data,
  (row :: grow fuel row) ≫= node_inputs ⊆ I -> row_of I n row data -> Nat.Even (length row) -> (2 <= length row <= fuel)%nat ->
  exists m h ext, last (grow fuel row) = Some [h] /\ tree I m h (data ++ ext) /\ ext ⊆ data.
Proof.
  induction fuel as [|fuel IH]; intros n row data Hi Hr Hev Hlen; [lia|]. cbn [grow] in *.
  rewrite bind_cons in Hi. apply list_subseteq_app_iff_l in Hi as [Hi Hi'].
  pose proof (node_hashes_row I n row data Hev Hi Hr) as Hn. pose proof (length_node_hashes row) as Hl.
  destruct Hev as [k Hk]. rewrite Hk, Nat.div2_double in Hl. destruct (length (node_hashes row) =? 1)%nat eqn:E.
  - apply Nat.eqb_eq in E. destruct (node_hashes row) as [|h [|]]; [done| |done].
    destruct Hn as (dss & ext & (ds & ? & Hh & ->%Forall2_nil_inv_l & ->)%Forall2_cons_inv_l & Hc & He).
    exists (S n), h, ext. split_and!; [done| |done]. cbn in Hc. rewrite app_nil_r in Hc. by rewrite <-Hc.
  - apply Nat.eqb_neq in E. apply force_even_row in Hn. pose proof (length_force_even (node_hashes row)) as Hf.
    pose proof (Nat.mod_upper_bound (length (node_hashes row)) 2 ltac:(done)) as Hmod.
    destruct (IH (S n) (force_even (node_hashes row)) data Hi' Hn (force_even_even _)) as (m & h & ext & Ht & Hh & He); [lia|].
    exists m, h, ext. split_and!; [|done|done]. rewrite last_cons. by rewrite Ht.
Qed.

(** The rows of a tree, each below the next. *)
Fixpoint linked (rows : list (list H)) : Prop :=
  match rows with
  | row :: ((next :: _) as rows') => Nat.Even (length row) /\ node_hashes row `prefix_of` next /\ linked rows'
  | _ => True
  end.

Lemma grow_linked fuel : forall row, Nat.Even (length row) -> linked (row :: grow fuel row).
Proof.
  induction fuel as [|fuel IH]; intros row Hev; [done|]. cbn [grow]. destruct (_ =? 1)%nat; cbn [linked].
  - by split_and!.
  - split_and!; [done| |apply IH, force_even_even]. unfold force_even. destruct (Nat.odd _); [|done].
    destruct (last _); [|done]. by apply prefix_app_r.
Qed.
Lemma leaves_row I data : map (pair MERKLE_PATH_LEAF_TAG) data ⊆ I -> row_of I 0 (map get_leaf_hash data) data.
Proof.
  intros Hi.
  exists (map (fun d => [d]) data), []. split_and!; [| |set_solver].
  - induction data as [|d data IH]; [constructor|]. cbn in Hi. constructor; [exists d|apply IH]; set_solver.
  - rewrite app_nil_r. clear Hi. induction data as [|d data IH]; [done|].
    change (d :: mjoin (map (fun d => [d]) data) = d :: data). by rewrite IH.
Qed.
Lemma new_rows data :
  data <> [] -> exists m h ext rows, nodes (merkle_new data) = force_even (map get_leaf_hash data) :: rows /\
    linked (nodes (merkle_new data)) /\ last rows = Some [h] /\ tree (tree_inputs H data) m h (data ++ ext) /\ ext ⊆ data.
Proof.
  intros Hd. assert (2 <= length (force_even (map (get_leaf_hash (H := H)) data)))%nat.
  { rewrite length_force_even, length_map. destruct data as [|? [|? l]]; [done|cbn; lia|]. cbn [length]. lia. }
  destruct (grow_top (tree_inputs H data) (length (force_even (map get_leaf_hash data))) 0 (force_even (map get_leaf_hash data)) data)
    as (m & h & ext & Hl & Ht & He); [|apply force_even_row, leaves_row; unfold tree_inputs; set_solver|apply force_even_even|lia|].
  { unfold tree_inputs. destruct data; [done|]. apply list_subseteq_app_r. done. }
  exists m, h, ext. eexists. destruct data as [|d data]; [done|]. split_and!; [done| |done..]. apply grow_linked, force_even_even.
Qed.
Lemma root_tree data :
  data <> [] -> exists m ext, tree (tree_inputs H data) m (root (merkle_new data)) (data ++ ext) /\ ext ⊆ data.
Proof.
  intros (m & h & ext & rows & Hn & _ & Hl & Ht & He)%new_rows. exists m, ext. split; [|done].
  unfold root. rewrite Hn, last_cons. by rewrite Hl.
Qed.

(** ** Paths *)

Lemma climb_snoc acc p pt :
  climb acc (p ++ [pt]) =
    match order pt with Left => get_node_hash (climb acc p) (point_hash pt) | Right => get_node_hash (point_hash pt) (climb acc p) end.
Proof. revert acc. induction p as [|[[] h] p IH]; intros acc; cbn; [by destruct pt as [[]]|apply IH..]. Qed.
Lemma climb_size d p : length (bits (climb (get_leaf_hash (H := H) d) p)) = size.
Proof. induction p as [|[[] h] p _] using rev_ind; rewrite ?climb_snoc; apply bits_size. Qed.

Lemma climb_inputs_snoc acc p pt :
  climb_inputs acc (p ++ [pt]) = climb_inputs acc p ++ climb_inputs (climb acc p) [pt].
Proof. revert acc. induction p as [|[[] h] p IH]; intros acc; cbn; [done|by rewrite IH..]. Qed.

Lemma climb_sound I p d : forall m ds,
  Forall (fun pt => length (bits (point_hash pt)) = size) p -> tree I m (climb (get_leaf_hash d) p) ds ->
  d ∈ ds \/ collision H (path_inputs d p) I.
Proof.
  induction p as [|[o h] p IH] using rev_ind; intros m ds Hp Ht.
  - destruct m as [|m]; cbn in Ht.
    + destruct Ht as (d' & -> & Hc & Hy).
      destruct (leaf_inj (path_inputs d []) I d d') as [->|]; [apply elem_of_cons; by left|done..|left; set_solver|by right].
    + destruct Ht as (l & r & ? & ? & Hc & Hy & _). right. eapply leaf_node; [|done..]. apply elem_of_cons. by left.
  - apply Forall_app in Hp as [Hp [Hh _]%Forall_cons]. cbn in Hh. rewrite climb_snoc in Ht. cbn [order point_hash] in Ht.
    assert (path_inputs d p ⊆ path_inputs d (p ++ [mkPoint o h])) as Hsub
      by (unfold path_inputs; rewrite climb_inputs_snoc; set_solver).
    assert (climb_inputs (climb (get_leaf_hash d) p) [mkPoint o h] ⊆ path_inputs d (p ++ [mkPoint o h])) as Hlast
      by (unfold path_inputs; rewrite climb_inputs_snoc; set_solver).
    assert (forall l ds, tree I l (climb (get_leaf_hash d) p) ds -> d ∈ ds \/ collision H (path_inputs d (p ++ [mkPoint o h])) I) as IH'.
    { intros l ds' Hl. destruct (IH _ _ Hp Hl); [by left|right]. eapply collision_mono; [exact Hsub| |done]. done. }
    destruct m as [|m]; cbn in Ht.
    + destruct Ht as (d' & _ & Hc & Hy). right. apply collision_sym.
      destruct o; symmetry in Hc; (eapply leaf_node; [done| |done]); cbn in Hlast; set_solver.
    + destruct Ht as (l & r & d1 & d2 & Hn & Hy & -> & Hl & Hr).
      destruct o; cbn in Hlast; destruct (node_inj _ I _ _ _ _ (Hlast _ (list_elem_of_here _ _)) Hy) with (2 := Hn) as [[Hc Hc']|]; try by right.
      * by rewrite climb_size, (tree_size _ _ _ _ Hl).
      * rewrite <-Hc in Hl. destruct (IH' _ _ Hl); [left; set_solver|by right].
      * by rewrite Hh, (tree_size _ _ _ _ Hl).
      * rewrite <-Hc' in Hr. destruct (IH' _ _ Hr); [left; set_solver|by right].
Qed.

Lemma linked_lookup rows i row next :
  linked rows -> rows !! i = Some row -> rows !! (i + 1)%nat = Some next ->
  Nat.Even (length row) /\ node_hashes row `prefix_of` next.
Proof.
  revert i. induction rows as [|r rows IH]; intros i Hl Hi Hn; [done|]. destruct i as [|i]; cbn in Hi, Hn.
  - destruct rows; [done|]. cbn in Hn. simplify_eq. by destruct Hl as (? & ? & _).
  - destruct rows as [|r' rows]; [done|]. destruct Hl as (_ & _ & Hl). by apply (IH i).
Qed.

Lemma node_hashes_lookup row : forall k l r,
  row !! (2 * k)%nat = Some l -> row !! (2 * k + 1)%nat = Some r -> node_hashes row !! k = Some (get_node_hash l r).
Proof.
  induction row as [|x|x y row IH] using pair_ind; intros [|k] l r; cbn [node_hashes]; intros Hl Hr; try done.
  - by cbn in *; simplify_eq.
  - cbn [lookup list_lookup]. apply IH.
    + by replace (2 * S k)%nat with (S (S (2 * k))) in Hl by lia.
    + by replace (2 * S k + 1)%nat with (S (S (2 * k + 1))) in Hr by lia.
Qed.
Lemma index_of_found row h i : row !! i = Some h -> exists j, index_of h row = Some j /\ row !! j = Some h.
Proof.
  revert i. induction row as [|x row IH]; intros i Hi; [done|]. cbn [index_of]. destruct (decide (x = h)) as [->|Hx]; [by exists O|].
  destruct i as [|i]; [by cbn in Hi; simplify_eq|]. destruct (IH i Hi) as (j & -> & Hj). by exists (S j).
Qed.

Lemma siblings_found self i row idx h :
  nodes self !! i = Some row -> i <> (length (nodes self) - 1)%nat -> Nat.Even (length row) -> row !! idx = Some h ->
  exists l r k, find_siblings self i idx = Ok (l, r) /\ row !! (2 * k)%nat = Some l /\ row !! (2 * k + 1)%nat = Some r /\
    (l = h \/ r = h).
Proof.
  intros Hrow Hi [k Hk] Hh. pose proof (lookup_lt_Some _ _ _ Hh) as Hlt. unfold find_siblings.
  rewrite (proj2 (Nat.eqb_neq _ _) Hi), Hrow, (proj2 (Nat.leb_gt _ _)) by done. destruct (Nat.even idx) eqn:E.
  - apply Nat.even_spec in E as [j ->]. destruct (lookup_lt_is_Some_2 row (2 * j + 1)) as [r Hr]; [lia|].
    rewrite Hh, Hr. exists h, r, j. auto.
  - rewrite <-Nat.negb_odd in E. apply negb_false_iff, Nat.odd_spec in E as [j ->]. replace (2 * j + 1 - 1)%nat with (2 * j)%nat by lia.
    destruct (lookup_lt_is_Some_2 row (2 * j)) as [l Hl]; [lia|]. rewrite Hl, Hh. exists l, h, j. auto.
Qed.

Lemma path_loop_spec self top n : forall i row idx h,
  linked (nodes self) -> last (nodes self) = Some [top] -> (i + n = length (nodes self) - 1)%nat ->
  nodes self !! i = Some row -> row !! idx = Some h ->
  exists p, path_loop self n i h idx = Ok (Some p) /\ climb h p = top /\ length p = n.
Proof.
  induction n as [|n IH]; intros i row idx h Hlink Hlast Hn Hrow Hh; cbn [path_loop].
  - exists []. split_and!; [done| |done]. rewrite last_lookup in Hlast. replace (pred (length (nodes self))) with i in Hlast by lia.
    rewrite Hrow in Hlast. simplify_eq. apply list_lookup_singleton_Some in Hh. by cbn; destruct Hh as [_ ->].
  - destruct (lookup_lt_is_Some_2 (nodes self) (i + 1)) as [next Hnext]; [apply lookup_lt_Some in Hrow; lia|].
    destruct (linked_lookup _ _ _ _ Hlink Hrow Hnext) as [Hev [tl ->]].
    destruct (siblings_found self i row idx h Hrow ltac:(lia) Hev Hh) as (l & r & k & -> & Hl & Hr & Hor). cbn [mbind res_bind].
    unfold find_hash_index. rewrite Hnext. cbn [mbind res_bind].
    destruct (index_of_found (node_hashes row ++ tl) (get_node_hash l r) k) as (j & -> & Hj).
    { by apply lookup_app_l_Some, node_hashes_lookup. }
    destruct (IH (i + 1)%nat _ j _ Hlink Hlast ltac:(lia) Hnext Hj) as (p & -> & Hc & Hlen). cbn [mbind res_bind option_map].
    eexists. split_and!; [done| |by cbn; rewrite Hlen]. destruct (decide (h = l)) as [->|Hne]; cbn; [done|].
    destruct Hor as [->| ->]; done.
Qed.

(** Two lists of distinct items with the same root are the same list. *)
Lemma root_inj data data' :
  data <> [] -> data' <> [] -> NoDup data -> NoDup data' -> root (H := H) (merkle_new data) = root (merkle_new data') ->
  data = data' \/ collision H (tree_inputs H data) (tree_inputs H data').
Proof.
  intros Hd Hd' Hn Hn' Hr. destruct (root_tree data Hd) as (m & ext & Ht & He), (root_tree data' Hd') as (m' & ext' & Ht' & He').
  rewrite Hr in Ht. destruct (tree_inj _ _ _ _ _ _ _ Ht Ht') as [Hdata|]; [left|by right].
  assert (forall (l l' e e' : list (list Z)), l ++ e = l' ++ e' -> e ⊆ l -> NoDup l' -> (length l <= length l')%nat -> l = l') as Hprefix.
  { intros l l' e e' Heq' Hsub Hnd Hlen. pose proof (f_equal (take (length l')) Heq') as Ht1.
    rewrite take_app_length, take_app_ge in Ht1 by lia. rewrite <-Ht1 in Hnd. apply NoDup_app in Hnd as (_ & Hdisj & _).
    destruct (take (length l' - length l) e) as [|x t] eqn:Hx; [by rewrite app_nil_r in Ht1|].
    exfalso. apply (Hdisj x); [|set_solver]. apply Hsub. rewrite <-(take_drop (length l' - length l) e), Hx. set_solver. }
  destruct (Nat.le_ge_cases (length data) (length data')); [by eapply Hprefix|]. symmetry. by eapply Hprefix.
Qed.

(** Every item of a tree has a path: [path] finds one without a panic. *)
Lemma path_complete data d :
  d ∈ data -> exists p, path (H := H) (merkle_new data) d = Ok (Some p) /\ path_verify d p (root (merkle_new data)) = true.
Proof.
  intros Hd. destruct (new_rows data) as (m & h & ext & rows & Hn & Hlink & Hl & _); [by intros ->; apply not_elem_of_nil in Hd|].
  assert (last (nodes (merkle_new data)) = Some [h]) as Htop by (rewrite Hn, last_cons; by rewrite Hl).
  assert (exists i, force_even (map get_leaf_hash data) !! i = Some (get_leaf_hash (H := H) d)) as [i Hi].
  { apply (list_elem_of_fmap_2 get_leaf_hash), list_elem_of_lookup_1 in Hd as [i Hi]. exists i.
    unfold force_even. repeat case_match; try done. by apply lookup_app_l_Some. }
  destruct (index_of_found _ _ _ Hi) as (j & Hf & Hj). unfold path.
  replace (find_hash_index (merkle_new data) (get_leaf_hash d) 0) with (Ok (E := Empty_set) (Some j))
    by (unfold find_hash_index; rewrite Hn; cbn; by rewrite Hf). cbn [mbind res_bind].
  destruct (path_loop_spec (merkle_new data) h (length (nodes (merkle_new data)) - 1) 0 _ j _ Hlink Htop ltac:(lia) ltac:(by rewrite Hn) Hj)
    as (p & -> & Hc & Hlen). exists p. split; [done|]. unfold path_verify, root. rewrite Htop, Hc.
  rewrite (proj2 (Nat.ltb_ge _ _)); [by apply bool_decide_eq_true|]. rewrite Hlen, Hn. destruct rows; [done|]. cbn. lia.
Qed.

(** * Claims *)

(** The root determines the items: two lists of distinct items with the same
    root are the same list, or the computations of their roots have a collision of
    the hash.  Without distinct items they need not be, since a row of odd length
    repeats its last node. *)
Theorem root_binding data data' :
  data <> [] -> data' <> [] -> NoDup data -> NoDup data' -> root (H := H) (merkle_new data) = root (merkle_new data') ->
  data = data' \/ collision H (tree_inputs H data) (tree_inputs H data').
Proof. apply root_inj. Qed.

(** C26. Paths are exact: every item of a tree has a path, [path] finds one without
    a panic, and it verifies against the root; and a path that verifies against the
    root is that of an item of the tree, or the path and the tree have a collision of
    the hash. *)
Theorem path_exact data d :
  data <> [] ->
  (d ∈ data -> exists p, path (H := H) (merkle_new data) d = Ok (Some p) /\ path_verify d p (root (merkle_new data)) = true) /\
  (forall p, Forall (fun pt => length (bits (point_hash pt)) = size) p ->
     path_verify d p (root (H := H) (merkle_new data)) = true ->
     d ∈ data \/ collision H (path_inputs d p) (tree_inputs H data)).
Proof.
  intros Hd. split; [apply path_complete|]. intros p Hp Hv. unfold path_verify in Hv. destruct (_ <? 1)%nat; [done|].
  apply bool_decide_eq_true in Hv. destruct (root_tree data Hd) as (m & ext & Ht & He). rewrite <-Hv in Ht.
  destruct (climb_sound _ _ _ _ _ Hp Ht) as [Hin|]; [left; set_solver|by right].
Qed.
End facts.

(** * Witnesses *)

Module example.
(** A hash without collisions, into the integers. *)
#[local] Instance code_hash : MerkleHashFunc (list Z) :=
  {| hash_empty := [0]; from_tagged_data tag d := [Zpos (encode (tag :: d))]; bits h := h |}.
#[local] Instance code_laws : MerkleHashLaws (list Z) 1.
Proof. by split. Qed.
Definition items : list (list Z) := [[1]; [2; 3]; [4]].

(** The repetition of the last node: a fourth item like the third. *)
Lemma repeated_item_same_root : root (H := list Z) (merkle_new items) = root (merkle_new (items ++ [[4]])).
Proof. by vm_compute. Qed.

Lemma path_exact_witness :
  [2; 3] ∈ items /\
  ([2; 3] ∈ items -> exists p, path (H := list Z) (merkle_new items) [2; 3] = Ok (Some p) /\
     path_verify [2; 3] p (root (merkle_new items)) = true) /\
  (forall p, Forall (fun pt => length (bits (point_hash pt)) = 1%nat) p ->
     path_verify [2; 3] p (root (H := list Z) (merkle_new items)) = true ->
     [2; 3] ∈ items \/ collision (list Z) (path_inputs [2; 3] p) (tree_inputs (list Z) items)).
Proof.
  split; [apply elem_of_cons; right; apply elem_of_cons; by left|].
  refine (path_exact (size := 1) items [2; 3] _). discriminate.
Defined.
End example.
