(* ===== verification/Uint.v ===== *)
(** Big unsigned integers: the types that the macro construct_uint! of
    src/util/uint.rs makes, Uint256 (4 words) and Uint512 (8 words), with the order
    of impl_array_newtype! (src/util/macros.rs).  The theorem: the operations on
    words are arithmetic modulo the width, and division is exact. *)
From stdpp Require Import base numbers list.
From Stdlib Require Import ZArith Lia.
From S2P Require Import Prelude.
#[local] Open Scope Z_scope.

(** An integer is its words, the least significant first. *)
Notation Uint := (list Z) (only parsing).

Section uint.
Variable n_words : nat.

Definition uint_zero : Uint := replicate n_words 0.
Definition uint_from_u64 (init : Z) : Uint := <[O := init]> uint_zero.
Definition uint_one : Uint := uint_from_u64 1.
Definition uint_max : Uint := replicate n_words (2 ^ 64 - 1).
Definition uint_from_i64 (init : Z) : Res Empty_set Uint := if 0 <=? init then Ok (uint_from_u64 init) else Panic.
Definition uint_from_u128 (init : Z) : Uint :=
  <[1%nat := wrap 64 (Z.shiftr init 64)]> (<[O := wrap 64 (Z.land init (2 ^ 128 - 1))]> uint_zero).
Definition uint_low_u32 (self : Uint) : Z := wrap 32 (self !!! O).
Definition uint_low_u64 (self : Uint) : Z := self !!! O.

(** ** Bits *)

Definition uint_bitand (a b : Uint) : Uint := zip_with Z.land a b.
Definition uint_bitor (a b : Uint) : Uint := zip_with Z.lor a b.
Definition uint_bitxor (a b : Uint) : Uint := zip_with Z.lxor a b.
Definition uint_not (self : Uint) : Uint := map (fun w => 2 ^ 64 - 1 - w) self.

Definition leading_zeros (w : Z) : Z := if w =? 0 then 64 else 63 - Z.log2 w.
Fixpoint trailing_zeros_from (fuel : nat) (w : Z) : Z :=
  match fuel with
  | O => 0
  | S fuel => if Z.odd w then 0 else 1 + trailing_zeros_from fuel (w / 2)
  end.
Definition trailing_zeros (w : Z) : Z := trailing_zeros_from 64 w.

(** The loop from word [i] down to word 1. *)
Fixpoint bits_from (self : Uint) (i : nat) : Z :=
  match i with
  | O => 0x40 - leading_zeros (self !!! O)
  | S i' => if 0 <? self !!! i then 0x40 * (Z.of_nat i + 1) - leading_zeros (self !!! i) else bits_from self i'
  end.
Definition uint_bits (self : Uint) : Z := bits_from self (n_words - 1).

Definition uint_bit (self : Uint) (index : nat) : bool :=
  negb (Z.land (self !!! (index / 64)%nat) (Z.shiftl 1 (Z.of_nat index mod 64)) =? 0).

(** The loop from word [i]. *)
Fixpoint mask_from (i : nat) (arr : Uint) (n : Z) : Uint :=
  match arr with
  | [] => []
  | w :: arr =>
    if 0x40 * (Z.of_nat i + 1) <=? n then w :: mask_from (S i) arr n
    else Z.land w (Z.shiftl 1 (n - 0x40 * Z.of_nat i) - 1) :: map (fun _ => 0) arr
  end.
Definition uint_mask (self : Uint) (n : Z) : Uint := mask_from 0 self n.

Fixpoint trailing_zeros_words (i : nat) (arr : Uint) : Z :=
  match arr with
  | [] => 0
  | [w] => 0x40 * Z.of_nat i + trailing_zeros w
  | w :: arr => if 0 <? w then 0x40 * Z.of_nat i + trailing_zeros w else trailing_zeros_words (S i) arr
  end.
Definition uint_trailing_zeros (self : Uint) : Z := trailing_zeros_words 0 self.

(** ** Addition *)

Definition add_words (me you : Uint) : Uint := zip_with (fun m y => wrap 64 (m + y)) me you.
(** The carries: word [i] overflowed if its sum is smaller than its first operand;
    the overflow of the last word is lost. *)
Definition add_carry (me ret : Uint) : Uint := take n_words (0 :: zip_with (fun m r => if r <? m then 1 else 0) me ret).
(** Each round of the recursion moves the carries at least one word up, so that
    [n_words] rounds are enough. *)
Fixpoint add_rounds (fuel : nat) (me you : Uint) : Uint :=
  let ret := add_words me you in
  let carry := add_carry me ret in
  if existsb (fun c => c =? 1) carry then
    match fuel with
    | O => ret
    | S fuel => add_rounds fuel ret carry
    end
  else ret.
Definition uint_add (self other : Uint) : Uint := add_rounds n_words self other.
Definition uint_sub (self other : Uint) : Uint := uint_add (uint_add self (uint_not other)) uint_one.

(** ** Shifts *)

Definition add_at (i : nat) (x : Z) (ret : Uint) : Uint := alter (fun w => wrap 64 (w + x)) i ret.
Definition shl_step (original : Uint) (word_shift : nat) (bit_shift : Z) (ret : Uint) (i : nat) : Uint :=
  let ret :=
    if (i + word_shift <? n_words)%nat then add_at (i + word_shift) (wrap 64 (Z.shiftl (original !!! i) bit_shift)) ret else ret in
  if (0 <? bit_shift) && (i + word_shift + 1 <? n_words)%nat
  then add_at (i + word_shift + 1) (Z.shiftr (original !!! i) (64 - bit_shift)) ret
  else ret.
Definition uint_shl (self : Uint) (shift : nat) : Uint :=
  foldl (shl_step self (shift / 64) (Z.of_nat shift mod 64)) uint_zero (seq 0 n_words).

(** Word [i - word_shift] of the result is that of round [i]. *)
Definition shr_word (original : Uint) (bit_shift : Z) (i : nat) : Z :=
  let ret := Z.shiftr (original !!! i) bit_shift in
  if (0 <? bit_shift) && (i <? n_words - 1)%nat
  then wrap 64 (ret + wrap 64 (Z.shiftl (original !!! S i) (64 - bit_shift)))
  else ret.
Definition uint_shr (self : Uint) (shift : nat) : Uint :=
  let word_shift := (shift / 64)%nat in
  map (shr_word self (Z.of_nat shift mod 64)) (seq word_shift (n_words - word_shift)) ++ replicate (n_words - (n_words - word_shift)) 0.

Definition uint_bit_slice (self : Uint) (start end_ : nat) : Uint := uint_mask (uint_shr self start) (Z.of_nat (end_ - start)).

(** ** Multiplication *)

(** The word of the product and the carry to the next one. *)
Definition mul_u32_word (other w : Z) : Z * Z :=
  let upper := other * Z.shiftr w 32 in
  let lower := other * Z.land w 0xFFFFFFFF in
  let shifted := wrap 64 (Z.shiftl upper 32) in
  let sum := wrap 64 (lower + shifted) in
  let overflow := negb (sum =? lower + shifted) in
  (sum, Z.shiftr upper 32 + (if overflow then 1 else 0)).
Definition uint_mul_u32 (self : Uint) (other : Z) : Uint :=
  let words := map (mul_u32_word other) self in
  uint_add (map fst words) (take n_words (0 :: map snd words)).
Definition uint_mul (self other : Uint) : Uint :=
  foldl (fun me i =>
    let to_mul := uint_low_u32 (uint_shr other (32 * i)) in
    uint_add me (uint_shl (uint_mul_u32 self to_mul) (32 * i))) uint_zero (seq 0 (2 * n_words)).

(** ** Order and division *)

(** The comparison, from the most significant word. *)
Fixpoint cmp_rev (a b : list Z) : comparison :=
  match a, b with
  | x :: a, y :: b => if x <? y then Lt else if y <? x then Gt else cmp_rev a b
  | _, _ => Eq
  end.
Definition uint_cmp (self other : Uint) : comparison := cmp_rev (rev self) (rev other).
Definition uint_leb (a b : Uint) : bool := match uint_cmp a b with Gt => false | _ => true end.
Definition uint_ltb (a b : Uint) : bool := match uint_cmp a b with Lt => true | _ => false end.

(** The long division, down from bit [shift]. *)
Fixpoint div_loop (shift : nat) (sub_copy shift_copy ret : Uint) : Uint :=
  let '(ret, sub_copy) :=
    if uint_leb shift_copy sub_copy
    then (alter (fun w => Z.lor w (Z.shiftl 1 (Z.of_nat shift mod 64))) (shift / 64)%nat ret, uint_sub sub_copy shift_copy)
    else (ret, sub_copy) in
  let shift_copy := uint_shr shift_copy 1 in
  match shift with
  | O => ret
  | S shift => div_loop shift sub_copy shift_copy ret
  end.
Definition uint_div (self other : Uint) : Res Empty_set Uint :=
  let my_bits := uint_bits self in
  let your_bits := uint_bits other in
  if your_bits =? 0 then Panic
  else if my_bits <? your_bits then Ok uint_zero
  else
    let shift := Z.to_nat (my_bits - your_bits) in
    Ok (div_loop shift self (uint_shl other shift) uint_zero).

(** The bytes, little-endian. *)
Definition uint_to_u8_slice (self : Uint) : list Z := mjoin (map (fun w => rev (be_encode 8 w)) self).
End uint.

Definition Uint256_increment (self : Uint) : Uint :=
  let incr i arr := alter (fun w => wrap 64 (w + 1)) i arr in
  let arr := incr 0%nat self in
  if arr !!! 0%nat =? 0 then
    let arr := incr 1%nat arr in
    if arr !!! 1%nat =? 0 then
      let arr := incr 2%nat arr in
      if arr !!! 2%nat =? 0 then incr 3%nat arr else arr
    else arr
  else arr.
Definition Uint512_from_uint256 (n : Uint) : Uint := map (fun i => n !!! i) (seq 0 4) ++ replicate 4 0.
Definition Uint512_to_uint256 (self : Uint) : Uint := map (fun i => self !!! i) (seq 0 4).

(** * The integers of words *)

Fixpoint value (a : Uint) : Z :=
  match a with
  | [] => 0
  | w :: a => w + 2 ^ 64 * value a
  end.
(** The integers of [n] words are below [width n]. *)
Definition width (n : nat) : Z := 2 ^ (64 * Z.of_nat n).
Definition words_ok (n : nat) (a : Uint) : Prop := length a = n /\ Forall (in_u 64) a.

Lemma width_S n : width (S n) = 2 ^ 64 * width n.
Proof. unfold width. rewrite Nat2Z.inj_succ, Z.mul_succ_r, Z.pow_add_r by lia. lia. Qed.
Lemma width_0 : width 0 = 1.
Proof. done. Qed.
Lemma width_pos n : 0 < width n.
Proof. apply Z.pow_pos_nonneg; lia. Qed.
Lemma value_bound n a : words_ok n a -> 0 <= value a < width n.
Proof.
  intros [<- Ha]. induction Ha as [|w a Hw _ IH]; cbn [value length]; [rewrite width_0; lia|].
  rewrite width_S. unfold in_u in Hw. lia.
Qed.
Lemma value_app a b : value (a ++ b) = value a + width (length a) * value b.
Proof. induction a as [|w a IH]; cbn [value length app]; [rewrite width_0; lia|]. rewrite IH, width_S. lia. Qed.
Lemma value_zeros k : value (replicate k 0) = 0.
Proof. induction k; cbn [value replicate]; lia. Qed.
Lemma value_take n a : words_ok (length a) a -> value (take n a) = value a mod width n.
Proof.
  intros [_ Ha]. rewrite <-(take_drop n a) at 2. rewrite value_app.
  destruct (decide (n <= length a)%nat) as [Hn|Hn].
  - rewrite length_take_le by done. rewrite Z.mul_comm, Z.mod_add by (pose proof (width_pos n); lia).
    rewrite Z.mod_small; [done|]. apply value_bound. split; [by apply length_take_le|by apply Forall_take].
  - rewrite take_ge, drop_ge by lia. cbn [value]. rewrite Z.mul_0_r, Z.add_0_r. symmetry. apply Z.mod_small.
    pose proof (value_bound (length a) a (conj eq_refl Ha)). enough (width (length a) <= width n) by lia.
    apply Z.pow_le_mono_r; lia.
Qed.
Lemma value_inj n a b : words_ok n a -> words_ok n b -> value a = value b -> a = b.
Proof.
  intros [<- Ha] [Hl Hb]. revert b Hl Hb. induction Ha as [|w a Hw _ IH]; intros [|v b] Hl Hb Heq; try done.
  apply Forall_cons in Hb as [Hv Hb]. cbn [value] in Heq. unfold in_u in *. cbn in Hl.
  assert (w = v /\ value a = value b) as [-> Hab] by lia. f_equal. apply IH; [lia|done..].
Qed.

(** ** Addition *)

(** Carries of the words [cs], moved one word up. *)
Lemma value_carry n cs :
  words_ok n cs -> words_ok n (take n (0 :: cs)) /\ value (take n (0 :: cs)) = (2 ^ 64 * value cs) mod width n.
Proof.
  intros [Hl Hc]. assert (Forall (in_u 64) (0 :: cs)) as H0 by (constructor; [done|done]). split.
  - split; [rewrite length_take; cbn; lia|by apply Forall_take].
  - rewrite value_take; [|by split]. cbn [value]. by rewrite Z.add_0_l.
Qed.
Lemma add_mod_split n r c s x :
  words_ok n r -> value r + 2 ^ 64 * c = s -> x = (2 ^ 64 * c) mod width n -> (value r + x) mod width n = s mod width n.
Proof. intros _ <- ->. rewrite Zplus_mod_idemp_r. done. Qed.

Definition overflowed (m r : Z) : Z := if r <? m then 1 else 0.
Lemma add_word m y : in_u 64 m -> in_u 64 y ->
  in_u 64 (wrap 64 (m + y)) /\ wrap 64 (m + y) + 2 ^ 64 * overflowed m (wrap 64 (m + y)) = m + y.
Proof.
  unfold in_u, wrap, overflowed. intros Hm Hy. split; [apply Z.mod_pos_bound; lia|].
  destruct (decide (m + y < 2 ^ 64)) as [Hs|Hs].
  - rewrite Z.mod_small by lia. destruct (m + y <? m) eqn:E; lia.
  - rewrite <-(Z.mod_add (m + y) (-1)), Z.mod_small by lia. destruct (m + y + -1 * 2 ^ 64 <? m) eqn:E; lia.
Qed.
Lemma add_words_value n me you :
  words_ok n me -> words_ok n you ->
  words_ok n (add_words me you) /\ words_ok n (zip_with overflowed me (add_words me you)) /\
  value (add_words me you) + 2 ^ 64 * value (zip_with overflowed me (add_words me you)) = value me + value you.
Proof.
  intros [<- Hm] [Hl Hy]. revert you Hl Hy. unfold words_ok.
  induction Hm as [|m me Hm _ IH]; intros [|y you] Hl Hy; cbn in *; try done.
  apply Forall_cons in Hy as [Hy Hys]. destruct (add_word m y Hm Hy) as [Hw Hv].
  destruct (IH you ltac:(lia) Hys) as ([H1 H2] & [H3 H4] & H5). unfold add_words in *. cbn in *. split_and!.
  - lia.
  - by constructor.
  - lia.
  - constructor; [unfold overflowed; by destruct (_ <? _)|done].
  - lia.
Qed.
Lemma no_overflow k me you :
  Forall (in_u 64) me -> Forall (eq 0) (take k you) -> Forall (eq 0) (take k (zip_with overflowed me (add_words me you))).
Proof.
  intros Hm. revert k you. induction Hm as [|m me Hm _ IH]; intros [|k] [|y you] Hy; cbn in *; try by constructor.
  apply Forall_cons in Hy as [<- Hy]. constructor; [|by apply IH]. unfold overflowed.
  rewrite Z.add_0_r, wrap_small by done. by rewrite Z.ltb_irrefl.
Qed.

Lemma zero_words l : Forall (eq 0) l -> value l = 0 /\ existsb (fun c => c =? 1) l = false.
Proof. induction 1 as [|? l <- _ [Hv He]]; cbn [value existsb]; [done|]. rewrite Hv, He. by split. Qed.
Lemma no_carry l : Forall (fun c => c = 0 \/ c = 1) l -> existsb (fun c => c =? 1) l = false -> Forall (eq 0) l.
Proof.
  induction 1 as [|c l Hc _ IH]; cbn [existsb]; intros He; [done|]. apply orb_false_iff in He as [E He].
  apply Z.eqb_neq in E. constructor; [lia|auto].
Qed.
Lemma carry_flags n me ret : Forall (fun c => c = 0 \/ c = 1) (take n (0 :: zip_with overflowed me ret)).
Proof.
  apply Forall_take. constructor; [by left|]. apply Forall_forall. intros c Hc. apply list_elem_of_lookup in Hc as [i Hi].
  apply lookup_zip_with_Some in Hi as (? & ? & -> & _). unfold overflowed. destruct (_ <? _); auto.
Qed.
Lemma carry_zeros n k me you :
  Forall (in_u 64) me -> Forall (eq 0) (take k you) -> Forall (eq 0) (take (S k) (take n (0 :: zip_with overflowed me (add_words me you)))).
Proof.
  intros Hm Hy. rewrite take_take, Nat.min_comm, <-take_take. apply Forall_take. cbn [take]. constructor; [done|]. by apply no_overflow.
Qed.

Lemma add_rounds_value n fuel : forall me you,
  words_ok n me -> words_ok n you -> Forall (eq 0) (take (n - S fuel) you) ->
  words_ok n (add_rounds n fuel me you) /\ value (add_rounds n fuel me you) = (value me + value you) mod width n.
Proof.
  induction fuel as [|fuel IH]; intros me you Hm Hy Hz.
  all: destruct (add_words_value n me you Hm Hy) as (Hr & Hc & Hs).
  all: destruct (value_carry n _ Hc) as [Hco Hcv]; cbn [add_rounds].
  all: pose proof (carry_flags n me (add_words me you)) as Hf; pose proof (carry_zeros n _ me you (proj2 Hm) Hz) as Hcz.
  all: change (add_carry n me (add_words me you)) with (take n (0 :: zip_with overflowed me (add_words me you))).
  all: set (carry := take n (0 :: zip_with overflowed me (add_words me you))) in *.
  all: assert (words_ok n (add_words me you) /\ (value carry = 0 -> value (add_words me you) = (value me + value you) mod width n)) as Hdone
    by (split; [done|]; intros H0; rewrite <-(add_mod_split n _ _ _ _ Hr Hs Hcv), H0, Z.add_0_r, Z.mod_small; [done|by apply value_bound]).
  all: destruct (existsb _ carry) eqn:He; [|split; [done|apply Hdone, zero_words, no_carry; done]].
  - rewrite take_ge in Hcz by (destruct Hco; lia). apply zero_words in Hcz as [_ E]. congruence.
  - destruct (IH _ carry Hr Hco) as [Ho Hv].
    { destruct (n - S fuel)%nat as [|k] eqn:Ek; [constructor|]. replace (n - S (S fuel))%nat with k in Hcz by lia. done. }
    split; [done|]. rewrite Hv. by eapply add_mod_split.
Qed.
Lemma uint_add_value n a b :
  words_ok n a -> words_ok n b -> words_ok n (uint_add n a b) /\ value (uint_add n a b) = (value a + value b) mod width n.
Proof. intros Ha Hb. apply add_rounds_value; [done..|]. replace (n - S n)%nat with 0%nat by lia. constructor. Qed.

Lemma zero_ok n : words_ok n (uint_zero n) /\ value (uint_zero n) = 0.
Proof. split; [|apply value_zeros]. split; [apply length_replicate|by apply Forall_replicate]. Qed.
Lemma from_u64_ok n x : in_u 64 x -> words_ok (S n) (uint_from_u64 (S n) x) /\ value (uint_from_u64 (S n) x) = x.
Proof.
  intros Hx. unfold uint_from_u64, uint_zero. cbn [replicate]. split.
  - split; [cbn; by rewrite length_replicate|]. constructor; [done|by apply Forall_replicate].
  - cbn [value insert list_insert]. rewrite value_zeros. lia.
Qed.
Lemma not_ok n a : words_ok n a -> words_ok n (uint_not a) /\ value (uint_not a) = width n - 1 - value a.
Proof.
  intros [<- Ha]. unfold words_ok, uint_not. rewrite length_map.
  induction Ha as [|w a Hw _ [[_ IH] IHv]]; [done|]. unfold in_u in *. cbn [map value length].
  rewrite width_S. split; [|lia]. split; [done|]. constructor; [unfold in_u; lia|done].
Qed.
Lemma uint_sub_value n a b :
  words_ok (S n) a -> words_ok (S n) b -> words_ok (S n) (uint_sub (S n) a b) /\ value (uint_sub (S n) a b) = (value a - value b) mod width (S n).
Proof.
  intros Ha Hb. destruct (not_ok _ b Hb) as [Hn Hnv]. destruct (uint_add_value _ a _ Ha Hn) as [H1 H1v].
  destruct (from_u64_ok n 1 ltac:(done)) as [Ho Hov]. destruct (uint_add_value _ _ _ H1 Ho) as [H2 H2v].
  split; [exact H2|]. unfold uint_sub, uint_one. rewrite H2v, H1v, Hov, Hnv, Zplus_mod_idemp_l.
  replace (value a + (width (S n) - 1 - value b) + 1) with (value a - value b + 1 * width (S n)) by lia.
  apply Z.mod_add. pose proof (width_pos (S n)). lia.
Qed.

(** ** Multiplication by a word *)

Lemma land_low_bits w k : 0 <= k -> Z.land w (2 ^ k - 1) = w mod 2 ^ k.
Proof. intros Hk. rewrite <-Z.land_ones by done. by rewrite Z.ones_equiv, <-Z.sub_1_r. Qed.
Lemma mul_u32_word_ok other w :
  in_u 32 other -> in_u 64 w ->
  in_u 64 (mul_u32_word other w).1 /\ in_u 64 (mul_u32_word other w).2 /\
  (mul_u32_word other w).1 + 2 ^ 64 * (mul_u32_word other w).2 = other * w.
Proof.
  unfold in_u, mul_u32_word, wrap. intros Ho Hw. cbn [fst snd]. rewrite !Z.shiftr_div_pow2, !Z.shiftl_mul_pow2 by lia.
  change 0xFFFFFFFF with (2 ^ 32 - 1). rewrite land_low_bits by done.
  set (hi := w / 2 ^ 32). set (lo := w mod 2 ^ 32).
  assert (w = hi * 2 ^ 32 + lo) as Hwe by (pose proof (Z.div_mod w (2 ^ 32)); unfold hi, lo; lia).
  assert (0 <= lo < 2 ^ 32) as Hlo by (apply Z.mod_pos_bound; lia).
  assert (0 <= hi < 2 ^ 32) as Hhi by (split; [apply Z.div_pos; lia|apply Z.div_lt_upper_bound; lia]).
  set (upper := other * hi). set (lower := other * lo).
  assert (0 <= upper <= (2 ^ 32 - 1) * (2 ^ 32 - 1)) as Hu by (unfold upper; nia).
  assert (0 <= lower <= (2 ^ 32 - 1) * (2 ^ 32 - 1)) as Hl by (unfold lower; nia).
  assert (other * w = upper * 2 ^ 32 + lower) as -> by (unfold upper, lower; rewrite Hwe; lia).
  assert ((upper * 2 ^ 32) mod 2 ^ 64 = (upper mod 2 ^ 32) * 2 ^ 32) as Hsh.
  { change (2 ^ 64) with (2 ^ 32 * 2 ^ 32). by rewrite Z.mul_mod_distr_r. }
  rewrite Hsh. pose proof (Z.div_mod upper (2 ^ 32) ltac:(done)) as Hud. pose proof (Z.mod_pos_bound upper (2 ^ 32) ltac:(done)) as Hum.
  assert (0 <= upper / 2 ^ 32 < 2 ^ 32) as Huh by (split; [apply Z.div_pos; lia|apply Z.div_lt_upper_bound; lia]).
  set (s := lower + upper mod 2 ^ 32 * 2 ^ 32) in *. split_and!; try (destruct (negb _); lia); try (apply Z.mod_pos_bound; lia).
  destruct (decide (s < 2 ^ 64)) as [Hs|Hs].
  - rewrite Z.mod_small by lia. rewrite Z.eqb_refl. cbn. lia.
  - assert (s mod 2 ^ 64 = s - 2 ^ 64) as -> by (rewrite <-(Z.mod_add s (-1)), Z.mod_small; lia).
    destruct (negb _) eqn:E; [lia|]. apply negb_false_iff, Z.eqb_eq in E. lia.
Qed.
Lemma mul_u32_value n a x :
  words_ok n a -> in_u 32 x -> words_ok n (uint_mul_u32 n a x) /\ value (uint_mul_u32 n a x) = (x * value a) mod width n.
Proof.
  intros Ha Hx.
  assert (words_ok n (map fst (map (mul_u32_word x) a)) /\ words_ok n (map snd (map (mul_u32_word x) a)) /\
    value (map fst (map (mul_u32_word x) a)) + 2 ^ 64 * value (map snd (map (mul_u32_word x) a)) = x * value a) as (Hr & Hc & Hs).
  { destruct Ha as [<- Ha]. unfold words_ok. rewrite !length_map. induction Ha as [|w a Hw _ ([_ IH1] & [_ IH2] & IHv)]; [by repeat split; cbn; try lia|].
    destruct (mul_u32_word_ok x w Hx Hw) as (H1 & H2 & Hv). cbn [map value] in *. repeat split; try (constructor; done). lia. }
  destruct (value_carry n _ Hc) as [Hco Hcv]. destruct (uint_add_value n _ _ Hr Hco) as [Ho Hv]. split; [exact Ho|].
  unfold uint_mul_u32. rewrite Hv. by eapply add_mod_split.
Qed.

(** ** Shifts *)

Lemma width_add a b : width (a + b) = width a * width b.
Proof. unfold width. rewrite Nat2Z.inj_add, Z.mul_add_distr_l, Z.pow_add_r by lia. done. Qed.
Lemma shift_split (shift : nat) : 2 ^ Z.of_nat shift = width (shift / 64) * 2 ^ (Z.of_nat shift mod 64).
Proof.
  unfold width. rewrite <-Z.pow_add_r by (try apply Z.mod_pos_bound; lia). f_equal.
  rewrite Nat2Z.inj_div. pose proof (Z.div_mod (Z.of_nat shift) 64). lia.
Qed.
Lemma value_at n a k :
  words_ok n a -> (k < n)%nat -> value a = value (take k a) + width k * (a !!! k + 2 ^ 64 * value (drop (S k) a)).
Proof.
  intros [Hl _] Hk. rewrite <-(take_drop k a) at 1. rewrite value_app, length_take_le by lia. f_equal. f_equal.
  rewrite (drop_S a (a !!! k) k); [done|]. apply list_lookup_lookup_total_lt. lia.
Qed.
Lemma words_part n a k : words_ok n a -> words_ok (length (take k a)) (take k a) /\ words_ok (length (drop k a)) (drop k a).
Proof. intros [_ Ha]. split; (split; [done|]); [by apply Forall_take|by apply Forall_drop]. Qed.
(** An integer below [b] units of word [k] has a word below [b] there. *)
Lemma word_bound n a k b :
  words_ok n a -> (k < n)%nat -> b <= 2 ^ 64 -> value a < width k * b -> 0 <= a !!! k < b.
Proof.
  intros Ha Hk Hb Hv. rewrite (value_at n a k Ha Hk) in Hv. destruct (words_part n a k Ha) as [Ht _], (words_part n a (S k) Ha) as [_ Hd].
  apply value_bound in Ht, Hd. pose proof (width_pos k).
  assert (in_u 64 (a !!! k)) as Hw.
  { destruct Ha as [Hl Ha]. rewrite Forall_lookup in Ha. apply (Ha k). apply list_lookup_lookup_total_lt. lia. }
  unfold in_u in Hw. split; [lia|]. assert (a !!! k + 2 ^ 64 * value (drop (S k) a) < b) by nia. lia.
Qed.
Lemma alter_value n f a k :
  words_ok n a -> (k < n)%nat -> in_u 64 (f (a !!! k)) ->
  words_ok n (alter f k a) /\ value (alter f k a) = value a + (f (a !!! k) - a !!! k) * width k.
Proof.
  intros Ha Hk Hw. destruct (Ha) as [Hl Hf].
  assert (alter f k a = take k a ++ f (a !!! k) :: drop (S k) a) as E.
  { assert (a !! k = Some (a !!! k)) as Hl' by (apply list_lookup_lookup_total_lt; lia).
    transitivity (alter f k (take k a ++ a !!! k :: drop (S k) a)); [by rewrite take_drop_middle|].
    rewrite alter_app_r_alt, length_take_le, Nat.sub_diag by (rewrite ?length_take_le; lia). done. }
  split.
  - split; [by rewrite length_alter|]. rewrite E. apply Forall_app. split; [by apply Forall_take|]. constructor; [done|by apply Forall_drop].
  - rewrite E, value_app, length_take_le by lia. rewrite (value_at n a k Ha Hk). cbn [value]. lia.
Qed.
Lemma add_at_value n a k x :
  words_ok n a -> (k < n)%nat -> in_u 64 (a !!! k + x) ->
  words_ok n (add_at k x a) /\ value (add_at k x a) = value a + x * width k.
Proof.
  intros Ha Hk Hw. unfold add_at. destruct (alter_value n (fun w => wrap 64 (w + x)) a k Ha Hk) as [Ho ->].
  - by rewrite wrap_small.
  - split; [done|]. rewrite wrap_small by done. lia.
Qed.

Lemma shl_word o b : in_u 64 o -> 0 <= b < 64 ->
  let lo := wrap 64 (Z.shiftl o b) in let hi := Z.shiftr o (64 - b) in
  o * 2 ^ b = lo + 2 ^ 64 * hi /\ 0 <= lo <= 2 ^ 64 - 2 ^ b /\ 0 <= hi < 2 ^ 64 /\ (b = 0 -> hi = 0).
Proof.
  unfold in_u, wrap. cbn zeta. intros Ho Hb. rewrite Z.shiftl_mul_pow2, Z.shiftr_div_pow2 by lia.
  assert (2 ^ 64 = 2 ^ (64 - b) * 2 ^ b) as Hp by (rewrite <-Z.pow_add_r by lia; f_equal; lia).
  assert (0 < 2 ^ b) by (apply Z.pow_pos_nonneg; lia). assert (0 < 2 ^ (64 - b)) by (apply Z.pow_pos_nonneg; lia).
  rewrite Hp, Z.mul_mod_distr_r by lia.
  pose proof (Z.div_mod o (2 ^ (64 - b)) ltac:(lia)) as Hd. pose proof (Z.mod_pos_bound o (2 ^ (64 - b)) ltac:(lia)) as Hm.
  set (q := o / 2 ^ (64 - b)) in *. set (r := o mod 2 ^ (64 - b)) in *.
  assert (0 <= q) by (apply Z.div_pos; lia). split_and!; try nia.
  - intros ->. apply Z.div_small. rewrite Z.sub_0_r. lia.
Qed.

Lemma mod_drop n k x y : (n <= k)%nat -> (x + y * width k) mod width n = x mod width n.
Proof.
  intros Hk. replace k with (k - n + n)%nat by lia. rewrite width_add, Z.mul_assoc. apply Z.mod_add.
  pose proof (width_pos n). lia.
Qed.
(** The two additions of a round at words [k] and [k + 1]. *)
Lemma shl_adds n ret k B lo hi (carry : bool) :
  words_ok n ret -> 1 <= B <= 2 ^ 63 -> 0 <= lo <= 2 ^ 64 - B -> 0 <= hi < 2 ^ 64 -> (carry = false -> hi = 0) ->
  ((k < n)%nat -> value ret < width k * B) ->
  let ret1 := if (k <? n)%nat then add_at k lo ret else ret in
  let ret2 := if carry && (k + 1 <? n)%nat then add_at (k + 1) hi ret1 else ret1 in
  words_ok n ret2 /\ value ret2 = (value ret + lo * width k + hi * width (k + 1)) mod width n.
Proof.
  intros Hr HB Hlo Hhi Hc Hv. cbn zeta. destruct (k <? n)%nat eqn:Ek.
  - apply Nat.ltb_lt in Ek. pose proof (word_bound n ret k B Hr Ek ltac:(lia) (Hv Ek)) as Hw.
    destruct (add_at_value n ret k lo Hr Ek) as [H1 H1v]; [unfold in_u; lia|].
    assert (value (add_at k lo ret) < width (k + 1) * 1) as Hlt.
    { rewrite H1v, width_add. change (width 1) with (2 ^ 64). pose proof (Hv Ek). pose proof (width_pos k). nia. }
    destruct (k + 1 <? n)%nat eqn:E1.
    + apply Nat.ltb_lt in E1. pose proof (word_bound n _ (k + 1) 1 H1 E1 ltac:(lia) Hlt) as Hz.
      destruct (add_at_value n _ (k + 1) hi H1 E1) as [H2 H2v]; [unfold in_u; lia|].
      destruct carry; cbn [andb].
      * split; [done|]. rewrite <-H1v, <-H2v. symmetry. apply Z.mod_small. by apply value_bound.
      * rewrite (Hc eq_refl), Z.mul_0_l, Z.add_0_r. split; [done|]. rewrite <-H1v. symmetry. apply Z.mod_small. by apply value_bound.
    + rewrite andb_false_r. split; [done|]. apply Nat.ltb_ge in E1. rewrite mod_drop by done. rewrite <-H1v. symmetry. apply Z.mod_small. by apply value_bound.
  - apply Nat.ltb_ge in Ek. rewrite (proj2 (Nat.ltb_ge (k + 1) n)), andb_false_r by lia. split; [done|].
    rewrite !mod_drop by lia. symmetry. apply Z.mod_small. by apply value_bound.
Qed.

Lemma shl_step_value n a shift ret m :
  words_ok n a -> words_ok n ret -> (m < n)%nat ->
  value ret = (value (take m a) * 2 ^ Z.of_nat shift) mod width n ->
  let ret' := shl_step n a (shift / 64) (Z.of_nat shift mod 64) ret m in
  words_ok n ret' /\ value ret' = (value (take (S m) a) * 2 ^ Z.of_nat shift) mod width n.
Proof.
  intros Ha Hr Hm Hv. set (ws := (shift / 64)%nat). set (b := Z.of_nat shift mod 64).
  assert (0 <= b < 64) as Hb by (apply Z.mod_pos_bound; lia). pose proof (shift_split shift) as Hsh. fold ws b in Hsh.
  assert (1 <= 2 ^ b <= 2 ^ 63) as Hb2 by (split; [pose proof (Z.pow_pos_nonneg 2 b); lia|apply Z.pow_le_mono_r; lia]).
  assert (a !! m = Some (a !!! m)) as Hlook by (apply list_lookup_lookup_total_lt; destruct Ha; lia).
  assert (in_u 64 (a !!! m)) as Ho by (destruct Ha as [_ Ha]; rewrite Forall_lookup in Ha; by apply (Ha m)).
  assert (value (take (S m) a) = value (take m a) + width m * (a !!! m)) as Hnext.
  { rewrite (take_S_r _ _ _ Hlook), value_app, length_take_le by (destruct Ha; lia). cbn [value]. lia. }
  destruct (shl_word (a !!! m) b Ho Hb) as (Hsplit & Hlo & Hhi & Hb0). cbn zeta in *.
  set (lo := wrap 64 (Z.shiftl (a !!! m) b)) in *. set (hi := Z.shiftr (a !!! m) (64 - b)) in *.
  destruct (shl_adds n ret (m + ws) (2 ^ b) lo hi (0 <? b)) as [H1 H2]; try done.
  - intros E%Z.ltb_ge. apply Hb0. lia.
  - intros Hk. rewrite Hv. apply (Z.le_lt_trans _ (value (take m a) * 2 ^ Z.of_nat shift)).
    { apply Z.mod_le; [|apply width_pos]. apply Z.mul_nonneg_nonneg; [|lia]. apply (value_bound _ _ (proj1 (words_part n a m Ha))). }
    rewrite Hsh, width_add. pose proof (value_bound _ _ (proj1 (words_part n a m Ha))) as Ht. rewrite length_take_le in Ht by (destruct Ha; lia).
    pose proof (width_pos ws). assert (0 < width ws * 2 ^ b) by nia. nia.
  - split; [exact H1|]. unfold shl_step. fold lo hi. rewrite H2, Hv, Hnext, <-Z.add_assoc, Zplus_mod_idemp_l. f_equal.
    rewrite Hsh, !width_add. change (width 1) with (2 ^ 64).
    replace ((value (take m a) + width m * a !!! m) * (width ws * 2 ^ b))
      with (value (take m a) * (width ws * 2 ^ b) + width m * width ws * (a !!! m * 2 ^ b)) by lia. rewrite Hsplit. lia.
Qed.
Lemma uint_shl_value n a shift :
  words_ok n a -> words_ok n (uint_shl n a shift) /\ value (uint_shl n a shift) = (value a * 2 ^ Z.of_nat shift) mod width n.
Proof.
  intros Ha. unfold uint_shl.
  enough (forall m, (m <= n)%nat -> let r := foldl (shl_step n a (shift / 64) (Z.of_nat shift mod 64)) (uint_zero n) (seq 0 m) in
    words_ok n r /\ value r = (value (take m a) * 2 ^ Z.of_nat shift) mod width n) as Hloop.
  { specialize (Hloop n (le_n n)). cbn zeta in Hloop. rewrite take_ge in Hloop by (destruct Ha; lia). done. }
  induction m as [|m IH]; intros Hm; cbn zeta.
  - cbn [seq foldl take value]. destruct (zero_ok n) as [? ->]. by rewrite Z.mul_0_l, Z.mod_0_l by (pose proof (width_pos n); lia).
  - rewrite seq_S, foldl_app. cbn [foldl]. destruct (IH ltac:(lia)) as [H1 H2]. by apply shl_step_value.
Qed.

Fixpoint shr_list (b : Z) (l : list Z) : list Z :=
  match l with
  | [] => []
  | w :: l' =>
    (match l' with
     | v :: _ => if 0 <? b then wrap 64 (Z.shiftr w b + wrap 64 (Z.shiftl v (64 - b))) else Z.shiftr w b
     | [] => Z.shiftr w b
     end) :: shr_list b l'
  end.
Lemma shr_list_words n a b k : forall i,
  words_ok n a -> (i + k = n)%nat -> map (shr_word n a b) (seq i k) = shr_list b (drop i a).
Proof.
  induction k as [|k IH]; intros i Ha Hi.
  - rewrite drop_ge by (destruct Ha; lia). done.
  - destruct (Ha) as [Hl _]. rewrite (drop_S a (a !!! i) i) by (apply list_lookup_lookup_total_lt; lia).
    cbn [seq map shr_list]. rewrite <-IH by (done || lia). f_equal. unfold shr_word.
    destruct (decide (S i < n)%nat) as [Hs|Hs].
    + rewrite (drop_S a (a !!! S i) (S i)) by (apply list_lookup_lookup_total_lt; lia).
      rewrite (proj2 (Nat.ltb_lt i (n - 1))), andb_true_r by lia. done.
    + rewrite drop_ge by lia. by rewrite (proj2 (Nat.ltb_ge i (n - 1))), andb_false_r by lia.
Qed.
Lemma div_pow_split x y b : 0 <= b <= 64 -> (x + 2 ^ 64 * y) / 2 ^ b = x / 2 ^ b + 2 ^ (64 - b) * y.
Proof.
  intros Hb. replace (2 ^ 64 * y) with (2 ^ (64 - b) * y * 2 ^ b).
  - apply Z.div_add. assert (0 < 2 ^ b) by (apply Z.pow_pos_nonneg; lia). lia.
  - rewrite (Z.mul_comm _ y), <-Z.mul_assoc, <-Z.pow_add_r by lia. replace (64 - b + b) with 64 by lia. lia.
Qed.
Lemma shr_list_value l b : Forall (in_u 64) l -> 0 <= b < 64 -> Forall (in_u 64) (shr_list b l) /\ value (shr_list b l) = value l / 2 ^ b.
Proof.
  intros Hl Hb. assert (0 < 2 ^ b) as Hpos by (apply Z.pow_pos_nonneg; lia).
  assert (forall w, in_u 64 w -> 0 <= w / 2 ^ b < 2 ^ (64 - b)) as Hhigh.
  { intros w Hw. unfold in_u in Hw. split; [apply Z.div_pos; lia|]. apply Z.div_lt_upper_bound; [lia|].
    rewrite <-Z.pow_add_r by lia. replace (b + (64 - b)) with 64 by lia. lia. }
  assert (2 ^ (64 - b) <= 2 ^ 64) as Hle by (apply Z.pow_le_mono_r; lia).
  induction Hl as [|w l Hw Hl [IHf IHv]]; cbn [shr_list value]; [split; [constructor|]; by rewrite Z.div_0_l by lia|].
  specialize (Hhigh w Hw). rewrite IHv, div_pow_split by lia. rewrite Z.shiftr_div_pow2 by lia.
  destruct l as [|v l]; [cbn [value]; rewrite Z.div_0_l by lia; split; [constructor; [unfold in_u; lia|done]|lia]|].
  apply Forall_cons in Hl as [Hv _]. unfold in_u in Hv. destruct (0 <? b) eqn:Eb.
  - apply Z.ltb_lt in Eb. rewrite Z.shiftl_mul_pow2 by lia.
    assert (wrap 64 (v * 2 ^ (64 - b)) = (v mod 2 ^ b) * 2 ^ (64 - b)) as ->.
    { unfold wrap. replace (2 ^ 64) with (2 ^ b * 2 ^ (64 - b)) by (rewrite <-Z.pow_add_r by lia; f_equal; lia).
      apply Z.mul_mod_distr_r; [lia|]. assert (0 < 2 ^ (64 - b)) by (apply Z.pow_pos_nonneg; lia). lia. }
    pose proof (Z.mod_pos_bound v (2 ^ b) Hpos) as Hm.
    assert (2 ^ 64 = 2 ^ b * 2 ^ (64 - b)) as Hp by (rewrite <-Z.pow_add_r by lia; f_equal; lia).
    assert (in_u 64 (w / 2 ^ b + v mod 2 ^ b * 2 ^ (64 - b))) as Hin by (unfold in_u; nia).
    rewrite wrap_small by done. split; [by constructor|].
    assert (value (v :: l) = 2 ^ b * (value (v :: l) / 2 ^ b) + v mod 2 ^ b) as Hval.
    { rewrite (Z.div_mod (value (v :: l)) (2 ^ b)) at 1 by lia. f_equal. cbn [value].
      replace (2 ^ 64 * value l) with (2 ^ (64 - b) * value l * 2 ^ b) by (rewrite Hp; lia). apply Z.mod_add. lia. }
    rewrite Hp. set (q := value (v :: l) / 2 ^ b) in *. rewrite Hval. ring.
  - apply Z.ltb_ge in Eb. replace b with 0 in * by lia. rewrite Z.sub_0_r. split; [constructor; [unfold in_u; lia|done]|].
    rewrite !Z.div_1_r. lia.
Qed.
Lemma uint_shr_value n a shift :
  words_ok n a -> words_ok n (uint_shr n a shift) /\ value (uint_shr n a shift) = value a / 2 ^ Z.of_nat shift.
Proof.
  intros Ha. unfold uint_shr. set (ws := (shift / 64)%nat). set (b := Z.of_nat shift mod 64).
  assert (0 <= b < 64) as Hb by (apply Z.mod_pos_bound; lia). rewrite shift_split. fold ws b.
  assert (map (shr_word n a b) (seq ws (n - ws)) = shr_list b (drop ws a)) as ->.
  { destruct (decide (ws <= n)%nat); [apply shr_list_words; [done|lia]|].
    replace (n - ws)%nat with 0%nat by lia. by rewrite drop_ge by (destruct Ha; lia). }
  destruct (shr_list_value (drop ws a) b) as [Hf Hv]; [by apply Forall_drop; destruct Ha|done|].
  assert (length (shr_list b (drop ws a)) = (n - ws)%nat) as Hlen.
  { destruct Ha as [<- _]. rewrite <-length_drop. generalize (drop ws a). intros l. induction l; cbn; [done|by f_equal]. }
  rewrite value_app, value_zeros, Z.mul_0_r, Z.add_0_r. split.
  - split; [rewrite length_app, Hlen, length_replicate; lia|]. apply Forall_app. split; [done|by apply Forall_replicate].
  - rewrite Hv, <-Z.div_div by (try (pose proof (width_pos ws)); try (apply Z.pow_pos_nonneg); lia). f_equal.
    rewrite <-(take_drop ws a) at 2. rewrite value_app. pose proof (value_bound _ _ (proj1 (words_part n a ws Ha))) as Ht.
    destruct (decide (ws <= length a)%nat) as [Hw|Hw].
    + rewrite length_take_le in * by done. rewrite Z.mul_comm, Z.div_add, Z.div_small by lia. lia.
    + rewrite (drop_ge a ws) by lia. cbn [value]. rewrite Z.mul_0_r, Z.add_0_r. symmetry. apply Z.div_small. split; [lia|].
      eapply Z.lt_le_trans; [apply Ht|]. apply Z.pow_le_mono_r; rewrite ?length_take; lia.
Qed.

(** ** Multiplication *)

Lemma value_low n a : words_ok (S n) a -> a !!! O = value a mod 2 ^ 64.
Proof.
  intros [Hl Ha]. destruct a as [|w a]; [done|]. apply Forall_cons in Ha as [Hw _]. cbn [value lookup_total list_lookup_total].
  rewrite Z.mul_comm, Z.mod_add, Z.mod_small by (done || lia). done.
Qed.
Lemma low_u32_value n a : words_ok (S n) a -> uint_low_u32 a = value a mod 2 ^ 32.
Proof.
  intros Ha. unfold uint_low_u32, wrap. rewrite (value_low n a Ha). change (2 ^ 64) with (2 ^ 32 * 2 ^ 32).
  apply Z.mod_mod_divide. by exists (2 ^ 32).
Qed.
Lemma uint_mul_value n a b :
  words_ok (S n) a -> words_ok (S n) b ->
  words_ok (S n) (uint_mul (S n) a b) /\ value (uint_mul (S n) a b) = (value a * value b) mod width (S n).
Proof.
  intros Ha Hb. unfold uint_mul. pose proof (width_pos (S n)) as Hw.
  set (round := fun me i => uint_add (S n) me (uint_shl (S n) (uint_mul_u32 (S n) a (uint_low_u32 (uint_shr (S n) b (32 * i)))) (32 * i))).
  enough (forall m, let r := foldl round (uint_zero (S n)) (seq 0 m) in
    words_ok (S n) r /\ value r = (value a * (value b mod 2 ^ (32 * Z.of_nat m))) mod width (S n)) as Hloop.
  { specialize (Hloop (2 * S n)%nat). cbn zeta in Hloop. rewrite (Z.mod_small (value b)) in Hloop; [exact Hloop|].
    replace (32 * Z.of_nat (2 * S n)) with (64 * Z.of_nat (S n)) by lia. by apply value_bound. }
  induction m as [|m [H1 H2]]; cbn zeta.
  - cbn [seq foldl]. destruct (zero_ok (S n)) as [? ->]. change (32 * Z.of_nat 0) with 0. rewrite Z.mod_1_r, Z.mul_0_r, Z.mod_0_l by lia. done.
  - rewrite seq_S, foldl_app. cbn [foldl]. set (r := foldl round (uint_zero (S n)) (seq 0 m)) in *. rewrite Nat.add_0_l. unfold round.
    destruct (uint_shr_value (S n) b (32 * m) Hb) as [Hs Hsv]. rewrite (low_u32_value n _ Hs), Hsv.
    set (d := (value b / 2 ^ Z.of_nat (32 * m)) mod 2 ^ 32).
    destruct (mul_u32_value (S n) a d Ha) as [Hm Hmv]; [unfold d, in_u; apply Z.mod_pos_bound; lia|].
    destruct (uint_shl_value (S n) _ (32 * m) Hm) as [Hl Hlv]. destruct (uint_add_value (S n) r _ H1 Hl) as [Ho Hov].
    split; [exact Ho|]. rewrite Hov, H2, Hlv, Hmv, Zmult_mod_idemp_l, Zplus_mod_idemp_l, Zplus_mod_idemp_r. f_equal.
    replace (32 * Z.of_nat (S m)) with (32 * Z.of_nat m + 32) by lia. rewrite Z.pow_add_r, Z.rem_mul_r by (try apply Z.pow_pos_nonneg; try apply Z.pow_nonzero; lia).
    unfold d. replace (Z.of_nat (32 * m)) with (32 * Z.of_nat m) by lia. ring.
Qed.

(** ** Order and bits *)

Lemma uint_cmp_value n a b : words_ok n a -> words_ok n b -> uint_cmp a b = Z.compare (value a) (value b).
Proof.
  intros [<- Ha] [Hl Hb]. unfold uint_cmp. revert b Hl Ha Hb. induction a as [|x a IH] using rev_ind; intros b Hl Ha Hb.
  - destruct b; done.
  - destruct b as [|y b _] using rev_ind; [by rewrite length_app in Hl; cbn in Hl; lia|]. rewrite !length_app in Hl. cbn in Hl.
    apply Forall_app in Ha as [Ha Hx], Hb as [Hb Hy]. apply Forall_cons in Hx as [Hx _], Hy as [Hy _].
    rewrite !rev_app_distr, !value_app. cbn [rev app cmp_rev value]. rewrite !Z.mul_0_r, !Z.add_0_r.
    pose proof (value_bound _ a (conj eq_refl Ha)). pose proof (value_bound _ b (conj eq_refl Hb)).
    assert (length b = length a) as Hlen by lia. rewrite Hlen in *. unfold in_u in *.
    destruct (x <? y) eqn:E1; [symmetry; apply Z.compare_lt_iff; nia|]. destruct (y <? x) eqn:E2; [symmetry; apply Z.compare_gt_iff; nia|].
    replace y with x by lia. rewrite (IH b) by done. rewrite (Z.add_comm (value a)), (Z.add_comm (value b)). by rewrite Z.add_compare_mono_l.
Qed.
Lemma uint_leb_value n a b : words_ok n a -> words_ok n b -> uint_leb a b = (value a <=? value b).
Proof. intros Ha Hb. unfold uint_leb, Z.leb. by rewrite (uint_cmp_value n). Qed.
Lemma uint_ltb_value n a b : words_ok n a -> words_ok n b -> uint_ltb a b = (value a <? value b).
Proof. intros Ha Hb. unfold uint_ltb, Z.ltb. by rewrite (uint_cmp_value n). Qed.

Lemma value_testbit n a (s : nat) :
  words_ok n a -> (s / 64 < n)%nat -> Z.testbit (value a) (Z.of_nat s) = Z.testbit (a !!! (s / 64)%nat) (Z.of_nat s mod 64).
Proof.
  intros Ha Hs. rewrite (value_at n a _ Ha Hs). pose proof (value_bound _ _ (proj1 (words_part n a (s / 64) Ha))) as Ht.
  rewrite length_take_le in Ht by (destruct Ha; lia). set (k := (s / 64)%nat) in *. set (rest := value (drop (S k) a)).
  assert (Z.of_nat s = 64 * Z.of_nat k + Z.of_nat s mod 64) as Hk by (unfold k; rewrite Nat2Z.inj_div; apply Z.div_mod; lia).
  set (t := Z.of_nat s mod 64) in *. assert (0 <= t < 64) by (apply Z.mod_pos_bound; lia).
  rewrite Hk, (Z.add_comm (64 * _)), <-Z.div_pow2_bits by lia. fold (width k).
  rewrite (Z.mul_comm (width k)), Z.div_add, Z.div_small, Z.add_0_l by (pose proof (width_pos k); lia).
  rewrite <-(Z.mod_pow2_bits_low _ 64) by lia. rewrite (Z.mul_comm (2 ^ 64)), Z.mod_add by lia. apply Z.mod_pow2_bits_low. lia.
Qed.

(** The number of bits that an integer needs. *)
Definition bit_length (v B : Z) : Prop := 0 <= B /\ v < 2 ^ B /\ (0 < B -> 2 ^ (B - 1) <= v).
Lemma leading_zeros_length w : in_u 64 w -> bit_length w (64 - leading_zeros w) /\ 0 <= leading_zeros w.
Proof.
  unfold in_u, bit_length, leading_zeros. intros Hw. destruct (w =? 0) eqn:E; [apply Z.eqb_eq in E; subst; cbn; lia|]. apply Z.eqb_neq in E.
  pose proof (Z.log2_spec w ltac:(lia)) as Hlog. assert (0 <= Z.log2 w < 64) by (split; [apply Z.log2_nonneg|apply Z.log2_lt_pow2; lia]).
  replace (64 - (63 - Z.log2 w)) with (Z.succ (Z.log2 w)) by lia. replace (Z.succ (Z.log2 w) - 1) with (Z.log2 w) by lia. lia.
Qed.
Lemma word_ok n a i : words_ok n a -> (i < n)%nat -> in_u 64 (a !!! i).
Proof. intros [Hl Ha] Hi. rewrite Forall_lookup in Ha. apply (Ha i). apply list_lookup_lookup_total_lt. lia. Qed.
Lemma take_value n a i : words_ok n a -> (i < n)%nat -> value (take (S i) a) = value (take i a) + width i * (a !!! i).
Proof.
  intros [Hl _] Hi. rewrite (take_S_r _ _ (a !!! i)) by (apply list_lookup_lookup_total_lt; lia).
  rewrite value_app, length_take_le by lia. cbn [value]. lia.
Qed.
Lemma bits_from_length n a i :
  words_ok n a -> (i < n)%nat -> bit_length (value (take (S i) a)) (bits_from a i) /\ bits_from a i <= 64 * (Z.of_nat i + 1).
Proof.
  intros Ha. induction i as [|i IH]; intros Hi; rewrite (take_value n a _ Ha Hi); cbn [bits_from].
  all: pose proof (word_ok n a _ Ha Hi) as Hw; destruct (leading_zeros_length _ Hw) as [(H0 & H1 & H2) Hz].
  - cbn [take value]. rewrite width_0, Z.mul_1_l, Z.add_0_l. split; [done|lia].
  - pose proof (value_bound _ _ (proj1 (words_part n a (S i) Ha))) as Ht. rewrite length_take_le in Ht by (destruct Ha; lia).
    destruct (0 <? a !!! S i) eqn:E.
    + apply Z.ltb_lt in E. set (B := 64 - leading_zeros (a !!! S i)) in *.
      replace (0x40 * (Z.of_nat (S i) + 1) - leading_zeros (a !!! S i)) with (64 * Z.of_nat (S i) + B) by lia.
      assert (0 < B) as HB by (destruct (decide (B = 0)) as [E0|]; [rewrite E0 in H1; cbn in H1; lia|lia]).
      split; [|lia]. split_and!; [lia| |intros _].
      * rewrite Z.pow_add_r by lia. fold (width (S i)). pose proof (width_pos (S i)). nia.
      * replace (64 * Z.of_nat (S i) + B - 1) with (64 * Z.of_nat (S i) + (B - 1)) by lia. rewrite Z.pow_add_r by lia. fold (width (S i)).
        specialize (H2 HB). pose proof (width_pos (S i)). nia.
    + apply Z.ltb_ge in E. unfold in_u in Hw. replace (a !!! S i) with 0 by lia. rewrite Z.mul_0_r, Z.add_0_r.
      destruct (IH ltac:(lia)) as [IH1 IH2]. split; [exact IH1|lia].
Qed.
Lemma uint_bits_length n a : words_ok (S n) a -> bit_length (value a) (uint_bits (S n) a) /\ uint_bits (S n) a <= 64 * Z.of_nat (S n).
Proof.
  intros Ha. unfold uint_bits. replace (S n - 1)%nat with n by lia. destruct (bits_from_length (S n) a n Ha ltac:(lia)) as [H1 H2].
  rewrite take_ge in H1 by (destruct Ha; lia). split; [done|lia].
Qed.
Lemma uint_bits_zero n a : words_ok (S n) a -> uint_bits (S n) a = 0 <-> value a = 0.
Proof.
  intros Ha. destruct (uint_bits_length n a Ha) as [(H0 & H1 & H2) _]. pose proof (value_bound _ _ Ha). split.
  - intros E. rewrite E in H1. cbn in H1. lia.
  - intros E. destruct (decide (uint_bits (S n) a = 0)); [done|]. pose proof (Z.pow_pos_nonneg 2 (uint_bits (S n) a - 1)). lia.
Qed.

(** ** Division *)

Lemma lor_clear w t : 0 <= t -> Z.testbit w t = false -> Z.lor w (Z.shiftl 1 t) = w + 2 ^ t.
Proof.
  intros Ht Hb. rewrite Z.shiftl_1_l. enough (Z.land w (2 ^ t) = 0) as Hl by (pose proof (Z.add_lor_land w (2 ^ t)); lia).
  apply Z.bits_inj'. intros i Hi. rewrite Z.land_spec, Z.pow2_bits_eqb, Z.bits_0 by lia.
  destruct (t =? i) eqn:E; [|by rewrite andb_false_r]. apply Z.eqb_eq in E as <-. by rewrite Hb.
Qed.
Lemma shifted_bit_clear q s : 0 <= s -> Z.testbit (2 ^ (s + 1) * q) s = false.
Proof. intros Hs. rewrite Z.mul_comm. apply Z.mul_pow2_bits_low. lia. Qed.
(** The bit that a round sets. *)
Lemma set_bit_value n a (s : nat) q :
  words_ok n a -> (s / 64 < n)%nat -> value a = 2 ^ (Z.of_nat s + 1) * q ->
  let a' := alter (fun w => Z.lor w (Z.shiftl 1 (Z.of_nat s mod 64))) (s / 64)%nat a in
  words_ok n a' /\ value a' = value a + 2 ^ Z.of_nat s.
Proof.
  intros Ha Hs Hv. pose proof (value_testbit n a s Ha Hs) as Hb. rewrite Hv, shifted_bit_clear in Hb by lia.
  assert (0 <= Z.of_nat s mod 64 < 64) as Ht by (apply Z.mod_pos_bound; lia). pose proof (word_ok n a _ Ha Hs) as Hw.
  cbn zeta. destruct (alter_value n (fun w => Z.lor w (Z.shiftl 1 (Z.of_nat s mod 64))) a (s / 64) Ha Hs) as [H1 ->].
  - unfold in_u in *. rewrite Z.shiftl_1_l. split; [apply Z.lor_nonneg; split; [lia|apply Z.pow_nonneg; lia]|].
    destruct (decide (Z.lor (a !!! (s / 64)%nat) (2 ^ (Z.of_nat s mod 64)) = 0)) as [->|Hne]; [lia|].
    apply Z.log2_lt_pow2; [pose proof (proj2 (Z.lor_nonneg (a !!! (s / 64)%nat) (2 ^ (Z.of_nat s mod 64))) ltac:(split; [lia|apply Z.pow_nonneg; lia])); lia|].
    rewrite Z.log2_lor by (try apply Z.pow_nonneg; lia). apply Z.max_lub_lt; [|rewrite Z.log2_pow2; lia].
    destruct (decide (a !!! (s / 64)%nat = 0)) as [->|]; [done|]. apply Z.log2_lt_pow2; lia.
  - split; [done|]. rewrite lor_clear by (done || lia). rewrite shift_split. lia.
Qed.

(** The state before the round for bit [s - 1]: the quotient has its bits from [s]
    up, and the rest is below [v] times the next bit. *)
Definition div_inv (n : nat) (self v s : Z) (sub ret : Uint) : Prop :=
  words_ok n sub /\ words_ok n ret /\ self = value ret * v + value sub /\ value sub < v * 2 ^ s /\ exists q, value ret = 2 ^ s * q.
Lemma div_round n self v (s : nat) sub shc ret :
  0 < v -> (s / 64 < S n)%nat -> words_ok (S n) shc -> value shc = v * 2 ^ Z.of_nat s ->
  div_inv (S n) self v (Z.of_nat s + 1) sub ret ->
  let '(ret', sub') :=
    if uint_leb shc sub
    then (alter (fun w => Z.lor w (Z.shiftl 1 (Z.of_nat s mod 64))) (s / 64)%nat ret, uint_sub (S n) sub shc)
    else (ret, sub) in
  div_inv (S n) self v (Z.of_nat s) sub' ret'.
Proof.
  intros Hv Hs Hshc Hsv (Hsub & Hret & Hself & Hlt & q & Hq). rewrite (uint_leb_value (S n)) by done.
  assert (2 ^ (Z.of_nat s + 1) = 2 * 2 ^ Z.of_nat s) as Hp by (rewrite Z.pow_add_r by lia; lia).
  assert (0 < 2 ^ Z.of_nat s) as Hpos by (apply Z.pow_pos_nonneg; lia).
  destruct (value shc <=? value sub) eqn:E.
  - apply Z.leb_le in E. destruct (set_bit_value (S n) ret s q Hret Hs Hq) as [Hr Hrv]. cbn zeta in Hr, Hrv.
    destruct (uint_sub_value n sub shc Hsub Hshc) as [Hd Hdv].
    pose proof (value_bound _ _ Hsub). pose proof (value_bound _ _ Hshc). rewrite Z.mod_small in Hdv by lia.
    split_and!; [done..| | |exists (2 * q + 1)]; rewrite ?Hrv, ?Hdv; nia.
  - apply Z.leb_gt in E. split_and!; [done..|lia|exists (2 * q)]. rewrite Hq, Hp. ring.
Qed.
Lemma div_loop_value n self v (s : nat) : forall sub shc ret,
  0 < v -> (s / 64 < S n)%nat -> words_ok (S n) shc -> value shc = v * 2 ^ Z.of_nat s ->
  div_inv (S n) self v (Z.of_nat s + 1) sub ret ->
  words_ok (S n) (div_loop (S n) s sub shc ret) /\ value (div_loop (S n) s sub shc ret) = self / v.
Proof.
  induction s as [|s IH]; intros sub shc ret Hv Hs Hshc Hsv Hinv.
  all: pose proof (div_round n self v _ sub shc ret Hv Hs Hshc Hsv Hinv) as Hr; cbn [div_loop].
  all: destruct (if uint_leb shc sub then _ else _) as [ret' sub'].
  - destruct Hr as (Hsub & Hret & Hself & Hlt & _). split; [done|]. change (2 ^ Z.of_nat 0) with 1 in Hlt.
    pose proof (value_bound _ _ Hsub). apply (Z.div_unique_pos _ _ _ (value sub')); lia.
  - destruct (uint_shr_value (S n) shc 1 Hshc) as [H1 H1v]. apply IH; [done| |done| |by replace (Z.of_nat s + 1) with (Z.of_nat (S s)) by lia].
    + eapply Nat.le_lt_trans; [|exact Hs]. apply Nat.Div0.div_le_mono. lia.
    + rewrite H1v, Hsv, Nat2Z.inj_succ, Z.pow_succ_r by lia. change (2 ^ Z.of_nat 1) with 2.
      replace (v * (2 * 2 ^ Z.of_nat s)) with (v * 2 ^ Z.of_nat s * 2) by ring. by apply Z.div_mul.
Qed.
Lemma uint_div_value n a b :
  words_ok (S n) a -> words_ok (S n) b ->
  match uint_div (S n) a b with
  | Ok r => value b <> 0 /\ words_ok (S n) r /\ value r = value a / value b
  | Err _ => False
  | Panic => value b = 0
  end.
Proof.
  intros Ha Hb. pose proof (value_bound _ _ Ha) as Hva. pose proof (value_bound _ _ Hb) as Hvb. unfold uint_div.
  pose proof (uint_bits_zero n b Hb) as Hz. destruct (uint_bits_length n a Ha) as [(A0 & A1 & A2) A3], (uint_bits_length n b Hb) as [(B0 & B1 & B2) B3].
  set (x := uint_bits (S n) a) in *. set (y := uint_bits (S n) b) in *. destruct (y =? 0) eqn:Ey; [apply Z.eqb_eq in Ey; tauto|].
  apply Z.eqb_neq in Ey. assert (value b <> 0) as Hne by tauto. specialize (B2 ltac:(lia)). destruct (x <? y) eqn:Exy.
  - apply Z.ltb_lt in Exy. destruct (zero_ok (S n)) as [Hz0 Hz1]. split_and!; [done..|]. rewrite Hz1. symmetry. apply Z.div_small.
    enough (2 ^ x <= 2 ^ (y - 1)) by lia. apply Z.pow_le_mono_r; lia.
  - apply Z.ltb_ge in Exy. set (s := Z.to_nat (x - y)). assert (Z.of_nat s = x - y) as Hs by lia.
    destruct (uint_shl_value (S n) b s Hb) as [Hl Hlv]. destruct (zero_ok (S n)) as [Hz0 Hz1].
    assert (2 ^ y * 2 ^ Z.of_nat s = 2 ^ x) as Hxy by (rewrite <-Z.pow_add_r by lia; f_equal; lia).
    assert (0 < 2 ^ Z.of_nat s) by (apply Z.pow_pos_nonneg; lia).
    rewrite Z.mod_small in Hlv.
    2: { split; [nia|]. eapply Z.lt_le_trans; [|apply (Z.pow_le_mono_r 2 x (64 * Z.of_nat (S n))); lia]. nia. }
    destruct (div_loop_value n (value a) (value b) s a (uint_shl (S n) b s) (uint_zero (S n))) as [H1 H2]; [lia| |done|done| |done].
    + apply Nat.Div0.div_lt_upper_bound. lia.
    + split_and!; [done|done|lia| |exists 0; lia]. eapply Z.lt_le_trans; [exact A1|].
      replace (2 ^ x) with (2 ^ (y - 1) * 2 ^ (Z.of_nat s + 1)) by (rewrite <-Z.pow_add_r by lia; f_equal; lia).
      apply Z.mul_le_mono_nonneg_r; [apply Z.pow_nonneg|]; lia.
Qed.

(** ** Words bit by bit *)

Lemma concat_testbit w x i : in_u 64 w -> 0 <= i -> Z.testbit (w + 2 ^ 64 * x) i = if i <? 64 then Z.testbit w i else Z.testbit x (i - 64).
Proof.
  intros Hw Hi. unfold in_u in Hw. rewrite (Z.mul_comm (2 ^ 64)). destruct (i <? 64) eqn:E.
  - apply Z.ltb_lt in E. rewrite <-(Z.mod_pow2_bits_low _ 64) by lia. rewrite Z.mod_add by lia. apply Z.mod_pow2_bits_low. lia.
  - apply Z.ltb_ge in E. replace i with (i - 64 + 64) at 1 by lia. rewrite <-Z.div_pow2_bits by lia.
    rewrite Z.div_add, Z.div_small by lia. done.
Qed.
Lemma bitwise_value (f : Z -> Z -> Z) (g : bool -> bool -> bool) n a b :
  (forall x y i, Z.testbit (f x y) i = g (Z.testbit x i) (Z.testbit y i)) -> f 0 0 = 0 ->
  (forall x y, in_u 64 x -> in_u 64 y -> in_u 64 (f x y)) ->
  words_ok n a -> words_ok n b -> words_ok n (zip_with f a b) /\ value (zip_with f a b) = f (value a) (value b).
Proof.
  intros Hf H0 Hin [<- Ha] [Hl Hb]. unfold words_ok. revert b Hl Hb. induction Ha as [|x a Hx _ IH]; intros [|y b] Hl Hb; try done.
  apply Forall_cons in Hb as [Hy Hb]. cbn in Hl. destruct (IH b ltac:(lia) Hb) as ([IH1 IH2] & IHv). cbn [zip_with length value].
  split; [split; [by f_equal|by constructor; [apply Hin|]]|]. rewrite IHv. apply Z.bits_inj'. intros i Hi.
  rewrite Hf, !concat_testbit by (auto; done). by destruct (i <? 64); rewrite Hf.
Qed.
Lemma in_u_bits w x : 0 <= w -> 0 <= x -> (forall i, w <= i -> Z.testbit x i = false) -> in_u w x.
Proof.
  intros Hw Hx Hb. split; [done|]. destruct (decide (x = 0)) as [->|Hne]; [by apply Z.pow_pos_nonneg|].
  apply Z.log2_lt_pow2; [lia|]. destruct (decide (Z.log2 x < w)); [done|]. specialize (Hb (Z.log2 x) ltac:(lia)).
  rewrite Z.bit_log2 in Hb by lia. done.
Qed.
Lemma high_bits w x i : 0 <= w -> in_u w x -> w <= i -> Z.testbit x i = false.
Proof.
  intros Hw [H0 H1] Hi. destruct (decide (x = 0)) as [->|]; [apply Z.bits_0|]. apply Z.bits_above_log2; [done|].
  apply Z.log2_lt_pow2; [lia|]. eapply Z.lt_le_trans; [done|]. apply Z.pow_le_mono_r; lia.
Qed.
Lemma bitwise_exact n a b :
  words_ok n a -> words_ok n b ->
  (words_ok n (uint_bitand a b) /\ value (uint_bitand a b) = Z.land (value a) (value b)) /\
  (words_ok n (uint_bitor a b) /\ value (uint_bitor a b) = Z.lor (value a) (value b)) /\
  (words_ok n (uint_bitxor a b) /\ value (uint_bitxor a b) = Z.lxor (value a) (value b)).
Proof.
  intros Ha Hb. split; [|split].
  - apply (bitwise_value Z.land andb n); try done; [intros; apply Z.land_spec|]. intros x y Hx Hy.
    apply in_u_bits; [done|apply Z.land_nonneg; left; apply Hx|]. intros i Hi. by rewrite Z.land_spec, (high_bits 64 x i).
  - apply (bitwise_value Z.lor orb n); try done; [intros; apply Z.lor_spec|]. intros x y Hx Hy.
    apply in_u_bits; [done|apply Z.lor_nonneg; split; [apply Hx|apply Hy]|]. intros i Hi. by rewrite Z.lor_spec, (high_bits 64 x i), (high_bits 64 y i).
  - apply (bitwise_value Z.lxor xorb n); try done; [intros; apply Z.lxor_spec|]. intros x y Hx Hy.
    apply in_u_bits; [done|apply Z.lxor_nonneg; split; intros; [apply Hy|apply Hx]|]. intros i Hi. by rewrite Z.lxor_spec, (high_bits 64 x i), (high_bits 64 y i).
Qed.
Lemma uint_bit_value n a s : words_ok n a -> (s < 64 * n)%nat -> uint_bit a s = Z.testbit (value a) (Z.of_nat s).
Proof.
  intros Ha Hs. rewrite (value_testbit n) by (done || (apply Nat.Div0.div_lt_upper_bound; lia)). unfold uint_bit.
  set (w := a !!! (s / 64)%nat). assert (0 <= Z.of_nat s mod 64 < 64) as Ht by (apply Z.mod_pos_bound; lia). set (t := Z.of_nat s mod 64) in *.
  rewrite Z.shiftl_1_l. destruct (Z.testbit w t) eqn:E.
  - apply negb_true_iff, Z.eqb_neq. intros H0. assert (Z.testbit (Z.land w (2 ^ t)) t = false) as Hf by (rewrite H0; apply Z.bits_0).
    rewrite Z.land_spec, E, Z.pow2_bits_true in Hf by lia. done.
  - apply negb_false_iff, Z.eqb_eq. apply Z.bits_inj'. intros i Hi. rewrite Z.land_spec, Z.pow2_bits_eqb, Z.bits_0 by lia.
    destruct (t =? i) eqn:Ei; [|by rewrite andb_false_r]. apply Z.eqb_eq in Ei as <-. by rewrite E.
Qed.
Lemma mask_from_value arr : forall i m,
  Forall (in_u 64) arr -> 64 * Z.of_nat i <= m -> value (mask_from i arr m) = value arr mod 2 ^ (m - 64 * Z.of_nat i).
Proof.
  induction arr as [|w arr IH]; intros i m Ha Hm; cbn [mask_from value]; [rewrite Z.mod_0_l; [done|apply Z.pow_nonzero; lia]|].
  apply Forall_cons in Ha as [Hw Ha]. unfold in_u in Hw. destruct (0x40 * (Z.of_nat i + 1) <=? m) eqn:E.
  - apply Z.leb_le in E. cbn [value]. rewrite IH by (done || lia). replace (m - 64 * Z.of_nat (S i)) with (m - 64 * Z.of_nat i - 64) by lia.
    set (k := m - 64 * Z.of_nat i) in *. replace (2 ^ k) with (2 ^ 64 * 2 ^ (k - 64)) by (rewrite <-Z.pow_add_r by lia; f_equal; lia).
    rewrite Z.rem_mul_r by (try apply Z.pow_pos_nonneg; lia). rewrite (Z.mul_comm (2 ^ 64) (value arr)), Z.mod_add, Z.div_add by lia.
    rewrite (Z.mod_small w), (Z.div_small w) by lia. by rewrite Z.add_0_l.
  - apply Z.leb_gt in E. set (k := m - 64 * Z.of_nat i) in *. replace (m - 0x40 * Z.of_nat i) with k by lia. rewrite Z.shiftl_1_l, land_low_bits by lia.
    cbn [value]. replace (value (map (fun _ => 0) arr)) with 0 by (clear; induction arr; cbn [map value]; lia). rewrite Z.mul_0_r, Z.add_0_r.
    replace (2 ^ 64 * value arr) with (2 ^ (64 - k) * value arr * 2 ^ k) by (replace (2 ^ 64) with (2 ^ (64 - k) * 2 ^ k) by (rewrite <-Z.pow_add_r by lia; f_equal; lia); ring).
    rewrite Z.mod_add; [done|apply Z.pow_nonzero; lia].
Qed.

(** ** Conversions *)

Lemma max_ok n : words_ok n (uint_max n) /\ value (uint_max n) = width n - 1.
Proof.
  split; [split; [apply length_replicate|by apply Forall_replicate]|]. unfold uint_max.
  induction n as [|n IH]; cbn [replicate value]; [done|]. rewrite IH, width_S. lia.
Qed.
Lemma from_u128_ok n x : in_u 128 x -> words_ok (S (S n)) (uint_from_u128 (S (S n)) x) /\ value (uint_from_u128 (S (S n)) x) = x.
Proof.
  unfold in_u. intros Hx. unfold uint_from_u128, uint_zero. rewrite land_low_bits, Z.mod_small, Z.shiftr_div_pow2 by lia. cbn [replicate].
  assert (0 <= x / 2 ^ 64 < 2 ^ 64) as Hd by (split; [apply Z.div_pos; lia|apply Z.div_lt_upper_bound; lia]). rewrite (wrap_small 64 (x / 2 ^ 64)) by done.
  assert (0 <= wrap 64 x < 2 ^ 64) by (apply Z.mod_pos_bound; lia). split.
  - split; [cbn; by rewrite length_replicate|]. cbn. repeat constructor; try done; try lia. by apply Forall_replicate.
  - cbn [value insert list_insert]. rewrite value_zeros. unfold wrap. pose proof (Z.div_mod x (2 ^ 64)). lia.
Qed.
Lemma from_uint256_ok a : words_ok 4 a -> words_ok 8 (Uint512_from_uint256 a) /\ value (Uint512_from_uint256 a) = value a.
Proof.
  intros [Hl Ha]. destruct a as [|x0 [|x1 [|x2 [|x3 [|]]]]]; try done. split; [|cbn [value Uint512_from_uint256 seq map app replicate]; cbn; lia].
  split; [done|]. change (Forall (in_u 64) ([x0; x1; x2; x3] ++ replicate 4 0)). apply Forall_app. split; [done|by apply Forall_replicate].
Qed.
Lemma to_uint256_ok a : words_ok 8 a -> words_ok 4 (Uint512_to_uint256 a) /\ value (Uint512_to_uint256 a) = value a mod 2 ^ 256.
Proof.
  intros Ha. assert (Uint512_to_uint256 a = take 4 a) as ->.
  { destruct Ha as [Hl _]. destruct a as [|x0 [|x1 [|x2 [|x3 l]]]]; done. }
  rewrite value_take by (destruct Ha; split; [done|done]). split; [|done]. destruct Ha as [Hl Ha]. split; [rewrite length_take; lia|by apply Forall_take].
Qed.
Lemma incr_word w : in_u 64 w -> wrap 64 (w + 1) = if w =? 2 ^ 64 - 1 then 0 else w + 1.
Proof.
  intros Hw. destruct (w =? 2 ^ 64 - 1) eqn:E; [apply Z.eqb_eq in E as ->; done|]. apply Z.eqb_neq in E. apply wrap_small. unfold in_u in *. lia.
Qed.
Lemma increment_value a : words_ok 4 a -> value (Uint256_increment a) = (value a + 1) mod 2 ^ 256.
Proof.
  intros Ha. pose proof (value_bound _ _ Ha) as Hb. destruct Ha as [Hl Ha]. destruct a as [|x0 [|x1 [|x2 [|x3 [|]]]]]; try done.
  rewrite !Forall_cons in Ha. destruct Ha as (H0 & H1 & H2 & H3 & _). unfold Uint256_increment. cbn -[wrap Z.mul Z.pow].
  rewrite (incr_word x0 H0), (incr_word x1 H1), (incr_word x2 H2), (incr_word x3 H3). unfold in_u in *. cbn [value] in Hb.
  assert (width 4 = 2 ^ 64 * (2 ^ 64 * (2 ^ 64 * 2 ^ 64))) as Hw by done. rewrite Hw in Hb. change (2 ^ 256) with (2 ^ 64 * (2 ^ 64 * (2 ^ 64 * 2 ^ 64))).
  destruct (x0 =? 2 ^ 64 - 1) eqn:E0; [apply Z.eqb_eq in E0; subst x0; cbn -[Z.mul Z.pow value]|apply Z.eqb_neq in E0; rewrite (proj2 (Z.eqb_neq (x0 + 1) 0)) by lia; cbn [value]; rewrite Z.mod_small; lia].
  destruct (x1 =? 2 ^ 64 - 1) eqn:E1; [apply Z.eqb_eq in E1; subst x1; cbn -[Z.mul Z.pow value]|apply Z.eqb_neq in E1; rewrite (proj2 (Z.eqb_neq (x1 + 1) 0)) by lia; cbn [value]; rewrite Z.mod_small; lia].
  destruct (x2 =? 2 ^ 64 - 1) eqn:E2; [apply Z.eqb_eq in E2; subst x2; cbn -[Z.mul Z.pow value]|apply Z.eqb_neq in E2; rewrite (proj2 (Z.eqb_neq (x2 + 1) 0)) by lia; cbn [value]; rewrite Z.mod_small; lia].
  destruct (x3 =? 2 ^ 64 - 1) eqn:E3; [apply Z.eqb_eq in E3; subst x3; done|apply Z.eqb_neq in E3; cbn [value]; rewrite Z.mod_small; lia].
Qed.

(** ** Further bits and bytes *)

Lemma mask_ok n a m : words_ok n a -> 0 <= m -> words_ok n (uint_mask a m) /\ value (uint_mask a m) = value a mod 2 ^ m.
Proof.
  intros [Hl Ha] Hm. split; [|unfold uint_mask; rewrite mask_from_value by done; do 2 f_equal; lia].
  unfold uint_mask, words_ok. rewrite <-Hl. generalize 0%nat as i. clear Hl Hm. induction Ha as [|w arr Hw Ha IH]; intros i; [done|].
  cbn [mask_from]. destruct (_ <=? m) eqn:E; cbn [length].
  - destruct (IH (S i)) as [-> Hf]. split; [done|by constructor].
  - rewrite length_map. split; [done|]. constructor; [|by apply Forall_map, Forall_true].
    apply in_u_bits; [done|apply Z.land_nonneg; left; apply Hw|]. intros j Hj. by rewrite Z.land_spec, (high_bits 64 w j).
Qed.
Lemma bit_slice_ok n a (start end_ : nat) : words_ok n a -> (start <= end_)%nat ->
  words_ok n (uint_bit_slice n a start end_) /\
  value (uint_bit_slice n a start end_) = value a / 2 ^ Z.of_nat start mod 2 ^ (Z.of_nat end_ - Z.of_nat start).
Proof.
  intros Ha Hs. unfold uint_bit_slice. destruct (uint_shr_value n a start Ha) as [Hok Hv].
  destruct (mask_ok n _ (Z.of_nat (end_ - start)) Hok ltac:(lia)) as [Hm Hmv]. split; [done|]. by rewrite Hmv, Hv, Nat2Z.inj_sub.
Qed.

(** [t] is the position of the lowest bit that is set. *)
Definition lowest_bit (v t : Z) : Prop := 0 <= t /\ Z.testbit v t = true /\ forall i, 0 <= i < t -> Z.testbit v i = false.

Lemma lowest_bit_shift v t : lowest_bit v t -> lowest_bit (2 * v) (1 + t).
Proof.
  intros (Ht & Hv & Hlow). split_and!; [lia|rewrite Z.add_1_l, Z.double_bits_succ; done|]. intros i Hi.
  destruct (decide (i = 0)) as [->|]; [by rewrite Z.double_bits, Z.testbit_neg_r|].
  replace i with (Z.succ (i - 1)) by lia. rewrite Z.double_bits_succ. apply Hlow. lia.
Qed.
Lemma trailing_zeros_from_lowest fuel w : 0 < w < 2 ^ Z.of_nat fuel -> lowest_bit w (trailing_zeros_from fuel w).
Proof.
  revert w. induction fuel as [|fuel IH]; intros w Hw; [cbn in Hw; lia|]. cbn [trailing_zeros_from].
  destruct (Z.odd w) eqn:E; [split_and!; [done|by rewrite Z.bit0_odd|lia]|].
  assert (w = 2 * (w / 2)) as Hd by (rewrite Zodd_even_bool, negb_false_iff in E; apply Z.even_spec in E as [k ->]; rewrite Z.mul_comm, Z.div_mul; lia).
  rewrite Hd at 1. apply lowest_bit_shift, IH. rewrite Nat2Z.inj_succ, Z.pow_succ_r in Hw by lia. lia.
Qed.
Lemma lowest_bit_low w x t : in_u 64 w -> lowest_bit w t -> lowest_bit (w + 2 ^ 64 * x) t.
Proof.
  intros Hw (Ht & Hb & Hlow). assert (t < 64) by (destruct (decide (t < 64)); [done|]; by rewrite (high_bits 64 w t) in Hb by (done || lia)).
  split_and!; [done| |intros i Hi]; rewrite concat_testbit, (proj2 (Z.ltb_lt _ _)) by (done || lia); auto.
Qed.
Lemma lowest_bit_high x t : lowest_bit x t -> lowest_bit (0 + 2 ^ 64 * x) (64 + t).
Proof.
  intros (Ht & Hb & Hlow). split_and!; [lia| |intros i Hi]; rewrite concat_testbit by (done || lia).
  - rewrite (proj2 (Z.ltb_ge _ _)) by lia. by replace (64 + t - 64) with t by lia.
  - destruct (Z.ltb_spec i 64); [apply Z.bits_0|]. apply Hlow. lia.
Qed.
Lemma trailing_zeros_words_lowest arr : forall i, Forall (in_u 64) arr -> arr <> [] ->
  if decide (value arr = 0) then trailing_zeros_words i arr = 64 * (Z.of_nat i + Z.of_nat (length arr))
  else lowest_bit (value arr) (trailing_zeros_words i arr - 64 * Z.of_nat i).
Proof.
  assert (forall i w, in_u 64 w -> w <> 0 -> lowest_bit w (0x40 * Z.of_nat i + trailing_zeros w - 64 * Z.of_nat i)) as Hword.
  { intros i w Hw Hne. replace (0x40 * Z.of_nat i + trailing_zeros w - 64 * Z.of_nat i) with (trailing_zeros w) by lia.
    apply trailing_zeros_from_lowest. unfold in_u in Hw. change (Z.of_nat 64) with 64. lia. }
  induction arr as [|w arr IH]; intros i Ha Hne; [done|]. apply Forall_cons in Ha as [Hw Ha].
  pose proof (value_bound (length arr) arr (conj eq_refl Ha)) as Hb. destruct arr as [|w' arr].
  - replace (value [w]) with w by (cbn [value]; lia). cbn [length trailing_zeros_words]. destruct (decide (w = 0)) as [->|]; [change (trailing_zeros 0) with 64; lia|auto].
  - specialize (IH (S i) Ha ltac:(done)). change (trailing_zeros_words i (w :: w' :: arr)) with
      (if 0 <? w then 0x40 * Z.of_nat i + trailing_zeros w else trailing_zeros_words (S i) (w' :: arr)).
    cbn [value] in *. set (v := w' + 2 ^ 64 * value arr) in *. unfold in_u in Hw. destruct (Z.ltb_spec 0 w).
    + rewrite decide_False by lia. apply lowest_bit_low; [done|]. apply Hword; [done|lia].
    + assert (w = 0) as -> by lia. rewrite Z.add_0_l. destruct (decide (v = 0)) as [E|E].
      * rewrite decide_True by lia. rewrite IH. cbn [length]. lia.
      * rewrite decide_False by lia. apply lowest_bit_high in IH. rewrite Z.add_0_l in IH.
        by replace (64 + (trailing_zeros_words (S i) (w' :: arr) - 64 * Z.of_nat (S i))) with
          (trailing_zeros_words (S i) (w' :: arr) - 64 * Z.of_nat i) in IH by lia.
Qed.
Lemma trailing_zeros_value n a : words_ok (S n) a ->
  if decide (value a = 0) then uint_trailing_zeros a = 64 * Z.of_nat (S n) else lowest_bit (value a) (uint_trailing_zeros a).
Proof.
  intros [Hl Ha]. pose proof (trailing_zeros_words_lowest a 0 Ha ltac:(by destruct a)) as H. fold (uint_trailing_zeros a) in H.
  rewrite Hl in H. case_decide; [lia|]. by rewrite Z.sub_0_r in H.
Qed.

Lemma be_decode_app l l' : be_decode (l ++ l') = be_decode l * 256 ^ Z.of_nat (length l') + be_decode l'.
Proof.
  induction l' as [|b l' IH] using rev_ind; [cbn; by rewrite app_nil_r, Z.mul_1_r, Z.add_0_r|].
  rewrite app_assoc, !be_decode_snoc, IH, length_app, Nat.add_1_r, Nat2Z.inj_succ, Z.pow_succ_r by lia. lia.
Qed.
(** The bytes, the most significant first, are the integer. *)
Lemma le_bytes_value n a : words_ok n a ->
  length (uint_to_u8_slice a) = (8 * n)%nat /\ be_decode (rev (uint_to_u8_slice a)) = value a.
Proof.
  intros [<- Ha]. induction Ha as [|w a Hw _ [IHl IHv]]; [done|].
  change (uint_to_u8_slice (w :: a)) with (rev (be_encode 8 w) ++ uint_to_u8_slice a). cbn [value length].
  rewrite length_app, length_rev, length_be_encode, rev_app_distr, rev_involutive. split; [lia|].
  rewrite be_decode_app, IHv, length_be_encode, be_decode_encode_small by exact Hw. change (256 ^ Z.of_nat 8) with (2 ^ 64). lia.
Qed.
Lemma wrap_word x : in_u 64 (wrap 64 x).
Proof. unfold in_u, wrap. apply Z.mod_pos_bound. lia. Qed.
Lemma increment_ok a : words_ok 4 a -> words_ok 4 (Uint256_increment a) /\ value (Uint256_increment a) = (value a + 1) mod 2 ^ 256.
Proof.
  intros Ha. split; [|by apply increment_value]. destruct Ha as [Hl Ha]. destruct a as [|x0 [|x1 [|x2 [|x3 [|]]]]]; try done.
  rewrite !Forall_cons in Ha. destruct Ha as (H0 & H1 & H2 & H3 & _). unfold Uint256_increment. cbn -[wrap].
  split; [by repeat destruct (_ =? 0)|]. repeat destruct (_ =? 0); repeat (apply Forall_cons_2; [apply wrap_word || done|]); constructor.
Qed.

(** * Claims *)

(** [a] is the integer [v] in [n] words. *)
Definition is_uint (n : nat) (a : Uint) (v : Z) : Prop := words_ok n a /\ value a = v.

Lemma conversions_exact n a : words_ok (S n) a ->
  is_uint (S n) (uint_zero (S n)) 0 /\ is_uint (S n) (uint_one (S n)) 1 /\ is_uint (S n) (uint_max (S n)) (width (S n) - 1) /\
   (forall x, in_u 64 x -> is_uint (S n) (uint_from_u64 (S n) x) x) /\
   (forall x, x < 2 ^ 63 -> match uint_from_i64 (S n) x with Ok r => is_uint (S n) r x | Err _ => False | Panic => x < 0 end) /\
   (forall x, in_u 128 x -> n <> O -> is_uint (S n) (uint_from_u128 (S n) x) x) /\
   uint_low_u32 a = value a mod 2 ^ 32 /\ uint_low_u64 a = value a mod 2 ^ 64 /\
   length (uint_to_u8_slice a) = (8 * S n)%nat /\ be_decode (rev (uint_to_u8_slice a)) = value a.
Proof.
  intros Ha. unfold is_uint. split; [apply zero_ok|split; [by apply from_u64_ok|split; [apply max_ok|split; [apply from_u64_ok|split]]]].
  - intros x Hx. unfold uint_from_i64. destruct (Z.leb_spec 0 x); [|done]. apply from_u64_ok. unfold in_u. lia.
  - split; [intros x Hx Hn; destruct n; [done|by apply from_u128_ok]|].
    split; [by eapply low_u32_value|split; [by eapply value_low|by apply le_bytes_value]].
Qed.

(** C36. The word arithmetic of big integers is arithmetic: for integers of [n] words,
    addition, subtraction and multiplication are those modulo the width, division
    is exact and panics for zero only, shifts multiply and divide by powers of two,
    the operations on bits are those on the bits of the integers, masks and slices
    of bits are remainders, the order is that of the integers, [bits] is the length
    in bits and [trailing_zeros] the position of the lowest bit; the conversions
    from and to machine integers, bytes and the other width keep the integer, and
    [from_i64] panics on negative ones only; every result has its words in range. *)
Theorem uint_exact n a b :
  words_ok (S n) a -> words_ok (S n) b ->
  (is_uint (S n) (uint_add (S n) a b) ((value a + value b) mod width (S n)) /\
   is_uint (S n) (uint_sub (S n) a b) ((value a - value b) mod width (S n)) /\
   is_uint (S n) (uint_mul (S n) a b) ((value a * value b) mod width (S n)) /\
   (forall x, in_u 32 x -> is_uint (S n) (uint_mul_u32 (S n) a x) ((x * value a) mod width (S n))) /\
   match uint_div (S n) a b with
   | Ok r => value b <> 0 /\ is_uint (S n) r (value a / value b)
   | Err _ => False
   | Panic => value b = 0
   end) /\
  (forall s, is_uint (S n) (uint_shl (S n) a s) ((value a * 2 ^ Z.of_nat s) mod width (S n)) /\
             is_uint (S n) (uint_shr (S n) a s) (value a / 2 ^ Z.of_nat s) /\
             is_uint (S n) (uint_mask a (Z.of_nat s)) (value a mod 2 ^ Z.of_nat s) /\
             ((s < 64 * S n)%nat -> uint_bit a s = Z.testbit (value a) (Z.of_nat s)) /\
             forall e, (s <= e)%nat ->
               is_uint (S n) (uint_bit_slice (S n) a s e) (value a / 2 ^ Z.of_nat s mod 2 ^ (Z.of_nat e - Z.of_nat s))) /\
  (is_uint (S n) (uint_bitand a b) (Z.land (value a) (value b)) /\ is_uint (S n) (uint_bitor a b) (Z.lor (value a) (value b)) /\
   is_uint (S n) (uint_bitxor a b) (Z.lxor (value a) (value b)) /\ is_uint (S n) (uint_not a) (width (S n) - 1 - value a)) /\
  (uint_cmp a b = Z.compare (value a) (value b) /\ bit_length (value a) (uint_bits (S n) a) /\
   if decide (value a = 0) then uint_trailing_zeros a = 64 * Z.of_nat (S n) else lowest_bit (value a) (uint_trailing_zeros a)) /\
  (is_uint (S n) (uint_zero (S n)) 0 /\ is_uint (S n) (uint_one (S n)) 1 /\ is_uint (S n) (uint_max (S n)) (width (S n) - 1) /\
   (forall x, in_u 64 x -> is_uint (S n) (uint_from_u64 (S n) x) x) /\
   (forall x, x < 2 ^ 63 -> match uint_from_i64 (S n) x with Ok r => is_uint (S n) r x | Err _ => False | Panic => x < 0 end) /\
   (forall x, in_u 128 x -> n <> O -> is_uint (S n) (uint_from_u128 (S n) x) x) /\
   uint_low_u32 a = value a mod 2 ^ 32 /\ uint_low_u64 a = value a mod 2 ^ 64 /\
   length (uint_to_u8_slice a) = (8 * S n)%nat /\ be_decode (rev (uint_to_u8_slice a)) = value a) /\
  (forall c, words_ok 4 c -> is_uint 4 (Uint256_increment c) ((value c + 1) mod 2 ^ 256) /\ is_uint 8 (Uint512_from_uint256 c) (value c)) /\
  (forall c, words_ok 8 c -> is_uint 4 (Uint512_to_uint256 c) (value c mod 2 ^ 256)).
Proof.
  intros Ha Hb. unfold is_uint. split; [|split; [|split; [|split; [|split; [|split]]]]].
  - split; [by apply uint_add_value|split; [by apply uint_sub_value|split; [by apply uint_mul_value|split]]].
    + intros x Hx. by apply mul_u32_value.
    + by apply uint_div_value.
  - intros s. split; [by apply uint_shl_value|split; [by apply uint_shr_value|split; [apply mask_ok; [done|lia]|split]]].
    + by apply uint_bit_value.
    + intros e He. by apply bit_slice_ok.
  - destruct (bitwise_exact (S n) a b Ha Hb) as (H1 & H2 & H3). split; [done|split; [done|split; [done|by apply not_ok]]].
  - split; [by apply (uint_cmp_value (S n))|split; [by apply uint_bits_length|by apply trailing_zeros_value]].
  - by apply conversions_exact.
  - intros c Hc. split; [by apply increment_ok|by apply from_uint256_ok].
  - apply to_uint256_ok.
Qed.

Module example.
Definition big : Uint := uint_max 4.
Definition three : Uint := uint_from_u64 4 3.
Lemma uint_exact_witness :
  is_uint 4 (uint_add 4 big three) ((value big + value three) mod width 4) /\
  is_uint 4 (uint_shl 4 big 70) ((value big * 2 ^ Z.of_nat 70) mod width 4) /\
  is_uint 4 (uint_from_u128 4 (2 ^ 100 + 7)) (2 ^ 100 + 7).
Proof.
  assert (words_ok 4 big) as Hb by (split; [reflexivity|by repeat constructor]).
  assert (words_ok 4 three) as Ht by (split; [reflexivity|by repeat constructor]).
  destruct (uint_exact 3 big three Hb Ht) as (Harith & Hshift & _ & _ & (_ & _ & _ & _ & _ & H128 & _) & _).
  assert (in_u 128 (2 ^ 100 + 7)) as Hx by (unfold in_u; lia).
  split; [exact (proj1 Harith)|split; [exact (proj1 (Hshift 70%nat))|exact (H128 _ Hx ltac:(discriminate))]].
Defined.
End example.
