(* ===== verification/NetCodec.v ===== *)
(** The codec of messages: the trait [StacksMessageCodec] with its instances for
    integers, byte arrays, vectors and strings (src/net/codec.rs, src/net/mod.rs,
    src/util/strings.rs, src/chainstate/stacks/address.rs), and what it means for
    a codec to round-trip. *)
From stdpp Require Import base strings numbers list.
From Stdlib Require Import ZArith Lia.
From S2P Require Import Prelude Names BTree Types TypeFacts Subtyping Supertypes Values Serialization Codec StacksTypes.
#[local] Open Scope Z_scope.

(** * Readers *)

(** The variants of [net::Error] ([net_error]) that codecs and signatures return, without the
    messages. *)
Inductive net_error := SerializeError | ReadError | DeserializeError | WriteError | SigningError | VerifyingError.

Definition NetReader (A : Type) : Type := BoundReader -> Res net_error (A * BoundReader).
#[global] Instance net_ret : MRet NetReader := fun A a r => Ok (a, r).
#[global] Instance net_bind : MBind NetReader := fun A B f m r =>
  match m r with
  | Ok (a, r') => f a r'
  | Err e => Err e
  | Panic => Panic
  end.
Definition net_fail {A} : NetReader A := fun _ => Err DeserializeError.
Definition net_lift {A} (m : Res net_error A) : NetReader A := fun r => a ← m; Ok (a, r).

(** Reading with the errors of values. *)
Definition net_read {A} (f : SerializationError -> net_error) (p : Reader A) : NetReader A := fun r => map_err f (p r).
Definition read_error (e : SerializationError) : net_error := match e with IOError _ => ReadError | _ => DeserializeError end.

(** A [BoundReader] over the reader: what it sees is what the reader has left
    before its own bound. *)
Definition bounded {A} (limit : Z) (p : NetReader A) : NetReader A := fun r =>
  let visible := take (Z.to_nat (max_len r - read_so_far r)) (fd r) in
  '(a, r') ← p (from_reader visible limit);
  let n := read_so_far r' in
  Ok (a, mkReader (drop (Z.to_nat n) (fd r)) (max_len r) (read_so_far r + n)).

(** * Codecs *)

Record StacksMessageCodec (T : Type) := mkCodec {
  consensus_serialize : T -> Res net_error (list Z);
  consensus_deserialize : NetReader T;
}.
Arguments mkCodec {T}.
Arguments consensus_serialize {T}.
Arguments consensus_deserialize {T}.

Definition write_next {T} (c : StacksMessageCodec T) (item : T) : Res net_error (list Z) := consensus_serialize c item.
Definition read_next {T} (c : StacksMessageCodec T) : NetReader T := consensus_deserialize c.

(** Writes one after the other. *)
Fixpoint write_all (ws : list (Res net_error (list Z))) : Res net_error (list Z) :=
  match ws with
  | [] => Ok []
  | w :: ws => bs ← w; rest ← write_all ws; Ok (bs ++ rest)
  end.

(** [impl_stacks_message_codec_for_int!] and [impl_byte_array_message_codec!]. *)
Definition int_codec (n : nat) : StacksMessageCodec Z :=
  mkCodec (fun x => Ok (be_encode n x)) (bs ← net_read read_error (read_exact n); mret (be_decode bs)).
Definition bytes_codec (n : nat) : StacksMessageCodec (list Z) :=
  mkCodec (fun x => Ok x) (net_read read_error (read_exact n)).

Notation u8_codec := (int_codec 1).
Notation u16_codec := (int_codec 2).
Notation u32_codec := (int_codec 4).
Notation u64_codec := (int_codec 8).
Notation Hash160_codec := (bytes_codec 20).
Notation BlockHeaderHash_codec := (bytes_codec 32).
Notation MessageSignature_codec := (bytes_codec 65).

(** ** Vectors *)

Definition MAX_PAYLOAD_LEN : Z := 1 + 16 * 1024 * 1024.
Definition PREAMBLE_ENCODED_SIZE : Z := 4 + 4 + 4 + 8 + 20 + 8 + 20 + 4 + 65 + 4.
Definition MAX_RELAYERS_LEN : Z := 16.
Definition NEIGHBOR_ADDRESS_ENCODED_SIZE : Z := 16 + 2 + 20.
Definition RELAY_DATA_ENCODED_SIZE : Z := NEIGHBOR_ADDRESS_ENCODED_SIZE + 4.
Definition MAX_MESSAGE_LEN : Z := MAX_PAYLOAD_LEN + (PREAMBLE_ENCODED_SIZE + MAX_RELAYERS_LEN * RELAY_DATA_ENCODED_SIZE).

Fixpoint read_items {T} (n : nat) (c : StacksMessageCodec T) : NetReader (list T) :=
  match n with
  | O => mret []
  | S n => x ← read_next c; l ← read_items n c; mret (x :: l)
  end.

(** [size_of] is [mem::size_of::<T>()]. *)
Definition read_next_vec {T} (size_of : Z) (c : StacksMessageCodec T) (num_items max_items : Z) : NetReader (list T) :=
  len ← read_next u32_codec;
  if (if 0 <? max_items then max_items <? len else negb (len =? num_items)) then net_fail
  else if MAX_MESSAGE_LEN <? size_of * len then net_fail
  else read_items (Z.to_nat len) c.
Definition read_next_at_most {T} (size_of : Z) (c : StacksMessageCodec T) (max_items : Z) : NetReader (list T) :=
  read_next_vec size_of c 0 max_items.

(** The length is cast to u32. *)
Definition vec_codec {T} (size_of : Z) (c : StacksMessageCodec T) : StacksMessageCodec (list T) :=
  mkCodec
    (fun l => write_all (write_next u32_codec (wrap 32 (Z.of_nat (length l))) :: map (write_next c) l))
    (read_next_at_most size_of c (2 ^ 32 - 1)).

(** ** Strings *)

Definition CONTRACT_MIN_NAME_LENGTH : Z := 5.
Definition CONTRACT_MAX_NAME_LENGTH : Z := 40.

Definition is_printable (s : string) : bool :=
  forallb (fun c => negb (((c <? 0x20) && negb (c =? 9) && negb (c =? 10)) || (0x7e <? c))) (string_bytes s).

Definition StacksString_codec : StacksMessageCodec string :=
  mkCodec
    (fun s => write_next (vec_codec 1 u8_codec) (string_bytes s))
    (bytes ← bounded MAX_MESSAGE_LEN (read_next (vec_codec 1 u8_codec));
     if utf8_valid bytes && is_printable (bytes_string bytes) then mret (bytes_string bytes) else net_fail).

(** A length byte between the bounds, then the characters. *)
Definition name_codec (min max : Z) (try_from : string -> Res BadName string) : StacksMessageCodec string :=
  mkCodec
    (fun s =>
       if (str_len s <? min) || (max <? str_len s) then Err SerializeError
       else write_all [write_next u8_codec (wrap 8 (str_len s)); Ok (string_bytes s)])
    (len_byte ← read_next u8_codec;
     if (len_byte <? min) || (max <? len_byte) then net_fail
     else
       bytes ← net_read read_error (read_exact (Z.to_nat len_byte));
       if utf8_valid bytes then net_lift (map_err (fun _ => DeserializeError) (try_from (bytes_string bytes))) else net_fail).
Definition ClarityName_codec : StacksMessageCodec string := name_codec 0 MAX_STRING_LEN ClarityName_try_from.
Definition ContractName_codec : StacksMessageCodec string :=
  name_codec CONTRACT_MIN_NAME_LENGTH CONTRACT_MAX_NAME_LENGTH ContractName_try_from.

(** ** Addresses, principals and values *)

Definition StacksAddress_codec : StacksMessageCodec StacksAddress :=
  mkCodec
    (fun a => write_all [write_next u8_codec (addr_version a); Ok (addr_bytes a)])
    (version ← read_next u8_codec; hash160 ← read_next Hash160_codec; mret (mkAddress version hash160)).

Definition PrincipalData_codec : StacksMessageCodec PrincipalData :=
  mkCodec (fun p => lift_panic (principal_serialize p)) (net_read (fun _ => DeserializeError) principal_deserialize).

Definition Value_codec : StacksMessageCodec Value :=
  mkCodec (fun v => lift_panic (serialize_write v))
    (bounded BOUND_VALUE_SERIALIZATION_BYTES (net_read read_error (inner_deserialize_read MAX_LEVELS None))).

(** * Round trips *)

(** [p] reads exactly the bytes [bs], with result [a], from any reader that starts
    with them and whose bound leaves room for them. *)
Definition net_reads {A} (p : NetReader A) (bs : list Z) (a : A) : Prop :=
  forall rest m k, 0 <= k -> k + Z.of_nat (length bs) <= m -> m < 2 ^ 63 ->
  p (mkReader (bs ++ rest) m k) = Ok (a, mkReader rest m (k + Z.of_nat (length bs))).

(** A reader gets a result with property [P] from the bytes. *)
Definition reads_some {A} (p : NetReader A) (bs : list Z) (P : A -> Prop) : Prop := exists a, net_reads p bs a /\ P a.

Definition fits (bs : list Z) : Prop := Z.of_nat (length bs) <= MAX_MESSAGE_LEN.
Lemma fits_app b1 b2 : fits (b1 ++ b2) -> fits b1 /\ fits b2.
Proof. unfold fits. rewrite length_app. lia. Qed.

(** What the codec writes for an item it reads back as the same item, if it fits
    in a message. *)
Definition round_trips {T} (c : StacksMessageCodec T) (ok : T -> Prop) (same : relation T) : Prop :=
  forall x bs, ok x -> fits bs -> write_next c x = Ok bs -> reads_some (read_next c) bs (fun x' => same x' x).
Lemma codec_intro {T} ser de (ok : T -> Prop) (same : relation T) :
  (forall x bs, ok x -> fits bs -> ser x = Ok bs -> reads_some de bs (fun x' => same x' x)) ->
  round_trips (mkCodec ser de) ok same.
Proof. done. Qed.
(** The special case of a codec that reads back the very item. *)
Lemma round_trips_eq {T} (c : StacksMessageCodec T) ok x bs :
  round_trips c ok eq -> ok x -> fits bs -> write_next c x = Ok bs -> net_reads (read_next c) bs x.
Proof. intros Hc Hx Hf Hs. by destruct (Hc x bs Hx Hf Hs) as (x' & Hr & ->). Qed.
Lemma round_trips_intro {T} (c : StacksMessageCodec T) (ok : T -> Prop) :
  (forall x bs, ok x -> fits bs -> write_next c x = Ok bs -> net_reads (read_next c) bs x) -> round_trips c ok eq.
Proof. intros Hc x bs Hx Hf Hs. exists x. auto. Qed.

Lemma net_reads_ret {A} (a : A) : net_reads (mret a) [] a.
Proof. intros rest m k Hk Hm _. cbn. by rewrite Z.add_0_r. Qed.
Lemma net_reads_lift {A} (m : Res net_error A) a : m = Ok a -> net_reads (net_lift m) [] a.
Proof. intros -> rest b k Hk Hb _. cbn. by rewrite Z.add_0_r. Qed.
Lemma net_reads_bind {A B} (p : NetReader A) (f : A -> NetReader B) b1 b2 a c :
  net_reads p b1 a -> net_reads (f a) b2 c -> net_reads (x ← p; f x) (b1 ++ b2) c.
Proof.
  intros Hp Hf rest m k Hk Hm Hb. rewrite length_app in *. rewrite <-(assoc_L (++)).
  unfold mbind, net_bind. rewrite Hp by lia. rewrite Hf by lia. do 3 f_equal. lia.
Qed.
Lemma net_reads_bind_end {A B} (p : NetReader A) (f : A -> NetReader B) b1 a c :
  net_reads p b1 a -> net_reads (f a) [] c -> net_reads (x ← p; f x) b1 c.
Proof. intros Hp Hf. rewrite <-(app_nil_r b1). by apply (net_reads_bind p f b1 [] a). Qed.
Lemma net_reads_bind_nil {A B} (p : NetReader A) (f : A -> NetReader B) b2 a c :
  net_reads p [] a -> net_reads (f a) b2 c -> net_reads (x ← p; f x) b2 c.
Proof. intros Hp Hf. by apply (net_reads_bind p f [] b2 a). Qed.
Lemma net_reads_read {A} f (p : Reader A) bs a : reads p bs a -> net_reads (net_read f p) bs a.
Proof. intros Hp rest m k Hk Hm Hb. unfold net_read. by rewrite Hp. Qed.

Lemma net_reads_bounded {A} limit (p : NetReader A) bs a :
  net_reads p bs a -> Z.of_nat (length bs) <= limit -> limit < 2 ^ 63 -> net_reads (bounded limit p) bs a.
Proof.
  intros Hp Hl Hlim rest m k Hk Hm Hb. unfold bounded. cbn [max_len read_so_far fd].
  rewrite take_app_ge by lia. unfold from_reader. rewrite Hp by lia. cbn [mbind res_bind read_so_far]. by rewrite Z.add_0_l, Nat2Z.id, drop_app_length.
Qed.

Lemma write_all_cons w ws bs : write_all (w :: ws) = Ok bs <-> exists b1 b2, w = Ok b1 /\ write_all ws = Ok b2 /\ bs = b1 ++ b2.
Proof.
  cbn. split.
  - intros (b1 & H1 & (b2 & H2 & [= <-])%bind_Ok)%bind_Ok. eauto.
  - intros (b1 & b2 & -> & H & ->). cbn. by rewrite H.
Qed.
Lemma write_all_nil bs : write_all [] = Ok bs <-> bs = [].
Proof. cbn. split; [by intros [= <-]|by intros ->]. Qed.

(** ** Records *)

Section records.
Context {T A : Type} (c : StacksMessageCodec T) (ok : T -> Prop) (same : relation T).
Implicit Types (P : A -> Prop) (f : T -> NetReader A).

Lemma next_field x f ws bs P :
  round_trips c ok same -> ok x -> (forall x' bs', same x' x -> fits bs' -> write_all ws = Ok bs' -> reads_some (f x') bs' P) ->
  fits bs -> write_all (write_next c x :: ws) = Ok bs -> reads_some (x' ← read_next c; f x') bs P.
Proof.
  intros Hc Hx Hn Hf (b1 & b2 & H1 & H2 & ->)%write_all_cons. apply fits_app in Hf as [Hf1 Hf2].
  destruct (Hc x b1 Hx Hf1 H1) as (x' & Hr & Hs). destruct (Hn x' b2 Hs Hf2 H2) as (a & Ha & HP).
  exists a. split; [|done]. by eapply net_reads_bind.
Qed.
Lemma next_eq x f ws bs P :
  round_trips c ok eq -> ok x -> (forall bs', fits bs' -> write_all ws = Ok bs' -> reads_some (f x) bs' P) ->
  fits bs -> write_all (write_next c x :: ws) = Ok bs -> reads_some (x' ← read_next c; f x') bs P.
Proof.
  intros Hc Hx Hn Hf (b1 & b2 & H1 & H2 & ->)%write_all_cons. apply fits_app in Hf as [Hf1 Hf2].
  destruct (Hn b2 Hf2 H2) as (a & Ha & HP). exists a. split; [|done].
  eapply net_reads_bind; [by eapply round_trips_eq|done].
Qed.
Lemma next_bounded x f ws bs P :
  round_trips c ok same -> ok x -> (forall x' bs', same x' x -> fits bs' -> write_all ws = Ok bs' -> reads_some (f x') bs' P) ->
  fits bs -> write_all (write_next c x :: ws) = Ok bs ->
  reads_some (x' ← bounded MAX_MESSAGE_LEN (read_next c); f x') bs P.
Proof.
  intros Hc Hx Hn Hf (b1 & b2 & H1 & H2 & ->)%write_all_cons. apply fits_app in Hf as [Hf1 Hf2].
  destruct (Hc x b1 Hx Hf1 H1) as (x' & Hr & Hs). destruct (Hn x' b2 Hs Hf2 H2) as (a & Ha & HP).
  exists a. split; [|done]. eapply net_reads_bind; [|exact Ha]. by apply net_reads_bounded.
Qed.
Lemma no_more (a : A) bs P : P a -> fits bs -> write_all [] = Ok bs -> reads_some (mret a) bs P.
Proof. intros HP _ ->%write_all_nil. exists a. split; [apply net_reads_ret|done]. Qed.
End records.

(** ** Integers, byte arrays and vectors *)

Definition uint_ok (n : nat) (x : Z) : Prop := 0 <= x < 256 ^ Z.of_nat n.

Lemma int_round_trips n : round_trips (int_codec n) (uint_ok n) eq.
Proof.
  apply round_trips_intro. intros x bs Hx _ [= <-]. eapply net_reads_bind_end.
  - apply net_reads_read, reads_exact, length_be_encode.
  - cbn beta. rewrite be_decode_encode_small by done. apply net_reads_ret.
Qed.
Lemma bytes_round_trips n : round_trips (bytes_codec n) (fun bs => length bs = n) eq.
Proof. apply round_trips_intro. intros x bs Hx _ [= <-]. by apply net_reads_read, reads_exact. Qed.

Lemma items_round_trip {T} (c : StacksMessageCodec T) ok same l bs :
  round_trips c ok same -> Forall ok l -> fits bs -> write_all (map (write_next c) l) = Ok bs ->
  reads_some (read_items (length l) c) bs (fun l' => Forall2 same l' l).
Proof.
  intros Hc Hl. revert bs. induction Hl as [|x l Hx _ IH]; intros bs Hf.
  - intros ->%write_all_nil. exists []. split; [apply net_reads_ret|constructor].
  - cbn [map]. intros (b1 & b2 & H1 & H2 & ->)%write_all_cons. apply fits_app in Hf as [Hf1 Hf2].
    destruct (Hc x b1 Hx Hf1 H1) as (x' & Hr & Hs). destruct (IH _ Hf2 H2) as (l' & Hr' & Hs'). exists (x' :: l'). split; [|by constructor]. cbn [length read_items].
    eapply net_reads_bind; [exact Hr|]. eapply net_reads_bind_end; [exact Hr'|]. apply net_reads_ret.
Qed.

(** A vector fits if its items in memory do. *)
Definition vec_ok {T} (size_of : Z) (ok : T -> Prop) (l : list T) : Prop :=
  Forall ok l /\ size_of * Z.of_nat (length l) <= MAX_MESSAGE_LEN /\ Z.of_nat (length l) < 2 ^ 32.

Lemma vec_round_trips {T} size_of (c : StacksMessageCodec T) ok same :
  round_trips c ok same -> round_trips (vec_codec size_of c) (vec_ok size_of ok) (Forall2 same).
Proof.
  intros Hc l bs (Hl & Hsize & Hlen) Hf (b1 & b2 & H1 & H2 & ->)%write_all_cons. apply fits_app in Hf as [Hf1 Hf2].
  destruct (items_round_trip c ok same l b2 Hc Hl Hf2 H2) as (l' & Hr & Hs). exists l'. split; [|done].
  rewrite wrap_small in H1 by (unfold in_u; lia). cbn [read_next consensus_deserialize vec_codec].
  unfold read_next_at_most, read_next_vec. eapply net_reads_bind.
  - apply (round_trips_eq _ _ _ _ (int_round_trips 4)); [|done|exact H1]. unfold uint_ok. cbn. lia.
  - cbn beta. rewrite (proj2 (Z.ltb_lt 0 _)), (proj2 (Z.ltb_ge _ _)), (proj2 (Z.ltb_ge _ _)) by lia. by rewrite Nat2Z.id.
Qed.
Lemma vec_round_trips_eq {T} size_of (c : StacksMessageCodec T) ok :
  round_trips c ok eq -> round_trips (vec_codec size_of c) (vec_ok size_of ok) eq.
Proof.
  intros Hc l bs Hl Hf Hs. destruct (vec_round_trips size_of c ok eq Hc l bs Hl Hf Hs) as (l' & Hr & Heq).
  exists l'. split; [done|]. by apply list_eq_Forall2.
Qed.

(** ** Strings *)

Lemma printable_ascii s : is_printable s = true -> Forall (fun b => b <= 127) (string_bytes s).
Proof.
  intros H. apply Forall_forall. intros b Hb%list_elem_of_In. apply (proj1 (forallb_forall _ _) H) in Hb.
  destruct (Z.ltb_spec 0x7e b); [|lia]. by rewrite orb_true_r in Hb.
Qed.
Lemma u8_uint x : u8 x -> uint_ok 1 x.
Proof. done. Qed.
Lemma bytes_written l : Forall u8 l -> write_all (map (write_next u8_codec) l) = Ok l.
Proof.
  induction 1 as [|x l Hx _ IH]; [done|]. cbn [map]. apply write_all_cons. exists [x], l. split_and!; [|done|done].
  cbn. by rewrite Z.mod_small.
Qed.

Lemma StacksString_round_trips : round_trips StacksString_codec (fun s => is_printable s = true) eq.
Proof.
  apply round_trips_intro. intros s bs Hp Hf Hs. pose proof (string_bytes_u8 s) as Hu.
  pose proof Hs as (b1 & b2 & [= <-] & H2 & ->)%write_all_cons. rewrite bytes_written in H2 by done. injection H2 as <-.
  eapply net_reads_bind_end.
  - apply net_reads_bounded; [|done|done].
    apply (round_trips_eq _ _ _ _ (vec_round_trips_eq 1 u8_codec _ (int_round_trips 1))); [|done|exact Hs].
    split; [by eapply Forall_impl; [exact Hu|apply u8_uint]|]. apply fits_app in Hf as [_ Hf]. unfold fits in Hf.
    change MAX_MESSAGE_LEN with 16778030 in *. lia.
  - cbn beta. rewrite utf8_valid_ascii, bytes_string_bytes, Hp by by apply printable_ascii. apply net_reads_ret.
Qed.

Definition name_ok (min max : Z) (ok : string -> bool) (s : string) : Prop := min <= str_len s <= max /\ ok s = true.

Lemma name_round_trips min max try_from ok :
  max <= 255 -> (forall s, ok s = true -> Forall (fun b => b <= 127) (string_bytes s) /\ try_from s = Ok s) ->
  round_trips (name_codec min max try_from) (name_ok min max ok) eq.
Proof.
  intros Hmax Hfacts. apply round_trips_intro. intros s bs [Hlen Hok] Hf Hs. destruct (Hfacts s Hok) as [Ha Ht].
  pose proof (str_len_nonneg s). cbn [write_next consensus_serialize name_codec] in Hs.
  rewrite (proj2 (Z.ltb_ge _ _)), (proj2 (Z.ltb_ge _ _)), wrap_small in Hs by (unfold in_u; lia). cbn [orb] in Hs.
  apply write_all_cons in Hs as (b1 & b2 & H1 & (b3 & b4 & [= <-] & ->%write_all_nil & ->)%write_all_cons & ->).
  rewrite app_nil_r in *. cbn [read_next consensus_deserialize name_codec]. apply fits_app in Hf as [Hf _]. eapply net_reads_bind.
  - apply (round_trips_eq _ _ _ _ (int_round_trips 1)); [|done|exact H1]. unfold uint_ok. cbn. lia.
  - cbn beta. rewrite (proj2 (Z.ltb_ge _ _)), (proj2 (Z.ltb_ge _ _)) by lia. cbn [orb].
    eapply net_reads_bind_end; [apply net_reads_read, reads_exact; rewrite length_string_bytes; unfold str_len; lia|].
    cbn beta. rewrite utf8_valid_ascii, bytes_string_bytes by done. apply net_reads_lift. by rewrite Ht.
Qed.
Lemma ClarityName_round_trips : round_trips ClarityName_codec (name_ok 0 MAX_STRING_LEN clarity_name_ok) eq.
Proof. apply name_round_trips; [unfold MAX_STRING_LEN; lia|]. intros s (? & _ & ?)%clarity_name_ok_facts. done. Qed.
Lemma ContractName_round_trips :
  round_trips ContractName_codec (name_ok CONTRACT_MIN_NAME_LENGTH CONTRACT_MAX_NAME_LENGTH contract_name_ok) eq.
Proof. apply name_round_trips; [unfold CONTRACT_MAX_NAME_LENGTH; lia|]. intros s (? & _ & ?)%contract_name_ok_facts. done. Qed.

(** ** Addresses, principals and values *)

Definition principal_ok (p : PrincipalData) : bool :=
  match p with Standard s => standard_ok s | Contract c => contract_id_ok c end.

Lemma PrincipalData_round_trips : round_trips PrincipalData_codec (fun p => principal_ok p = true) eq.
Proof.
  apply round_trips_intro. intros p bs Hp _ Hs%lift_panic_Ok. apply net_reads_read.
  unfold principal_serialize in Hs. apply bind_Ok in Hs as (body & Hb & [= <-]). unfold principal_deserialize.
  change (prefix_u8 (prefix_of_principal p) :: body) with ([prefix_u8 (prefix_of_principal p)] ++ body).
  eapply reads_bind; [by apply reads_exact|]. cbn beta. cbn [hd].
  eapply reads_bind_nil; [apply reads_lift; by rewrite prefix_from_u8_prefix|]. destruct p as [s|c]; cbn [prefix_of_principal].
  - injection Hb as <-. eapply reads_bind_end; [by apply reads_standard|apply reads_ret].
  - unfold serialize_contract_id in Hb. apply bind_Ok in Hb as (n & Hn & <-%Ok_inj). apply andb_true_iff in Hp as [Hi Hc].
    apply contract_name_ok_facts in Hc as (? & ? & ?). eapply reads_bind; [by apply reads_standard|].
    eapply reads_bind_end; [by eapply reads_name|]. destruct c. apply reads_ret.
Qed.

Definition value_ok (v : Value) : Prop := wf_value v /\ (nesting v <= MAX_LEVELS)%nat.

Lemma Value_round_trips : round_trips Value_codec value_ok veq.
Proof.
  intros v bs [Hv Hn] _ Hs%lift_panic_Ok. destruct (value_type_self v Hv) as (t & _ & Hwt & _ & Ht).
  destruct (reads_untyped_all v MAX_LEVELS t bs) as (v' & Hr & He & _); [done..|]. exists v'. split; [|done].
  apply net_reads_bounded; [by apply net_reads_read|by apply (encoding_bounded v)|]. 
  unfold BOUND_VALUE_SERIALIZATION_BYTES, MAX_VALUE_SIZE. lia.
Qed.

(** ** What can be written *)

Definition written (w : Res net_error (list Z)) : Prop := exists bs, w = Ok bs.
Definition writable {T} (c : StacksMessageCodec T) (ok : T -> Prop) : Prop := forall x, ok x -> written (write_next c x).

Lemma all_written ws : Forall written ws -> written (write_all ws).
Proof.
  induction 1 as [|w ws [b Hb] _ [bs IH]]; [by exists []|]. exists (b ++ bs). apply write_all_cons. eauto.
Qed.
Lemma writable_at {T} (c : StacksMessageCodec T) ok x : writable c ok -> ok x -> written (write_next c x).
Proof. eauto. Qed.
Lemma vec_writable {T} size_of (c : StacksMessageCodec T) ok :
  writable c ok -> writable (vec_codec size_of c) (vec_ok size_of ok).
Proof.
  intros Hc l [Hl _]. apply all_written. constructor; [by eexists|]. apply Forall_map. by eapply Forall_impl.
Qed.
Lemma StacksString_writable : writable StacksString_codec (fun s => is_printable s = true).
Proof.
  intros s _. apply all_written. constructor; [by eexists|]. apply Forall_map, Forall_true. intros x. by eexists.
Qed.
Lemma name_writable min max try_from ok : writable (name_codec min max try_from) (name_ok min max ok).
Proof.
  intros s [Hlen _]. unfold write_next. cbn [consensus_serialize name_codec].
  rewrite (proj2 (Z.ltb_ge _ _)), (proj2 (Z.ltb_ge _ _)) by lia. apply all_written. repeat constructor; by eexists.
Qed.
Lemma PrincipalData_writable : writable PrincipalData_codec (fun p => principal_ok p = true).
Proof.
  intros p Hp. unfold written, write_next. cbn [consensus_serialize PrincipalData_codec]. unfold principal_serialize.
  destruct p as [s|c]; [by eexists|]. unfold serialize_contract_id.
  apply andb_true_iff in Hp as [_ (_ & ? & _)%contract_name_ok_facts]. rewrite serialize_name_Ok by done. by eexists.
Qed.
Lemma Value_writable : writable Value_codec value_ok.
Proof.
  intros v [Hv _]. destruct (serialize_write_wf v Hv) as (bs & Hb & _). exists bs.
  unfold write_next. cbn [consensus_serialize Value_codec]. by rewrite Hb.
Qed.

Create HintDb codec.
#[export] Hint Resolve int_round_trips bytes_round_trips vec_round_trips vec_round_trips_eq StacksString_round_trips : codec.
#[export] Hint Resolve ClarityName_round_trips ContractName_round_trips PrincipalData_round_trips Value_round_trips : codec.

#[export] Hint Resolve vec_writable StacksString_writable name_writable : codec.
#[export] Hint Resolve PrincipalData_writable Value_writable : codec.

(** All fields of a record can be written. *)
Ltac write_fields :=
  apply all_written; repeat apply Forall_cons_2; try apply Forall_nil_2;
  first [by eexists | eapply writable_at; [solve [eauto with codec]|try done]].

(** The next field of a record, with the property its codec asks for. *)
Ltac next :=
  first
    [ eapply next_eq; [solve [eauto with codec]|try done|intros ?]
    | eapply next_field; [solve [eauto with codec]|try done|intros ? ? ?]
    | eapply next_bounded; [solve [eauto with codec]|try done|intros ? ? ?] ]; cbn beta.

Definition address_ok (a : StacksAddress) : Prop := u8 (addr_version a) /\ length (addr_bytes a) = 20%nat.

Lemma StacksAddress_round_trips : round_trips StacksAddress_codec address_ok eq.
Proof.
  apply codec_intro. intros [version bytes] bs [Hv Hb]. cbn beta.
  change (Ok (addr_bytes ?a)) with (write_next Hash160_codec (addr_bytes a)). do 2 next. by apply no_more.
Qed.
Lemma StacksAddress_writable : writable StacksAddress_codec address_ok.
Proof. intros a _. write_fields. Qed.
#[export] Hint Resolve StacksAddress_round_trips StacksAddress_writable : codec.
