(* ===== verification/TransactionCodec.v ===== *)
(** The wire format of transactions: the codecs of authorizations
    (src/chainstate/stacks/auth.rs), of payloads, post-conditions and whole
    transactions (transaction.rs) and of microblock headers (block.rs), with the
    theorem that a transaction is read back as it was written. *)
From stdpp Require Import base strings numbers list gmap.
From Stdlib Require Import ZArith Lia.
From S2P Require Import Prelude Names BTree Types TypeFacts Subtyping Supertypes Values Serialization Codec ClarityDatabase StacksTypes NetCodec.
#[local] Open Scope Z_scope.

(** * Interfaces *)

(** The library of elliptic curves: which 33 bytes are a compressed point, the
    uncompressed form of a point, which 64 bytes are a compact signature, the
    recovery of a key and the signature of a message.  Private keys are bytes. *)
Class Secp256k1 := {
  point_valid : list Z -> bool;
  serialize_uncompressed : list Z -> list Z;
  compact_valid : list Z -> bool;
  ecdsa_recover : list Z -> Z * list Z -> option (list Z);
  from_secret_key : list Z -> list Z;
  sign_recoverable : list Z -> list Z -> Z * list Z;
}.

(** [mem::size_of] of the items of vectors. *)
Class MemSizes := {
  size_of_auth_field : Z;
  size_of_value : Z;
  size_of_post_condition : Z;
  size_of_transaction : Z;
}.

(** The lexer of Clarity: the text is one token, a variable. *)
Class Lexer := { is_clarity_variable : string -> bool }.

(** * Signatures *)

Definition MESSAGE_SIGNATURE_ENCODED_SIZE : Z := 65.
Definition MessageSignature_empty : list Z := repeat 0 65.

(** [LibSecp256k1RecoveryID::from_i32] takes 0 to 3. *)
Definition to_secp256k1_recoverable `{Secp256k1} (self : list Z) : option (Z * list Z) :=
  match self with
  | [] => None
  | recid :: sig_bytes =>
    if (0 <=? recid) && (recid <=? 3) && compact_valid sig_bytes then Some (recid, sig_bytes) else None
  end.
Definition from_secp256k1_recoverable (sig : Z * list Z) : list Z := sig.1 :: sig.2.

(** * Tags *)

Definition SinglesigHashMode_u8 (m : SinglesigHashMode) : Z := match m with P2PKH => 0 | P2WPKH => 2 end.
Definition SinglesigHashMode_from_u8 (n : Z) : option SinglesigHashMode :=
  match n with 0 => Some P2PKH | 2 => Some P2WPKH | _ => None end.
Definition MultisigHashMode_u8 (m : MultisigHashMode) : Z := match m with P2SH => 1 | P2WSH => 3 end.
Definition MultisigHashMode_from_u8 (n : Z) : option MultisigHashMode :=
  match n with 1 => Some P2SH | 3 => Some P2WSH | _ => None end.
Definition key_encoding_u8 (e : TransactionPublicKeyEncoding) : Z := match e with Compressed => 0 | Uncompressed => 1 end.
Definition key_encoding_from_u8 (n : Z) : option TransactionPublicKeyEncoding :=
  match n with 0 => Some Compressed | 1 => Some Uncompressed | _ => None end.
Definition FungibleConditionCode_u8 (c : FungibleConditionCode) : Z :=
  match c with SentEq => 1 | SentGt => 2 | SentGe => 3 | SentLt => 4 | SentLe => 5 end.
Definition FungibleConditionCode_from_u8 (b : Z) : option FungibleConditionCode :=
  match b with 1 => Some SentEq | 2 => Some SentGt | 3 => Some SentGe | 4 => Some SentLt | 5 => Some SentLe | _ => None end.
Definition NonfungibleConditionCode_u8 (c : NonfungibleConditionCode) : Z := match c with Sent => 0x10 | NotSent => 0x11 end.
Definition NonfungibleConditionCode_from_u8 (b : Z) : option NonfungibleConditionCode :=
  match b with 0x10 => Some Sent | 0x11 => Some NotSent | _ => None end.
Definition anchor_mode_u8 (m : TransactionAnchorMode) : Z :=
  match m with OnChainOnly => 1 | OffChainOnly => 2 | AnyAnchor => 3 end.
Definition post_condition_mode_u8 (m : TransactionPostConditionMode) : Z := match m with Allow => 1 | Deny => 2 end.
Definition version_u8 (v : TransactionVersion) : Z := match v with Mainnet => 0 | Testnet => 0x80 end.

Inductive TransactionAuthFlags := FlagStandard | FlagSponsored.
Definition auth_flags_u8 (f : TransactionAuthFlags) : Z := match f with FlagStandard => 0x04 | FlagSponsored => 0x05 end.

(** [ok_or] of a tag. *)
Definition ok_or_fail {A} (o : option A) : NetReader A :=
  match o with Some a => mret a | None => net_fail end.

#[global] Instance TransactionPublicKeyEncoding_eq_dec : EqDecision TransactionPublicKeyEncoding.
Proof. solve_decision. Defined.
#[global] Instance SinglesigHashMode_eq_dec : EqDecision SinglesigHashMode.
Proof. solve_decision. Defined.
#[global] Instance MultisigHashMode_eq_dec : EqDecision MultisigHashMode.
Proof. solve_decision. Defined.
#[global] Instance TransactionAnchorMode_eq_dec : EqDecision TransactionAnchorMode.
Proof. solve_decision. Defined.
#[global] Instance StacksMicroblockHeader_eq_dec : EqDecision StacksMicroblockHeader.
Proof. solve_decision. Defined.

Section codecs.
Context `{Hsecp : !Secp256k1, Hsizes : !MemSizes, Hlexer : !Lexer}.

(** * Authorizations *)

Definition StacksPublicKeyBuffer_from_public_key (pubk : StacksPublicKey) : list Z := pubkey pubk.
Definition to_public_key (buf : list Z) : Res net_error StacksPublicKey :=
  if point_valid buf then Ok (mkPublicKey buf (Z.of_nat (length buf) =? 33)) else Err DeserializeError.
Definition set_compressed (value : bool) (pubk : StacksPublicKey) : StacksPublicKey := mkPublicKey (pubkey pubk) value.

Notation StacksPublicKeyBuffer_codec := (bytes_codec 33).

Definition TransactionAuthField_codec : StacksMessageCodec TransactionAuthField :=
  mkCodec
    (fun self =>
       match self with
       | PublicKey pubk =>
         let field_id := if compressed pubk then 0x00 else 0x01 in
         write_all [write_next u8_codec field_id;
                    write_next StacksPublicKeyBuffer_codec (StacksPublicKeyBuffer_from_public_key pubk)]
       | Signature key_encoding sig =>
         let field_id := if decide (key_encoding = Compressed) then 0x02 else 0x03 in
         write_all [write_next u8_codec field_id; write_next MessageSignature_codec sig]
       end)
    (field_id ← read_next u8_codec;
     match field_id with
     | 0x00 =>
       pubkey_buf ← read_next StacksPublicKeyBuffer_codec;
       pubkey ← net_lift (to_public_key pubkey_buf);
       mret (PublicKey (set_compressed true pubkey))
     | 0x01 =>
       pubkey_buf ← read_next StacksPublicKeyBuffer_codec;
       pubkey ← net_lift (to_public_key pubkey_buf);
       mret (PublicKey (set_compressed false pubkey))
     | 0x02 => sig ← read_next MessageSignature_codec; mret (Signature Compressed sig)
     | 0x03 => sig ← read_next MessageSignature_codec; mret (Signature Uncompressed sig)
     | _ => net_fail
     end).

(** The u16 counter of signatures, [None] at an overflow. *)
Definition checked_add_u16 (n : Z) : option Z := if n + 1 <? 2 ^ 16 then Some (n + 1) else None.
Fixpoint count_signatures (num_sigs : Z) (fields : list TransactionAuthField) : option Z :=
  match fields with
  | [] => Some num_sigs
  | PublicKey _ :: fields => count_signatures num_sigs fields
  | Signature _ _ :: fields => n ← checked_add_u16 num_sigs; count_signatures n fields
  end.
Definition field_uncompressed (field : TransactionAuthField) : bool :=
  match field with
  | PublicKey pubk => negb (compressed pubk)
  | Signature key_encoding _ => bool_decide (key_encoding = Uncompressed)
  end.

Definition MultisigSpendingCondition_codec : StacksMessageCodec MultisigSpendingCondition :=
  mkCodec
    (fun self =>
       write_all [write_next u8_codec (MultisigHashMode_u8 (multi_hash_mode self));
                  write_next Hash160_codec (multi_signer self);
                  write_next u64_codec (multi_nonce self);
                  write_next u64_codec (multi_fee_rate self);
                  write_next (vec_codec size_of_auth_field TransactionAuthField_codec) (fields self);
                  write_next u16_codec (multi_signatures_required self)])
    (hash_mode_u8 ← read_next u8_codec;
     hash_mode ← ok_or_fail (MultisigHashMode_from_u8 hash_mode_u8);
     signer ← read_next Hash160_codec;
     nonce ← read_next u64_codec;
     fee_rate ← read_next u64_codec;
     fields ← bounded MAX_MESSAGE_LEN (read_next (vec_codec size_of_auth_field TransactionAuthField_codec));
     signatures_required ← read_next u16_codec;
     num_sigs_given ← ok_or_fail (count_signatures 0 fields);
     let have_uncompressed := existsb field_uncompressed fields in
     if negb (num_sigs_given =? signatures_required) then net_fail
     else if have_uncompressed && bool_decide (hash_mode = P2WSH) then net_fail
     else mret (mkMultisig hash_mode signer nonce fee_rate fields signatures_required)).

Definition SinglesigSpendingCondition_codec : StacksMessageCodec SinglesigSpendingCondition :=
  mkCodec
    (fun self =>
       write_all [write_next u8_codec (SinglesigHashMode_u8 (single_hash_mode self));
                  write_next Hash160_codec (single_signer self);
                  write_next u64_codec (single_nonce self);
                  write_next u64_codec (single_fee_rate self);
                  write_next u8_codec (key_encoding_u8 (key_encoding self));
                  write_next MessageSignature_codec (signature self)])
    (hash_mode_u8 ← read_next u8_codec;
     hash_mode ← ok_or_fail (SinglesigHashMode_from_u8 hash_mode_u8);
     signer ← read_next Hash160_codec;
     nonce ← read_next u64_codec;
     fee_rate ← read_next u64_codec;
     key_encoding_u8 ← read_next u8_codec;
     key_encoding ← ok_or_fail (key_encoding_from_u8 key_encoding_u8);
     signature ← read_next MessageSignature_codec;
     if bool_decide (hash_mode = P2WPKH) && bool_decide (key_encoding <> Compressed) then net_fail
     else mret (mkSinglesig hash_mode signer nonce fee_rate key_encoding signature)).

(** The mode byte is read ahead and put back with [chain]. *)
Definition peek {A} (p : NetReader A) : NetReader A := fun r => '(a, _) ← p r; Ok (a, r).
Definition TransactionSpendingCondition_codec : StacksMessageCodec TransactionSpendingCondition :=
  mkCodec
    (fun self =>
       match self with
       | Singlesig data => write_next SinglesigSpendingCondition_codec data
       | Multisig data => write_next MultisigSpendingCondition_codec data
       end)
    (hash_mode_u8 ← peek (read_next u8_codec);
     if bool_decide (is_Some (SinglesigHashMode_from_u8 hash_mode_u8)) then
       cond ← read_next SinglesigSpendingCondition_codec; mret (Singlesig cond)
     else if bool_decide (is_Some (MultisigHashMode_from_u8 hash_mode_u8)) then
       cond ← read_next MultisigSpendingCondition_codec; mret (Multisig cond)
     else net_fail).

Definition TransactionAuth_codec : StacksMessageCodec TransactionAuth :=
  mkCodec
    (fun self =>
       match self with
       | AuthStandard origin_condition =>
         write_all [write_next u8_codec (auth_flags_u8 FlagStandard);
                    write_next TransactionSpendingCondition_codec origin_condition]
       | AuthSponsored origin_condition sponsor_condition =>
         write_all [write_next u8_codec (auth_flags_u8 FlagSponsored);
                    write_next TransactionSpendingCondition_codec origin_condition;
                    write_next TransactionSpendingCondition_codec sponsor_condition]
       end)
    (type_id ← read_next u8_codec;
     match type_id with
     | 0x04 => origin_auth ← read_next TransactionSpendingCondition_codec; mret (AuthStandard origin_auth)
     | 0x05 =>
       origin_auth ← read_next TransactionSpendingCondition_codec;
       sponsor_auth ← read_next TransactionSpendingCondition_codec;
       mret (AuthSponsored origin_auth sponsor_auth)
     | _ => net_fail
     end).

(** * Payloads *)

(** [StacksMicroblockHeader::serialize] writes the empty signature to sign it. *)
Definition microblock_header_serialize (self : StacksMicroblockHeader) (empty_sig : bool) : Res net_error (list Z) :=
  write_all [write_next u8_codec (mblock_version self);
             write_next u16_codec (mblock_sequence self);
             write_next BlockHeaderHash_codec (mblock_prev_block self);
             write_next BlockHeaderHash_codec (mblock_tx_merkle_root self);
             write_next MessageSignature_codec (if empty_sig then MessageSignature_empty else mblock_signature self)].
Definition StacksMicroblockHeader_codec : StacksMessageCodec StacksMicroblockHeader :=
  mkCodec
    (fun self => microblock_header_serialize self false)
    (version ← read_next u8_codec;
     sequence ← read_next u16_codec;
     prev_block ← read_next BlockHeaderHash_codec;
     tx_merkle_root ← read_next BlockHeaderHash_codec;
     signature ← read_next MessageSignature_codec;
     _ ← ok_or_fail (to_secp256k1_recoverable signature);
     mret (mkMicroblockHeader version sequence prev_block tx_merkle_root signature)).

Definition TransactionContractCall_codec : StacksMessageCodec TransactionContractCall :=
  mkCodec
    (fun self =>
       write_all [write_next StacksAddress_codec (call_address self);
                  write_next ContractName_codec (call_contract_name self);
                  write_next ClarityName_codec (call_function_name self);
                  write_next (vec_codec size_of_value Value_codec) (call_function_args self)])
    (address ← read_next StacksAddress_codec;
     contract_name ← read_next ContractName_codec;
     function_name ← read_next ClarityName_codec;
     function_args ← bounded MAX_MESSAGE_LEN (read_next (vec_codec size_of_value Value_codec));
     if negb (is_clarity_variable function_name) then net_fail
     else mret (mkContractCall address contract_name function_name function_args)).

Definition TransactionSmartContract_codec : StacksMessageCodec TransactionSmartContract :=
  mkCodec
    (fun self =>
       write_all [write_next ContractName_codec (contract_name self); write_next StacksString_codec (code_body self)])
    (name ← read_next ContractName_codec; code_body ← read_next StacksString_codec; mret (mkSmartContract name code_body)).

Notation TokenTransferMemo_codec := (bytes_codec 34).
Notation CoinbasePayload_codec := (bytes_codec 32).

Definition TransactionPayload_codec : StacksMessageCodec TransactionPayload :=
  mkCodec
    (fun self =>
       match self with
       | TokenTransfer address amount memo =>
         write_all [write_next u8_codec 0; write_next PrincipalData_codec address; write_next u64_codec amount;
                    write_next TokenTransferMemo_codec memo]
       | ContractCall cc => write_all [write_next u8_codec 2; write_next TransactionContractCall_codec cc]
       | SmartContract sc => write_all [write_next u8_codec 1; write_next TransactionSmartContract_codec sc]
       | PoisonMicroblock h1 h2 =>
         write_all [write_next u8_codec 3; write_next StacksMicroblockHeader_codec h1;
                    write_next StacksMicroblockHeader_codec h2]
       | Coinbase buf => write_all [write_next u8_codec 4; write_next CoinbasePayload_codec buf]
       end)
    (type_id ← read_next u8_codec;
     match type_id with
     | 0 =>
       principal ← read_next PrincipalData_codec;
       amount ← read_next u64_codec;
       memo ← read_next TokenTransferMemo_codec;
       mret (TokenTransfer principal amount memo)
     | 2 => payload ← read_next TransactionContractCall_codec; mret (ContractCall payload)
     | 1 => payload ← read_next TransactionSmartContract_codec; mret (SmartContract payload)
     | 3 =>
       h1 ← read_next StacksMicroblockHeader_codec;
       h2 ← read_next StacksMicroblockHeader_codec;
       if bool_decide (h1 = h2) then net_fail
       else if bool_decide (mblock_sequence h1 <> mblock_sequence h2) && bool_decide (mblock_prev_block h1 <> mblock_prev_block h2)
       then net_fail
       else mret (PoisonMicroblock h1 h2)
     | 4 => payload ← read_next CoinbasePayload_codec; mret (Coinbase payload)
     | _ => net_fail
     end).

(** * Post-conditions *)

Definition AssetInfo_codec : StacksMessageCodec AssetInfo :=
  mkCodec
    (fun self =>
       write_all [write_next StacksAddress_codec (info_contract_address self);
                  write_next ContractName_codec (info_contract_name self);
                  write_next ClarityName_codec (info_asset_name self)])
    (contract_address ← read_next StacksAddress_codec;
     contract_name ← read_next ContractName_codec;
     asset_name ← read_next ClarityName_codec;
     mret (mkAssetInfo contract_address contract_name asset_name)).

Definition PostConditionPrincipal_codec : StacksMessageCodec PostConditionPrincipal :=
  mkCodec
    (fun self =>
       match self with
       | PC_Origin => write_all [write_next u8_codec 0x01]
       | PC_Standard address => write_all [write_next u8_codec 0x02; write_next StacksAddress_codec address]
       | PC_Contract address contract_name =>
         write_all [write_next u8_codec 0x03; write_next StacksAddress_codec address;
                    write_next ContractName_codec contract_name]
       end)
    (principal_id ← read_next u8_codec;
     match principal_id with
     | 0x01 => mret PC_Origin
     | 0x02 => addr ← read_next StacksAddress_codec; mret (PC_Standard addr)
     | 0x03 =>
       addr ← read_next StacksAddress_codec;
       contract_name ← read_next ContractName_codec;
       mret (PC_Contract addr contract_name)
     | _ => net_fail
     end).

Definition TransactionPostCondition_codec : StacksMessageCodec TransactionPostCondition :=
  mkCodec
    (fun self =>
       match self with
       | PC_STX principal fungible_condition amount =>
         write_all [write_next u8_codec 0; write_next PostConditionPrincipal_codec principal;
                    write_next u8_codec (FungibleConditionCode_u8 fungible_condition); write_next u64_codec amount]
       | PC_Fungible principal asset_info fungible_condition amount =>
         write_all [write_next u8_codec 1; write_next PostConditionPrincipal_codec principal;
                    write_next AssetInfo_codec asset_info;
                    write_next u8_codec (FungibleConditionCode_u8 fungible_condition); write_next u64_codec amount]
       | PC_Nonfungible principal asset_info asset_value nonfungible_condition =>
         write_all [write_next u8_codec 2; write_next PostConditionPrincipal_codec principal;
                    write_next AssetInfo_codec asset_info; write_next Value_codec asset_value;
                    write_next u8_codec (NonfungibleConditionCode_u8 nonfungible_condition)]
       end)
    (asset_info_id ← read_next u8_codec;
     match asset_info_id with
     | 0 =>
       principal ← read_next PostConditionPrincipal_codec;
       condition_u8 ← read_next u8_codec;
       amount ← read_next u64_codec;
       condition_code ← ok_or_fail (FungibleConditionCode_from_u8 condition_u8);
       mret (PC_STX principal condition_code amount)
     | 1 =>
       principal ← read_next PostConditionPrincipal_codec;
       asset ← read_next AssetInfo_codec;
       condition_u8 ← read_next u8_codec;
       amount ← read_next u64_codec;
       condition_code ← ok_or_fail (FungibleConditionCode_from_u8 condition_u8);
       mret (PC_Fungible principal asset condition_code amount)
     | 2 =>
       principal ← read_next PostConditionPrincipal_codec;
       asset ← read_next AssetInfo_codec;
       asset_value ← read_next Value_codec;
       condition_u8 ← read_next u8_codec;
       condition_code ← ok_or_fail (NonfungibleConditionCode_from_u8 condition_u8);
       mret (PC_Nonfungible principal asset asset_value condition_code)
     | _ => net_fail
     end).

(** * Transactions *)

Definition MAX_TRANSACTION_LEN : Z := MAX_MESSAGE_LEN.

(** Payloads that a block must carry. *)
Definition must_be_anchored (p : TransactionPayload) : bool :=
  match p with PoisonMicroblock _ _ | Coinbase _ => true | _ => false end.

Definition deserialize_fields : NetReader StacksTransaction :=
  version_u8 ← read_next u8_codec;
  chain_id ← read_next u32_codec;
  auth ← read_next TransactionAuth_codec;
  anchor_mode_u8 ← read_next u8_codec;
  post_condition_mode_u8 ← read_next u8_codec;
  post_conditions ← read_next (vec_codec size_of_post_condition TransactionPostCondition_codec);
  payload ← read_next TransactionPayload_codec;
  let version := if Z.land version_u8 0x80 =? 0 then Mainnet else Testnet in
  anchor_mode ← ok_or_fail (match anchor_mode_u8 with
                            | 2 => Some OffChainOnly
                            | 1 => Some OnChainOnly
                            | 3 => Some AnyAnchor
                            | _ => None
                            end);
  if must_be_anchored payload && bool_decide (anchor_mode <> OnChainOnly) then net_fail
  else
    post_condition_mode ← ok_or_fail (match post_condition_mode_u8 with
                                      | 1 => Some Allow
                                      | 2 => Some Deny
                                      | _ => None
                                      end);
    mret (mkTransaction version chain_id auth anchor_mode post_condition_mode post_conditions payload).

Definition num_read : NetReader Z := fun r => Ok (read_so_far r, r).
(** [consensus_deserialize_with_len]: also the bytes read. *)
Definition consensus_deserialize_with_len : NetReader (StacksTransaction * Z) :=
  bounded MAX_TRANSACTION_LEN (tx ← deserialize_fields; len ← num_read; mret (tx, len)).

Definition StacksTransaction_codec : StacksMessageCodec StacksTransaction :=
  mkCodec
    (fun self =>
       write_all [write_next u8_codec (version_u8 (tx_version self));
                  write_next u32_codec (tx_chain_id self);
                  write_next TransactionAuth_codec (tx_auth self);
                  write_next u8_codec (anchor_mode_u8 (tx_anchor_mode self));
                  write_next u8_codec (post_condition_mode_u8 (post_condition_mode self));
                  write_next (vec_codec size_of_post_condition TransactionPostCondition_codec) (post_conditions self);
                  write_next TransactionPayload_codec (payload self)])
    (res ← consensus_deserialize_with_len; mret res.1).

(** [txid]: the bytes are serialized with [expect]. *)
Definition txid `{!Sha512Trunc256} (self : StacksTransaction) : Res net_error (list Z) :=
  bytes ← expect (write_next StacksTransaction_codec self);
  Ok (sha512_256 bytes).

(** [StacksString::from_string] and the constructors of payloads. *)
Definition StacksString_from_string (s : string) : option string := if is_printable s then Some s else None.
Definition new_contract_call (contract_address : StacksAddress) (contract_name function_name : string) (args : list Value) :
    option TransactionPayload :=
  match ContractName_try_from contract_name with
  | Ok contract_name_str =>
    match ClarityName_try_from function_name with
    | Ok function_name_str => Some (ContractCall (mkContractCall contract_address contract_name_str function_name_str args))
    | _ => None
    end
  | _ => None
  end.
Definition new_smart_contract (name contract : string) : option TransactionPayload :=
  match ContractName_try_from name, StacksString_from_string contract with
  | Ok s_name, Some s_body => Some (SmartContract (mkSmartContract s_name s_body))
  | _, _ => None
  end.

(** * Round trips *)

Definition pubkey_ok (k : StacksPublicKey) : Prop := length (pubkey k) = 33%nat /\ point_valid (pubkey k) = true.
Definition field_ok (f : TransactionAuthField) : Prop :=
  match f with PublicKey pubk => pubkey_ok pubk | Signature _ sig => length sig = 65%nat end.

Lemma TransactionAuthField_round_trips : round_trips TransactionAuthField_codec field_ok eq.
Proof.
  apply codec_intro. intros [[k c]|e sig] bs Hx; cbn beta iota zeta.
  - destruct Hx as [Hl Hv]. cbn in Hl, Hv. destruct c; cbn [compressed].
    all: next; next. all: unfold to_public_key, StacksPublicKeyBuffer_from_public_key; cbn [pubkey].
    all: rewrite Hv; by apply no_more.
  - destruct e; rewrite ?decide_True, ?decide_False by done. all: next; next. all: by apply no_more.
Qed.
Hint Resolve TransactionAuthField_round_trips : codec.

Lemma some_then {A B} (a : A) (f : A -> NetReader B) : (ok_or_fail (Some a) ≫= f) = f a.
Proof. done. Qed.

(** What a spending condition satisfies that was read. *)
Definition multisig_ok (c : MultisigSpendingCondition) : Prop :=
  length (multi_signer c) = 20%nat /\ uint_ok 8 (multi_nonce c) /\ uint_ok 8 (multi_fee_rate c) /\
  vec_ok size_of_auth_field field_ok (fields c) /\ uint_ok 2 (multi_signatures_required c) /\
  count_signatures 0 (fields c) = Some (multi_signatures_required c) /\
  (multi_hash_mode c = P2WSH -> existsb field_uncompressed (fields c) = false).
Definition singlesig_ok (c : SinglesigSpendingCondition) : Prop :=
  length (single_signer c) = 20%nat /\ uint_ok 8 (single_nonce c) /\ uint_ok 8 (single_fee_rate c) /\
  length (signature c) = 65%nat /\ (single_hash_mode c = P2WPKH -> key_encoding c = Compressed).
Definition spending_ok (c : TransactionSpendingCondition) : Prop :=
  match c with Singlesig data => singlesig_ok data | Multisig data => multisig_ok data end.
Definition auth_ok (a : TransactionAuth) : Prop :=
  match a with
  | AuthStandard origin => spending_ok origin
  | AuthSponsored origin sponsor => spending_ok origin /\ spending_ok sponsor
  end.

Lemma SinglesigSpendingCondition_round_trips : round_trips SinglesigSpendingCondition_codec singlesig_ok eq.
Proof.
  apply codec_intro. intros [mode signer nonce fee e sig] bs (Hs & Hn & Hf & Hsig & He).
  cbn [single_hash_mode single_signer single_nonce single_fee_rate key_encoding signature] in *.
  next; [by destruct mode|]. replace (SinglesigHashMode_from_u8 _) with (Some mode) by by destruct mode.
  do 3 next. next; [by destruct e|]. replace (key_encoding_from_u8 _) with (Some e) by by destruct e.
  next. destruct mode, e; try by apply no_more. by discriminate He.
Qed.

Lemma MultisigSpendingCondition_round_trips : round_trips MultisigSpendingCondition_codec multisig_ok eq.
Proof.
  apply codec_intro. intros [mode signer nonce fee fs n] bs (Hs & Hn & Hf & Hfs & Hr & Hc & He).
  cbn [multi_hash_mode multi_signer multi_nonce multi_fee_rate fields multi_signatures_required] in *.
  next; [by destruct mode|]. replace (MultisigHashMode_from_u8 _) with (Some mode) by by destruct mode.
  do 3 next. eapply (next_bounded _ _ eq); [eauto with codec|done|]. intros ? ? ->. next.
  rewrite Hc, some_then, Z.eqb_refl. cbn [negb].
  destruct mode; cbn; [rewrite andb_false_r|rewrite He by done]; by apply no_more.
Qed.
Hint Resolve SinglesigSpendingCondition_round_trips MultisigSpendingCondition_round_trips : codec.

Lemma reads_peek {A} x ws bs (f : Z -> NetReader A) P :
  uint_ok 1 x -> write_all (write_next u8_codec x :: ws) = Ok bs -> reads_some (f x) bs P ->
  reads_some (x' ← peek (read_next u8_codec); f x') bs P.
Proof.
  intros Hx (b1 & b2 & [= <-] & _ & ->)%write_all_cons (a & Ha & HP). exists a. split; [|done].
  intros rest m k Hk Hm Hb. pose proof Hm as Hm'. rewrite length_app in Hm'. cbn [length] in Hm'.
  assert (net_reads (read_next u8_codec) [x mod 256] x) as Hr by by apply (round_trips_eq _ _ _ _ (int_round_trips 1)).
  unfold mbind, net_bind at 1, peek. rewrite <-(assoc_L (++)), Hr by (cbn; lia). cbn.
  by apply (Ha rest m k).
Qed.

Lemma TransactionSpendingCondition_round_trips : round_trips TransactionSpendingCondition_codec spending_ok eq.
Proof.
  apply codec_intro. intros [c|c] bs Hok Hf Hs; cbn beta iota in Hs.
  - eapply (reads_peek (SinglesigHashMode_u8 (single_hash_mode c))); [by destruct (single_hash_mode c)| |].
    { unfold write_next at 1 in Hs. cbn [consensus_serialize SinglesigSpendingCondition_codec] in Hs. exact Hs. }
    replace (SinglesigHashMode_from_u8 _) with (Some (single_hash_mode c)) by by destruct (single_hash_mode c).
    cbn. destruct (SinglesigSpendingCondition_round_trips c bs Hok Hf Hs) as (? & Hr & ->).
    eexists. split; [|done]. eapply net_reads_bind_end; [exact Hr|apply net_reads_ret].
  - eapply (reads_peek (MultisigHashMode_u8 (multi_hash_mode c))); [by destruct (multi_hash_mode c)| |].
    { unfold write_next at 1 in Hs. cbn [consensus_serialize MultisigSpendingCondition_codec] in Hs. exact Hs. }
    replace (MultisigHashMode_from_u8 _) with (Some (multi_hash_mode c)) by by destruct (multi_hash_mode c).
    replace (SinglesigHashMode_from_u8 _) with (@None SinglesigHashMode) by by destruct (multi_hash_mode c).
    cbn. destruct (MultisigSpendingCondition_round_trips c bs Hok Hf Hs) as (? & Hr & ->).
    eexists. split; [|done]. eapply net_reads_bind_end; [exact Hr|apply net_reads_ret].
Qed.
Hint Resolve TransactionSpendingCondition_round_trips : codec.

Lemma TransactionAuth_round_trips : round_trips TransactionAuth_codec auth_ok eq.
Proof.
  apply codec_intro. intros [o|o p] bs Hok; cbn beta iota.
  - do 2 next. by apply no_more.
  - destruct Hok. do 3 next. by apply no_more.
Qed.
Hint Resolve TransactionAuth_round_trips : codec.

(** ** Payloads *)

Notation contract_name_fits := (name_ok CONTRACT_MIN_NAME_LENGTH CONTRACT_MAX_NAME_LENGTH contract_name_ok).
Notation clarity_name_fits := (name_ok 0 MAX_STRING_LEN clarity_name_ok).

Definition microblock_header_ok (h : StacksMicroblockHeader) : Prop :=
  u8 (mblock_version h) /\ uint_ok 2 (mblock_sequence h) /\ length (mblock_prev_block h) = 32%nat /\
  length (mblock_tx_merkle_root h) = 32%nat /\ length (mblock_signature h) = 65%nat /\
  is_Some (to_secp256k1_recoverable (mblock_signature h)).
Definition call_ok (c : TransactionContractCall) : Prop :=
  address_ok (call_address c) /\ contract_name_fits (call_contract_name c) /\ clarity_name_fits (call_function_name c) /\
  vec_ok size_of_value value_ok (call_function_args c) /\ is_clarity_variable (call_function_name c) = true.
Definition contract_ok (c : TransactionSmartContract) : Prop :=
  contract_name_fits (contract_name c) /\ is_printable (code_body c) = true.
Definition payload_ok (p : TransactionPayload) : Prop :=
  match p with
  | TokenTransfer recipient amount memo => principal_ok recipient = true /\ uint_ok 8 amount /\ length memo = 34%nat
  | ContractCall call => call_ok call
  | SmartContract contract => contract_ok contract
  | PoisonMicroblock h1 h2 =>
    microblock_header_ok h1 /\ microblock_header_ok h2 /\ h1 <> h2 /\
    (mblock_sequence h1 = mblock_sequence h2 \/ mblock_prev_block h1 = mblock_prev_block h2)
  | Coinbase payload => length payload = 32%nat
  end.

(** The same call, up to the equality of its arguments. *)
Definition call_same (c c' : TransactionContractCall) : Prop :=
  call_address c = call_address c' /\ call_contract_name c = call_contract_name c' /\
  call_function_name c = call_function_name c' /\ Forall2 veq (call_function_args c) (call_function_args c').
Inductive payload_same : relation TransactionPayload :=
| same_payload p : payload_same p p
| same_call c c' : call_same c c' -> payload_same (ContractCall c) (ContractCall c').
Hint Constructors payload_same : core.

Lemma StacksMicroblockHeader_round_trips : round_trips StacksMicroblockHeader_codec microblock_header_ok eq.
Proof.
  apply codec_intro. intros [v q p r g] bs (Hv & Hq & Hp & Hr & Hg & [sig Hsig]).
  cbn [mblock_version mblock_sequence mblock_prev_block mblock_tx_merkle_root mblock_signature] in *.
  unfold microblock_header_serialize. cbn [mblock_version mblock_sequence mblock_prev_block mblock_tx_merkle_root mblock_signature].
  do 5 next. rewrite Hsig, some_then. by apply no_more.
Qed.
Lemma TransactionContractCall_round_trips : round_trips TransactionContractCall_codec call_ok call_same.
Proof.
  apply codec_intro. intros [a n f args] bs (Ha & Hn & Hf & Hargs & Hv).
  cbn [call_address call_contract_name call_function_name call_function_args] in *.
  do 3 next. eapply (next_bounded _ _ (Forall2 veq)); [eauto with codec|done|]. intros args' ? Hs. cbn beta.
  rewrite Hv. by apply no_more.
Qed.
Lemma TransactionSmartContract_round_trips : round_trips TransactionSmartContract_codec contract_ok eq.
Proof. apply codec_intro. intros [n b] bs [Hn Hb]. do 2 next. by apply no_more. Qed.
Hint Resolve StacksMicroblockHeader_round_trips TransactionContractCall_round_trips TransactionSmartContract_round_trips : codec.

Lemma TransactionPayload_round_trips : round_trips TransactionPayload_codec payload_ok payload_same.
Proof.
  apply codec_intro. intros [recipient amount memo|call|contract|h1 h2|buf] bs Hok; cbn beta iota.
  - destruct Hok as (? & ? & ?). do 4 next. by apply no_more.
  - do 2 next. apply no_more. by constructor.
  - do 2 next. by apply no_more.
  - destruct Hok as (? & ? & ? & Hfork). do 3 next. rewrite bool_decide_eq_false_2 by done.
    destruct (bool_decide (mblock_sequence h1 <> _)) eqn:Hq; [|by apply no_more].
    apply bool_decide_eq_true in Hq. rewrite (bool_decide_eq_false_2 (mblock_prev_block h1 <> _)) by naive_solver.
    by apply no_more.
  - do 2 next. by apply no_more.
Qed.
Hint Resolve TransactionPayload_round_trips : codec.

(** ** Post-conditions *)

Definition asset_info_ok (i : AssetInfo) : Prop :=
  address_ok (info_contract_address i) /\ contract_name_fits (info_contract_name i) /\ clarity_name_fits (info_asset_name i).
Definition pc_principal_ok (p : PostConditionPrincipal) : Prop :=
  match p with
  | PC_Origin => True
  | PC_Standard addr => address_ok addr
  | PC_Contract addr name => address_ok addr /\ contract_name_fits name
  end.
Definition post_condition_ok (p : TransactionPostCondition) : Prop :=
  match p with
  | PC_STX principal _ amount => pc_principal_ok principal /\ uint_ok 8 amount
  | PC_Fungible principal info _ amount => pc_principal_ok principal /\ asset_info_ok info /\ uint_ok 8 amount
  | PC_Nonfungible principal info value _ => pc_principal_ok principal /\ asset_info_ok info /\ value_ok value
  end.
Inductive post_condition_same : relation TransactionPostCondition :=
| same_condition p : post_condition_same p p
| same_asset principal info v v' code :
  veq v v' -> post_condition_same (PC_Nonfungible principal info v code) (PC_Nonfungible principal info v' code).
Hint Constructors post_condition_same : core.

Lemma AssetInfo_round_trips : round_trips AssetInfo_codec asset_info_ok eq.
Proof. apply codec_intro. intros [a n i] bs (? & ? & ?). do 3 next. by apply no_more. Qed.
Lemma PostConditionPrincipal_round_trips : round_trips PostConditionPrincipal_codec pc_principal_ok eq.
Proof.
  apply codec_intro. intros [|a|a n] bs Hok; cbn beta iota.
  - next. by apply no_more.
  - do 2 next. by apply no_more.
  - destruct Hok. do 3 next. by apply no_more.
Qed.
Hint Resolve AssetInfo_round_trips PostConditionPrincipal_round_trips : codec.

Lemma FungibleConditionCode_tag c :
  uint_ok 1 (FungibleConditionCode_u8 c) /\ FungibleConditionCode_from_u8 (FungibleConditionCode_u8 c) = Some c.
Proof. by destruct c. Qed.

Lemma TransactionPostCondition_round_trips :
  round_trips TransactionPostCondition_codec post_condition_ok post_condition_same.
Proof.
  apply codec_intro. intros [p c a|p i c a|p i v c] bs Hok; cbn beta iota.
  - destruct Hok. destruct (FungibleConditionCode_tag c) as [? Hc]. do 4 next. rewrite Hc, some_then. by apply no_more.
  - destruct Hok as (? & ? & ?). destruct (FungibleConditionCode_tag c) as [? Hc]. do 5 next. rewrite Hc, some_then.
    by apply no_more.
  - destruct Hok as (? & ? & ?). do 4 next. next; [by destruct c|].
    replace (NonfungibleConditionCode_from_u8 _) with (Some c) by by destruct c. rewrite some_then.
    apply no_more. by constructor.
Qed.
Hint Resolve TransactionPostCondition_round_trips : codec.

(** ** Transactions *)

Definition transaction_ok (tx : StacksTransaction) : Prop :=
  uint_ok 4 (tx_chain_id tx) /\ auth_ok (tx_auth tx) /\ vec_ok size_of_post_condition post_condition_ok (post_conditions tx) /\
  payload_ok (payload tx) /\ (must_be_anchored (payload tx) = true -> tx_anchor_mode tx = OnChainOnly).
(** The same transaction, up to the equality of its values. *)
Definition transaction_same (tx tx' : StacksTransaction) : Prop :=
  tx_version tx = tx_version tx' /\ tx_chain_id tx = tx_chain_id tx' /\ tx_auth tx = tx_auth tx' /\
  tx_anchor_mode tx = tx_anchor_mode tx' /\ post_condition_mode tx = post_condition_mode tx' /\
  Forall2 post_condition_same (post_conditions tx) (post_conditions tx') /\ payload_same (payload tx) (payload tx').

Lemma payload_same_anchored p p' : payload_same p p' -> must_be_anchored p = must_be_anchored p'.
Proof. by intros []. Qed.

Lemma fields_round_trip tx bs :
  transaction_ok tx -> fits bs -> write_next StacksTransaction_codec tx = Ok bs ->
  reads_some deserialize_fields bs (fun tx' => transaction_same tx' tx).
Proof.
  intros (Hc & Ha & Hp & Hpay & Hm) Hf Hs. unfold write_next at 1 in Hs. cbn [consensus_serialize StacksTransaction_codec] in Hs.
  revert Hf Hs. unfold deserialize_fields. next; [by destruct (tx_version tx)|]. do 2 next. next; [by destruct (tx_anchor_mode tx)|].
  next; [by destruct (post_condition_mode tx)|]. eapply (next_field _ _ (Forall2 post_condition_same)); [eauto with codec|done|].
  intros pcs ? Hpcs. cbn beta. eapply (next_field _ _ payload_same); [eauto with codec|done|]. intros pay ? Hsame. cbn beta zeta.
  rewrite (payload_same_anchored _ _ Hsame). destruct tx as [v id auth mode pmode conds p].
  cbn [tx_version tx_chain_id tx_auth tx_anchor_mode post_condition_mode post_conditions payload] in *.
  replace (if Z.land (version_u8 v) 0x80 =? 0 then Mainnet else Testnet) with v by by destruct v.
  replace (match anchor_mode_u8 mode with 1 => _ | _ => _ end) with (Some mode) by by destruct mode.
  rewrite some_then. replace (must_be_anchored p && _) with false.
  - replace (match post_condition_mode_u8 pmode with 1 => _ | _ => _ end) with (Some pmode) by by destruct pmode.
    rewrite some_then. by apply no_more.
  - destruct (must_be_anchored p) eqn:E; [|done]. by rewrite Hm.
Qed.

Lemma reads_with_len {A} (p : NetReader A) bs (P : A -> Prop) :
  fits bs -> reads_some p bs P ->
  reads_some (bounded MAX_TRANSACTION_LEN (a ← p; len ← num_read; mret (a, len))) bs
    (fun res => P res.1 /\ res.2 = Z.of_nat (length bs)).
Proof.
  intros Hf (a & Ha & HP). exists (a, Z.of_nat (length bs)). split; [|done].
  intros rest m k Hk Hm Hb. unfold bounded. cbn [max_len read_so_far fd]. rewrite take_app_ge by lia.
  unfold from_reader, mbind at 2, net_bind. rewrite Ha; [|lia|unfold fits, MAX_TRANSACTION_LEN in *; lia|done].
  rewrite Z.add_0_l. unfold mbind at 2. cbn [num_read net_bind mret net_ret mbind res_bind read_so_far].
  by rewrite Nat2Z.id, drop_app_length.
Qed.
(** ** What can be written *)

Lemma TransactionAuthField_writable : writable TransactionAuthField_codec field_ok.
Proof. intros [k|e sig] Hx; write_fields. Qed.
Hint Resolve TransactionAuthField_writable : codec.
Lemma TransactionSpendingCondition_writable : writable TransactionSpendingCondition_codec spending_ok.
Proof. intros [c|c] Hx; write_fields. apply Hx. Qed.
Hint Resolve TransactionSpendingCondition_writable : codec.
Lemma TransactionAuth_writable : writable TransactionAuth_codec auth_ok.
Proof. intros [o|o p] Hx; write_fields; apply Hx. Qed.
Lemma StacksMicroblockHeader_writable : writable StacksMicroblockHeader_codec microblock_header_ok.
Proof. intros h Hx. write_fields. Qed.
Lemma TransactionContractCall_writable : writable TransactionContractCall_codec call_ok.
Proof. intros c Hx. write_fields; apply Hx. Qed.
Lemma TransactionSmartContract_writable : writable TransactionSmartContract_codec contract_ok.
Proof. intros c Hx. write_fields; apply Hx. Qed.
Hint Resolve TransactionAuth_writable StacksMicroblockHeader_writable : codec.
Hint Resolve TransactionContractCall_writable TransactionSmartContract_writable : codec.
Lemma TransactionPayload_writable : writable TransactionPayload_codec payload_ok.
Proof. intros [] Hx; write_fields; apply Hx. Qed.
Lemma AssetInfo_writable : writable AssetInfo_codec asset_info_ok.
Proof. intros i Hx. write_fields; apply Hx. Qed.
Lemma PostConditionPrincipal_writable : writable PostConditionPrincipal_codec pc_principal_ok.
Proof. intros [] Hx; write_fields; apply Hx. Qed.
Hint Resolve TransactionPayload_writable AssetInfo_writable PostConditionPrincipal_writable : codec.
Lemma TransactionPostCondition_writable : writable TransactionPostCondition_codec post_condition_ok.
Proof. intros [] Hx; write_fields; apply Hx. Qed.
Hint Resolve TransactionPostCondition_writable : codec.
Lemma StacksTransaction_writable : writable StacksTransaction_codec transaction_ok.
Proof. intros tx Hx. write_fields; apply Hx. Qed.
(** * Claims *)

(** C25. A transaction whose fields are in range is written, and if the bytes fit
    in a message, reading them from the front of any stream gives the transaction
    back and its length, up to the equality of the values in it: the fields that
    the signatures, the nonces and the post-conditions depend on are the same. *)
Theorem transaction_round_trip tx :
  transaction_ok tx ->
  exists bs, write_next StacksTransaction_codec tx = Ok bs /\
    (Z.of_nat (length bs) <= MAX_TRANSACTION_LEN ->
     reads_some consensus_deserialize_with_len bs
       (fun res => transaction_same res.1 tx /\ res.2 = Z.of_nat (length bs))).
Proof.
  intros Htx. destruct (StacksTransaction_writable tx Htx) as [bs Hs]. exists bs. split; [done|]. intros Hf.
  by apply (reads_with_len deserialize_fields bs (fun tx' => transaction_same tx' tx)), fields_round_trip.
Qed.

Lemma write_all_nth w ws bs : w ∈ ws -> write_all ws = Ok bs -> exists b, w = Ok b.
Proof.
  intros Hw. revert bs. induction Hw as [|? ? ? Hw IH]; intros bs (b1 & b2 & H1 & H2 & _)%write_all_cons; eauto.
Qed.
Lemma contract_name_unwritable name :
  ~ CONTRACT_MIN_NAME_LENGTH <= str_len name <= CONTRACT_MAX_NAME_LENGTH -> write_next ContractName_codec name = Err SerializeError.
Proof.
  intros Hn. unfold write_next. cbn [consensus_serialize ContractName_codec name_codec].
  by destruct (str_len name <? CONTRACT_MIN_NAME_LENGTH) eqn:?, (CONTRACT_MAX_NAME_LENGTH <? str_len name) eqn:?; try lia.
Qed.

Lemma smart_contract_unwritable `{!Sha512Trunc256} name body tx :
  payload tx = SmartContract (mkSmartContract name body) ->
  ~ CONTRACT_MIN_NAME_LENGTH <= str_len name <= CONTRACT_MAX_NAME_LENGTH -> txid tx = Panic.
Proof.
  intros Hpay Hn. unfold txid. destruct (write_next StacksTransaction_codec tx) as [bs| |] eqn:Hs; [|done..]. exfalso.
  unfold write_next at 1 in Hs. cbn [consensus_serialize StacksTransaction_codec] in Hs. rewrite Hpay in Hs.
  apply (write_all_nth (write_next TransactionPayload_codec (SmartContract (mkSmartContract name body)))) in Hs as [b Hb];
    [|rewrite !elem_of_cons; tauto].
  apply (write_all_nth (write_next TransactionSmartContract_codec (mkSmartContract name body))) in Hb as [b' Hb'];
    [|rewrite !elem_of_cons; tauto].
  apply (write_all_nth (write_next ContractName_codec name)) in Hb' as [b'' Hb'']; [|rewrite !elem_of_cons; tauto].
  by rewrite contract_name_unwritable in Hb''.
Qed.

(** C38. The constructor of contract launches accepts every valid contract name, that
    is, every text of the pattern of contract names of at most 128 characters, with
    any printable code; but a name of fewer than five or more than forty characters
    cannot be written: the transaction identifier of every transaction with such a
    payload panics. *)
Theorem unwritable_name_panics `{!Sha512Trunc256} name contract :
  str_len name <= MAX_STRING_LEN -> contract_name_regex (string_bytes name) = true -> is_printable contract = true ->
  exists p, new_smart_contract name contract = Some p /\
    (~ CONTRACT_MIN_NAME_LENGTH <= str_len name <= CONTRACT_MAX_NAME_LENGTH -> forall tx, payload tx = p -> txid tx = Panic).
Proof.
  intros Hlen Hre Hcode. exists (SmartContract (mkSmartContract name contract)). split.
  - unfold new_smart_contract, ContractName_try_from, guarded_try_from, StacksString_from_string.
    by rewrite (proj2 (Z.ltb_ge _ _)), Hre, Hcode.
  - intros Hn tx Hpay. by eapply smart_contract_unwritable.
Qed.
End codecs.

(** * Witnesses *)

Module example.
(** Every key and signature is well formed and recovers to the same key. *)
Definition key : list Z := 2 :: repeat 7 32.
Definition secp : Secp256k1 :=
  {| point_valid _ := true; serialize_uncompressed k := 4 :: repeat 7 64; compact_valid _ := true;
     ecdsa_recover _ _ := Some key; from_secret_key _ := key; sign_recoverable _ _ := (0, repeat 1 64) |}.
Definition sizes : MemSizes :=
  {| size_of_auth_field := 104; size_of_value := 96; size_of_post_condition := 200; size_of_transaction := 500 |}.
Definition lexer : Lexer := {| is_clarity_variable _ := true |}.
#[local] Existing Instances secp sizes lexer.

Definition alice : StacksAddress := mkAddress 26 (repeat 1 20).
Definition origin : TransactionSpendingCondition :=
  Multisig (mkMultisig P2SH (repeat 1 20) 7 100
    [Signature Compressed (repeat 1 65); PublicKey (mkPublicKey key true); Signature Uncompressed (repeat 2 65)] 2).
Definition sponsor : TransactionSpendingCondition := Singlesig (mkSinglesig P2PKH (repeat 2 20) 3 50 Compressed (repeat 3 65)).
(** A sponsored call with a guarded asset. *)
Definition call : StacksTransaction :=
  mkTransaction Testnet 1 (AuthSponsored origin sponsor) AnyAnchor Deny
    [PC_STX PC_Origin SentLe 10;
     PC_Nonfungible (PC_Standard alice) (mkAssetInfo alice "names" "name") (VUInt 3) NotSent]
    (ContractCall (mkContractCall alice "store" "set-value" [VInt 5; VBool true])).

Lemma transaction_round_trip_witness :
  transaction_ok call /\ exists bs, write_next StacksTransaction_codec call = Ok bs /\
    (Z.of_nat (length bs) <= MAX_TRANSACTION_LEN ->
     reads_some consensus_deserialize_with_len bs
       (fun res => transaction_same res.1 call /\ res.2 = Z.of_nat (length bs))).
Proof.
  assert (transaction_ok call) as Hok.
  { repeat (split || constructor || vm_compute || done). }
  split; [done|]. by apply transaction_round_trip.
Defined.
End example.
