(* ===== verification/ClarityVariable.v ===== *)
(** [StacksString::is_clarity_variable] of src/util/strings.rs on the lexer: the
    interface that the encoding of contract calls takes from it. *)
From stdpp Require Import base strings numbers list gmap.
From Stdlib Require Import ZArith Lia.
From S2P Require Import Prelude Names Types C32 Ast Regex Parser LexerFacts Display TransactionCodec.
#[local] Open Scope Z_scope.

Lemma run_of (p : Z -> bool) l : exists run rest, l = run ++ rest /\ Forall (fun b => p b = true) run /\ stops p rest.
Proof.
  induction l as [|b l (run & rest & -> & Hrun & Hrest)]; [by exists [], []|].
  destruct (p b) eqn:Hb; [exists (b :: run), rest; auto|by exists [], (b :: run ++ rest)].
Qed.

Section variable.
Context `{Hengine : !RegexEngine} `{Hsha : !Sha256} `{Hupper : !ToUppercase}.

#[global] Instance source_lexer : Lexer := {|
  is_clarity_variable s := match lex (string_bytes s) with Ok [(LexItem.Variable_ _, _, _)] => true | _ => false end;
|}.

Context `{Hlaws : !RegexLaws}.

(** A name that starts like an unsigned integer is read as one. *)
Lemma uint_like_first l : uint_like l = true -> exists m, first_match lex_matchers l = Some (TokenType.UIntLiteral, m).
Proof.
  intros Hu. assert (exists c l', l = 117 :: c :: l' /\ is_digit c = true) as (c & l' & -> & Hc).
  { unfold uint_like in Hu. repeat case_match; try done. by do 2 eexists. }
  destruct (run_of is_digit (c :: l')) as (run & rest & Heq & Hrun & Hrest). rewrite Heq, lex_starting.
  exists (then_match (mkMatch 1 None) (mkMatch (length run) (Some (0, length run)%nat))).
  apply first_match_cons. cbn [matcher]. rewrite seq_chr.
  assert (run <> []) as Hne by (intros ->; cbn in Heq; subst rest; cbn in Hrest; congruence).
  pose proof (value_run is_digit _ run rest (one_char_class _) Hrun Hne Hrest) as Hm.
  destruct (matches _ (run ++ rest)) as [|m k]; [done|]. cbn in Hm |- *. injection Hm as ->. reflexivity.
Qed.

Lemma name_short n : ClarityName_try_from n = Ok n -> Z.of_nat (length (string_bytes n)) < 2 ^ 32 - 1.
Proof.
  unfold ClarityName_try_from, guarded_try_from. destruct (Z.ltb_spec MAX_STRING_LEN (str_len n)) as [|Hlen]; [done|].
  intros _. unfold str_len in Hlen. rewrite length_string_bytes. unfold MAX_STRING_LEN in Hlen. lia.
Qed.

(** The names of contracts' functions that a transaction can call. *)
Lemma callable_names n : ClarityName_try_from n = Ok n -> is_clarity_variable n = negb (uint_like (string_bytes n)).
Proof.
  intros Hn. cbn [is_clarity_variable source_lexer]. destruct (uint_like (string_bytes n)) eqn:Hu; cbn [negb].
  - destruct (lex (string_bytes n)) as [ts| |] eqn:Hl; [|done..]. apply lex_lexes in Hl.
    destruct (uint_like_first _ Hu) as [m Hm]. inversion Hl as [|? ? h m' item items Hm' _ Hi _ E1 E2 Ht]; [by destruct ts|].
    assert (h = TokenType.UIntLiteral) as -> by congruence. destruct ts as [|[[item' line] col] ts]; [done|].
    cbn in Ht. injection Ht as -> _. revert Hi. cbn [lex_item]. intros (s1 & _ & (v & _ & [= <-])%bind_Ok)%bind_Ok.
    by destruct ts.
  - assert (lexes ExpectNothing (string_bytes n ++ []) [LexItem.Variable_ n]) as Hx
      by (apply lexes_name; [done|done|by left|constructor]).
    rewrite app_nil_r in Hx. apply lexes_lex in Hx as (ts & -> & Ht).
    + by destruct ts as [|[[item line] col] [|]]; simplify_eq/=.
    + by apply name_short.
Qed.
End variable.
