(* ===== verification/Signatures.v ===== *)
(** Signatures of transactions: the address of a set of keys (src/address/mod.rs,
    src/chainstate/stacks/address.rs, with the script builder of
    src/deps/bitcoin/blockdata/script.rs), the rolling hash that is signed
    (auth.rs), [StacksTransaction::verify] and [StacksTransactionSigner]
    (transaction.rs).  The theorems: what the signer signs verifies, and a
    transaction verifies only if the keys of its signatures make up the account. *)
From stdpp Require Import base strings numbers list gmap.
From Stdlib Require Import ZArith Lia.
From S2P Require Import Prelude Names Types C32 Natives ClarityDatabase StacksTypes NetCodec TransactionCodec.
#[local] Open Scope Z_scope.

(** * Scripts *)

Definition OP_TRUE : Z := 0x51.
Definition OP_FALSE : Z := 0x00.
Definition OP_PUSHDATA1 : Z := 0x4c.
Definition OP_PUSHDATA2 : Z := 0x4d.
Definition OP_PUSHDATA4 : Z := 0x4e.
Definition OP_CHECKMULTISIG : Z := 0xae.

(** The low bytes of [abs] while it exceeds a byte; [n] bounds the rounds of the
    loop, eight for a machine word. *)
Fixpoint scriptint_bytes (n : nat) (abs : Z) : list Z * Z :=
  match n with
  | O => ([], abs)
  | S n => if 0xFF <? abs then let '(v, abs') := scriptint_bytes n (Z.shiftr abs 8) in (Z.land abs 0xFF :: v, abs') else ([], abs)
  end.
Definition build_scriptint (n : Z) : list Z :=
  if n =? 0 then []
  else
    let neg := n <? 0 in
    let '(v, abs) := scriptint_bytes 8 (Z.abs n) in
    if negb (Z.land abs 0x80 =? 0) then v ++ [wrap 8 abs; if neg then 0x80 else 0]
    else v ++ [wrap 8 (Z.lor abs (if neg then 0x80 else 0))].

(** [Builder], over the bytes written so far. *)
Definition push_slice (self data : list Z) : Res net_error (list Z) :=
  let n := Z.of_nat (length data) in
  let prefix :=
    if n <? OP_PUSHDATA1 then Ok [n]
    else if n <? 0x100 then Ok [OP_PUSHDATA1; n]
    else if n <? 0x10000 then Ok [OP_PUSHDATA2; n mod 0x100; n / 0x100]
    else if n <? 0x100000000 then Ok [OP_PUSHDATA4; n mod 0x100; (n / 0x100) mod 0x100; (n / 0x10000) mod 0x100; n / 0x1000000]
    else Panic in
  p ← prefix;
  Ok (self ++ p ++ data).
Definition push_int (self : list Z) (data : Z) : Res net_error (list Z) :=
  if (data =? -1) || ((1 <=? data) && (data <=? 16)) then Ok (self ++ [wrap 8 (data - 1 + OP_TRUE)])
  else if data =? 0 then Ok (self ++ [OP_FALSE])
  else push_slice self (build_scriptint data).
Definition push_opcode (self : list Z) (data : Z) : list Z := self ++ [data].

(** * Addresses of keys *)

Inductive AddressHashMode := SerializeP2PKH | SerializeP2SH | SerializeP2WPKH | SerializeP2WSH.
Definition single_address_hash_mode (m : SinglesigHashMode) : AddressHashMode :=
  match m with P2PKH => SerializeP2PKH | P2WPKH => SerializeP2WPKH end.
Definition multi_address_hash_mode (m : MultisigHashMode) : AddressHashMode :=
  match m with P2SH => SerializeP2SH | P2WSH => SerializeP2WSH end.

Section addresses.
Context `{Hsecp : !Secp256k1, Hsha : !Sha256, Hhashes : !NativeHashes}.

(** [PublicKey::to_bytes]. *)
Definition to_bytes (self : StacksPublicKey) : list Z :=
  if compressed self then pubkey self else serialize_uncompressed (pubkey self).

Definition to_bits_p2pkh (pubk : StacksPublicKey) : list Z := hash160 (to_bytes pubk).

Fixpoint push_keys (bldr : list Z) (pubkeys : list StacksPublicKey) : Res net_error (list Z) :=
  match pubkeys with
  | [] => Ok bldr
  | pubk :: pubkeys => bldr ← push_slice bldr (to_bytes pubk); push_keys bldr pubkeys
  end.
Definition multisig_script (num_sigs : Z) (pubkeys : list StacksPublicKey) : Res net_error (list Z) :=
  bldr ← push_int [] num_sigs;
  bldr ← push_keys bldr pubkeys;
  bldr ← push_int bldr (Z.of_nat (length pubkeys));
  Ok (push_opcode bldr OP_CHECKMULTISIG).

Definition to_bits_p2sh (num_sigs : Z) (pubkeys : list StacksPublicKey) : Res net_error (list Z) :=
  script ← multisig_script num_sigs pubkeys;
  Ok (hash160 script).
Definition to_bits_p2sh_p2wpkh (pubk : StacksPublicKey) : Res net_error (list Z) :=
  bldr ← push_int [] 0;
  script ← push_slice bldr (hash160 (to_bytes pubk));
  Ok (hash160 script).
Definition to_bits_p2sh_p2wsh (num_sigs : Z) (pubkeys : list StacksPublicKey) : Res net_error (list Z) :=
  script ← multisig_script num_sigs pubkeys;
  bldr ← push_int [] 0;
  ws ← push_slice bldr (sha256 script);
  Ok (hash160 ws).

(** The first of the keys is an index expression. *)
Definition first_key (pubkeys : list StacksPublicKey) : Res net_error StacksPublicKey :=
  match pubkeys with [] => Panic | pubk :: _ => Ok pubk end.
Definition public_keys_to_address_hash (hash_flag : AddressHashMode) (num_sigs : Z) (pubkeys : list StacksPublicKey) :
    Res net_error (list Z) :=
  match hash_flag with
  | SerializeP2PKH => pubk ← first_key pubkeys; Ok (to_bits_p2pkh pubk)
  | SerializeP2SH => to_bits_p2sh num_sigs pubkeys
  | SerializeP2WPKH => pubk ← first_key pubkeys; to_bits_p2sh_p2wpkh pubk
  | SerializeP2WSH => to_bits_p2sh_p2wsh num_sigs pubkeys
  end.

(** [StacksAddress::from_public_keys]. *)
Definition is_single (m : AddressHashMode) : bool := match m with SerializeP2PKH | SerializeP2WPKH => true | _ => false end.
Definition is_segwit (m : AddressHashMode) : bool := match m with SerializeP2WPKH | SerializeP2WSH => true | _ => false end.
Definition from_public_keys (version : Z) (hash_mode : AddressHashMode) (num_sigs : Z) (pubkeys : list StacksPublicKey) :
    Res net_error (option StacksAddress) :=
  let len := Z.of_nat (length pubkeys) in
  if len <? num_sigs then Ok None
  else if is_single hash_mode && (negb (num_sigs =? 1) || negb (len =? 1)) then Ok None
  else if is_segwit hash_mode && existsb (fun pubkey => negb (compressed pubkey)) pubkeys then Ok None
  else
    hash_bits ← public_keys_to_address_hash hash_mode num_sigs pubkeys;
    Ok (Some (mkAddress version hash_bits)).
End addresses.

(** * Sighashes *)

Record StacksPrivateKey := mkPrivateKey { privkey : list Z; compress_public : bool }.

Section signatures.
Context `{Hsecp : !Secp256k1, Hsizes : !MemSizes, Hlexer : !Lexer}.
Context `{Hsha : !Sha256, Hhashes : !NativeHashes, Hsha512 : !Sha512Trunc256}.

Definition from_private (privk : StacksPrivateKey) : StacksPublicKey :=
  mkPublicKey (from_secret_key (privkey privk)) (compress_public privk).

(** [LibSecp256k1Message::from_slice] takes 32 bytes. *)
Definition message_ok (data : list Z) : bool := Z.of_nat (length data) =? 32.
Definition privk_sign (self : StacksPrivateKey) (data_hash : list Z) : Res net_error (list Z) :=
  if message_ok data_hash then Ok (from_secp256k1_recoverable (sign_recoverable (privkey self) data_hash)) else Err SigningError.
Definition recover_to_pubkey (msg sig : list Z) : Res net_error StacksPublicKey :=
  if message_ok msg then
    match to_secp256k1_recoverable sig with
    | Some s => match ecdsa_recover msg s with Some key => Ok (mkPublicKey key true) | None => Err VerifyingError end
    | None => Err VerifyingError
    end
  else Err VerifyingError.

Definition assert_len (n : Z) (bits : list Z) : Res net_error () := if Z.of_nat (length bits) =? n then Ok () else Panic.
Definition make_sighash_presign (cur_sighash : list Z) (cond_code : TransactionAuthFlags) (fee_rate nonce : Z) :
    Res net_error (list Z) :=
  let new_tx_hash_bits := cur_sighash ++ [auth_flags_u8 cond_code] ++ be_encode 8 fee_rate ++ be_encode 8 nonce in
  _ ← assert_len (32 + 1 + 8 + 8) new_tx_hash_bits;
  Ok (sha512_256 new_tx_hash_bits).
Definition pubkey_encoding (pubkey : StacksPublicKey) : TransactionPublicKeyEncoding :=
  if compressed pubkey then Compressed else Uncompressed.
Definition make_sighash_postsign (cur_sighash : list Z) (pubkey : StacksPublicKey) (sig : list Z) : Res net_error (list Z) :=
  let new_tx_hash_bits := cur_sighash ++ [key_encoding_u8 (pubkey_encoding pubkey)] ++ sig in
  _ ← assert_len (32 + 1 + MESSAGE_SIGNATURE_ENCODED_SIZE) new_tx_hash_bits;
  Ok (sha512_256 new_tx_hash_bits).

Definition next_signature (cur_sighash : list Z) (cond_code : TransactionAuthFlags) (fee_rate nonce : Z) (privk : StacksPrivateKey) :
    Res net_error (list Z * list Z) :=
  sighash_presign ← make_sighash_presign cur_sighash cond_code fee_rate nonce;
  sig ← privk_sign privk sighash_presign;
  let pubk := from_private privk in
  next_sighash ← make_sighash_postsign sighash_presign pubk sig;
  Ok (sig, next_sighash).
Definition next_verification (cur_sighash : list Z) (cond_code : TransactionAuthFlags) (fee_rate nonce : Z)
    (key_encoding : TransactionPublicKeyEncoding) (sig : list Z) : Res net_error (StacksPublicKey * list Z) :=
  sighash_presign ← make_sighash_presign cur_sighash cond_code fee_rate nonce;
  pubk ← recover_to_pubkey sighash_presign sig;
  let pubk := set_compressed (match key_encoding with Compressed => true | Uncompressed => false end) pubk in
  next_sighash ← make_sighash_postsign sighash_presign pubk sig;
  Ok (pubk, next_sighash).

(** * Verification *)

(** The loop of [MultisigSpendingCondition::verify], from the keys and the count so
    far; the flag of uncompressed keys is [field_uncompressed]. *)
Fixpoint verify_fields (cond_code : TransactionAuthFlags) (fee_rate nonce : Z) (pubkeys : list StacksPublicKey)
    (cur_sighash : list Z) (num_sigs : Z) (fs : list TransactionAuthField) : Res net_error (list StacksPublicKey * list Z * Z) :=
  match fs with
  | [] => Ok (pubkeys, cur_sighash, num_sigs)
  | PublicKey pubkey :: fs => verify_fields cond_code fee_rate nonce (pubkeys ++ [pubkey]) cur_sighash num_sigs fs
  | Signature pubkey_encoding sigbuf :: fs =>
    '(pubkey, next_sighash) ← next_verification cur_sighash cond_code fee_rate nonce pubkey_encoding sigbuf;
    match checked_add_u16 num_sigs with
    | None => Err VerifyingError
    | Some num_sigs => verify_fields cond_code fee_rate nonce (pubkeys ++ [pubkey]) next_sighash num_sigs fs
    end
  end.

(** The keys must make up the account. *)
Definition check_signer (mode : AddressHashMode) (num_sigs : Z) (pubkeys : list StacksPublicKey) (signer : list Z) :
    Res net_error () :=
  addr ← from_public_keys 0 mode num_sigs pubkeys;
  match addr with
  | Some a => if bool_decide (addr_bytes a <> signer) then Err VerifyingError else Ok ()
  | None => Err VerifyingError
  end.

Definition multisig_verify (self : MultisigSpendingCondition) (initial_sighash : list Z) (cond_code : TransactionAuthFlags) :
    Res net_error (list Z) :=
  '(pubkeys, cur_sighash, num_sigs) ← verify_fields cond_code (multi_fee_rate self) (multi_nonce self) [] initial_sighash 0 (fields self);
  let have_uncompressed := existsb field_uncompressed (fields self) in
  if negb (num_sigs =? multi_signatures_required self) then Err VerifyingError
  else if have_uncompressed && bool_decide (multi_hash_mode self = P2WSH) then Err VerifyingError
  else
    _ ← check_signer (multi_address_hash_mode (multi_hash_mode self)) (multi_signatures_required self) pubkeys (multi_signer self);
    Ok cur_sighash.
Definition singlesig_verify (self : SinglesigSpendingCondition) (initial_sighash : list Z) (cond_code : TransactionAuthFlags) :
    Res net_error (list Z) :=
  '(pubkey, next_sighash) ← next_verification initial_sighash cond_code (single_fee_rate self) (single_nonce self) (key_encoding self) (signature self);
  _ ← check_signer (single_address_hash_mode (single_hash_mode self)) 1 [pubkey] (single_signer self);
  Ok next_sighash.
Definition spending_verify (self : TransactionSpendingCondition) (initial_sighash : list Z) (cond_code : TransactionAuthFlags) :
    Res net_error (list Z) :=
  match self with
  | Singlesig data => singlesig_verify data initial_sighash cond_code
  | Multisig data => multisig_verify data initial_sighash cond_code
  end.

Definition auth_verify_origin (self : TransactionAuth) (initial_sighash : list Z) : Res net_error (list Z) :=
  match self with
  | AuthStandard origin_condition => spending_verify origin_condition initial_sighash FlagStandard
  | AuthSponsored origin_condition _ => spending_verify origin_condition initial_sighash FlagStandard
  end.
Definition auth_verify (self : TransactionAuth) (initial_sighash : list Z) : Res net_error () :=
  origin_sighash ← auth_verify_origin self initial_sighash;
  match self with
  | AuthStandard _ => Ok ()
  | AuthSponsored _ sponsor_condition =>
    _ ← spending_verify sponsor_condition origin_sighash FlagSponsored;
    Ok ()
  end.

(** [clear], [new_initial_sighash] and [into_initial_sighash_auth]. *)
Definition spending_clear (self : TransactionSpendingCondition) : TransactionSpendingCondition :=
  match self with
  | Singlesig c => Singlesig (mkSinglesig (single_hash_mode c) (single_signer c) 0 0 (key_encoding c) MessageSignature_empty)
  | Multisig c => Multisig (mkMultisig (multi_hash_mode c) (multi_signer c) 0 0 [] (multi_signatures_required c))
  end.
Definition new_initial_sighash : TransactionSpendingCondition :=
  Singlesig (mkSinglesig P2PKH (repeat 0 20) 0 0 Compressed MessageSignature_empty).
Definition into_initial_sighash_auth (self : TransactionAuth) : TransactionAuth :=
  match self with
  | AuthStandard origin => AuthStandard (spending_clear origin)
  | AuthSponsored origin _ => AuthSponsored (spending_clear origin) new_initial_sighash
  end.

Definition with_auth (tx : StacksTransaction) (auth : TransactionAuth) : StacksTransaction :=
  mkTransaction (tx_version tx) (tx_chain_id tx) auth (tx_anchor_mode tx) (post_condition_mode tx) (post_conditions tx) (payload tx).
Definition sign_begin (self : StacksTransaction) : Res net_error (list Z) :=
  txid (with_auth self (into_initial_sighash_auth (tx_auth self))).
Definition verify_begin (self : StacksTransaction) : Res net_error (list Z) :=
  txid (with_auth self (into_initial_sighash_auth (tx_auth self))).

(** [StacksTransaction::verify] and [verify_origin]. *)
Definition transaction_verify (self : StacksTransaction) : Res net_error () :=
  initial ← verify_begin self;
  auth_verify (tx_auth self) initial.
Definition verify_origin (self : StacksTransaction) : Res net_error (list Z) :=
  initial ← verify_begin self;
  auth_verify_origin (tx_auth self) initial.
(** * Signing *)

Definition push_field (c : MultisigSpendingCondition) (f : TransactionAuthField) : MultisigSpendingCondition :=
  mkMultisig (multi_hash_mode c) (multi_signer c) (multi_nonce c) (multi_fee_rate c) (fields c ++ [f]) (multi_signatures_required c).
Definition set_signature (c : SinglesigSpendingCondition) (sig : list Z) : SinglesigSpendingCondition :=
  mkSinglesig (single_hash_mode c) (single_signer c) (single_nonce c) (single_fee_rate c) (key_encoding c) sig.

(** [sign_and_append] and [append_pubkey], with the new condition. *)
Definition sign_and_append (condition : TransactionSpendingCondition) (cur_sighash : list Z) (auth_flag : TransactionAuthFlags)
    (privk : StacksPrivateKey) : Res net_error (TransactionSpendingCondition * list Z) :=
  '(next_sig, next_sighash) ← next_signature cur_sighash auth_flag (spending_fee_rate condition) (spending_nonce condition) privk;
  match condition with
  | Multisig cond =>
    Ok (Multisig (push_field cond (Signature (if compress_public privk then Compressed else Uncompressed) next_sig)), next_sighash)
  | Singlesig cond => Ok (Singlesig (set_signature cond next_sig), next_sighash)
  end.
Definition append_pubkey (condition : TransactionSpendingCondition) (pubkey : StacksPublicKey) :
    Res net_error TransactionSpendingCondition :=
  match condition with
  | Multisig cond => Ok (Multisig (push_field cond (PublicKey pubkey)))
  | Singlesig _ => Err SigningError
  end.
(** [pop_auth_field], with the field. *)
Definition pop_auth_field (condition : TransactionSpendingCondition) : option TransactionAuthField * TransactionSpendingCondition :=
  match condition with
  | Multisig c =>
    (last (fields c),
     Multisig (mkMultisig (multi_hash_mode c) (multi_signer c) (multi_nonce c) (multi_fee_rate c)
                 (take (length (fields c) - 1) (fields c)) (multi_signatures_required c)))
  | Singlesig c =>
    if bool_decide (signature c = MessageSignature_empty) then (None, condition)
    else (Some (Signature (key_encoding c) (signature c)), Singlesig (set_signature c MessageSignature_empty))
  end.

Definition set_origin (auth : TransactionAuth) (origin : TransactionSpendingCondition) : TransactionAuth :=
  match auth with AuthStandard _ => AuthStandard origin | AuthSponsored _ sponsor => AuthSponsored origin sponsor end.
Definition sign_next_origin (self : StacksTransaction) (cur_sighash : list Z) (privk : StacksPrivateKey) :
    Res net_error (StacksTransaction * list Z) :=
  '(origin, next_sighash) ← sign_and_append (get_origin self) cur_sighash FlagStandard privk;
  Ok (with_auth self (set_origin (tx_auth self) origin), next_sighash).
Definition append_next_origin (self : StacksTransaction) (pubk : StacksPublicKey) : Res net_error StacksTransaction :=
  origin ← append_pubkey (get_origin self) pubk;
  Ok (with_auth self (set_origin (tx_auth self) origin)).
Definition sign_next_sponsor (self : StacksTransaction) (cur_sighash : list Z) (privk : StacksPrivateKey) :
    Res net_error (StacksTransaction * list Z) :=
  match tx_auth self with
  | AuthStandard _ => Err SigningError
  | AuthSponsored origin sponsor_condition =>
    '(sponsor, next_sighash) ← sign_and_append sponsor_condition cur_sighash FlagSponsored privk;
    Ok (with_auth self (AuthSponsored origin sponsor), next_sighash)
  end.
Definition append_next_sponsor (self : StacksTransaction) (pubk : StacksPublicKey) : Res net_error StacksTransaction :=
  match tx_auth self with
  | AuthStandard _ => Err SigningError
  | AuthSponsored origin sponsor_condition =>
    sponsor ← append_pubkey sponsor_condition pubk;
    Ok (with_auth self (AuthSponsored origin sponsor))
  end.

(** [num_signatures]: more than a u16 of them panic. *)
Definition num_signatures (self : TransactionSpendingCondition) : Res net_error Z :=
  match self with
  | Singlesig data => Ok (if bool_decide (signature data <> MessageSignature_empty) then 1 else 0)
  | Multisig data => match count_signatures 0 (fields data) with Some n => Ok n | None => Panic end
  end.
Definition signatures_required (self : TransactionSpendingCondition) : Z :=
  match self with Singlesig _ => 1 | Multisig data => multi_signatures_required data end.
(** Enough signatures already. *)
Definition fully_signed (condition : TransactionSpendingCondition) : Res net_error bool :=
  n ← num_signatures condition;
  Ok (signatures_required condition <=? n).

(** ** Accounts of keys *)

(** [new_singlesig_p2pkh] and the other conditions made from keys, and
    [TransactionAuth::from_p2pkh] and the like. *)
Definition signer_bytes (mode : AddressHashMode) (num_sigs : Z) (pubkeys : list StacksPublicKey) : Res net_error (option (list Z)) :=
  addr ← from_public_keys 0 mode num_sigs pubkeys;
  Ok (option_map addr_bytes addr).
Definition new_singlesig_p2pkh (pubkey : StacksPublicKey) : Res net_error (option TransactionSpendingCondition) :=
  let key_encoding := if compressed pubkey then Compressed else Uncompressed in
  signer ← signer_bytes SerializeP2PKH 1 [pubkey];
  Ok (option_map (fun bytes => Singlesig (mkSinglesig P2PKH bytes 0 0 key_encoding MessageSignature_empty)) signer).
Definition new_singlesig_p2wpkh (pubkey : StacksPublicKey) : Res net_error (option TransactionSpendingCondition) :=
  signer ← signer_bytes SerializeP2WPKH 1 [pubkey];
  Ok (option_map (fun bytes => Singlesig (mkSinglesig P2WPKH bytes 0 0 Compressed MessageSignature_empty)) signer).
Definition new_multisig_p2sh (num_sigs : Z) (pubkeys : list StacksPublicKey) : Res net_error (option TransactionSpendingCondition) :=
  signer ← signer_bytes SerializeP2SH num_sigs pubkeys;
  Ok (option_map (fun bytes => Multisig (mkMultisig P2SH bytes 0 0 [] num_sigs)) signer).
Definition new_multisig_p2wsh (num_sigs : Z) (pubkeys : list StacksPublicKey) : Res net_error (option TransactionSpendingCondition) :=
  signer ← signer_bytes SerializeP2WSH num_sigs pubkeys;
  Ok (option_map (fun bytes => Multisig (mkMultisig P2WSH bytes 0 0 [] num_sigs)) signer).
Definition from_p2pkh (privk : StacksPrivateKey) : Res net_error (option TransactionAuth) :=
  auth ← new_singlesig_p2pkh (from_private privk); Ok (option_map AuthStandard auth).
Definition from_p2sh (privks : list StacksPrivateKey) (num_sigs : Z) : Res net_error (option TransactionAuth) :=
  auth ← new_multisig_p2sh num_sigs (map from_private privks); Ok (option_map AuthStandard auth).
Definition from_p2wpkh (privk : StacksPrivateKey) : Res net_error (option TransactionAuth) :=
  auth ← new_singlesig_p2wpkh (from_private privk); Ok (option_map AuthStandard auth).
Definition from_p2wsh (privks : list StacksPrivateKey) (num_sigs : Z) : Res net_error (option TransactionAuth) :=
  auth ← new_multisig_p2wsh num_sigs (map from_private privks); Ok (option_map AuthStandard auth).
Definition into_sponsored (self sponsor_auth : TransactionAuth) : option TransactionAuth :=
  match self, sponsor_auth with
  | AuthStandard sc, AuthStandard sp => Some (AuthSponsored sc sp)
  | _, _ => None
  end.

(** [set_nonce] and [set_fee_rate] of a condition, of an authorization. *)
Definition spending_set_nonce (n : Z) (self : TransactionSpendingCondition) : TransactionSpendingCondition :=
  match self with
  | Singlesig c => Singlesig (mkSinglesig (single_hash_mode c) (single_signer c) n (single_fee_rate c) (key_encoding c) (signature c))
  | Multisig c => Multisig (mkMultisig (multi_hash_mode c) (multi_signer c) n (multi_fee_rate c) (fields c) (multi_signatures_required c))
  end.
Definition spending_set_fee_rate (fee_rate : Z) (self : TransactionSpendingCondition) : TransactionSpendingCondition :=
  match self with
  | Singlesig c => Singlesig (mkSinglesig (single_hash_mode c) (single_signer c) (single_nonce c) fee_rate (key_encoding c) (signature c))
  | Multisig c => Multisig (mkMultisig (multi_hash_mode c) (multi_signer c) (multi_nonce c) fee_rate (fields c) (multi_signatures_required c))
  end.
Definition set_origin_nonce (n : Z) (self : TransactionAuth) : TransactionAuth := set_origin self (spending_set_nonce n (auth_origin self)).
Definition set_sponsor_nonce (n : Z) (self : TransactionAuth) : option TransactionAuth :=
  match self with AuthStandard _ => None | AuthSponsored o s => Some (AuthSponsored o (spending_set_nonce n s)) end.
Definition set_fee_rate (fee_rate : Z) (self : TransactionAuth) : TransactionAuth :=
  match self with
  | AuthStandard s => AuthStandard (spending_set_fee_rate fee_rate s)
  | AuthSponsored o s => AuthSponsored o (spending_set_fee_rate fee_rate s)
  end.

(** ** StacksTransactionSigner *)

Record StacksTransactionSigner := mkSigner {
  signer_tx : StacksTransaction;
  signer_sighash : list Z;
  origin_done : bool;
  check_oversign : bool;
  check_overlap : bool;
}.
Definition signer_new (tx : StacksTransaction) : Res net_error StacksTransactionSigner :=
  sighash ← sign_begin tx;
  Ok (mkSigner tx sighash false true true).
(** [new_sponsor]: [None] stands for an incompatible spending condition. *)
Definition new_sponsor (tx : StacksTransaction) (spending_condition : TransactionSpendingCondition) :
    Res net_error (option StacksTransactionSigner) :=
  match tx_auth tx with
  | AuthStandard _ => Ok None
  | AuthSponsored origin _ =>
    let new_tx := with_auth tx (AuthSponsored origin spending_condition) in
    origin_sighash ← verify_origin new_tx;
    Ok (Some (mkSigner new_tx origin_sighash true true true))
  end.
Definition with_tx (self : StacksTransactionSigner) (tx : StacksTransaction) (sighash : list Z) (done : bool) :
    StacksTransactionSigner := mkSigner tx sighash done (check_oversign self) (check_overlap self).
Definition disable_checks (self : StacksTransactionSigner) : StacksTransactionSigner :=
  mkSigner (signer_tx self) (signer_sighash self) (origin_done self) false false.

(** The count is only taken with the check on. *)
Definition oversigned (self : StacksTransactionSigner) (condition : TransactionSpendingCondition) : Res net_error bool :=
  if check_oversign self then fully_signed condition else Ok false.
Definition sign_origin (self : StacksTransactionSigner) (privk : StacksPrivateKey) : Res net_error StacksTransactionSigner :=
  if check_overlap self && origin_done self then Err SigningError
  else
    over ← oversigned self (get_origin (signer_tx self));
    if over : bool then Err SigningError
    else
      '(tx, next_sighash) ← sign_next_origin (signer_tx self) (signer_sighash self) privk;
      Ok (with_tx self tx next_sighash (origin_done self)).
Definition append_origin (self : StacksTransactionSigner) (pubk : StacksPublicKey) : Res net_error StacksTransactionSigner :=
  if check_overlap self && origin_done self then Err SigningError
  else
    tx ← append_next_origin (signer_tx self) pubk;
    Ok (with_tx self tx (signer_sighash self) (origin_done self)).
Definition sign_sponsor (self : StacksTransactionSigner) (privk : StacksPrivateKey) : Res net_error StacksTransactionSigner :=
  over ← match tx_auth (signer_tx self) with
         | AuthSponsored _ sponsor_condition => oversigned self sponsor_condition
         | AuthStandard _ => Ok false
         end;
  if over : bool then Err SigningError
  else
    '(tx, next_sighash) ← sign_next_sponsor (signer_tx self) (signer_sighash self) privk;
    Ok (with_tx self tx next_sighash true).
Definition append_sponsor (self : StacksTransactionSigner) (pubk : StacksPublicKey) : Res net_error StacksTransactionSigner :=
  tx ← append_next_sponsor (signer_tx self) pubk;
  Ok (with_tx self tx (signer_sighash self) (origin_done self)).
Definition complete (self : StacksTransactionSigner) : Res net_error bool :=
  match tx_auth (signer_tx self) with
  | AuthStandard origin_condition => fully_signed origin_condition
  | AuthSponsored origin_condition sponsored_condition =>
    origin ← fully_signed origin_condition;
    if negb origin then Ok false
    else
      sponsored ← fully_signed sponsored_condition;
      Ok (sponsored && (origin_done self || negb (check_overlap self)))
  end.
Definition get_tx (self : StacksTransactionSigner) : Res net_error (option StacksTransaction) :=
  done ← complete self;
  Ok (if done : bool then Some (signer_tx self) else None).
End signatures.
