(* ===== verification/SignatureFacts.v ===== *)
(** Theorems on signatures (Signatures.v): what the signer makes of a transaction
    verifies, verification asks for the keys of the account, and the script of an
    account determines its keys. *)
From stdpp Require Import base strings numbers list gmap.
From Stdlib Require Import ZArith Lia.
From S2P Require Import Prelude Names Types C32 Natives ClarityDatabase StacksTypes NetCodec TransactionCodec Signatures.
#[local] Open Scope Z_scope.

(** What the library of elliptic curves documents: a signature is compact bytes with
    a recovery identifier, not all zero, and recovers the key that made it. *)
Class Secp256k1Laws `{!Secp256k1} : Prop := {
  sign_recid sk msg : 0 <= (sign_recoverable sk msg).1 <= 3;
  sign_compact sk msg : length (sign_recoverable sk msg).2 = 64%nat /\ compact_valid (sign_recoverable sk msg).2 = true;
  sign_nonzero sk msg : (sign_recoverable sk msg).2 <> repeat 0 64;
  sign_recovers sk msg : length msg = 32%nat -> ecdsa_recover msg (sign_recoverable sk msg) = Some (from_secret_key sk);
}.

Section facts.
Context `{Hsecp : !Secp256k1, Hlaws : !Secp256k1Laws, Hsizes : !MemSizes, Hlexer : !Lexer}.
Context `{Hsha : !Sha256, Hhashes : !NativeHashes, Hsha512 : !Sha512Trunc256}.

(** * One signature *)

Lemma presign_Ok h flag fee nonce :
  length h = 32%nat ->
  make_sighash_presign h flag fee nonce = Ok (sha512_256 (h ++ [auth_flags_u8 flag] ++ be_encode 8 fee ++ be_encode 8 nonce)).
Proof. intros Hh. unfold make_sighash_presign, assert_len. by rewrite !length_app, !length_be_encode, Hh. Qed.
Lemma postsign_Ok h pubk sig :
  length h = 32%nat -> length sig = 65%nat ->
  make_sighash_postsign h pubk sig = Ok (sha512_256 (h ++ [key_encoding_u8 (pubkey_encoding pubk)] ++ sig)).
Proof. intros Hh Hs. unfold make_sighash_postsign, assert_len. by rewrite !length_app, Hh, Hs. Qed.

Definition key_format (sk : StacksPrivateKey) : TransactionPublicKeyEncoding := if compress_public sk then Compressed else Uncompressed.

Lemma sign_length sk msg : length (from_secp256k1_recoverable (sign_recoverable sk msg)) = 65%nat.
Proof. cbn. by rewrite (proj1 (sign_compact sk msg)). Qed.
Lemma sign_not_empty sk msg : from_secp256k1_recoverable (sign_recoverable sk msg) <> MessageSignature_empty.
Proof. intros [= _ H]. by apply (sign_nonzero sk msg). Qed.
Lemma recoverable_back s :
  0 <= s.1 <= 3 -> compact_valid s.2 = true -> to_secp256k1_recoverable (from_secp256k1_recoverable s) = Some s.
Proof. intros Hr Hv. cbn. rewrite Hv, (proj2 (Z.leb_le _ _)), (proj2 (Z.leb_le _ _)) by lia. by destruct s. Qed.
Lemma recoverable_inv sig s : to_secp256k1_recoverable sig = Some s -> compact_valid s.2 = true.
Proof.
  destruct sig as [|r b]; [done|]. cbn. destruct (compact_valid b) eqn:E; [|by rewrite andb_false_r].
  destruct (_ && _); [|done]. by intros [= <-].
Qed.
Lemma sign_recoverable_back sk msg :
  to_secp256k1_recoverable (from_secp256k1_recoverable (sign_recoverable sk msg)) = Some (sign_recoverable sk msg).
Proof. apply recoverable_back; [apply sign_recid|apply sign_compact]. Qed.

(** A key signs every hash, and the signature verifies to the key and to the same
    next hash. *)
Lemma sign_verify h flag fee nonce sk :
  length h = 32%nat -> exists sig h',
    next_signature h flag fee nonce sk = Ok (sig, h') /\ length h' = 32%nat /\ sig <> MessageSignature_empty /\
    next_verification h flag fee nonce (key_format sk) sig = Ok (from_private sk, h').
Proof.
  intros Hh. unfold next_signature, next_verification. rewrite presign_Ok by done. cbn [mbind res_bind].
  set (m := sha512_256 _). assert (length m = 32%nat) as Hm by apply sha512_256_length.
  assert (message_ok m = true) as Hmsg by (unfold message_ok; by rewrite Hm).
  unfold privk_sign, recover_to_pubkey. rewrite Hmsg. cbn [mbind res_bind].
  set (sig := from_secp256k1_recoverable (sign_recoverable (privkey sk) m)).
  exists sig, (sha512_256 (m ++ [key_encoding_u8 (pubkey_encoding (from_private sk))] ++ sig)).
  assert (to_secp256k1_recoverable sig = Some (sign_recoverable (privkey sk) m)) as -> by apply sign_recoverable_back.
  rewrite sign_recovers by done. cbn [mbind res_bind].
  replace (set_compressed _ _) with (from_private sk) by by destruct sk as [k []].
  rewrite postsign_Ok by (done || apply sign_length). cbn [mbind res_bind]. split_and!; [done|..|done].
  - apply sha512_256_length.
  - apply sign_not_empty.
Qed.
(** * Signing a condition *)

Inductive SignStep := SignWith (privk : StacksPrivateKey) | Append (pubk : StacksPublicKey).
Definition step_key (step : SignStep) : StacksPublicKey := match step with SignWith sk => from_private sk | Append pk => pk end.
Definition is_sign (step : SignStep) : bool := match step with SignWith _ => true | Append _ => false end.
Fixpoint signs (steps : list SignStep) : Z :=
  match steps with [] => 0 | step :: steps => (if is_sign step then 1 else 0) + signs steps end.

(** The steps on the condition of an account. *)
Fixpoint sign_steps (c : TransactionSpendingCondition) (h : list Z) (flag : TransactionAuthFlags) (steps : list SignStep) :
    Res net_error (TransactionSpendingCondition * list Z) :=
  match steps with
  | [] => Ok (c, h)
  | SignWith sk :: steps =>
    over ← fully_signed c;
    if over : bool then Err SigningError else '(c, h) ← sign_and_append c h flag sk; sign_steps c h flag steps
  | Append pk :: steps => c ← append_pubkey c pk; sign_steps c h flag steps
  end.

(** An unsigned condition whose account is that of the keys of the steps, of which
    as many sign as the account requires. *)
Definition signable (c : TransactionSpendingCondition) (steps : list SignStep) : Prop :=
  match c with
  | Singlesig c =>
    signature c = MessageSignature_empty /\
    exists sk, steps = [SignWith sk] /\ key_encoding c = key_format sk /\
      check_signer (single_address_hash_mode (single_hash_mode c)) 1 [from_private sk] (single_signer c) = Ok ()
  | Multisig c =>
    fields c = [] /\ signs steps = multi_signatures_required c /\ multi_signatures_required c < 2 ^ 16 /\
    check_signer (multi_address_hash_mode (multi_hash_mode c)) (multi_signatures_required c) (map step_key steps) (multi_signer c) = Ok ()
  end.

Lemma signs_nonneg steps : 0 <= signs steps.
Proof. induction steps as [|[] ? IH]; cbn; lia. Qed.

Lemma verify_fields_app flag fee nonce f1 f2 : forall ks h n,
  verify_fields flag fee nonce ks h n (f1 ++ f2) =
    ('(ks', h', n') ← verify_fields flag fee nonce ks h n f1; verify_fields flag fee nonce ks' h' n' f2).
Proof.
  induction f1 as [|[pk|e sig] f1 IH]; intros ks h n; cbn; [done|apply IH|].
  destruct (next_verification h flag fee nonce e sig) as [[pk h']| |]; cbn; [|done..].
  destruct (checked_add_u16 n); [apply IH|done].
Qed.
Lemma verify_fields_count flag fee nonce fs : forall ks h n ks' h' n',
  verify_fields flag fee nonce ks h n fs = Ok (ks', h', n') -> count_signatures n fs = Some n'.
Proof.
  induction fs as [|[pk|e sig] fs IH]; intros ks h n ks' h' n'; cbn; [by intros [= _ _ <-]|apply IH|].
  destruct (next_verification h flag fee nonce e sig) as [[pk h1]| |]; cbn; [|done..].
  destruct (checked_add_u16 n); cbn; [apply IH|done].
Qed.

(** A condition in the course of signing: its fields verify to the keys and the
    hash so far. *)
Definition in_progress (flag : TransactionAuthFlags) (c : MultisigSpendingCondition) (h0 : list Z) (ks : list StacksPublicKey)
    (h : list Z) (n : Z) : Prop :=
  verify_fields flag (multi_fee_rate c) (multi_nonce c) [] h0 0 (fields c) = Ok (ks, h, n) /\ length h = 32%nat /\
  existsb field_uncompressed (fields c) = existsb (fun k => negb (compressed k)) ks.
Definition with_fields (c : MultisigSpendingCondition) (fs : list TransactionAuthField) : MultisigSpendingCondition :=
  mkMultisig (multi_hash_mode c) (multi_signer c) (multi_nonce c) (multi_fee_rate c) fs (multi_signatures_required c).

Lemma progress_append flag c h0 ks h n pk :
  in_progress flag c h0 ks h n -> in_progress flag (push_field c (PublicKey pk)) h0 (ks ++ [pk]) h n.
Proof.
  intros (Hv & Hh & Hu). split_and!; [|done|]; cbn.
  - by rewrite verify_fields_app, Hv.
  - by rewrite !existsb_app, Hu.
Qed.
Lemma progress_sign flag c h0 ks h n sk :
  in_progress flag c h0 ks h n -> n + 1 < 2 ^ 16 -> exists sig h',
    sign_and_append (Multisig c) h flag sk = Ok (Multisig (push_field c (Signature (key_format sk) sig)), h') /\
    in_progress flag (push_field c (Signature (key_format sk) sig)) h0 (ks ++ [from_private sk]) h' (n + 1).
Proof.
  intros (Hv & Hh & Hu) Hn. destruct (sign_verify h flag (multi_fee_rate c) (multi_nonce c) sk Hh) as (sig & h' & Hs & Hh' & _ & Hr).
  exists sig, h'. split.
  { unfold sign_and_append. cbn [spending_fee_rate spending_nonce]. by rewrite Hs. }
  split_and!; [|done|]; cbn [multi_fee_rate multi_nonce fields push_field].
  - rewrite verify_fields_app, Hv. cbn [mbind res_bind verify_fields]. rewrite Hr. cbn [mbind res_bind].
    unfold checked_add_u16. by rewrite (proj2 (Z.ltb_lt _ _)).
  - rewrite !existsb_app, Hu. cbn. unfold key_format. by destruct (compress_public sk).
Qed.

Lemma multi_steps flag steps : forall c h0 ks h n,
  in_progress flag c h0 ks h n -> n + signs steps = multi_signatures_required c -> multi_signatures_required c < 2 ^ 16 ->
  exists fs h', sign_steps (Multisig c) h flag steps = Ok (Multisig (with_fields c fs), h') /\
    in_progress flag (with_fields c fs) h0 (ks ++ map step_key steps) h' (multi_signatures_required c).
Proof.
  induction steps as [|[sk|pk] steps IH]; intros c h0 ks h n Hp Hn Hr; cbn [signs is_sign] in Hn.
  - exists (fields c), h. cbn. rewrite app_nil_r. replace (multi_signatures_required c) with n by lia. by destruct c.
  - pose proof (signs_nonneg steps). destruct (progress_sign flag c h0 ks h n sk Hp ltac:(lia)) as (sig & h1 & Hs & Hp1).
    destruct (IH _ _ _ _ _ Hp1) as (fs & h' & Hrun & Hp'); [cbn; lia|done|]. exists fs, h'. cbn [sign_steps].
    unfold fully_signed. cbn [num_signatures signatures_required]. destruct Hp as [Hc%verify_fields_count _]. rewrite Hc.
    cbn [mbind res_bind]. rewrite (proj2 (Z.leb_gt _ _)) by lia. rewrite Hs. cbn [mbind res_bind].
    rewrite Hrun. split; [done|]. cbn [map]. by rewrite cons_middle, (assoc_L (++)).
  - apply (progress_append _ _ _ _ _ _ pk) in Hp. destruct (IH _ _ _ _ _ Hp) as (fs & h' & Hrun & Hp'); [cbn; lia|done|].
    exists fs, h'. cbn [sign_steps append_pubkey mbind res_bind]. rewrite Hrun. split; [done|]. cbn [map].
    by rewrite cons_middle, (assoc_L (++)).
Qed.
(** The keys of a segwit account are compressed. *)
Lemma check_signer_segwit mode n ks signer :
  check_signer mode n ks signer = Ok () -> is_segwit mode = true -> existsb (fun k => negb (compressed k)) ks = false.
Proof.
  intros Hc Hm. unfold check_signer, from_public_keys in Hc. rewrite Hm in Hc. cbn [andb] in Hc.
  by destruct (existsb _ ks); [repeat case_match|].
Qed.

(** The steps succeed, and the signed condition verifies to the hash the signer
    ends with. *)
Lemma steps_verify flag c steps h0 :
  length h0 = 32%nat -> signable c steps -> exists c' h',
    sign_steps c h0 flag steps = Ok (c', h') /\ spending_verify c' h0 flag = Ok h' /\ length h' = 32%nat /\
    spending_clear c' = spending_clear c /\ fully_signed c' = Ok true.
Proof.
  intros Hh Hs. destruct c as [c|c].
  - destruct Hs as (He & sk & -> & Hk & Hc).
    destruct (sign_verify h0 flag (single_fee_rate c) (single_nonce c) sk Hh) as (sig & h' & Hsig & Hh' & Hne & Hv).
    exists (Singlesig (set_signature c sig)), h'. cbn [sign_steps]. unfold fully_signed, num_signatures.
    rewrite bool_decide_eq_false_2 by tauto. cbn [mbind res_bind signatures_required Z.leb Z.compare].
    unfold sign_and_append. cbn [spending_fee_rate spending_nonce]. rewrite Hsig. cbn [mbind res_bind sign_steps].
    cbn [spending_verify singlesig_verify]. unfold singlesig_verify.
    cbn [single_fee_rate single_nonce key_encoding signature single_signer single_hash_mode set_signature].
    rewrite Hk, Hv. cbn [mbind res_bind]. rewrite Hc. rewrite bool_decide_eq_true_2 by done. done.
  - destruct Hs as (He & Hn & Hr & Hc).
    destruct (multi_steps flag steps c h0 [] h0 0) as (fs & h' & Hrun & Hv & Hh' & Hu); [|lia|done|].
    { unfold in_progress. by rewrite He. }
    cbn [app] in Hv, Hu.
    exists (Multisig (with_fields c fs)), h'. cbn [spending_verify]. unfold multisig_verify. rewrite Hv. cbn [mbind res_bind].
    rewrite Hu. cbn [multi_signatures_required multi_hash_mode multi_signer with_fields].
    rewrite Z.eqb_refl, Hc. cbn [negb]. split_and!; [done| |done|done|].
    + destruct (multi_hash_mode c) eqn:E; [by rewrite andb_false_r|].
      by rewrite (check_signer_segwit _ _ _ _ Hc).
    + unfold fully_signed. cbn [num_signatures]. apply verify_fields_count in Hv. rewrite Hv. cbn. by rewrite Z.leb_refl.
Qed.

(** * The signer *)

Definition origin_step (s : StacksTransactionSigner) (step : SignStep) : Res net_error StacksTransactionSigner :=
  match step with SignWith sk => sign_origin s sk | Append pk => append_origin s pk end.
Definition sponsor_step (s : StacksTransactionSigner) (step : SignStep) : Res net_error StacksTransactionSigner :=
  match step with SignWith sk => sign_sponsor s sk | Append pk => append_sponsor s pk end.
Fixpoint run_steps (f : StacksTransactionSigner -> SignStep -> Res net_error StacksTransactionSigner) (s : StacksTransactionSigner)
    (steps : list SignStep) : Res net_error StacksTransactionSigner :=
  match steps with [] => Ok s | step :: steps => s ← f s step; run_steps f s steps end.
Definition run_signer (s : StacksTransactionSigner) (origin_steps sponsor_steps : list SignStep) : Res net_error StacksTransactionSigner :=
  s ← run_steps origin_step s origin_steps;
  run_steps sponsor_step s sponsor_steps.

Lemma run_origin tx h steps : forall c',
  sign_steps (get_origin tx) h FlagStandard steps = Ok c' ->
  run_steps origin_step (mkSigner tx h false true true) steps =
    Ok (mkSigner (with_auth tx (set_origin (tx_auth tx) c'.1)) c'.2 false true true).
Proof.
  revert tx h. induction steps as [|step steps IH]; intros tx h c' Hs.
  - injection Hs as <-. cbn. do 2 f_equal. by destruct tx as [? ? []].
  - assert (forall c1 h1, sign_steps c1 h1 FlagStandard steps = Ok c' ->
      run_steps origin_step (mkSigner (with_auth tx (set_origin (tx_auth tx) c1)) h1 false true true) steps =
      Ok (mkSigner (with_auth tx (set_origin (tx_auth tx) c'.1)) c'.2 false true true)) as Hnext.
    { intros c1 h1 H1. rewrite (IH _ _ c'); [by destruct tx as [? ? []]|]. by destruct tx as [? ? []]. }
    destruct step as [sk|pk]; cbn [sign_steps] in Hs; cbn [run_steps origin_step].
    + unfold sign_origin, oversigned, sign_next_origin. cbn [check_overlap origin_done check_oversign signer_tx signer_sighash andb].
      destruct (fully_signed (get_origin tx)) as [[]| |]; cbn [mbind res_bind] in *; [done| |done..].
      destruct (sign_and_append _ _ _ _) as [[c1 h1]| |]; cbn [mbind res_bind] in *; [|done..]. by apply Hnext.
    + unfold append_origin, append_next_origin. cbn [check_overlap origin_done signer_tx andb].
      destruct (append_pubkey _ _) as [c1| |]; cbn [mbind res_bind] in *; [|done..]. by apply Hnext.
Qed.
Lemma run_sponsor tx o p h done steps : forall c',
  tx_auth tx = AuthSponsored o p -> sign_steps p h FlagSponsored steps = Ok c' ->
  run_steps sponsor_step (mkSigner tx h done true true) steps =
    Ok (mkSigner (with_auth tx (AuthSponsored o c'.1)) c'.2 (done || (0 <? signs steps)) true true).
Proof.
  revert tx p h done. induction steps as [|step steps IH]; intros tx p h done c' Ha Hs.
  - injection Hs as <-. cbn. rewrite orb_false_r. do 2 f_equal. destruct tx. cbn in *. by subst.
  - assert (forall c1 h1 d, sign_steps c1 h1 FlagSponsored steps = Ok c' ->
      run_steps sponsor_step (mkSigner (with_auth tx (AuthSponsored o c1)) h1 d true true) steps =
      Ok (mkSigner (with_auth tx (AuthSponsored o c'.1)) c'.2 (d || (0 <? signs steps)) true true)) as Hnext.
    { intros c1 h1 d H1. by rewrite (IH _ c1 h1 d c'). }
    destruct step as [sk|pk]; cbn [sign_steps] in Hs; cbn [run_steps sponsor_step signs is_sign].
    + unfold sign_sponsor, oversigned, sign_next_sponsor. cbn [check_oversign signer_tx signer_sighash]. rewrite Ha.
      destruct (fully_signed p) as [[]| |]; cbn [mbind res_bind] in *; [done| |done..].
      destruct (sign_and_append _ _ _ _) as [[c1 h1]| |]; cbn [mbind res_bind] in *; [|done..].
      etrans; [exact (Hnext c1 h1 true Hs)|]. pose proof (signs_nonneg steps).
      rewrite (proj2 (Z.ltb_lt 0 (1 + signs steps))) by lia. by rewrite orb_true_r.
    + unfold append_sponsor, append_next_sponsor. cbn [signer_tx]. rewrite Ha.
      destruct (append_pubkey _ _) as [c1| |]; cbn [mbind res_bind] in *; [|done..]. by apply Hnext.
Qed.

(** The accounts of the authorization are those of the steps. *)
Definition auth_signable (auth : TransactionAuth) (origin_steps sponsor_steps : list SignStep) : Prop :=
  match auth with
  | AuthStandard origin => signable origin origin_steps /\ sponsor_steps = []
  | AuthSponsored origin sponsor => signable origin origin_steps /\ signable sponsor sponsor_steps /\ 0 < signs sponsor_steps
  end.

Lemma sign_begin_length tx h : sign_begin tx = Ok h -> length h = 32%nat.
Proof. unfold sign_begin, txid. intros (bs & _ & [= <-])%bind_Ok. apply sha512_256_length. Qed.

(** C5. What a signer makes of a transaction verifies: if the origin, and the
    sponsor if there is one, are unsigned conditions of the accounts of the keys,
    of which as many sign as the account requires while the others are appended,
    in any order, then every step succeeds, the signer is complete, and the
    transaction it returns verifies; it is the given one but for the
    authorization. *)
Theorem signed_verifies tx s0 origin_steps sponsor_steps :
  signer_new tx = Ok s0 -> auth_signable (tx_auth tx) origin_steps sponsor_steps ->
  exists s tx', run_signer s0 origin_steps sponsor_steps = Ok s /\ get_tx s = Ok (Some tx') /\
    transaction_verify tx' = Ok () /\ with_auth tx' (tx_auth tx) = tx.
Proof.
  intros (h & Hb & [= <-])%bind_Ok Ha. pose proof (sign_begin_length tx h Hb) as Hh. unfold run_signer.
  assert (forall auth, into_initial_sighash_auth auth = into_initial_sighash_auth (tx_auth tx) ->
    transaction_verify (with_auth tx auth) = auth_verify auth h) as Hverify.
  { intros auth Heq. unfold transaction_verify, verify_begin. change (tx_auth (with_auth tx auth)) with auth. rewrite Heq.
    change (with_auth (with_auth tx auth) ?a) with (with_auth tx a). unfold sign_begin in Hb. by rewrite Hb. }
  assert (forall auth, with_auth (with_auth tx auth) (tx_auth tx) = tx) as Hsame by by destruct tx.
  destruct (tx_auth tx) as [o|o p] eqn:Htx.
  - destruct Ha as [Ho ->]. destruct (steps_verify FlagStandard o origin_steps h Hh Ho) as (o' & h' & Hrun & Hv & _ & Hc & Hf).
    exists (mkSigner (with_auth tx (AuthStandard o')) h' false true true), (with_auth tx (AuthStandard o')).
    split_and!; [| | |done].
    + rewrite (run_origin tx h origin_steps (o', h')); [by rewrite Htx|]. unfold get_origin. by rewrite Htx.
    + unfold get_tx, complete. cbn [signer_tx with_auth tx_auth]. by rewrite Hf.
    + rewrite Hverify by (cbn; by rewrite Hc). unfold auth_verify. cbn [auth_verify_origin]. by rewrite Hv.
  - destruct Ha as (Ho & Hp & Hn).
    destruct (steps_verify FlagStandard o origin_steps h Hh Ho) as (o' & h1 & Hrun1 & Hv1 & Hh1 & Hc1 & Hf1).
    destruct (steps_verify FlagSponsored p sponsor_steps h1 Hh1 Hp) as (p' & h2 & Hrun2 & Hv2 & _ & Hc2 & Hf2).
    exists (mkSigner (with_auth tx (AuthSponsored o' p')) h2 true true true), (with_auth tx (AuthSponsored o' p')).
    split_and!; [| | |done].
    + rewrite (run_origin tx h origin_steps (o', h1)) by (unfold get_origin; by rewrite Htx). rewrite Htx.
      cbn [mbind res_bind set_origin fst snd].
      rewrite (run_sponsor (with_auth tx (AuthSponsored o' p)) o' p h1 false sponsor_steps (p', h2)) by done.
      by rewrite (proj2 (Z.ltb_lt _ _)).
    + unfold get_tx, complete. cbn [signer_tx with_auth tx_auth]. by rewrite Hf1, Hf2.
    + rewrite Hverify by (cbn; by rewrite Hc1). unfold auth_verify. cbn [auth_verify_origin]. rewrite Hv1.
      cbn [mbind res_bind]. by rewrite Hv2.
Qed.
(** * What verification asks for *)

(** The keys of a list of fields: a key stands for itself, a signature for the key
    that it recovers over the hash so far, the flag, the fee and the nonce. *)
Definition presign (flag : TransactionAuthFlags) (fee nonce : Z) (h : list Z) : list Z :=
  sha512_256 (h ++ [auth_flags_u8 flag] ++ be_encode 8 fee ++ be_encode 8 nonce).
Inductive keys_of (flag : TransactionAuthFlags) (fee nonce : Z) :
    list Z -> list TransactionAuthField -> list StacksPublicKey -> list Z -> Prop :=
| keys_nil h : keys_of flag fee nonce h [] [] h
| keys_key h pk fs ks h' : keys_of flag fee nonce h fs ks h' -> keys_of flag fee nonce h (PublicKey pk :: fs) (pk :: ks) h'
| keys_sig h e sig s key fs ks h' :
  to_secp256k1_recoverable sig = Some s -> ecdsa_recover (presign flag fee nonce h) s = Some key ->
  keys_of flag fee nonce (sha512_256 (presign flag fee nonce h ++ [key_encoding_u8 e] ++ sig)) fs ks h' ->
  keys_of flag fee nonce h (Signature e sig :: fs) (mkPublicKey key (bool_decide (e = Compressed)) :: ks) h'.

Definition is_signature (f : TransactionAuthField) : bool := match f with Signature _ _ => true | PublicKey _ => false end.
Definition sig_count (fs : list TransactionAuthField) : Z := Z.of_nat (length (filter (fun f => is_signature f = true) fs)).

(** The condition of an account as one list of fields. *)
Definition condition_fields (c : TransactionSpendingCondition) : list TransactionAuthField :=
  match c with Singlesig c => [Signature (key_encoding c) (signature c)] | Multisig c => fields c end.
Definition condition_mode (c : TransactionSpendingCondition) : AddressHashMode :=
  match c with
  | Singlesig c => single_address_hash_mode (single_hash_mode c)
  | Multisig c => multi_address_hash_mode (multi_hash_mode c)
  end.
Definition condition_signer (c : TransactionSpendingCondition) : list Z :=
  match c with Singlesig c => single_signer c | Multisig c => multi_signer c end.

(** The account has given its consent: its required number of signatures is there,
    and the keys are those of its address. *)
Definition authenticated (flag : TransactionAuthFlags) (c : TransactionSpendingCondition) (h h' : list Z) : Prop :=
  exists ks, keys_of flag (spending_fee_rate c) (spending_nonce c) h (condition_fields c) ks h' /\
    sig_count (condition_fields c) = signatures_required c /\
    from_public_keys 0 (condition_mode c) (signatures_required c) ks = Ok (Some (mkAddress 0 (condition_signer c))).

Lemma next_verification_inv h flag fee nonce e sig pk h' :
  next_verification h flag fee nonce e sig = Ok (pk, h') ->
  exists s key, to_secp256k1_recoverable sig = Some s /\ ecdsa_recover (presign flag fee nonce h) s = Some key /\
    pk = mkPublicKey key (bool_decide (e = Compressed)) /\
    h' = sha512_256 (presign flag fee nonce h ++ [key_encoding_u8 e] ++ sig).
Proof.
  intros (m & (? & _ & <-%Ok_inj)%bind_Ok & (pk' & Hr & (h'' & (? & _ & <-%Ok_inj)%bind_Ok & Hres%Ok_inj)%bind_Ok)%bind_Ok)%bind_Ok.
  simplify_eq. unfold recover_to_pubkey in Hr. destruct (message_ok _); [|done].
  destruct (to_secp256k1_recoverable sig) as [s|]; [|done]. fold (presign flag fee nonce h) in Hr |- *.
  destruct (ecdsa_recover _ s) as [key|] eqn:?; [|done]. apply Ok_inj in Hr as <-. exists s, key. by destruct e.
Qed.

Lemma sig_count_cons f fs : sig_count (f :: fs) = (if is_signature f then 1 else 0) + sig_count fs.
Proof. unfold sig_count. rewrite filter_cons. destruct f; cbn [is_signature]; [rewrite decide_False by done|rewrite decide_True by done]; cbn [length]; lia. Qed.

Lemma verify_fields_sound flag fee nonce fs : forall ks0 h n ks h' n',
  verify_fields flag fee nonce ks0 h n fs = Ok (ks, h', n') ->
  exists ks1, ks = ks0 ++ ks1 /\ keys_of flag fee nonce h fs ks1 h' /\ n' = n + sig_count fs.
Proof.
  induction fs as [|[pk|e sig] fs IH]; intros ks0 h n ks h' n'; cbn [verify_fields].
  - intros [= <- <- <-]. exists []. rewrite app_nil_r. split_and!; [done|constructor|unfold sig_count; cbn; lia].
  - intros (ks1 & -> & Hk & ->)%IH. exists (pk :: ks1). rewrite <-(assoc_L (++)), sig_count_cons. by repeat constructor.
  - intros ([pk h1] & Hv & Hrest)%bind_Ok. unfold checked_add_u16 in Hrest. destruct (n + 1 <? 2 ^ 16); [|done].
    apply IH in Hrest as (ks1 & -> & Hk & ->). apply next_verification_inv in Hv as (s & key & Hs & Hr & -> & ->).
    eexists (_ :: ks1). rewrite <-(assoc_L (++)), sig_count_cons. split_and!; [done|by econstructor|cbn; lia].
Qed.

Lemma check_signer_sound mode n ks signer :
  check_signer mode n ks signer = Ok () -> from_public_keys 0 mode n ks = Ok (Some (mkAddress 0 signer)).
Proof.
  unfold check_signer. intros ([a|] & Ha & Hc)%bind_Ok; [|done]. rewrite Ha. case_bool_decide as E; [done|].
  subst signer. unfold from_public_keys in Ha. repeat case_match; try done.
  apply bind_Ok in Ha as (hash & _ & [= <-]). done.
Qed.

Lemma spending_verify_sound c h flag h' : spending_verify c h flag = Ok h' -> authenticated flag c h h'.
Proof.
  destruct c as [c|c]; cbn [spending_verify].
  - intros ([pk h1] & Hv & ([] & Hc & [= <-])%bind_Ok)%bind_Ok. apply next_verification_inv in Hv as (s & key & Hs & Hr & -> & ->).
    eexists [_]. split_and!; [econstructor; [done..|constructor]|done|by apply check_signer_sound].
  - intros ([[ks h1] n] & (ks1 & -> & Hk & ->)%verify_fields_sound & Hrest)%bind_Ok.
    destruct (_ =? _) eqn:En; [|done]. cbn [negb] in Hrest. destruct (_ && _) in Hrest; [done|].
    apply bind_Ok in Hrest as ([] & Hc & [= <-]). exists ks1. split_and!; [done| |by apply check_signer_sound].
    apply Z.eqb_eq in En. cbn in *. lia.
Qed.

(** The accounts of a transaction consented: over the hash of the transaction
    without its signatures, and for the sponsor over the hash that the origin's
    signatures end with. *)
Definition transaction_authentic (tx : StacksTransaction) : Prop :=
  exists h0 h1, verify_begin tx = Ok h0 /\ authenticated FlagStandard (get_origin tx) h0 h1 /\
    match tx_auth tx with
    | AuthStandard _ => True
    | AuthSponsored _ sponsor => exists h2, authenticated FlagSponsored sponsor h1 h2
    end.
Lemma verified_authentic tx : transaction_verify tx = Ok () -> transaction_authentic tx.
Proof.
  intros (h0 & Hb & (h1 & Ho & Hs)%bind_Ok)%bind_Ok. exists h0, h1. unfold get_origin.
  destruct (tx_auth tx) as [o|o p]; cbn in Ho |- *; apply spending_verify_sound in Ho; split_and!; try done.
  apply bind_Ok in Hs as (h2 & Hp & _). exists h2. by apply spending_verify_sound.
Qed.
(** * Malleability *)

Lemma next_verification_other h flag fee nonce e sig s sig' s' pk h' :
  to_secp256k1_recoverable sig' = Some s' -> length sig' = 65%nat -> to_secp256k1_recoverable sig = Some s ->
  (forall msg, ecdsa_recover msg s' = ecdsa_recover msg s) ->
  next_verification h flag fee nonce e sig = Ok (pk, h') ->
  exists h'', next_verification h flag fee nonce e sig' = Ok (pk, h'').
Proof.
  intros Hs' Hl Hs Hrec (m & Hm & (pk' & Hr & (h'' & _ & [= <- _])%bind_Ok)%bind_Ok)%bind_Ok. unfold next_verification.
  rewrite Hm. cbn [mbind res_bind]. unfold recover_to_pubkey in *. rewrite Hs', Hrec. rewrite Hs in Hr. rewrite Hr.
  cbn [mbind res_bind]. assert (length m = 32%nat) as Hlm.
  { destruct (message_ok m) eqn:E; [|done]. unfold message_ok in E. lia. }
  rewrite postsign_Ok by done. cbn. eauto.
Qed.

Definition set_origin_signature (tx : StacksTransaction) (c : SinglesigSpendingCondition) (sig : list Z) : StacksTransaction :=
  with_auth tx (set_origin (tx_auth tx) (Singlesig (set_signature c sig))).

(** C40. Verification recovers the key of a signature and never asks whether its
    second half is the low one, which [PublicKey::verify] does: where [negate] maps
    a signature to one that recovers the same keys, as the negation of that half
    with the other recovery identifier does, the transaction of a single signature
    still verifies with the other signature. *)
Theorem signature_malleable (negate : Z * list Z -> Z * list Z) tx c s :
  (forall s, compact_valid s.2 = true ->
     0 <= (negate s).1 <= 3 /\ length (negate s).2 = 64%nat /\ compact_valid (negate s).2 = true /\
     forall msg, ecdsa_recover msg (negate s) = ecdsa_recover msg s) ->
  tx_auth tx = AuthStandard (Singlesig c) -> to_secp256k1_recoverable (signature c) = Some s ->
  transaction_verify tx = Ok () ->
  transaction_verify (set_origin_signature tx c (from_secp256k1_recoverable (negate s))) = Ok ().
Proof.
  intros Hneg Ha Hsig (h & Hb & (h1 & Ho & _)%bind_Ok)%bind_Ok.
  destruct (Hneg s) as (Hr & Hl & Hv & Hrec); [by eapply recoverable_inv|].
  unfold set_origin_signature, transaction_verify, verify_begin in *. rewrite Ha in *.
  change (with_auth (with_auth tx ?b) ?a) with (with_auth tx a). cbn [with_auth tx_auth set_origin] in *.
  cbn [into_initial_sighash_auth spending_clear single_hash_mode single_signer key_encoding set_signature] in *. rewrite Hb.
  cbn [mbind res_bind]. unfold auth_verify. cbn [auth_verify_origin spending_verify] in *.
  apply bind_Ok in Ho as ([pk h2] & Hnext & ([] & Hc & _)%bind_Ok).
  eapply (next_verification_other _ _ _ _ _ _ _ (from_secp256k1_recoverable (negate s))) in Hnext as [h3 Hnext];
    [|by rewrite recoverable_back|by cbn; rewrite Hl|done..].
  unfold singlesig_verify. cbn [single_fee_rate single_nonce key_encoding signature single_hash_mode single_signer set_signature].
  rewrite Hnext. cbn [mbind res_bind]. by rewrite Hc.
Qed.

(** * Scripts *)

Ltac div_lia := Z.to_euclidean_division_equations; lia.

(** The bytes a script pushes for a count. *)
Definition int_code (n : Z) : list Z :=
  if n =? 0 then [0]
  else if n <=? 16 then [0x50 + n]
  else if n <? 128 then [1; n]
  else if n <? 256 then [2; n; 0]
  else if n <? 32768 then [2; n mod 256; n / 256]
  else [3; n mod 256; n / 256; 0].

Lemma land_byte n : Z.land n 0xFF = n mod 256.
Proof. change 0xFF with (Z.ones 8). by rewrite Z.land_ones. Qed.
Lemma land_sign n : 0 <= n < 256 -> (Z.land n 0x80 =? 0) = (n <? 128).
Proof.
  intros Hn. assert (forallb (fun n => Bool.eqb (Z.land n 0x80 =? 0) (n <? 128)) (map Z.of_nat (seq 0 256)) = true) as Hall by done.
  rewrite forallb_forall in Hall. apply Bool.eqb_prop, Hall. apply in_map_iff. exists (Z.to_nat n). rewrite in_seq. lia.
Qed.

Lemma scriptint_small k n : n <= 0xFF -> scriptint_bytes (S k) n = ([], n).
Proof. intros Hn. cbn [scriptint_bytes]. by rewrite (proj2 (Z.ltb_ge _ _)). Qed.
Lemma scriptint_pair n : 0xFF < n < 2 ^ 16 -> scriptint_bytes 8 n = ([n mod 256], n / 256).
Proof.
  intros Hn. change (scriptint_bytes 8 n) with
    (if 0xFF <? n then let '(v, a) := scriptint_bytes 7 (Z.shiftr n 8) in (Z.land n 0xFF :: v, a) else ([], n)).
  rewrite (proj2 (Z.ltb_lt _ _)), Z.shiftr_div_pow2 by lia. change (2 ^ 8) with 256.
  rewrite scriptint_small by div_lia. by rewrite land_byte.
Qed.

Lemma push_int_code self n : 0 <= n < 2 ^ 16 -> push_int self n = Ok (self ++ int_code n).
Proof.
  intros Hn. unfold push_int, int_code. destruct (n =? -1) eqn:?; [lia|]. cbn [orb].
  destruct (n =? 0) eqn:?; [by replace n with 0 by lia|]. destruct (n <=? 16) eqn:?.
  { rewrite (proj2 (Z.leb_le 1 n)) by lia. cbn [andb]. unfold OP_TRUE. rewrite wrap_small by (unfold in_u; lia).
    do 3 f_equal. lia. }
  rewrite andb_false_r. unfold build_scriptint. rewrite Heqb0, (proj2 (Z.ltb_ge n 0)), Z.abs_eq by lia.
  destruct (Z.le_gt_cases n 0xFF).
  - rewrite scriptint_small, land_sign, (proj2 (Z.ltb_lt n 256)) by lia.
    destruct (n <? 128) eqn:?; cbn [negb]; rewrite ?Z.lor_0_r, wrap_small by (unfold in_u; lia); done.
  - rewrite scriptint_pair, (proj2 (Z.ltb_ge n 128)), (proj2 (Z.ltb_ge n 256)) by lia.
    assert (1 <= n / 256 < 256) by div_lia. rewrite land_sign by lia. destruct (n / 256 <? 128) eqn:?; cbn [negb].
    + rewrite (proj2 (Z.ltb_lt n 32768)), Z.lor_0_r, wrap_small by (unfold in_u; div_lia). done.
    + rewrite (proj2 (Z.ltb_ge n 32768)), wrap_small by (unfold in_u; div_lia). done.
Qed.

(** The codes of counts are told apart from each other and from the length of a
    key. *)
Lemma int_code_prefix n m r r' :
  0 <= n < 2 ^ 16 -> 0 <= m < 2 ^ 16 -> int_code n ++ r = int_code m ++ r' -> n = m /\ r = r'.
Proof.
  intros Hn Hm. unfold int_code. pose proof (Z.div_mod n 256). pose proof (Z.div_mod m 256).
  destruct (n =? 0) eqn:?, (n <=? 16) eqn:?, (n <? 128) eqn:?, (n <? 256) eqn:?, (n <? 32768) eqn:?; try lia;
  destruct (m =? 0) eqn:?, (m <=? 16) eqn:?, (m <? 128) eqn:?, (m <? 256) eqn:?, (m <? 32768) eqn:?; try lia;
  cbn [app]; intros [= ]; split; try done; lia.
Qed.
Lemma int_code_head n : 0 <= n < 2 ^ 16 -> exists b r, int_code n = b :: r /\ b <> 33 /\ b <> 65.
Proof. intros Hn. unfold int_code. repeat case_match; do 2 eexists; split_and!; try done; lia. Qed.

(** The serialized form of a key. *)
Definition key_bytes_ok (k : StacksPublicKey) : Prop := length (to_bytes k) = 33%nat \/ length (to_bytes k) = 65%nat.
Definition key_codes (ks : list StacksPublicKey) : list Z :=
  concat (map (fun k => Z.of_nat (length (to_bytes k)) :: to_bytes k) ks).

Lemma push_keys_codes ks bldr : Forall key_bytes_ok ks -> push_keys bldr ks = Ok (bldr ++ key_codes ks).
Proof.
  intros Hks. revert bldr. induction Hks as [|k ks Hk _ IH]; intros bldr; [by rewrite app_nil_r|].
  cbn [push_keys]. unfold push_slice, OP_PUSHDATA1. rewrite (proj2 (Z.ltb_lt _ _)) by (destruct Hk; lia). cbn [mbind res_bind].
  rewrite IH. unfold key_codes. cbn [map concat app]. by rewrite <-(assoc_L (++)).
Qed.

Lemma key_codes_prefix ks : forall ks' n n' r r',
  Forall key_bytes_ok ks -> Forall key_bytes_ok ks' -> 0 <= n < 2 ^ 16 -> 0 <= n' < 2 ^ 16 ->
  key_codes ks ++ int_code n ++ r = key_codes ks' ++ int_code n' ++ r' -> map to_bytes ks = map to_bytes ks'.
Proof.
  assert (forall ks n r r', Forall key_bytes_ok ks -> 0 <= n < 2 ^ 16 -> key_codes ks ++ r = int_code n ++ r' -> map to_bytes ks = []) as Hnil.
  { intros [|k l] n r r' Hk Hn H; [done|]. destruct (int_code_head n Hn) as (b & t & Hb & ? & ?). rewrite Hb in H.
    apply Forall_cons in Hk as [[E|E] _]; unfold key_codes in H; cbn [map concat app] in H; rewrite E in H; injection H; lia. }
  induction ks as [|k ks IH]; intros ks' n n' r r' Hks Hks' Hn Hn' Heq; [by symmetry in Heq |- *; eapply Hnil in Heq|].
  destruct ks' as [|k' ks']; [by eapply Hnil in Heq|]. apply Forall_cons in Hks as [Hk Hks], Hks' as [Hk' Hks'].
  unfold key_codes in Heq. cbn [map concat app] in Heq. injection Heq as Hlen Heq. rewrite <-!(assoc_L (++)) in Heq.
  apply app_inj_1 in Heq as [Hb Heq]; [|lia]. cbn [map]. f_equal; [done|]. by apply (IH ks' n n' r r').
Qed.

(** The script that the address of a multisig account hashes determines the
    account: the number of required signatures and the serialized keys, in order. *)
Theorem account_script_injective n ks n' ks' script :
  0 <= n < 2 ^ 16 -> 0 <= n' < 2 ^ 16 -> Z.of_nat (length ks) < 2 ^ 16 -> Z.of_nat (length ks') < 2 ^ 16 ->
  Forall key_bytes_ok ks -> Forall key_bytes_ok ks' ->
  multisig_script n ks = Ok script -> multisig_script n' ks' = Ok script -> n = n' /\ map to_bytes ks = map to_bytes ks'.
Proof.
  assert (forall n ks, 0 <= n < 2 ^ 16 -> Z.of_nat (length ks) < 2 ^ 16 -> Forall key_bytes_ok ks ->
    multisig_script n ks = Ok (int_code n ++ key_codes ks ++ int_code (Z.of_nat (length ks)) ++ [OP_CHECKMULTISIG])) as Hscript.
  { intros m l Hm Hl Hk. unfold multisig_script. rewrite push_int_code by done. cbn [mbind res_bind app].
    rewrite push_keys_codes by done. cbn [mbind res_bind]. rewrite push_int_code by lia. cbn [mbind res_bind].
    unfold push_opcode. by rewrite <-!(assoc_L (++)). }
  intros Hn Hn' Hl Hl' Hk Hk'. rewrite !Hscript by done. intros <-%Ok_inj Heq%Ok_inj. symmetry in Heq.
  apply int_code_prefix in Heq as [-> Heq]; [|done..]. split; [done|]. eapply key_codes_prefix; [..|exact Heq]; try done; lia.
Qed.
End facts.
