(* ===== verification/BlockCodec.v ===== *)
(** The wire format of blocks and microblocks (src/chainstate/stacks/block.rs): the
    codecs of their headers, the checks that reading one makes of its
    transactions, block hashes, and the signatures of microblocks. *)
From stdpp Require Import base strings numbers list gmap.
From Stdlib Require Import ZArith Lia.
From S2P Require Import Prelude Names Types Serialization Codec C32 Natives ClarityDatabase StacksTypes Merkle NetCodec TransactionCodec Signatures SignatureFacts.
#[local] Open Scope Z_scope.

(** [VRFProof::from_slice] of 80 bytes succeeds; the proof is its bytes. *)
Class VRF := { proof_valid : list Z -> bool }.

(** [Sha512Trunc256Sum] as a hash of Merkle trees. *)
#[global] Instance Sha512Trunc256Sum_merkle `{!Sha512Trunc256} : MerkleHashFunc (list Z) :=
  {| hash_empty := repeat 0 32; from_tagged_data tag data := sha512_256 (tag :: data); bits h := h |}.
#[global] Instance Sha512Trunc256Sum_laws `{!Sha512Trunc256} : MerkleHashLaws (list Z) 32.
Proof. split; [intros; apply sha512_256_length|done]. Qed.

Section codecs.
Context `{Hsecp : !Secp256k1, Hsizes : !MemSizes, Hlexer : !Lexer, Hvrf : !VRF}.
Context `{Hsha : !Sha256, Hhashes : !NativeHashes, Hsha512 : !Sha512Trunc256}.

(** * Headers *)

Definition VRF_PROOF_ENCODED_SIZE : nat := 80.
Definition VRFProof_codec : StacksMessageCodec (list Z) :=
  mkCodec
    (fun self => Ok self)
    (bytes ← net_read read_error (read_exact VRF_PROOF_ENCODED_SIZE);
     if proof_valid bytes then mret bytes else net_fail).
Definition StacksWorkScore_codec : StacksMessageCodec StacksWorkScore :=
  mkCodec
    (fun self => write_all [write_next u64_codec (burn self); write_next u64_codec (work self)])
    (burn ← read_next u64_codec; work ← read_next u64_codec; mret (mkWorkScore burn work)).

Definition StacksBlockHeader_codec : StacksMessageCodec StacksBlockHeader :=
  mkCodec
    (fun self =>
       write_all [write_next u8_codec (header_version self);
                  write_next StacksWorkScore_codec (total_work self);
                  write_next VRFProof_codec (proof self);
                  write_next BlockHeaderHash_codec (parent_block self);
                  write_next BlockHeaderHash_codec (parent_microblock self);
                  write_next u16_codec (parent_microblock_sequence self);
                  write_next BlockHeaderHash_codec (header_tx_merkle_root self);
                  write_next BlockHeaderHash_codec (state_index_root self);
                  write_next Hash160_codec (microblock_pubkey_hash self)])
    (version ← read_next u8_codec;
     total_work ← read_next StacksWorkScore_codec;
     proof ← read_next VRFProof_codec;
     parent_block ← read_next BlockHeaderHash_codec;
     parent_microblock ← read_next BlockHeaderHash_codec;
     parent_microblock_sequence ← read_next u16_codec;
     tx_merkle_root ← read_next BlockHeaderHash_codec;
     state_index_root ← read_next BlockHeaderHash_codec;
     pubkey_hash_buf ← read_next Hash160_codec;
     mret (mkBlockHeader version total_work proof parent_block parent_microblock parent_microblock_sequence tx_merkle_root
             state_index_root pubkey_hash_buf)).

(** [block_hash] of the two headers: the bytes are serialized with [expect]. *)
Definition from_serialized_header (buf : list Z) : list Z := sha512_256 buf.
Definition block_hash (self : StacksBlockHeader) : Res net_error (list Z) :=
  buf ← expect (write_next StacksBlockHeader_codec self);
  Ok (from_serialized_header buf).
Definition microblock_hash (self : StacksMicroblockHeader) : Res net_error (list Z) :=
  bytes ← expect (write_next StacksMicroblockHeader_codec self);
  Ok (from_serialized_header bytes).

(** * Signatures of microblocks *)

Definition pubkey_hash (pubk : StacksPublicKey) : list Z := hash160 (StacksPublicKeyBuffer_from_public_key pubk).
Definition with_signature (self : StacksMicroblockHeader) (sig : list Z) : StacksMicroblockHeader :=
  mkMicroblockHeader (mblock_version self) (mblock_sequence self) (mblock_prev_block self) (mblock_tx_merkle_root self) sig.
Definition microblock_sign (self : StacksMicroblockHeader) (privk : StacksPrivateKey) : Res net_error StacksMicroblockHeader :=
  let self := with_signature self MessageSignature_empty in
  bytes ← expect (write_next StacksMicroblockHeader_codec self);
  sig ← privk_sign privk (sha512_256 bytes);
  Ok (with_signature self sig).
Definition check_recover_pubkey (self : StacksMicroblockHeader) : Res net_error (list Z) :=
  bytes ← expect (microblock_header_serialize self true);
  pubk ← map_err (fun _ => VerifyingError) (recover_to_pubkey (sha512_256 bytes) (mblock_signature self));
  Ok (pubkey_hash (set_compressed true pubk)).
Definition microblock_verify (self : StacksMicroblockHeader) (pubk_hash : list Z) : Res net_error () :=
  pubkh ← check_recover_pubkey self;
  if bool_decide (pubkh <> pubk_hash) then Err VerifyingError else Ok ().

(** * Checks of transactions *)

(** Identifiers of transactions. *)
Fixpoint txids (txs : list StacksTransaction) : Res net_error (list (list Z)) :=
  match txs with
  | [] => Ok []
  | tx :: txs => id ← txid tx; ids ← txids txs; Ok (id :: ids)
  end.

(** [validate_transactions_unique], over the identifiers seen. *)
Fixpoint unique_from (seen : list (list Z)) (txs : list StacksTransaction) : Res net_error bool :=
  match txs with
  | [] => Ok true
  | tx :: txs => id ← txid tx; if bool_decide (id ∈ seen) then Ok false else unique_from (id :: seen) txs
  end.
Definition validate_transactions_unique (txs : list StacksTransaction) : Res net_error bool := unique_from [] txs.

Definition is_mainnet (tx : StacksTransaction) : bool := match tx_version tx with Mainnet => true | Testnet => false end.
Definition validate_transactions_network (txs : list StacksTransaction) (mainnet : bool) : bool :=
  forallb (fun tx => if mainnet && negb (is_mainnet tx) then false else negb (negb mainnet && is_mainnet tx)) txs.
Definition validate_transactions_chain_id (txs : list StacksTransaction) (chain_id : Z) : bool :=
  forallb (fun tx => tx_chain_id tx =? chain_id) txs.
Definition validate_anchor_mode (txs : list StacksTransaction) (anchored : bool) : bool :=
  forallb (fun tx =>
             match anchored, tx_anchor_mode tx with
             | true, OffChainOnly => false
             | false, OnChainOnly => false
             | _, _ => true
             end) txs.

Definition is_coinbase (tx : StacksTransaction) : bool := match payload tx with Coinbase _ => true | _ => false end.
(** The loop of [validate_coinbase] from index [i]: the index of the coinbase found,
    if all is well. *)
Fixpoint find_coinbase (check_present : bool) (i : nat) (found : option nat) (txs : list StacksTransaction) : option (option nat) :=
  match txs with
  | [] => Some found
  | tx :: txs =>
    if is_coinbase tx then
      if negb check_present then None
      else if bool_decide (is_Some found) then None
      else if bool_decide (tx_anchor_mode tx <> OnChainOnly) then None
      else find_coinbase check_present (i + 1) (Some i) txs
    else find_coinbase check_present (i + 1) found txs
  end.
Definition validate_coinbase (txs : list StacksTransaction) (check_present : bool) : bool :=
  match find_coinbase check_present 0 None txs with
  | None => false
  | Some found =>
    if negb (default O found =? 0)%nat then false
    else
      match check_present, bool_decide (is_Some found) with
      | true, true => true
      | false, false => true
      | true, false => false
      | false, true => false
      end
  end.

(** [validate_transactions_static] of blocks ([anchored]) and of microblocks. *)
Definition validate_transactions_static (anchored : bool) (txs : list StacksTransaction) (mainnet : bool) (chain_id : Z) :
    Res net_error bool :=
  unique ← validate_transactions_unique txs;
  Ok ((unique : bool) && validate_transactions_network txs mainnet && validate_transactions_chain_id txs chain_id &&
      validate_anchor_mode txs anchored && validate_coinbase txs anchored).

(** * Blocks *)

(** More than one coinbase. *)
Definition coinbase_count (txs : list StacksTransaction) : nat := length (filter (fun tx => is_coinbase tx = true) txs).

Definition check (b : bool) : NetReader () := if b then mret () else net_fail.

Definition StacksBlock_codec : StacksMessageCodec StacksBlock :=
  mkCodec
    (fun self =>
       write_all [write_next StacksBlockHeader_codec (block_header self);
                  write_next (vec_codec size_of_transaction StacksTransaction_codec) (block_txs self)])
    (header ← read_next StacksBlockHeader_codec;
     txs ← bounded MAX_MESSAGE_LEN (read_next (vec_codec size_of_transaction StacksTransaction_codec));
     _ ← check (negb (length txs =? 0)%nat);
     _ ← check (validate_anchor_mode txs true);
     unique ← net_lift (validate_transactions_unique txs);
     _ ← check unique;
     txid_vecs ← net_lift (txids txs);
     let tx_merkle_root := root (H := list Z) (merkle_new txid_vecs) in
     _ ← check (bool_decide (tx_merkle_root = header_tx_merkle_root header));
     _ ← check (coinbase_count txs <=? 1)%nat;
     _ ← check (validate_coinbase txs true);
     mret (mkStacksBlock header txs)).

Definition StacksMicroblock_codec : StacksMessageCodec StacksMicroblock :=
  mkCodec
    (fun self =>
       write_all [write_next StacksMicroblockHeader_codec (mblock_header self);
                  write_next (vec_codec size_of_transaction StacksTransaction_codec) (mblock_txs self)])
    (header ← read_next StacksMicroblockHeader_codec;
     txs ← bounded MAX_MESSAGE_LEN (read_next (vec_codec size_of_transaction StacksTransaction_codec));
     _ ← check (negb (length txs =? 0)%nat);
     unique ← net_lift (validate_transactions_unique txs);
     _ ← check unique;
     _ ← check (validate_anchor_mode txs false);
     txid_vecs ← net_lift (txids txs);
     let tx_merkle_root := root (H := list Z) (merkle_new txid_vecs) in
     _ ← check (bool_decide (tx_merkle_root = mblock_tx_merkle_root header));
     _ ← check (validate_coinbase txs false);
     mret (mkMicroblock header txs)).
End codecs.
