(* ===== verification/BlockCodecFacts.v ===== *)
(** Theorems on the wire format of blocks (BlockCodec.v): a block is read back as
    it was written, a block that is read passes its checks and its header binds
    its transactions, and a signed microblock verifies. *)
From stdpp Require Import base strings numbers list gmap sets.
From Stdlib Require Import ZArith Lia.
From S2P Require Import Prelude Names Types Values Serialization Codec Decode C32 Natives ClarityDatabase StacksTypes Merkle NetCodec TransactionCodec Signatures SignatureFacts BlockCodec.
#[local] Open Scope Z_scope.

Section facts.
Context `{Hsecp : !Secp256k1, Hsizes : !MemSizes, Hlexer : !Lexer, Hvrf : !VRF}.
Context `{Hsha : !Sha256, Hhashes : !NativeHashes, Hsha512 : !Sha512Trunc256}.

(** * Same transactions *)

(** The bytes depend on the values only up to their equality. *)
Lemma write_all_ext ws ws' : ws = ws' -> write_all ws = write_all ws'.
Proof. by intros ->. Qed.
Lemma vec_same {T} size_of (c : StacksMessageCodec T) (same : relation T) l l' :
  (forall x x', same x x' -> write_next c x = write_next c x') -> Forall2 same l l' ->
  write_next (vec_codec size_of c) l = write_next (vec_codec size_of c) l'.
Proof.
  intros Hc Hl. apply write_all_ext. rewrite (Forall2_length _ _ _ Hl). f_equal.
  induction Hl as [|x x' l l' Hx _ IH]; [done|]. cbn [map]. by rewrite (Hc x x'), IH.
Qed.
Lemma payload_same_written p p' : payload_same p p' -> write_next TransactionPayload_codec p = write_next TransactionPayload_codec p'.
Proof.
  intros [|[a n f args] [a' n' f' args'] (Ha & Hn & Hf & Hargs)]; [done|].
  cbn [call_address call_contract_name call_function_name call_function_args] in *. subst. apply write_all_ext. do 2 f_equal.
  apply write_all_ext. do 3 f_equal. f_equal. apply (vec_same _ _ veq); [|done]. intros v v' Hv. cbn. by rewrite (serialize_veq v v').
Qed.
Lemma post_condition_same_written p p' :
  post_condition_same p p' -> write_next TransactionPostCondition_codec p = write_next TransactionPostCondition_codec p'.
Proof. intros [|pr i v v' c Hv]; [done|]. cbn. by rewrite (serialize_veq v v'). Qed.
Lemma same_written tx tx' : transaction_same tx tx' -> write_next StacksTransaction_codec tx = write_next StacksTransaction_codec tx'.
Proof.
  intros (Hv & Hc & Ha & Hm & Hp & Hcs & Hpay). unfold write_next at 1 2. cbn [consensus_serialize StacksTransaction_codec].
  rewrite Hv, Hc, Ha, Hm, Hp, (payload_same_written _ _ Hpay).
  by rewrite (vec_same _ _ post_condition_same _ _ post_condition_same_written Hcs).
Qed.
Lemma same_txid tx tx' : transaction_same tx tx' -> txid tx = txid tx'.
Proof. intros Hs. unfold txid. by rewrite (same_written tx tx'). Qed.
Lemma same_coinbase tx tx' : transaction_same tx tx' -> is_coinbase tx = is_coinbase tx'.
Proof. intros (_ & _ & _ & _ & _ & _ & Hp). unfold is_coinbase. by destruct Hp. Qed.
Lemma same_anchor tx tx' : transaction_same tx tx' -> tx_anchor_mode tx = tx_anchor_mode tx'.
Proof. by intros (_ & _ & _ & ? & _). Qed.

Lemma same_txids txs txs' : Forall2 transaction_same txs txs' -> txids txs = txids txs'.
Proof. induction 1 as [|x x' l l' Hx _ IH]; [done|]. cbn. by rewrite (same_txid x x'), IH. Qed.
Lemma same_unique txs txs' : Forall2 transaction_same txs txs' -> validate_transactions_unique txs = validate_transactions_unique txs'.
Proof.
  intros Hs. unfold validate_transactions_unique. generalize (@nil (list Z)). induction Hs as [|x x' l l' Hx _ IH]; intros seen; [done|].
  cbn. rewrite (same_txid x x') by done. destruct (txid x'); cbn; [|done..]. by rewrite IH.
Qed.
Lemma same_anchor_mode txs txs' anchored : Forall2 transaction_same txs txs' -> validate_anchor_mode txs anchored = validate_anchor_mode txs' anchored.
Proof. unfold validate_anchor_mode. induction 1 as [|x x' l l' Hx _ IH]; [done|]. cbn. by rewrite (same_anchor x x'), IH. Qed.
Lemma same_validate_coinbase txs txs' present : Forall2 transaction_same txs txs' -> validate_coinbase txs present = validate_coinbase txs' present.
Proof.
  intros Hs. unfold validate_coinbase. replace (find_coinbase present 0 None txs) with (find_coinbase present 0 None txs'); [done|].
  generalize O (@None nat). induction Hs as [|x x' l l' Hx _ IH]; intros i found; [done|].
  cbn. rewrite (same_coinbase x x'), (same_anchor x x') by done. by rewrite !IH.
Qed.
Lemma same_coinbase_count txs txs' : Forall2 transaction_same txs txs' -> coinbase_count txs = coinbase_count txs'.
Proof.
  unfold coinbase_count. induction 1 as [|x x' l l' Hx _ IH]; [done|]. rewrite !filter_cons, (same_coinbase x x') by done.
  by case_decide; cbn; rewrite IH.
Qed.

(** * What the checks ask for *)

Lemma unique_iff txs : forall seen,
  unique_from seen txs = Ok true <-> exists ids, txids txs = Ok ids /\ NoDup ids /\ (forall id, id ∈ ids -> id ∉ seen).
Proof.
  induction txs as [|tx txs IH]; intros seen; cbn [unique_from txids].
  - split; [|done]. intros _. exists []. split_and!; [done|constructor|set_solver].
  - destruct (txid tx) as [id| |]; cbn [mbind res_bind]; [|split; [done|naive_solver]..]. case_bool_decide as Hid.
    { split; [done|]. intros (ids & (ids' & _ & [= <-])%bind_Ok & _ & Hs). exfalso. apply (Hs id); set_solver. }
    rewrite IH. split.
    + intros (ids & Hids & Hn & Hs). exists (id :: ids). rewrite Hids. split_and!; [done|constructor; [|done]; set_solver|set_solver].
    + intros (ids & (ids' & Hids & [= <-])%bind_Ok & [Hid' Hn]%NoDup_cons & Hs). exists ids'. split_and!; [done..|set_solver].
Qed.

Definition not_coinbase (tx : StacksTransaction) : Prop := is_coinbase tx = false.
Lemma find_coinbase_after txs k : forall i,
  find_coinbase true i (Some k) txs = if bool_decide (Forall not_coinbase txs) then Some (Some k) else None.
Proof.
  induction txs as [|tx txs IH]; intros i; cbn [find_coinbase]; [done|]. unfold not_coinbase in *.
  destruct (is_coinbase tx) eqn:E; cbn.
  - rewrite bool_decide_eq_false_2; [done|]. by intros [? _]%Forall_cons; congruence.
  - rewrite IH. erewrite (bool_decide_ext (Forall _ (tx :: txs))); [done|]. rewrite Forall_cons. naive_solver.
Qed.
Lemma find_coinbase_late txs : forall i k, find_coinbase true (S i) None txs = Some (Some k) -> k <> O.
Proof.
  induction txs as [|tx txs IH]; intros i k; cbn [find_coinbase]; [done|]. destruct (is_coinbase tx); cbn; [|apply IH].
  case_bool_decide; [done|]. rewrite find_coinbase_after. by case_bool_decide; [intros [= <-]|].
Qed.

(** The first transaction is the coinbase, and the only one. *)
Definition coinbase_first (txs : list StacksTransaction) : Prop :=
  exists cb rest, txs = cb :: rest /\ is_coinbase cb = true /\ tx_anchor_mode cb = OnChainOnly /\ Forall not_coinbase rest.
Lemma validate_coinbase_iff txs : validate_coinbase txs true = true <-> coinbase_first txs.
Proof.
  unfold validate_coinbase, coinbase_first. destruct txs as [|tx txs]; cbn [find_coinbase]; [split; [done|naive_solver]|].
  destruct (is_coinbase tx) eqn:E; cbn [negb].
  - rewrite bool_decide_eq_false_2 by by intros []. case_bool_decide as Hm; [split; [done|naive_solver]|].
    rewrite find_coinbase_after. case_bool_decide as Hn; cbn.
    + split; [|done]. intros _. exists tx, txs. by split_and!.
    + split; [done|]. naive_solver.
  - split; [|intros (cb & rest & [= <- <-] & ? & _); congruence]. intros H. exfalso.
    destruct (find_coinbase true (0 + 1) None txs) as [[k|]|] eqn:Hf; cbn in H; [|done..].
    apply find_coinbase_late in Hf. destruct k; [done|]. done.
Qed.
Lemma coinbase_first_count txs : coinbase_first txs -> (coinbase_count txs <= 1)%nat.
Proof.
  intros (cb & rest & -> & Hcb & _ & Hrest). unfold coinbase_count. rewrite filter_cons, decide_True by done.
  induction Hrest as [|x rest Hx _ IH]; [done|]. unfold not_coinbase in Hx. by rewrite filter_cons, decide_False by congruence.
Qed.
Lemma validate_no_coinbase_iff txs : validate_coinbase txs false = true <-> Forall not_coinbase txs.
Proof.
  unfold validate_coinbase. assert (forall i, find_coinbase false i None txs = if bool_decide (Forall not_coinbase txs) then Some None else None) as ->.
  { induction txs as [|tx txs IH]; intros i; cbn [find_coinbase]; [done|]. unfold not_coinbase in *. destruct (is_coinbase tx) eqn:E; cbn.
    - rewrite bool_decide_eq_false_2; [done|]. by intros [? _]%Forall_cons; congruence.
    - rewrite IH. erewrite (bool_decide_ext (Forall _ (tx :: txs))); [done|]. rewrite Forall_cons. naive_solver. }
  by case_bool_decide; cbn.
Qed.

(** Transactions that a block, that a microblock can carry. *)
Definition can_anchor (tx : StacksTransaction) : Prop := tx_anchor_mode tx <> OffChainOnly.
Definition can_stream (tx : StacksTransaction) : Prop := tx_anchor_mode tx <> OnChainOnly.
Lemma validate_anchor_iff txs anchored :
  validate_anchor_mode txs anchored = true <-> Forall (if anchored then can_anchor else can_stream) txs.
Proof.
  unfold validate_anchor_mode, can_anchor, can_stream. induction txs as [|tx txs IH]; [done|]. cbn [forallb].
  rewrite andb_true_iff, IH, Forall_cons. destruct anchored, (tx_anchor_mode tx); naive_solver.
Qed.

(** What a block with its transactions must be, and a microblock. *)
Definition transactions_bound (txs : list StacksTransaction) (merkle_root : list Z) : Prop :=
  exists ids, txids txs = Ok ids /\ NoDup ids /\ merkle_root = root (H := list Z) (merkle_new ids).
Definition block_valid (b : StacksBlock) : Prop :=
  coinbase_first (block_txs b) /\ Forall can_anchor (block_txs b) /\
  transactions_bound (block_txs b) (header_tx_merkle_root (block_header b)).
Definition microblock_valid (b : StacksMicroblock) : Prop :=
  mblock_txs b <> [] /\ Forall not_coinbase (mblock_txs b) /\ Forall can_stream (mblock_txs b) /\
  transactions_bound (mblock_txs b) (mblock_tx_merkle_root (mblock_header b)).

(** * Readers that succeed *)

Lemma net_bind_Ok {A B} (m : NetReader A) (f : A -> NetReader B) r b r' :
  (m ≫= f) r = Ok (b, r') -> exists a r1, m r = Ok (a, r1) /\ f a r1 = Ok (b, r').
Proof. unfold mbind, net_bind. destruct (m r) as [[a r1]| |]; [|done..]. eauto. Qed.
Lemma check_Ok b r u r' : check b r = Ok (u, r') -> b = true /\ r' = r.
Proof. unfold check. destruct b; [by intros [= _ <-]|done]. Qed.
Lemma net_lift_Ok {A} (m : Res net_error A) r a r' : net_lift m r = Ok (a, r') -> m = Ok a /\ r' = r.
Proof. unfold net_lift. by intros (x & -> & [= <- <-])%bind_Ok. Qed.

Lemma block_read_valid r b r' : read_next StacksBlock_codec r = Ok (b, r') -> block_valid b.
Proof.
  unfold read_next at 1. cbn [consensus_deserialize StacksBlock_codec].
  intros (header & r1 & _ & (txs & r2 & _ & ([] & r3 & _ & ([] & r4 & [Ha _]%check_Ok & H)%net_bind_Ok)%net_bind_Ok)%net_bind_Ok)%net_bind_Ok.
  apply net_bind_Ok in H as (unique & r5 & [Hu _]%net_lift_Ok & ([] & r6 & [-> _]%check_Ok & H)%net_bind_Ok).
  apply net_bind_Ok in H as (ids & r7 & [Hi _]%net_lift_Ok & ([] & r8 & [Hm _]%check_Ok & H)%net_bind_Ok).
  apply net_bind_Ok in H as ([] & r9 & _ & ([] & r10 & [Hc _]%check_Ok & [= <- _])%net_bind_Ok).
  apply bool_decide_eq_true in Hm. apply unique_iff in Hu as (ids' & Hi' & Hn & _). rewrite Hi in Hi'. injection Hi' as <-.
  split_and!; [by apply validate_coinbase_iff|by apply (validate_anchor_iff _ true)|]. by exists ids.
Qed.
Lemma microblock_read_valid r b r' : read_next StacksMicroblock_codec r = Ok (b, r') -> microblock_valid b.
Proof.
  unfold read_next at 1. cbn [consensus_deserialize StacksMicroblock_codec].
  intros (header & r1 & _ & (txs & r2 & _ & ([] & r3 & [He _]%check_Ok & H)%net_bind_Ok)%net_bind_Ok)%net_bind_Ok.
  apply net_bind_Ok in H as (unique & r5 & [Hu _]%net_lift_Ok & ([] & r6 & [-> _]%check_Ok & H)%net_bind_Ok).
  apply net_bind_Ok in H as ([] & r4 & [Ha _]%check_Ok & H).
  apply net_bind_Ok in H as (ids & r7 & [Hi _]%net_lift_Ok & ([] & r8 & [Hm _]%check_Ok & H)%net_bind_Ok).
  apply net_bind_Ok in H as ([] & r10 & [Hc _]%check_Ok & [= <- _]).
  apply bool_decide_eq_true in Hm. apply unique_iff in Hu as (ids' & Hi' & Hn & _). rewrite Hi in Hi'. injection Hi' as <-.
  split_and!; [by destruct txs|by apply validate_no_coinbase_iff|by apply (validate_anchor_iff _ false)|]. by exists ids.
Qed.

(** * Headers *)

Definition header_ok (h : StacksBlockHeader) : Prop :=
  u8 (header_version h) /\ uint_ok 8 (burn (total_work h)) /\ uint_ok 8 (work (total_work h)) /\
  (length (proof h) = VRF_PROOF_ENCODED_SIZE /\ proof_valid (proof h) = true) /\ length (parent_block h) = 32%nat /\
  length (parent_microblock h) = 32%nat /\ uint_ok 2 (parent_microblock_sequence h) /\
  length (header_tx_merkle_root h) = 32%nat /\ length (state_index_root h) = 32%nat /\ length (microblock_pubkey_hash h) = 20%nat.

Lemma VRFProof_round_trips :
  round_trips VRFProof_codec (fun p => length p = VRF_PROOF_ENCODED_SIZE /\ proof_valid p = true) eq.
Proof.
  apply round_trips_intro. intros p bs [Hl Hv] _ [= <-]. eapply net_reads_bind_end; [by apply net_reads_read, reads_exact|].
  rewrite Hv. apply net_reads_ret.
Qed.
Lemma StacksWorkScore_round_trips : round_trips StacksWorkScore_codec (fun w => uint_ok 8 (burn w) /\ uint_ok 8 (work w)) eq.
Proof. apply codec_intro. intros [b w] bs []. do 2 next. by apply no_more. Qed.
Hint Resolve VRFProof_round_trips StacksWorkScore_round_trips : codec.
Lemma StacksBlockHeader_round_trips : round_trips StacksBlockHeader_codec header_ok eq.
Proof.
  apply codec_intro. intros [v w p pb pm q tr sr h] bs (? & ? & ? & ? & ? & ? & ? & ? & ? & ?). do 9 next. by apply no_more.
Qed.
Hint Resolve StacksBlockHeader_round_trips : codec.

(** The bytes of a header. *)
Definition header_bytes (h : StacksBlockHeader) : list Z :=
  be_encode 1 (header_version h) ++ (be_encode 8 (burn (total_work h)) ++ be_encode 8 (work (total_work h))) ++ proof h ++
  parent_block h ++ parent_microblock h ++ be_encode 2 (parent_microblock_sequence h) ++ header_tx_merkle_root h ++
  state_index_root h ++ microblock_pubkey_hash h.
Lemma header_written h : write_next StacksBlockHeader_codec h = Ok (header_bytes h).
Proof. unfold header_bytes. cbn. by rewrite !app_nil_r. Qed.
Lemma block_hash_Ok h : block_hash h = Ok (sha512_256 (header_bytes h)).
Proof. unfold block_hash. by rewrite header_written. Qed.

Definition header_sized (h : StacksBlockHeader) : Prop :=
  length (proof h) = 80%nat /\ length (parent_block h) = 32%nat /\ length (parent_microblock h) = 32%nat /\
  length (header_tx_merkle_root h) = 32%nat.
Lemma header_bytes_root h h' :
  header_sized h -> header_sized h' -> header_bytes h = header_bytes h' -> header_tx_merkle_root h = header_tx_merkle_root h'.
Proof.
  intros (Hp & Hb & Hm & Hr) (Hp' & Hb' & Hm' & Hr'). unfold header_bytes.
  do 6 (intros [_ He]%app_inj_1; [revert He|rewrite ?length_app, ?length_be_encode; congruence]).
  intros [He _]%app_inj_1; congruence.
Qed.

Lemma read_bytes_length n r bs r' : read_next (bytes_codec n) r = Ok (bs, r') -> length bs = n.
Proof.
  unfold read_next. cbn [consensus_deserialize bytes_codec]. unfold net_read. destruct (read_exact n r) as [[a r1]| |] eqn:E; [|done..].
  intros [= <- _]. by apply read_exact_length in E.
Qed.
Lemma header_read_sized r h r' : read_next StacksBlockHeader_codec r = Ok (h, r') -> header_sized h.
Proof.
  unfold read_next at 1. cbn [consensus_deserialize StacksBlockHeader_codec].
  intros (v & r1 & _ & (w & r2 & _ & (p & r3 & Hp & (pb & r4 & Hb%read_bytes_length & H)%net_bind_Ok)%net_bind_Ok)%net_bind_Ok)%net_bind_Ok.
  apply net_bind_Ok in H as (pm & r5 & Hm%read_bytes_length & (q & r6 & _ & (tr & r7 & Hr%read_bytes_length & H)%net_bind_Ok)%net_bind_Ok).
  apply net_bind_Ok in H as (sr & r8 & _ & (k & r9 & _ & [= <- _])%net_bind_Ok). split_and!; [|done..].
  unfold read_next in Hp. cbn [consensus_deserialize VRFProof_codec] in Hp. apply net_bind_Ok in Hp as (bytes & r10 & Hp & Hv).
  unfold net_read in Hp. destruct (read_exact _ r2) as [[a ra]| |] eqn:E; [|done..]. apply read_exact_length in E. cbn in Hp.
  injection Hp as <- _. destruct (proof_valid a); [|done]. by injection Hv as <- _.
Qed.

Lemma block_read_sized r b r' : read_next StacksBlock_codec r = Ok (b, r') -> header_sized (block_header b).
Proof.
  unfold read_next at 1. cbn [consensus_deserialize StacksBlock_codec].
  intros (h & r1 & Hh%header_read_sized & (txs & r2 & _ & H)%net_bind_Ok)%net_bind_Ok.
  do 2 apply net_bind_Ok in H as ([] & ? & _ & H). apply net_bind_Ok in H as (? & ? & _ & H).
  apply net_bind_Ok in H as ([] & ? & _ & H). apply net_bind_Ok in H as (? & ? & _ & H).
  do 3 apply net_bind_Ok in H as ([] & ? & _ & H). by injection H as <- _.
Qed.

(** What is hashed for a block: its header, and the tree of the identifiers of its
    transactions. *)
Definition header_input (h : StacksBlockHeader) : Z * list Z := (header_version h mod 256, drop 1 (header_bytes h)).
Definition block_inputs (b : StacksBlock) : list (Z * list Z) :=
  header_input (block_header b) :: match txids (block_txs b) with Ok ids => tree_inputs (list Z) ids | _ => [] end.

Lemma header_hash_inj b b' :
  sha512_256 (header_bytes (block_header b)) = sha512_256 (header_bytes (block_header b')) ->
  header_bytes (block_header b) = header_bytes (block_header b') \/ collision (list Z) (block_inputs b) (block_inputs b').
Proof.
  intros Hh. destruct (hash_inj (H := list Z) (block_inputs b) (block_inputs b') (header_input (block_header b)) (header_input (block_header b')))
    as [Hi|]; [apply elem_of_cons; by left..|exact Hh|left|by right].
  pose proof (f_equal fst Hi) as Hv. pose proof (f_equal snd Hi) as Hb. cbn [header_input fst snd] in Hv, Hb.
  change (header_version (block_header b) mod 256 :: drop 1 (header_bytes (block_header b)) =
    header_version (block_header b') mod 256 :: drop 1 (header_bytes (block_header b'))). by rewrite Hv, Hb.
Qed.

(** C22. The hash of a block binds its transactions: two blocks that were read and
    that have the same block hash have the same transaction identifiers in the same
    order, or a collision of the hash is between what was hashed for the one and for
    the other. *)
Theorem block_hash_binds r1 b1 r1' r2 b2 r2' :
  read_next StacksBlock_codec r1 = Ok (b1, r1') -> read_next StacksBlock_codec r2 = Ok (b2, r2') ->
  block_hash (block_header b1) = block_hash (block_header b2) ->
  txids (block_txs b1) = txids (block_txs b2) \/ collision (list Z) (block_inputs b1) (block_inputs b2).
Proof.
  intros H1 H2. rewrite !block_hash_Ok. intros [Hb|]%Ok_inj%header_hash_inj; [|by right].
  pose proof (header_bytes_root _ _ (block_read_sized _ _ _ H1) (block_read_sized _ _ _ H2)) as Hroot.
  apply block_read_valid in H1 as ((cb & rest & Ht & _) & _ & ids & Hi & Hn & Hr).
  apply block_read_valid in H2 as ((cb' & rest' & Ht' & _) & _ & ids' & Hi' & Hn' & Hr').
  destruct (root_inj (H := list Z) ids ids') as [->|Hc]; try done.
  - intros ->. rewrite Ht in Hi. cbn in Hi. by apply bind_Ok in Hi as (? & _ & (? & _ & ?)%bind_Ok).
  - intros ->. rewrite Ht' in Hi'. cbn in Hi'. by apply bind_Ok in Hi' as (? & _ & (? & _ & ?)%bind_Ok).
  - rewrite <-Hr, <-Hr'. by apply Hroot.
  - left. congruence.
  - right. revert Hc. apply collision_mono; unfold block_inputs; rewrite ?Hi, ?Hi'; set_solver.
Qed.

(** * Round trips *)

Lemma StacksTransaction_round_trips : round_trips StacksTransaction_codec transaction_ok transaction_same.
Proof.
  intros tx bs Hok Hf Hs. pose proof (fields_round_trip tx bs Hok Hf Hs) as Hr. apply reads_with_len in Hr as ([tx' len] & Hr & Hsame & _); [|done].
  exists tx'. split; [|done]. eapply net_reads_bind_end; [exact Hr|]. apply net_reads_ret.
Qed.
Hint Resolve StacksTransaction_round_trips StacksTransaction_writable StacksMicroblockHeader_round_trips : codec.

Lemma passes {A} (b : bool) (p : NetReader A) bs P : b = true -> reads_some p bs P -> reads_some (_ ← check b; p) bs P.
Proof. by intros ->. Qed.
Lemma lifts {A B} (m : Res net_error A) a (f : A -> NetReader B) bs P : m = Ok a -> reads_some (f a) bs P -> reads_some (x ← net_lift m; f x) bs P.
Proof. intros -> (b & Hb & HP). by exists b. Qed.
Lemma no_more_bytes {A} (a : A) bs (P : A -> Prop) : write_all [] = Ok bs -> P a -> reads_some (mret a) bs P.
Proof. intros ->%write_all_nil HP. exists a. split; [apply net_reads_ret|done]. Qed.

Definition block_same (b b' : StacksBlock) : Prop :=
  block_header b = block_header b' /\ Forall2 transaction_same (block_txs b) (block_txs b').
Definition microblock_same (b b' : StacksMicroblock) : Prop :=
  mblock_header b = mblock_header b' /\ Forall2 transaction_same (mblock_txs b) (mblock_txs b').
Definition txs_ok : list StacksTransaction -> Prop := vec_ok size_of_transaction transaction_ok.

Lemma StacksBlock_round_trips :
  round_trips StacksBlock_codec (fun b => header_ok (block_header b) /\ txs_ok (block_txs b) /\ block_valid b) block_same.
Proof.
  apply codec_intro. intros [h txs] bs (Hh & Htxs & Hc & Ha & ids & Hi & Hn & Hr). cbn [block_header block_txs] in *. next.
  eapply (next_bounded _ _ (Forall2 transaction_same)); [eauto with codec|done|]. intros txs' ? Hs _ Hbs. cbn beta.
  apply passes; [rewrite (Forall2_length _ _ _ Hs); by destruct Hc as (cb & rest & -> & _)|].
  apply passes; [by rewrite (same_anchor_mode _ _ _ Hs), (proj2 (validate_anchor_iff _ true))|].
  apply (lifts _ true); [rewrite (same_unique _ _ Hs); apply unique_iff; exists ids; split_and!; [done..|set_solver]|].
  apply passes; [done|]. apply (lifts _ ids); [by rewrite (same_txids _ _ Hs)|]. apply passes; [by apply bool_decide_eq_true|].
  apply passes; [rewrite (same_coinbase_count _ _ Hs); by apply Nat.leb_le, coinbase_first_count|].
  apply passes; [by rewrite (same_validate_coinbase _ _ _ Hs), (proj2 (validate_coinbase_iff _))|]. by apply no_more_bytes.
Qed.
Lemma StacksMicroblock_round_trips :
  round_trips StacksMicroblock_codec
    (fun b => microblock_header_ok (mblock_header b) /\ txs_ok (mblock_txs b) /\ microblock_valid b) microblock_same.
Proof.
  apply codec_intro. intros [h txs] bs (Hh & Htxs & He & Hc & Ha & ids & Hi & Hn & Hr). cbn [mblock_header mblock_txs] in *. next.
  eapply (next_bounded _ _ (Forall2 transaction_same)); [eauto with codec|done|]. intros txs' ? Hs _ Hbs. cbn beta.
  apply passes; [rewrite (Forall2_length _ _ _ Hs); by destruct txs|].
  apply (lifts _ true); [rewrite (same_unique _ _ Hs); apply unique_iff; exists ids; split_and!; [done..|set_solver]|].
  apply passes; [done|]. apply passes; [by rewrite (same_anchor_mode _ _ _ Hs), (proj2 (validate_anchor_iff _ false))|].
  apply (lifts _ ids); [by rewrite (same_txids _ _ Hs)|]. apply passes; [by apply bool_decide_eq_true|].
  apply passes; [by rewrite (same_validate_coinbase _ _ _ Hs), (proj2 (validate_no_coinbase_iff _))|]. by apply no_more_bytes.
Qed.

(** C24. Reading accepts the blocks that are valid, and only them: a block whose
    header and transactions are in range is written, and if it fits in a message
    and is valid, that is, its first transaction is its only coinbase, its
    transactions may be anchored and are distinct, and its header has their Merkle
    root, it is read back with the same header and transactions; and whatever is
    read is valid. *)
Theorem block_read_exact b :
  header_ok (block_header b) -> txs_ok (block_txs b) ->
  (exists bs, write_next StacksBlock_codec b = Ok bs /\
     (fits bs -> block_valid b -> reads_some (read_next StacksBlock_codec) bs (fun b' => block_same b' b))) /\
  (forall r r', read_next StacksBlock_codec r = Ok (b, r') -> block_valid b).
Proof.
  intros Hh Ht. split; [|intros r r'; apply block_read_valid].
  assert (written (write_next StacksBlock_codec b)) as [bs Hbs].
  { apply all_written. repeat apply Forall_cons_2; try apply Forall_nil_2; [eexists; apply header_written|].
    eapply writable_at; [eauto with codec|exact Ht]. }
  exists bs. split; [done|]. intros Hf Hv. by apply StacksBlock_round_trips.
Qed.

(** * Microblocks *)

Definition microblock_header_bytes (h : StacksMicroblockHeader) : list Z :=
  be_encode 1 (mblock_version h) ++ be_encode 2 (mblock_sequence h) ++ mblock_prev_block h ++ mblock_tx_merkle_root h ++ mblock_signature h.
Lemma microblock_hash_Ok h : microblock_hash h = Ok (sha512_256 (microblock_header_bytes h)).
Proof. unfold microblock_hash, microblock_header_bytes. cbn. by rewrite app_nil_r. Qed.

Lemma microblock_bytes_unsigned h sig : microblock_header_serialize (with_signature h sig) true = microblock_header_serialize (with_signature h MessageSignature_empty) false.
Proof. done. Qed.

(** A microblock header that a key signed verifies against the hash of the key,
    which is what the block that announced the stream holds. *)
Theorem microblock_signed_verifies `{!Secp256k1Laws} h privk :
  exists h', microblock_sign h privk = Ok h' /\ microblock_verify h' (pubkey_hash (from_private privk)) = Ok () /\
    with_signature h' (mblock_signature h) = h.
Proof.
  set (bytes := match microblock_header_serialize (with_signature h MessageSignature_empty) false with Ok b => b | _ => [] end).
  assert (microblock_header_serialize (with_signature h MessageSignature_empty) false = Ok bytes) as Hb by done.
  set (m := sha512_256 bytes). assert (message_ok m = true) as Hm by (unfold message_ok, m; by rewrite sha512_256_length).
  exists (with_signature h (from_secp256k1_recoverable (sign_recoverable (privkey privk) m))). split_and!; [| |by destruct h].
  - unfold microblock_sign, write_next. cbn [consensus_serialize StacksMicroblockHeader_codec]. rewrite Hb. cbn [expect mbind res_bind].
    unfold privk_sign. fold m. by rewrite Hm.
  - unfold microblock_verify, check_recover_pubkey. rewrite microblock_bytes_unsigned, Hb. cbn [expect mbind res_bind]. fold m.
    unfold recover_to_pubkey. rewrite Hm. cbn [mblock_signature with_signature]. rewrite sign_recoverable_back, sign_recovers by apply sha512_256_length.
    cbn [map_err mbind res_bind]. by rewrite bool_decide_eq_false_2 by tauto.
Qed.
End facts.

(** The hashes of blocks that the processing of blocks is given (ChainBlocks.v). *)
#[global] Instance stacks_block_hashes `{!Sha512Trunc256} : BlockHashes :=
  {| header_block_hash h := sha512_256 (header_bytes h); microblock_block_hash h := sha512_256 (microblock_header_bytes h) |}.
