(* ===== verification/BurnOps.v ===== *)
(** The burn chain as data, and its operations: the transactions of a Bitcoin block
    (src/burnchains/mod.rs, src/burnchains/bitcoin/mod.rs), the operations that are
    read from them (src/chainstate/burn/operations), snapshots and the hashes of
    src/chainstate/burn/mod.rs.  Integers are in the range of their types; hashes
    and keys are bytes, a VRF public key its compressed point. *)
From stdpp Require Import base strings numbers list.
From Stdlib Require Import ZArith Lia.
From S2P Require Import Prelude Names Types C32 Natives StacksTypes NetCodec TransactionCodec Signatures Uint.
#[local] Open Scope Z_scope.

(** The hash of the crate [ripemd160], 20 bytes, and the check of the crate
    [ed25519_dalek] that 32 bytes are the compression of a point. *)
Class Ripemd160 := {
  ripemd160 : list Z -> list Z;
  ripemd160_length : forall data, length (ripemd160 data) = 20%nat;
}.
Class VRFPublicKeys := { decompresses : list Z -> bool }.

(** * Bitcoin transactions *)

Inductive BitcoinNetworkType := BitcoinMainnet | BitcoinTestnet | BitcoinRegtest.
Inductive BitcoinAddressType := PublicKeyHash | ScriptHash.
Record BitcoinAddress := mkBitcoinAddress { addrtype : BitcoinAddressType; network_id : BitcoinNetworkType; btc_bytes : list Z }.
Inductive BitcoinInputType := StandardInput | SegwitP2SH.
Record BitcoinTxInput := mkTxInput { in_keys : list StacksPublicKey; num_required : Z; in_type : BitcoinInputType }.
Record BitcoinTxOutput := mkTxOutput { out_address : BitcoinAddress; units : Z }.
Record BitcoinTransaction := mkBitcoinTransaction {
  btc_txid : list Z;
  btc_vtxindex : Z;
  btc_opcode : Z;
  btc_data : list Z;
  inputs : list BitcoinTxInput;
  outputs : list BitcoinTxOutput;
}.
(** [BitcoinBlock], the only [BurnchainBlock]. *)
Record BurnchainBlock := mkBurnchainBlock {
  burn_block_height : Z;
  burn_block_hash : list Z;
  burn_parent_block_hash : list Z;
  burn_txs : list BitcoinTransaction;
  burn_timestamp : Z;
}.
Record BurnchainBlockHeader := mkBurnchainHeader {
  bh_block_height : Z;
  bh_block_hash : list Z;
  bh_parent_block_hash : list Z;
  bh_parent_index_root : list Z;
  bh_num_txs : Z;
  bh_timestamp : Z;
}.

Definition ADDRESS_VERSION_MAINNET_SINGLESIG : Z := 0.
Definition ADDRESS_VERSION_MAINNET_MULTISIG : Z := 5.
Definition ADDRESS_VERSION_TESTNET_SINGLESIG : Z := 111.
Definition ADDRESS_VERSION_TESTNET_MULTISIG : Z := 196.
Definition address_type_to_version_byte (t : BitcoinAddressType) (n : BitcoinNetworkType) : Z :=
  match t, n with
  | PublicKeyHash, BitcoinMainnet => ADDRESS_VERSION_MAINNET_SINGLESIG
  | ScriptHash, BitcoinMainnet => ADDRESS_VERSION_MAINNET_MULTISIG
  | PublicKeyHash, _ => ADDRESS_VERSION_TESTNET_SINGLESIG
  | ScriptHash, _ => ADDRESS_VERSION_TESTNET_MULTISIG
  end.
Definition to_c32_version_byte (version : Z) : option Z :=
  if version =? ADDRESS_VERSION_MAINNET_SINGLESIG then Some C32_ADDRESS_VERSION_MAINNET_SINGLESIG
  else if version =? ADDRESS_VERSION_MAINNET_MULTISIG then Some C32_ADDRESS_VERSION_MAINNET_MULTISIG
  else if version =? ADDRESS_VERSION_TESTNET_SINGLESIG then Some C32_ADDRESS_VERSION_TESTNET_SINGLESIG
  else if version =? ADDRESS_VERSION_TESTNET_MULTISIG then Some C32_ADDRESS_VERSION_TESTNET_MULTISIG
  else None.
Definition from_bitcoin_address {E} (addr : BitcoinAddress) : Res E StacksAddress :=
  version ← expect_opt (to_c32_version_byte (address_type_to_version_byte (addrtype addr) (network_id addr)));
  Ok (mkAddress version (btc_bytes addr)).
Definition is_burn (addr : StacksAddress) : bool := bool_decide (addr_bytes addr = replicate 20 0).

Record BurnchainSigner := mkBurnSigner { signer_hash_mode : AddressHashMode; signer_num_sigs : Z; signer_public_keys : list StacksPublicKey }.
Record BurnchainRecipient := mkRecipient { recipient_address : StacksAddress; amount : Z }.

Definition from_bitcoin_input (inp : BitcoinTxInput) : BurnchainSigner :=
  let single := (num_required inp =? 1) && (Z.of_nat (length (in_keys inp)) =? 1) in
  let mode :=
    match in_type inp with
    | StandardInput => if single then SerializeP2PKH else SerializeP2SH
    | SegwitP2SH => if single then SerializeP2WPKH else SerializeP2WSH
    end in
  mkBurnSigner mode (num_required inp) (in_keys inp).
Definition from_bitcoin_output {E} (o : BitcoinTxOutput) : Res E BurnchainRecipient :=
  stacks_addr ← from_bitcoin_address (out_address o);
  Ok (mkRecipient stacks_addr (units o)).
Definition get_signers (tx : BitcoinTransaction) : list BurnchainSigner := map from_bitcoin_input (inputs tx).
Definition get_recipients {E} (tx : BitcoinTransaction) : Res E (list BurnchainRecipient) := mapMR from_bitcoin_output (outputs tx).

(** * Operations *)

Inductive op_error :=
| OpParseError | OpInvalidInput
| BlockCommitPredatesGenesis | BlockCommitAlreadyExists | BlockCommitNoLeaderKey | BlockCommitLeaderKeyAlreadyUsed
| BlockCommitNoParent | BlockCommitBadInput
| LeaderKeyAlreadyRegistered | LeaderKeyBadConsensusHash
| UserBurnSupportBadConsensusHash | UserBurnSupportNoLeaderKey.

Record LeaderBlockCommitOp := mkCommit {
  block_header_hash : list Z;
  new_seed : list Z;
  parent_block_ptr : Z;
  parent_vtxindex : Z;
  key_block_ptr : Z;
  key_vtxindex : Z;
  commit_memo : list Z;
  commit_burn_fee : Z;
  commit_input : BurnchainSigner;
  commit_txid : list Z;
  commit_vtxindex : Z;
  commit_block_height : Z;
  commit_burn_header_hash : list Z;
}.
Record LeaderKeyRegisterOp := mkKey {
  key_consensus_hash : list Z;
  public_key : list Z;
  key_memo : list Z;
  key_address : StacksAddress;
  key_txid : list Z;
  reg_vtxindex : Z;
  reg_block_height : Z;
  key_burn_header_hash : list Z;
}.
Record UserBurnSupportOp := mkUserBurn {
  user_burn_address : StacksAddress;
  user_consensus_hash : list Z;
  user_public_key : list Z;
  user_key_block_ptr : Z;
  user_key_vtxindex : Z;
  block_header_hash_160 : list Z;
  user_burn_fee : Z;
  user_txid : list Z;
  user_burn_vtxindex : Z;
  user_block_height : Z;
  user_burn_header_hash : list Z;
}.
Inductive BlockstackOperationType :=
| LeaderKeyRegister (op : LeaderKeyRegisterOp)
| LeaderBlockCommit (op : LeaderBlockCommitOp)
| UserBurnSupport (op : UserBurnSupportOp).

Definition op_txid (op : BlockstackOperationType) : list Z :=
  match op with LeaderKeyRegister data => key_txid data | LeaderBlockCommit data => commit_txid data | UserBurnSupport data => user_txid data end.
Definition op_vtxindex (op : BlockstackOperationType) : Z :=
  match op with LeaderKeyRegister data => reg_vtxindex data | LeaderBlockCommit data => commit_vtxindex data | UserBurnSupport data => user_burn_vtxindex data end.
Definition op_block_height (op : BlockstackOperationType) : Z :=
  match op with LeaderKeyRegister data => reg_block_height data | LeaderBlockCommit data => commit_block_height data | UserBurnSupport data => user_block_height data end.
Definition op_burn_header_hash (op : BlockstackOperationType) : list Z :=
  match op with
  | LeaderKeyRegister data => key_burn_header_hash data
  | LeaderBlockCommit data => commit_burn_header_hash data
  | UserBurnSupport data => user_burn_header_hash data
  end.

(** * Reading operations *)

(** [data[a..b]], and integers read from such slices. *)
Definition slice (a b : nat) (data : list Z) : list Z := take (b - a) (drop a data).
Definition parse_u32_from_be (bytes : list Z) : option Z := if (length bytes =? 4)%nat then Some (be_decode bytes) else None.
Definition parse_u16_from_be (bytes : list Z) : option Z := if (length bytes =? 2)%nat then Some (be_decode bytes) else None.

Definition OPCODE_LEADER_BLOCK_COMMIT : Z := 91.
Definition OPCODE_LEADER_KEY_REGISTER : Z := 94.
Definition OPCODE_USER_BURN_SUPPORT : Z := 95.

Section parse.
Context `{Hvrf : !VRFPublicKeys}.

Definition VRFPublicKey_from_bytes (pubkey_bytes : list Z) : option (list Z) :=
  if (length pubkey_bytes =? 32)%nat then if decompresses pubkey_bytes then Some pubkey_bytes else None else None.

(** The data of an operation without the magic bytes and the opcode; the unwraps
    are those of the code. *)
Definition commit_parse_data (data : list Z) : Res op_error (option (list Z * list Z * Z * Z * Z * Z * list Z)) :=
  if (length data <? 77)%nat then Ok None
  else
    parent_block_ptr ← expect_opt (parse_u32_from_be (slice 64 68 data));
    parent_vtxindex ← expect_opt (parse_u16_from_be (slice 68 70 data));
    key_block_ptr ← expect_opt (parse_u32_from_be (slice 70 74 data));
    key_vtxindex ← expect_opt (parse_u16_from_be (slice 74 76 data));
    Ok (Some (slice 0 32 data, slice 32 64 data, parent_block_ptr, parent_vtxindex, key_block_ptr, key_vtxindex, slice 76 77 data)).
Definition commit_parse_from_tx (block_height : Z) (block_hash : list Z) (tx : BitcoinTransaction) : Res op_error LeaderBlockCommitOp :=
  let inputs := get_signers tx in
  outputs ← get_recipients tx;
  match inputs, outputs with
  | [], _ => Err OpInvalidInput
  | _, [] => Err OpInvalidInput
  | input :: _, output :: _ =>
    if negb (btc_opcode tx =? OPCODE_LEADER_BLOCK_COMMIT) then Err OpInvalidInput
    else if negb (is_burn (recipient_address output)) then Err OpParseError
    else
      let burn_fee := amount output in
      if burn_fee =? 0 then Err OpParseError
      else
        parsed ← commit_parse_data (btc_data tx);
        match parsed with
        | None => Err OpParseError
        | Some (block_header_hash, new_seed, parent_block_ptr, parent_vtxindex, key_block_ptr, key_vtxindex, memo) =>
          if (parent_block_ptr =? 0) && negb (parent_vtxindex =? 0) then Err OpParseError
          else if block_height <=? parent_block_ptr then Err OpParseError
          else if key_block_ptr =? 0 then Err OpParseError
          else if block_height <=? key_block_ptr then Err OpParseError
          else Ok (mkCommit block_header_hash new_seed parent_block_ptr parent_vtxindex key_block_ptr key_vtxindex memo burn_fee input
                     (btc_txid tx) (btc_vtxindex tx) block_height block_hash)
        end
  end.

Definition key_parse_data (data : list Z) : option (list Z * list Z * list Z) :=
  if (length data <? 52)%nat then None
  else
    match VRFPublicKey_from_bytes (slice 20 52 data) with
    | None => None
    | Some pubkey => Some (slice 0 20 data, pubkey, drop 52 data)
    end.
Definition key_parse_from_tx (block_height : Z) (block_hash : list Z) (tx : BitcoinTransaction) : Res op_error LeaderKeyRegisterOp :=
  let inputs := get_signers tx in
  outputs ← get_recipients tx;
  match inputs, outputs with
  | [], _ => Err OpInvalidInput
  | _, [] => Err OpInvalidInput
  | _, output :: _ =>
    if negb (btc_opcode tx =? OPCODE_LEADER_KEY_REGISTER) then Err OpInvalidInput
    else
      match key_parse_data (btc_data tx) with
      | None => Err OpParseError
      | Some (consensus_hash, pubkey, memo) =>
        Ok (mkKey consensus_hash pubkey memo (recipient_address output) (btc_txid tx) (btc_vtxindex tx) block_height block_hash)
      end
  end.

Definition user_burn_parse_data (data : list Z) : Res op_error (option (list Z * list Z * Z * Z * list Z)) :=
  if (length data <? 77)%nat then Ok None
  else
    let consensus_hash := slice 0 19 data ++ [0] in
    match VRFPublicKey_from_bytes (slice 19 51 data) with
    | None => Ok None
    | Some pubkey =>
      key_block_ptr ← expect_opt (parse_u32_from_be (slice 71 75 data));
      key_vtxindex ← expect_opt (parse_u16_from_be (slice 75 77 data));
      Ok (Some (consensus_hash, pubkey, key_block_ptr, key_vtxindex, slice 51 71 data))
    end.
Definition user_burn_parse_from_tx (block_height : Z) (block_hash : list Z) (tx : BitcoinTransaction) : Res op_error UserBurnSupportOp :=
  let inputs := get_signers tx in
  outputs ← get_recipients tx;
  if (length inputs =? 0)%nat || (length outputs =? 0)%nat then Err OpInvalidInput
  else
    match outputs with
    | output :: output' :: _ =>
      if negb (btc_opcode tx =? OPCODE_USER_BURN_SUPPORT) then Err OpInvalidInput
      else if negb (is_burn (recipient_address output)) then Err OpParseError
      else
        parsed ← user_burn_parse_data (btc_data tx);
        match parsed with
        | None => Err OpParseError
        | Some (consensus_hash, pubkey, key_block_ptr, key_vtxindex, block_header_hash_160) =>
          if key_block_ptr =? 0 then Err OpParseError
          else if block_height <? key_block_ptr then Err OpParseError
          else Ok (mkUserBurn (recipient_address output') consensus_hash pubkey key_block_ptr key_vtxindex block_header_hash_160
                     (amount output) (btc_txid tx) (btc_vtxindex tx) block_height block_hash)
        end
    | _ => Err OpInvalidInput
    end.
End parse.

(** * Snapshots and hashes *)

Record BlockSnapshot := mkSnapshot {
  sn_block_height : Z;
  sn_burn_header_timestamp : Z;
  sn_burn_header_hash : list Z;
  sn_parent_burn_header_hash : list Z;
  sn_consensus_hash : list Z;
  sn_ops_hash : list Z;
  total_burn : Z;
  sortition : bool;
  sortition_hash : list Z;
  winning_block_txid : list Z;
  winning_stacks_block_hash : list Z;
  index_root : list Z;
  num_sortitions : Z;
}.

Definition ConsensusHash_empty : list Z := replicate 20 0.
Definition VRFSeed_initial : list Z := replicate 32 0.
Definition SortitionHash_initial : list Z := replicate 32 0.
Definition block_sentinel : list Z := replicate 32 255.
Definition SYSTEM_FORK_SET_VERSION : list Z := [23; 0; 0; 0].

Section hashes.
Context `{Hsha : !Sha256, Hripemd : !Ripemd160}.

Definition Hash160_from_sha256 (sha256_hash : list Z) : list Z := ripemd160 sha256_hash.
Definition mix_burn_header (self burn_header_hash : list Z) : list Z := sha256 (self ++ burn_header_hash).
Definition mix_VRF_seed (self VRF_seed : list Z) : list Z := sha256 (self ++ VRF_seed).
(** Word [i] of the hash as an integer. *)
Definition le_word (bytes : list Z) (i : nat) : Z :=
  let b j := bytes !!! (8 * i + j)%nat in
  b 0%nat + Z.shiftl (b 1%nat) 8 + Z.shiftl (b 2%nat) 16 + Z.shiftl (b 3%nat) 24 +
  Z.shiftl (b 4%nat) 32 + Z.shiftl (b 5%nat) 40 + Z.shiftl (b 6%nat) 48 + Z.shiftl (b 7%nat) 56.
Definition to_uint256 (self : list Z) : Uint := map (le_word self) (seq 0 4).
Definition OpsHash_from_txids (txids : list (list Z)) : list Z := sha256 (mjoin txids).
Definition ConsensusHash_from_ops (burn_header_hash opshash : list Z) (total_burn : Z) (prev_consensus_hashes : list (list Z)) : list Z :=
  ripemd160 (sha256 (SYSTEM_FORK_SET_VERSION ++ burn_header_hash ++ opshash ++ be_encode 8 total_burn ++ mjoin prev_consensus_hashes)).
End hashes.
