(* ===== verification/BurnDB.v ===== *)
(** The database of the burn chain: [BurnDB] of src/chainstate/burn/db/burndb.rs, its
    four tables as lists of rows, over an interface for the fork-aware index
    ([IndexDBTx] of src/util/db.rs, on a MARF).

    A row is kept as the values it is read back as: the columns hold the text of
    hashes, keys, addresses and numbers, and JSON.  The foreign keys of the schema
    are not checked: SQLite ignores the pragma inside of a transaction. *)
From stdpp Require Import base strings numbers list gmap sorting.
From Stdlib Require Import ZArith Lia.
From S2P Require Import Prelude Names Types Hex C32 Natives StacksTypes NetCodec TransactionCodec Signatures Uint BurnOps.
#[local] Open Scope Z_scope.

(** [Error] of src/util/db.rs; the errors of the libraries below are not kept. *)
Inductive db_error :=
| DbNotImplemented | DbNoDBError | DbReadOnly | DbTypeError | DbCorruption | DbSerializationError | DbParseError | DbOverflow | DbNotFoundError
| DbExistsError | DbSqliteError | DbIOError | DbIndexError | DbOther (msg : string).

(** What the program uses of the index: a value by block and key, the ancestor of a
    block by the number of blocks before it, and a new block on top of its parent
    with a batch of keys and values, which has a root hash. *)
Class ForkIndex (I : Type) := {
  get_indexed : I -> list Z -> string -> Res db_error (option string);
  get_ancestor : I -> Z -> list Z -> Res db_error (option (list Z));
  put_indexed : I -> list Z -> list Z -> list (string * string) -> Res db_error (I * list Z);
}.

Record BurnDB (I : Type) := mkBurnDB {
  snapshots : list BlockSnapshot;
  leader_keys : list LeaderKeyRegisterOp;
  block_commits : list LeaderBlockCommitOp;
  user_burn_support : list UserBurnSupportOp;
  index : I;
  first_block_height : Z;
}.
Arguments mkBurnDB {I}.
Arguments snapshots {I}.
Arguments leader_keys {I}.
Arguments block_commits {I}.
Arguments user_burn_support {I}.
Arguments index {I}.
Arguments first_block_height {I}.

Definition BLOCK_HEIGHT_MAX : Z := 2 ^ 63 - 1.
Definition sql_u64 (x : Z) : Res db_error Z := if 2 ^ 63 - 1 <? x then Err DbParseError else Ok x.
Definition rust_assert {E} (b : bool) : Res E () := if b then Ok () else Panic.

Definition vrf_key (pubkey : list Z) : string := "burndb::vrf::" +:+ to_hex pubkey.
Definition last_sortition_key : string := "burndb::last_sortition".
Definition sortition_block_key (block_hash : list Z) : string := "burndb::sortition_block_hash::" +:+ to_hex block_hash.
(** [BurnchainHeaderHash::from_hex]. *)
Definition hash_from_hex (s : string) : option (list Z) :=
  match hex_bytes s with
  | Ok b => if (length b =? 32)%nat then Some b else None
  | _ => None
  end.

Section db.
Context {I : Type} `{Hindex : !ForkIndex I}.
Implicit Types (db : BurnDB I) (tip_block_hash : list Z).

(** ** Tables *)

(** At most one row for a condition on unique columns. *)
Definition expect_one {E A} (rows : list A) : Res E (option A) :=
  match rows with
  | [] => Ok None
  | [row] => Ok (Some row)
  | _ => Panic
  end.
Definition get_block_snapshot db (burn_hash : list Z) : Res db_error (option BlockSnapshot) :=
  expect_one (filter (fun sn => sn_burn_header_hash sn = burn_hash) (snapshots db)).
Definition get_first_block_snapshot db : Res db_error BlockSnapshot :=
  match filter (fun sn => sn_consensus_hash sn = ConsensusHash_empty) (snapshots db) with
  | [row] => Ok row
  | _ => Panic
  end.
Definition get_block_snapshot_consensus db (consensus_hash : list Z) : Res db_error (option BlockSnapshot) :=
  expect_one (filter (fun sn => sn_consensus_hash sn = consensus_hash) (snapshots db)).
Definition get_block_snapshot_at db (root : list Z) : Res db_error (option BlockSnapshot) :=
  expect_one (filter (fun sn => index_root sn = root) (snapshots db)).
Definition get_block_commit db (txid burn_header_hash : list Z) : Res db_error (option LeaderBlockCommitOp) :=
  expect_one (filter (fun op => commit_txid op = txid /\ commit_burn_header_hash op = burn_header_hash) (block_commits db)).
Definition get_block_commit_for_stacks_block db (burn_header_hash block_hash : list Z) : Res db_error (option LeaderBlockCommitOp) :=
  expect_one (filter (fun op => commit_burn_header_hash op = burn_header_hash /\ block_header_hash op = block_hash) (block_commits db)).
Definition get_burnchain_transaction db (txid : list Z) : Res db_error (option BlockstackOperationType) :=
  match filter (fun op => key_txid op = txid) (leader_keys db), filter (fun op => commit_txid op = txid) (block_commits db),
        filter (fun op => user_txid op = txid) (user_burn_support db) with
  | key :: _, _, _ => Ok (Some (LeaderKeyRegister key))
  | _, commit :: _, _ => Ok (Some (LeaderBlockCommit commit))
  | _, _, user_burn :: _ => Ok (Some (UserBurnSupport user_burn))
  | _, _, _ => Ok None
  end.
Definition expects_stacks_block db (block_hash : list Z) : Res db_error bool :=
  Ok (existsb (fun sn => bool_decide (winning_stacks_block_hash sn = block_hash)) (snapshots db)).

(** The tip: the first of the rows in the order of the query, by [height] downwards
    and then by the text of the hash, whose order is that of the bytes. *)
Fixpoint bytes_leb (a b : list Z) : bool :=
  match a, b with
  | [], _ => true
  | _ :: _, [] => false
  | x :: a, y :: b => if x =? y then bytes_leb a b else x <? y
  end.
Definition tip_leb (height : BlockSnapshot -> Z) (a b : BlockSnapshot) : bool :=
  if height a =? height b then bytes_leb (sn_burn_header_hash a) (sn_burn_header_hash b) else height b <? height a.
Definition first_by (leb : BlockSnapshot -> BlockSnapshot -> bool) (rows : list BlockSnapshot) : option BlockSnapshot :=
  foldl (fun best sn => match best with Some b => if leb b sn then Some b else Some sn | None => Some sn end) None rows.
Definition get_canonical_burn_chain_tip db : Res db_error BlockSnapshot :=
  expect_opt (first_by (tip_leb sn_block_height) (snapshots db)).
Definition get_canonical_stacks_chain_tip db : Res db_error (option BlockSnapshot) :=
  Ok (first_by (tip_leb num_sortitions) (snapshots db)).

(** ** The index *)

Definition index_value_get db (burn_header_hash : list Z) (key : string) : Res db_error (option string) :=
  get_indexed (index db) burn_header_hash key.
(** With the assertion of [IndexDBTx::get_ancestor_block_hash]. *)
Definition burndb_get_ancestor_block_hash db (block_height : Z) tip_block_hash : Res db_error (option (list Z)) :=
  if block_height <? first_block_height db then Ok None
  else
    _ ← rust_assert (block_height - first_block_height db <? 2 ^ 32 - 1);
    get_ancestor (index db) (block_height - first_block_height db) tip_block_hash.
Definition get_ancestor_snapshot db (ancestor_block_height : Z) tip_block_hash : Res db_error (option BlockSnapshot) :=
  _ ← rust_assert (ancestor_block_height <? BLOCK_HEIGHT_MAX);
  ancestor ← burndb_get_ancestor_block_hash db ancestor_block_height tip_block_hash;
  match ancestor with
  | Some bhh => get_block_snapshot db bhh
  | None => Ok None
  end.
Definition get_consensus_at db (block_height : Z) tip_block_hash : Res db_error (option (list Z)) :=
  _ ← rust_assert (block_height <? BLOCK_HEIGHT_MAX);
  sn ← get_ancestor_snapshot db block_height tip_block_hash;
  Ok (option_map sn_consensus_hash sn).
Definition get_block_snapshot_in_fork db (block_height : Z) tip_block_hash : Res db_error (option BlockSnapshot) :=
  _ ← rust_assert (block_height <? BLOCK_HEIGHT_MAX);
  ancestor ← get_ancestor_snapshot db block_height tip_block_hash;
  match ancestor with
  | None => Ok None
  | Some ancestor_snapshot =>
    h ← sql_u64 block_height;
    expect_one (filter (fun sn => sn_burn_header_hash sn = sn_burn_header_hash ancestor_snapshot /\ sn_block_height sn = h) (snapshots db))
  end.

Definition get_leader_key_at db (key_block_height key_vtxindex : Z) tip_block_hash : Res db_error (option LeaderKeyRegisterOp) :=
  _ ← rust_assert (key_block_height <? BLOCK_HEIGHT_MAX);
  ancestor ← get_ancestor_snapshot db key_block_height tip_block_hash;
  match ancestor with
  | None => Ok None
  | Some sn =>
    h ← sql_u64 key_block_height;
    expect_one (filter (fun op => key_burn_header_hash op = sn_burn_header_hash sn /\ reg_block_height op = h /\ reg_vtxindex op = key_vtxindex)
      (leader_keys db))
  end.
Definition get_block_commit_parent db (block_height vtxindex : Z) tip_block_hash : Res db_error (option LeaderBlockCommitOp) :=
  _ ← rust_assert (block_height <? BLOCK_HEIGHT_MAX);
  ancestor ← get_ancestor_snapshot db block_height tip_block_hash;
  match ancestor with
  | None => Ok None
  | Some sn =>
    h ← sql_u64 block_height;
    expect_one (filter (fun op => commit_burn_header_hash op = sn_burn_header_hash sn /\ commit_block_height op = h /\ commit_vtxindex op = vtxindex)
      (block_commits db))
  end.
Definition get_consumed_leader_keys db (parent_tip_block_hash : list Z) (block_candidates : list LeaderBlockCommitOp) :
    Res db_error (list LeaderKeyRegisterOp) :=
  mapMR (fun c =>
    key ← get_leader_key_at db (key_block_ptr c) (key_vtxindex c) parent_tip_block_hash;
    expect_opt key) block_candidates.

(** ** The rows of a block *)

Definition vtx_le {A} (vtx : A -> Z) (a b : A) : Prop := vtx a <= vtx b.
#[global] Instance vtx_le_dec {A} (vtx : A -> Z) : RelDecision (vtx_le vtx) := fun a b => decide (vtx a <= vtx b).
Definition by_vtx {A} (vtx : A -> Z) (rows : list A) : list A := merge_sort (vtx_le vtx) rows.
Definition fork_rows {A} db (block_height : Z) tip_block_hash (vtx : A -> Z) (hash : A -> list Z) (height : A -> Z) (rows : list A) :
    Res db_error (list A) :=
  _ ← rust_assert (block_height <? BLOCK_HEIGHT_MAX);
  ancestor ← get_ancestor_snapshot db block_height tip_block_hash;
  match ancestor with
  | None => Err DbNotFoundError
  | Some sn =>
    h ← sql_u64 block_height;
    Ok (by_vtx vtx (filter (fun row => hash row = sn_burn_header_hash sn /\ height row = h) rows))
  end.
Definition get_leader_keys_by_block db (block_height : Z) tip_block_hash : Res db_error (list LeaderKeyRegisterOp) :=
  fork_rows db block_height tip_block_hash reg_vtxindex key_burn_header_hash reg_block_height (leader_keys db).
Definition get_block_commits_by_block db (block_height : Z) tip_block_hash : Res db_error (list LeaderBlockCommitOp) :=
  fork_rows db block_height tip_block_hash commit_vtxindex commit_burn_header_hash commit_block_height (block_commits db).
Definition get_user_burns_by_block db (block_height : Z) tip_block_hash : Res db_error (list UserBurnSupportOp) :=
  fork_rows db block_height tip_block_hash user_burn_vtxindex user_burn_header_hash user_block_height (user_burn_support db).
Definition get_winning_user_burns_by_block `{!Ripemd160} db (burn_header_hash : list Z) : Res db_error (list UserBurnSupportOp) :=
  ancestor ← get_block_snapshot db burn_header_hash;
  match ancestor with
  | None => Ok []
  | Some sn =>
    if negb (sortition sn) then Ok []
    else
      let winning_block_hash160 := Hash160_from_sha256 (winning_stacks_block_hash sn) in
      Ok (by_vtx user_burn_vtxindex (filter (fun op => user_burn_header_hash op = sn_burn_header_hash sn /\
        block_header_hash_160 op = winning_block_hash160) (user_burn_support db)))
  end.
Definition get_block_burn_amount db (block_height : Z) tip_block_hash : Res db_error Z :=
  _ ← rust_assert (block_height <? BLOCK_HEIGHT_MAX);
  user_burns ← get_user_burns_by_block db block_height tip_block_hash;
  commits ← get_block_commits_by_block db block_height tip_block_hash;
  foldM (fun burn_total fee => expect_opt (checked_add 64 burn_total fee)) 0 (map user_burn_fee user_burns ++ map commit_burn_fee commits).

(** ** The state of a fork *)

Definition expects_stacks_block_in_fork db (block_hash : list Z) tip_block_hash : Res db_error bool :=
  value ← index_value_get db tip_block_hash (sortition_block_key block_hash);
  Ok (bool_decide (is_Some value)).
Definition get_block_snapshot_for_winning_stacks_block db tip_burn_header_hash (block_hash : list Z) : Res db_error (option BlockSnapshot) :=
  value ← index_value_get db tip_burn_header_hash (sortition_block_key block_hash);
  match value with
  | Some burn_header_hash_str => bhh ← expect_opt (hash_from_hex burn_header_hash_str); get_block_snapshot db bhh
  | None => Ok None
  end.
Definition has_VRF_public_key db (key : list Z) tip_block_hash : Res db_error bool :=
  tip ← get_block_snapshot db tip_block_hash;
  match tip with
  | None => Err DbNotFoundError
  | Some sn => value ← index_value_get db (sn_burn_header_hash sn) (vrf_key key); Ok (bool_decide (is_Some value))
  end.
Definition is_leader_key_consumed db (leader_key : LeaderKeyRegisterOp) tip_block_hash : Res db_error bool :=
  _ ← rust_assert (reg_block_height leader_key <? BLOCK_HEIGHT_MAX);
  tip ← get_block_snapshot db tip_block_hash;
  match tip with
  | None => Err DbNotFoundError
  | Some sn =>
    value ← index_value_get db (sn_burn_header_hash sn) (vrf_key (public_key leader_key));
    match value with
    | Some status_str => if decide (status_str = "1") then Ok false else if decide (status_str = "0") then Ok true else Panic
    | None => Ok false
    end
  end.
Definition get_last_snapshot_with_sortition db (burn_block_height : Z) tip_block_hash : Res db_error BlockSnapshot :=
  _ ← rust_assert (burn_block_height <? BLOCK_HEIGHT_MAX);
  tip ← get_block_snapshot db tip_block_hash;
  match tip with
  | None => Err DbNotFoundError
  | Some sn =>
    _ ← rust_assert (sn_block_height sn =? burn_block_height);
    value ← index_value_get db (sn_burn_header_hash sn) last_sortition_key;
    match value with
    | Some hex_str =>
      ancestor_hash ← expect_opt (hash_from_hex hex_str);
      snapshot_opt ← get_block_snapshot db ancestor_hash;
      expect_opt snapshot_opt
    | None => get_first_block_snapshot db
    end
  end.

(** The first of the heights whose consensus hashes are fresh. *)
Definition oldest_fresh_height (current_block_height consensus_hash_lifetime first : Z) : Z :=
  let oldest_height := if current_block_height <? consensus_hash_lifetime then 0 else current_block_height - consensus_hash_lifetime in
  if oldest_height <? first then first else oldest_height.
(** The snapshot of an ancestor that must exist. *)
Definition expect_ancestor db (height : Z) tip_block_hash : Res db_error (list Z * BlockSnapshot) :=
  found ← burndb_get_ancestor_block_hash db height tip_block_hash;
  block_hash ← expect_opt found;
  sn ← get_block_snapshot db block_hash;
  ancestor_snapshot ← expect_opt sn;
  Ok (block_hash, ancestor_snapshot).
Definition get_fresh_consensus_hashes db (current_block_height consensus_hash_lifetime : Z) tip_block_hash : Res db_error (list (list Z)) :=
  _ ← rust_assert (current_block_height <? BLOCK_HEIGHT_MAX);
  first_snapshot ← get_first_block_snapshot db;
  tip ← get_block_snapshot db tip_block_hash;
  match tip with
  | None => Err DbNotFoundError
  | Some _ =>
    let oldest_height := oldest_fresh_height current_block_height consensus_hash_lifetime (sn_block_height first_snapshot) in
    mapMR (fun i => '(_, sn) ← expect_ancestor db i tip_block_hash; Ok (sn_consensus_hash sn)) (seqZ oldest_height (current_block_height + 1 - oldest_height))
  end.
(** The loop of [is_fresh_consensus_hash], which stops where it finds the hash. *)
Fixpoint fresh_from db (consensus_hash : list Z) tip_block_hash (heights : list Z) : Res db_error bool :=
  match heights with
  | [] => Ok false
  | i :: heights =>
    '(_, sn) ← expect_ancestor db i tip_block_hash;
    if decide (sn_consensus_hash sn = consensus_hash) then Ok true else fresh_from db consensus_hash tip_block_hash heights
  end.
Definition is_fresh_consensus_hash db (current_block_height consensus_hash_lifetime : Z) (consensus_hash : list Z) tip_block_hash : Res db_error bool :=
  _ ← rust_assert (current_block_height <? BLOCK_HEIGHT_MAX);
  first_snapshot ← get_first_block_snapshot db;
  tip ← get_block_snapshot db tip_block_hash;
  match tip with
  | None => Err DbNotFoundError
  | Some _ =>
    let oldest_height := oldest_fresh_height current_block_height consensus_hash_lifetime (sn_block_height first_snapshot) in
    fresh_from db consensus_hash tip_block_hash (seqZ oldest_height (current_block_height + 1 - oldest_height))
  end.

Definition winner_of (block_hash : list Z) (sn : BlockSnapshot) : list Z * option (list Z) :=
  (block_hash, if sortition sn then Some (winning_stacks_block_hash sn) else None).
Definition get_stacks_header_hashes db (num_headers : Z) (tip_consensus_hash : list Z) : Res db_error (list (list Z * option (list Z))) :=
  tip ← get_block_snapshot_consensus db tip_consensus_hash;
  match tip with
  | None => Err DbNotFoundError
  | Some tip_snapshot =>
    _ ← rust_assert (first_block_height db <=? sn_block_height tip_snapshot);
    let depth := sn_block_height tip_snapshot - first_block_height db in
    let headers_count := if depth <? num_headers then depth else num_headers in
    let tip_block_hash := sn_burn_header_hash tip_snapshot in
    ancestors ← mapMR (fun i => '(h, sn) ← expect_ancestor db (sn_block_height tip_snapshot - i) tip_block_hash; Ok (winner_of h sn))
      (seqZ 1 (headers_count - 1));
    Ok (rev (winner_of tip_block_hash tip_snapshot :: ancestors))
  end.

(** ** Writing *)

Definition set_index db (i : I) : BurnDB I :=
  mkBurnDB (snapshots db) (leader_keys db) (block_commits db) (user_burn_support db) i (first_block_height db).
(** The UNIQUE columns of the table: the burn header hash and the index root. *)
Definition insert_block_snapshot db (snapshot : BlockSnapshot) : Res db_error (BurnDB I) :=
  _ ← rust_assert (sn_block_height snapshot <? BLOCK_HEIGHT_MAX);
  _ ← rust_assert (num_sortitions snapshot <? BLOCK_HEIGHT_MAX);
  _ ← sql_u64 (sn_block_height snapshot);
  _ ← sql_u64 (sn_burn_header_timestamp snapshot);
  _ ← sql_u64 (num_sortitions snapshot);
  if existsb (fun sn => bool_decide (sn_burn_header_hash sn = sn_burn_header_hash snapshot) || bool_decide (index_root sn = index_root snapshot))
       (snapshots db)
  then Err DbSqliteError
  else Ok (mkBurnDB (snapshots db ++ [snapshot]) (leader_keys db) (block_commits db) (user_burn_support db) (index db) (first_block_height db)).
(** The keys are PRIMARY KEY(txid, burn_header_hash), and the public key is UNIQUE. *)
Definition insert_leader_key db (leader_key : LeaderKeyRegisterOp) : Res db_error (BurnDB I) :=
  _ ← rust_assert (reg_block_height leader_key <? BLOCK_HEIGHT_MAX);
  _ ← sql_u64 (reg_block_height leader_key);
  if existsb (fun k => bool_decide (key_txid k = key_txid leader_key /\ key_burn_header_hash k = key_burn_header_hash leader_key)
                       || bool_decide (public_key k = public_key leader_key)) (leader_keys db)
  then Err DbSqliteError
  else Ok (mkBurnDB (snapshots db) (leader_keys db ++ [leader_key]) (block_commits db) (user_burn_support db) (index db) (first_block_height db)).
Definition insert_block_commit db (block_commit : LeaderBlockCommitOp) : Res db_error (BurnDB I) :=
  _ ← rust_assert (commit_block_height block_commit <? BLOCK_HEIGHT_MAX);
  _ ← sql_u64 (commit_block_height block_commit);
  if existsb (fun c => bool_decide (commit_txid c = commit_txid block_commit /\ commit_burn_header_hash c = commit_burn_header_hash block_commit))
       (block_commits db)
  then Err DbSqliteError
  else Ok (mkBurnDB (snapshots db) (leader_keys db) (block_commits db ++ [block_commit]) (user_burn_support db) (index db) (first_block_height db)).
Definition insert_user_burn db (user_burn : UserBurnSupportOp) : Res db_error (BurnDB I) :=
  _ ← rust_assert (user_block_height user_burn <? BLOCK_HEIGHT_MAX);
  _ ← sql_u64 (user_block_height user_burn);
  if existsb (fun u => bool_decide (user_txid u = user_txid user_burn /\ user_burn_header_hash u = user_burn_header_hash user_burn))
       (user_burn_support db)
  then Err DbSqliteError
  else Ok (mkBurnDB (snapshots db) (leader_keys db) (block_commits db) (user_burn_support db ++ [user_burn]) (index db) (first_block_height db)).
Definition store_burnchain_transaction db (blockstack_op : BlockstackOperationType) : Res db_error (BurnDB I) :=
  match blockstack_op with
  | LeaderKeyRegister op => expect (insert_leader_key db op)
  | LeaderBlockCommit op => expect (insert_block_commit db op)
  | UserBurnSupport op => expect (insert_user_burn db op)
  end.

Definition is_initial (self : BlockSnapshot) : bool := bool_decide (sortition_hash self = SortitionHash_initial).
(** The batch of keys and values of a block. *)
Definition fork_info (snapshot : BlockSnapshot) (block_ops : list BlockstackOperationType) (consumed_leader_keys : list LeaderKeyRegisterOp) :
    list (string * string) :=
  omap (fun block_op => match block_op with LeaderKeyRegister data => Some (vrf_key (public_key data), "1") | _ => None end) block_ops ++
  map (fun consumed_leader_key => (vrf_key (public_key consumed_leader_key), "0")) consumed_leader_keys ++
  (if sortition snapshot
   then [(last_sortition_key, to_hex (sn_burn_header_hash snapshot));
         (sortition_block_key (winning_stacks_block_hash snapshot), to_hex (sn_burn_header_hash snapshot))]
   else []).
Definition index_add_fork_info db (parent_snapshot snapshot : BlockSnapshot) (block_ops : list BlockstackOperationType)
    (consumed_leader_keys : list LeaderKeyRegisterOp) : Res db_error (BurnDB I * list Z) :=
  _ ← rust_assert (is_initial snapshot || bool_decide (sn_parent_burn_header_hash snapshot = sn_burn_header_hash parent_snapshot));
  '(i, root_hash) ← put_indexed (index db) (sn_parent_burn_header_hash snapshot) (sn_burn_header_hash snapshot)
    (fork_info snapshot block_ops consumed_leader_keys);
  Ok (set_index db i, root_hash).
Definition with_root (sn : BlockSnapshot) (root : list Z) : BlockSnapshot :=
  mkSnapshot (sn_block_height sn) (sn_burn_header_timestamp sn) (sn_burn_header_hash sn) (sn_parent_burn_header_hash sn) (sn_consensus_hash sn)
    (sn_ops_hash sn) (total_burn sn) (sortition sn) (sortition_hash sn) (winning_block_txid sn) (winning_stacks_block_hash sn) root (num_sortitions sn).
Definition append_chain_tip_snapshot db (parent_snapshot snapshot : BlockSnapshot) (block_ops : list BlockstackOperationType)
    (consumed_leader_keys : list LeaderKeyRegisterOp) : Res db_error (BurnDB I * list Z) :=
  _ ← rust_assert (bool_decide (sn_parent_burn_header_hash snapshot = sn_burn_header_hash parent_snapshot));
  _ ← rust_assert (wrap 64 (sn_block_height parent_snapshot + 1) =? sn_block_height snapshot);
  _ ← rust_assert (wrap 64 (num_sortitions parent_snapshot + (if sortition snapshot then 1 else 0)) =? num_sortitions snapshot);
  '(db, root_hash) ← index_add_fork_info db parent_snapshot snapshot block_ops consumed_leader_keys;
  db ← insert_block_snapshot db (with_root snapshot root_hash);
  db ← foldM store_burnchain_transaction db block_ops;
  Ok (db, root_hash).

(** [TrieHash::from_empty_data], the SHA512/256 hash of no bytes. *)
Definition TrieHash_from_empty_data : list Z :=
  [0xc6; 0x72; 0xb8; 0xd1; 0xef; 0x56; 0xed; 0x28; 0xab; 0x87; 0xc3; 0x62; 0x2c; 0x51; 0x14; 0x06;
   0x9b; 0xdd; 0x3a; 0xd7; 0xb8; 0xf9; 0x73; 0x74; 0x98; 0xd0; 0xc0; 0x1e; 0xce; 0xf0; 0x96; 0x7a].
(** [BlockSnapshot::initial]. *)
Definition snapshot_initial (first_height : Z) (first_burn_header_hash : list Z) (timestamp : Z) : BlockSnapshot :=
  mkSnapshot first_height timestamp first_burn_header_hash block_sentinel ConsensusHash_empty (replicate 32 0) 0 true SortitionHash_initial
    (replicate 32 0) FIRST_STACKS_BLOCK_HASH TrieHash_from_empty_data 0.
(** A new database, from an empty index. *)
Definition instantiate (empty_index : I) (first_height : Z) (first_burn_header_hash : list Z) (timestamp : Z) : Res db_error (BurnDB I) :=
  let first_snapshot := snapshot_initial first_height first_burn_header_hash timestamp in
  _ ← rust_assert (bool_decide (sn_parent_burn_header_hash first_snapshot <> sn_burn_header_hash first_snapshot));
  let db := mkBurnDB [] [] [] [] empty_index first_height in
  '(db, root) ← index_add_fork_info db first_snapshot first_snapshot [] [];
  _ ← sql_u64 first_height;
  _ ← sql_u64 timestamp;
  Ok (mkBurnDB [with_root first_snapshot root] [] [] [] (index db) first_height).
End db.
