(* ===== verification/BurnChecks.v ===== *)
(** The configuration of a burn chain (src/burnchains/mod.rs, burnchain.rs), the view
    of it that peers compare ([get_burnchain_view] of burndb.rs), and the checks of
    operations against the database: [check] of src/chainstate/burn/operations. *)
From stdpp Require Import base strings numbers list gmap.
From Stdlib Require Import ZArith Lia.
From S2P Require Import Prelude Names Types C32 Natives StacksTypes NetCodec TransactionCodec Signatures Uint BurnOps BurnDB.
#[local] Open Scope Z_scope.

(** * Configuration *)

Record BurnchainParameters := mkParameters {
  param_chain_name : string;
  param_network_name : string;
  param_network_id : Z;
  param_first_block_height : Z;
  param_first_block_hash : list Z;
  param_stable_confirmations : Z;
  param_consensus_hash_lifetime : Z;
}.
Record Burnchain := mkBurnchain {
  peer_version : Z;
  burnchain_network_id : Z;
  burnchain_chain_name : string;
  network_name : string;
  working_dir : string;
  consensus_hash_lifetime : Z;
  stable_confirmations : Z;
  burnchain_first_block_height : Z;
  first_block_hash : list Z;
}.
Inductive burnchain_error :=
| UnsupportedBurnchain | BitcoinError | BurnDBError (e : db_error) | DownloadError | BurnParseError | ThreadChannelError | MissingHeaders
| MissingParentBlock | FSError | BurnOpError (e : op_error).

Definition PEER_VERSION : Z := 0x17000000.
Definition BITCOIN_MAINNET : Z := 0xD9B4BEF9.
Definition BITCOIN_TESTNET : Z := 0x0709110B.
Definition BITCOIN_REGTEST : Z := 0xDAB5BFFA.
Definition FIRST_BLOCK_MAINNET : Z := 373601.
Definition FIRST_BLOCK_TESTNET : Z := 0.
Definition FIRST_BLOCK_REGTEST : Z := 0.
Definition FIRST_BURNCHAIN_BLOCK_HASH_TESTNET : list Z := replicate 32 1.
Definition FIRST_BURNCHAIN_BLOCK_HASH_REGTEST : list Z := replicate 32 2.
Definition bitcoin_mainnet : BurnchainParameters :=
  mkParameters "bitcoin" "mainnet" BITCOIN_MAINNET FIRST_BLOCK_MAINNET FIRST_BURNCHAIN_BLOCK_HASH 7 24.
Definition bitcoin_testnet : BurnchainParameters :=
  mkParameters "bitcoin" "testnet" BITCOIN_TESTNET FIRST_BLOCK_TESTNET FIRST_BURNCHAIN_BLOCK_HASH_TESTNET 7 24.
Definition bitcoin_regtest : BurnchainParameters :=
  mkParameters "bitcoin" "regtest" BITCOIN_REGTEST FIRST_BLOCK_REGTEST FIRST_BURNCHAIN_BLOCK_HASH_REGTEST 1 24.
(** [Burnchain::new]. *)
Definition Burnchain_new (dir chain network : string) : Res burnchain_error Burnchain :=
  params ← (if decide (chain = "bitcoin") then
      if decide (network = "mainnet") then Ok bitcoin_mainnet
      else if decide (network = "testnet") then Ok bitcoin_testnet
      else if decide (network = "regtest") then Ok bitcoin_regtest
      else Err UnsupportedBurnchain
    else Err UnsupportedBurnchain);
  Ok (mkBurnchain PEER_VERSION (param_network_id params) (param_chain_name params) (param_network_name params) dir
        (param_consensus_hash_lifetime params) (param_stable_confirmations params) (param_first_block_height params) (param_first_block_hash params)).

(** * The view of the chain *)

Record BurnchainView := mkView {
  view_burn_block_height : Z;
  view_burn_consensus_hash : list Z;
  view_burn_stable_block_height : Z;
  view_burn_stable_consensus_hash : list Z;
  view_last_consensus_hashes : gmap Z (list Z);
}.
Definition MAX_NEIGHBOR_BLOCK_DELAY : Z := 288.

Section checks.
Context {I : Type} `{Hindex : !ForkIndex I}.
Implicit Types (db : BurnDB I).

Definition consensus_or_empty (ch : option (list Z)) : list Z := default ConsensusHash_empty ch.
Definition get_burnchain_view db (burnchain : Burnchain) : Res db_error BurnchainView :=
  chain_tip ← get_canonical_burn_chain_tip db;
  let height := sn_block_height chain_tip in
  if height <? burnchain_first_block_height burnchain then Err DbCorruption
  else if height <? stable_confirmations burnchain then Err DbCorruption
  else
    let stable_block_height :=
      if height - stable_confirmations burnchain <? burnchain_first_block_height burnchain then burnchain_first_block_height burnchain
      else height - stable_confirmations burnchain in
    stable ← get_block_snapshot_in_fork db stable_block_height (sn_burn_header_hash chain_tip);
    match stable with
    | None => Err DbCorruption
    | Some stable_snapshot =>
      let oldest_height :=
        if sn_block_height stable_snapshot <? MAX_NEIGHBOR_BLOCK_DELAY then 0 else sn_block_height stable_snapshot - MAX_NEIGHBOR_BLOCK_DELAY in
      last_consensus_hashes ← foldM (fun m h =>
        ch ← get_consensus_at db h (sn_burn_header_hash chain_tip);
        Ok (<[h := consensus_or_empty ch]> m)) ∅ (seqZ oldest_height (height - oldest_height));
      Ok (mkView height (sn_consensus_hash chain_tip) stable_block_height (sn_consensus_hash stable_snapshot) last_consensus_hashes)
    end.

(** * The checks *)

Context `{Hsecp : !Secp256k1, Hsha : !Sha256, Hhashes : !NativeHashes}.

(** The chain tip that the block is built on. *)
Definition parent_tip db (block_header : BurnchainBlockHeader) : Res op_error BlockSnapshot :=
  sn ← expect (get_block_snapshot db (bh_parent_block_hash block_header));
  expect_opt sn.
Definition to_address_bits {E} (self : BurnchainSigner) : Res E (list Z) :=
  expect (public_keys_to_address_hash (signer_hash_mode self) (signer_num_sigs self) (signer_public_keys self)).

Definition commit_check (self : LeaderBlockCommitOp) (block_header : BurnchainBlockHeader) db : Res op_error () :=
  let leader_key_block_height := key_block_ptr self in
  let parent_block_height := parent_block_ptr self in
  chain_tip ← parent_tip db block_header;
  let tip := sn_burn_header_hash chain_tip in
  if commit_burn_fee self =? 0 then Err BlockCommitBadInput
  else
    first_block_snapshot ← expect (get_first_block_snapshot db);
    if commit_block_height self <? sn_block_height first_block_snapshot then Err BlockCommitPredatesGenesis
    else
      is_already_committed ← expect (expects_stacks_block_in_fork db (block_header_hash self) tip);
      if is_already_committed : bool then Err BlockCommitAlreadyExists
      else if commit_block_height self <=? leader_key_block_height then Err BlockCommitNoLeaderKey
      else
        key ← expect (get_leader_key_at db leader_key_block_height (key_vtxindex self) tip);
        register_key ← ok_or key BlockCommitNoLeaderKey;
        is_key_consumed ← expect (is_leader_key_consumed db register_key tip);
        if is_key_consumed : bool then Err BlockCommitLeaderKeyAlreadyUsed
        else
          _ ← (if parent_block_height =? commit_block_height self then Err BlockCommitNoParent
               else if negb (parent_block_ptr self =? 0) || negb (parent_vtxindex self =? 0) then
                 parent ← expect (get_block_commit_parent db parent_block_height (parent_vtxindex self) tip);
                 match parent with Some _ => Ok () | None => Err BlockCommitNoParent end
               else Ok ());
          input_address_bytes ← to_address_bits (commit_input self);
          if decide (input_address_bytes = addr_bytes (key_address register_key)) then Ok () else Err BlockCommitBadInput.

Definition key_check (self : LeaderKeyRegisterOp) (burnchain : Burnchain) (block_header : BurnchainBlockHeader) db : Res op_error () :=
  chain_tip ← parent_tip db block_header;
  let tip := sn_burn_header_hash chain_tip in
  has_key_already ← expect (has_VRF_public_key db (public_key self) tip);
  if has_key_already : bool then Err LeaderKeyAlreadyRegistered
  else
    consensus_hash_recent ←
      expect (is_fresh_consensus_hash db (sn_block_height chain_tip) (consensus_hash_lifetime burnchain) (key_consensus_hash self) tip);
    if consensus_hash_recent : bool then Ok () else Err LeaderKeyBadConsensusHash.

Definition user_burn_check (self : UserBurnSupportOp) (burnchain : Burnchain) (block_header : BurnchainBlockHeader) db : Res op_error () :=
  chain_tip ← parent_tip db block_header;
  let tip := sn_burn_header_hash chain_tip in
  fresh_chs ← expect (get_fresh_consensus_hashes db (sn_block_height chain_tip) (consensus_hash_lifetime burnchain) tip);
  let is_fresh := existsb (fun ch => bool_decide (take 19 ch = take 19 (user_consensus_hash self))) fresh_chs in
  if negb is_fresh then Err UserBurnSupportBadConsensusHash
  else if user_key_block_ptr self =? 0 then Err OpParseError
  else if user_block_height self <? user_key_block_ptr self then Err OpParseError
  else
    register_key_opt ← expect (get_leader_key_at db (user_key_block_ptr self) (user_key_vtxindex self) tip);
    match register_key_opt with Some _ => Ok () | None => Err UserBurnSupportNoLeaderKey end.
End checks.
