(* ===== verification/Sortition.v ===== *)
(** Cryptographic sortition: the burn distribution of a block
    (src/chainstate/burn/distribution.rs), the choice of the winning commit and the
    snapshot of the block (src/chainstate/burn/sortition.rs, with the consensus
    hashes of src/chainstate/burn/mod.rs).  The theorems are about the ranges: each
    candidate gets its share of the hash space, and an index falls into the range
    of one candidate. *)
From stdpp Require Import base strings numbers list gmap.
From Stdlib Require Import ZArith Lia.
From S2P Require Import Prelude Names Types C32 Natives StacksTypes NetCodec TransactionCodec Signatures Uint BurnOps BurnDB BurnChecks.
#[local] Open Scope Z_scope.

(** * Distributions *)

Record BurnSamplePoint := mkPoint {
  burns : Z;
  range_start : Uint;
  range_end : Uint;
  candidate : LeaderBlockCommitOp;
  sample_key : LeaderKeyRegisterOp;
  sample_user_burns : list UserBurnSupportOp;
}.
Definition set_range (p : BurnSamplePoint) (start end_ : Uint) : BurnSamplePoint :=
  mkPoint (burns p) start end_ (candidate p) (sample_key p) (sample_user_burns p).

(** [vtx] is strictly increasing in the rows. *)
Fixpoint in_order {A} (vtx : A -> Z) (rows : list A) : bool :=
  match rows with
  | a :: ((b :: _) as rest) => (vtx a <? vtx b) && in_order vtx rest
  | _ => true
  end.
Definition same_height {A} (height : A -> Z) (rows : list A) : bool :=
  match rows with
  | [] => true
  | a :: rest => forallb (fun b => height b =? height a) rest
  end.
Definition ops_sanity_checks {E : Type} (block_candidates : list LeaderBlockCommitOp) (user_burns : list UserBurnSupportOp) : Res E () :=
  rust_assert (same_height commit_block_height block_candidates && in_order commit_vtxindex block_candidates &&
               same_height user_block_height user_burns && in_order user_burn_vtxindex user_burns).

Definition key_loc (k : LeaderKeyRegisterOp) : Z * Z := (reg_block_height k, reg_vtxindex k).
Definition commit_key_loc (c : LeaderBlockCommitOp) : Z * Z := (key_block_ptr c, key_vtxindex c).
(** A BTreeMap of positions to indexes from [i] on, with the assertion that no
    position comes twice; the maps of this file are only used to look up. *)
Fixpoint index_from {E A K : Type} `{Countable K} (loc : A -> K) (i : nat) (m : gmap K nat) (rows : list A) : Res E (gmap K nat) :=
  match rows with
  | [] => Ok m
  | row :: rows =>
    match m !! loc row with
    | Some _ => Panic
    | None => index_from loc (S i) (<[loc row := i]> m) rows
    end
  end.
Fixpoint take_candidates {E : Type} (consumed_leader_keys : list LeaderKeyRegisterOp) (key_index : gmap (Z * Z) nat)
    (all_block_candidates : list LeaderBlockCommitOp) : Res E (list BurnSamplePoint) :=
  match all_block_candidates with
  | [] => Ok []
  | bc :: rest =>
    match key_index !! commit_key_loc bc with
    | None => take_candidates consumed_leader_keys key_index rest
    | Some i =>
      key ← expect_opt (consumed_leader_keys !! i);
      points ← take_candidates consumed_leader_keys (delete (commit_key_loc bc) key_index) rest;
      Ok (mkPoint (commit_burn_fee bc) (uint_zero 4) (uint_zero 4) bc key [] :: points)
    end
  end.

Definition add_user_burn (user_burn : UserBurnSupportOp) (p : BurnSamplePoint) : BurnSamplePoint :=
  mkPoint (wrap 128 (burns p + user_burn_fee user_burn)) (range_start p) (range_end p) (candidate p) (sample_key p)
    (sample_user_burns p ++ [user_burn]).

Section distribution.
Context `{Hripemd : !Ripemd160}.

Definition sample_id (p : BurnSamplePoint) : list Z * list Z :=
  (public_key (sample_key p), Hash160_from_sha256 (block_header_hash (candidate p))).
Definition apply_user_burns {E : Type} (burn_sample : list BurnSamplePoint) (user_burns : list UserBurnSupportOp) : Res E (list BurnSamplePoint) :=
  burn_index ← index_from sample_id 0 ∅ burn_sample;
  Ok (foldl (fun burn_sample user_burn =>
    match burn_index !! (user_public_key user_burn, block_header_hash_160 user_burn) with
    | Some idx => alter (add_user_burn user_burn) idx burn_sample
    | None => burn_sample
    end) burn_sample user_burns).

Definition get_total_burns (burn_dist : list BurnSamplePoint) : option Z :=
  let block_burn_total := foldl (fun burns_so_far p => wrap 128 (burns_so_far + burns p)) 0 burn_dist in
  if 2 ^ 64 - 1 <=? block_burn_total then None else Some block_burn_total.

(** [((Uint512::from_uint256(&Uint256::max()) * burn_acc) / total_burns).to_uint256()]. *)
Definition share {E : Type} (burn_acc total_burns : Uint) : Res E Uint :=
  q ← lift_panic (uint_div 8 (uint_mul 8 (Uint512_from_uint256 (uint_max 4)) burn_acc) total_burns);
  Ok (Uint512_to_uint256 q).
Fixpoint ranges_from {E : Type} (total_burns burn_acc prev_end : Uint) (rest : list BurnSamplePoint) : Res E (list BurnSamplePoint) :=
  match rest with
  | [] => Ok []
  | p :: rest =>
    let burn_acc := uint_add 8 burn_acc (uint_from_u128 8 (burns p)) in
    range_end ← share burn_acc total_burns;
    points ← ranges_from total_burns burn_acc range_end rest;
    Ok (set_range p prev_end range_end :: points)
  end.
Definition make_sortition_ranges {E : Type} (burn_sample : list BurnSamplePoint) : Res E (list BurnSamplePoint) :=
  match burn_sample with
  | [] => Ok []
  | [p] => Ok [set_range p (uint_zero 4) (uint_max 4)]
  | p :: rest =>
    total ← expect_opt (get_total_burns burn_sample);
    let total_burns := uint_from_u128 8 total in
    let burn_acc := uint_from_u128 8 (burns p) in
    range_end ← share burn_acc total_burns;
    points ← ranges_from total_burns burn_acc range_end rest;
    Ok (set_range p (uint_zero 4) range_end :: points)
  end.

Definition make_distribution {E : Type} (all_block_candidates : list LeaderBlockCommitOp) (consumed_leader_keys : list LeaderKeyRegisterOp)
    (user_burns : list UserBurnSupportOp) : Res E (list BurnSamplePoint) :=
  match all_block_candidates with
  | [] => Ok []
  | _ =>
    _ ← ops_sanity_checks all_block_candidates user_burns;
    key_index ← index_from key_loc 0 ∅ consumed_leader_keys;
    _ ← rust_assert (forallb (fun bc => bool_decide (is_Some (key_index !! commit_key_loc bc))) all_block_candidates);
    burn_sample ← take_candidates consumed_leader_keys key_index all_block_candidates;
    burn_sample ← apply_user_burns burn_sample user_burns;
    make_sortition_ranges burn_sample
  end.
End distribution.

(** * Sortition *)

Section sortition.
Context `{Hsha : !Sha256, Hripemd : !Ripemd160}.

(** The loop over the points, with the index of the first. *)
Fixpoint find_range {E : Type} (index : Uint) (i : nat) (dist : list BurnSamplePoint) : Res E nat :=
  match dist with
  | [] => Panic
  | p :: dist => if uint_leb (range_start p) index && uint_ltb index (range_end p) then Ok i else find_range index (S i) dist
  end.
Definition sample_burn_distribution {E : Type} (dist : list BurnSamplePoint) (VRF_seed sortition_hash : list Z) : Res E (option nat) :=
  match dist with
  | [] => Ok None
  | [_] => Ok (Some O)
  | _ => i ← find_range (to_uint256 (mix_VRF_seed sortition_hash VRF_seed)) 0 dist; Ok (Some i)
  end.

Context {I : Type} `{Hindex : !ForkIndex I}.
Implicit Types (db : BurnDB I).

(** The seed of the last winner in the fork of the block. *)
Definition last_VRF_seed db (block_header : BurnchainBlockHeader) : Res db_error (list Z) :=
  last_sortition_snapshot ← expect (get_last_snapshot_with_sortition db (wrap 64 (bh_block_height block_header - 1)) (bh_parent_block_hash block_header));
  if is_initial last_sortition_snapshot then Ok VRFSeed_initial
  else
    commit ← get_block_commit db (winning_block_txid last_sortition_snapshot) (sn_burn_header_hash last_sortition_snapshot);
    op ← expect_opt commit;
    Ok (new_seed op).
Definition select_winning_block db (block_header : BurnchainBlockHeader) (sortition_hash : list Z) (burn_dist : list BurnSamplePoint) :
    Res db_error (option LeaderBlockCommitOp) :=
  VRF_seed ← last_VRF_seed db block_header;
  win_idx_opt ← sample_burn_distribution burn_dist VRF_seed sortition_hash;
  match win_idx_opt with
  | None => Ok None
  | Some win_idx => p ← expect_opt (burn_dist !! win_idx); Ok (Some (candidate p))
  end.

(** The loop of [get_prev_consensus_hashes] at [i], for [fuel] more rounds; the
    shift by 64 is never reached, see [prev_hashes_total]. *)
Fixpoint prev_hashes db (fuel : nat) (i block_height first_block_height : Z) (tip_block_hash : list Z) : Res db_error (list (list Z)) :=
  match fuel with
  | O => Panic
  | S fuel =>
    let prev_block := block_height - (2 ^ i - 1) in
    if first_block_height <=? prev_block then
      prev_ch ← expect (get_consensus_at db prev_block tip_block_hash);
      rest ← (if block_height <? 2 ^ (i + 1) - 1 then Ok [] else prev_hashes db fuel (i + 1) block_height first_block_height tip_block_hash);
      Ok (consensus_or_empty prev_ch :: rest)
    else Ok []
  end.
Definition get_prev_consensus_hashes db (block_height first_block_height : Z) (tip_block_hash : list Z) : Res db_error (list (list Z)) :=
  prev_hashes db 64 0 block_height first_block_height tip_block_hash.
Definition from_parent_block_data db (opshash : list Z) (parent_block_height first_block_height : Z) (parent_block_hash this_block_hash : list Z)
    (total_burn : Z) : Res db_error (list Z) :=
  prev_consensus_hashes ← get_prev_consensus_hashes db parent_block_height first_block_height parent_block_hash;
  Ok (ConsensusHash_from_ops this_block_hash opshash total_burn prev_consensus_hashes).

Definition make_snapshot_no_sortition db (parent_snapshot : BlockSnapshot) (block_header : BurnchainBlockHeader)
    (first_block_height burn_total : Z) (sortition_hash : list Z) (txids : list (list Z)) : Res db_error BlockSnapshot :=
  let ops_hash := OpsHash_from_txids txids in
  ch ← from_parent_block_data db ops_hash (wrap 64 (bh_block_height block_header - 1)) first_block_height (bh_parent_block_hash block_header)
         (bh_block_hash block_header) burn_total;
  Ok (mkSnapshot (bh_block_height block_header) (bh_timestamp block_header) (bh_block_hash block_header) (bh_parent_block_hash block_header) ch ops_hash
        burn_total false sortition_hash (replicate 32 0) (replicate 32 0) TrieHash_from_empty_data (num_sortitions parent_snapshot)).
Definition make_snapshot db (burnchain : Burnchain) (parent_snapshot : BlockSnapshot) (block_header : BurnchainBlockHeader)
    (burn_dist : list BurnSamplePoint) (txids : list (list Z)) : Res db_error BlockSnapshot :=
  _ ← rust_assert (bool_decide (sn_burn_header_hash parent_snapshot = bh_parent_block_hash block_header));
  _ ← rust_assert (wrap 64 (sn_block_height parent_snapshot + 1) =? bh_block_height block_header);
  let block_height := bh_block_height block_header in
  let block_hash := bh_block_hash block_header in
  let first_block_height := burnchain_first_block_height burnchain in
  let last_burn_total := total_burn parent_snapshot in
  let next_sortition_hash := mix_burn_header (sortition_hash parent_snapshot) block_hash in
  let no_sortition := make_snapshot_no_sortition db parent_snapshot block_header first_block_height last_burn_total next_sortition_hash txids in
  match burn_dist with
  | [] => no_sortition
  | _ =>
    match get_total_burns burn_dist with
    | None => no_sortition
    | Some block_burn_total =>
      if block_burn_total =? 0 then no_sortition
      else
        match checked_add 64 last_burn_total block_burn_total with
        | None => no_sortition
        | Some next_burn_total =>
          winner ← select_winning_block db block_header next_sortition_hash burn_dist;
          winning_block ← expect_opt winner;
          let final_sortition_hash := mix_VRF_seed next_sortition_hash (new_seed winning_block) in
          let next_ops_hash := OpsHash_from_txids txids in
          next_ch ← from_parent_block_data db next_ops_hash (wrap 64 (block_height - 1)) first_block_height (bh_parent_block_hash block_header)
                      block_hash next_burn_total;
          Ok (mkSnapshot block_height (bh_timestamp block_header) block_hash (bh_parent_block_hash block_header) next_ch next_ops_hash next_burn_total
                true final_sortition_hash (commit_txid winning_block) (block_header_hash winning_block) TrieHash_from_empty_data
                (wrap 64 (num_sortitions parent_snapshot + 1)))
        end
    end
  end.
End sortition.

(** * The ranges of a distribution *)

Definition hash_space : Z := 2 ^ 256 - 1.
Fixpoint burn_sum (sample : list BurnSamplePoint) : Z :=
  match sample with
  | [] => 0
  | p :: sample => burns p + burn_sum sample
  end.
(** Where the range of a candidate ends that has [B] of the burns [T] before or of it. *)
Definition cut (T B : Z) : Z := hash_space * B / T.

Lemma burn_sum_nonneg sample : Forall (fun p => 0 <= burns p) sample -> 0 <= burn_sum sample.
Proof. induction 1; cbn; lia. Qed.
Lemma burn_sum_app s1 s2 : burn_sum (s1 ++ s2) = burn_sum s1 + burn_sum s2.
Proof. induction s1; cbn; lia. Qed.
Lemma burn_sum_take_S i sample p : sample !! i = Some p -> burn_sum (take (S i) sample) = burn_sum (take i sample) + burns p.
Proof. intros H. rewrite (take_S_r _ _ p H), burn_sum_app. cbn. lia. Qed.
Lemma burn_sum_take i j sample :
  Forall (fun p => 0 <= burns p) sample -> (i <= j)%nat -> burn_sum (take i sample) <= burn_sum (take j sample).
Proof.
  intros Hs Hij. rewrite <-(take_drop i (take j sample)), burn_sum_app, take_take, Nat.min_l by done.
  pose proof (burn_sum_nonneg (drop i (take j sample)) ltac:(by apply Forall_drop, Forall_take)). lia.
Qed.

Lemma total_fold sample acc : 0 <= acc -> Forall (fun p => 0 <= burns p) sample -> acc + burn_sum sample < 2 ^ 128 ->
  foldl (fun burns_so_far p => wrap 128 (burns_so_far + burns p)) acc sample = acc + burn_sum sample.
Proof.
  intros Hacc Hs. revert acc Hacc. induction Hs as [|p sample Hp Hs IH]; intros acc Hacc Hb; cbn in *; [lia|].
  pose proof (burn_sum_nonneg _ Hs). rewrite wrap_small by (unfold in_u; lia). rewrite IH by lia. lia.
Qed.
Lemma total_exact sample : Forall (fun p => 0 <= burns p) sample -> burn_sum sample < 2 ^ 64 - 1 -> get_total_burns sample = Some (burn_sum sample).
Proof.
  intros Hs Hb. unfold get_total_burns. rewrite total_fold by (done || lia). rewrite Z.add_0_l. cbv zeta.
  by rewrite (proj2 (Z.leb_gt _ _)) by lia.
Qed.

Lemma cut_mono T B B' : 0 < T -> B <= B' -> cut T B <= cut T B'.
Proof. intros HT HB. apply Z.div_le_mono; [done|]. unfold hash_space. nia. Qed.
Lemma cut_0 T : cut T 0 = 0.
Proof. unfold cut. by rewrite Z.mul_0_r, Zdiv_0_l. Qed.
Lemma cut_all T : 0 < T -> cut T T = hash_space.
Proof. intros HT. apply Z.div_mul. lia. Qed.
(** A range is within one of the share of its burns, in units of the total. *)
Lemma cut_width T B b : 0 < T -> Z.abs ((cut T (B + b) - cut T B) * T - hash_space * b) < T.
Proof.
  intros HT. unfold cut. pose proof (Z.div_mod (hash_space * (B + b)) T ltac:(lia)). pose proof (Z.div_mod (hash_space * B) T ltac:(lia)).
  pose proof (Z.mod_pos_bound (hash_space * (B + b)) T HT). pose proof (Z.mod_pos_bound (hash_space * B) T HT). nia.
Qed.

Lemma share_value {E : Type} acc total :
  words_ok 8 acc -> words_ok 8 total -> 0 < value total < 2 ^ 64 -> value acc <= value total ->
  exists r, share (E:=E) acc total = Ok r /\ words_ok 4 r /\ value r = cut (value total) (value acc).
Proof.
  intros Ha Ht HT Hle. destruct (max_ok 4) as [Hm Hmv]. destruct (from_uint256_ok _ Hm) as [Hx Hxv].
  destruct (uint_mul_value 7 _ _ Hx Ha) as [Hp Hpv]. pose proof (value_bound _ _ Ha) as [Ha0 _].
  rewrite Hxv, Hmv in Hpv. change (width 4 - 1) with hash_space in Hpv.
  rewrite Z.mod_small in Hpv by (unfold hash_space; change (width 8) with (2 ^ 512); nia).
  pose proof (uint_div_value 7 _ _ Hp Ht) as Hd. unfold share.
  destruct (uint_div 8 _ _) as [q| |]; [|done|lia]. destruct Hd as (_ & Hq & Hqv). destruct (to_uint256_ok _ Hq) as [Hr Hrv].
  eexists. split; [reflexivity|]. split; [done|]. rewrite Hrv, Hqv, Hpv. apply Z.mod_small.
  pose proof (cut_mono (value total) 0 (value acc) ltac:(lia) Ha0). pose proof (cut_mono (value total) _ _ ltac:(lia) Hle).
  rewrite cut_0, cut_all in * by lia. unfold cut, hash_space in *. lia.
Qed.

(** [dist] is [sample] with the ranges that start where [B] of the burns are used up. *)
Fixpoint ranged (T B : Z) (sample dist : list BurnSamplePoint) : Prop :=
  match sample, dist with
  | [], [] => True
  | p :: sample, q :: dist =>
    q = set_range p (range_start q) (range_end q) /\ words_ok 4 (range_start q) /\ words_ok 4 (range_end q) /\
    value (range_start q) = cut T B /\ value (range_end q) = cut T (B + burns p) /\ ranged T (B + burns p) sample dist
  | _, _ => False
  end.

Lemma ranges_from_ranged {E : Type} T total rest : words_ok 8 total -> value total = T -> 0 < T < 2 ^ 64 ->
  forall acc B prev, Forall (fun p => 0 <= burns p) rest -> words_ok 8 acc -> value acc = B -> 0 <= B -> B + burn_sum rest <= T ->
  words_ok 4 prev -> value prev = cut T B ->
  exists dist, ranges_from (E:=E) total acc prev rest = Ok dist /\ ranged T B rest dist.
Proof.
  intros Ht HtT HT. induction rest as [|p rest IH]; intros acc B prev Hs Ha HB HB0 Hle Hp Hpv.
  { by exists []. }
  apply Forall_cons in Hs as [Hp0 Hs]. cbn [burn_sum] in Hle. pose proof (burn_sum_nonneg _ Hs).
  destruct (from_u128_ok 6 (burns p) ltac:(unfold in_u; lia)) as [Hw Hwv].
  destruct (uint_add_value 8 _ _ Ha Hw) as [Ha' Hav]. rewrite Hwv, HB, Z.mod_small in Hav by (change (width 8) with (2 ^ 512); lia).
  destruct (share_value (E:=E) _ _ Ha' Ht) as (e & He & Hew & Hev); [lia..|]. rewrite HtT, Hav in Hev.
  destruct (IH _ (B + burns p) e Hs Ha' Hav ltac:(lia) ltac:(lia) Hew Hev) as (dist & Hd & Hr).
  exists (set_range p prev e :: dist). split; [|cbn; by split_and!].
  cbn [ranges_from]. rewrite He. cbn [mbind res_bind]. by rewrite Hd.
Qed.
Lemma make_ranges_ranged {E : Type} sample :
  Forall (fun p => 0 <= burns p) sample -> 0 < burn_sum sample < 2 ^ 64 - 1 ->
  exists dist, make_sortition_ranges (E:=E) sample = Ok dist /\ ranged (burn_sum sample) 0 sample dist.
Proof.
  intros Hs HT. destruct (zero_ok 4) as [Hz Hzv]. destruct sample as [|p [|p' rest]]; [cbn in HT; lia|..].
  - exists [set_range p (uint_zero 4) (uint_max 4)]. split; [done|]. destruct (max_ok 4) as [Hm Hmv]. cbn [burn_sum] in *.
    cbn [ranged]. cbn [range_start range_end set_range]. split_and!; [done..| | |done].
    + by rewrite cut_0.
    + rewrite Hmv. replace (0 + burns p) with (burns p + 0) by lia. by rewrite cut_all by lia.
  - set (sample := p :: p' :: rest) in *. unfold make_sortition_ranges, sample. fold sample. rewrite total_exact by (done || lia). cbn [expect_opt mbind res_bind].
    pose proof (proj1 (Forall_cons _ _ _) Hs) as [Hp0 Hs']. pose proof (burn_sum_nonneg _ Hs').
    assert (HpT : burns p + burn_sum (p' :: rest) = burn_sum sample) by done.
    destruct (from_u128_ok 6 (burn_sum sample) ltac:(unfold in_u; lia)) as [Ht Htv].
    destruct (from_u128_ok 6 (burns p) ltac:(unfold in_u; lia)) as [Hw Hwv].
    destruct (share_value (E:=E) _ _ Hw Ht) as (e & He & Hew & Hev); [lia..|]. rewrite Htv, Hwv in Hev. rewrite He. cbn [mbind res_bind].
    destruct (ranges_from_ranged (E:=E) (burn_sum sample) _ (p' :: rest) Ht Htv ltac:(lia) _ (burns p) e Hs' Hw Hwv ltac:(lia) ltac:(lia) Hew Hev)
      as (dist & Hd & Hr). rewrite Hd. eexists. split; [reflexivity|].
    cbn [ranged]. cbn [range_start range_end set_range]. split_and!; [done..|by rewrite cut_0|by rewrite Z.add_0_l|by rewrite Z.add_0_l].
Qed.

Lemma find_range_ranged {E : Type} T sample w : 0 < T -> words_ok 4 w ->
  forall B k dist, ranged T B sample dist -> cut T B <= value w ->
  match find_range (E:=E) w k dist with
  | Ok j => exists i, j = (k + i)%nat /\ (i < length sample)%nat /\
      cut T (B + burn_sum (take i sample)) <= value w < cut T (B + burn_sum (take (S i) sample))
  | Err _ => False
  | Panic => cut T (B + burn_sum sample) <= value w
  end.
Proof.
  intros HT Hw. induction sample as [|p sample IH]; intros B k [|q dist] Hr Hlo; cbn [ranged] in Hr; try done.
  { cbn. by rewrite Z.add_0_r. }
  destruct Hr as (_ & Hsw & Hew & Hsv & Hev & Hr). cbn [find_range].
  rewrite (uint_leb_value 4), (uint_ltb_value 4), Hsv, Hev by done.
  rewrite (proj2 (Z.leb_le _ _) Hlo), andb_true_l. destruct (Z.ltb_spec (value w) (cut T (B + burns p))) as [Hlt|Hge].
  - exists 0%nat. cbn [take burn_sum length]. rewrite take_0. cbn [burn_sum]. rewrite !Z.add_0_r. split_and!; [lia|lia|done|done].
  - specialize (IH (B + burns p) (S k) dist Hr Hge). destruct (find_range w (S k) dist) as [j| |]; [|done|].
    + destruct IH as (i & -> & Hi & Hb). exists (S i). cbn [take burn_sum length]. rewrite !Z.add_assoc. split_and!; [lia..| |]; apply Hb.
    + cbn [burn_sum]. by rewrite Z.add_assoc.
Qed.

Lemma le_word_u64 bytes i : Forall u8 bytes -> (8 * i + 8 <= length bytes)%nat -> in_u 64 (le_word bytes i).
Proof.
  intros Hb Hi. unfold le_word, in_u. rewrite !Z.shiftl_mul_pow2 by done.
  assert (Hj : forall j, (j < 8)%nat -> 0 <= bytes !!! (8 * i + j)%nat < 256).
  { intros j Hj. destruct (lookup_lt_is_Some_2 bytes (8 * i + j)) as [x Hx]; [lia|].
    rewrite (list_lookup_total_correct _ _ _ Hx). by apply (Forall_lookup_1 _ _ _ _ Hb Hx). }
  pose proof (Hj 0%nat). pose proof (Hj 1%nat). pose proof (Hj 2%nat). pose proof (Hj 3%nat). pose proof (Hj 4%nat). pose proof (Hj 5%nat).
  pose proof (Hj 6%nat). pose proof (Hj 7%nat). lia.
Qed.
Lemma to_uint256_words bytes : Forall u8 bytes -> length bytes = 32%nat -> words_ok 4 (to_uint256 bytes).
Proof. intros Hb Hl. split; [done|]. unfold to_uint256. cbn [seq map]. repeat constructor; apply le_word_u64; (done || lia). Qed.

Section fairness.
Context `{Hsha : !Sha256}.

(** The number that a sortition draws. *)
Definition draw (VRF_seed sortition_hash : list Z) : Z := value (to_uint256 (mix_VRF_seed sortition_hash VRF_seed)).
Lemma draw_bound seed h : words_ok 4 (to_uint256 (mix_VRF_seed h seed)) /\ 0 <= draw seed h <= hash_space.
Proof.
  assert (Hw : words_ok 4 (to_uint256 (mix_VRF_seed h seed))) by (apply to_uint256_words; [apply sha256_u8|apply sha256_length]).
  split; [done|]. pose proof (value_bound _ _ Hw) as Hb. change (width 4) with (2 ^ 256) in Hb. unfold draw, hash_space. lia.
Qed.
Lemma ranged_length T B sample dist : ranged T B sample dist -> length dist = length sample.
Proof. revert B dist. induction sample as [|p sample IH]; intros B [|q dist] H; cbn in *; try done. f_equal. by eapply IH, H. Qed.

(** What a draw selects, for the ranges of [sample]. *)
Lemma sample_ranged {E : Type} sample dist seed h :
  ranged (burn_sum sample) 0 sample dist -> 0 < burn_sum sample ->
  match sample_burn_distribution (E:=E) dist seed h with
  | Ok (Some i) => (i < length sample)%nat /\ (draw seed h <> hash_space ->
      cut (burn_sum sample) (burn_sum (take i sample)) <= draw seed h < cut (burn_sum sample) (burn_sum (take (S i) sample)))
  | Ok None => False
  | Err _ => False
  | Panic => (2 <= length sample)%nat /\ draw seed h = hash_space
  end.
Proof.
  intros Hr HT. destruct (draw_bound seed h) as [Hw Hd]. pose proof (ranged_length _ _ _ _ Hr) as Hl.
  destruct dist as [|q [|q' dist]].
  - destruct sample; [cbn in HT; lia|done].
  - destruct sample as [|p [|]]; try done. split; [cbn; lia|]. intros Hne. cbn [take burn_sum] in *. rewrite cut_0, cut_all by lia. lia.
  - unfold sample_burn_distribution. pose proof (find_range_ranged (E:=E) _ _ _ HT Hw 0 0%nat _ Hr) as Hf. rewrite cut_0 in Hf.
    specialize (Hf (proj1 Hd)). destruct (find_range _ _ _) as [j|e|]; cbn [mbind res_bind]; [|done|].
    + destruct Hf as (i & -> & Hi & Hb). split; [done|]. intros _. exact Hb.
    + rewrite cut_all in Hf by lia. cbn [length] in Hl. split; [lia|]. unfold draw in *. lia.
Qed.

Lemma ranged_fields T B sample dist : ranged T B sample dist -> map (fun q => set_range q [] []) dist = map (fun p => set_range p [] []) sample.
Proof.
  revert B dist. induction sample as [|p sample IH]; intros B [|q dist] H; cbn in *; try done. destruct H as (Hq & _ & _ & _ & _ & H).
  f_equal; [|by eapply IH]. by rewrite Hq.
Qed.
Lemma last_draw {E : Type} sample dist seed h :
  ranged (burn_sum sample) 0 sample dist -> 0 < burn_sum sample -> Forall (fun p => 0 <= burns p) sample -> draw seed h = hash_space ->
  sample_burn_distribution (E:=E) dist seed h = if (length sample =? 1)%nat then Ok (Some 0%nat) else Panic.
Proof.
  intros Hr HT Hs He. pose proof (ranged_length _ _ _ _ Hr) as Hl. destruct dist as [|q [|q' dist]].
  - destruct sample; [cbn in HT; lia|done].
  - by rewrite <-Hl.
  - rewrite <-Hl. unfold sample_burn_distribution. destruct (draw_bound seed h) as [Hw Hd].
    pose proof (find_range_ranged (E:=E) _ _ _ HT Hw 0 0%nat _ Hr) as Hf. rewrite cut_0 in Hf. specialize (Hf (proj1 Hd)).
    destruct (find_range _ _ _) as [j|e|]; [|done..]. exfalso. destruct Hf as (i & _ & Hi & _ & Hb). rewrite Z.add_0_l in Hb.
    pose proof (cut_mono _ _ _ HT (burn_sum_take (S i) (length sample) sample Hs ltac:(lia))) as Hm. rewrite firstn_all, cut_all in Hm by done.
    unfold draw in He. lia.
Qed.

(** Two intervals of one distribution that share a number are the same. *)
Lemma cuts_disjoint sample T i j w :
  Forall (fun p => 0 <= burns p) sample -> 0 < T ->
  cut T (burn_sum (take i sample)) <= w < cut T (burn_sum (take (S i) sample)) ->
  cut T (burn_sum (take j sample)) <= w < cut T (burn_sum (take (S j) sample)) -> i = j.
Proof.
  intros Hs HT Hi Hj.
  destruct (Nat.lt_trichotomy i j) as [H|[H|H]]; [exfalso|done|exfalso];
    [pose proof (cut_mono T _ _ HT (burn_sum_take (S i) j sample Hs H))|pose proof (cut_mono T _ _ HT (burn_sum_take (S j) i sample Hs H))]; lia.
Qed.

(** C20. Sortition is fair.  When a block's candidates burned something and not too
    much, the ranges can be made and only they are filled in; candidate [i] gets the
    numbers between the cuts at the burns before it and with it, as many as its share
    of the burns up to less than one; a draw selects a candidate exactly when it is
    between its cuts, and selects some candidate.  The draw of the last number, all
    ones, selects a sole candidate and panics when there are several. *)
Theorem sortition_fair {E : Type} sample seed h :
  Forall (fun p => 0 <= burns p) sample -> 0 < burn_sum sample < 2 ^ 64 - 1 ->
  let T := burn_sum sample in
  exists dist, make_sortition_ranges (E:=E) sample = Ok dist /\
    map (fun q => set_range q [] []) dist = map (fun p => set_range p [] []) sample /\
    (forall i p, sample !! i = Some p ->
       let lo := cut T (burn_sum (take i sample)) in
       let hi := cut T (burn_sum (take (S i) sample)) in
       Z.abs ((hi - lo) * T - hash_space * burns p) < T /\
       (draw seed h <> hash_space -> sample_burn_distribution (E:=E) dist seed h = Ok (Some i) <-> lo <= draw seed h < hi)) /\
    (draw seed h <> hash_space -> exists i, (i < length sample)%nat /\ sample_burn_distribution (E:=E) dist seed h = Ok (Some i)) /\
    (draw seed h = hash_space -> sample_burn_distribution (E:=E) dist seed h = if (length sample =? 1)%nat then Ok (Some 0%nat) else Panic).
Proof.
  intros Hs HT T. destruct (make_ranges_ranged (E:=E) sample Hs HT) as (dist & Hd & Hr). exists dist. split; [done|].
  split; [by eapply ranged_fields|]. pose proof (sample_ranged (E:=E) _ _ seed h Hr ltac:(lia)) as Hsel. split; [|split].
  - intros i p Hp lo hi. split.
    { unfold lo, hi. rewrite (burn_sum_take_S _ _ _ Hp). apply cut_width. lia. }
    intros Hne. destruct (sample_burn_distribution dist seed h) as [[j|]| |]; [|done..|by destruct Hsel].
    destruct Hsel as [_ Hj]. specialize (Hj Hne). split; [by intros [= <-]|]. intros Hi. do 2 f_equal.
    by eapply (cuts_disjoint sample T); [done|lia|..].
  - intros Hne. destruct (sample_burn_distribution dist seed h) as [[j|]| |]; [|done..|by destruct Hsel]. exists j. naive_solver.
  - intros He. apply last_draw; [done|lia|done|done].
Qed.
End fairness.
