(* ===== verification/BurnChain.v ===== *)
(** The processing of a block of the burn chain (src/burnchains/burnchain.rs): its
    operations are read, checked against the database and filtered, its burn
    distribution is made, and the snapshot with the winner of its sortition is
    appended with the operations that it accepted. *)
From stdpp Require Import base strings numbers list gmap sorting.
From Stdlib Require Import ZArith Lia.
From S2P Require Import Prelude Names Types C32 Natives StacksTypes NetCodec TransactionCodec Signatures Uint BurnOps BurnDB BurnChecks Sortition.
#[local] Open Scope Z_scope.

(** [BurnchainBlock::header]. *)
Definition block_header_of (block : BurnchainBlock) (parent_snapshot : BlockSnapshot) : BurnchainBlockHeader :=
  mkBurnchainHeader (burn_block_height block) (burn_block_hash block) (burn_parent_block_hash block) (index_root parent_snapshot)
    (Z.of_nat (length (burn_txs block))) (burn_timestamp block).

Record BurnchainStateTransition := mkTransition {
  burn_dist : list BurnSamplePoint;
  accepted_ops : list BlockstackOperationType;
  transition_consumed_leader_keys : list LeaderKeyRegisterOp;
}.

Definition ops_are_sorted (ops : list BlockstackOperationType) : bool := in_order op_vtxindex ops.

(** The operations of each kind among the operations of a block. *)
Definition key_ops (ops : list BlockstackOperationType) : list BlockstackOperationType :=
  omap (fun op => match op with LeaderKeyRegister _ => Some op | _ => None end) ops.
Definition key_of (op : BlockstackOperationType) : option LeaderKeyRegisterOp := match op with LeaderKeyRegister op => Some op | _ => None end.
Definition commit_of (op : BlockstackOperationType) : option LeaderBlockCommitOp := match op with LeaderBlockCommit op => Some op | _ => None end.
Definition user_burn_of (op : BlockstackOperationType) : option UserBurnSupportOp := match op with UserBurnSupport op => Some op | _ => None end.
(** The operations that a point of the distribution takes. *)
Definition point_ops (p : BurnSamplePoint) : list BlockstackOperationType :=
  LeaderBlockCommit (candidate p) :: map UserBurnSupport (sample_user_burns p).

(** [filter_block_VRF_dups], given the keys seen before. *)
Fixpoint drop_dups (all_keys : list (list Z)) (ops : list BlockstackOperationType) : list BlockstackOperationType :=
  match ops with
  | [] => []
  | LeaderKeyRegister data :: ops =>
    if decide (public_key data ∈ all_keys) then drop_dups all_keys ops
    else LeaderKeyRegister data :: drop_dups (public_key data :: all_keys) ops
  | op :: ops => op :: drop_dups all_keys ops
  end.
Definition filter_block_VRF_dups {E : Type} (checked_ops : list BlockstackOperationType) : Res E (list BlockstackOperationType) :=
  _ ← rust_assert (ops_are_sorted checked_ops);
  Ok (drop_dups [] checked_ops).

(** The panics of [apply_blockstack_txs_safety_checks]. *)
Fixpoint no_adjacent_dup (ops : list BlockstackOperationType) : bool :=
  match ops with
  | a :: ((b :: _) as rest) => negb (op_vtxindex a =? op_vtxindex b) && no_adjacent_dup rest
  | _ => true
  end.
Definition apply_blockstack_txs_safety_checks {E : Type} (block_height : Z) (blockstack_txs : list BlockstackOperationType) :
    Res E (list BlockstackOperationType) :=
  let blockstack_txs := by_vtx op_vtxindex blockstack_txs in
  _ ← rust_assert (no_adjacent_dup blockstack_txs);
  _ ← rust_assert (forallb (fun tx => op_block_height tx =? block_height) blockstack_txs);
  Ok blockstack_txs.

Section reading.
Context `{Hvrf : !VRFPublicKeys}.

Definition parsed {A E : Type} (m : Res op_error A) (f : A -> BlockstackOperationType) : Res E (option BlockstackOperationType) :=
  match m with
  | Ok op => Ok (Some (f op))
  | Err _ => Ok None
  | Panic => Panic
  end.
Definition classify_transaction {E : Type} (block_header : BurnchainBlockHeader) (burn_tx : BitcoinTransaction) :
    Res E (option BlockstackOperationType) :=
  let height := bh_block_height block_header in
  let hash := bh_block_hash block_header in
  if btc_opcode burn_tx =? OPCODE_LEADER_KEY_REGISTER then parsed (key_parse_from_tx height hash burn_tx) LeaderKeyRegister
  else if btc_opcode burn_tx =? OPCODE_LEADER_BLOCK_COMMIT then parsed (commit_parse_from_tx height hash burn_tx) LeaderBlockCommit
  else if btc_opcode burn_tx =? OPCODE_USER_BURN_SUPPORT then parsed (user_burn_parse_from_tx height hash burn_tx) UserBurnSupport
  else Ok None.
Definition get_blockstack_transactions {E : Type} (block : BurnchainBlock) (block_header : BurnchainBlockHeader) :
    Res E (list BlockstackOperationType) :=
  ops ← mapMR (classify_transaction (E:=E) block_header) (burn_txs block);
  Ok (omap (M:=list) id ops).
End reading.

Section processing.
Context `{Hsecp : !Secp256k1, Hsha : !Sha256, Hhashes : !NativeHashes, Hripemd : !Ripemd160}.
Context {I : Type} `{Hindex : !ForkIndex I}.
Implicit Types (db : BurnDB I).

Definition from_block_ops db (parent_snapshot : BlockSnapshot) (block_ops : list BlockstackOperationType) :
    Res burnchain_error BurnchainStateTransition :=
  let block_commits := omap commit_of block_ops in
  let user_burns := omap user_burn_of block_ops in
  _ ← rust_assert (ops_are_sorted block_ops);
  consumed_leader_keys ← map_err BurnDBError (get_consumed_leader_keys db (sn_burn_header_hash parent_snapshot) block_commits);
  burn_dist ← make_distribution block_commits consumed_leader_keys user_burns;
  Ok (mkTransition burn_dist (by_vtx op_vtxindex (key_ops block_ops ++ mjoin (map point_ops burn_dist))) consumed_leader_keys).

Definition check_transaction db (burnchain : Burnchain) (block_header : BurnchainBlockHeader) (blockstack_op : BlockstackOperationType) :
    Res burnchain_error () :=
  map_err BurnOpError
    match blockstack_op with
    | LeaderKeyRegister op => key_check op burnchain block_header db
    | LeaderBlockCommit op => commit_check op block_header db
    | UserBurnSupport op => user_burn_check op burnchain block_header db
    end.
(** The operations whose check passes. *)
Fixpoint checked_ops db (burnchain : Burnchain) (block_header : BurnchainBlockHeader) (block_ops : list BlockstackOperationType) :
    Res burnchain_error (list BlockstackOperationType) :=
  match block_ops with
  | [] => Ok []
  | blockstack_op :: rest =>
    match check_transaction db burnchain block_header blockstack_op with
    | Panic => Panic
    | Err _ => checked_ops db burnchain block_header rest
    | Ok _ => ret ← checked_ops db burnchain block_header rest; Ok (blockstack_op :: ret)
    end
  end.
Definition check_block_ops db (burnchain : Burnchain) (block_header : BurnchainBlockHeader) (block_ops : list BlockstackOperationType) :
    Res burnchain_error (list BlockstackOperationType) :=
  ret ← checked_ops db burnchain block_header block_ops;
  ret_filtered ← filter_block_VRF_dups ret;
  _ ← rust_assert (ops_are_sorted ret_filtered);
  Ok ret_filtered.

Definition process_checked_block_ops db (burnchain : Burnchain) (parent_snapshot : BlockSnapshot) (block_header : BurnchainBlockHeader)
    (this_block_ops : list BlockstackOperationType) : Res burnchain_error (BurnDB I * BlockSnapshot) :=
  state_transition ← from_block_ops db parent_snapshot this_block_ops;
  let txids := map op_txid (accepted_ops state_transition) in
  snapshot ← map_err BurnDBError (make_snapshot db burnchain parent_snapshot block_header (burn_dist state_transition) txids);
  '(db, index_root) ← expect (append_chain_tip_snapshot db parent_snapshot snapshot (accepted_ops state_transition)
    (transition_consumed_leader_keys state_transition));
  Ok (db, with_root snapshot index_root).
Definition process_block_ops db (burnchain : Burnchain) (parent_snapshot : BlockSnapshot) (block_header : BurnchainBlockHeader)
    (blockstack_txs : list BlockstackOperationType) : Res burnchain_error (BurnDB I * BlockSnapshot) :=
  block_ops ← check_block_ops db burnchain block_header blockstack_txs;
  process_checked_block_ops db burnchain parent_snapshot block_header block_ops.

Definition get_burnchain_block_attachment_info db (block : BurnchainBlock) : Res burnchain_error (BurnchainBlockHeader * BlockSnapshot) :=
  sn ← expect (get_block_snapshot db (burn_parent_block_hash block));
  parent_snapshot ← ok_or sn MissingParentBlock;
  Ok (block_header_of block parent_snapshot, parent_snapshot).
Definition process_block_txs db (parent_snapshot : BlockSnapshot) (this_block_header : BurnchainBlockHeader) (burnchain : Burnchain)
    (blockstack_txs : list BlockstackOperationType) : Res burnchain_error (BurnDB I * BlockSnapshot) :=
  _ ← rust_assert (wrap 64 (sn_block_height parent_snapshot + 1) =? bh_block_height this_block_header);
  _ ← rust_assert (bool_decide (sn_burn_header_hash parent_snapshot = bh_parent_block_hash this_block_header));
  blockstack_txs ← apply_blockstack_txs_safety_checks (bh_block_height this_block_header) blockstack_txs;
  process_block_ops db burnchain parent_snapshot this_block_header blockstack_txs.

Context `{Hvrf : !VRFPublicKeys}.

(** The database after the block; an error leaves it as it was, for the transaction
    is dropped. *)
Definition process_block db (burnchain : Burnchain) (block : BurnchainBlock) : Res burnchain_error (BurnDB I * BlockSnapshot) :=
  '(header, parent_snapshot) ← get_burnchain_block_attachment_info db block;
  blockstack_txs ← get_blockstack_transactions block header;
  process_block_txs db parent_snapshot header burnchain blockstack_txs.
End processing.
