(* ===== verification/BurnSteps.v ===== *)
(** What the steps of the processing of a burn block return: the operations that are
    read and filtered, the distribution, the snapshot, and the rows that are stored. *)
From stdpp Require Import base strings numbers list gmap sorting.
From Stdlib Require Import ZArith Lia.
From S2P Require Import Prelude Names Types Hex C32 Natives StacksTypes NetCodec TransactionCodec Signatures Uint BurnOps BurnDB BurnChecks Sortition BurnChain.
#[local] Open Scope Z_scope.

Lemma rust_assert_Ok {E} b x : rust_assert (E:=E) b = Ok x -> b = true.
Proof. by destruct b. Qed.
Lemma expect_opt_Ok {E A} (m : option A) a : expect_opt (E:=E) m = Ok a -> m = Some a.
Proof. destruct m; cbn; [by intros [= ->]|done]. Qed.

(** * Reading *)

(** What the type of bytes gives of a block and of an operation. *)
Definition block_bytes (block : BurnchainBlock) : Prop :=
  Forall u8 (burn_block_hash block) /\ length (burn_block_hash block) = 32%nat /\ Forall (fun tx => Forall u8 (btc_data tx)) (burn_txs block).
Definition op_bytes (op : BlockstackOperationType) : Prop :=
  match op with
  | LeaderKeyRegister k => Forall u8 (public_key k)
  | LeaderBlockCommit c => Forall u8 (block_header_hash c)
  | UserBurnSupport _ => True
  end.

Section reading_facts.
Context `{Hvrf : !VRFPublicKeys}.

Lemma slice_bytes a b data : Forall u8 data -> Forall u8 (slice a b data).
Proof. intros H. by apply Forall_take, Forall_drop. Qed.
Lemma VRFPublicKey_from_bytes_Some bytes pk : VRFPublicKey_from_bytes bytes = Some pk -> pk = bytes.
Proof. unfold VRFPublicKey_from_bytes. destruct (_ =? _)%nat; [|done]. destruct (decompresses bytes); [by intros [= <-]|done]. Qed.

Lemma key_read height hash tx k : key_parse_from_tx height hash tx = Ok k ->
  key_burn_header_hash k = hash /\ (Forall u8 (btc_data tx) -> Forall u8 (public_key k)).
Proof.
  unfold key_parse_from_tx. intros (outs & _ & H)%bind_Ok. destruct (get_signers tx), outs; try done. destruct (negb _); [done|].
  unfold key_parse_data in H. destruct (_ <? _)%nat; [done|]. destruct (VRFPublicKey_from_bytes _) as [pk|] eqn:Hpk; [|done].
  injection H as <-. split; [done|]. intros Hb. apply VRFPublicKey_from_bytes_Some in Hpk as ->. by apply slice_bytes.
Qed.
Lemma commit_read height hash tx c : commit_parse_from_tx height hash tx = Ok c ->
  commit_burn_header_hash c = hash /\ (Forall u8 (btc_data tx) -> Forall u8 (block_header_hash c)).
Proof.
  unfold commit_parse_from_tx. intros (outs & _ & H)%bind_Ok. destruct (get_signers tx), outs; try done.
  destruct (negb _); [done|]. destruct (negb _); [done|]. destruct (_ =? _); [done|]. apply bind_Ok in H as (parsed & Hp & H).
  unfold commit_parse_data in Hp. destruct (_ <? _)%nat; [by injection Hp as <-|].
  repeat (apply bind_Ok in Hp as (? & ? & Hp)). injection Hp as <-.
  repeat (destruct (_ && _) in H || destruct (_ <=? _) in H || destruct (_ =? _) in H; try done).
  all: injection H as <-; split; [done|]; intros Hb; by apply slice_bytes.
Qed.
Lemma user_burn_read height hash tx u : user_burn_parse_from_tx height hash tx = Ok u -> user_burn_header_hash u = hash.
Proof.
  unfold user_burn_parse_from_tx. intros (outs & _ & H)%bind_Ok. destruct (_ || _); [done|]. destruct outs as [|o [|o' outs]]; try done.
  destruct (negb _); [done|]. destruct (negb _); [done|]. apply bind_Ok in H as ([[[[[? ?] ?] ?] ?]|] & _ & H); [|done].
  destruct (_ =? _); [done|]. destruct (_ <? _); [done|]. by injection H as <-.
Qed.
Lemma classified {E : Type} header tx op : classify_transaction (E:=E) header tx = Ok (Some op) ->
  op_burn_header_hash op = bh_block_hash header /\ (Forall u8 (btc_data tx) -> op_bytes op).
Proof.
  unfold classify_transaction, parsed. destruct (_ =? _); [|destruct (_ =? _); [|destruct (_ =? _); [|done]]].
  - destruct (key_parse_from_tx _ _ _) eqn:H; [|done..]. intros [= <-]. by apply key_read in H.
  - destruct (commit_parse_from_tx _ _ _) eqn:H; [|done..]. intros [= <-]. by apply commit_read in H.
  - destruct (user_burn_parse_from_tx _ _ _) eqn:H; [|done..]. intros [= <-]. by apply user_burn_read in H.
Qed.
Lemma block_ops_read {E : Type} block header ops : block_bytes block ->
  get_blockstack_transactions (E:=E) block header = Ok ops -> Forall (fun op => op_burn_header_hash op = bh_block_hash header /\ op_bytes op) ops.
Proof.
  intros (_ & _ & Hb). unfold get_blockstack_transactions. intros (opts & Hm & H)%bind_Ok. injection H as <-. apply mapMR_Ok_Forall2 in Hm.
  induction Hm as [|tx opt txs opts Hc _ IH]; [constructor|]. apply Forall_cons in Hb as [Htx Hb]. specialize (IH Hb).
  destruct opt as [op|]; cbn; [|done]. constructor; [|done]. apply classified in Hc as [? ?]. naive_solver.
Qed.
End reading_facts.

(** * Filtering *)

Lemma in_order_sorted {A} (vtx : A -> Z) rows : in_order vtx rows = true -> StronglySorted Z.lt (map vtx rows).
Proof.
  intros H. apply Sorted_StronglySorted; [intros ? ? ?; lia|]. induction rows as [|a [|b rows] IH]; [by repeat constructor..|].
  cbn [in_order] in H. apply andb_prop in H as [Hab H]. apply Z.ltb_lt in Hab. constructor; [by apply IH|]. by constructor.
Qed.
Lemma StronglySorted_lt_NoDup l : StronglySorted Z.lt l -> NoDup l.
Proof.
  induction 1 as [|x l _ IH Hx]; constructor; [|done]. intros Hin. pose proof (proj1 (Forall_forall _ _) Hx x Hin). lia.
Qed.
Lemma in_order_NoDup {A} (vtx : A -> Z) rows : in_order vtx rows = true -> NoDup (map vtx rows).
Proof. intros H. by apply StronglySorted_lt_NoDup, in_order_sorted. Qed.

Lemma drop_dups_sublist all_keys ops : sublist (drop_dups all_keys ops) ops.
Proof.
  revert all_keys. induction ops as [|[k|c|u] ops IH]; intros all_keys; cbn; [constructor| |by constructor..].
  destruct (decide _); by constructor.
Qed.
Lemma drop_dups_keys all_keys ops :
  let ks := omap (fun op => match op with LeaderKeyRegister k => Some (public_key k) | _ => None end) (drop_dups all_keys ops) in
  NoDup ks /\ Forall (fun pk => pk ∉ all_keys) ks.
Proof.
  revert all_keys. induction ops as [|[k|c|u] ops IH]; intros all_keys; cbn; [by repeat constructor| |by apply IH..].
  destruct (decide _) as [Hin|Hout]; [by apply IH|]. destruct (IH (public_key k :: all_keys)) as [Hnd Hout']. cbn. split.
  - constructor; [|done]. intros Hin. pose proof (proj1 (Forall_forall _ _) Hout' _ Hin) as Hne. apply Hne. by left.
  - constructor; [done|]. eapply Forall_impl; [apply Hout'|]. intros pk Hpk Hin. apply Hpk. by right.
Qed.

Section filtering.
Context `{Hsecp : !Secp256k1, Hsha : !Sha256, Hhashes : !NativeHashes, Hripemd : !Ripemd160}.
Context {I : Type} `{Hindex : !ForkIndex I}.
Implicit Types (db : BurnDB I).

Lemma checked_ops_Ok db burnchain header ops ret : checked_ops db burnchain header ops = Ok ret ->
  sublist ret ops /\ Forall (fun op => check_transaction db burnchain header op = Ok ()) ret.
Proof.
  revert ret. induction ops as [|op ops IH]; cbn; intros ret; [by intros [= <-]|]. destruct (check_transaction _ _ _ op) as [[]| |] eqn:Hc; [| |done].
  - intros (ret' & H & [= <-])%bind_Ok. destruct (IH _ H). split; by constructor.
  - intros H. destruct (IH _ H). split; [by constructor|done].
Qed.
(** What passes the checks of a block. *)
Lemma check_block_ops_Ok db burnchain header ops ret : check_block_ops db burnchain header ops = Ok ret ->
  sublist ret ops /\ Forall (fun op => check_transaction db burnchain header op = Ok ()) ret /\ NoDup (map op_vtxindex ret) /\
  NoDup (omap (fun op => match op with LeaderKeyRegister k => Some (public_key k) | _ => None end) ret).
Proof.
  unfold check_block_ops, filter_block_VRF_dups. intros (ret1 & H1 & H)%bind_Ok. apply bind_Ok in H as (ret2 & H2 & H).
  apply bind_Ok in H2 as (? & _ & [= <-]). apply bind_Ok in H as (? & Hs & [= <-]). apply rust_assert_Ok in Hs.
  apply checked_ops_Ok in H1 as [Hsub Hall]. pose proof (drop_dups_sublist [] ret1) as Hsub'. split_and!.
  - by etrans.
  - rewrite Forall_forall in *. intros op Hop. apply Hall. by eapply elem_of_submseteq, sublist_submseteq.
  - by apply in_order_NoDup.
  - apply (drop_dups_keys [] ret1).
Qed.
End filtering.

(** * Distributions *)

Lemma index_from_Ok {E A K : Type} `{Countable K} (loc : A -> K) rows : forall i m m', index_from (E:=E) loc i m rows = Ok m' ->
  NoDup (map loc rows) /\ Forall (fun row => m !! loc row = None) rows /\
  forall x j, m' !! x = Some j -> m !! x = Some j \/ (exists row, (i <= j)%nat /\ rows !! (j - i)%nat = Some row /\ loc row = x).
Proof.
  induction rows as [|row rows IH]; cbn; intros i m m'; [intros [= <-]; split_and!; [constructor..|by left]|].
  destruct (m !! loc row) eqn:Hm; [done|]. intros Hi. destruct (IH _ _ _ Hi) as (Hnd & Hnone & Hl). split_and!.
  - constructor; [|done]. intros (row' & Heq & Hin)%list_elem_of_fmap. pose proof (proj1 (Forall_forall _ _) Hnone _ Hin) as Hn. cbn in Hn.
    by rewrite <-Heq, lookup_insert_eq in Hn.
  - constructor; [done|]. eapply Forall_impl; [apply Hnone|]. intros row' Hr. by apply lookup_insert_None in Hr as [? _].
  - intros x j [Hx|(row' & Hij & Hr & <-)]%Hl.
    + apply lookup_insert_Some in Hx as [[<- <-]|[_ Hx]]; [|by left]. right. exists row. by rewrite Nat.sub_diag.
    + right. exists row'. split_and!; [lia| |done]. by replace (j - i)%nat with (S (j - S i)) by lia.
Qed.

Lemma take_candidates_Ok {E : Type} keys cands : forall key_index points, take_candidates (E:=E) keys key_index cands = Ok points ->
  sublist (map candidate points) cands /\ Forall (fun p => burns p = commit_burn_fee (candidate p) /\ sample_user_burns p = []) points.
Proof.
  induction cands as [|bc cands IH]; cbn; intros key_index points; [intros [= <-]; by split|]. destruct (key_index !! commit_key_loc bc) as [i|].
  - intros (key & _ & H)%bind_Ok. apply bind_Ok in H as (rest & Hr & [= <-]). destruct (IH _ _ Hr) as [Hs Hf]. cbn. split; by constructor.
  - intros H. destruct (IH _ _ H). split; [by constructor|done].
Qed.
Lemma take_candidates_all {E : Type} keys cands : forall key_index points, take_candidates (E:=E) keys key_index cands = Ok points ->
  NoDup (map commit_key_loc cands) -> Forall (fun bc => is_Some (key_index !! commit_key_loc bc)) cands -> map candidate points = cands.
Proof.
  induction cands as [|bc cands IH]; cbn; intros key_index points; [by intros [= <-]|]. intros H [Hout Hnd]%NoDup_cons [[i Hi] Hf]%Forall_cons.
  rewrite Hi in H. apply bind_Ok in H as (key & _ & H). apply bind_Ok in H as (rest & Hr & [= <-]). cbn. f_equal. apply (IH _ _ Hr Hnd).
  rewrite Forall_forall in *. intros bc' Hin. rewrite lookup_delete_ne; [by apply Hf|]. intros Heq. apply Hout. rewrite Heq. by apply list_elem_of_fmap_2.
Qed.

(** What user burns leave of the points: the candidates, the ranges, and that the
    burns of a point are those of its commit and its users. *)
Definition user_fees (us : list UserBurnSupportOp) : Z := foldr (fun u acc => user_burn_fee u + acc) 0 us.
Definition point_burns (p : BurnSamplePoint) : Prop := burns p = wrap 128 (commit_burn_fee (candidate p) + user_fees (sample_user_burns p)).
Lemma user_fees_app us us' : user_fees (us ++ us') = user_fees us + user_fees us'.
Proof. unfold user_fees. induction us as [|u us IH]; cbn; [done|]. rewrite IH. lia. Qed.
Lemma add_user_burn_burns u p : point_burns p -> point_burns (add_user_burn u p).
Proof.
  unfold point_burns. cbn. intros ->. rewrite user_fees_app. cbn. unfold wrap. rewrite Zplus_mod_idemp_l. f_equal. lia.
Qed.
Lemma alter_points u i points :
  map candidate (alter (add_user_burn u) i points) = map candidate points /\
  (Forall point_burns points -> Forall point_burns (alter (add_user_burn u) i points)) /\
  (mjoin (map sample_user_burns (alter (add_user_burn u) i points)) ⊆+ mjoin (map sample_user_burns points) ++ [u]).
Proof.
  revert i. induction points as [|p points IH]; intros [|i]; cbn.
  - split_and!; [done..|apply submseteq_nil_l].
  - split_and!; [done..|apply submseteq_nil_l].
  - split_and!; [done| |].
    + intros [Hp Hf]%Forall_cons. constructor; [by apply add_user_burn_burns|done].
    + rewrite <-!(assoc_L (++)). apply submseteq_app; [done|]. by rewrite (comm (++)).
  - destruct (IH i) as (Hc & Hb & Hu). split_and!.
    + by rewrite Hc.
    + intros [Hp Hf]%Forall_cons. constructor; [done|by apply Hb].
    + rewrite <-(assoc_L (++)). by apply submseteq_app.
Qed.
Section user_burns.
Context `{Hripemd : !Ripemd160}.
Lemma apply_user_burns_Ok {E : Type} points us points' : apply_user_burns (E:=E) points us = Ok points' ->
  map candidate points' = map candidate points /\ (Forall point_burns points -> Forall point_burns points') /\
  mjoin (map sample_user_burns points') ⊆+ mjoin (map sample_user_burns points) ++ us.
Proof.
  unfold apply_user_burns. intros (index & _ & H)%bind_Ok. injection H as <-. revert points.
  induction us as [|u us IH]; intros points; cbn [foldl].
  - split_and!; [done..|by rewrite app_nil_r].
  - destruct (index !! _) as [i|].
    + destruct (IH (alter (add_user_burn u) i points)) as (Hc & Hb & Hu). destruct (alter_points u i points) as (Hc' & Hb' & Hu').
      split_and!; [by rewrite Hc|naive_solver|]. etrans; [apply Hu|]. rewrite (assoc_L (++) _ [u] us). by apply submseteq_app.
    + destruct (IH points) as (Hc & Hb & Hu). split_and!; [done..|]. etrans; [apply Hu|]. apply submseteq_app; [done|]. by apply submseteq_cons.
Qed.

Lemma ranges_from_fields {E : Type} total rest : forall acc prev points, ranges_from (E:=E) total acc prev rest = Ok points ->
  map (fun q => set_range q [] []) points = map (fun p => set_range p [] []) rest.
Proof.
  induction rest as [|p rest IH]; intros acc prev points; cbn [ranges_from map]; [by intros [= <-]|]. generalize (uint_add 8 acc (uint_from_u128 8 (burns p))) as acc'.
  intros acc' (e & _ & H)%bind_Ok. apply bind_Ok in H as (points' & H & H'). apply Ok_inj in H' as <-. cbn [map]. f_equal. by eapply IH.
Qed.
Lemma make_ranges_fields {E : Type} sample dist : make_sortition_ranges (E:=E) sample = Ok dist ->
  map (fun q => set_range q [] []) dist = map (fun p => set_range p [] []) sample.
Proof.
  destruct sample as [|p [|p' rest]]; [by intros [= <-]..|]. unfold make_sortition_ranges. intros (total & _ & H)%bind_Ok.
  apply bind_Ok in H as (e & _ & H). apply bind_Ok in H as (points & Hp & [= <-]). apply ranges_from_fields in Hp. cbn [map] in *. by rewrite Hp.
Qed.
End user_burns.

Section transition.
Context `{Hsecp : !Secp256k1, Hsha : !Sha256, Hhashes : !NativeHashes, Hripemd : !Ripemd160}.
Context {I : Type} `{Hindex : !ForkIndex I}.
Implicit Types (db : BurnDB I).

Lemma fields_of_ranges {A} (g : BurnSamplePoint -> A) dist sample :
  (forall p, g (set_range p [] []) = g p) -> map (fun q => set_range q [] []) dist = map (fun p => set_range p [] []) sample -> map g dist = map g sample.
Proof.
  intros Hg. revert sample. induction dist as [|q dist IH]; intros [|p sample] H; cbn [map] in *; try done. injection H as E1 E2 E3 E4 H.
  f_equal; [|by apply IH]. rewrite <-(Hg q), <-(Hg p). unfold set_range. congruence.
Qed.
Lemma no_user_burns sample :
  Forall (fun p => burns p = commit_burn_fee (candidate p) /\ sample_user_burns p = []) sample -> mjoin (map sample_user_burns sample) = [].
Proof. induction 1 as [|p sample [_ Hp] _ IH]; cbn; [done|]. rewrite Hp. exact IH. Qed.
Lemma initial_burns sample : Forall (fun c => in_u 64 (commit_burn_fee c)) (map candidate sample) ->
  Forall (fun p => burns p = commit_burn_fee (candidate p) /\ sample_user_burns p = []) sample -> Forall point_burns sample.
Proof.
  rewrite Forall_map. intros Hf Hp. apply Forall_forall. intros p Hin. rewrite Forall_forall in Hf, Hp. destruct (Hp p Hin) as [Hb Hu].
  specialize (Hf p Hin). cbn in Hf. unfold in_u in Hf. unfold point_burns. rewrite Hu, Hb. cbn. rewrite Z.add_0_r, wrap_small; [done|]. unfold in_u. lia.
Qed.
Lemma ranges_keep_burns dist sample : map (fun q => set_range q [] []) dist = map (fun p => set_range p [] []) sample -> Forall point_burns sample -> Forall point_burns dist.
Proof.
  revert sample. induction dist as [|q dist IH]; intros [|p sample] H Hf; cbn [map] in *; try done. apply Forall_cons in Hf as [Hp Hf].
  injection H as E1 E2 _ E4 H. constructor; [|by eapply IH]. unfold point_burns in *. by rewrite E1, E2, E4.
Qed.
(** A distribution has one point for each commit, in order; no two commits use the
    same key. *)
Lemma make_distribution_Ok {E : Type} commits keys us dist : make_distribution (E:=E) commits keys us = Ok dist ->
  Forall2 (fun c k => key_loc k = commit_key_loc c) commits keys ->
  NoDup (map commit_key_loc commits) /\ map candidate dist = commits /\ mjoin (map sample_user_burns dist) ⊆+ us /\
  (Forall (fun c => in_u 64 (commit_burn_fee c)) commits -> Forall point_burns dist).
Proof.
  intros H Hlocs. unfold make_distribution in H. destruct commits as [|c commits'] eqn:Ec.
  { injection H as <-. split_and!; [constructor|done|apply submseteq_nil_l|constructor]. }
  rewrite <-Ec in *. clear c commits' Ec. apply bind_Ok in H as (? & _ & H). apply bind_Ok in H as (kidx & Hk & H).
  apply bind_Ok in H as (? & Ha & H). apply bind_Ok in H as (sample & Hs & H). apply bind_Ok in H as (sample' & Hu & H).
  apply index_from_Ok in Hk as (Hnd & _ & _).
  assert (Heq : map commit_key_loc commits = map key_loc keys) by (clear -Hlocs; induction Hlocs; cbn; congruence).
  rewrite <-Heq in Hnd. split; [done|].
  assert (Hall : map candidate sample = commits).
  { eapply take_candidates_all; [done..|]. apply Forall_forall. intros c Hc. apply rust_assert_Ok in Ha. rewrite forallb_forall in Ha.
    specialize (Ha c ltac:(by apply list_elem_of_In)). by apply bool_decide_eq_true in Ha. }
  apply take_candidates_Ok in Hs as [_ Hinit]. apply apply_user_burns_Ok in Hu as (Hc & Hb & Hus). apply make_ranges_fields in H. split_and!.
  - by rewrite (fields_of_ranges candidate _ _ ltac:(done) H), Hc.
  - rewrite (fields_of_ranges sample_user_burns _ _ ltac:(done) H). rewrite (no_user_burns _ Hinit) in Hus. exact Hus.
  - intros Hfees. eapply ranges_keep_burns; [done|]. apply Hb, initial_burns; [by rewrite Hall|done].
Qed.
Lemma burn_sum_burns s s' : map burns s = map burns s' -> burn_sum s = burn_sum s'.
Proof. revert s'. induction s as [|p s IH]; intros [|p' s'] H; cbn in *; try done. injection H as -> H. by rewrite (IH _ H). Qed.
Lemma point_burns_nonneg dist : Forall point_burns dist -> Forall (fun p => 0 <= burns p) dist.
Proof. intros H. eapply Forall_impl; [apply H|]. intros p ->. by apply Z.mod_pos_bound. Qed.
Lemma make_distribution_ranged {E : Type} commits keys us dist : make_distribution (E:=E) commits keys us = Ok dist ->
  Forall2 (fun c k => key_loc k = commit_key_loc c) commits keys -> Forall (fun c => in_u 64 (commit_burn_fee c)) commits ->
  0 < burn_sum dist < 2 ^ 64 - 1 -> exists sample, burn_sum sample = burn_sum dist /\ ranged (burn_sum sample) 0 sample dist.
Proof.
  intros H Hlocs Hfees Hsum. destruct (make_distribution_Ok _ _ _ _ H Hlocs) as (_ & _ & _ & Hb). specialize (Hb Hfees).
  unfold make_distribution in H. destruct commits; [injection H as <-; cbn in Hsum; lia|].
  do 4 (apply bind_Ok in H as (? & ? & H)). apply bind_Ok in H as (sample & _ & H). pose proof (make_ranges_fields _ _ H) as Hf. apply (fields_of_ranges burns _ _ ltac:(done)) in Hf.
  exists sample. pose proof (burn_sum_burns _ _ Hf) as Heq. split; [by symmetry|]. rewrite Heq in Hsum.
  destruct (make_ranges_ranged (E:=E) sample) as (dist' & Hd & Hr); [|done|rewrite H in Hd; by injection Hd as ->].
  apply point_burns_nonneg in Hb. apply Forall_forall. intros p Hp. apply (list_elem_of_fmap_2 burns) in Hp. change (burns <$> sample) with (map burns sample) in Hp.
  rewrite <-Hf in Hp. apply list_elem_of_fmap in Hp as (q & -> & Hq). by apply (proj1 (Forall_forall _ _) Hb).
Qed.

Lemma ops_split ops :
  ops ≡ₚ key_ops ops ++ map LeaderBlockCommit (omap commit_of ops) ++ map UserBurnSupport (omap user_burn_of ops).
Proof.
  induction ops as [|[k|c|u] ops IH]; cbn; [done|..].
  - by constructor.
  - rewrite IH at 1. by rewrite <-Permutation_middle.
  - rewrite IH at 1. by rewrite !(assoc_L (++)), <-Permutation_middle.
Qed.
Lemma points_split dist :
  mjoin (map point_ops dist) ≡ₚ map LeaderBlockCommit (map candidate dist) ++ map UserBurnSupport (mjoin (map sample_user_burns dist)).
Proof.
  induction dist as [|p dist IH]; [done|]. cbn. rewrite map_app. constructor. rewrite IH, !(assoc_L (++)). apply Permutation_app; [|done]. apply (comm _).
Qed.
Lemma key_ops_keys ops : omap key_of (key_ops ops) = omap key_of ops /\ omap commit_of (key_ops ops) = [].
Proof. induction ops as [|[k|c|u] ops [IH IH']]; csimpl; [done|by rewrite IH|done..]. Qed.
Lemma point_ops_kinds cs us :
  omap key_of (map LeaderBlockCommit cs ++ map UserBurnSupport us) = [] /\ omap commit_of (map LeaderBlockCommit cs ++ map UserBurnSupport us) = cs.
Proof.
  rewrite !omap_app. assert (Hu : omap key_of (map UserBurnSupport us) = [] /\ omap commit_of (map UserBurnSupport us) = []) by (induction us; naive_solver).
  destruct Hu as [-> ->]. rewrite !app_nil_r. induction cs as [|c cs [IH1 IH2]]; cbn; [done|]. by rewrite IH2.
Qed.
#[local] Instance omap_perm {A B} (f : A -> option B) : Proper ((≡ₚ) ==> (≡ₚ)) (omap (M:=list) f).
Proof.
  intros l1 l2. induction 1 as [|x l1 l2 _ IH|x y l|l1 l2 l3 _ IH1 _ IH2]; cbn; [done|destruct (f x); by rewrite IH| |by etrans].
  destruct (f x), (f y); [apply Permutation_swap|done..].
Qed.

Lemma get_leader_key_at_Some db h v tip k : get_leader_key_at db h v tip = Ok (Some k) -> k ∈ leader_keys db /\ key_loc k = (h, v).
Proof.
  unfold get_leader_key_at. intros (? & _ & H)%bind_Ok. apply bind_Ok in H as (anc & _ & H). destruct anc as [sn|]; [|done].
  apply bind_Ok in H as (h' & Hh & H). unfold sql_u64 in Hh. destruct (_ <? h); [done|]. injection Hh as <-.
  destruct (filter _ _) as [|k' [|]] eqn:Hf; [done| |done]. injection H as ->.
  assert (Hin : k ∈ [k]) by by left. rewrite <-Hf in Hin. apply list_elem_of_filter in Hin as [(_ & <- & <-) Hin]. done.
Qed.
(** What a state transition accepts: all keys and commits of the operations, and some
    of the user burns, each once. *)
Lemma from_block_ops_Ok db parent ops st : from_block_ops db parent ops = Ok st ->
  Forall2 (fun c k => get_leader_key_at db (key_block_ptr c) (key_vtxindex c) (sn_burn_header_hash parent) = Ok (Some k))
    (omap commit_of ops) (transition_consumed_leader_keys st) /\
  NoDup (map commit_key_loc (omap commit_of ops)) /\ map candidate (burn_dist st) = omap commit_of ops /\
  (Forall (fun c => in_u 64 (commit_burn_fee c)) (omap commit_of ops) -> Forall point_burns (burn_dist st)) /\
  accepted_ops st ⊆+ ops /\ omap key_of (accepted_ops st) ≡ₚ omap key_of ops /\ omap commit_of (accepted_ops st) ≡ₚ omap commit_of ops.
Proof.
  unfold from_block_ops. intros (? & _ & H)%bind_Ok. apply bind_Ok in H as (keys & Hk%map_err_inv & H). apply bind_Ok in H as (dist & Hd & [= <-]).
  cbn [burn_dist accepted_ops transition_consumed_leader_keys]. apply mapMR_Ok_Forall2 in Hk.
  assert (Hkeys : Forall2 (fun c k => get_leader_key_at db (key_block_ptr c) (key_vtxindex c) (sn_burn_header_hash parent) = Ok (Some k)) (omap commit_of ops) keys).
  { eapply Forall2_impl; [apply Hk|]. intros c k (key & Hg & He%expect_opt_Ok)%bind_Ok. by subst. }
  apply make_distribution_Ok in Hd as (Hnd & Hc & Hu & Hb).
  2: { eapply Forall2_impl; [apply Hkeys|]. intros c k Hg. by apply get_leader_key_at_Some in Hg as [_ ?]. }
  assert (Hperm : by_vtx op_vtxindex (key_ops ops ++ mjoin (map point_ops dist)) ≡ₚ
    key_ops ops ++ map LeaderBlockCommit (omap commit_of ops) ++ map UserBurnSupport (mjoin (map sample_user_burns dist))).
  { unfold by_vtx. by rewrite merge_sort_Permutation, points_split, Hc. }
  split_and!; [done..| | |].
  - etrans; [apply Permutation_submseteq, Hperm|]. etrans; [|apply Permutation_submseteq; symmetry; apply ops_split]. do 2 (apply submseteq_app; [done|]). by apply fmap_submseteq.
  - rewrite Hperm, omap_app. by rewrite (proj1 (key_ops_keys ops)), (proj1 (point_ops_kinds _ _)), app_nil_r.
  - rewrite Hperm, omap_app. by rewrite (proj2 (key_ops_keys ops)), (proj2 (point_ops_kinds _ _)).
Qed.
End transition.

(** * Snapshots and rows *)

Section storing.
Context `{Hsecp : !Secp256k1, Hsha : !Sha256, Hhashes : !NativeHashes, Hripemd : !Ripemd160}.
Context {I : Type} `{Hindex : !ForkIndex I}.
Implicit Types (db : BurnDB I).

Lemma select_winning_block_Ok db header h dist w : select_winning_block db header h dist = Ok (Some w) -> exists p, p ∈ dist /\ candidate p = w.
Proof.
  unfold select_winning_block. intros (seed & _ & H)%bind_Ok. apply bind_Ok in H as (idx & _ & H). destruct idx as [i|]; [|done].
  apply bind_Ok in H as (p & Hp%expect_opt_Ok & [= <-]). exists p. split; [by eapply list_elem_of_lookup_2|done].
Qed.
Definition snapshot_of (header : BurnchainBlockHeader) (parent sn : BlockSnapshot) (dist : list BurnSamplePoint) : Prop :=
  sn_block_height sn = bh_block_height header /\ sn_burn_header_hash sn = bh_block_hash header /\
  sn_parent_burn_header_hash sn = bh_parent_block_hash header /\
  if sortition sn
  then exists p, p ∈ dist /\ winning_block_txid sn = commit_txid (candidate p) /\ winning_stacks_block_hash sn = block_header_hash (candidate p)
  else winning_stacks_block_hash sn = replicate 32 0.
Lemma no_sortition_Ok db parent header first total h txids sn dist :
  make_snapshot_no_sortition db parent header first total h txids = Ok sn -> snapshot_of header parent sn dist.
Proof. unfold make_snapshot_no_sortition. intros (ch & _ & [= <-])%bind_Ok. by split_and!. Qed.
Lemma make_snapshot_Ok db burnchain parent header dist txids sn : make_snapshot db burnchain parent header dist txids = Ok sn ->
  snapshot_of header parent sn dist.
Proof.
  unfold make_snapshot. intros (? & _ & H)%bind_Ok. apply bind_Ok in H as (? & _ & H). destruct dist as [|p dist]; [by eapply no_sortition_Ok|].
  destruct (get_total_burns _) as [total|]; [|by eapply no_sortition_Ok]. destruct (total =? 0); [by eapply no_sortition_Ok|].
  destruct (checked_add _ _ _) as [next|]; [|by eapply no_sortition_Ok]. apply bind_Ok in H as (winner & Hw & H).
  apply bind_Ok in H as (w & He%expect_opt_Ok & H). subst winner. apply bind_Ok in H as (ch & _ & [= <-]).
  apply select_winning_block_Ok in Hw as (q & Hq & <-). split_and!; [done..|]. by exists q.
Qed.

Lemma store_Ok db op db' : store_burnchain_transaction db op = Ok db' ->
  snapshots db' = snapshots db /\ index db' = index db /\ first_block_height db' = first_block_height db /\
  leader_keys db' = leader_keys db ++ option_list (key_of op) /\ block_commits db' = block_commits db ++ option_list (commit_of op) /\
  (NoDup (map (fun c => (commit_txid c, commit_burn_header_hash c)) (block_commits db)) ->
   NoDup (map (fun c => (commit_txid c, commit_burn_header_hash c)) (block_commits db'))).
Proof.
  destruct op as [k|c|u]; cbn [store_burnchain_transaction key_of commit_of option_list]; intros H%expect_inv.
  all: apply bind_Ok in H as (? & _ & H); apply bind_Ok in H as (? & _ & H); destruct (existsb _ _) eqn:He; [done|]; injection H as <-; cbn.
  all: rewrite ?app_nil_r; split_and!; try done.
  intros Hnd. rewrite map_app. apply NoDup_app. split_and!; [done| |apply NoDup_singleton]. intros y Hx Hx'.
  apply list_elem_of_singleton in Hx' as ->. apply list_elem_of_fmap in Hx as (c' & Heq & Hin). injection Heq as E1 E2.
  assert (existsb (fun c0 => bool_decide (commit_txid c0 = commit_txid c /\ commit_burn_header_hash c0 = commit_burn_header_hash c)) (block_commits db) = true);
    [|congruence]. apply existsb_exists. exists c'. split; [by apply list_elem_of_In|]. by apply bool_decide_eq_true.
Qed.
Lemma store_all_Ok ops : forall db db', foldM store_burnchain_transaction db ops = Ok db' ->
  snapshots db' = snapshots db /\ index db' = index db /\ first_block_height db' = first_block_height db /\
  leader_keys db' = leader_keys db ++ omap key_of ops /\ block_commits db' = block_commits db ++ omap commit_of ops /\
  (NoDup (map (fun c => (commit_txid c, commit_burn_header_hash c)) (block_commits db)) ->
   NoDup (map (fun c => (commit_txid c, commit_burn_header_hash c)) (block_commits db'))).
Proof.
  induction ops as [|op ops IH]; intros db db' H.
  { injection H as <-. by rewrite !app_nil_r. }
  cbn [foldM] in H. destruct (store_burnchain_transaction db op) as [db1| |] eqn:H1; [|done..].
  apply store_Ok in H1 as (<- & <- & <- & E4 & E5 & E6). apply IH in H as (-> & -> & -> & -> & -> & E6'). rewrite E4, E5, <-!(assoc_L (++)).
  split_and!; [done|done|done|by destruct op..|]. intros Hnd. specialize (E6' (E6 Hnd)). by rewrite E5, <-(assoc_L (++)) in E6'.
Qed.

(** The database after a block: one more snapshot, the rows of its operations, and the
    batch of the block in the index. *)
Lemma append_Ok db parent sn ops keys db' root : append_chain_tip_snapshot db parent sn ops keys = Ok (db', root) ->
  sn_parent_burn_header_hash sn = sn_burn_header_hash parent /\
  sn_block_height sn = wrap 64 (sn_block_height parent + 1) /\ sn_block_height sn < BLOCK_HEIGHT_MAX /\
  num_sortitions sn = wrap 64 (num_sortitions parent + (if sortition sn then 1 else 0)) /\ num_sortitions sn < BLOCK_HEIGHT_MAX /\
  put_indexed (index db) (sn_parent_burn_header_hash sn) (sn_burn_header_hash sn) (fork_info sn ops keys) = Ok (index db', root) /\
  snapshots db' = snapshots db ++ [with_root sn root] /\ Forall (fun s => sn_burn_header_hash s <> sn_burn_header_hash sn) (snapshots db) /\
  first_block_height db' = first_block_height db /\
  leader_keys db' = leader_keys db ++ omap key_of ops /\ block_commits db' = block_commits db ++ omap commit_of ops /\
  (NoDup (map (fun c => (commit_txid c, commit_burn_header_hash c)) (block_commits db)) ->
   NoDup (map (fun c => (commit_txid c, commit_burn_header_hash c)) (block_commits db'))).
Proof.
  unfold append_chain_tip_snapshot. intros (? & Hp%rust_assert_Ok%bool_decide_eq_true & H)%bind_Ok.
  apply bind_Ok in H as (? & Hh%rust_assert_Ok%Z.eqb_eq & H). apply bind_Ok in H as (? & Hn%rust_assert_Ok%Z.eqb_eq & H).
  apply bind_Ok in H as ([db1 root1] & Hi & H). apply bind_Ok in Hi as (? & _ & Hi). apply bind_Ok in Hi as ([i root2] & Hput & [= <- <-]).
  apply bind_Ok in H as (db2 & Hins & H). apply bind_Ok in H as (db3 & Hst & [= <- <-]).
  unfold insert_block_snapshot in Hins. apply bind_Ok in Hins as (? & Hmax%rust_assert_Ok%Z.ltb_lt & Hins).
  apply bind_Ok in Hins as (? & Hmax'%rust_assert_Ok%Z.ltb_lt & Hins). do 3 (apply bind_Ok in Hins as (? & _ & Hins)).
  destruct (existsb _ _) eqn:Hex; [done|]. injection Hins as <-. apply store_all_Ok in Hst as (E1 & E2 & E3 & E4 & E5 & E6). cbn in *.
  split_and!; try done; try congruence.
  apply Forall_forall. intros s Hs Heq. assert (Ht : existsb (fun s => bool_decide (sn_burn_header_hash s = sn_burn_header_hash sn) ||
    bool_decide (index_root s = root2)) (snapshots db) = true); [|congruence].
  apply existsb_exists. exists s. split; [by apply list_elem_of_In|]. by rewrite bool_decide_eq_true_2.
Qed.
End storing.
