(* ===== verification/BurnForks.v ===== *)
(** Forks of the burn chain: what the database relies on of its index ([ForkIndexLaws]),
    an index in memory that satisfies it, and the history of a fork as an abstract
    machine, whose states are the blocks of the fork and whose steps say which block
    may come next.  [BurnFacts] shows that the database refines it. *)
From stdpp Require Import base strings numbers list gmap.
From Stdlib Require Import ZArith Lia.
From S2P Require Import Prelude Names Types Hex C32 Natives StacksTypes NetCodec TransactionCodec Signatures Uint BurnOps BurnDB BurnChecks Sortition BurnChain.
#[local] Open Scope Z_scope.

(** * The index *)

Definition put_all (m : gmap string string) (kvs : list (string * string)) : gmap string string :=
  foldl (fun m kv => <[kv.1 := kv.2]> m) m kvs.

(** The blocks of the index are given with their ancestors, oldest first and the
    block itself last, and with the values that are read at them.  A block is put on
    top of a known block, or of the sentinel, and reads what it put over what its
    parent reads. *)
Class ForkIndexLaws (I : Type) `{Hindex : !ForkIndex I} := {
  chain : I -> list Z -> option (list (list Z));
  values : I -> list Z -> gmap string string;
  values_unknown : forall i b, chain i b = None -> values i b = ∅;
  get_indexed_known : forall i b c k, chain i b = Some c -> get_indexed i b k = Ok (values i b !! k);
  get_ancestor_known : forall i b c h, chain i b = Some c -> 0 <= h -> get_ancestor i h b = Ok (c !! Z.to_nat h);
  put_indexed_fresh : forall i parent b kvs i' root, put_indexed i parent b kvs = Ok (i', root) ->
    chain i b = None /\
    (exists c, (chain i parent = Some c \/ (parent = block_sentinel /\ chain i parent = None /\ c = [])) /\ chain i' b = Some (c ++ [b])) /\
    values i' b = put_all (values i parent) kvs /\
    forall b', b' <> b -> chain i' b' = chain i b' /\ values i' b' = values i b';
}.

(** ** In memory *)

(** The blocks, newest first, each with its ancestors and what it put over what its
    parent had. *)
Record IndexedBlock := mkIndexed { ib_hash : list Z; ib_chain : list (list Z); ib_values : list (string * string) }.
Notation MemoryIndex := (list IndexedBlock).
Fixpoint mem_find (i : MemoryIndex) (b : list Z) : option IndexedBlock :=
  match i with
  | [] => None
  | x :: i => if decide (ib_hash x = b) then Some x else mem_find i b
  end.
Fixpoint assoc (l : list (string * string)) (k : string) : option string :=
  match l with
  | [] => None
  | (k', v) :: l => if decide (k' = k) then Some v else assoc l k
  end.
Definition mem_chain (i : MemoryIndex) (b : list Z) : option (list (list Z)) := option_map ib_chain (mem_find i b).
Definition mem_entries (i : MemoryIndex) (b : list Z) : list (string * string) := match mem_find i b with Some x => ib_values x | None => [] end.
Definition mem_get (i : MemoryIndex) (b : list Z) (k : string) : Res db_error (option string) := Ok (assoc (mem_entries i b) k).
Definition mem_ancestor (i : MemoryIndex) (h : Z) (b : list Z) : Res db_error (option (list Z)) :=
  Ok (match mem_chain i b with Some c => c !! Z.to_nat h | None => None end).
Definition mem_put (i : MemoryIndex) (parent b : list Z) (kvs : list (string * string)) : Res db_error (MemoryIndex * list Z) :=
  match mem_find i b with
  | Some _ => Err DbIndexError
  | None =>
    match mem_chain i parent with
    | Some c => Ok (mkIndexed b (c ++ [b]) (rev_append kvs (mem_entries i parent)) :: i, b)
    | None => if decide (parent = block_sentinel) then Ok (mkIndexed b [b] (rev_append kvs []) :: i, b) else Err DbIndexError
    end
  end.
#[global] Instance memory_index : ForkIndex MemoryIndex := { get_indexed := mem_get; get_ancestor := mem_ancestor; put_indexed := mem_put }.

Lemma assoc_lookup l k : assoc l k = (list_to_map l : gmap string string) !! k.
Proof.
  induction l as [|[k' v] l IH]; [done|]. cbn. destruct (decide (k' = k)) as [->|]; [by rewrite lookup_insert_eq|by rewrite lookup_insert_ne].
Qed.
Lemma put_all_entries kvs l : put_all (list_to_map l) kvs = list_to_map (rev_append kvs l).
Proof. revert l. induction kvs as [|[k v] kvs IH]; intros l; [done|]. apply (IH ((k, v) :: l)). Qed.
#[global] Program Instance memory_index_laws : ForkIndexLaws MemoryIndex := {
  chain := mem_chain;
  values i b := list_to_map (mem_entries i b);
}.
Next Obligation. intros i b H. cbn in *. unfold mem_chain, mem_entries in *. by destruct (mem_find i b). Qed.
Next Obligation. intros i b c k _. cbn. unfold mem_get. by rewrite assoc_lookup. Qed.
Next Obligation. intros i b c h H _. cbn. unfold mem_ancestor. by rewrite H. Qed.
Next Obligation.
  intros i parent b kvs i' root H. cbn [chain values put_indexed memory_index] in *. unfold mem_put in H. unfold mem_chain in *. destruct (mem_find i b) eqn:Hb; [done|].
  assert (Hnew : forall x, ib_hash x = b -> mem_find (x :: i) b = Some x) by (intros x <-; cbn; by rewrite decide_True).
  assert (Hother : forall x b', ib_hash x = b -> b' <> b -> mem_find (x :: i) b' = mem_find i b') by (intros x b' <- Hne; cbn; by rewrite decide_False).
  rewrite put_all_entries. unfold mem_entries in *. destruct (mem_find i parent) as [x|] eqn:Hp; cbn [option_map] in H.
  - injection H as <- _. rewrite !Hnew by done. split_and!; [done| |done|].
    + exists (ib_chain x). by split; [left|].
    + intros b' Hne. by rewrite Hother.
  - destruct (decide (parent = block_sentinel)) as [->|]; [|done]. injection H as <- _. rewrite !Hnew by done. split_and!; [done| |done|].
    + exists []. by split; [right|].
    + intros b' Hne. by rewrite Hother.
Qed.

Lemma put_all_app m kvs kvs' : put_all m (kvs ++ kvs') = put_all (put_all m kvs) kvs'.
Proof. apply foldl_app. Qed.
Lemma put_all_other m kvs k : k ∉ kvs.*1 -> put_all m kvs !! k = m !! k.
Proof.
  revert m. induction kvs as [|[k' v] kvs IH]; intros m Hk; cbn in *; [done|]. apply not_elem_of_cons in Hk as [Hne Hk].
  rewrite IH by done. by rewrite lookup_insert_ne.
Qed.
(** A key that is put with one value only. *)
Lemma put_all_same m kvs k v : k ∈ kvs.*1 -> Forall (fun kv => kv.1 = k -> kv.2 = v) kvs -> put_all m kvs !! k = Some v.
Proof.
  revert m. induction kvs as [|[k' v'] kvs IH]; intros m Hk Hv; cbn in *; [by apply elem_of_nil in Hk|].
  apply Forall_cons in Hv as [Hv' Hv]. destruct (decide (k ∈ kvs.*1)) as [Hin|Hout]; [by apply IH|].
  rewrite put_all_other by done. apply elem_of_cons in Hk as [->|]; [|done]. cbn in Hv'. by rewrite lookup_insert_eq, Hv'.
Qed.

(** * Histories *)

(** A block of a fork: its snapshot, the operations it accepted, and the keys that
    its commits consumed.  A history has the newest block first. *)
Record BlockRecord := mkRecord {
  r_snapshot : BlockSnapshot;
  r_ops : list BlockstackOperationType;
  r_consumed : list LeaderKeyRegisterOp;
}.
Notation History := (list BlockRecord).
Definition r_hash (r : BlockRecord) : list Z := sn_burn_header_hash (r_snapshot r).
Definition r_keys (r : BlockRecord) : list LeaderKeyRegisterOp := omap key_of (r_ops r).
Definition r_commits (r : BlockRecord) : list LeaderBlockCommitOp := omap commit_of (r_ops r).

(** The block that a Stacks block won, and the last block with a sortition. *)
Fixpoint won_at (block_hash : list Z) (hist : History) : option BlockRecord :=
  match hist with
  | [] => None
  | r :: hist =>
    if sortition (r_snapshot r) && bool_decide (winning_stacks_block_hash (r_snapshot r) = block_hash) then Some r else won_at block_hash hist
  end.
Fixpoint last_sortition (hist : History) : option BlockRecord :=
  match hist with
  | [] => None
  | r :: hist => if sortition (r_snapshot r) then Some r else last_sortition hist
  end.
(** Whether a key was registered and, if it was, is still available. *)
Fixpoint key_available (pubkey : list Z) (hist : History) : option bool :=
  match hist with
  | [] => None
  | r :: hist =>
    if decide (pubkey ∈ map public_key (r_consumed r)) then Some false
    else if decide (pubkey ∈ map public_key (r_keys r)) then Some true
    else key_available pubkey hist
  end.
(** The block at a height, and the key registered at a position. *)
Fixpoint record_at (height : Z) (hist : History) : option BlockRecord :=
  match hist with
  | [] => None
  | r :: hist => if sn_block_height (r_snapshot r) =? height then Some r else record_at height hist
  end.
Definition key_at (height vtxindex : Z) (hist : History) : option LeaderKeyRegisterOp :=
  r ← record_at height hist; head (filter (fun k => reg_vtxindex k = vtxindex) (r_keys r)).

(** What the index holds for a history. *)
Fixpoint history_values (hist : History) : gmap string string :=
  match hist with
  | [] => ∅
  | r :: hist => put_all (history_values hist) (fork_info (r_snapshot r) (r_ops r) (r_consumed r))
  end.

(** ** What is read of a history *)

Definition record_bytes (r : BlockRecord) : Prop :=
  Forall (fun k => Forall u8 (public_key k)) (r_keys r) /\ Forall (fun k => Forall u8 (public_key k)) (r_consumed r) /\
  Forall u8 (winning_stacks_block_hash (r_snapshot r)) /\ Forall u8 (r_hash r) /\ length (r_hash r) = 32%nat.
Lemma to_hex_inj a b : Forall u8 a -> Forall u8 b -> to_hex a = to_hex b -> a = b.
Proof. intros Ha Hb H. apply hex_bytes_to_hex in Ha, Hb. rewrite H, Hb in Ha. by apply Ok_inj in Ha. Qed.
Lemma vrf_key_inj a b : Forall u8 a -> Forall u8 b -> vrf_key a = vrf_key b -> a = b.
Proof. unfold vrf_key, sortition_block_key. intros Ha Hb H%(inj _). by apply to_hex_inj. Qed.
Lemma sortition_block_key_inj a b : Forall u8 a -> Forall u8 b -> sortition_block_key a = sortition_block_key b -> a = b.
Proof. unfold vrf_key, sortition_block_key. intros Ha Hb H%(inj _). by apply to_hex_inj. Qed.

Lemma fork_info_split r :
  fork_info (r_snapshot r) (r_ops r) (r_consumed r) =
  map (fun k => (vrf_key (public_key k), "1")) (r_keys r) ++ map (fun k => (vrf_key (public_key k), "0")) (r_consumed r) ++
  (if sortition (r_snapshot r)
   then [(last_sortition_key, to_hex (r_hash r)); (sortition_block_key (winning_stacks_block_hash (r_snapshot r)), to_hex (r_hash r))] else []).
Proof.
  unfold fork_info, r_keys, r_hash. f_equal. generalize (r_ops r) as ops. induction ops as [|[] ops IH]; cbn; [done|by rewrite IH|done|done].
Qed.
(** The keys that are put for some public keys. *)
Lemma vrf_keys_of (ks : list LeaderKeyRegisterOp) (v : string) pk :
  Forall u8 pk -> Forall (fun k => Forall u8 (public_key k)) ks ->
  vrf_key pk ∈ (map (fun k => (vrf_key (public_key k), v)) ks).*1 <-> pk ∈ map public_key ks.
Proof.
  intros Hpk Hks. induction Hks as [|k ks Hk _ IH]; cbn; [by rewrite !elem_of_nil|]. rewrite !elem_of_cons, IH. split; (intros [H|H]; [left|by right]).
  - by apply vrf_key_inj.
  - by subst.
Qed.
Lemma vrf_values_of (ks : list LeaderKeyRegisterOp) (v : string) : Forall (fun kv : string * string => kv.2 = v) (map (fun k => (vrf_key (public_key k), v)) ks).
Proof. by apply Forall_map, Forall_true. Qed.

Lemma history_values_vrf hist pk : Forall record_bytes hist -> Forall u8 pk ->
  history_values hist !! vrf_key pk = option_map (fun available : bool => if available then "1" else "0") (key_available pk hist).
Proof.
  intros Hb Hpk. induction Hb as [|r hist (Hk & Hc & _) _ IH]; [done|]. cbn [history_values key_available]. rewrite fork_info_split, !put_all_app.
  rewrite put_all_other by (destruct (sortition _); cbn; set_solver).
  destruct (decide (pk ∈ map public_key (r_consumed r))) as [Hin|Hout].
  { rewrite (put_all_same _ _ _ "0"); [done|by apply vrf_keys_of|]. eapply Forall_impl; [apply vrf_values_of|done]. }
  rewrite put_all_other by (by rewrite vrf_keys_of).
  destruct (decide (pk ∈ map public_key (r_keys r))) as [Hin'|Hout'].
  { rewrite (put_all_same _ _ _ "1"); [done|by apply vrf_keys_of|]. eapply Forall_impl; [apply vrf_values_of|done]. }
  rewrite put_all_other by (by rewrite vrf_keys_of). exact IH.
Qed.
Lemma not_vrf_key k (ks : list LeaderKeyRegisterOp) (v : string) : (forall pk, k <> vrf_key pk) -> k ∉ (map (fun k => (vrf_key (public_key k), v)) ks).*1.
Proof. intros Hk. rewrite list_elem_of_fmap. intros ([k' v'] & -> & H). apply list_elem_of_fmap in H as (x & [= -> ->] & _). by eapply Hk. Qed.
Lemma history_values_last hist : history_values hist !! last_sortition_key = option_map (fun r => to_hex (r_hash r)) (last_sortition hist).
Proof.
  induction hist as [|r hist IH]; [done|]. cbn [history_values last_sortition]. rewrite fork_info_split, !put_all_app.
  destruct (sortition (r_snapshot r)); cbn [put_all foldl fst snd option_map].
  - by rewrite lookup_insert_ne, lookup_insert_eq by done.
  - by rewrite !put_all_other by (by apply not_vrf_key).
Qed.
Lemma history_values_won hist H : Forall record_bytes hist -> Forall u8 H ->
  history_values hist !! sortition_block_key H = option_map (fun r => to_hex (r_hash r)) (won_at H hist).
Proof.
  intros Hb HH. induction Hb as [|r hist (_ & _ & Hw & _) _ IH]; [done|]. cbn [history_values won_at]. rewrite fork_info_split, !put_all_app.
  destruct (sortition (r_snapshot r)); cbn [put_all foldl fst snd andb].
  - case_bool_decide as E.
    + by rewrite E, lookup_insert_eq.
    + rewrite lookup_insert_ne by (intros E'; by apply E, sortition_block_key_inj). rewrite lookup_insert_ne by done.
      fold (put_all (history_values hist) (map (fun k => (vrf_key (public_key k), "1")) (r_keys r))).
      by rewrite !put_all_other by (by apply not_vrf_key).
  - by rewrite !put_all_other by (by apply not_vrf_key).
Qed.

(** * The fork machine *)

Section machine.
Context `{Hsecp : !Secp256k1, Hsha : !Sha256, Hhashes : !NativeHashes}.

(** A block that may come next after a history. *)
Record extends (r parent : BlockRecord) (hist : History) : Prop := {
  ext_parent : sn_parent_burn_header_hash (r_snapshot r) = r_hash parent;
  ext_height : sn_block_height (r_snapshot r) = sn_block_height (r_snapshot parent) + 1;
  ext_here : Forall (fun op => op_block_height op = sn_block_height (r_snapshot r)) (r_ops r);
  ext_positions : NoDup (map op_vtxindex (r_ops r));
  ext_keys_once : NoDup (map public_key (r_keys r));
  ext_keys_new : forall k, k ∈ r_keys r -> key_available (public_key k) (parent :: hist) = None;
  ext_consumed : forall k, k ∈ r_consumed r -> key_available (public_key k) (parent :: hist) = Some true;
  ext_commits_once : NoDup (map commit_key_loc (r_commits r));
  ext_commits : forall c, c ∈ r_commits r ->
    commit_burn_fee c <> 0 /\ won_at (block_header_hash c) (parent :: hist) = None /\
    exists k, k ∈ r_consumed r /\ key_at (key_block_ptr c) (key_vtxindex c) (parent :: hist) = Some k /\
      to_address_bits (E:=op_error) (commit_input c) = Ok (addr_bytes (key_address k));
  ext_winner : if sortition (r_snapshot r)
    then num_sortitions (r_snapshot r) = num_sortitions (r_snapshot parent) + 1 /\
      exists c, c ∈ r_commits r /\ winning_block_txid (r_snapshot r) = commit_txid c /\ winning_stacks_block_hash (r_snapshot r) = block_header_hash c
    else num_sortitions (r_snapshot r) = num_sortitions (r_snapshot parent);
}.
Inductive valid (first_height : Z) : History -> Prop :=
| valid_first sn : sn_block_height sn = first_height /\ is_initial sn = true -> sortition sn = true -> valid first_height [mkRecord sn [] []]
| valid_next r parent hist : valid first_height (parent :: hist) -> extends r parent hist -> valid first_height (r :: parent :: hist).

(** ** Heights *)

Lemma valid_height first r hist : valid first (r :: hist) -> sn_block_height (r_snapshot r) = first + Z.of_nat (length hist).
Proof.
  remember (r :: hist) as h eqn:E. intros H. revert r hist E. induction H as [sn [Hf Hi] Hs|r' parent hist' H IH Hext]; intros r hist [= <- <-].
  - cbn. lia.
  - rewrite (ext_height _ _ _ Hext), (IH _ _ eq_refl). cbn. lia.
Qed.
Lemma valid_tail first r parent hist : valid first (r :: parent :: hist) -> valid first (parent :: hist) /\ extends r parent hist.
Proof. by inversion 1. Qed.
Lemma record_at_lookup first hist h : valid first hist -> first <= h -> record_at h hist = reverse hist !! Z.to_nat (h - first).
Proof.
  intros H Hh. induction H as [sn [Hf Hi] Hs|r parent hist H IH Hext].
  - cbn. rewrite Hf. destruct (Z.eqb_spec first h) as [->|Hne]; [by rewrite Z.sub_diag|].
    destruct (Z.to_nat (h - first)) eqn:E; [lia|done].
  - pose proof (valid_height _ _ _ H) as Hp. pose proof (ext_height _ _ _ Hext) as Hr. rewrite Hp in Hr. cbn [record_at].
    rewrite reverse_cons. destruct (Z.eqb_spec (sn_block_height (r_snapshot r)) h) as [E|E].
    + rewrite lookup_app_r by (rewrite length_reverse; cbn; lia). rewrite length_reverse. cbn [length].
      by replace (Z.to_nat (h - first) - S (length hist))%nat with 0%nat by lia.
    + cbn [record_at] in IH. rewrite IH. destruct (decide (Z.to_nat (h - first) < S (length hist))%nat).
      * by rewrite lookup_app_l by (rewrite length_reverse; cbn; lia).
      * rewrite lookup_app_r by (rewrite length_reverse; cbn; lia). rewrite lookup_ge_None_2 by (rewrite length_reverse; cbn; lia).
        symmetry. apply lookup_ge_None_2. rewrite length_reverse. cbn. lia.
Qed.
Lemma record_at_elem h hist r : record_at h hist = Some r -> r ∈ hist /\ sn_block_height (r_snapshot r) = h.
Proof.
  induction hist as [|r' hist IH]; cbn; [done|]. destruct (Z.eqb_spec (sn_block_height (r_snapshot r')) h) as [E|E].
  - intros [= <-]. split; [by left|done].
  - intros H. destruct (IH H). split; [by right|done].
Qed.
Lemma valid_low first hist r : valid first hist -> r ∈ hist -> first <= sn_block_height (r_snapshot r).
Proof.
  induction 1 as [sn [Hf Hi] Hs|r' parent hist H IH Hext]; intros Hr.
  - apply list_elem_of_singleton in Hr as ->. cbn. lia.
  - apply elem_of_cons in Hr as [->|Hr]; [|by apply IH]. pose proof (valid_height _ _ _ H). rewrite (ext_height _ _ _ Hext). lia.
Qed.

(** ** Winners and keys *)

Lemma won_at_None H hist r : won_at H hist = None -> r ∈ hist -> sortition (r_snapshot r) = true -> winning_stacks_block_hash (r_snapshot r) <> H.
Proof.
  induction hist as [|r' hist IH]; cbn; intros Hw Hr Hs HH; [by apply elem_of_nil in Hr|].
  apply elem_of_cons in Hr as [->|Hr].
  - rewrite Hs, bool_decide_eq_true_2 in Hw by done. done.
  - destruct (_ && _); [done|]. by eapply IH.
Qed.
Lemma new_winner first r parent hist r' :
  valid first (r :: parent :: hist) -> r' ∈ parent :: hist -> sortition (r_snapshot r) = true -> sortition (r_snapshot r') = true ->
  winning_stacks_block_hash (r_snapshot r') <> winning_stacks_block_hash (r_snapshot r).
Proof.
  intros [_ Hext]%valid_tail Hr' Hs Hs'. pose proof (ext_winner _ _ _ Hext) as Hw. rewrite Hs in Hw.
  destruct Hw as (_ & c & Hc & _ & ->). destruct (ext_commits _ _ _ Hext c Hc) as (_ & Hnone & _). by eapply won_at_None.
Qed.
Lemma valid_wins_once first hist r1 r2 : valid first hist -> r1 ∈ hist -> r2 ∈ hist ->
  sortition (r_snapshot r1) = true -> sortition (r_snapshot r2) = true ->
  winning_stacks_block_hash (r_snapshot r1) = winning_stacks_block_hash (r_snapshot r2) -> r1 = r2.
Proof.
  induction 1 as [sn [Hf Hi] Hs|r parent hist H IH Hext]; intros H1 H2 Hs1 Hs2 Hw.
  - by apply list_elem_of_singleton in H1 as ->, H2 as ->.
  - pose proof (valid_next _ _ _ _ H Hext) as Hv. apply elem_of_cons in H1, H2. destruct H1 as [->|H1], H2 as [->|H2]; [done|exfalso..|by apply IH].
    + by eapply new_winner.
    + by eapply (new_winner _ r parent hist r1).
Qed.

(** A key that was consumed stays consumed. *)
Lemma consumed_stays r parent hist pk :
  extends r parent hist -> key_available pk (parent :: hist) = Some false -> key_available pk (r :: parent :: hist) = Some false.
Proof.
  intros Hext Hpk. remember (parent :: hist) as t. cbn [key_available]. destruct (decide (pk ∈ _)); [done|].
  destruct (decide (pk ∈ map public_key (r_keys r))) as [Hin|]; [|done]. apply list_elem_of_fmap in Hin as (k & -> & Hk).
  pose proof (ext_keys_new _ _ _ Hext k Hk). congruence.
Qed.
Lemma key_at_stays first r parent hist h v k :
  valid first (r :: parent :: hist) -> key_at h v (parent :: hist) = Some k -> key_at h v (r :: parent :: hist) = Some k.
Proof.
  intros [Hv Hext]%valid_tail. unfold key_at. remember (parent :: hist) as t. cbn [record_at].
  destruct (Z.eqb_spec (sn_block_height (r_snapshot r)) h) as [E|]; [|done]. intros Hk. apply bind_Some in Hk as (r' & Hr' & _). exfalso.
  pose proof (ext_height _ _ _ Hext). rewrite Heqt in Hv. pose proof (valid_height _ _ _ Hv) as Hp.
  assert (Hle : forall t r', valid first t -> r' ∈ t -> sn_block_height (r_snapshot r') < first + Z.of_nat (length t)).
  { clear. induction 1 as [sn [Hf Hi] Hs|r parent hist H IH Hext]; intros Hin.
    - apply list_elem_of_singleton in Hin as ->. cbn. lia.
    - apply elem_of_cons in Hin as [->|Hin]; [|specialize (IH Hin); cbn in *; lia].
      rewrite (valid_height first r (parent :: hist)) by (by constructor). cbn. lia. }
  apply record_at_elem in Hr' as [Hin Hh]. rewrite Heqt in Hin. specialize (Hle _ _ Hv Hin). cbn [length] in Hle. lia.
Qed.
Lemma commit_consumes first hist r c : valid first hist -> r ∈ hist -> c ∈ r_commits r ->
  exists k, key_at (key_block_ptr c) (key_vtxindex c) hist = Some k /\ key_available (public_key k) hist = Some false.
Proof.
  induction 1 as [sn [Hf Hi] Hs|r' parent hist H IH Hext]; intros Hr Hc.
  { apply list_elem_of_singleton in Hr as ->. by apply elem_of_nil in Hc. }
  pose proof (valid_next _ _ _ _ H Hext) as Hv. apply elem_of_cons in Hr as [->|Hr].
  - destruct (ext_commits _ _ _ Hext c Hc) as (_ & _ & k & Hk & Hat & _). exists k. split; [by eapply key_at_stays|].
    cbn [key_available]. rewrite decide_True; [done|]. by apply list_elem_of_fmap_2.
  - destruct (IH Hr Hc) as (k & Hat & Hk). exists k. split; [by eapply key_at_stays|by apply consumed_stays].
Qed.
Lemma NoDup_map_inj {A B} (f : A -> B) l x y : NoDup (map f l) -> x ∈ l -> y ∈ l -> f x = f y -> x = y.
Proof.
  induction l as [|z l IH]; cbn; intros Hnd Hx Hy Hf; [by apply elem_of_nil in Hx|]. apply NoDup_cons in Hnd as [Hz Hnd].
  apply elem_of_cons in Hx, Hy. destruct Hx as [->|Hx], Hy as [->|Hy]; [done|exfalso; apply Hz..|by apply IH].
  - rewrite Hf. by apply list_elem_of_fmap_2.
  - rewrite <-Hf. by apply list_elem_of_fmap_2.
Qed.
Lemma new_commit first r parent hist r' c c' :
  valid first (r :: parent :: hist) -> r' ∈ parent :: hist -> c ∈ r_commits r -> c' ∈ r_commits r' -> commit_key_loc c' <> commit_key_loc c.
Proof.
  intros [Hv Hext]%valid_tail Hr' Hc Hc' Hloc. unfold commit_key_loc in Hloc. injection Hloc as Hp Hx.
  destruct (commit_consumes _ _ _ _ Hv Hr' Hc') as (k & Hk & Hused). destruct (ext_commits _ _ _ Hext c Hc) as (_ & _ & k' & Hk' & Hat & _).
  rewrite Hp, Hx, Hat in Hk. injection Hk as ->. pose proof (ext_consumed _ _ _ Hext _ Hk'). congruence.
Qed.
Lemma valid_key_once first hist r1 r2 c1 c2 : valid first hist -> r1 ∈ hist -> r2 ∈ hist -> c1 ∈ r_commits r1 -> c2 ∈ r_commits r2 ->
  commit_key_loc c1 = commit_key_loc c2 -> c1 = c2.
Proof.
  induction 1 as [sn [Hf Hi] Hs|r parent hist H IH Hext]; intros H1 H2 Hc1 Hc2 Hloc.
  - apply list_elem_of_singleton in H1 as ->. by apply elem_of_nil in Hc1.
  - pose proof (valid_next _ _ _ _ H Hext) as Hv. apply elem_of_cons in H1, H2. destruct H1 as [->|H1], H2 as [->|H2]; [|exfalso..|by apply IH].
    + by eapply NoDup_map_inj, Hloc; [apply (ext_commits_once _ _ _ Hext)|..].
    + by eapply (new_commit _ r parent hist r2 c1 c2).
    + by eapply (new_commit _ r parent hist r1 c2 c1).
Qed.
End machine.
