(* ===== verification/BurnFacts.v ===== *)
(** The database of the burn chain refines the fork machine of [BurnForks]: every
    snapshot that the processing of blocks leaves in it is the tip of a valid history
    that the tables and the index hold.  So no Stacks block wins twice in a fork, no
    leader key is used twice, and sortitions do happen. *)
From stdpp Require Import base strings numbers list gmap sorting.
From Stdlib Require Import ZArith Lia.
From S2P Require Import Prelude Names Types Hex C32 Natives StacksTypes NetCodec TransactionCodec Signatures Uint BurnOps BurnDB BurnChecks Sortition BurnChain BurnSteps BurnForks.
#[local] Open Scope Z_scope.

(** * Rows *)

Lemma filter_unique {A B} `{EqDecision B} (f : A -> B) (l : list A) x :
  NoDup (map f l) -> x ∈ l -> filter (fun y => f y = f x) l = [x].
Proof.
  induction l as [|y l IH]; cbn [map]; intros Hnd Hx; [by apply elem_of_nil in Hx|]. apply NoDup_cons in Hnd as [Hy Hnd].
  assert (Hnone : f y ∉ map f l -> f x = f y -> filter (fun z => f z = f x) l = []).
  { intros Hout E. rewrite E. clear -Hout. induction l as [|z l IH]; [done|]. cbn in Hout. apply not_elem_of_cons in Hout as [Hz Hout].
    rewrite filter_cons_False by congruence. by apply IH. }
  apply elem_of_cons in Hx as [->|Hx].
  - rewrite filter_cons_True by done. by rewrite Hnone.
  - rewrite filter_cons_False; [by apply IH|]. intros E. apply Hy. rewrite E. by apply list_elem_of_fmap_2.
Qed.
Lemma expect_one_Ok {E A} (rows : list A) r : expect_one (E:=E) rows = Ok r -> rows = option_list r.
Proof. destruct rows as [|x [|]]; [by intros [= <-]|by intros [= <-]|done]. Qed.
(** A list whose members are those of a list of at most one. *)
Lemma head_of_rows {A} (l : list A) r : (forall x, x ∈ l <-> x ∈ option_list r) -> head l = r.
Proof.
  destruct l as [|x l], r as [y|]; cbn; intros H; [|done|..].
  - exfalso. by apply (elem_of_nil y), H, list_elem_of_singleton.
  - f_equal. apply list_elem_of_singleton, H. by left.
  - exfalso. by apply (elem_of_nil x), H; left.
Qed.

Lemma match_nonempty {A B} (l : list A) (x y : B) : l <> [] -> match l with [] => x | _ => y end = y.
Proof. by destruct l. Qed.

Section refinement.
Context `{Hsecp : !Secp256k1, Hsha : !Sha256, Hhashes : !NativeHashes, Hripemd : !Ripemd160}.
Context {I : Type} `{Hindex : !ForkIndex I} `{Hlaws : !ForkIndexLaws I}.
Implicit Types (db : BurnDB I).

(** The tables hold a block. *)
Definition rows_of db (r : BlockRecord) : Prop :=
  r_snapshot r ∈ snapshots db /\
  (forall k, k ∈ r_keys r <-> k ∈ leader_keys db /\ key_burn_header_hash k = r_hash r) /\
  (forall c, c ∈ r_commits r <-> c ∈ block_commits db /\ commit_burn_header_hash c = r_hash r).
(** The database holds a history with the tip [tip]. *)
Record refines db (tip : list Z) (hist : History) : Prop := {
  ref_chain : chain (index db) tip = Some (reverse (map r_hash hist));
  ref_values : values (index db) tip = history_values hist;
  ref_rows : Forall (rows_of db) hist;
  ref_bytes : Forall record_bytes hist;
}.
Record db_ok db : Prop := {
  ok_hashes : NoDup (map sn_burn_header_hash (snapshots db));
  ok_commits : NoDup (map (fun c => (commit_txid c, commit_burn_header_hash c)) (block_commits db));
  ok_keys_known : forall k, k ∈ leader_keys db -> is_Some (chain (index db) (key_burn_header_hash k));
  ok_commits_known : forall c, c ∈ block_commits db -> is_Some (chain (index db) (commit_burn_header_hash c));
  ok_ranges : Forall (fun sn => 0 <= sn_block_height sn < 2 ^ 63 /\ 0 <= num_sortitions sn < 2 ^ 63) (snapshots db);
  ok_forks : forall sn, sn ∈ snapshots db -> exists r hist,
    r_snapshot r = sn /\ valid (first_block_height db) (r :: hist) /\ refines db (sn_burn_header_hash sn) (r :: hist);
}.

(** * Queries *)

Lemma get_block_snapshot_known db sn : db_ok db -> sn ∈ snapshots db -> get_block_snapshot db (sn_burn_header_hash sn) = Ok (Some sn).
Proof. intros Hok Hsn. unfold get_block_snapshot. by rewrite (filter_unique sn_burn_header_hash) by (done || apply ok_hashes, Hok). Qed.
Lemma get_block_snapshot_Some db h sn : get_block_snapshot db h = Ok (Some sn) -> sn ∈ snapshots db /\ sn_burn_header_hash sn = h.
Proof.
  intros H%expect_one_Ok. cbn in H. assert (Hin : sn ∈ filter (fun sn => sn_burn_header_hash sn = h) (snapshots db)) by (rewrite H; by left).
  apply list_elem_of_filter in Hin as [? ?]. by split.
Qed.
Lemma ref_snapshot db tip hist r : refines db tip hist -> r ∈ hist -> r_snapshot r ∈ snapshots db.
Proof. intros Href Hr. by apply (proj1 (Forall_forall _ _) (ref_rows _ _ _ Href) r Hr). Qed.

Lemma ancestor_refines db tip hist h res :
  db_ok db -> valid (first_block_height db) hist -> refines db tip hist ->
  get_ancestor_snapshot db h tip = Ok res -> res = option_map r_snapshot (record_at h hist).
Proof.
  intros Hok Hv Href. unfold get_ancestor_snapshot, burndb_get_ancestor_block_hash. intros (? & _ & H)%bind_Ok.
  apply bind_Ok in H as (anc & Hanc & H). destruct (Z.ltb_spec h (first_block_height db)) as [Hlt|Hge].
  - injection Hanc as <-. injection H as <-. destruct (record_at h hist) as [r|] eqn:Hr; [|done].
    apply record_at_elem in Hr as [Hin Hh]. pose proof (valid_low _ _ _ Hv Hin). lia.
  - apply bind_Ok in Hanc as (? & _ & Hanc). rewrite (get_ancestor_known _ _ _ _ (ref_chain _ _ _ Href)) in Hanc by lia.
    injection Hanc as <-. rewrite (record_at_lookup _ _ _ Hv Hge). change (map r_hash hist) with (r_hash <$> hist) in H.
    rewrite <-fmap_reverse, list_lookup_fmap in H.
    destruct (reverse hist !! Z.to_nat (h - first_block_height db)) as [r|] eqn:Hr; cbn in H; [|by injection H].
    assert (Hin : r ∈ hist) by (apply elem_of_reverse; by eapply list_elem_of_lookup_2).
    unfold r_hash in H. rewrite get_block_snapshot_known in H; [by injection H|done|by eapply ref_snapshot].
Qed.

Lemma valid_here first hist r op : valid first hist -> r ∈ hist -> op ∈ r_ops r -> op_block_height op = sn_block_height (r_snapshot r).
Proof.
  induction 1 as [sn [Hf Hi] Hs|r' parent hist H IH Hext]; intros Hr Hop.
  - apply list_elem_of_singleton in Hr as ->. by apply elem_of_nil in Hop.
  - apply elem_of_cons in Hr as [->|Hr]; [|by apply IH]. by apply (proj1 (Forall_forall _ _) (ext_here _ _ _ Hext)).
Qed.
Lemma leader_key_refines db tip hist h v res :
  db_ok db -> valid (first_block_height db) hist -> refines db tip hist ->
  get_leader_key_at db h v tip = Ok res -> res = key_at h v hist.
Proof.
  intros Hok Hv Href. unfold get_leader_key_at, key_at. intros (? & _ & H)%bind_Ok. apply bind_Ok in H as (anc & Hanc & H).
  apply (ancestor_refines _ _ _ _ _ Hok Hv Href) in Hanc as ->.
  destruct (record_at h hist) as [r|] eqn:Hr; cbn in *; [|by injection H]. apply record_at_elem in Hr as [Hin Hh].
  apply bind_Ok in H as (h' & Hh' & H). unfold sql_u64 in Hh'. destruct (_ <? h); [done|]. injection Hh' as <-.
  apply expect_one_Ok in H. symmetry. apply head_of_rows. intros k. rewrite <-H, !list_elem_of_filter.
  destruct (proj1 (Forall_forall _ _) (ref_rows _ _ _ Href) r Hin) as (_ & Hk & _). rewrite Hk. unfold r_hash. split; [|naive_solver].
  intros [Hvtx Hrow]. split_and!; [naive_solver| |done|naive_solver]. apply Hk in Hrow.
  apply list_elem_of_omap in Hrow as (op & Hop & Hop'). destruct op; try done. injection Hop' as ->. rewrite <-Hh.
  by apply (valid_here _ _ _ _ Hv Hin Hop).
Qed.

Lemma index_refines db tip hist k : refines db tip hist -> index_value_get db tip k = Ok (history_values hist !! k).
Proof. intros Href. unfold index_value_get. rewrite (get_indexed_known _ _ _ _ (ref_chain _ _ _ Href)). by rewrite (ref_values _ _ _ Href). Qed.
Lemma won_refines db tip hist H :
  refines db tip hist -> Forall u8 H -> expects_stacks_block_in_fork db H tip = Ok (bool_decide (is_Some (won_at H hist))).
Proof.
  intros Href HH. unfold expects_stacks_block_in_fork. rewrite (index_refines _ _ _ _ Href). cbn.
  rewrite history_values_won by (done || apply Href). f_equal. apply bool_decide_ext. destruct (won_at H hist); cbn; by rewrite !is_Some_alt.
Qed.
Lemma has_key_refines db sn hist pk res :
  db_ok db -> sn ∈ snapshots db -> refines db (sn_burn_header_hash sn) hist -> Forall u8 pk ->
  has_VRF_public_key db pk (sn_burn_header_hash sn) = Ok res -> res = bool_decide (is_Some (key_available pk hist)).
Proof.
  intros Hok Hsn Href Hpk. unfold has_VRF_public_key. rewrite get_block_snapshot_known by done. cbn. rewrite (index_refines _ _ _ _ Href). cbn.
  rewrite history_values_vrf by (done || apply Href). intros [= <-]. apply bool_decide_ext.
  destruct (key_available pk hist); cbn; by rewrite !is_Some_alt.
Qed.
Lemma key_consumed_refines db sn hist k res :
  db_ok db -> sn ∈ snapshots db -> refines db (sn_burn_header_hash sn) hist -> Forall u8 (public_key k) ->
  is_leader_key_consumed db k (sn_burn_header_hash sn) = Ok res -> res = bool_decide (key_available (public_key k) hist = Some false).
Proof.
  intros Hok Hsn Href Hpk. unfold is_leader_key_consumed. intros (? & _ & H)%bind_Ok. rewrite get_block_snapshot_known in H by done. cbn in H.
  rewrite (index_refines _ _ _ _ Href) in H. cbn in H. rewrite history_values_vrf in H by (done || apply Href).
  destruct (key_available (public_key k) hist) as [[]|]; cbn in H; by injection H as <-.
Qed.

(** * Checks *)

Lemma parent_tip_Ok db header tip : parent_tip db header = Ok tip -> tip ∈ snapshots db /\ sn_burn_header_hash tip = bh_parent_block_hash header.
Proof. unfold parent_tip. intros (sn & Hs%expect_inv & He%expect_opt_Ok)%bind_Ok. subst sn. by apply get_block_snapshot_Some. Qed.
Lemma commit_check_Ok db c header : commit_check c header db = Ok () ->
  commit_burn_fee c <> 0 /\ expects_stacks_block_in_fork db (block_header_hash c) (bh_parent_block_hash header) = Ok false /\
  exists k, get_leader_key_at db (key_block_ptr c) (key_vtxindex c) (bh_parent_block_hash header) = Ok (Some k) /\
    is_leader_key_consumed db k (bh_parent_block_hash header) = Ok false /\
    to_address_bits (E:=op_error) (commit_input c) = Ok (addr_bytes (key_address k)).
Proof.
  unfold commit_check. cbv zeta. intros (tip & Ht & H)%bind_Ok. apply parent_tip_Ok in Ht as [_ Ht]. rewrite Ht in H.
  destruct (Z.eqb_spec (commit_burn_fee c) 0) as [|Hfee]; [done|]. split; [done|]. apply bind_Ok in H as (first & _ & H). destruct (_ <? _); [done|].
  apply bind_Ok in H as (b & Hb%expect_inv & H). destruct b; [done|]. split; [done|]. destruct (_ <=? _); [done|].
  apply bind_Ok in H as (key & Hk%expect_inv & H). apply bind_Ok in H as (k & Hok & H). destruct key as [k'|]; [|done]. injection Hok as ->.
  apply bind_Ok in H as (u & Hu%expect_inv & H). destruct u; [done|]. apply bind_Ok in H as (? & _ & H). apply bind_Ok in H as (bits & Hbits & H).
  destruct (decide _) as [->|]; [|done]. by exists k.
Qed.
Lemma key_check_Ok db k burnchain header : key_check k burnchain header db = Ok () -> has_VRF_public_key db (public_key k) (bh_parent_block_hash header) = Ok false.
Proof.
  unfold key_check. cbv zeta. intros (tip & Ht & H)%bind_Ok. apply parent_tip_Ok in Ht as [_ Ht]. rewrite Ht in H.
  apply bind_Ok in H as (b & Hb%expect_inv & H). by destruct b.
Qed.

Lemma registered_available hist r k : r ∈ hist -> k ∈ r_keys r -> is_Some (key_available (public_key k) hist).
Proof.
  induction hist as [|r' hist IH]; intros Hr Hk; [by apply elem_of_nil in Hr|]. cbn [key_available]. destruct (decide _); [by eexists|].
  destruct (decide _) as [|Hout]; [by eexists|]. apply elem_of_cons in Hr as [->|Hr]; [|by apply IH]. exfalso. apply Hout. by apply list_elem_of_fmap_2.
Qed.
Lemma key_at_registered h v hist k : key_at h v hist = Some k -> exists r, r ∈ hist /\ k ∈ r_keys r.
Proof.
  unfold key_at. intros (r & Hr & Hk)%bind_Some. apply record_at_elem in Hr as [Hr _]. exists r. split; [done|].
  destruct (filter _ _) as [|k' l] eqn:Hf; [done|]. injection Hk as ->. assert (Hin : k ∈ k :: l) by by left. rewrite <-Hf in Hin.
  by apply list_elem_of_filter in Hin as [_ ?].
Qed.

(** * Steps *)

Context `{Hvrf : !VRFPublicKeys}.

(** How a block was processed: onto [parent], with the operations [ops] that passed
    its checks. *)
Record processed db (burnchain : Burnchain) (block : BurnchainBlock) (parent : BlockSnapshot) (ops : list BlockstackOperationType)
    (st : BurnchainStateTransition) (sn : BlockSnapshot) (root : list Z) (db' : BurnDB I) : Prop := {
  pr_bytes : block_bytes block;
  pr_parent : parent ∈ snapshots db /\ sn_burn_header_hash parent = burn_parent_block_hash block;
  pr_ops : Forall (fun op => op_burn_header_hash op = burn_block_hash block /\ op_bytes op /\ op_block_height op = burn_block_height block /\
    check_transaction db burnchain (block_header_of block parent) op = Ok ()) ops;
  pr_positions : NoDup (map op_vtxindex ops);
  pr_keys : NoDup (map public_key (omap key_of ops));
  pr_transition : from_block_ops db parent ops = Ok st;
  pr_snapshot : snapshot_of (block_header_of block parent) parent sn (burn_dist st);
  pr_append : append_chain_tip_snapshot db parent sn (accepted_ops st) (transition_consumed_leader_keys st) = Ok (db', root);
}.
Lemma keys_of_ops ops :
  omap (fun op => match op with LeaderKeyRegister k => Some (public_key k) | _ => None end) ops = map public_key (omap key_of ops).
Proof. induction ops as [|[k|c|u] ops IH]; csimpl; [done|by rewrite IH|done..]. Qed.
Lemma process_block_Ok db burnchain block db' sn : block_bytes block -> process_block db burnchain block = Ok (db', sn) ->
  exists parent ops st sn0 root, processed db burnchain block parent ops st sn0 root db' /\ sn = with_root sn0 root.
Proof.
  intros Hb. unfold process_block. intros ([header parent] & Ha & H)%bind_Ok. unfold get_burnchain_block_attachment_info in Ha.
  apply bind_Ok in Ha as (psn & Hp%expect_inv & Ha). apply bind_Ok in Ha as (p' & Hok & [= <- <-]). destruct psn as [psn|]; [|done]. injection Hok as ->.
  apply get_block_snapshot_Some in Hp as Hparent. apply bind_Ok in H as (txs & Htxs & H). apply (block_ops_read _ _ _ Hb) in Htxs.
  unfold process_block_txs in H. apply bind_Ok in H as (? & _ & H). apply bind_Ok in H as (? & _ & H). apply bind_Ok in H as (txs' & Hs & H).
  unfold apply_blockstack_txs_safety_checks in Hs. apply bind_Ok in Hs as (? & _ & Hs). apply bind_Ok in Hs as (? & Hh%rust_assert_Ok & [= <-]).
  unfold process_block_ops in H. apply bind_Ok in H as (ops & Hc & H). apply check_block_ops_Ok in Hc as (Hsub & Hck & Hnd & Hkeys).
  unfold process_checked_block_ops in H. apply bind_Ok in H as (st & Hst & H). apply bind_Ok in H as (sn0 & Hsn%map_err_inv%make_snapshot_Ok & H).
  apply bind_Ok in H as ([db1 root] & Happ%expect_inv & [= <- <-]).
  exists p', ops, st, sn0, root. split; [|done]. rewrite keys_of_ops in Hkeys. constructor; try done.
  rewrite Forall_forall in *. intros op Hop. specialize (Hck op Hop).
  assert (Hin : op ∈ by_vtx op_vtxindex txs) by (by eapply elem_of_submseteq, sublist_submseteq).
  rewrite forallb_forall in Hh. specialize (Hh op ltac:(by apply list_elem_of_In)). apply Z.eqb_eq in Hh.
  unfold by_vtx in Hin. rewrite merge_sort_Permutation in Hin. destruct (Htxs op Hin). by split_and!.
Qed.

Section step.
Context (db : BurnDB I) (burnchain : Burnchain) (block : BurnchainBlock) (parent : BlockSnapshot) (ops : list BlockstackOperationType).
Context (st : BurnchainStateTransition) (sn : BlockSnapshot) (root : list Z) (db' : BurnDB I).
Context (Hok : db_ok db) (Hpr : processed db burnchain block parent ops st sn root db').
Context (rp : BlockRecord) (hist : History) (Hrp : r_snapshot rp = parent) (Hv : valid (first_block_height db) (rp :: hist))
  (Href : refines db (sn_burn_header_hash parent) (rp :: hist)).
Definition new_record : BlockRecord := mkRecord (with_root sn root) (accepted_ops st) (transition_consumed_leader_keys st).

Lemma parent_known : parent ∈ snapshots db.
Proof. apply (pr_parent _ _ _ _ _ _ _ _ _ Hpr). Qed.
Lemma parent_hash : bh_parent_block_hash (block_header_of block parent) = sn_burn_header_hash parent.
Proof. symmetry. apply (pr_parent _ _ _ _ _ _ _ _ _ Hpr). Qed.
Lemma accepted_from op : op ∈ accepted_ops st -> op ∈ ops.
Proof. intros Hop. pose proof (from_block_ops_Ok _ _ _ _ (pr_transition _ _ _ _ _ _ _ _ _ Hpr)) as (_ & _ & _ & _ & Hsub & _). by eapply elem_of_submseteq. Qed.
Lemma op_facts op : op ∈ ops -> op_burn_header_hash op = burn_block_hash block /\ op_bytes op /\ op_block_height op = burn_block_height block /\
  check_transaction db burnchain (block_header_of block parent) op = Ok ().
Proof. apply (proj1 (Forall_forall _ _) (pr_ops _ _ _ _ _ _ _ _ _ Hpr)). Qed.
Lemma omap_key_elem (l : list BlockstackOperationType) k : k ∈ omap key_of l <-> LeaderKeyRegister k ∈ l.
Proof. rewrite list_elem_of_omap. split; [intros ([] & H & [= ->]); done|]. intros H. by exists (LeaderKeyRegister k). Qed.
Lemma omap_commit_elem (l : list BlockstackOperationType) c : c ∈ omap commit_of l <-> LeaderBlockCommit c ∈ l.
Proof. rewrite list_elem_of_omap. split; [intros ([] & H & [= ->]); done|]. intros H. by exists (LeaderBlockCommit c). Qed.

Lemma new_key_unused k : LeaderKeyRegister k ∈ ops -> key_available (public_key k) (rp :: hist) = None.
Proof.
  intros Hk. destruct (op_facts _ Hk) as (_ & Hb & _ & Hc%map_err_inv%key_check_Ok). rewrite parent_hash in Hc. cbn in Hb.
  apply (has_key_refines _ _ _ _ _ Hok parent_known Href Hb) in Hc. by apply eq_sym, bool_decide_eq_false, eq_None_not_Some in Hc.
Qed.
(** The key of a commit that passed its check. *)
Lemma commit_key_facts c : LeaderBlockCommit c ∈ ops ->
  commit_burn_fee c <> 0 /\ won_at (block_header_hash c) (rp :: hist) = None /\
  exists k, get_leader_key_at db (key_block_ptr c) (key_vtxindex c) (sn_burn_header_hash parent) = Ok (Some k) /\
    key_at (key_block_ptr c) (key_vtxindex c) (rp :: hist) = Some k /\ key_available (public_key k) (rp :: hist) = Some true /\
    to_address_bits (E:=op_error) (commit_input c) = Ok (addr_bytes (key_address k)).
Proof.
  intros Hc. destruct (op_facts _ Hc) as (_ & Hb & _ & Hck%map_err_inv%commit_check_Ok). cbn in Hb. rewrite parent_hash in Hck.
  destruct Hck as (Hfee & Hwon & k & Hk & Hused & Haddr). rewrite (won_refines _ _ _ _ Href Hb) in Hwon.
  apply Ok_inj, bool_decide_eq_false, eq_None_not_Some in Hwon. split_and!; [done..|]. exists k.
  pose proof (leader_key_refines _ _ _ _ _ _ Hok Hv Href Hk) as Hat. symmetry in Hat. split_and!; [done..| |done].
  destruct (key_at_registered _ _ _ _ Hat) as (r & Hr & Hkr). destruct (registered_available _ _ _ Hr Hkr) as [b Hav].
  assert (Hkb : Forall u8 (public_key k)).
  { destruct (proj1 (Forall_forall _ _) (ref_bytes _ _ _ Href) r Hr) as [Hks _]. by apply (proj1 (Forall_forall _ _) Hks). }
  apply (key_consumed_refines _ _ _ _ _ Hok parent_known Href Hkb) in Hused. symmetry in Hused. apply bool_decide_eq_false in Hused.
  rewrite Hav in *. by destruct b.
Qed.

Lemma submseteq_NoDup {A} (l k : list A) : l ⊆+ k -> NoDup k -> NoDup l.
Proof. intros (l' & Hp)%submseteq_Permutation. rewrite Hp. by intros (? & _)%NoDup_app. Qed.
Lemma consumed_from k : k ∈ transition_consumed_leader_keys st -> exists c, LeaderBlockCommit c ∈ ops /\
  get_leader_key_at db (key_block_ptr c) (key_vtxindex c) (sn_burn_header_hash parent) = Ok (Some k).
Proof.
  pose proof (from_block_ops_Ok _ _ _ _ (pr_transition _ _ _ _ _ _ _ _ _ Hpr)) as (Hf & _). intros Hk.
  apply list_elem_of_lookup in Hk as [i Hi]. destruct (Forall2_lookup_r _ _ _ _ _ Hf Hi) as (c & Hc & Hg). exists c. split; [|done].
  apply omap_commit_elem. by eapply list_elem_of_lookup_2.
Qed.
Lemma consumed_by c : LeaderBlockCommit c ∈ ops -> exists k, k ∈ transition_consumed_leader_keys st /\
  get_leader_key_at db (key_block_ptr c) (key_vtxindex c) (sn_burn_header_hash parent) = Ok (Some k).
Proof.
  pose proof (from_block_ops_Ok _ _ _ _ (pr_transition _ _ _ _ _ _ _ _ _ Hpr)) as (Hf & _). intros Hc%omap_commit_elem.
  apply list_elem_of_lookup in Hc as [i Hi]. destruct (Forall2_lookup_l _ _ _ _ _ Hf Hi) as (k & Hk & Hg). exists k. split; [|done].
  by eapply list_elem_of_lookup_2.
Qed.

Lemma parent_range : 0 <= sn_block_height parent < 2 ^ 63 /\ 0 <= num_sortitions parent < 2 ^ 63.
Proof. apply (proj1 (Forall_forall _ _) (ok_ranges _ Hok) _ parent_known). Qed.
Lemma step_extends : extends new_record rp hist.
Proof.
  pose proof (append_Ok _ _ _ _ _ _ _ (pr_append _ _ _ _ _ _ _ _ _ Hpr)) as (Hp & Hh & _ & Hn & _).
  pose proof (from_block_ops_Ok _ _ _ _ (pr_transition _ _ _ _ _ _ _ _ _ Hpr)) as (Hcons & Hlocs & Hcand & _ & Hsub & Hkeys & Hcommits).
  destruct (pr_snapshot _ _ _ _ _ _ _ _ _ Hpr) as (Hsh & _ & _ & Hwin). pose proof parent_range as [Hph Hpn].
  assert (Hsnh : sn_block_height sn = sn_block_height parent + 1) by (rewrite Hh; apply wrap_small; unfold in_u; lia).
  constructor; cbn [new_record r_snapshot r_ops r_consumed]; unfold r_keys, r_commits, r_hash; cbn [new_record r_snapshot r_ops r_consumed].
  - cbn. by rewrite Hrp.
  - cbn. by rewrite Hrp.
  - apply Forall_forall. intros op Hop%accepted_from. destruct (op_facts _ Hop) as (_ & _ & -> & _). cbn. by rewrite Hsh.
  - eapply submseteq_NoDup, (pr_positions _ _ _ _ _ _ _ _ _ Hpr). by apply fmap_submseteq.
  - rewrite Hkeys. apply (pr_keys _ _ _ _ _ _ _ _ _ Hpr).
  - intros k Hk. rewrite Hkeys in Hk. by apply new_key_unused, omap_key_elem.
  - intros k Hk. destruct (consumed_from _ Hk) as (c & Hc & Hg). destruct (commit_key_facts _ Hc) as (_ & _ & k' & Hg' & _ & Hav & _).
    rewrite Hg in Hg'. by injection Hg' as ->.
  - by rewrite Hcommits.
  - intros c Hc. rewrite Hcommits in Hc. apply omap_commit_elem in Hc. destruct (commit_key_facts _ Hc) as (Hfee & Hwon & k & Hg & Hat & _ & Haddr).
    split_and!; [done..|]. destruct (consumed_by _ Hc) as (k' & Hk' & Hg'). rewrite Hg in Hg'. injection Hg' as ->. by exists k'.
  - cbn [with_root sortition num_sortitions winning_block_txid winning_stacks_block_hash]. rewrite Hrp.
    rewrite wrap_small in Hn by (unfold in_u; destruct (sortition sn); lia). destruct (sortition sn); [|lia]. split; [done|].
    destruct Hwin as (p & Hpin & Ht & Hw). exists (candidate p). split_and!; [|done..]. rewrite Hcommits, <-Hcand. by apply list_elem_of_fmap_2.
Qed.

(** A block of another fork, or an older one, is left as it was. *)
Lemma new_hash : sn_burn_header_hash sn = burn_block_hash block.
Proof. by destruct (pr_snapshot _ _ _ _ _ _ _ _ _ Hpr) as (_ & ? & _). Qed.
Lemma new_rows_hash : (forall k, k ∈ omap key_of (accepted_ops st) -> key_burn_header_hash k = sn_burn_header_hash sn) /\
  (forall c, c ∈ omap commit_of (accepted_ops st) -> commit_burn_header_hash c = sn_burn_header_hash sn).
Proof.
  rewrite new_hash. split; [intros k Hk%omap_key_elem%accepted_from|intros c Hk%omap_commit_elem%accepted_from]; by destruct (op_facts _ Hk).
Qed.
Lemma rows_old r : rows_of db r -> rows_of db' r.
Proof.
  pose proof (append_Ok _ _ _ _ _ _ _ (pr_append _ _ _ _ _ _ _ _ _ Hpr)) as (_ & _ & _ & _ & _ & _ & Hsn & Hne & _ & Hks & Hcs & _).
  intros (Hin & Hk & Hc). pose proof (proj1 (Forall_forall _ _) Hne _ Hin) as Hneq. destruct new_rows_hash as [Hnk Hnc]. unfold rows_of.
  rewrite Hsn, Hks, Hcs. split_and!; [by apply elem_of_app; left|..].
  - intros k. rewrite Hk, elem_of_app. split; [naive_solver|]. intros [[?|Hnew] Heq]; [done|]. apply Hnk in Hnew. exfalso. apply Hneq. unfold r_hash in Heq. congruence.
  - intros c. rewrite Hc, elem_of_app. split; [naive_solver|]. intros [[?|Hnew] Heq]; [done|]. apply Hnc in Hnew. exfalso. apply Hneq. unfold r_hash in Heq. congruence.
Qed.
Lemma refines_old s h : s ∈ snapshots db -> refines db (sn_burn_header_hash s) h -> refines db' (sn_burn_header_hash s) h.
Proof.
  pose proof (append_Ok _ _ _ _ _ _ _ (pr_append _ _ _ _ _ _ _ _ _ Hpr)) as (_ & _ & _ & _ & _ & Hput & _ & Hne & _).
  apply put_indexed_fresh in Hput as (_ & _ & _ & Hother). intros Hs [Hc Hval Hr Hb].
  pose proof (proj1 (Forall_forall _ _) Hne _ Hs) as Hneq. destruct (Hother _ Hneq) as [E1 E2]. constructor.
  - by rewrite E1.
  - by rewrite E2.
  - eapply Forall_impl; [apply Hr|]. apply rows_old.
  - done.
Qed.
Lemma new_record_rows : rows_of db' new_record.
Proof.
  pose proof (append_Ok _ _ _ _ _ _ _ (pr_append _ _ _ _ _ _ _ _ _ Hpr)) as (_ & _ & _ & _ & _ & Hput & Hsn & _ & _ & Hks & Hcs & _).
  apply put_indexed_fresh in Hput as (Hnone & _). destruct new_rows_hash as [Hnk Hnc]. unfold rows_of, new_record, r_keys, r_commits, r_hash.
  cbn [r_snapshot r_ops]. rewrite Hsn, Hks, Hcs. cbn [with_root sn_burn_header_hash]. split_and!.
  - apply elem_of_app. right. by left.
  - intros k. rewrite elem_of_app. split; [intros Hk; split; [by right|by apply Hnk]|]. intros [[Hold|?] Heq]; [|done]. exfalso.
    pose proof (ok_keys_known _ Hok _ Hold) as Hkn. rewrite Heq, Hnone in Hkn. by apply is_Some_None in Hkn.
  - intros c. rewrite elem_of_app. split; [intros Hk; split; [by right|by apply Hnc]|]. intros [[Hold|?] Heq]; [|done]. exfalso.
    pose proof (ok_commits_known _ Hok _ Hold) as Hkn. rewrite Heq, Hnone in Hkn. by apply is_Some_None in Hkn.
Qed.

Lemma new_record_bytes : record_bytes new_record.
Proof.
  destruct (pr_bytes _ _ _ _ _ _ _ _ _ Hpr) as (Hbh & Hlen & _). destruct (pr_snapshot _ _ _ _ _ _ _ _ _ Hpr) as (_ & _ & _ & Hwin).
  pose proof (from_block_ops_Ok _ _ _ _ (pr_transition _ _ _ _ _ _ _ _ _ Hpr)) as (_ & _ & Hcand & _).
  unfold record_bytes, new_record, r_keys, r_hash. cbn [r_snapshot r_ops r_consumed with_root winning_stacks_block_hash sn_burn_header_hash].
  rewrite new_hash. split_and!; [..|done|done].
  - apply Forall_forall. intros k Hk%omap_key_elem%accepted_from. by destruct (op_facts _ Hk) as (_ & Hb & _).
  - apply Forall_forall. intros k Hk. destruct (consumed_from _ Hk) as (c & Hc & Hg). destruct (commit_key_facts _ Hc) as (_ & _ & k' & Hg' & Hat & _).
    rewrite Hg in Hg'. injection Hg' as ->. destruct (key_at_registered _ _ _ _ Hat) as (r & Hr & Hkr).
    destruct (proj1 (Forall_forall _ _) (ref_bytes _ _ _ Href) r Hr) as [Hks _]. by apply (proj1 (Forall_forall _ _) Hks).
  - destruct (sortition sn); [|rewrite Hwin; by repeat constructor]. destruct Hwin as (p & Hp & _ & ->).
    assert (Hin : LeaderBlockCommit (candidate p) ∈ ops) by (apply omap_commit_elem; rewrite <-Hcand; by apply list_elem_of_fmap_2).
    by destruct (op_facts _ Hin) as (_ & Hb & _).
Qed.
Lemma refines_new : refines db' (sn_burn_header_hash sn) (new_record :: rp :: hist).
Proof.
  pose proof (append_Ok _ _ _ _ _ _ _ (pr_append _ _ _ _ _ _ _ _ _ Hpr)) as (Hp & _ & _ & _ & _ & Hput & _).
  apply put_indexed_fresh in Hput as (_ & (c & Hc & Hchain) & Hval & _). rewrite Hp in *. rewrite (ref_chain _ _ _ Href) in Hc. constructor.
  - rewrite Hchain. destruct Hc as [[= <-]|(_ & ? & _)]; [|done]. f_equal. cbn [map]. symmetry. rewrite reverse_cons. done.
  - rewrite Hval, (ref_values _ _ _ Href). done.
  - constructor; [apply new_record_rows|]. eapply Forall_impl; [apply (ref_rows _ _ _ Href)|]. apply rows_old.
  - constructor; [apply new_record_bytes|apply (ref_bytes _ _ _ Href)].
Qed.
Lemma chain_known b : is_Some (chain (index db) b) -> is_Some (chain (index db') b).
Proof.
  pose proof (append_Ok _ _ _ _ _ _ _ (pr_append _ _ _ _ _ _ _ _ _ Hpr)) as (_ & _ & _ & _ & _ & Hput & _).
  apply put_indexed_fresh in Hput as (Hnone & _ & _ & Hother). intros Hb. destruct (decide (b = sn_burn_header_hash sn)) as [->|Hne].
  - rewrite Hnone in Hb. by apply is_Some_None in Hb.
  - by rewrite (proj1 (Hother _ Hne)).
Qed.
Lemma step_first : first_block_height db' = first_block_height db.
Proof. by pose proof (append_Ok _ _ _ _ _ _ _ (pr_append _ _ _ _ _ _ _ _ _ Hpr)) as (_ & _ & _ & _ & _ & _ & _ & _ & ? & _). Qed.
Lemma step_ok : db_ok db'.
Proof.
  pose proof (append_Ok _ _ _ _ _ _ _ (pr_append _ _ _ _ _ _ _ _ _ Hpr)) as (_ & Hh & Hmax & Hn & Hmax' & Hput & Hsn & Hne & _ & Hks & Hcs & Hnd).
  pose proof (ref_chain _ _ _ refines_new) as Hchain. destruct new_rows_hash as [Hnk Hnc]. constructor.
  - rewrite Hsn, map_app. apply NoDup_app. split_and!; [apply ok_hashes, Hok| |apply NoDup_singleton].
    intros x Hx Hx'. apply list_elem_of_singleton in Hx' as ->. apply list_elem_of_fmap in Hx as (s & Heq & Hs).
    by apply (proj1 (Forall_forall _ _) Hne _ Hs).
  - apply Hnd, (ok_commits _ Hok).
  - intros k. rewrite Hks, elem_of_app. intros [Hk|Hk]; [apply chain_known; by apply (ok_keys_known _ Hok)|]. rewrite (Hnk _ Hk), Hchain. by eexists.
  - intros c. rewrite Hcs, elem_of_app. intros [Hc|Hc]; [apply chain_known; by apply (ok_commits_known _ Hok)|]. rewrite (Hnc _ Hc), Hchain. by eexists.
  - rewrite Hsn. apply Forall_app. split; [apply (ok_ranges _ Hok)|]. apply Forall_singleton. cbn. unfold BLOCK_HEIGHT_MAX in *.
    pose proof parent_range as [Hph Hpn]. rewrite wrap_small in Hh, Hn by (unfold in_u; destruct (sortition sn); lia). destruct (sortition sn); lia.
  - rewrite Hsn. intros s Hs. rewrite step_first. apply elem_of_app in Hs as [Hs|Hs].
    + destruct (ok_forks _ Hok _ Hs) as (r & h & Hr & Hvr & Hrr). exists r, h. split_and!; [done..|by apply refines_old].
    + apply list_elem_of_singleton in Hs as ->. exists new_record, (rp :: hist). split_and!; [done| |apply refines_new].
      constructor; [done|apply step_extends].
Qed.
End step.

Lemma process_block_preserves db burnchain block db' sn :
  db_ok db -> block_bytes block -> process_block db burnchain block = Ok (db', sn) -> db_ok db' /\ first_block_height db' = first_block_height db.
Proof.
  intros Hok Hb H. apply process_block_Ok in H as (parent & ops & st & sn0 & root & Hpr & _); [|done].
  destruct (ok_forks _ Hok _ (proj1 (pr_parent _ _ _ _ _ _ _ _ _ Hpr))) as (rp & hist & Hrp & Hv & Href). split; [|by eapply step_first].
  by eapply step_ok.
Qed.

(** * Reachable databases *)

Lemma instantiate_ok i first_height hash timestamp db :
  (forall b, chain i b = None) -> 0 <= first_height -> Forall u8 hash -> length hash = 32%nat ->
  instantiate i first_height hash timestamp = Ok db -> db_ok db /\ first_block_height db = first_height.
Proof.
  intros Hempty H0 Hb Hl. unfold instantiate. cbv zeta. intros (? & _ & H)%bind_Ok. apply bind_Ok in H as ([db1 root] & Hi & H).
  apply bind_Ok in Hi as (? & _ & Hi). apply bind_Ok in Hi as ([i' root'] & Hput & [= <- <-]).
  apply bind_Ok in H as (? & Hsql & H). apply bind_Ok in H as (? & _ & [= <-]). split; [|done]. unfold sql_u64 in Hsql.
  destruct (Z.ltb_spec (2 ^ 63 - 1) first_height) as [|Hmax]; [done|]. clear Hsql.
  apply put_indexed_fresh in Hput as (_ & (c & Hc & Hchain) & Hval & _). cbn [index] in *. rewrite (values_unknown i) in Hval by apply Hempty.
  destruct Hc as [Hc|(_ & _ & ->)]; [by rewrite Hempty in Hc|].
  constructor; cbn [snapshots block_commits leader_keys index first_block_height].
  - apply NoDup_singleton.
  - constructor.
  - by intros k Hk%elem_of_nil.
  - by intros k Hk%elem_of_nil.
  - apply Forall_singleton. cbn. lia.
  - intros sn Hsn. apply list_elem_of_singleton in Hsn as ->. eexists (mkRecord _ [] []), []. split_and!; [reflexivity|by constructor|].
    constructor; [exact Hchain|exact Hval|..]; apply Forall_singleton.
    + split_and!; [by left|..]; intros ?; cbn; rewrite !elem_of_nil; naive_solver.
    + split_and!; [constructor|constructor|by repeat constructor|done|done].
Qed.

(** The databases that a node can have: new ones, and those after some blocks. *)
Inductive reachable (burnchain : Burnchain) : BurnDB I -> Prop :=
| reachable_new i timestamp db :
    (forall b, chain i b = None) -> instantiate i (burnchain_first_block_height burnchain) (first_block_hash burnchain) timestamp = Ok db ->
    reachable burnchain db
| reachable_block db block db' sn :
    reachable burnchain db -> block_bytes block -> process_block db burnchain block = Ok (db', sn) -> reachable burnchain db'.
Definition burnchain_bytes (burnchain : Burnchain) : Prop :=
  0 <= burnchain_first_block_height burnchain /\ Forall u8 (first_block_hash burnchain) /\ length (first_block_hash burnchain) = 32%nat.
Lemma reachable_ok burnchain db : burnchain_bytes burnchain -> reachable burnchain db ->
  db_ok db /\ first_block_height db = burnchain_first_block_height burnchain.
Proof.
  intros (H0 & Hb & Hl). induction 1 as [i ts db Hempty Hi|db block db' sn _ [IH IHf] Hbytes H]; [by eapply instantiate_ok|].
  destruct (process_block_preserves _ _ _ _ _ IH Hbytes H) as [? ->]. done.
Qed.

(** C19. The database refines the fork machine: every snapshot of a database that a
    node can have is the tip of a history in which each block followed from the ones
    before it, and the tables and the index hold this history. *)
Theorem burn_database_refines burnchain db sn :
  burnchain_bytes burnchain -> reachable burnchain db -> sn ∈ snapshots db ->
  exists r hist, r_snapshot r = sn /\ valid (burnchain_first_block_height burnchain) (r :: hist) /\ refines db (sn_burn_header_hash sn) (r :: hist).
Proof. intros Hb Hr Hsn. destruct (reachable_ok _ _ Hb Hr) as [Hok <-]. by apply ok_forks. Qed.

(** The blocks of a fork, as the database finds them. *)
Definition on_fork db (tip : BlockSnapshot) (a : BlockSnapshot) : Prop :=
  exists height, get_ancestor_snapshot db height (sn_burn_header_hash tip) = Ok (Some a).
Lemma on_fork_history db tip a r hist :
  db_ok db -> valid (first_block_height db) (r :: hist) -> refines db (sn_burn_header_hash tip) (r :: hist) -> on_fork db tip a ->
  exists ra, ra ∈ r :: hist /\ r_snapshot ra = a.
Proof.
  intros Hok Hv Href [h Hh]. apply (ancestor_refines _ _ _ _ _ Hok Hv Href) in Hh. destruct (record_at h (r :: hist)) as [ra|] eqn:Hra; [|done].
  injection Hh as ->. apply record_at_elem in Hra as [? _]. by exists ra.
Qed.

(** C17. A Stacks block wins at most one sortition of a fork. *)
Theorem no_block_wins_twice burnchain db tip a b :
  burnchain_bytes burnchain -> reachable burnchain db -> tip ∈ snapshots db -> on_fork db tip a -> on_fork db tip b ->
  sortition a = true -> sortition b = true -> winning_stacks_block_hash a = winning_stacks_block_hash b -> a = b.
Proof.
  intros Hb Hr Htip Ha Hb' Hsa Hsb Hw. destruct (reachable_ok _ _ Hb Hr) as [Hok _]. destruct (ok_forks _ Hok _ Htip) as (r & hist & Hrt & Hv & Href).
  destruct (on_fork_history _ _ _ _ _ Hok Hv Href Ha) as (ra & Hra & <-). destruct (on_fork_history _ _ _ _ _ Hok Hv Href Hb') as (rb & Hrb & <-).
  f_equal. by eapply valid_wins_once.
Qed.

(** C18. A leader key is used by at most one block commit of a fork. *)
Theorem leader_key_used_once burnchain db tip a b c d :
  burnchain_bytes burnchain -> reachable burnchain db -> tip ∈ snapshots db -> on_fork db tip a -> on_fork db tip b ->
  c ∈ block_commits db -> commit_burn_header_hash c = sn_burn_header_hash a ->
  d ∈ block_commits db -> commit_burn_header_hash d = sn_burn_header_hash b ->
  key_block_ptr c = key_block_ptr d -> key_vtxindex c = key_vtxindex d -> c = d.
Proof.
  intros Hb Hr Htip Ha Hb' Hc Hca Hd Hdb Hp Hx. destruct (reachable_ok _ _ Hb Hr) as [Hok _].
  destruct (ok_forks _ Hok _ Htip) as (r & hist & Hrt & Hv & Href).
  destruct (on_fork_history _ _ _ _ _ Hok Hv Href Ha) as (ra & Hra & <-). destruct (on_fork_history _ _ _ _ _ Hok Hv Href Hb') as (rb & Hrb & <-).
  destruct (proj1 (Forall_forall _ _) (ref_rows _ _ _ Href) ra Hra) as (_ & _ & Hca'). destruct (proj1 (Forall_forall _ _) (ref_rows _ _ _ Href) rb Hrb) as (_ & _ & Hdb').
  eapply (valid_key_once _ _ ra rb); [done..|by apply Hca'|by apply Hdb'|]. unfold commit_key_loc. congruence.
Qed.

(** * Commits with the same key *)

Lemma index_from_dup {E A K : Type} `{Countable K} (loc : A -> K) rows i m : ~ NoDup (map loc rows) -> index_from (E:=E) loc i m rows = Panic.
Proof.
  intros Hd. destruct (index_from loc i m rows) as [m'|e|] eqn:Hi; [|exfalso|done].
  - by apply index_from_Ok in Hi as [? _].
  - clear Hd. revert i m Hi. induction rows as [|row rows IH]; cbn; intros i m; [done|]. destruct (m !! loc row); [done|apply IH].
Qed.
Lemma mapMR_all {E A B} (f : A -> Res E B) l : (forall x, x ∈ l -> exists y, f x = Ok y) -> exists ys, mapMR f l = Ok ys.
Proof.
  induction l as [|x l IH]; intros H; [by exists []|]. destruct (H x ltac:(by left)) as [y Hy].
  destruct IH as [ys Hys]; [intros x' Hx'; apply H; by right|]. exists (y :: ys). cbn. by rewrite Hy, Hys.
Qed.
(** C39. A block in which two commits that pass all checks name the same leader key
    makes the processing panic, although the distribution is meant to keep the first
    commit and drop the others. *)
Theorem same_key_commits_panic db burnchain parent header txs ops c d :
  bh_parent_block_hash header = sn_burn_header_hash parent -> check_block_ops db burnchain header txs = Ok ops ->
  LeaderBlockCommit c ∈ ops -> LeaderBlockCommit d ∈ ops -> c <> d -> commit_key_loc c = commit_key_loc d ->
  process_block_ops db burnchain parent header txs = Panic.
Proof.
  intros Hp Hck Hc Hd Hne Hloc. unfold process_block_ops. rewrite Hck. cbn [mbind res_bind].
  apply check_block_ops_Ok in Hck as (_ & Hall & _). unfold process_checked_block_ops, from_block_ops. rewrite <-Hp.
  destruct (ops_are_sorted ops); [|done]. cbn [rust_assert mbind res_bind].
  destruct (mapMR_all (fun c => key ← get_leader_key_at db (key_block_ptr c) (key_vtxindex c) (bh_parent_block_hash header); expect_opt (E:=db_error) key)
    (omap commit_of ops)) as [keys Hkeys].
  { intros x Hx%omap_commit_elem. pose proof (proj1 (Forall_forall _ _) Hall _ Hx) as Hx'. apply map_err_inv, commit_check_Ok in Hx' as (_ & _ & k & Hk & _).
    exists k. by rewrite Hk. }
  unfold get_consumed_leader_keys. rewrite Hkeys. cbn [map_err mbind res_bind]. apply mapMR_Ok_Forall2 in Hkeys.
  assert (Heq : map commit_key_loc (omap commit_of ops) = map key_loc keys).
  { induction Hkeys as [|x k l ks Hk _ IH]; [done|]. cbn [map]. rewrite IH. f_equal. apply bind_Ok in Hk as (key & Hk & He%expect_opt_Ok).
    subst key. by apply get_leader_key_at_Some in Hk as [_ ->]. }
  apply omap_commit_elem in Hc, Hd. assert (Hdup : ~ NoDup (map key_loc keys)) by (rewrite <-Heq; intros Hnd; by apply Hne, (NoDup_map_inj commit_key_loc _ _ _ Hnd)).
  unfold make_distribution. rewrite match_nonempty by (intros E; rewrite E in Hc; by apply elem_of_nil in Hc).
  unfold ops_sanity_checks. destruct (_ && _); [|done]. cbn [rust_assert mbind res_bind]. by rewrite index_from_dup.
Qed.

(** * Sortitions happen *)

Lemma valid_last_sortition first hist : valid first hist -> exists r, last_sortition hist = Some r /\ r ∈ hist /\
  (is_initial (r_snapshot r) = true \/ exists c, c ∈ r_commits r /\ winning_block_txid (r_snapshot r) = commit_txid c).
Proof.
  induction 1 as [sn [Hf Hi] Hs|r parent hist H IH Hext].
  - eexists. cbn. rewrite Hs. split_and!; [done|by left|by left].
  - cbn [last_sortition]. pose proof (ext_winner _ _ _ Hext) as Hw. destruct (sortition (r_snapshot r)).
    + exists r. split_and!; [done|by left|]. right. destruct Hw as (_ & c & Hc & Ht & _). by exists c.
    + destruct IH as (r' & Hl & Hin & Hr'). exists r'. split_and!; [done|by right|done].
Qed.
Lemma hash_from_hex_to_hex h : Forall u8 h -> length h = 32%nat -> hash_from_hex (to_hex h) = Some h.
Proof. intros Hb Hl. unfold hash_from_hex. by rewrite hex_bytes_to_hex, Hl. Qed.
Lemma get_block_commit_known db c : db_ok db -> c ∈ block_commits db ->
  get_block_commit db (commit_txid c) (commit_burn_header_hash c) = Ok (Some c).
Proof.
  intros Hok Hc. unfold get_block_commit.
  rewrite (list_filter_iff _ (fun op => (commit_txid op, commit_burn_header_hash op) = (commit_txid c, commit_burn_header_hash c))).
  - by rewrite (filter_unique (fun op => (commit_txid op, commit_burn_header_hash op))) by (done || apply ok_commits, Hok).
  - intros op. split; [by intros [-> ->]|by intros [= -> ->]].
Qed.
Lemma last_VRF_seed_known db header parent : db_ok db -> parent ∈ snapshots db -> sn_burn_header_hash parent = bh_parent_block_hash header ->
  bh_block_height header = sn_block_height parent + 1 -> sn_block_height parent < BLOCK_HEIGHT_MAX -> exists seed, last_VRF_seed db header = Ok seed.
Proof.
  intros Hok Hp Hhash Hheight Hmax. destruct (ok_forks _ Hok _ Hp) as (r & hist & Hr & Hv & Href).
  pose proof (proj1 (Forall_forall _ _) (ok_ranges _ Hok) _ Hp) as [Hrange _]. unfold last_VRF_seed, get_last_snapshot_with_sortition.
  rewrite Hheight, <-Hhash. replace (sn_block_height parent + 1 - 1) with (sn_block_height parent) by lia. rewrite wrap_small by (unfold in_u; lia).
  rewrite (proj2 (Z.ltb_lt _ _) Hmax). cbn [rust_assert mbind res_bind]. rewrite get_block_snapshot_known by done. cbn [mbind res_bind].
  rewrite Z.eqb_refl. cbn [rust_assert mbind res_bind]. rewrite (index_refines _ _ _ _ Href). cbn [mbind res_bind]. rewrite history_values_last.
  destruct (valid_last_sortition _ _ Hv) as (rl & Hl & Hin & Hwin). rewrite Hl. cbn [option_map].
  destruct (proj1 (Forall_forall _ _) (ref_bytes _ _ _ Href) rl Hin) as (_ & _ & _ & Hb & Hlen). rewrite hash_from_hex_to_hex by done.
  cbn [expect_opt mbind res_bind]. unfold r_hash at 1. pose proof (ref_snapshot _ _ _ _ Href Hin) as Hsl. rewrite get_block_snapshot_known by done.
  cbn [expect_opt mbind res_bind expect]. destruct (is_initial (r_snapshot rl)) eqn:Hi; [by eexists|]. destruct Hwin as [?|(c & Hc & Ht)]; [done|].
  destruct (proj1 (Forall_forall _ _) (ref_rows _ _ _ Href) rl Hin) as (_ & _ & Hrows). apply Hrows in Hc as [Hc Heq]. unfold r_hash in Heq.
  rewrite Ht, <-Heq, get_block_commit_known by done. cbn [expect_opt mbind res_bind]. by eexists.
Qed.

Lemma ancestor_known db tip hist h : db_ok db -> valid (first_block_height db) hist -> refines db tip hist ->
  h < BLOCK_HEIGHT_MAX -> h - first_block_height db < 2 ^ 32 - 1 ->
  get_ancestor_snapshot db h tip = Ok (option_map r_snapshot (record_at h hist)).
Proof.
  intros Hok Hv Href Hmax H32. assert (exists res, get_ancestor_snapshot db h tip = Ok res) as [res Hres].
  2: { rewrite Hres. f_equal. by apply (ancestor_refines _ _ _ _ _ Hok Hv Href). }
  unfold get_ancestor_snapshot, burndb_get_ancestor_block_hash. rewrite (proj2 (Z.ltb_lt _ _) Hmax). cbn [rust_assert mbind res_bind].
  destruct (Z.ltb_spec h (first_block_height db)); [by eexists|]. rewrite (proj2 (Z.ltb_lt _ _) H32). cbn [rust_assert mbind res_bind].
  rewrite (get_ancestor_known _ _ _ _ (ref_chain _ _ _ Href)) by lia. cbn [mbind res_bind].
  destruct (_ !! _) as [b|] eqn:Hb; [|by eexists]. apply list_elem_of_lookup_2, elem_of_reverse, list_elem_of_fmap in Hb as (r & -> & Hr).
  eexists. by apply get_block_snapshot_known; [|eapply ref_snapshot].
Qed.
(** The loop over the previous consensus hashes ends before the shift overflows. *)
Lemma prev_hashes_total db tip hist first height : db_ok db -> valid (first_block_height db) hist -> refines db tip hist ->
  height < BLOCK_HEIGHT_MAX -> height - first_block_height db < 2 ^ 32 - 1 ->
  forall fuel i, (fuel = 64 - i)%nat -> (i <= 63)%nat -> 2 ^ Z.of_nat i - 1 <= height -> exists chs, prev_hashes db fuel (Z.of_nat i) height first tip = Ok chs.
Proof.
  intros Hok Hv Href Hmax H32. induction fuel as [|fuel IH]; intros i Hfuel Hi Hpow; [lia|]. cbn [prev_hashes]. destruct (_ <=? _); [|by eexists].
  pose proof (Z.pow_pos_nonneg 2 (Z.of_nat i) ltac:(lia) ltac:(lia)).
  unfold get_consensus_at. rewrite (proj2 (Z.ltb_lt (height - (2 ^ Z.of_nat i - 1)) BLOCK_HEIGHT_MAX)) by lia. cbn [rust_assert mbind res_bind].
  rewrite (ancestor_known _ _ _ _ Hok Hv Href) by lia. cbn [expect mbind res_bind].
  destruct (Z.ltb_spec height (2 ^ (Z.of_nat i + 1) - 1)) as [|Hge]; [by eexists|].
  replace (Z.of_nat i + 1) with (Z.of_nat (S i)) in * by lia.
  assert (i <> 63%nat) by (intros ->; unfold BLOCK_HEIGHT_MAX in Hmax; change (Z.of_nat 64) with 64 in Hge; lia).
  destruct (IH (S i)) as [chs Hchs]; [lia..|]. rewrite Hchs. by eexists.
Qed.
Lemma consensus_known db parent opshash first this total : db_ok db -> parent ∈ snapshots db -> sn_block_height parent < BLOCK_HEIGHT_MAX ->
  sn_block_height parent - first_block_height db < 2 ^ 32 - 1 ->
  exists ch, from_parent_block_data db opshash (sn_block_height parent) first (sn_burn_header_hash parent) this total = Ok ch.
Proof.
  intros Hok Hp Hmax H32. destruct (ok_forks _ Hok _ Hp) as (r & hist & Hr & Hv & Href).
  pose proof (proj1 (Forall_forall _ _) (ok_ranges _ Hok) _ Hp) as [Hrange _].
  destruct (prev_hashes_total _ _ _ first _ Hok Hv Href Hmax H32 64 0 eq_refl ltac:(lia) ltac:(cbn; lia)) as [chs Hchs].
  unfold from_parent_block_data, get_prev_consensus_hashes. change 0 with (Z.of_nat 0). rewrite Hchs. by eexists.
Qed.

End refinement.
