(* ===== verification/PostConditions.v ===== *)
(** Post-conditions of transactions: [check_transaction_postconditions] of
    src/chainstate/stacks/db/transactions.rs, and what it decides. *)
From stdpp Require Import base strings numbers list gmap sets.
From Stdlib Require Import ZArith Lia.
From S2P Require Import Prelude Names Types AssetMap StacksTypes.
#[local] Open Scope Z_scope.

(** * The check *)

Definition asset_id (asset_info : AssetInfo) : AssetIdentifier :=
  mkAssetId (mkContractId (StandardPrincipalData_from (info_contract_address asset_info)) (info_contract_name asset_info))
    (info_asset_name asset_info).

(** The assets that conditions were checked for.  A set of values is a list: equal
    values have equal encodings, of which their hash is made, so that what the set
    contains is decided by equality. *)
Record Checked := mkChecked {
  checked_fungible_assets : gmap PrincipalData (gset AssetIdentifier);
  checked_nonfungible_assets : gmap PrincipalData (gmap AssetIdentifier (list Value));
}.

Definition add_fungible (c : Checked) (principal : PrincipalData) (ids : gset AssetIdentifier) : Checked :=
  mkChecked
    (match checked_fungible_assets c !! principal with
     | Some asset_ids => <[principal := asset_ids ∪ ids]> (checked_fungible_assets c)
     | None => <[principal := ids]> (checked_fungible_assets c)
     end) (checked_nonfungible_assets c).

Definition add_nonfungible (c : Checked) (principal : PrincipalData) (asset : AssetIdentifier) (v : Value) : Checked :=
  mkChecked (checked_fungible_assets c)
    (match checked_nonfungible_assets c !! principal with
     | Some asset_id_map =>
       <[principal := match asset_id_map !! asset with
                      | Some asset_values => <[asset := v :: asset_values]> asset_id_map
                      | None => <[asset := [v]]> asset_id_map
                      end]> (checked_nonfungible_assets c)
     | None => <[principal := {[asset := [v]]}]> (checked_nonfungible_assets c)
     end).

Section check.
Context (origin_principal : PrincipalData) (m : AssetMap).

(** The two identifiers of STX, if there was any sent or burnt. *)
Definition stx_ids (amount_transferred amount_burned : Z) : gset AssetIdentifier :=
  (if 0 <? amount_transferred then {[AssetIdentifier_STX]} else ∅) ∪
  (if 0 <? amount_burned then {[AssetIdentifier_STX_burned]} else ∅).

(** One round of the loop over the conditions; [None] stands for [return false]. *)
Definition check_condition (c : Checked) (postcond : TransactionPostCondition) : Res Empty_set (option Checked) :=
  match postcond with
  | PC_STX principal condition_code amount_sent_condition =>
    let account_principal := to_principal_data principal origin_principal in
    let amount_transferred := default 0 (get_stx m account_principal) in
    let amount_burned := default 0 (get_stx_burned m account_principal) in
    amount_sent ← expect_opt (checked_add 128 amount_transferred amount_burned);
    if fungible_check condition_code amount_sent_condition amount_sent
    then Ok (Some (add_fungible c account_principal (stx_ids amount_transferred amount_burned)))
    else Ok None
  | PC_Fungible principal asset_info condition_code amount_sent_condition =>
    let account_principal := to_principal_data principal origin_principal in
    let amount_sent := default 0 (get_fungible_tokens m account_principal (asset_id asset_info)) in
    if fungible_check condition_code amount_sent_condition amount_sent
    then Ok (Some (add_fungible c account_principal {[asset_id asset_info]}))
    else Ok None
  | PC_Nonfungible principal asset_info asset_value condition_code =>
    let account_principal := to_principal_data principal origin_principal in
    let assets_sent := default [] (get_nonfungible_tokens m account_principal (asset_id asset_info)) in
    if nonfungible_check condition_code asset_value assets_sent
    then Ok (Some (add_nonfungible c account_principal (asset_id asset_info) asset_value))
    else Ok None
  end.

Fixpoint check_conditions (c : Checked) (post_conditions : list TransactionPostCondition) : Res Empty_set (option Checked) :=
  match post_conditions with
  | [] => Ok (Some c)
  | postcond :: post_conditions =>
    r ← check_condition c postcond;
    match r with
    | Some c => check_conditions c post_conditions
    | None => Ok None
    end
  end.

(** One entry of the table of assets, in the check that it is covered. *)
Definition entry_covered (c : Checked) (principal : PrincipalData) (asset : AssetIdentifier) (entry : AssetMapEntry) : bool :=
  match entry with
  | EntryAsset values =>
    match checked_nonfungible_assets c !! principal with
    | Some checked_nft_asset_map =>
      match checked_nft_asset_map !! asset with
      | Some nfts => forallb (fun v => existsb (value_eqb v) nfts) values
      | None => false
      end
    | None => false
    end
  | _ =>
    match checked_fungible_assets c !! principal with
    | Some checked_ft_asset_ids => bool_decide (asset ∈ checked_ft_asset_ids)
    | None => false
    end
  end.

Definition all_covered (c : Checked) : bool :=
  forallb (fun '(principal, assets) =>
    forallb (fun '(asset_identifier, asset_entry) => entry_covered c principal asset_identifier asset_entry)
      (map_to_list assets)) (map_to_list (to_table m)).

Definition check_transaction_postconditions (post_conditions : list TransactionPostCondition)
    (post_condition_mode : TransactionPostConditionMode) : Res Empty_set bool :=
  r ← check_conditions (mkChecked ∅ ∅) post_conditions;
  match r with
  | None => Ok false
  | Some c => if decide (post_condition_mode = Allow) then Ok true else Ok (all_covered c)
  end.

(** * What it decides *)

(** The condition holds of what was sent. *)
Definition sent_as (code : FungibleConditionCode) (sent amount : Z) : Prop :=
  match code with
  | SentEq => sent = amount
  | SentGt => sent > amount
  | SentGe => sent >= amount
  | SentLt => sent < amount
  | SentLe => sent <= amount
  end.
Definition condition_holds (c : TransactionPostCondition) : Prop :=
  match c with
  | PC_STX principal code amount =>
    let p := to_principal_data principal origin_principal in
    sent_as code (default 0 (get_stx m p) + default 0 (get_stx_burned m p)) amount
  | PC_Fungible principal info code amount =>
    sent_as code (default 0 (get_fungible_tokens m (to_principal_data principal origin_principal) (asset_id info))) amount
  | PC_Nonfungible principal info v code =>
    let sent := exists v', v' ∈ default [] (get_nonfungible_tokens m (to_principal_data principal origin_principal) (asset_id info)) /\
                  value_eqb v' v = true in
    match code with Sent => sent | NotSent => ~ sent end
  end.

(** The condition is about the fungible asset [x] of [p]. *)
Definition about_fungible (p : PrincipalData) (x : AssetIdentifier) (c : TransactionPostCondition) : Prop :=
  match c with
  | PC_STX principal _ _ =>
    to_principal_data principal origin_principal = p /\
    ((x = AssetIdentifier_STX /\ 0 < default 0 (get_stx m p)) \/
     (x = AssetIdentifier_STX_burned /\ 0 < default 0 (get_stx_burned m p)))
  | PC_Fungible principal info _ _ => to_principal_data principal origin_principal = p /\ asset_id info = x
  | PC_Nonfungible _ _ _ _ => False
  end.
(** The condition is about the asset [x] of [p], and a value that satisfies [P]. *)
Definition about_nonfungible (p : PrincipalData) (x : AssetIdentifier) (P : Value -> Prop) (c : TransactionPostCondition) : Prop :=
  match c with
  | PC_Nonfungible principal info v _ => to_principal_data principal origin_principal = p /\ asset_id info = x /\ P v
  | _ => False
  end.

(** The conditions say something about an entry of the record of assets. *)
Definition mentioned (conds : list TransactionPostCondition) (p : PrincipalData) (x : AssetIdentifier) (e : AssetMapEntry) : Prop :=
  match e with
  | EntryAsset values =>
    Exists (about_nonfungible p x (fun _ => True)) conds /\
    forall v, v ∈ values -> Exists (about_nonfungible p x (fun v' => value_eqb v v' = true)) conds
  | _ => Exists (about_fungible p x) conds
  end.

(** ** The conditions *)

Lemma fungible_check_spec code amount sent : fungible_check code amount sent = true <-> sent_as code sent amount.
Proof. destruct code; cbn; rewrite ?Z.eqb_eq, ?Z.ltb_lt, ?Z.leb_le; lia. Qed.
Lemma was_sent_spec v l : was_sent v l = true <-> exists v', v' ∈ l /\ value_eqb v' v = true.
Proof. unfold was_sent. rewrite existsb_exists. by setoid_rewrite list_elem_of_In. Qed.
Lemma nonfungible_check_spec code v l :
  nonfungible_check code v l = true <->
  match code with Sent => exists v', v' ∈ l /\ value_eqb v' v = true | NotSent => ~ exists v', v' ∈ l /\ value_eqb v' v = true end.
Proof.
  pose proof (was_sent_spec v l) as H. destruct code; cbn; [done|]. rewrite <-H. by destruct (was_sent v l).
Qed.

(** ** What the loop records *)

Definition ids (c : Checked) (p : PrincipalData) : gset AssetIdentifier := default ∅ (checked_fungible_assets c !! p).
Definition nfts (c : Checked) (p : PrincipalData) (x : AssetIdentifier) : option (list Value) :=
  checked_nonfungible_assets c !! p ≫= (fun assets => assets !! x).

Lemma ids_add c p s p' : ids (add_fungible c p s) p' = if decide (p' = p) then ids c p ∪ s else ids c p'.
Proof.
  unfold ids, add_fungible. cbn. destruct (checked_fungible_assets c !! p) as [l|]; rewrite lookup_insert; case_decide as E;
    try subst p'; repeat case_decide; try congruence; cbn; set_solver.
Qed.
Lemma nfts_add c p a v p' x :
  nfts (add_nonfungible c p a v) p' x = if decide ((p', x) = (p, a)) then Some (v :: default [] (nfts c p a)) else nfts c p' x.
Proof.
  unfold nfts, add_nonfungible. cbn. destruct (decide (p' = p)) as [->|Hp].
  - destruct (checked_nonfungible_assets c !! p) as [assets|] eqn:E; cbn; rewrite lookup_insert, decide_True by done; cbn.
    + destruct (assets !! a) as [l|]; rewrite lookup_insert; repeat case_decide; try congruence; done.
    + rewrite lookup_singleton. repeat case_decide; try congruence; by rewrite ?lookup_empty.
  - rewrite (decide_False (P := (p', x) = (p, a))) by congruence.
    destruct (checked_nonfungible_assets c !! p) as [assets|] eqn:E; rewrite lookup_insert, decide_False by congruence; done.
Qed.

(** What was checked are the conditions [done]. *)
Record records (done_ : list TransactionPostCondition) (c : Checked) : Prop := {
  rec_ids p x : x ∈ ids c p <-> Exists (about_fungible p x) done_;
  rec_nfts p x P : (exists l, nfts c p x = Some l /\ Exists P l) <-> Exists (about_nonfungible p x P) done_;
  rec_some p x l : nfts c p x = Some l -> l <> [];
}.

Lemma records_nil : records [] (mkChecked ∅ ∅).
Proof.
  split; unfold ids, nfts; cbn; intros; rewrite ?lookup_empty in *; cbn in *; rewrite ?Exists_nil; first [done | set_solver | naive_solver].
Qed.

Lemma stx_ids_spec a b x :
  x ∈ stx_ids a b <-> (x = AssetIdentifier_STX /\ 0 < a) \/ (x = AssetIdentifier_STX_burned /\ 0 < b).
Proof. unfold stx_ids. destruct (Z.ltb_spec 0 a), (Z.ltb_spec 0 b); set_solver by lia. Qed.

Lemma records_fungible done_ c cond p s :
  records done_ c -> (forall p' x, about_fungible p' x cond <-> p = p' /\ x ∈ s) -> (forall p x P, ~ about_nonfungible p x P cond) ->
  records (done_ ++ [cond]) (add_fungible c p s).
Proof.
  intros [Hi Hn Hs] Hf Hnf. split.
  - intros p' x. rewrite ids_add, Exists_app, Exists_cons, Exists_nil, <-Hi, Hf. case_decide; set_solver.
  - intros p' x P. rewrite Exists_app, Exists_cons, Exists_nil, <-Hn. unfold nfts in *. cbn. specialize (Hnf p' x P). tauto.
  - exact Hs.
Qed.

Lemma records_nonfungible done_ c principal info v code :
  records done_ c ->
  records (done_ ++ [PC_Nonfungible principal info v code])
    (add_nonfungible c (to_principal_data principal origin_principal) (asset_id info) v).
Proof.
  intros [Hi Hn Hs]. split.
  - intros p x. rewrite Exists_app, Exists_cons, Exists_nil, <-Hi. cbn. unfold ids. cbn. tauto.
  - intros p x P. rewrite Exists_app, Exists_cons, Exists_nil, nfts_add, <-Hn. cbn. case_decide as E.
    + injection E as -> ->. split.
      * intros (l & [= <-] & Hl). apply Exists_cons in Hl as [|Hl]; [tauto|]. left.
        destruct (nfts c _ _) as [l|]; [by exists l|by apply Exists_nil in Hl].
      * intros [(l & -> & Hl)|[(_ & _ & Hv)|[]]]; eexists; (split; [reflexivity|]); cbn; [by right|by left].
    + split; [tauto|]. intros [H|[(<- & <- & _)|[]]]; [done|congruence].
  - intros p x l. rewrite nfts_add. case_decide; [by intros [= <-]|apply Hs].
Qed.

(** ** The result *)

(** The STX that a principal sent and burnt add up in 128 bits. *)
Definition stx_adds_up : Prop := forall p, in_u 128 (default 0 (get_stx m p) + default 0 (get_stx_burned m p)).

Lemma check_condition_spec done_ c cond :
  stx_adds_up -> records done_ c ->
  exists r, check_condition c cond = Ok r /\
    match r with Some c' => condition_holds cond /\ records (done_ ++ [cond]) c' | None => ~ condition_holds cond end.
Proof.
  intros Hadd Hrec. destruct cond as [principal code amount|principal info code amount|principal info v code]; cbn.
  - rewrite checked_add_in by apply Hadd. cbn. destruct (fungible_check _ _ _) eqn:E; eexists; (split; [reflexivity|]).
    + split; [by apply fungible_check_spec|]. apply records_fungible; [done| |by intros ??? []].
      intros p' x. cbn. rewrite stx_ids_spec. naive_solver.
    + intros H%fungible_check_spec. congruence.
  - destruct (fungible_check _ _ _) eqn:E; eexists; (split; [reflexivity|]).
    + split; [by apply fungible_check_spec|]. apply records_fungible; [done| |by intros ??? []]. intros p' x. cbn. set_solver.
    + intros H%fungible_check_spec. congruence.
  - destruct (nonfungible_check _ _ _) eqn:E; eexists; (split; [reflexivity|]).
    + split; [by apply nonfungible_check_spec|]. by apply records_nonfungible.
    + intros H%nonfungible_check_spec. congruence.
Qed.

Lemma check_conditions_spec conds : stx_adds_up -> forall done_ c, records done_ c ->
  exists r, check_conditions c conds = Ok r /\
    match r with Some c' => Forall condition_holds conds /\ records (done_ ++ conds) c' | None => ~ Forall condition_holds conds end.
Proof.
  intros Hadd. induction conds as [|cond conds IH]; intros done_ c Hrec; cbn [check_conditions].
  - exists (Some c). split; [done|]. rewrite app_nil_r. by split.
  - destruct (check_condition_spec done_ c cond Hadd Hrec) as ([c'|] & -> & Hc); cbn.
    + destruct Hc as [Hc Hrec']. destruct (IH _ _ Hrec') as (r & -> & Hr). exists r. split; [done|].
      destruct r as [c''|]; rewrite Forall_cons; [rewrite <-app_assoc in Hr|]; tauto.
    + exists None. split; [done|]. rewrite Forall_cons. tauto.
Qed.

Lemma entry_covered_spec conds c p x e : records conds c -> entry_covered c p x e = true <-> mentioned conds p x e.
Proof.
  intros [Hi Hn Hs].
  assert (match checked_fungible_assets c !! p with Some s => bool_decide (x ∈ s) | None => false end = true <->
          Exists (about_fungible p x) conds) as Hfung.
  { rewrite <-Hi. unfold ids. destruct (_ !! p); cbn; [apply bool_decide_eq_true|set_solver]. }
  destruct e as [| | |values]; try exact Hfung. cbn [entry_covered mentioned].
  assert (match checked_nonfungible_assets c !! p with
          | Some assets => match assets !! x with
                           | Some l => forallb (fun v => existsb (value_eqb v) l) values
                           | None => false
                           end
          | None => false
          end = match nfts c p x with Some l => forallb (fun v => existsb (value_eqb v) l) values | None => false end) as ->.
  { unfold nfts. by destruct (checked_nonfungible_assets c !! p). }
  rewrite <-Hn. setoid_rewrite <-Hn. destruct (nfts c p x) as [l|] eqn:E; [|naive_solver]. rewrite forallb_forall. split.
  - intros H. split; [|intros v Hv%list_elem_of_In; exists l; split; [done|]; apply H, existsb_exists in Hv as (y & Hy%list_elem_of_In & Hyv);
      apply Exists_exists; eauto].
    exists l. split; [done|]. specialize (Hs _ _ _ E). destruct l; [done|]. by left.
  - intros [_ H] v Hv%list_elem_of_In. destruct (H v Hv) as (l' & [= <-] & Hl). apply Exists_exists in Hl as (y & Hy & Hyv).
    apply existsb_exists. exists y. split; [by apply list_elem_of_In|done].
Qed.

Lemma all_covered_spec conds c :
  records conds c -> all_covered c = true <-> forall p x e, table_entry m p x = Some e -> mentioned conds p x e.
Proof.
  intros Hrec. unfold all_covered. rewrite forallb_forall. split.
  - intros H p x e Ht. rewrite <-to_table_lookup in Ht. apply bind_Some in Ht as (assets & Hp & Hx).
    specialize (H (p, assets) (proj1 (list_elem_of_In _ _) (proj2 (elem_of_map_to_list _ _ _) Hp))). cbn in H.
    rewrite forallb_forall in H. apply (entry_covered_spec conds c); [done|].
    exact (H (x, e) (proj1 (list_elem_of_In _ _) (proj2 (elem_of_map_to_list _ _ _) Hx))).
  - intros H [p assets] Hp%list_elem_of_In%elem_of_map_to_list. apply forallb_forall.
    intros [x e] Hx%list_elem_of_In%elem_of_map_to_list. apply (entry_covered_spec conds c); [done|]. apply H.
    rewrite <-to_table_lookup, Hp. exact Hx.
Qed.
End check.

(** C27. The check of post-conditions is exact: it passes if and only if every
    condition holds of the assets that were moved and, unless the transaction
    allows others, every asset that anybody moved is the subject of a condition;
    it panics only where the STX that a principal sent and burnt exceed 128
    bits. *)
Theorem postconditions_exact origin m conds mode :
  stx_adds_up m ->
  exists b, check_transaction_postconditions origin m conds mode = Ok b /\
    (b = true <-> Forall (condition_holds origin m) conds /\
       (mode = Deny -> forall p x e, table_entry m p x = Some e -> mentioned origin m conds p x e)).
Proof.
  intros Hadd. unfold check_transaction_postconditions.
  destruct (check_conditions_spec origin m conds Hadd _ _ (records_nil origin m)) as ([c|] & -> & Hc); cbn.
  - destruct Hc as [Hall Hrec]. case_decide as Hmode.
    + exists true. split; [done|]. split; [|done]. intros _. split; [done|]. by rewrite Hmode.
    + exists (all_covered m c). split; [done|]. rewrite (all_covered_spec origin m conds c Hrec). destruct mode; [done|]. tauto.
  - exists false. split; [done|]. split; [done|]. tauto.
Qed.

Definition example_moved : AssetMap := mkAssetMap {[Standard (mkStandard 22 (replicate 20 7)) := 5]} ∅ ∅ ∅.

Definition example_origin : PrincipalData := Standard (mkStandard 22 (replicate 20 7)).
Definition example_conds : list TransactionPostCondition := [PC_STX PC_Origin SentLe 10].

Lemma postconditions_exact_witness :
  exists b, check_transaction_postconditions example_origin example_moved example_conds Deny = Ok b /\
    (b = true <-> Forall (condition_holds example_origin example_moved) example_conds /\
       (Deny = Deny -> forall p x e, table_entry example_moved p x = Some e ->
          mentioned example_origin example_moved example_conds p x e)).
Proof.
  apply (postconditions_exact example_origin example_moved example_conds Deny). intros p.
  unfold get_stx, get_stx_burned. cbn. rewrite lookup_empty, lookup_singleton. unfold in_u. case_decide; cbn; lia.
Defined.
