(* ===== verification/ClarityConnection.v ===== *)
(** Transactions on a block: [ClarityBlockConnection] and
    [ClarityTransactionConnection] of src/vm/clarity.rs, and the part of
    src/vm/analysis/analysis_db.rs that stores an analysis.

    A transaction keeps its own edit log and hands it to the database for every
    access; the block keeps the store and the cost tracker.  The store is any
    [ClarityBackingStore]. *)
From stdpp Require Import base strings numbers list gmap.
From Stdlib Require Import ZArith Lia.
From S2P Require Import Prelude Names Types Representations Values C32 RollbackWrapper BackingStore Costs AssetMap ClarityDatabase Natives Contexts Interpreter Define.
#[local] Open Scope Z_scope.

(** * Errors *)

(** [Error]; parse errors come without their details. *)
Inductive ClarityError :=
| Analysis (e : CheckErrors)
| Parse
| ClarityInterpreter (e : VmError)
| BadTransaction (msg : string)
| CostError (a b : ExecutionCost).

(** [From<InterpreterError>]. *)
Definition ClarityError_from (e : VmError) : ClarityError :=
  match e with
  | Unchecked (CheckCost (CostBalanceExceeded a b)) => CostError a b
  | Unchecked (CheckCost CostOverflow) => CostError ExecutionCost_max_value ExecutionCost_max_value
  | _ => ClarityInterpreter e
  end.

(** * Stateful code *)

(** Code that changes a state and returns a [Result]: the state is kept with an
    error as well. *)
Definition Stateful (St F E A : Type) : Type := St -> Res F (St * (E + A)).
#[global] Instance stateful_ret St F E : MRet (Stateful St F E) := fun A a s => Ok (s, inr a).
#[global] Instance stateful_bind St F E : MBind (Stateful St F E) := fun A B f m s =>
  match m s with
  | Ok (s, inr a) => f a s
  | Ok (s, inl e) => Ok (s, inl e)
  | Err e => Err e
  | Panic => Panic
  end.
Definition fails {St F E A} (e : E) : Stateful St F E A := fun s => Ok (s, inl e).
Definition pure {St F E A} (r : Res Empty_set A) : Stateful St F E A := fun s => a ← lift_panic r; Ok (s, inr a).
(** A [Result] as the state's code returns it, with the error mapped. *)
Definition tx_map_err {St F E E' A} (f : E -> E') (m : Stateful St F E A) : Stateful St F E' A := fun s =>
  match m s with
  | Ok (s, inr a) => Ok (s, inr a)
  | Ok (s, inl e) => Ok (s, inl (f e))
  | Err e => Err e
  | Panic => Panic
  end.

(** * Connections *)

(** [ClarityBlockConnection]. *)
Record Block (S : Type) := mkBlock { datastore : S; block_cost : LimitedCostTracker }.
Arguments mkBlock {S}.
Arguments datastore {S}.
Arguments block_cost {S}.

(** [ClarityTransactionConnection]. *)
Record Connection (S : Type) := mkConnection {
  conn_log : RollbackWrapperPersistedLog;
  conn_store : S;
  conn_cost : LimitedCostTracker;
}.
Arguments mkConnection {S}.
Arguments conn_log {S}.
Arguments conn_store {S}.
Arguments conn_cost {S}.

(** The analysis of contracts: the syntax tree and the analysis of a source text,
    on a database that it only reads, charged to the tracker; and the text that an
    analysis is stored as. *)
Class Analyzer (S : Type) := {
  ContractAnalysis : Type;
  analysis_serialize : ContractAnalysis -> string;
  run_analysis : QualifiedContractIdentifier -> string -> RollbackWrapper S -> LimitedCostTracker ->
    LimitedCostTracker * Res ClarityError (list SymbolicExpression * ContractAnalysis);
}.

Section connection.
Context {S : Type} `{!ClarityBackingStore S VmError} `{!Sha256} `{!Sha512Trunc256} `{!NativeHashes} `{!HeadersDB}.
Context `{!ClaritySerializable U128} `{!ClaritySerializable U64} `{!ClaritySerializable PrincipalData}.
Context `{!ClaritySerializable FungibleTokenMetadata} `{!ClaritySerializable NonFungibleTokenMetadata}.
Context `{!ClaritySerializable DataMapMetadata} `{!ClaritySerializable DataVariableMetadata}.
Context `{!Storable ContractData} `{!ClaritySerializable ContractData} `{!Analyzer S}.
Implicit Types (b : Block S) (c : Connection S).

Definition start_transaction_processing b : Connection S :=
  mkConnection (mkPersisted ∅ ∅ [mkContext [] []]) (datastore b) (block_cost b).

(** [RollbackWrapper::from_persisted_log] with the store and the log of the
    connection. *)
Definition conn_db c : RollbackWrapper S := wrapper_from_persisted_log (conn_store c) (conn_log c).
(** The connection with the log of [db] and a cost tracker. *)
Definition conn_with c (db : RollbackWrapper S) (cost : LimitedCostTracker) : Connection S :=
  mkConnection (wrapper_to_persisted_log db) (store db) cost.

(** Code that works on a database and returns a [Result]; and on a connection. *)
#[local] Notation DbResult := (Stateful (RollbackWrapper S) Empty_set).
#[local] Notation Conn := (Stateful (Connection S)).
(** An operation of the database that returns no [Result], and one that does. *)
Definition db_sure {E A} (m : Db S A) : DbResult E A := fun w =>
  match m w with Ok (a, w) => Ok (w, inr a) | _ => Panic end.
Definition db_try {A} (m : Db S A) : DbResult VmError A := fun w =>
  match m w with Ok (a, w) => Ok (w, inr a) | Err e => Ok (w, inl e) | Panic => Panic end.

Definition with_clarity_db_readonly {E R} (to_do : DbResult E R) : Conn Empty_set E R := fun c =>
  '(db, r) ← to_do (db_begin (conn_db c));
  db ← db_roll_back db;
  Ok (conn_with c db (conn_cost c), r).

Definition with_clarity_db {R} (to_do : DbResult ClarityError R) : Conn Empty_set ClarityError R := fun c =>
  '(db, result) ← to_do (db_begin (conn_db c));
  db ← match result with inr _ => db_commit db | inl _ => db_roll_back db end;
  Ok (conn_with c db (conn_cost c), result).

Definition analyze_smart_contract (identifier : QualifiedContractIdentifier) (contract_content : string)
  : Conn Empty_set ClarityError (list SymbolicExpression * ContractAnalysis) := fun c =>
  let '(cost_track, result) := run_analysis identifier contract_content (conn_db c) (conn_cost c) in
  let c := mkConnection (conn_log c) (conn_store c) cost_track in
  match result with
  | Ok r => Ok (c, inr r)
  | Err e => Ok (c, inl e)
  | Panic => Panic
  end.

Definition with_abort_callback {R} (to_do : Exec S CallStack (R * AssetMap * EventBatch))
    (abort_call_back : AssetMap -> RollbackWrapper S -> Res Empty_set bool)
  : Conn OutOfFuel ClarityError (R * AssetMap * EventBatch) := fun c =>
  let db := db_begin (conn_db c) in
  '((vm_env, _), result) ← to_do (GlobalContext_new db (conn_cost c), CallStack_new);
  '(db, cost_track) ← expect_opt (context_destruct vm_env);
  match result with
  | inr (value, asset_map, events) =>
    abort ← lift_panic (abort_call_back asset_map db);
    db ← lift_panic (if (abort : bool) then db_roll_back db else db_commit db);
    Ok (conn_with c db cost_track, inr (value, asset_map, events))
  | inl e =>
    db ← lift_panic (db_roll_back db);
    Ok (conn_with c db cost_track, inl (ClarityError_from e))
  end.

Definition run_contract_call (sender : PrincipalData) (contract : QualifiedContractIdentifier) (public_function : string)
    (args : list Value) (abort_call_back : AssetMap -> RollbackWrapper S -> Res Empty_set bool)
  : Conn OutOfFuel ClarityError (Value * AssetMap * EventBatch) :=
  with_abort_callback (execute_transaction sender contract public_function (atom_value <$> args)) abort_call_back.

Definition initialize_smart_contract (identifier : QualifiedContractIdentifier) (contract_ast : list SymbolicExpression)
    (contract_str : string) (abort_call_back : AssetMap -> RollbackWrapper S -> Res Empty_set bool)
  : Conn OutOfFuel ClarityError (AssetMap * EventBatch) :=
  '(_, asset_map, events) ←
    with_abort_callback (owned_initialize_contract_from_ast identifier contract_ast contract_str) abort_call_back;
  mret (asset_map, events).

(** [AnalysisDatabase::insert_contract]. *)
Definition analysis_insert_contract (contract_identifier : QualifiedContractIdentifier) (contract : ContractAnalysis)
  : DbResult CheckErrors unit := fun w =>
  has ← match wrapper_has_metadata_entry w contract_identifier "analysis" with Ok has => Ok has | _ => Panic end;
  if (has : bool) then
    s ← contract_string contract_identifier;
    Ok (w, inl (ContractAlreadyExists s))
  else
    w ← wrapper_insert_metadata w contract_identifier "analysis" (analysis_serialize contract);
    Ok (w, inr tt).

Definition save_analysis (identifier : QualifiedContractIdentifier) (contract_analysis : ContractAnalysis)
  : Conn Empty_set CheckErrors unit := fun c =>
  '(db, result) ← analysis_insert_contract identifier contract_analysis (db_begin (conn_db c));
  db ← match result with inr _ => db_commit db | inl _ => db_roll_back db end;
  Ok (conn_with c db (conn_cost c), result).

(** [commit]; dropping a connection resets the memory of the tracker as well. *)
Definition conn_commit c : Res Empty_set (Block S) :=
  if decide (wrapper_depth (conn_db c) = 1%nat) then
    w ← wrapper_commit (conn_db c);
    Ok (mkBlock (store w) (limited_reset_memory (conn_cost c)))
  else Panic.
Definition conn_drop c : Block S := mkBlock (conn_store c) (limited_reset_memory (conn_cost c)).
End connection.
