(* ===== verification/ChainTransactions.v ===== *)
(** The processing of transactions by the chain: src/chainstate/stacks/db/accounts.rs,
    contracts.rs and transactions.rs, on the connection of a block to the Clarity
    database. *)
From stdpp Require Import base strings numbers list gmap.
From Stdlib Require Import ZArith Lia.
From S2P Require Import Prelude Names Types Representations Values C32 RollbackWrapper BackingStore Costs AssetMap ClarityDatabase Natives Contexts Interpreter Define StacksTypes NetCodec PostConditions ClarityConnection.
#[local] Open Scope Z_scope.

(** * Data *)

(** [Error] of the chain: the errors that the processing of a transaction returns,
    without the messages for the log. *)
Inductive ChainError :=
| InvalidFee
| InvalidStacksTransaction
| InvalidStacksBlock
| InvalidStacksMicroblock (offender : list Z)
| ChainClarityError (e : ClarityError)
| DBError
| NetError.

Record StacksAccount := mkAccount { principal : PrincipalData; nonce : Z; stx_balance : Z }.
#[global] Instance StacksAccount_eq_dec : EqDecision StacksAccount.
Proof. solve_decision. Defined.

Record DBConfig := mkDBConfig { version : string; mainnet : bool; chain_id : Z }.

Record StacksTransactionReceipt (A : Type) := mkReceipt {
  transaction : StacksTransaction;
  events : list StacksTransactionEvent;
  result : Value;
  stx_burned : Z;
  contract_analysis : option A;
}.
Arguments mkReceipt {A}.
Arguments transaction {A}.
Arguments events {A}.
Arguments result {A}.
Arguments stx_burned {A}.
Arguments contract_analysis {A}.

(** [Value::err_none]. *)
Definition err_none : Value := VResponse false (VOptional None).

(** The check of the signatures of a transaction, [StacksTransaction::verify]. *)
Class Verifier := { verify : StacksTransaction -> Res net_error () }.

Section chain.
Context {S : Type} `{!ClarityBackingStore S VmError} `{!Sha256} `{!Sha512Trunc256} `{!NativeHashes} `{!HeadersDB}.
Context `{!ClaritySerializable U128} `{!ClaritySerializable U64} `{!ClaritySerializable PrincipalData}.
Context `{!ClaritySerializable FungibleTokenMetadata} `{!ClaritySerializable NonFungibleTokenMetadata}.
Context `{!ClaritySerializable DataMapMetadata} `{!ClaritySerializable DataVariableMetadata}.
Context `{!Storable ContractData} `{!ClaritySerializable ContractData} `{!Analyzer S} `{!Verifier}.

#[local] Notation Tx := (Stateful (Connection S) OutOfFuel ChainError).
#[local] Notation Receipt := (StacksTransactionReceipt ContractAnalysis).

(** Code that needs no fuel. *)
Definition tx_db {E A} (m : Stateful (Connection S) Empty_set E A) : Stateful (Connection S) OutOfFuel E A :=
  fun c => lift_panic (m c).
(** The [expect] of a [Result], and of an option. *)
Definition tx_expect {St F E E' A} (m : Stateful St F E A) : Stateful St F E' A := fun s =>
  match m s with
  | Ok (s, inr a) => Ok (s, inr a)
  | Err e => Err e
  | _ => Panic
  end.
(** [return Err]. *)
Definition reject {A} (e : ChainError) : Tx A := fails e.

(** * Accounts *)

Definition get_account (p : PrincipalData) : Tx StacksAccount :=
  tx_db (with_clarity_db_readonly (
    stx_balance ← db_sure (get_account_stx_balance p);
    nonce ← db_sure (get_account_nonce p);
    mret (mkAccount p nonce stx_balance))).

Definition account_debit (p : PrincipalData) (amount : Z) : Tx unit :=
  tx_expect (tx_db (with_clarity_db (
    cur_balance ← db_sure (get_account_stx_balance p);
    if cur_balance <? amount then pure Panic
    else
      let final_balance := cur_balance - amount in
      db_sure (set_account_stx_balance p final_balance)))).

Definition account_credit (p : PrincipalData) (amount : Z) : Tx unit :=
  tx_expect (tx_db (with_clarity_db (
    cur_balance ← db_sure (get_account_stx_balance p);
    final_balance ← pure (expect_opt (checked_add 128 cur_balance amount));
    db_sure (set_account_stx_balance p final_balance)))).

Definition update_account_nonce (account : StacksAccount) : Tx unit :=
  tx_expect (tx_db (with_clarity_db (
    next_nonce ← pure (expect_opt (checked_add 64 (nonce account) 1));
    db_sure (set_account_nonce (principal account) next_nonce)))).

(** [StacksChainState::get_contract], with the [match] on what was found. *)
Definition contract_found (r : VmError + ContractData) : ClarityError + option ContractData :=
  match r with
  | inr c => inr (Some c)
  | inl (Unchecked (NoSuchContract _)) => inr None
  | inl e => inl (ClarityInterpreter e)
  end.
Definition chain_get_contract (contract_id : QualifiedContractIdentifier) : Tx (option ContractData) :=
  tx_map_err ChainClarityError (tx_db (with_clarity_db_readonly (fun db =>
    '(db, r) ← db_try (get_contract contract_id) db;
    Ok (db, contract_found r)))).

(** * Checks *)

Definition check_transaction_nonces (tx : StacksTransaction) : Tx (StacksAccount * StacksAccount) :=
  let origin := get_origin tx in
  origin_account ← get_account (PrincipalData_from (origin_address tx));
  payer_account ←
    match sponsor_address tx with
    | Some sponsor_address =>
      let payer := get_payer tx in
      payer_account ← get_account (PrincipalData_from sponsor_address);
      if negb (spending_nonce payer =? nonce payer_account) then reject InvalidStacksTransaction
      else mret payer_account
    | None => mret origin_account
    end;
  if negb (spending_nonce origin =? nonce origin_account) then reject InvalidStacksTransaction
  else mret (origin_account, payer_account).

Definition pay_transaction_fee (tx : StacksTransaction) (payer_account : StacksAccount) : Tx Z :=
  if stx_balance payer_account <? get_fee_rate tx then reject InvalidFee
  else
    _ ← account_debit (principal payer_account) (get_fee_rate tx);
    mret (get_fee_rate tx).

Definition process_transaction_precheck (config : DBConfig) (tx : StacksTransaction) : Res ChainError unit :=
  _ ← map_err (fun _ => NetError) (verify tx);
  if negb (chain_id config =? tx_chain_id tx) then Err InvalidStacksTransaction
  else
    match tx_version tx with
    | Mainnet => if negb (mainnet config) then Err InvalidStacksTransaction else Ok tt
    | Testnet => if mainnet config then Err InvalidStacksTransaction else Ok tt
    end.

(** * Payloads *)

Definition process_transaction_token_transfer (recipient_principal : PrincipalData) (amount : Z)
    (origin_account : StacksAccount) : Tx unit :=
  if decide (principal origin_account = recipient_principal) then reject InvalidStacksTransaction
  else fun c =>
    let r := tx_db (with_clarity_db (
      cur_balance ← db_sure (get_account_stx_balance (principal origin_account));
      recipient_balance ← db_sure (get_account_stx_balance recipient_principal);
      match checked_sub 128 cur_balance amount with
      | None => fails (BadTransaction "needed at least")
      | Some new_balance =>
        match checked_add 128 recipient_balance amount with
        | None => fails (BadTransaction "cannot add")
        | Some new_recipient_balance =>
          _ ← db_sure (set_account_stx_balance (principal origin_account) new_balance);
          db_sure (set_account_stx_balance recipient_principal new_recipient_balance)
        end
      end)) c in
    match r with
    | Ok (c, inr _) => Ok (c, inr tt)
    | Ok (c, inl (BadTransaction _)) => Ok (c, inl InvalidStacksTransaction)
    | Ok (_, inl _) => Panic
    | Err e => Err e
    | Panic => Panic
    end.

(** [!check_transaction_postconditions(..)], the callback that decides whether to
    roll back. *)
Definition postconditions_abort (tx : StacksTransaction) (origin_account : StacksAccount)
    (asset_map : AssetMap) (_ : RollbackWrapper S) : Res Empty_set bool :=
  ok ← check_transaction_postconditions (principal origin_account) asset_map (post_conditions tx) (post_condition_mode tx);
  Ok (negb ok).

(** A runtime error is taken for a result. *)
Definition runtime_okay {A} (a : A) (m : Stateful (Connection S) OutOfFuel ClarityError A) : Tx A := fun c =>
  match m c with
  | Ok (c, inr r) => Ok (c, inr r)
  | Ok (c, inl (ClarityInterpreter (Runtime _))) => Ok (c, inr a)
  | Ok (c, inl e) => Ok (c, inl (ChainClarityError e))
  | Err e => Err e
  | Panic => Panic
  end.

(** A contract that passed the analysis: its execution, and its analysis stored. *)
Definition launch_contract (tx : StacksTransaction) (origin_account : StacksAccount) (contract_id : QualifiedContractIdentifier)
    (contract_code_str : string) (contract_ast : list SymbolicExpression) (contract_analysis : ContractAnalysis) : Tx Receipt :=
  '(asset_map, events) ←
    runtime_okay (AssetMap_new, [])
      (initialize_smart_contract contract_id contract_ast contract_code_str (postconditions_abort tx origin_account));
  _ ← tx_expect (tx_db (save_analysis contract_id contract_analysis));
  stx_burned ← pure (get_stx_burned_total asset_map);
  mret (mkReceipt tx events okay_true stx_burned (Some contract_analysis)).

Definition process_transaction_payload (tx : StacksTransaction) (origin_account : StacksAccount) : Tx Receipt :=
  match payload tx with
  | TokenTransfer addr amount _ =>
    if decide (post_conditions tx <> []) then reject InvalidStacksTransaction
    else
      _ ← process_transaction_token_transfer addr amount origin_account;
      let sender := principal origin_account in
      mret (mkReceipt tx [STXEvent (STXTransferEvent sender addr amount)] okay_true 0 None)
  | ContractCall contract_call =>
    let contract_id := to_clarity_contract_id contract_call in
    '(result, asset_map, events) ←
      runtime_okay (err_none, AssetMap_new, [])
        (run_contract_call (principal origin_account) contract_id (call_function_name contract_call)
           (call_function_args contract_call) (postconditions_abort tx origin_account));
    stx_burned ← pure (get_stx_burned_total asset_map);
    mret (mkReceipt tx events result stx_burned None)
  | SmartContract smart_contract =>
    issuer_principal ← pure (match principal origin_account with Standard p => Ok p | _ => Panic end);
    let contract_id := mkContractId issuer_principal (contract_name smart_contract) in
    let contract_code_str := code_body smart_contract in
    existing ← chain_get_contract contract_id;
    match existing with
    | Some _ => reject InvalidStacksTransaction
    | None => fun c =>
      match tx_db (analyze_smart_contract contract_id contract_code_str) c with
      | Ok (c, inl _) => Ok (c, inr (mkReceipt tx [] err_none 0 None))
      | Ok (c, inr (contract_ast, contract_analysis)) =>
        launch_contract tx origin_account contract_id contract_code_str contract_ast contract_analysis c
      | Err e => Err e
      | Panic => Panic
      end
    end
  | PoisonMicroblock _ _ =>
    if decide (post_conditions tx <> []) then reject InvalidStacksTransaction else pure Panic
  | Coinbase _ => mret (mkReceipt tx [] okay_true 0 None)
  end.

(** * Transactions *)

(** What is done on the transaction's connection. *)
Definition transaction_body (tx : StacksTransaction) : Tx (Z * Receipt) :=
  '(origin_account, payer_account) ← check_transaction_nonces tx;
  fee ← pay_transaction_fee tx payer_account;
  tx_receipt ← process_transaction_payload tx origin_account;
  _ ← update_account_nonce origin_account;
  _ ← (if decide (origin_account <> payer_account) then update_account_nonce payer_account else mret tt);
  mret (fee, tx_receipt).

Definition process_transaction (config : DBConfig) (tx : StacksTransaction)
  : Stateful (Block S) OutOfFuel ChainError (Z * Receipt) := fun clarity_block =>
  match process_transaction_precheck config tx with
  | Err e => Ok (clarity_block, inl e)
  | Panic => Panic
  | Ok _ =>
    '(c, r) ← transaction_body tx (start_transaction_processing clarity_block);
    match r with
    | inl e => Ok (conn_drop c, inl e)
    | inr v =>
      block ← lift_panic (conn_commit c);
      Ok (block, inr v)
    end
  end.
End chain.
