(* ===== verification/ChainAuth.v ===== *)
(** The chain with the check of signatures: [process_transaction] of
    ChainTransactions.v with the verification of Signatures.v. *)
From stdpp Require Import base strings numbers list gmap relations.
From Stdlib Require Import ZArith Lia.
From S2P Require Import Prelude Names Types Representations Values C32 RollbackWrapper BackingStore Costs AssetMap ClarityDatabase Natives Contexts Interpreter Define StacksTypes NetCodec TransactionCodec Signatures SignatureFacts PostConditions ClarityConnection ChainTransactions.
#[local] Open Scope Z_scope.

#[global] Instance signature_verifier `{!Secp256k1, !MemSizes, !Lexer, !Sha256, !NativeHashes, !Sha512Trunc256} : Verifier :=
  {| verify := transaction_verify |}.

Section chain.
Context {S : Type} `{Hstore : !ClarityBackingStore S VmError}.
Context `{Hsha : !Sha256} `{Hsha512 : !Sha512Trunc256} `{Hhashes : !NativeHashes} `{Hheaders : !HeadersDB}.
Context `{Hu128 : !ClaritySerializable U128} `{Hu64 : !ClaritySerializable U64} `{Hprincipal : !ClaritySerializable PrincipalData}.
Context `{Hft : !ClaritySerializable FungibleTokenMetadata} `{Hnft : !ClaritySerializable NonFungibleTokenMetadata}.
Context `{Hmap : !ClaritySerializable DataMapMetadata} `{Hvar : !ClaritySerializable DataVariableMetadata}.
Context `{Hst : !Storable ContractData} `{Hcontract : !ClaritySerializable ContractData} `{Hanalyzer : !Analyzer S}.
Context `{Hsecp : !Secp256k1, Hsizes : !MemSizes, Hlexer : !Lexer}.

(** C4. A transaction is accepted only if it is for this chain and its accounts
    consented: over the hash of the transaction without its signatures, the
    origin's fields hold as many signatures as its account requires, each over the
    flag, the fee and the nonce of the origin, and the keys they recover, with the
    keys given, are those of the account's address; and of a sponsored transaction
    the sponsor's do, over the hash that the origin's signatures end with. *)
Theorem accepted_authentic config tx (b b' : Block S) v :
  process_transaction config tx b = Ok (b', inr v) -> tx_chain_id tx = chain_id config /\ transaction_authentic tx.
Proof.
  unfold process_transaction, process_transaction_precheck. cbn [verify signature_verifier].
  destruct (transaction_verify tx) as [[]| |] eqn:Hv; cbn [map_err mbind res_bind]; [|done..].
  destruct (chain_id config =? tx_chain_id tx) eqn:Hc; [|done]. intros _. apply Z.eqb_eq in Hc. split; [done|].
  by apply verified_authentic.
Qed.
End chain.
