(* ===== verification/ConnectionFacts.v ===== *)
(** What transactions do to the connection of a block: the methods of
    [ClarityTransactionConnection] over the log of the transaction. *)
From stdpp Require Import base strings numbers list gmap relations.
From Stdlib Require Import ZArith Lia.
From S2P Require Import Prelude Names Types Representations Values C32 C32Facts RollbackWrapper BackingStore Costs AssetMap ClarityDatabase Keys DatabaseFacts Natives Contexts ContextFacts Interpreter Runs InterpreterFacts StxFacts Define Launches TransactionFacts Ledger StacksTypes PostConditions ClarityConnection ChainTransactions.
#[local] Open Scope Z_scope.

Create HintDb chain.

(** * Stateful code *)

Section stateful.
Context {St F E : Type} (R : relation St) `{!PreOrder R}.

(** Whatever is returned, and if a value is returned. *)
Definition always {A} (m : Stateful St F E A) : Prop := forall s,
  match m s with Ok (s', _) => R s s' | Err _ => False | Panic => True end.
Definition success {A} (m : Stateful St F E A) : Prop := forall s s' a, m s = Ok (s', inr a) -> R s s'.

Lemma always_run {A} (m : Stateful St F E A) s s' r : always m -> m s = Ok (s', r) -> R s s'.
Proof. intros Hm Hr. specialize (Hm s). by rewrite Hr in Hm. Qed.
Lemma always_success {A} (m : Stateful St F E A) : always m -> success m.
Proof. intros Hm s s' a. by apply always_run. Qed.
Lemma always_ret {A} (a : A) : always (mret a).
Proof. intros s. cbn. done. Qed.
Lemma always_fails {A} (e : E) : always (fails (A := A) e).
Proof. intros s. cbn. done. Qed.
Lemma always_pure {A} (r : Res Empty_set A) : always (pure r).
Proof. intros s. unfold pure. by destruct r as [|[]|]; cbn. Qed.
Lemma always_after {A} (m : Stateful St F E A) s s1 : R s s1 -> always m ->
  match m s1 with Ok (s', _) => R s s' | Err _ => False | Panic => True end.
Proof. intros Hs Hm. specialize (Hm s1). destruct (m s1) as [[s2 r]| |]; [|done..]. by transitivity s1. Qed.
Lemma always_bind {A B} (m : Stateful St F E A) (k : A -> Stateful St F E B) :
  always m -> (forall a, always (k a)) -> always (m ≫= k).
Proof.
  intros Hm Hk s. specialize (Hm s). unfold mbind, stateful_bind. destruct (m s) as [[s1 [e|a]]| |]; [done| |done..].
  by apply always_after.
Qed.
Lemma success_bind {A B} (m : Stateful St F E A) (k : A -> Stateful St F E B) :
  success m -> (forall a, success (k a)) -> success (m ≫= k).
Proof.
  intros Hm Hk s s' b. unfold mbind, stateful_bind. destruct (m s) as [[s1 [e|a]]| |] eqn:Em; [done| |done..].
  intros Hr. transitivity s1; [by eapply Hm|by eapply Hk].
Qed.
Lemma bind_success {A B} (m : Stateful St F E A) (k : A -> Stateful St F E B) s s' b :
  (m ≫= k) s = Ok (s', inr b) -> exists s1 a, m s = Ok (s1, inr a) /\ k a s1 = Ok (s', inr b).
Proof. unfold mbind, stateful_bind. destruct (m s) as [[s1 [e|a]]| |]; [done| |done..]. eauto. Qed.
Lemma pure_same {A} (r : Res Empty_set A) (s s' : St) (a : A) : pure (F := F) (E := E) r s = Ok (s', inr a) -> s' = s /\ r = Ok a.
Proof. unfold pure. destruct r as [|[]|]; cbn; [|done]. by intros [= <- <-]. Qed.
End stateful.

Section adapters.
Context {St : Type} (R : relation St).

Lemma always_lift {E A} (m : Stateful St Empty_set E A) : always R m -> always (F := OutOfFuel) R (fun s => lift_panic (m s)).
Proof. intros Hm s. specialize (Hm s). by destruct (m s) as [[s1 r1]|[]|]. Qed.
Lemma always_expect {F E E' A} (m : Stateful St F E A) : always R m -> always (E := E') R (tx_expect m).
Proof. intros Hm s. specialize (Hm s). unfold tx_expect. by destruct (m s) as [[s1 [e|a]]| |]. Qed.
Lemma always_map_err {F E E' A} (f : E -> E') (m : Stateful St F E A) : always R m -> always R (tx_map_err f m).
Proof. intros Hm s. specialize (Hm s). unfold tx_map_err. by destruct (m s) as [[s1 [e|a]]| |]. Qed.
End adapters.

#[export] Hint Resolve always_ret always_fails always_pure always_lift always_expect always_map_err : chain.
#[export] Hint Extern 0 (PreOrder _) => exact _ : chain.

Ltac always_steps :=
  repeat lazymatch goal with
    | |- always _ (_ ≫= _) => apply always_bind; [exact _| |intros ?]
    | |- always _ (match ?x with _ => _ end) => destruct x
    | |- _ => solve [eauto with chain]
    end.

Section connections.
Context {S : Type} `{Hstore : !ClarityBackingStore S VmError} `{Hlaws : !BackingStoreLaws S VmError}.
Context `{Hsha : !Sha256} `{Hsha512 : !Sha512Trunc256} `{Hhashes : !NativeHashes} `{Hheaders : !HeadersDB}.
Context `{Hu128 : !ClaritySerializable U128} `{Hu64 : !ClaritySerializable U64} `{Hprincipal : !ClaritySerializable PrincipalData}.
Context `{Hft : !ClaritySerializable FungibleTokenMetadata} `{Hnft : !ClaritySerializable NonFungibleTokenMetadata}.
Context `{Hmap : !ClaritySerializable DataMapMetadata} `{Hvar : !ClaritySerializable DataVariableMetadata}.
Context `{Hst : !Storable ContractData} `{Hcontract : !ClaritySerializable ContractData} `{Hanalyzer : !Analyzer S}.
Implicit Types (c : Connection S) (w : RollbackWrapper S).

Lemma conn_db_with c w cost : conn_db (conn_with c w cost) = w.
Proof. by destruct w. Qed.

(** * The store *)

Definition conn_kept : relation (Connection S) := fun c c' => wrapper_kept (conn_db c) (conn_db c').
#[export] Instance conn_kept_preorder : PreOrder conn_kept.
Proof. split; [by intros c|]. intros c1 c2 c3. unfold conn_kept. by intros ->. Qed.

#[local] Notation DbResult := (Stateful (RollbackWrapper S) Empty_set).

Lemma writes_kept {A} (m : Db S A) K w a w' : writes K m -> m w = Ok (a, w') -> wrapper_kept w w'.
Proof.
  intros Hm E. apply Hm in E. induction E as [|w0 w1 w2 (k & v & _ & Hput) _ IH]; [done|].
  transitivity w1; [by eapply wrapper_kept_put|done].
Qed.
Lemma sure_kept {E A} (m : Db S A) K : writes K m -> always (E := E) wrapper_kept (db_sure m).
Proof. intros Hm w. unfold db_sure. destruct (m w) as [[a w1]| |] eqn:E1; [|done..]. by eapply writes_kept. Qed.
Lemma try_kept {A} (m : Db S A) K : writes K m -> always wrapper_kept (db_try m).
Proof. intros Hm w. unfold db_try. destruct (m w) as [[a w1]| |] eqn:E1; [|done..]. by eapply writes_kept. Qed.

(** An access to the database in a context of its own. *)
Lemma access_kept {E R} (to_do : DbResult E R) (close : RollbackWrapper S -> E + R -> Res Empty_set (RollbackWrapper S)) :
  always wrapper_kept to_do ->
  (forall w r w', close w r = Ok w' -> wrapper_commit w = Ok w' \/ wrapper_rollback w = Ok w') ->
  always conn_kept (fun c => '(w, r) ← to_do (wrapper_nest (conn_db c)); w ← close w r; Ok (conn_with c w (conn_cost c), r)).
Proof.
  intros Hto Hclose c. specialize (Hto (wrapper_nest (conn_db c))).
  destruct (to_do _) as [[w1 r]|[]|]; cbn; [|done]. destruct (close w1 r) as [w2|[]|] eqn:E2; cbn; [|done].
  unfold conn_kept. rewrite conn_db_with. by eapply (wrapper_kept_bracket _ w1), Hclose.
Qed.
Lemma readonly_kept {E R} (to_do : DbResult E R) : always wrapper_kept to_do -> always conn_kept (with_clarity_db_readonly to_do).
Proof. intros Hto. apply (access_kept to_do (fun w _ => db_roll_back w)); [done|]. by right. Qed.
Lemma with_db_kept {R} (to_do : DbResult ClarityError R) : always wrapper_kept to_do -> always conn_kept (with_clarity_db to_do).
Proof.
  intros Hto. apply (access_kept to_do (fun w r => match r with inr _ => db_commit w | inl _ => db_roll_back w end)); [done|].
  intros w []; [by right|by left].
Qed.
Lemma analyze_kept id src : always conn_kept (analyze_smart_contract id src).
Proof. intros c. unfold analyze_smart_contract. by destruct (run_analysis _ _ _ _) as [cost [a|e|]]. Qed.
Lemma insert_contract_kept id a : always wrapper_kept (analysis_insert_contract id a).
Proof.
  intros w. unfold analysis_insert_contract. destruct (wrapper_has_metadata_entry w id "analysis") as [[]| |]; cbn; [| |done..].
  - by destruct (contract_string id) as [|[]|].
  - destruct (wrapper_insert_metadata w id _ _) as [w1|[]|] eqn:E; cbn; [|done]. by eapply wrapper_kept_metadata.
Qed.
Lemma save_analysis_kept id a : always conn_kept (save_analysis id a).
Proof.
  apply (access_kept _ (fun w r => match r with inr _ => db_commit w | inl _ => db_roll_back w end)); [apply insert_contract_kept|].
  intros w []; [by right|by left].
Qed.
Lemma with_abort_kept {A} (f : Exec S CallStack A) cb :
  confines kept (fun _ => False) f -> always conn_kept (with_abort_callback (execute_in_env f) cb).
Proof.
  intros Hf c. unfold with_abort_callback, db_begin. set (g0 := GlobalContext_new (wrapper_nest (conn_db c)) (conn_cost c)).
  destruct (execute_in_env f (g0, CallStack_new)) as [[[g x] r1]| |] eqn:Hrun; cbn; [|by eapply execute_in_env_ends|done].
  apply (execute_in_env_kept f) in Hrun; [|done]. unfold context_destruct. destruct (is_top_level g); cbn; [|done].
  assert (forall w2, wrapper_commit (database g) = Ok w2 \/ wrapper_rollback (database g) = Ok w2 ->
    wrapper_kept (conn_db c) w2) as Hend by (intros w2; by apply wrapper_kept_bracket).
  unfold conn_kept, db_roll_back, db_commit. destruct r1 as [e|[[v m] b]].
  - destruct (wrapper_rollback (database g)) as [w2|[]|] eqn:E; cbn; [|done]. rewrite conn_db_with. auto.
  - destruct (cb m (database g)) as [[]|[]|]; cbn; [| |done].
    + destruct (wrapper_rollback (database g)) as [w2|[]|] eqn:E; cbn; [|done]. rewrite conn_db_with. auto.
    + destruct (wrapper_commit (database g)) as [w2|[]|] eqn:E; cbn; [|done]. rewrite conn_db_with. auto.
Qed.

(** * What is read *)

Definition reads c (k : string) : Res Empty_set (option string) := wrapper_get (conn_db c) k.
(** The connection has a log of its own over the store. *)
Definition conn_over (st : S) c : Prop := exists l, wrapper_refines (conn_db c) (mkLogs st [l]).

Lemma conn_over_depth st c : conn_over st c -> wrapper_depth (conn_db c) = 1%nat.
Proof. intros [l Hr]. by rewrite (refines_depth _ _ Hr). Qed.
Lemma conn_same c w cost : w = conn_db c -> conn_with c w cost = mkConnection (conn_log c) (conn_store c) cost.
Proof. intros ->. by destruct c as [[]]. Qed.

Lemma rollback_nest w : wrapper_rollback (wrapper_nest w) = Ok w.
Proof. by destruct w. Qed.
Lemma sure_reads {E A} (m : Db S A) : writes (fun _ => False) m -> always (E := E) eq (db_sure m).
Proof.
  intros Hm w. unfold db_sure. destruct (m w) as [[a w1]| |] eqn:E1; [|done..]. apply Hm in E1.
  by destruct E1 as [|w0 w1 w2 (k & v & [] & _)].
Qed.
Lemma try_reads {A} (m : Db S A) : writes (fun _ => False) m -> always eq (db_try m).
Proof.
  intros Hm w. unfold db_try. destruct (m w) as [[a w1]| |] eqn:E1; [|done..]. apply Hm in E1.
  by destruct E1 as [|w0 w1 w2 (k & v & [] & _)].
Qed.
Lemma sure_puts {E A} (m : Db S A) : writes (fun _ => True) m -> always (E := E) (rtc (put_in (fun _ => True))) (db_sure m).
Proof. intros Hm w. unfold db_sure. destruct (m w) as [[a w1]| |] eqn:E1; [|done..]. by eapply Hm. Qed.

Lemma refines_puts K w w' st log mlog ls :
  rtc (put_in K) w w' -> wrapper_refines w (mkLogs st ((log, mlog) :: ls)) ->
  exists log', wrapper_refines w' (mkLogs st ((log', mlog) :: ls)).
Proof.
  intros H. revert log. induction H as [|w0 w1 w2 (k & v & _ & Hput) _ IH]; intros log Hr; [by exists log|].
  destruct (refines_put _ _ _ _ _ k v Hr) as (w' & Hw & Hr'). rewrite Hput in Hw. simplify_eq. by eapply IH.
Qed.

(** A read-only access leaves the connection as it is. *)
Lemma readonly_same {E R} (to_do : DbResult E R) c c' r :
  always eq to_do -> with_clarity_db_readonly to_do c = Ok (c', r) ->
  c' = c /\ to_do (wrapper_nest (conn_db c)) = Ok (wrapper_nest (conn_db c), r).
Proof.
  intros Hto. unfold with_clarity_db_readonly. intros ([w1 r1] & Hw1 & H)%bind_Ok.
  apply bind_Ok in H as (w2 & Hw2 & [= <- <-]). pose proof (always_run _ _ _ _ _ Hto Hw1) as <-. unfold db_roll_back, db_begin in *.
  rewrite rollback_nest in Hw2. injection Hw2 as <-. rewrite conn_same by done. split; [by destruct c|done].
Qed.

(** An access that writes: with a value, what it wrote is in the log of the
    connection. *)
Lemma with_db_success {R} (to_do : DbResult ClarityError R) st c c' a :
  conn_over st c -> with_clarity_db to_do c = Ok (c', inr a) ->
  always (rtc (put_in (fun _ => True))) to_do ->
  exists w1, to_do (wrapper_nest (conn_db c)) = Ok (w1, inr a) /\ conn_over st c' /\ forall k, reads c' k = wrapper_get w1 k.
Proof.
  intros [l Hr] H Hto. unfold with_clarity_db in H. apply bind_Ok in H as ([w1 r1] & Hw1 & H).
  apply bind_Ok in H as (w2 & Hw2 & [= <- ->]). exists w1. split; [done|].
  destruct (refines_puts _ _ _ _ _ _ _ (always_run _ _ _ _ _ Hto Hw1) (refines_nest _ _ Hr)) as [log Hr1]. destruct l as [log0 mlog0].
  destruct (refines_commit_inner _ _ _ _ _ _ _ Hr1) as (w' & Hw' & Hr'). unfold db_commit in Hw2. rewrite Hw' in Hw2.
  injection Hw2 as <-. unfold conn_over, reads. rewrite conn_db_with. split; [by eexists|]. intros k.
  rewrite (refines_get _ _ _ Hr'), (refines_get _ _ _ Hr1) by done. cbn [ls_store ls_logs]. by rewrite !pending_cons, app_assoc.
Qed.

(** ** Metadata *)

(** The connection has a log of its own over the store, with these metadata. *)
Definition conn_meta (st : S) (mlog : list ((QualifiedContractIdentifier * string) * string)) c : Prop :=
  exists log, wrapper_refines (conn_db c) (mkLogs st [(log, mlog)]).

(** An access that writes keys adds none. *)
Lemma with_db_meta {R} (to_do : DbResult ClarityError R) st mlog c c' a :
  conn_meta st mlog c -> with_clarity_db to_do c = Ok (c', inr a) -> always (rtc (put_in (fun _ => True))) to_do ->
  conn_meta st mlog c' /\ conn_cost c' = conn_cost c.
Proof.
  intros [log0 Hr] H Hto. unfold with_clarity_db in H. apply bind_Ok in H as ([w1 r1] & Hw1 & H).
  apply bind_Ok in H as (w2 & Hw2 & [= <- ->]). split; [|done].
  destruct (refines_puts _ _ _ _ _ _ _ (always_run _ _ _ _ _ Hto Hw1) (refines_nest _ _ Hr)) as [log Hr1].
  destruct (refines_commit_inner _ _ _ _ _ _ _ Hr1) as (w' & Hw' & Hr'). unfold db_commit in Hw2. rewrite Hw' in Hw2.
  injection Hw2 as <-. rewrite app_nil_r in Hr'. unfold conn_meta. rewrite conn_db_with. by eexists.
Qed.

(** The log of a run, over that of the connection that it starts from, is joined to
    it at the end. *)
Definition run_logs (st : S) c (w : RollbackWrapper S) c' : Prop := forall log0 mlog0,
  wrapper_refines (conn_db c) (mkLogs st [(log0, mlog0)]) ->
  exists log mlog, wrapper_refines w (mkLogs st [(log, mlog); (log0, mlog0)]) /\
    wrapper_refines (conn_db c') (mkLogs st [(log0 ++ log, mlog0 ++ mlog)]).

(** ** Runs of contracts *)

Lemma new_context_wf st c : conn_over st c -> context_wf (GlobalContext_new (wrapper_nest (conn_db c)) (conn_cost c)).
Proof. intros [l Hr]. apply refines_nest in Hr. eexists. split; [exact Hr|]. cbn. split_and!; [lia|done..]. Qed.

(** What [with_abort_callback] leaves behind: the connection as it was, or
    everything that the run did. *)
Definition run_outcome {A} (P : VmError -> Prop) (f : Exec S CallStack A)
    (cb : AssetMap -> RollbackWrapper S -> Res Empty_set bool) st c c' (r : ClarityError + A * AssetMap * EventBatch) : Prop :=
  match r with
  | inl e => exists e', e = ClarityError_from e' /\ (P e' \/ conn_db c' = conn_db c)
  | inr (v, m, b) => exists g' x' (abort : bool),
      execute_in_env f (GlobalContext_new (wrapper_nest (conn_db c)) (conn_cost c), CallStack_new) = Ok ((g', x'), inr (v, m, b)) /\
      cb m (database g') = Ok abort /\
      if abort then conn_db c' = conn_db c
      else conn_over st c' /\ (forall k, reads c' k = wrapper_get (database g') k) /\ run_logs st c (database g') c'
  end.

Lemma with_abort_outcome {A} P (f : Exec S CallStack A) cb st c c' r :
  conn_over st c -> confines touches P f -> with_abort_callback (execute_in_env f) cb c = Ok (c', r) ->
  run_outcome P f cb st c c' r.
Proof.
  intros Hover Hf H. unfold with_abort_callback in H. apply bind_Ok in H as ([[g x] r1] & Hrun & H).
  pose proof (execute_in_env_outcome P f _ CallStack_new (new_context_wf st c Hover) eq_refl Hf) as Hout.
  unfold db_begin in Hrun. rewrite Hrun in Hout. apply bind_Ok in H as ([w1 cost1] & Hd & H).
  unfold context_destruct in Hd. destruct (is_top_level g); [|done]. injection Hd as <- <-. destruct r1 as [e|[[v m] b]].
  - apply bind_Ok in H as (w2 & Hw2%lift_panic_Ok & [= <- <-]). exists e. split; [done|]. destruct Hout as [|Hg]; [by left|right].
    rewrite conn_db_with. rewrite Hg in Hw2. 
    cbn [database restored set_cost_track GlobalContext_new] in Hw2. unfold db_roll_back in Hw2. rewrite rollback_nest in Hw2. by injection Hw2.
  - apply bind_Ok in H as (abort & Habort%lift_panic_Ok & H). apply bind_Ok in H as (w2 & Hw2%lift_panic_Ok & [= <- <-]).
    exists g, x, abort. split; [done|]. split; [done|]. destruct Hout as (_ & _ & Hl & _). destruct Hover as [[log0 mlog0] Hr].
    destruct (Hl _ _ _ (refines_nest _ _ Hr)) as [[log mlog] Hr']. unfold conn_over, reads. rewrite conn_db_with. destruct abort.
    + destruct (refines_rollback _ _ _ _ _ Hr') as (w' & Hw' & Hr2). unfold db_roll_back in Hw2. rewrite Hw' in Hw2.
      injection Hw2 as <-. by apply (wrapper_refines_unique _ _ _ Hr2).
    + destruct (refines_commit_inner _ _ _ _ _ _ _ Hr') as (w' & Hw' & Hr2). unfold db_commit in Hw2. rewrite Hw' in Hw2.
      injection Hw2 as <-. split_and!; [by eexists| |].
      * intros k. rewrite (refines_get _ _ _ Hr2), (refines_get _ _ _ Hr') by done. cbn [ls_store ls_logs].
        by rewrite !pending_cons, app_assoc.
      * intros log1 mlog1 Hr1. destruct (Hl _ _ _ (refines_nest _ _ Hr1)) as [[log2 mlog2] Hr3]. exists log2, mlog2. split; [done|].
        rewrite conn_db_with. destruct (refines_commit_inner _ _ _ _ _ _ _ Hr3) as (w3 & Hw3 & Hr4). rewrite Hw' in Hw3. by injection Hw3 as <-.
Qed.

(** Saving an analysis writes no key. *)
Lemma analysis_insert_metadata id a w w1 u :
  analysis_insert_contract id a w = Ok (w1, inr u) -> wrapper_insert_metadata w id "analysis" (analysis_serialize a) = Ok w1.
Proof.
  unfold analysis_insert_contract. intros ([] & _ & H)%bind_Ok; apply bind_Ok in H as (w2 & Hw2 & H); by simplify_eq.
Qed.
Lemma save_analysis_success id a st c c' u :
  conn_over st c -> save_analysis id a c = Ok (c', inr u) -> conn_over st c' /\ forall k, reads c' k = reads c k.
Proof.
  intros [[log mlog] Hr] H. unfold save_analysis in H. apply bind_Ok in H as ([w1 r1] & Hw1 & H).
  apply bind_Ok in H as (w2 & Hw2 & [= <- ->]). apply analysis_insert_metadata in Hw1.
  destruct (refines_insert_metadata _ _ _ _ _ id "analysis" (analysis_serialize a) (refines_nest _ _ Hr)) as (w1' & Hw1' & Hr1).
  unfold db_begin in Hw1. rewrite Hw1 in Hw1'. injection Hw1' as <-.
  destruct (refines_commit_inner _ _ _ _ _ _ _ Hr1) as (w2' & Hw2' & Hr2).
  unfold db_commit in Hw2. rewrite Hw2' in Hw2. injection Hw2 as <-. unfold conn_over, reads. rewrite conn_db_with.
  split; [by eexists|]. intros k. rewrite (refines_get _ _ _ Hr2), (refines_get _ _ _ Hr) by done. cbn [ls_store ls_logs].
  by rewrite !pending_cons, app_nil_r.
Qed.
Lemma save_analysis_meta id a st mlog c c' u :
  conn_meta st mlog c -> save_analysis id a c = Ok (c', inr u) ->
  conn_meta st (mlog ++ [((id, "analysis"%string), analysis_serialize a)]) c'.
Proof.
  intros [log Hr] H. unfold save_analysis in H. apply bind_Ok in H as ([w1 r1] & Hw1 & H).
  apply bind_Ok in H as (w2 & Hw2 & [= <- ->]). apply analysis_insert_metadata in Hw1.
  destruct (refines_insert_metadata _ _ _ _ _ id "analysis" (analysis_serialize a) (refines_nest _ _ Hr)) as (w1' & Hw1' & Hr1).
  unfold db_begin in Hw1. rewrite Hw1 in Hw1'. injection Hw1' as <-.
  destruct (refines_commit_inner _ _ _ _ _ _ _ Hr1) as (w2' & Hw2' & Hr2).
  unfold db_commit in Hw2. rewrite Hw2' in Hw2. injection Hw2 as <-. unfold conn_meta. rewrite conn_db_with. by eexists.
Qed.
Lemma analyze_success id src st c c' v :
  conn_over st c -> analyze_smart_contract id src c = Ok (c', v) -> conn_over st c' /\ forall k, reads c' k = reads c k.
Proof.
  intros Hover. unfold analyze_smart_contract. destruct (run_analysis _ _ _ _) as [cost [r|e|]]; [..|done]; by intros [= <- _].
Qed.

(** ** What is read at a key *)

Definition along st (key : string) (rho : relation (Res Empty_set (option string))) : relation (Connection S) := fun c c' =>
  conn_over st c -> conn_over st c' /\ rho (reads c key) (reads c' key).
#[export] Instance along_preorder st key rho : PreOrder rho -> PreOrder (along st key rho).
Proof.
  intros Hrho. split; [by intros c|]. intros c1 c2 c3 H12 H23 H1. destruct (H12 H1) as [H2 ?]. destruct (H23 H2) as [H3 ?].
  split; [done|]. by transitivity (reads c2 key).
Qed.

Lemma run_along {A} P (f : Exec S CallStack A) cb st key rho c c' v :
  PreOrder rho -> confines (moved_at key rho) P f -> with_abort_callback (execute_in_env f) cb c = Ok (c', inr v) ->
  along st key rho c c'.
Proof.
  intros Hrho Hf H Hover. assert (confines touches P f) as Ht by (apply (confines_weaken (moved_at key rho)); [by intros ?? []|done]).
  apply (with_abort_outcome P f cb st) in H; [|done..]. destruct v as [[v m] b]. destruct H as (g' & x' & abort & Hrun & _ & H).
  destruct abort; [unfold conn_over, reads; by rewrite H|]. destruct H as (Hover' & Hreads & _). split; [done|]. rewrite Hreads.
  pose proof (conn_over_depth _ _ Hover) as Hd.
  eapply (execute_in_env_moved key rho P f) in Hrun; [|by eapply new_context_wf|done|cbn; unfold wrapper_depth in *; cbn; lia|done].
  unfold stored in Hrun. cbn [database GlobalContext_new] in Hrun. by rewrite nest_reads in Hrun by lia.
Qed.
Lemma runtime_error_from e' e : ClarityInterpreter (Runtime e) = ClarityError_from e' -> e' = Runtime e.
Proof. unfold ClarityError_from. intros H. repeat case_match; by simplify_eq. Qed.
Lemma run_fails {A} P (f : Exec S CallStack A) cb st c c' e :
  conn_over st c -> confines touches P f -> with_abort_callback (execute_in_env f) cb c = Ok (c', inl (ClarityInterpreter (Runtime e))) ->
  P (Runtime e) \/ conn_db c' = conn_db c.
Proof.
  intros Hover Hf H. apply (with_abort_outcome P f cb st) in H; [|done..]. destruct H as (e' & He & H).
  by apply runtime_error_from in He as ->.
Qed.
End connections.
#[export] Hint Resolve sure_reads try_reads sure_puts : chain.
