(* ===== verification/AccountFacts.v ===== *)
(** What the operations on accounts read and write, and what a committed
    transaction leaves in the block. *)
From stdpp Require Import base strings numbers list gmap relations.
From Stdlib Require Import ZArith Lia.
From S2P Require Import Prelude Names Types Representations Values C32 C32Facts RollbackWrapper BackingStore Costs AssetMap ClarityDatabase Keys DatabaseFacts Natives Contexts ContextFacts Interpreter Runs InterpreterFacts StxFacts Define Launches TransactionFacts Ledger StacksTypes PostConditions ClarityConnection ChainTransactions ConnectionFacts.
#[local] Open Scope Z_scope.

Section accounts.
Context {S : Type} `{Hstore : !ClarityBackingStore S VmError} `{Hlaws : !BackingStoreLaws S VmError}.
Context `{Hsha : !Sha256} `{Hsha512 : !Sha512Trunc256} `{Hheaders : !HeadersDB}.
Context `{Hu128 : !ClaritySerializable U128} `{Hu64 : !ClaritySerializable U64}.
Implicit Types (c : Connection S) (b : Block S) (w : RollbackWrapper S).

(** * Reads *)

Lemma set_balance_writes q v : writes (S := S) (fun _ => True) (set_account_stx_balance q v).
Proof. unfold set_account_stx_balance. writes_steps. Qed.
Lemma get_nonce_writes q K : writes (S := S) K (get_account_nonce q).
Proof. unfold get_account_nonce, get_json. writes_steps. Qed.
Lemma set_nonce_writes q v : writes (S := S) (fun _ => True) (set_account_nonce q v).
Proof. unfold set_account_nonce. writes_steps. Qed.
#[local] Hint Resolve get_balance_writes set_balance_writes get_nonce_writes set_nonce_writes : chain.

(** The nonce in a stored text. *)
Definition nonce_of (o : Res Empty_set (option string)) : option Z :=
  match o with
  | Ok None => Some 0
  | Ok (Some x) => match json_from_str (T := U64) x with Ok u => Some (u64_val u) | _ => None end
  | _ => None
  end.

Definition holds_balance c (p : PrincipalData) (bal : Z) : Prop :=
  exists key, make_key_for_account_balance p = Ok key /\ amount_of (reads c key) = Some bal.
Definition holds_nonce c (p : PrincipalData) (n : Z) : Prop :=
  exists key, make_key_for_account_nonce p = Ok key /\ nonce_of (reads c key) = Some n.

Lemma sure_balance {E} p w w' (r : E + Z) :
  db_sure (get_account_stx_balance p) w = Ok (w', r) ->
  w' = w /\ exists key bal, r = inr bal /\ make_key_for_account_balance p = Ok key /\ amount_of (wrapper_get w key) = Some bal.
Proof.
  unfold db_sure. destruct (get_account_stx_balance p w) as [[bal w1]| |] eqn:Hg; [|done..]. intros [= <- <-].
  destruct (balance_key _ _ _ _ Hg) as [key Hkey]. destruct (get_balance_amount _ _ _ _ _ Hkey Hg) as [-> Ha]. eauto 7.
Qed.
Lemma sure_nonce {E} p w w' (r : E + Z) :
  db_sure (get_account_nonce p) w = Ok (w', r) ->
  w' = w /\ exists key n, r = inr n /\ make_key_for_account_nonce p = Ok key /\ nonce_of (wrapper_get w key) = Some n.
Proof.
  unfold db_sure, get_account_nonce, mbind, db_bind, db_lift. destruct (make_key_for_account_nonce p) as [key|[]|]; [|done]. cbn.
  unfold get_json, db_read, mbind, res_bind. destruct (wrapper_get w key) as [[x|]|[]|] eqn:Hw; cbn; [| |done].
  - destruct (json_from_str x) as [u|[]|] eqn:Hx; cbn; [|done]. intros [= <- <-]. split; [done|]. exists key, (u64_val u).
    rewrite Hw. cbn. by rewrite Hx.
  - intros [= <- <-]. split; [done|]. exists key, 0. by rewrite Hw.
Qed.

Lemma get_account_spec st p c c' a :
  conn_over st c -> get_account p c = Ok (c', inr a) ->
  c' = c /\ principal a = p /\ holds_balance c p (stx_balance a) /\ holds_nonce c p (nonce a).
Proof.
  intros Hover. unfold get_account, tx_db. intros H%lift_panic_Ok. apply readonly_same in H as [-> H].
  - apply bind_success in H as (w1 & bal & H1 & H). apply sure_balance in H1 as [-> (kb & bal' & [= <-] & Hkb & Hb)].
    apply bind_success in H as (w2 & n & H2 & [= _ <-]). apply sure_nonce in H2 as [_ (kn & n' & [= <-] & Hkn & Hn)].
    rewrite nest_reads in Hb, Hn by (rewrite (conn_over_depth _ _ Hover); lia). split_and!; [done|done|by exists kb|by exists kn].
  - always_steps.
Qed.

(** * Writes *)

(** One key has a new text, in the log of the connection. *)
Definition sets st (key text : string) c c' : Prop :=
  conn_over st c' /\ forall k, reads c' k = if decide (k = key) then Ok (Some text) else reads c k.

Lemma sure_put {E T} `{!Storable T} `{!ClaritySerializable T} (rkey : Res Empty_set string) (x : T) w w' (r : E + unit) :
  db_sure (key ← db_lift (lift_panic rkey); put_json key x) w = Ok (w', r) ->
  r = inr tt /\ exists key, rkey = Ok key /\ wrapper_put w key (json_to_string x) = Ok w'.
Proof.
  unfold db_sure, mbind, db_bind, db_lift. destruct rkey as [key|[]|]; [|done]. cbn. unfold put_json, db_write.
  destruct (wrapper_put w key _) as [w1|[]|] eqn:Hw; cbn; [|done]. intros [= <- <-]. eauto.
Qed.
Lemma put_reads w w' key text : wrapper_put w key text = Ok w' ->
  rtc (put_in (fun _ => True)) w w' /\ forall k, wrapper_get w' k = if decide (k = key) then Ok (Some text) else wrapper_get w k.
Proof.
  intros Hw. split; [apply rtc_once; by exists key, text|]. destruct (put_updated w key text) as (w2 & Hw2 & Hu).
  { unfold wrapper_put, wrapper_depth in *. by destruct (stack w). }
  rewrite Hw in Hw2. injection Hw2 as <-. apply Hu.
Qed.

Lemma account_debit_spec st p amount c c' u :
  conn_over st c -> account_debit p amount c = Ok (c', inr u) ->
  exists key bal, make_key_for_account_balance p = Ok key /\ amount_of (reads c key) = Some bal /\ amount <= bal /\
    sets st key (json_to_string (mkU128 (bal - amount))) c c'.
Proof.
  intros Hover. unfold account_debit, tx_expect, tx_db. destruct (with_clarity_db _ c) as [[c1 [e|[]]]|[]|] eqn:H; cbn; try done.
  intros [= <- _]. eapply with_db_success in H as (w1 & H & Hover' & Hreads); [|exact Hover|].
  - apply bind_success in H as (w2 & bal & H1 & H). apply sure_balance in H1 as [-> (key & bal' & [= <-] & Hkey & Hbal)].
    rewrite nest_reads in Hbal by (rewrite (conn_over_depth _ _ Hover); lia). destruct (Z.ltb_spec bal amount) as [|Hle]; [done|].
    apply sure_put in H as (_ & key' & Hkey' & [_ Hput]%put_reads). rewrite Hkey in Hkey'. injection Hkey' as <-.
    exists key, bal. split_and!; [done..|]. split; [done|]. intros k. rewrite Hreads, Hput.
    by rewrite nest_reads by (rewrite (conn_over_depth _ _ Hover); lia).
  - always_steps.
Qed.

Lemma update_nonce_spec st a c c' u :
  conn_over st c -> update_account_nonce a c = Ok (c', inr u) ->
  exists key, make_key_for_account_nonce (principal a) = Ok key /\ in_u 64 (nonce a + 1) /\
    sets st key (json_to_string (mkU64 (nonce a + 1))) c c'.
Proof.
  intros Hover. unfold update_account_nonce, tx_expect, tx_db. destruct (with_clarity_db _ c) as [[c1 [e|[]]]|[]|] eqn:H; cbn; try done.
  intros [= <- _]. eapply with_db_success in H as (w1 & H & Hover' & Hreads); [|exact Hover|always_steps].
  apply bind_success in H as (w2 & next & H1 & H). unfold pure in H1.
  destruct (checked_add 64 (nonce a) 1) as [n|] eqn:Hadd; cbn in H1; [|done]. simplify_eq.
  apply checked_u_Some in Hadd as [-> Hu]. apply sure_put in H as (_ & key & Hkey & [_ Hput]%put_reads).
  exists key. split_and!; [done..|]. split; [done|]. intros k. rewrite Hreads, Hput.
  by rewrite nest_reads by (rewrite (conn_over_depth _ _ Hover); lia).
Qed.

(** Debits and updates of nonces write no metadata. *)
Lemma account_debit_meta st mlog p amount c c' u :
  conn_meta st mlog c -> account_debit p amount c = Ok (c', inr u) -> conn_meta st mlog c' /\ conn_cost c' = conn_cost c.
Proof.
  intros Hm. unfold account_debit, tx_expect, tx_db. destruct (with_clarity_db _ c) as [[c1 [e|[]]]|[]|] eqn:H; cbn; try done.
  intros [= <- _]. eapply with_db_meta in H; [exact H|exact Hm|]. always_steps.
Qed.
Lemma update_nonce_meta st mlog a c c' u :
  conn_meta st mlog c -> update_account_nonce a c = Ok (c', inr u) -> conn_meta st mlog c'.
Proof.
  intros Hm. unfold update_account_nonce, tx_expect, tx_db. destruct (with_clarity_db _ c) as [[c1 [e|[]]]|[]|] eqn:H; cbn; try done.
  intros [= <- _]. eapply with_db_meta in H as [H _]; [exact H|exact Hm|]. always_steps.
Qed.

(** ** Token transfers *)

Lemma token_transfer_spec st to amount o c c' u :
  conn_over st c -> process_transaction_token_transfer to amount o c = Ok (c', inr u) ->
  principal o <> to /\
  exists kf kt from_bal to_bal, make_key_for_account_balance (principal o) = Ok kf /\ make_key_for_account_balance to = Ok kt /\
    amount_of (reads c kf) = Some from_bal /\ amount_of (reads c kt) = Some to_bal /\
    in_u 128 (from_bal - amount) /\ in_u 128 (to_bal + amount) /\
    conn_over st c' /\
    forall k, reads c' k = if decide (k = kt) then Ok (Some (json_to_string (mkU128 (to_bal + amount))))
                           else if decide (k = kf) then Ok (Some (json_to_string (mkU128 (from_bal - amount)))) else reads c k.
Proof.
  intros Hover. unfold process_transaction_token_transfer. destruct (decide _) as [|Hne]; [done|]. intros H. split; [done|].
  unfold tx_db in H. destruct (with_clarity_db _ c) as [[c1 [[]|[]]]|[]|] eqn:Hw; cbn in H; try done.
  injection H as <- _. eapply with_db_success in Hw as (w1 & H & Hover' & Hreads); [|exact Hover|always_steps].
  assert (forall k, wrapper_get (wrapper_nest (conn_db c)) k = reads c k) as Hnest.
  { intros k. by rewrite nest_reads by (rewrite (conn_over_depth _ _ Hover); lia). }
  apply bind_success in H as (w2 & from_bal & H1 & H). apply sure_balance in H1 as [-> (kf & ? & [= <-] & Hkf & Hf)].
  apply bind_success in H as (w3 & to_bal & H2 & H). apply sure_balance in H2 as [-> (kt & ? & [= <-] & Hkt & Ht)].
  rewrite Hnest in Hf, Ht. destruct (checked_sub 128 from_bal amount) as [new_from|] eqn:Hsub; [|done].
  destruct (checked_add 128 to_bal amount) as [new_to|] eqn:Hadd; [|done].
  apply checked_u_Some in Hsub as [-> Hus]. apply checked_u_Some in Hadd as [-> Hua].
  apply bind_success in H as (w4 & [] & H3 & H). apply sure_put in H3 as (_ & kf' & Hkf' & [_ Hput1]%put_reads).
  apply sure_put in H as (_ & kt' & Hkt' & [_ Hput2]%put_reads). rewrite Hkf in Hkf'. rewrite Hkt in Hkt'. simplify_eq.
  exists kf', kt', from_bal, to_bal. split_and!; [done..|]. intros k. by rewrite Hreads, Hput2, Hput1, Hnest.
Qed.

(** * Blocks *)

Lemma start_over b : conn_over (datastore b) (start_transaction_processing b).
Proof. exists ([], []). apply (refines_nest (wrapper_new (datastore b)) (mkLogs (datastore b) [])), wrapper_new_refines. Qed.

Lemma start_meta b : conn_meta (datastore b) [] (start_transaction_processing b).
Proof. exists []. apply (refines_nest (wrapper_new (datastore b)) (mkLogs (datastore b) [])), wrapper_new_refines. Qed.
(** The log of the transaction goes to the store. *)
Lemma conn_commit_meta st mlog c b :
  conn_meta st mlog c -> conn_commit c = Ok b -> exists log, flush st log mlog = Ok (datastore b).
Proof.
  intros [log Hr] H. exists log. unfold conn_commit in H. destruct (decide _); [|done].
  rewrite (refines_commit_bottom _ _ _ _ Hr) in H. destruct (flush st log mlog) as [st'|[]|]; cbn in H; [|done]. by injection H as <-.
Qed.
(** What was read in the transaction is read in the next one. *)
Lemma conn_commit_spec st c b :
  conn_over st c -> conn_commit c = Ok b -> forall k, reads (start_transaction_processing b) k = reads c k.
Proof.
  intros [[log mlog] Hr]. unfold conn_commit. destruct (decide _); [|done]. pose proof (commit_reads _ _ _ _ _ Hr) as Hw.
  destruct (wrapper_commit (conn_db c)) as [w|[]|]; cbn; [|done]. intros [= <-] k. destruct Hw as [(s & Hs & Hl) Hget].
  destruct s as [st' []]; [|done]. unfold reads. rewrite <-Hget. pose proof (wr_store _ _ Hs) as Hst. cbn in Hst.
  rewrite (refines_get _ _ _ (refines_nest _ _ Hs)) by done. unfold wrapper_get. cbn. rewrite lookup_empty. cbn. by rewrite Hst.
Qed.
End accounts.
#[export] Hint Resolve get_balance_writes set_balance_writes get_nonce_writes set_nonce_writes : chain.
