(* ===== verification/ChainFacts.v ===== *)
(** Correctness of the processing of transactions: refused transactions change
    nothing, transactions cannot be replayed, fees and transfers are exact, STX
    of others is not spent, and post-conditions are enforced. *)
From stdpp Require Import base strings numbers list gmap relations.
From Stdlib Require Import ZArith Lia.
From S2P Require Import Prelude Names Types Representations Values C32 C32Facts RollbackWrapper BackingStore Costs AssetMap ClarityDatabase Keys DatabaseFacts Natives Contexts ContextFacts Interpreter Runs InterpreterFacts StxFacts Define Launches TransactionFacts Ledger StacksTypes PostConditions ClarityConnection ChainTransactions ConnectionFacts AccountFacts AssetFacts.
#[local] Open Scope Z_scope.

(** The error of the store for a contract that there is not ([get_contract_hash] of
    [MarfedKV], through which metadata are read). *)
Class MetadataErrors (S : Type) `{!ClarityBackingStore S VmError} : Prop :=
  metadata_error : forall (st : S) c k e, bs_get_metadata st c k = Err e -> exists s, e = Unchecked (NoSuchContract s).

Section chain.
Context {S : Type} `{Hstore : !ClarityBackingStore S VmError} `{Hlaws : !BackingStoreLaws S VmError}.
Context `{Hsha : !Sha256} `{Hsha512 : !Sha512Trunc256} `{Hhashes : !NativeHashes} `{Hheaders : !HeadersDB}.
Context `{Hu128 : !ClaritySerializable U128} `{Hu64 : !ClaritySerializable U64} `{Hprincipal : !ClaritySerializable PrincipalData}.
Context `{Hft : !ClaritySerializable FungibleTokenMetadata} `{Hnft : !ClaritySerializable NonFungibleTokenMetadata}.
Context `{Hmap : !ClaritySerializable DataMapMetadata} `{Hvar : !ClaritySerializable DataVariableMetadata}.
Context `{Hst : !Storable ContractData} `{Hcontract : !ClaritySerializable ContractData} `{Hanalyzer : !Analyzer S}.
Context `{Hverifier : !Verifier}.
Implicit Types (c : Connection S) (b : Block S).

(** * Refused transactions *)

Section store.
Lemma sure_any {E A} (m : Db S A) : writes (fun _ => True) m -> always (E := E) wrapper_kept (db_sure m).
Proof. apply sure_kept. Qed.

#[local] Hint Resolve sure_any readonly_kept with_db_kept analyze_kept save_analysis_kept with_abort_kept : chain.
#[local] Hint Resolve execute_contract_kept launch_kept : chain.

Lemma get_account_kept p : always (@conn_kept S) (get_account p).
Proof. unfold get_account. apply always_lift, readonly_kept. always_steps. Qed.
Lemma account_debit_kept p n : always (@conn_kept S) (account_debit p n).
Proof. unfold account_debit. apply always_expect, always_lift, with_db_kept. always_steps. Qed.
Lemma update_nonce_kept a : always (@conn_kept S) (update_account_nonce a).
Proof. unfold update_account_nonce. apply always_expect, always_lift, with_db_kept. always_steps. Qed.
Lemma chain_get_contract_kept id : always (@conn_kept S) (chain_get_contract id).
Proof.
  apply always_map_err, always_lift, readonly_kept. intros w. pose proof (try_kept _ _ (get_contract_writes id) w) as H.
  by destruct (db_try (get_contract id) w) as [[w1 r]|[]|].
Qed.
#[local] Hint Resolve get_account_kept account_debit_kept update_nonce_kept chain_get_contract_kept : chain.

Lemma token_transfer_kept p n o : always (@conn_kept S) (process_transaction_token_transfer p n o).
Proof.
  unfold process_transaction_token_transfer. destruct (decide _); [apply always_fails; exact _|]. intros c.
  match goal with |- context [tx_db (with_clarity_db ?m) c] => assert (always (@conn_kept S) (tx_db (with_clarity_db m))) as H end.
  { apply always_lift, with_db_kept. always_steps. }
  specialize (H c). destruct (tx_db _ c) as [[c1 [[]|a]]| |]; done.
Qed.
Lemma runtime_okay_kept {A} (a : A) m : always (@conn_kept S) m -> always conn_kept (runtime_okay a m).
Proof.
  intros Hm c. specialize (Hm c). unfold runtime_okay. destruct (m c) as [[c1 [e|r]]| |]; cbn in *; [|done..]. repeat case_match; by simplify_eq.
Qed.
Lemma call_kept p id name args cb : always (@conn_kept S) (run_contract_call p id name args cb).
Proof. apply with_abort_kept, execute_contract_kept. Qed.
Lemma initialize_kept id ast src cb : always (@conn_kept S) (initialize_smart_contract id ast src cb).
Proof. apply always_bind; [exact _|apply with_abort_kept, launch_kept|]. intros [[u m] e]. apply always_ret. exact _. Qed.
#[local] Hint Resolve token_transfer_kept runtime_okay_kept call_kept initialize_kept : chain.

Lemma payload_kept tx o : always (@conn_kept S) (process_transaction_payload tx o).
Proof.
  unfold process_transaction_payload, reject. destruct (payload tx) as [to amount memo|call|contract|h1 h2|p].
  3: { apply always_bind; [exact _|always_steps|]. intros issuer. apply always_bind; [exact _|always_steps|].
       intros [existing|]; [always_steps|]. intros c.
       pose proof (always_lift _ _ (analyze_kept (mkContractId issuer (contract_name contract)) (code_body contract)) c) as Ha.
       cbn beta in Ha. unfold tx_db. destruct (lift_panic _) as [[c1 [e|[ast analysis]]]| |]; [done| |done..].
       eapply (always_after conn_kept); [exact Ha|]. unfold launch_contract. always_steps. }
  all: always_steps.
Qed.
Lemma transaction_body_kept tx : always (@conn_kept S) (transaction_body tx).
Proof.
  unfold transaction_body. apply always_bind; [exact _|unfold check_transaction_nonces, reject; always_steps|].
  intros [origin payer]. apply always_bind; [exact _|unfold pay_transaction_fee, reject; always_steps|]. intros fee.
  apply always_bind; [exact _|apply payload_kept|]. intros receipt. always_steps.
Qed.
End store.

Lemma refused_store config tx b b' e : process_transaction config tx b = Ok (b', inl e) -> datastore b' = datastore b.
Proof.
  unfold process_transaction. destruct (process_transaction_precheck config tx) as [[]|e'|]; [|by intros [= <- _]|done].
  pose proof (transaction_body_kept tx (start_transaction_processing b)) as Hk.
  destruct (transaction_body tx _) as [[c [e'|v']]| |]; cbn in *; [|by destruct (conn_commit c) as [|[]|]|done..].
  intros [= <- _]. apply Hk. cbn. lia.
Qed.

Lemma process_ends config tx b e : process_transaction config tx b <> Err e.
Proof.
  unfold process_transaction. destruct (process_transaction_precheck config tx) as [[]|e'|]; [|done..].
  pose proof (transaction_body_kept tx (start_transaction_processing b)) as Hk.
  destruct (transaction_body tx _) as [[c [e'|v]]| |]; cbn in *; [done| |done..]. by destruct (conn_commit c) as [|[]|].
Qed.

(** C8. The processing of a transaction ends, and a transaction that is refused
    changes nothing in the block, whatever it ran before it was refused. *)
Theorem rejected_unchanged config tx b :
  match process_transaction config tx b with
  | Ok (b', inl _) => datastore b' = datastore b
  | Ok (_, inr _) => True
  | Err _ => False
  | Panic => True
  end.
Proof.
  destruct (process_transaction config tx b) as [[b' [e|v]]|e|] eqn:H; [by eapply refused_store|done|by eapply process_ends|done].
Qed.

(** * Accepted transactions *)

(** The error of the store for a contract that there is not. *)
Context `{Hmeta : !MetadataErrors S}.

Lemma size_error_not_runtime id e : ~ size_error (S := S) id (Runtime e).
Proof.
  intros (d & w & H). unfold set_contract_data_size, fetch_expected, fetch_metadata, mbind, db_bind, db_read in H.
  destruct (wrapper_get_metadata w id _) as [[x|]|e'|] eqn:Hm; cbn in H.
  - destruct (json_from_str x) as [u|[]|]; cbn in H; [|done]. destruct (cost_overflow_add _ _) as [z|ce|]; cbn in H; [|done..].
    by apply insert_metadata_no_error in H.
  - done.
  - simplify_eq. unfold wrapper_get_metadata in Hm. destruct (stack w); [done|]. destruct (_ ≫= last); [done|].
    by apply metadata_error in Hm as [].
  - done.
Qed.

Lemma save_expected st id a c c' u :
  conn_over st c -> tx_expect (E' := ChainError) (tx_db (save_analysis id a)) c = Ok (c', inr u) ->
  conn_over st c' /\ forall k, reads c' k = reads c k.
Proof.
  intros Hover. unfold tx_expect, tx_db. destruct (save_analysis id a c) as [[c1 [e|v]]|[]|] eqn:E; cbn; try done.
  intros [= <- _]. by eapply save_analysis_success.
Qed.

Lemma save_expected_meta st mlog id a c c' u :
  conn_meta st mlog c -> tx_expect (E' := ChainError) (tx_db (save_analysis id a)) c = Ok (c', inr u) ->
  conn_meta st (mlog ++ [((id, "analysis"%string), analysis_serialize a)]) c'.
Proof.
  intros Hm. unfold tx_expect, tx_db. destruct (save_analysis id a c) as [[c1 [e|v]]|[]|] eqn:H; cbn; try done.
  intros [= <- _]. by eapply save_analysis_meta.
Qed.

Section along.
Context (st : S) (key : string) (rho : relation (Res Empty_set (option string))) `{Hrho : !PreOrder rho}.
#[local] Notation along := (along st key rho).

(** Runs that the chain accepts: those with a value or a runtime error. *)
Definition accepts {A} (m : Stateful (Connection S) OutOfFuel ClarityError A) : Prop := forall c c' r,
  m c = Ok (c', r) -> match r with inr _ | inl (ClarityInterpreter (Runtime _)) => along c c' | _ => True end.

Lemma run_accepts {A} P (f : Exec S CallStack A) cb :
  (forall e, ~ P (Runtime e)) -> confines (moved_at key rho) P f -> accepts (with_abort_callback (execute_in_env f) cb).
Proof.
  intros HP Hf c c' r H. destruct r as [[| |[| |e|]| |]|v]; try done; [|by eapply run_along].
  intros Hover. apply (run_fails P f cb st) in H as [[]%HP|H]; [|done|].
  - unfold conn_over, reads. by rewrite H.
  - apply (confines_weaken (moved_at key rho)); [by intros ?? []|done].
Qed.
Lemma accepts_ret {A B} (m : Stateful (Connection S) OutOfFuel ClarityError A) (k : A -> Stateful (Connection S) OutOfFuel ClarityError B) :
  accepts m -> (forall a c, exists v, k a c = Ok (c, inr v)) -> accepts (m ≫= k).
Proof.
  intros Hm Hk c c' r. unfold mbind, stateful_bind. destruct (m c) as [[c1 [e|a]]| |] eqn:E; [| |done..].
  - intros [= <- <-]. exact (Hm _ _ _ E).
  - destruct (Hk a c1) as [v ->]. intros [= <- <-]. exact (Hm _ _ _ E).
Qed.
Lemma runtime_okay_along {A} (a : A) m : accepts m -> success along (runtime_okay a m).
Proof.
  intros Hm c c' v. unfold runtime_okay. destruct (m c) as [[c1 r]| |] eqn:E; [|done..]. apply Hm in E.
  repeat case_match; intros; by simplify_eq.
Qed.

(** Accesses that read the key as before. *)
Lemma same_along {E A} (m : Stateful (Connection S) OutOfFuel E A) :
  (forall c c' a, conn_over st c -> m c = Ok (c', inr a) -> conn_over st c' /\ forall k, reads c' k = reads c k) -> success along m.
Proof. intros Hm c c' a H Hover. destruct (Hm _ _ _ Hover H) as [Hover' Hk]. split; [done|]. by rewrite Hk. Qed.
Lemma save_along id a : success along (tx_expect (E' := ChainError) (tx_db (save_analysis id a))).
Proof. apply same_along. intros c c' u. apply save_expected. Qed.
Lemma get_contract_reads id : writes (S := S) (fun _ => False) (get_contract id).
Proof. unfold get_contract, fetch_expected, fetch_metadata. writes_steps. Qed.
Lemma get_contract_same id c c' r : chain_get_contract id c = Ok (c', r) -> c' = c.
Proof.
  unfold chain_get_contract, tx_map_err, tx_db. destruct (with_clarity_db_readonly _ c) as [[c1 r1]|[]|] eqn:E; cbn; [|done].
  intros H. apply readonly_same in E as [-> _]; [by destruct r1; simplify_eq|]. intros w.
  pose proof (try_reads (get_contract id) (get_contract_reads id) w) as Hr.
  by destruct (db_try (get_contract id) w) as [[w1 r2]|[]|].
Qed.

Lemma launch_along tx o id src ast a :
  confines (moved_at key rho) (launch_opens id) (initialize_contract_from_ast id ast src) ->
  success along (launch_contract tx o id src ast a).
Proof.
  intros Hlaunch. apply success_bind; [exact _| |].
  - apply runtime_okay_along. apply accepts_ret; [|intros [[u m] e] c; by eexists].
    eapply (run_accepts (launch_opens id)); [|exact Hlaunch]. intros e [[? [=]]|H]. by apply size_error_not_runtime in H.
  - intros [m events]. apply success_bind; [exact _|apply save_along|]. intros _.
    apply success_bind; [exact _|apply always_success, always_pure; exact _|]. intros burned. apply always_success, always_ret; exact _.
Qed.

Lemma payload_along tx o :
  (forall to amount memo, payload tx = TokenTransfer to amount memo -> success along (process_transaction_token_transfer to amount o)) ->
  (forall id name args, confines (moved_at key rho) opens
     (execute_contract eval id name args false (get_exec_environment (Some (VPrincipal (principal o)))))) ->
  (forall id es src, confines (moved_at key rho) (launch_opens id) (initialize_contract_from_ast id es src)) ->
  success along (process_transaction_payload tx o).
Proof.
  intros Htransfer Hcall Hlaunch. unfold process_transaction_payload, reject.
  destruct (payload tx) as [to amount memo|call|contract|h1 h2|p].
  - destruct (decide _); [apply always_success, always_fails; exact _|]. apply success_bind; [exact _|by eapply Htransfer|]. intros _.
    apply always_success, always_ret; exact _.
  - apply success_bind; [exact _| |].
    + apply runtime_okay_along. eapply (run_accepts opens); [by intros e [? [=]]|apply Hcall].
    + intros [[v m] e]. apply success_bind; [exact _|apply always_success, always_pure; exact _|]. intros burned. apply always_success, always_ret; exact _.
  - apply success_bind; [exact _|apply always_success, always_pure; exact _|]. intros issuer c c' v (c1 & existing & Hget & H)%bind_success.
    apply get_contract_same in Hget as ->. destruct existing; [done|].
    unfold tx_db at 1 in H. destruct (analyze_smart_contract _ _ c) as [[c1 [e|[ast analysis]]]|[]|] eqn:Ha; cbn [lift_panic] in H; try done.
    + injection H as <- _. intros Hover. destruct (analyze_success _ _ st _ _ _ Hover Ha) as [Hover' Hk]. split; [done|]. by rewrite Hk.
    + transitivity c1.
      { intros Hover. destruct (analyze_success _ _ st _ _ _ Hover Ha) as [Hover' Hk]. split; [done|]. by rewrite Hk. }
      revert H. apply launch_along, Hlaunch.
  - destruct (decide _); [apply always_success, always_fails; exact _|apply always_success, always_pure; exact _].
  - apply always_success, always_ret; exact _.
Qed.
End along.

(** ** The steps of an accepted transaction *)

(** Who sends the transaction, and who pays for it. *)
Definition sender_of (tx : StacksTransaction) : PrincipalData := PrincipalData_from (origin_address tx).
Definition payer_of (tx : StacksTransaction) : PrincipalData := PrincipalData_from (default (origin_address tx) (sponsor_address tx)).

Definition account_at c (p : PrincipalData) (a : StacksAccount) : Prop :=
  principal a = p /\ holds_balance c p (stx_balance a) /\ holds_nonce c p (nonce a).

Lemma nonces_spec st tx c c' o p :
  conn_over st c -> check_transaction_nonces tx c = Ok (c', inr (o, p)) ->
  c' = c /\ account_at c (sender_of tx) o /\ nonce o = spending_nonce (get_origin tx) /\
  account_at c (payer_of tx) p /\ (is_Some (sponsor_address tx) -> nonce p = spending_nonce (get_payer tx)).
Proof.
  intros Hover. unfold check_transaction_nonces, payer_of. intros (c1 & o1 & Ho & H)%bind_success.
  apply (get_account_spec st) in Ho as (-> & Ho); [|done]. apply bind_success in H as (c2 & p1 & Hp & H).
  destruct (Z.eqb_spec (spending_nonce (get_origin tx)) (nonce o1)) as [Hn|]; [|done]. injection H as <- <- <-.
  destruct (sponsor_address tx) as [sponsor|].
  - apply bind_success in Hp as (c3 & p2 & Hp & H). apply (get_account_spec st) in Hp as (-> & Hp); [|done].
    destruct (Z.eqb_spec (spending_nonce (get_payer tx)) (nonce p2)) as [Hn2|]; [|done]. injection H as <- <-.
    split_and!; [done|exact Ho|done|exact Hp|done].
  - injection Hp as <- <-. split_and!; [done|exact Ho|done|exact Ho|]. by intros [? [=]].
Qed.

Lemma pay_fee_spec st tx p c c' fee :
  conn_over st c -> pay_transaction_fee tx p c = Ok (c', inr fee) ->
  fee = get_fee_rate tx /\
  exists key bal, make_key_for_account_balance (principal p) = Ok key /\ amount_of (reads c key) = Some bal /\ fee <= bal /\
    sets st key (json_to_string (mkU128 (bal - fee))) c c'.
Proof.
  intros Hover. unfold pay_transaction_fee. destruct (_ <? _); [done|]. intros (c1 & [] & Hd & [= <- <-])%bind_success.
  split; [done|]. by apply (account_debit_spec st) in Hd.
Qed.

(** The states that an accepted transaction goes through. *)
Lemma body_steps st tx c c' fee receipt :
  conn_over st c -> transaction_body tx c = Ok (c', inr (fee, receipt)) ->
  exists o p c1 c2 c3,
    account_at c (sender_of tx) o /\ nonce o = spending_nonce (get_origin tx) /\ account_at c (payer_of tx) p /\
    pay_transaction_fee tx p c = Ok (c1, inr fee) /\ process_transaction_payload tx o c1 = Ok (c2, inr receipt) /\
    update_account_nonce o c2 = Ok (c3, inr tt) /\
    (if decide (o <> p) then update_account_nonce p else mret tt) c3 = Ok (c', inr tt).
Proof.
  intros Hover. unfold transaction_body. intros (c1 & [o p] & Hn & H)%bind_success.
  apply (nonces_spec st) in Hn as (-> & Ho & Hno & Hp & _); [|done].
  apply bind_success in H as (c1 & fee' & Hfee & H). apply bind_success in H as (c2 & receipt' & Hpay & H).
  apply bind_success in H as (c3 & [] & Hu & H). apply bind_success in H as (c4 & [] & Hu2 & [= <- <- <-]).
  by exists o, p, c1, c2, c3.
Qed.

(** ** Nonces *)

Lemma payload_keeps_nonce st tx o q key :
  make_key_for_account_nonce q = Ok key -> success (along st key eq) (process_transaction_payload tx o).
Proof.
  intros Hkey. apply payload_along; [exact _| | |].
  - intros to amount memo _ c c' u H Hover.
    apply (token_transfer_spec st) in H as (_ & kf & kt & from_bal & to_bal & Hkf & Hkt & _ & _ & _ & _ & Hover' & Hreads); [|done].
    split; [done|]. rewrite Hreads, !decide_False; [done| |]; intros ->; by eapply balance_not_nonce.
  - intros id name args. by eapply execute_contract_nonce.
  - intros id es src. by eapply launch_nonce.
Qed.

Lemma update_nonce_at st a c c' u key :
  conn_over st c -> update_account_nonce a c = Ok (c', inr u) ->
  conn_over st c' /\
  ((make_key_for_account_nonce (principal a) = Ok key /\ nonce_of (reads c' key) = Some (nonce a + 1)) \/
   (make_key_for_account_nonce (principal a) <> Ok key /\ reads c' key = reads c key)).
Proof.
  intros Hover H. apply (update_nonce_spec st) in H as (k & Hk & Hu & Hover' & Hreads); [|done]. split; [done|].
  rewrite Hk, Hreads. destruct (decide (key = k)) as [->|Hne]; [left|right; split; [congruence|done]].
  split; [done|]. cbn. by rewrite json_round_trip.
Qed.
Lemma nonce_at c p a key n :
  account_at c p a -> make_key_for_account_nonce (principal a) = Ok key -> nonce_of (reads c key) = Some n -> nonce a = n.
Proof. intros (<- & _ & k & Hk & Hn) Hkey Hn'. congruence. Qed.

(** The keys of the nonces that a transaction updates, and of the balance that the
    fee is taken from. *)
Definition nonce_key tx (k : string) : Prop :=
  make_key_for_account_nonce (sender_of tx) = Ok k \/ make_key_for_account_nonce (payer_of tx) = Ok k.
Definition fee_key tx (k : string) : Prop := make_key_for_account_balance (payer_of tx) = Ok k.

#[local] Instance returns_dec (r : Res Empty_set string) k : Decision (r = Ok k).
Proof. refine (match r with Ok k' => cast_if (decide (k' = k)) | _ => right _ end); congruence. Defined.
#[local] Instance nonce_key_dec tx k : Decision (nonce_key tx k).
Proof. unfold nonce_key. exact _. Defined.

(** What an accepted transaction does to a nonce. *)
Lemma body_nonce st tx c c' v q key n :
  conn_over st c -> transaction_body tx c = Ok (c', inr v) -> make_key_for_account_nonce q = Ok key ->
  nonce_of (reads c key) = Some n ->
  conn_over st c' /\
  (nonce_key tx key -> nonce_of (reads c' key) = Some (n + 1)) /\ (~ nonce_key tx key -> nonce_of (reads c' key) = Some n) /\
  (make_key_for_account_nonce (sender_of tx) = Ok key -> n = spending_nonce (get_origin tx)).
Proof.
  intros Hover H Hkey Hn. destruct v as [fee receipt].
  apply (body_steps st) in H as (o & p & c1 & c2 & c3 & Ho & Hno & Hp & Hfee & Hpay & Hu1 & Hu2); [|done].
  apply (pay_fee_spec st) in Hfee as (_ & kb & bal & Hkb & _ & _ & [Hover1 Hr1]); [|done].
  destruct (payload_keeps_nonce st tx o q key Hkey _ _ _ Hpay Hover1) as [Hover2 Hr2].
  rewrite Hr1, decide_False in Hr2; [|by intros ->; eapply balance_not_nonce].
  destruct (update_nonce_at st o c2 c3 tt key Hover2 Hu1) as [Hover3 H3].
  assert (conn_over st c' /\ ((make_key_for_account_nonce (principal p) = Ok key /\ nonce_of (reads c' key) = Some (nonce p + 1)) \/
    (make_key_for_account_nonce (principal p) = Ok key -> o = p) /\ reads c' key = reads c3 key)) as [Hover4 H4].
  { destruct (decide (o <> p)) as [|He%dec_stable]; [|injection Hu2 as <-; auto].
    destruct (update_nonce_at st p c3 c' tt key Hover3 Hu2) as [? [|[]]]; [by auto|]. split; [done|]. right. by split. }
  assert (make_key_for_account_nonce (principal o) = Ok key -> nonce o = n) as Hon by (intros Hk; by apply (nonce_at c _ _ key n Ho)).
  assert (make_key_for_account_nonce (principal p) = Ok key -> nonce p = n) as Hpn by (intros Hk; by apply (nonce_at c _ _ key n Hp)).
  unfold nonce_key. rewrite <-(proj1 Ho), <-(proj1 Hp), <-Hno. split; [done|].
  destruct H4 as [[Hk4 H4]|[Hk4 H4]]; rewrite H4; [rewrite (Hpn Hk4); split_and!; [done|tauto|by intros ->%Hon]|].
  destruct H3 as [[Hk3 H3]|[Hk3 H3]]; rewrite H3; [rewrite (Hon Hk3); split_and!; [done|tauto|by intros _]|]. rewrite <-Hr2.
  split_and!; [|done|done]. intros [|Hkp]; [done|]. rewrite <-(Hk4 Hkp) in Hkp. done.
Qed.

(** A block in which further transactions were processed. *)
Definition processed config : relation (Block S) := fun b b' => exists tx r, process_transaction config tx b = Ok (b', r).

(** The nonce of a principal in a block. *)
Definition block_nonce b (p : PrincipalData) (n : Z) : Prop := holds_nonce (start_transaction_processing b) p n.

Lemma process_body config tx b b' v :
  process_transaction config tx b = Ok (b', inr v) ->
  exists c', transaction_body tx (start_transaction_processing b) = Ok (c', inr v) /\ conn_commit c' = Ok b'.
Proof.
  unfold process_transaction. destruct (process_transaction_precheck config tx) as [[]| |]; [|done..].
  destruct (transaction_body tx _) as [[c [e|v']]| |]; cbn; [done| |done..].
  destruct (conn_commit c) as [b1|[]|] eqn:E; cbn; [|done]. intros [= <- <-]. by exists c.
Qed.
Lemma processed_nonce config b b' p n :
  processed config b b' -> block_nonce b p n -> exists n', block_nonce b' p n' /\ n <= n'.
Proof.
  intros (tx & r & H) (key & Hkey & Hn). destruct r as [e|v].
  - exists n. split; [|lia]. exists key. split; [done|]. apply refused_store in H. revert Hn. unfold reads, conn_db. cbn. by rewrite H.
  - apply process_body in H as (c & Hbody & Hcommit).
    destruct (body_nonce _ _ _ _ _ _ _ _ (start_over b) Hbody Hkey Hn) as (Hover & Hup & Hsame & _).
    pose proof (conn_commit_spec _ _ _ Hover Hcommit key) as Hreads. unfold block_nonce, holds_nonce.
    destruct (decide (nonce_key tx key)) as [Hn'%Hup|Hn'%Hsame]; [exists (n + 1)|exists n]; (split; [|lia]); exists key; by rewrite Hreads.
Qed.

Lemma nonces_rise config b b' p n :
  rtc (processed config) b b' -> block_nonce b p n -> exists n', block_nonce b' p n' /\ n <= n'.
Proof.
  intros H. revert n. induction H as [|x y z Hxy _ IH]; intros n Hn; [by exists n|].
  destruct (processed_nonce _ _ _ _ _ Hxy Hn) as (m & Hm & ?). destruct (IH m Hm) as (n' & ? & ?). exists n'. split; [done|lia].
Qed.
Lemma block_nonce_unique b p n n' : block_nonce b p n -> block_nonce b p n' -> n = n'.
Proof. intros (k & Hk & Hn) (k' & Hk' & Hn'). congruence. Qed.

(** An accepted transaction uses up the nonce of its sender. *)
Lemma accepted_spends config tx b b1 v :
  process_transaction config tx b = Ok (b1, inr v) ->
  let n := spending_nonce (get_origin tx) in block_nonce b (sender_of tx) n /\ block_nonce b1 (sender_of tx) (n + 1).
Proof.
  intros (c & Hbody & Hcommit)%process_body.
  assert (exists key n, make_key_for_account_nonce (sender_of tx) = Ok key /\
    nonce_of (reads (start_transaction_processing b) key) = Some n) as (key & n & Hkey & Hn).
  { destruct v. apply (body_steps _ _ _ _ _ _ (start_over b)) in Hbody as (o & p & _ & _ & _ & (_ & _ & key & Hkey & Hn) & _). eauto. }
  destruct (body_nonce _ _ _ _ _ _ _ _ (start_over b) Hbody Hkey Hn) as (Hover & Hup & _ & Hs).
  rewrite <-(Hs Hkey). specialize (Hup (or_introl Hkey)) as Hn1. rewrite <-(conn_commit_spec _ _ _ Hover Hcommit) in Hn1. split; by exists key.
Qed.

(** C3. No transaction is accepted twice: once a transaction was accepted in a
    block, it is refused in every state that the block reaches by processing
    further transactions, accepted or not, whatever they run. *)
Theorem no_replay config tx b b1 b2 v :
  process_transaction config tx b = Ok (b1, inr v) -> rtc (processed config) b1 b2 ->
  forall b3 v', process_transaction config tx b2 <> Ok (b3, inr v').
Proof.
  intros [_ H1]%accepted_spends Hsteps b3 v' [H2 _]%accepted_spends.
  destruct (nonces_rise _ _ _ _ _ Hsteps H1) as (n & Hn & ?). pose proof (block_nonce_unique _ _ _ _ H2 Hn). lia.
Qed.

(** ** STX of others *)

Definition block_balance b (p : PrincipalData) (bal : Z) : Prop := holds_balance (start_transaction_processing b) p bal.

(** The accounts of the transaction have addresses of the right form, and its
    amount is one. *)
Definition tx_wf (tx : StacksTransaction) : Prop :=
  valid_principal (StandardPrincipalData_from (origin_address tx)) /\
  valid_principal (StandardPrincipalData_from (default (origin_address tx) (sponsor_address tx))) /\
  match payload tx with TokenTransfer _ amount _ => 0 <= amount | _ => True end.

Lemma nonces_keep_balance st o p c2 c3 c' q key :
  conn_over st c2 -> update_account_nonce o c2 = Ok (c3, inr tt) ->
  (if decide (o <> p) then update_account_nonce p else mret tt) c3 = Ok (c', inr tt) ->
  make_key_for_account_balance q = Ok key -> conn_over st c' /\ reads c' key = reads c2 key.
Proof.
  intros Hover2 Hu1 Hu2 Hkey.
  assert (forall a c4 c5, conn_over st c4 -> update_account_nonce a c4 = Ok (c5, inr tt) -> conn_over st c5 /\ reads c5 key = reads c4 key) as Hu.
  { intros a c4 c5 H4 H. destruct (update_nonce_at st a c4 c5 tt key H4 H) as [H5 [[Hk _]|[_ Hk]]]; [|done].
    by destruct (balance_not_nonce _ _ _ Hk Hkey). }
  destruct (Hu _ _ _ Hover2 Hu1) as [Hover3 Hr3]. rewrite <-Hr3.
  destruct (decide (o <> p)); [|by injection Hu2 as <-]. by apply (Hu p).
Qed.

Section others.
Context (user : StandardPrincipalData) (key : string) (st : S).
Hypothesis Huser : valid_principal user.
Hypothesis Hkey : make_key_for_account_balance (Standard user) = Ok key.

Lemma other_key addr k : valid_principal (StandardPrincipalData_from addr) -> PrincipalData_from addr <> Standard user ->
  make_key_for_account_balance (PrincipalData_from addr) = Ok k -> k <> key.
Proof. intros Hv Hne Hk ->. apply Hne. unfold PrincipalData_from. f_equal. by apply (balance_key_standard user _ key). Qed.

Lemma payload_others tx o :
  tx_wf tx -> principal o = sender_of tx -> sender_of tx <> Standard user ->
  success (along st key no_less) (process_transaction_payload tx o).
Proof.
  intros (Hvo & _ & Hamount) Ho Hne. apply payload_along; [exact _| | |].
  - intros to amount memo Hp c c' u H Hover. rewrite Hp in Hamount.
    apply (token_transfer_spec st) in H as (_ & kf & kt & fb & tb & Hkf & Hkt & _ & Htb & _ & Hu & Hover' & Hreads); [|done].
    rewrite Ho in Hkf. pose proof (other_key _ _ Hvo Hne Hkf) as Hkne. split; [done|]. rewrite Hreads, (decide_False (P := key = kf)) by done.
    destruct (decide (key = kt)) as [->|]; [|done]. intros bal Hbal. rewrite Hbal in Htb. injection Htb as <-.
    exists (bal + amount). split; [|lia]. cbn. by rewrite json_round_trip.
  - intros id name args. apply (execute_contract_others user key Huser Hkey). rewrite Ho. cbn. split; [exact Hvo|]. intros <-. by apply Hne.
  - intros id es src. by apply (launch_others user key).
Qed.

Lemma body_others tx c c' v :
  tx_wf tx -> sender_of tx <> Standard user -> payer_of tx <> Standard user -> conn_over st c ->
  transaction_body tx c = Ok (c', inr v) -> conn_over st c' /\ no_less (reads c key) (reads c' key).
Proof.
  intros Hwf Hs Hp Hover H. destruct v as [fee receipt].
  apply (body_steps st) in H as (o & p & c1 & c2 & c3 & Ho & _ & Hpa & Hfee & Hpay & Hu1 & Hu2); [|done].
  apply (pay_fee_spec st) in Hfee as (_ & kb & bal & Hkb & _ & _ & [Hover1 Hr1]); [|done].
  rewrite (proj1 Hpa) in Hkb. pose proof (other_key _ _ (proj1 (proj2 Hwf)) Hp Hkb) as Hkne.
  destruct (payload_others tx o Hwf (proj1 Ho) Hs _ _ _ Hpay Hover1) as [Hover2 Hr2].
  rewrite Hr1, decide_False in Hr2 by done.
  destruct (nonces_keep_balance st o p c2 c3 c' _ _ Hover2 Hu1 Hu2 Hkey) as [Hover3 Hr3]. by rewrite Hr3.
Qed.
End others.

(** C6. Nobody else pays: whatever a transaction does, and whatever contracts it
    calls or launches, the balance of a user who neither sent it nor pays for it
    is not lower afterwards. *)
Theorem others_keep_balance config tx b b' r (user : StandardPrincipalData) bal :
  valid_principal user -> tx_wf tx -> sender_of tx <> Standard user -> payer_of tx <> Standard user ->
  process_transaction config tx b = Ok (b', r) -> block_balance b (Standard user) bal ->
  exists bal', block_balance b' (Standard user) bal' /\ bal <= bal'.
Proof.
  intros Hv Hwf Hs Hp H (key & Hkey & Hbal). destruct r as [e|v].
  - exists bal. split; [|lia]. exists key. split; [done|]. apply refused_store in H. revert Hbal. unfold reads, conn_db. cbn. by rewrite H.
  - apply process_body in H as (c & Hbody & Hcommit).
    destruct (body_others user key _ Hv Hkey _ _ _ _ Hwf Hs Hp (start_over b) Hbody) as [Hover Hle].
    destruct (Hle bal Hbal) as (bal' & Hbal' & ?). exists bal'. split; [|done]. exists key. split; [done|].
    by rewrite (conn_commit_spec _ _ _ Hover Hcommit).
Qed.

(** ** Transfers *)

Lemma key_iff p q kp kq : addressable p -> addressable q ->
  make_key_for_account_balance p = Ok kp -> make_key_for_account_balance q = Ok kq -> kp = kq <-> p = q.
Proof.
  intros Hp Hq Hkp Hkq. split; [|congruence]. intros ->. destruct (decide (p = q)) as [|Hne]; [done|].
  by destruct (balance_key_inj _ _ _ _ Hp Hq Hne Hkp Hkq).
Qed.
(** The amount at a key after a write. *)
Lemma amount_written p q kp kq v o : addressable p -> addressable q ->
  make_key_for_account_balance p = Ok kp -> make_key_for_account_balance q = Ok kq -> in_u 128 v ->
  amount_of (if decide (kq = kp) then Ok (Some (json_to_string (mkU128 v))) else o) = if decide (q = p) then Some v else amount_of o.
Proof.
  intros Hp Hq Hkp Hkq Hv. pose proof (key_iff q p kq kp Hq Hp Hkq Hkp) as Hiff.
  destruct (decide (kq = kp)), (decide (q = p)); try tauto. cbn. by rewrite json_round_trip.
Qed.

Lemma transfer_balances config tx b b' fee receipt to amount memo q bal :
  tx_wf tx -> payload tx = TokenTransfer to amount memo -> addressable to -> addressable q -> 0 <= get_fee_rate tx ->
  (forall bal, block_balance b (payer_of tx) bal -> in_u 128 bal) ->
  process_transaction config tx b = Ok (b', inr (fee, receipt)) -> block_balance b q bal ->
  fee = get_fee_rate tx /\
  receipt = mkReceipt tx [STXEvent (STXTransferEvent (sender_of tx) to amount)] okay_true 0 None /\
  sender_of tx <> to /\
  block_balance b' q (bal - (if decide (q = payer_of tx) then fee else 0) - (if decide (q = sender_of tx) then amount else 0)
                          + (if decide (q = to) then amount else 0)).
Proof.
  intros (Hvo & Hvp & _) Hpl Hto Hq Hfee0 Hrange (c' & Hbody & Hcommit)%process_body (kq & Hkq & Hbal).
  apply (body_steps _ _ _ _ _ _ (start_over b)) in Hbody as (o & p & c1 & c2 & c3 & Ho & _ & Hp & Hfee & Hpay & Hu1 & Hu2).
  apply (pay_fee_spec (datastore b)) in Hfee as (-> & kp & bp & Hkp & Hbp & Hle & [Hover1 Hr1]); [|apply start_over].
  rewrite (proj1 Hp) in Hkp. unfold process_transaction_payload in Hpay. rewrite Hpl in Hpay. destruct (decide _); [done|].
  apply bind_success in Hpay as (c2' & [] & Ht & [= <- <-]).
  apply (token_transfer_spec (datastore b)) in Ht as (Hne & kf & kt & fb & tb & Hkf & Hkt & Hfb & Htb & Hus & Hua & Hover2 & Hr2); [|done].
  rewrite (proj1 Ho) in *. split_and!; [done..|].
  destruct (nonces_keep_balance (datastore b) o p c2' c3 c' _ _ Hover2 Hu1 Hu2 Hkq) as [Hover3 Hr3].
  exists kq. split; [done|]. rewrite (conn_commit_spec _ _ _ Hover3 Hcommit), Hr3, Hr2.
  assert (in_u 128 bp) as Hbp128 by (apply Hrange; by exists kp). assert (in_u 128 (bp - get_fee_rate tx)) by (unfold in_u in *; lia).
  assert (addressable (sender_of tx)) as Hao by exact Hvo. assert (addressable (payer_of tx)) as Hap by exact Hvp.
  rewrite (amount_written to q kt kq), (amount_written (sender_of tx) q kf kq), Hr1, (amount_written (payer_of tx) q kp kq) by done.
  rewrite Hr1, (amount_written (payer_of tx) (sender_of tx) kp kf) in Hfb by done.
  rewrite Hr1, (amount_written (payer_of tx) to kp kt) in Htb by done.
  assert (q = payer_of tx -> bp = bal) as Hsp by congruence.
  assert (q = sender_of tx -> fb = bal - (if decide (q = payer_of tx) then get_fee_rate tx else 0)) as Hsf.
  { intros E. rewrite <-E in *. assert (kf = kq) as -> by congruence.
    destruct (decide (q = payer_of tx)) as [Ep|]; [rewrite <-(Hsp Ep)|rewrite Hbal in Hfb]; injection Hfb; lia. }
  assert (q = to -> tb = bal - (if decide (q = payer_of tx) then get_fee_rate tx else 0)) as Hst'.
  { intros E. rewrite <-E in *. assert (kt = kq) as -> by congruence.
    destruct (decide (q = payer_of tx)) as [Ep|]; [rewrite <-(Hsp Ep)|rewrite Hbal in Htb]; injection Htb; lia. }
  clear - Hne Hbal Hsp Hsf Hst'. rewrite Hbal.
  destruct (decide (q = to)) as [E1|E1], (decide (q = sender_of tx)) as [E2|E2], (decide (q = payer_of tx)) as [E3|E3]; f_equal; try congruence;
    try rewrite (Hst' E1); try rewrite (Hsf E2); try rewrite (Hsp E3); lia.
Qed.

(** The nonces after any accepted transaction. *)
Lemma nonce_key_iff tx q key :
  tx_wf tx -> addressable q -> make_key_for_account_nonce q = Ok key -> nonce_key tx key <-> q = sender_of tx \/ q = payer_of tx.
Proof.
  intros (Hvo & Hvp & _) Hq Hkey. assert (forall p, addressable p -> make_key_for_account_nonce p = Ok key <-> q = p) as Hiff.
  { intros p Hp. split; [|by intros <-]. intros Hkp. assert (KAccount q Nonce = KAccount p Nonce) by by apply (key_text_inj _ _ key). by simplify_eq. }
  unfold nonce_key. by rewrite (Hiff (sender_of tx) Hvo), (Hiff (payer_of tx) Hvp).
Qed.
Lemma accepted_nonces config tx b b' v q n :
  tx_wf tx -> addressable q -> process_transaction config tx b = Ok (b', inr v) -> block_nonce b q n ->
  block_nonce b' q (if decide (q = sender_of tx \/ q = payer_of tx) then n + 1 else n).
Proof.
  intros Hwf Hq (c & Hbody & Hcommit)%process_body (key & Hkey & Hn). exists key. split; [done|].
  destruct (body_nonce _ _ _ _ _ _ _ _ (start_over b) Hbody Hkey Hn) as (Hover & Hup & Hsame & _).
  rewrite (conn_commit_spec _ _ _ Hover Hcommit). pose proof (nonce_key_iff tx q key Hwf Hq Hkey) as Hiff.
  destruct (decide _) as [H%Hiff|H]; [by apply Hup|]. apply Hsame. by rewrite Hiff.
Qed.


(** ** Post-conditions *)

(** The run of the contract that the transaction calls, or of the one that it
    launches as the analysis [a] found it, on the connection [c]: it ends in [g'],
    with the assets [m] moved. *)
Definition ran (tx : StacksTransaction) c (a : option ContractAnalysis) (m : AssetMap) (g' : GlobalContext S) : Prop :=
  match payload tx with
  | ContractCall call => a = None /\ exists x v ev,
      execute_transaction (sender_of tx) (to_clarity_contract_id call) (call_function_name call)
        (atom_value <$> call_function_args call) (GlobalContext_new (wrapper_nest (conn_db c)) (conn_cost c), CallStack_new)
        = Ok ((g', x), inr (v, m, ev))
  | SmartContract contract => exists issuer ast analysis cost x ev, sender_of tx = Standard issuer /\ a = Some analysis /\
      run_analysis (mkContractId issuer (contract_name contract)) (code_body contract) (conn_db c) (conn_cost c)
        = (cost, Ok (ast, analysis)) /\
      owned_initialize_contract_from_ast (mkContractId issuer (contract_name contract)) ast (code_body contract)
        (GlobalContext_new (wrapper_nest (conn_db c)) cost, CallStack_new) = Ok ((g', x), inr (tt, m, ev))
  | _ => False
  end.

(** The metadata that a launch stores besides those of its run: the analysis. *)
Definition analysis_metadata (tx : StacksTransaction) (a : option ContractAnalysis)
    : list ((QualifiedContractIdentifier * string) * string) :=
  match payload tx, sender_of tx, a with
  | SmartContract contract, Standard issuer, Some analysis =>
    [((mkContractId issuer (contract_name contract), "analysis"%string), analysis_serialize analysis)]
  | _, _, _ => []
  end.

(** A run leaves its connection as it was, or it passed the post-conditions. *)
Lemma checked_run {A B} P (f : Exec S CallStack A) tx o st (a : B) (k : A * AssetMap * EventBatch -> B) m c c' r :
  conn_over st c -> (forall e, ~ P (Runtime e)) -> confines touches P f ->
  m c = (v ← with_abort_callback (execute_in_env f) (postconditions_abort tx o); mret (k v)) c ->
  runtime_okay a m c = Ok (c', inr r) ->
  conn_db c' = conn_db c \/
  exists g' x' v am ev,
    execute_in_env f (GlobalContext_new (wrapper_nest (conn_db c)) (conn_cost c), CallStack_new) = Ok ((g', x'), inr (v, am, ev)) /\
    check_transaction_postconditions (principal o) am (post_conditions tx) (post_condition_mode tx) = Ok true /\
    conn_over st c' /\ (forall k, reads c' k = wrapper_get (database g') k) /\ run_logs st c (database g') c'.
Proof.
  intros Hover HP Hf Hm H. unfold runtime_okay in H. rewrite Hm in H. unfold mbind, stateful_bind in H.
  destruct (with_abort_callback _ _ c) as [[c1 r1]| |] eqn:E; [|done..]. pose proof E as Hrun.
  apply (with_abort_outcome P f _ st) in Hrun; [|done..]. destruct r1 as [e|[[v am] ev]].
  - destruct e as [| |[| |e|]| |]; try done. injection H as <- _.
    apply (run_fails P f _ st) in E as [[]%HP|]; [by left|done..].
  - injection H as <- _. destruct Hrun as (g' & x' & abort & Hrun & Hcb & H).
    destruct abort; [by left|right]. exists g', x', v, am, ev. split; [done|]. split; [|done].
    unfold postconditions_abort in Hcb. apply bind_Ok in Hcb as (ok & Hok & [= Hneg]). by destruct ok.
Qed.

(** What is read is as it was, or as it is at the end of a run that passed the
    post-conditions; and the metadata are those of the run, and the analysis. *)
Definition checked_effects tx (origin : PrincipalData) (a : option ContractAnalysis) st c c' : Prop :=
  conn_over st c' /\
  (((forall k, reads c' k = reads c k) /\
    forall mlog0, conn_meta st mlog0 c -> conn_meta st (mlog0 ++ analysis_metadata tx a) c') \/
   exists g' m, ran tx c a m g' /\
     check_transaction_postconditions origin m (post_conditions tx) (post_condition_mode tx) = Ok true /\
     (forall k, reads c' k = wrapper_get (database g') k) /\
     forall log0 mlog0, wrapper_refines (conn_db c) (mkLogs st [(log0, mlog0)]) ->
       exists log mlog, wrapper_refines (database g') (mkLogs st [(log, mlog); (log0, mlog0)]) /\
         conn_meta st (mlog0 ++ mlog ++ analysis_metadata tx a) c').

Lemma same_db_over st c c' : conn_over st c -> conn_db c' = conn_db c -> conn_over st c' /\ forall k, reads c' k = reads c k.
Proof. unfold conn_over, reads. by intros H ->. Qed.

Lemma call_checked tx call o st c c' receipt :
  payload tx = ContractCall call -> principal o = sender_of tx -> conn_over st c ->
  process_transaction_payload tx o c = Ok (c', inr receipt) ->
  checked_effects tx (principal o) (contract_analysis receipt) st c c'.
Proof.
  intros Hpl Ho Hover H. unfold process_transaction_payload in H. rewrite Hpl in H.
  apply bind_success in H as (c1 & [[v am] ev] & Hrun & H). apply bind_success in H as (c2 & burned & [-> _]%pure_same & [= <- <-]).
  assert (analysis_metadata tx None = []) as Hnone by (unfold analysis_metadata; by rewrite Hpl). cbn [contract_analysis].
  eapply (checked_run opens _ tx o st _ id) in Hrun as [Hdb|(g' & x' & v' & m & ev' & Hex & Hck & Hover' & Hreads & Hlogs)]; [| |done|by intros e [? [=]]| |].
  - destruct (same_db_over st c c1 Hover Hdb) as [Hover' Hr]. split; [done|left]. split; [done|]. intros mlog0. rewrite Hnone, app_nil_r.
    unfold conn_meta. by rewrite Hdb.
  - split; [done|]. right. exists g', m. split; [unfold ran; rewrite Hpl, <-Ho; eauto|]. split_and!; [done..|].
    intros log0 mlog0 (log & mlog & Hw & Hc)%Hlogs. exists log, mlog. split; [done|]. rewrite Hnone, app_nil_r. by eexists.
  - apply confines_confined. intros s. apply execute_contract_confined.
  - unfold run_contract_call, execute_transaction, mbind, stateful_bind. by destruct (with_abort_callback _ _ c) as [[? []]| |].
Qed.

(** The execution of a contract that passed the analysis. *)
Lemma launch_run tx contract o st p c c1 c' ast analysis cost receipt :
  payload tx = SmartContract contract -> principal o = sender_of tx -> principal o = Standard p -> conn_over st c ->
  let id := mkContractId p (contract_name contract) in
  run_analysis id (code_body contract) (conn_db c) (conn_cost c) = (cost, Ok (ast, analysis)) ->
  conn_db c1 = conn_db c -> conn_cost c1 = cost ->
  launch_contract tx o id (code_body contract) ast analysis c1 = Ok (c', inr receipt) ->
  checked_effects tx (principal o) (contract_analysis receipt) st c c'.
Proof.
  intros Hpl Ho Hpo Hover id Ha Hdb Hcost H. destruct (same_db_over st c c1 Hover Hdb) as [Hover1 Hr1].
  apply bind_success in H as (c2 & [am ev] & Hrun & H). apply bind_success in H as (c3 & [] & Hsave & H).
  apply bind_success in H as (c4 & burned & [-> _]%pure_same & [= <- <-]). cbn [contract_analysis].
  assert (analysis_metadata tx (Some analysis) = [((id, "analysis"%string), analysis_serialize analysis)]) as Hone.
  { unfold analysis_metadata. by rewrite Hpl, <-Ho, Hpo. }
  eapply (checked_run (launch_opens id) (initialize_contract_from_ast id ast (code_body contract)) tx o st _ (fun v => (v.1.2, v.2)))
    in Hrun as [Hdb2|(g' & x' & v' & m & ev' & Hex & Hck & Hover' & Hreads & Hlogs)]; [| |done| | |].
  - destruct (same_db_over st c1 c2 Hover1 Hdb2) as [Hover2 Hr2]. destruct (save_expected _ _ _ _ _ _ Hover2 Hsave) as [Hover3 Hr3].
    split; [done|left]. split; [intros k; by rewrite Hr3, Hr2|]. intros mlog0. rewrite Hone. intros Hm.
    apply (save_expected_meta _ _ _ _ c2 _ tt); [|done]. unfold conn_meta in *. by rewrite Hdb2, Hdb.
  - destruct (save_expected _ _ _ _ _ _ Hover' Hsave) as [Hover3 Hr3]. split; [done|right]. exists g', m.
    split; [|split; [done|]; split; [intros k; by rewrite Hr3|]].
    + unfold ran. rewrite Hpl, <-Ho, <-Hdb, <-Hcost in *. destruct v'. eauto 12.
    + intros log0 mlog0 Hr. rewrite <-Hdb in Hr. destruct (Hlogs _ _ Hr) as (log & mlog & Hw & Hc). exists log, mlog. split; [done|].
      rewrite Hone, app_assoc. apply (save_expected_meta _ _ _ _ c2 _ tt); [|done]. by eexists.
  - intros e [[? [=]]|H]. by apply size_error_not_runtime in H.
  - apply initialize_confined.
  - unfold initialize_smart_contract, mbind, stateful_bind. by destruct (with_abort_callback _ _ c1) as [[? [|[[]]]]| |].
Qed.
Lemma launch_checked tx contract o st c c' receipt :
  payload tx = SmartContract contract -> principal o = sender_of tx -> conn_over st c ->
  process_transaction_payload tx o c = Ok (c', inr receipt) ->
  checked_effects tx (principal o) (contract_analysis receipt) st c c'.
Proof.
  intros Hpl Ho Hover H. unfold process_transaction_payload in H. rewrite Hpl in H.
  apply bind_success in H as (c0 & issuer & Hi & H). unfold pure in Hi.
  destruct (principal o) as [p|] eqn:Hpo; cbn in Hi; [|done]. injection Hi as <- <-. rewrite <-Hpo.
  apply bind_success in H as (c1 & existing & Hget%get_contract_same & H). subst c1. destruct existing; [done|].
  unfold tx_db at 1, analyze_smart_contract in H. destruct (run_analysis _ _ _ _) as [cost [[ast analysis]|e|]] eqn:Ha; cbn [lift_panic] in H; [| |done].
  - eapply launch_run; [done|by rewrite Hpo|done|done|exact Ha| | |exact H]; by destruct c as [[] ? ?].
  - injection H as <- <-. split; [done|left]. split; [done|]. intros mlog0. unfold analysis_metadata. rewrite Hpl.
    replace (match sender_of tx with Standard _ => [] | _ => [] end) with (@nil ((QualifiedContractIdentifier * string) * string)) by by destruct (sender_of tx).
    by rewrite app_nil_r.
Qed.

Lemma nonces_read st tx c o p c2 c3 c' k :
  account_at c (sender_of tx) o -> account_at c (payer_of tx) p -> conn_over st c2 -> update_account_nonce o c2 = Ok (c3, inr tt) ->
  (if decide (o <> p) then update_account_nonce p else mret tt) c3 = Ok (c', inr tt) -> ~ nonce_key tx k ->
  conn_over st c' /\ reads c' k = reads c2 k.
Proof.
  intros Ho Hp Hover2 Hu1 Hu2 Hk. unfold nonce_key in Hk. rewrite <-(proj1 Ho), <-(proj1 Hp) in Hk.
  destruct (update_nonce_at st o c2 c3 tt k Hover2 Hu1) as [Hover3 [[]|[_ H3]]]; [tauto|]. rewrite <-H3.
  destruct (decide (o <> p)); [|by injection Hu2 as <-].
  by destruct (update_nonce_at st p c3 c' tt k Hover3 Hu2) as [Hover4 [[]|[_ H4]]]; [tauto|].
Qed.
Lemma nonces_meta st mlog o p c2 c3 c' :
  conn_meta st mlog c2 -> update_account_nonce o c2 = Ok (c3, inr tt) ->
  (if decide (o <> p) then update_account_nonce p else mret tt) c3 = Ok (c', inr tt) -> conn_meta st mlog c'.
Proof.
  intros Hm Hu1 Hu2. apply (update_nonce_meta _ _ _ _ _ _ Hm) in Hu1.
  destruct (decide (o <> p)); [by eapply update_nonce_meta|by injection Hu2 as <-].
Qed.
Lemma pay_fee_meta st mlog tx p c c' fee :
  conn_meta st mlog c -> pay_transaction_fee tx p c = Ok (c', inr fee) -> conn_meta st mlog c' /\ conn_cost c' = conn_cost c.
Proof.
  intros Hm. unfold pay_transaction_fee. destruct (_ <? _); [done|]. intros (c1 & [] & Hd & [= <- _])%bind_success.
  by eapply account_debit_meta.
Qed.

(** C7. Post-conditions are enforced: when a transaction that calls or launches a
    contract is accepted, either nothing changed but the fee, the nonces and, for a
    launch that passed the analysis, the analysis that is stored; or the changes to
    the keys and to the metadata are those of a run of the contract, as it was
    analysed and after the fee was paid, whose assets passed the check of the
    post-conditions, with the nonces and the analysis.  [log] and [mlog] are all
    that goes to the store. *)
Theorem postconditions_enforced config tx b b' v :
  match payload tx with ContractCall _ | SmartContract _ => True | _ => False end ->
  process_transaction config tx b = Ok (b', inr v) ->
  let before := reads (start_transaction_processing b) in
  let after := reads (start_transaction_processing b') in
  let a := contract_analysis v.2 in
  exists log mlog, flush (datastore b) log mlog = Ok (datastore b') /\
  (((forall k, ~ nonce_key tx k -> ~ fee_key tx k -> after k = before k) /\ mlog = analysis_metadata tx a) \/
   exists c1 log1 g' m log' mlog',
     wrapper_refines (conn_db c1) (mkLogs (datastore b) [(log1, [])]) /\
     conn_cost c1 = conn_cost (start_transaction_processing b) /\
     (forall k, ~ fee_key tx k -> reads c1 k = before k) /\
     ran tx c1 a m g' /\
     check_transaction_postconditions (sender_of tx) m (post_conditions tx) (post_condition_mode tx) = Ok true /\
     wrapper_refines (database g') (mkLogs (datastore b) [(log', mlog'); (log1, [])]) /\
     mlog = mlog' ++ analysis_metadata tx a /\
     (forall k, ~ nonce_key tx k -> after k = wrapper_get (database g') k)).
Proof.
  intros Hpl (c' & Hbody & Hcommit)%process_body before after a. destruct v as [fee receipt].
  apply (body_steps _ _ _ _ _ _ (start_over b)) in Hbody as (o & p & c1 & c2 & c3 & Ho & _ & Hp & Hfee & Hpay & Hu1 & Hu2).
  destruct (pay_fee_meta _ _ _ _ _ _ _ (start_meta b) Hfee) as [[log1 Hm1] Hcost1].
  apply (pay_fee_spec (datastore b)) in Hfee as (_ & kp & bp & Hkp & _ & _ & [Hover1 Hr1]); [|apply start_over].
  assert (forall k, ~ fee_key tx k -> reads c1 k = before k) as Hc1.
  { intros k Hk. rewrite Hr1, decide_False; [done|]. intros ->. apply Hk. unfold fee_key. by rewrite <-(proj1 Hp). }
  assert (checked_effects tx (principal o) a (datastore b) c1 c2) as [Hover2 Heff].
  { destruct (payload tx) eqn:E; try done; [by eapply call_checked; [done|apply Ho|..]|by eapply launch_checked; [done|apply Ho|..]]. }
  assert (forall k, ~ nonce_key tx k -> after k = reads c2 k) as Hafter.
  { intros k Hk. destruct (nonces_read _ _ _ _ _ _ _ _ k Ho Hp Hover2 Hu1 Hu2 Hk) as [Hover3 <-].
    by rewrite <-(conn_commit_spec _ _ _ Hover3 Hcommit). }
  assert (forall mlog, conn_meta (datastore b) mlog c2 -> exists log, flush (datastore b) log mlog = Ok (datastore b')) as Hflush.
  { intros mlog Hm. eapply conn_commit_meta; [|exact Hcommit]. by eapply nonces_meta. }
  destruct Heff as [[Hsame Hsaved]|(g' & m & Hran & Hck & Hreads & Hlogs)].
  - destruct (Hflush (analysis_metadata tx a)) as [log Hlog]; [apply (Hsaved []); by eexists|]. exists log, (analysis_metadata tx a).
    split; [done|left]. split; [|done]. intros k Hn Hf. by rewrite Hafter, Hsame, Hc1.
  - destruct (Hlogs _ _ Hm1) as (log' & mlog' & Hw & Hc). destruct (Hflush _ Hc) as [log Hlog]. exists log, (mlog' ++ analysis_metadata tx a).
    split; [done|right]. exists c1, log1, g', m, log', mlog'. rewrite <-(proj1 Ho). split_and!; [done..|].
    intros k Hn. by rewrite Hafter, Hreads.
Qed.
End chain.
