(* ===== verification/MinerRewards.v ===== *)
(** Payments to miners: the schedule of the payments of each block and the
    rewards that mature from it (src/chainstate/stacks/db/accounts.rs and
    blocks.rs), and how much of a coinbase is paid out. *)
From stdpp Require Import base strings numbers list sorting.
From Stdlib Require Import ZArith Lia.
From S2P Require Import Prelude Names Types StacksTypes ClarityConnection ChainTransactions.
#[local] Open Scope Z_scope.

(** * Data *)

Record MinerPaymentSchedule := mkSchedule {
  sched_address : StacksAddress;
  sched_block_hash : list Z;
  sched_burn_header_hash : list Z;
  sched_parent_block_hash : list Z;
  sched_parent_burn_header_hash : list Z;
  sched_coinbase : Z;
  sched_tx_fees_anchored : Z;
  sched_tx_fees_streamed : Z;
  sched_stx_burns : Z;
  burnchain_commit_burn : Z;
  burnchain_sortition_burn : Z;
  fill : Z;
  is_miner : bool;
  stacks_block_height : Z;
  sched_vtxindex : Z;
}.

Record MinerReward := mkReward {
  reward_address : StacksAddress;
  coinbase : Z;
  tx_fees_anchored_shared : Z;
  tx_fees_anchored_exclusive : Z;
  tx_fees_streamed_produced : Z;
  tx_fees_streamed_confirmed : Z;
  reward_vtxindex : Z;
}.

Definition total (self : MinerReward) : Z :=
  wrap 128 (coinbase self + tx_fees_anchored_shared self + tx_fees_anchored_exclusive self + tx_fees_streamed_produced self
            + tx_fees_streamed_confirmed self).

Record StagingUserBurnSupport := mkUserBurn {
  user_burn_header_hash : list Z;
  user_anchored_block_hash : list Z;
  user_address : StacksAddress;
  burn_amount : Z;
  user_vtxindex : Z;
}.

Record StacksHeaderInfo := mkHeaderInfo {
  anchored_header : StacksBlockHeader;
  microblock_tail : option StacksMicroblockHeader;
  block_height : Z;
  index_root : list Z;
  burn_header_hash : list Z;
  burn_header_timestamp : Z;
}.

Definition MINER_REWARD_MATURITY : Z := 100.
Definition MINER_REWARD_WINDOW : Z := 1008.

(** * Schedule *)

Definition get_coinbase_reward (block_height : Z) : Z :=
  let blocks_per_year := 52596 in
  if block_height <? blocks_per_year * 5 then 500 * 100000
  else if block_height <? blocks_per_year * 10 then 400 * 100000
  else 300 * 100000.

Section schedule.
Context `{!BlockHashes}.

Definition make_scheduled_miner_reward (mainnet : bool) (parent_block_hash parent_burn_header_hash : list Z) (block : StacksBlock)
    (block_burn_header_hash : list Z) (block_height tx_fees streamed_fees stx_burns burnchain_commit_burn burnchain_sortition_burn fill : Z)
  : Res ChainError MinerPaymentSchedule :=
  coinbase_tx ← ok_or (get_coinbase_tx block) InvalidStacksBlock;
  let miner_auth := get_origin coinbase_tx in
  let miner_addr := if mainnet then address_mainnet miner_auth else address_testnet miner_auth in
  Ok (mkSchedule miner_addr (header_block_hash (block_header block)) block_burn_header_hash parent_block_hash parent_burn_header_hash
        (get_coinbase_reward block_height) tx_fees streamed_fees stx_burns burnchain_commit_burn burnchain_sortition_burn fill true
        block_height 0).

(** ** The table of payments *)

(** The columns of a row are kept as the values they are read back as. *)
Definition i64_max : Z := 2 ^ 63 - 1.
Definition u64_to_sql (x : Z) : Res ChainError Z := if i64_max <? x then Err DBError else Ok x.

Definition assert {E} (b : bool) : Res E unit := if b then Ok tt else Panic.

(** The row of the miner, whose column vtxindex is 0 whatever the schedule has. *)
Definition miner_row (block_reward : MinerPaymentSchedule) : MinerPaymentSchedule :=
  mkSchedule (sched_address block_reward) (sched_block_hash block_reward) (sched_burn_header_hash block_reward)
    (sched_parent_block_hash block_reward) (sched_parent_burn_header_hash block_reward) (sched_coinbase block_reward)
    (sched_tx_fees_anchored block_reward) (sched_tx_fees_streamed block_reward) (sched_stx_burns block_reward)
    (burnchain_commit_burn block_reward) (burnchain_sortition_burn block_reward) (fill block_reward) true
    (stacks_block_height block_reward) 0.
Definition user_row (block_reward : MinerPaymentSchedule) (user_support : StagingUserBurnSupport) : MinerPaymentSchedule :=
  mkSchedule (user_address user_support) (sched_block_hash block_reward) (sched_burn_header_hash block_reward)
    (sched_parent_block_hash block_reward) (sched_parent_burn_header_hash block_reward) (sched_coinbase block_reward)
    0 0 0 (burn_amount user_support) (burnchain_sortition_burn block_reward) (fill block_reward) false
    (stacks_block_height block_reward) (user_vtxindex user_support).

Definition insert_user (block_reward : MinerPaymentSchedule) (payments : list MinerPaymentSchedule)
    (user_support : StagingUserBurnSupport) : Res ChainError (list MinerPaymentSchedule) :=
  _ ← assert (burn_amount user_support <? i64_max);
  _ ← u64_to_sql (burn_amount user_support);
  Ok (payments ++ [user_row block_reward user_support]).

Definition insert_miner_payment_schedule (payments : list MinerPaymentSchedule) (block_reward : MinerPaymentSchedule)
    (user_burns : list StagingUserBurnSupport) : Res ChainError (list MinerPaymentSchedule) :=
  _ ← assert (burnchain_commit_burn block_reward <? i64_max);
  _ ← assert (burnchain_sortition_burn block_reward <? i64_max);
  _ ← assert (stacks_block_height block_reward <? i64_max);
  _ ← u64_to_sql (burnchain_commit_burn block_reward);
  _ ← u64_to_sql (burnchain_sortition_burn block_reward);
  _ ← u64_to_sql (stacks_block_height block_reward);
  foldM (insert_user block_reward) (payments ++ [miner_row block_reward]) user_burns.

(** The query of the rows of a block, ordered by vtxindex. *)
Definition by_vtxindex : relation MinerPaymentSchedule := fun a b => sched_vtxindex a <= sched_vtxindex b.
#[local] Instance by_vtxindex_dec a b : Decision (by_vtxindex a b).
Proof. unfold by_vtxindex. apply _. Defined.
Definition rows_at (payments : list MinerPaymentSchedule) (block_hash burn_header_hash : list Z) : list MinerPaymentSchedule :=
  merge_sort by_vtxindex
    (filter (fun r => sched_block_hash r = block_hash /\ sched_burn_header_hash r = burn_header_hash) payments).

(** [get_tip_ancestor] reads the index of the headers: the block of the fork at a height. *)
Context (payments : list MinerPaymentSchedule) (get_tip_ancestor : StacksHeaderInfo -> Z -> Res ChainError (option StacksHeaderInfo)).

Definition get_scheduled_block_rewards_in_fork (tip : StacksHeaderInfo) (block_height : Z) : Res ChainError (list MinerPaymentSchedule) :=
  ancestor ← get_tip_ancestor tip block_height;
  match ancestor with
  | None => Ok []
  | Some ancestor_info => Ok (rows_at payments (header_block_hash (anchored_header ancestor_info)) (burn_header_hash ancestor_info))
  end.

(** * Rewards *)

(** Whether a miner mined or supported a block. *)
Definition helped (address : StacksAddress) (block : MinerPaymentSchedule * list MinerPaymentSchedule) : bool :=
  let '(block_miner, user_supports) := block in
  bool_decide (sched_address block_miner = address) || existsb (fun u => bool_decide (sched_address u = address)) user_supports.

Definition add_burn (total : Z) (user_support : MinerPaymentSchedule) : Res Empty_set Z :=
  expect_opt (checked_add 128 total (burnchain_commit_burn user_support)).

(** What the miner burned for the first block of the sample, and what others did. *)
Definition burn_totals (address : StacksAddress) (block_miner : MinerPaymentSchedule) (user_supports : list MinerPaymentSchedule)
  : Res Empty_set (Z * Z) :=
  if decide (sched_address block_miner = address) then
    total_user ← foldM add_burn 0 user_supports;
    Ok (burnchain_commit_burn block_miner, total_user)
  else
    foldM (fun '(this_user, total_other) user_support =>
        if decide (sched_address user_support <> address) then
          total_other ← add_burn total_other user_support; Ok (this_user, total_other)
        else Ok (burnchain_commit_burn user_support, total_other))
      (0, burnchain_commit_burn block_miner) user_supports.

Definition calculate_miner_reward (miner : MinerPaymentSchedule) (sample : list (MinerPaymentSchedule * list MinerPaymentSchedule))
  : Res Empty_set MinerReward :=
  _ ← assert (0 <? burnchain_sortition_burn miner);
  _ ← assert (forallb (fun '(m, us) => is_miner m && forallb (fun u => negb (is_miner u)) us) sample);
  let num_mined := Z.of_nat (length (filter (fun block => helped (sched_address miner) block = true) sample)) in
  '(block_miner, user_supports) ← expect_opt (head sample);
  '(this_burn_total, other_burn_total) ← burn_totals (sched_address miner) block_miner user_supports;
  coinbase_reward ←
    (if num_mined =? 0 then Ok 0
     else
       burn_total ← expect_opt (checked_add 128 other_burn_total this_burn_total);
       product ← expect_opt (checked_mul 128 (sched_coinbase miner) this_burn_total);
       if burn_total =? 0 then Panic else Ok (product / burn_total));
  Ok (mkReward (sched_address miner) coinbase_reward 0 0 0 0 (sched_vtxindex miner)).

(** The rows of a block: its miner, and the users that supported it. *)
Definition split_rewards (scheduled_rewards : list MinerPaymentSchedule)
  : Res ChainError (MinerPaymentSchedule * list MinerPaymentSchedule) :=
  _ ← assert (0 <? Z.of_nat (length scheduled_rewards));
  miner_reward ← expect_opt (find (fun r => is_miner r) scheduled_rewards);
  let user_burns := filter (fun r => is_miner r = false) scheduled_rewards in
  _ ← assert (Nat.eqb (length user_burns) (length scheduled_rewards - 1));
  Ok (miner_reward, user_burns).

Definition find_mature_miner_rewards (tip : StacksHeaderInfo) : Res ChainError (option (list MinerReward)) :=
  if block_height tip <? MINER_REWARD_MATURITY + MINER_REWARD_WINDOW then Ok None
  else
    let first := block_height tip - MINER_REWARD_MATURITY - MINER_REWARD_WINDOW in
    matured_miners ← get_scheduled_block_rewards_in_fork tip first;
    _ ← assert (0 <? Z.of_nat (length matured_miners));
    scheduled_payments ← mapMR (fun i =>
        scheduled_rewards ←
          (if i =? 0 then Ok matured_miners else get_scheduled_block_rewards_in_fork tip (first + i));
        split_rewards scheduled_rewards)
      (seqZ 0 MINER_REWARD_WINDOW);
    rewards ← lift_panic (mapMR (fun matured_miner => calculate_miner_reward matured_miner scheduled_payments) matured_miners);
    Ok (Some rewards).
End schedule.

(** * Shares of a coinbase *)

Definition sumZ (l : list Z) : Z := foldr Z.add 0 l.

Lemma sumZ_cons x l : sumZ (x :: l) = x + sumZ l.
Proof. done. Qed.
Lemma sumZ_app l k : sumZ (l ++ k) = sumZ l + sumZ k.
Proof. unfold sumZ. induction l as [|x l IH]; cbn in *; lia. Qed.
Lemma sumZ_nonneg l : Forall (fun x => 0 <= x) l -> 0 <= sumZ l.
Proof. unfold sumZ. induction 1; cbn in *; lia. Qed.
#[global] Instance sumZ_perm : Proper ((≡ₚ) ==> eq) sumZ.
Proof. unfold sumZ. induction 1; cbn in *; lia. Qed.

(** Rounding down every share leaves less than one unit for each. *)
Lemma share_sum c total burns :
  0 <= c -> 0 < total -> Forall (fun x => 0 <= x) burns ->
  let paid := sumZ (map (fun x => c * x / total) burns) in
  paid * total <= c * sumZ burns /\ c * sumZ burns <= paid * total + Z.of_nat (length burns) * (total - 1).
Proof.
  intros Hc Ht. induction 1 as [|x burns Hx _ IH]; cbn [map sumZ foldr length]; [cbn; lia|].
  fold (sumZ burns) (sumZ (map (fun x => c * x / total) burns)). cbn in IH.
  pose proof (Z.div_mod (c * x) total). pose proof (Z.mod_pos_bound (c * x) total Ht). nia.
Qed.

(** What the loops over the users add up. *)
Lemma add_burn_Ok t u : in_u 128 (t + burnchain_commit_burn u) -> add_burn t u = Ok (t + burnchain_commit_burn u).
Proof. intros H. unfold add_burn, checked_add, checked_u. by rewrite decide_True. Qed.
Lemma burns_nonneg us : Forall (fun u => 0 <= burnchain_commit_burn u) us -> 0 <= sumZ (map burnchain_commit_burn us).
Proof. intros H. by apply sumZ_nonneg, Forall_map. Qed.
Lemma burns_total a us :
  in_u 128 (a + sumZ (map burnchain_commit_burn us)) -> 0 <= a -> Forall (fun u => 0 <= burnchain_commit_burn u) us ->
  foldM add_burn a us = Ok (a + sumZ (map burnchain_commit_burn us)).
Proof.
  intros Hb Ha Hus. revert a Ha Hb. induction Hus as [|u us Hu Hus IH]; intros a Ha Hb; cbn [map foldM]; [cbn; by rewrite Z.add_0_r|].
  pose proof (burns_nonneg us Hus) as Hs. cbn [map] in Hb. rewrite sumZ_cons in *. unfold in_u in Hb.
  rewrite add_burn_Ok, IH by (unfold in_u; lia). f_equal. lia.
Qed.

Section shares.
Context (m : MinerPaymentSchedule) (us : list MinerPaymentSchedule) (rest : list (MinerPaymentSchedule * list MinerPaymentSchedule)).
Context (Hburns : Forall (fun r => 0 <= burnchain_commit_burn r) (m :: us)).
#[local] Notation total_burn := (sumZ (map burnchain_commit_burn (m :: us))).
Context (Htotal : in_u 128 total_burn) (Hpos : 0 < total_burn).
Context (Hdup : NoDup (map sched_address (m :: us))).
Context (Hsample : forallb (fun '(m, us) => is_miner m && forallb (fun u => negb (is_miner u)) us) ((m, us) :: rest) = true).

#[local] Notation step address := (fun '(this_user, total_other) user_support =>
  if decide (sched_address user_support <> address) then
    total_other ← add_burn total_other user_support; Ok (this_user, total_other)
  else Ok (burnchain_commit_burn user_support, total_other)).

Lemma others_total a t o l :
  Forall (fun u => sched_address u <> a) l ->
  foldM (step a) (t, o) l = (o' ← foldM add_burn o l; Ok (t, o')).
Proof.
  intros Hne. revert o. induction Hne as [|u l Hu _ IH]; intros o; cbn; [done|]. rewrite decide_True by done.
  destruct (add_burn o u) as [o'|[]|]; cbn; [apply IH|done].
Qed.

(** The burns of a row and of the others, for the rows of the block. *)
Lemma burn_totals_spec x : x ∈ m :: us ->
  burn_totals (sched_address x) m us = Ok (burnchain_commit_burn x, total_burn - burnchain_commit_burn x).
Proof.
  apply Forall_cons in Hburns as [Hm Hus]. cbn [map] in *. apply NoDup_cons in Hdup as [Hnin Hnd].
  pose proof (burns_nonneg us Hus) as Hsum. rewrite sumZ_cons in *. unfold burn_totals, in_u in *. intros [->|Hx]%elem_of_cons.
  - rewrite decide_True by done. rewrite burns_total; [|unfold in_u; lia|lia|done]. cbn. do 2 f_equal. lia.
  - rewrite decide_False by (intros Heq; apply Hnin; rewrite Heq; by apply list_elem_of_fmap_2).
    apply list_elem_of_split in Hx as (l1 & l2 & ->). rewrite map_app in *. cbn [map] in *. rewrite sumZ_app, sumZ_cons in *.
    apply NoDup_app in Hnd as (_ & Hd & Hn2). apply NoDup_cons in Hn2 as [Hn2 _].
    apply Forall_app in Hus as [H1 [Hx H2]%Forall_cons]. pose proof (burns_nonneg l1 H1). pose proof (burns_nonneg l2 H2).
    rewrite foldM_app, others_total, burns_total; [|unfold in_u; lia|lia|done|].
    + cbn [mbind res_bind foldM]. rewrite decide_False by auto. rewrite others_total, burns_total; [|unfold in_u; lia|lia|done|].
      * cbn. do 2 f_equal. lia.
      * apply Forall_forall. intros u Hu Heq. apply Hn2. rewrite <-Heq. by apply list_elem_of_fmap_2.
    + apply Forall_forall. intros u Hu Heq. apply (Hd (sched_address u)); [by apply list_elem_of_fmap_2|rewrite Heq; by left].
Qed.

(** The share of a row of the block. *)
Definition share (x : MinerPaymentSchedule) : Z := sched_coinbase x * burnchain_commit_burn x / total_burn.

Lemma calculate_share x : x ∈ m :: us ->
  0 < burnchain_sortition_burn x -> in_u 128 (sched_coinbase x * burnchain_commit_burn x) ->
  calculate_miner_reward x ((m, us) :: rest) = Ok (mkReward (sched_address x) (share x) 0 0 0 0 (sched_vtxindex x)).
Proof.
  intros Hx Hs Hc. unfold calculate_miner_reward. rewrite (proj2 (Z.ltb_lt _ _) Hs), Hsample. cbn [assert mbind res_bind head expect_opt].
  rewrite (burn_totals_spec x Hx). cbn [mbind res_bind].
  assert (helped (sched_address x) (m, us) = true) as Hh.
  { apply orb_true_iff. apply elem_of_cons in Hx as [->|Hx]; [left; by apply bool_decide_eq_true|right].
    apply existsb_exists. exists x. split; [by apply list_elem_of_In|by apply bool_decide_eq_true]. }
  rewrite filter_cons_True by done. cbn [length]. destruct (Z.eqb_spec (Z.of_nat (Datatypes.S (length (filter (fun block => helped (sched_address x) block = true) rest)))) 0) as [|_]; [lia|].
  unfold checked_add, checked_mul, checked_u. replace (total_burn - burnchain_commit_burn x + burnchain_commit_burn x) with total_burn by lia.
  rewrite !decide_True by done. cbn [expect_opt mbind res_bind]. destruct (Z.eqb_spec total_burn 0) as [Heq|_]; [lia|done].
Qed.
End shares.

(** * The rows of a block *)

Definition of_block (block_hash burn_header_hash : list Z) (r : MinerPaymentSchedule) : Prop :=
  sched_block_hash r = block_hash /\ sched_burn_header_hash r = burn_header_hash.

Definition block_rows (reward : MinerPaymentSchedule) (users : list StagingUserBurnSupport) : list MinerPaymentSchedule :=
  miner_row reward :: map (user_row reward) users.

(** An insert adds the rows of the block at the end of the table, with burns
    below the limit of the column. *)
Lemma insert_user_Ok reward l u k :
  insert_user reward l u = Ok k -> k = l ++ [user_row reward u] /\ burn_amount u < i64_max.
Proof.
  unfold insert_user, assert. destruct (Z.ltb_spec (burn_amount u) i64_max); [|done]. cbn. intros (x & _ & [= <-])%bind_Ok. done.
Qed.
Lemma insert_users_Ok reward users l k :
  foldM (insert_user reward) l users = Ok k ->
  k = l ++ map (user_row reward) users /\ Forall (fun r => burnchain_commit_burn r < i64_max) (map (user_row reward) users).
Proof.
  revert l. induction users as [|u users IH]; intros l; cbn [foldM map]; [intros [= <-]; by rewrite app_nil_r|].
  destruct (insert_user reward l u) as [l'| |] eqn:E; [|done..]. apply insert_user_Ok in E as [-> Hu].
  intros [-> Hus]%IH. rewrite <-app_assoc. auto.
Qed.
Lemma insert_rows payments reward users payments' :
  insert_miner_payment_schedule payments reward users = Ok payments' ->
  payments' = payments ++ block_rows reward users /\
  Forall (fun r => burnchain_commit_burn r < i64_max) (block_rows reward users).
Proof.
  unfold insert_miner_payment_schedule, assert. destruct (Z.ltb_spec (burnchain_commit_burn reward) i64_max) as [Hlt|]; [|done].
  cbn [mbind res_bind]. intros (? & _ & H)%bind_Ok. apply bind_Ok in H as (? & _ & H). do 3 apply bind_Ok in H as (? & _ & H).
  apply insert_users_Ok in H as [-> Hus]. rewrite <-app_assoc. split; [done|]. by constructor.
Qed.

Lemma filter_all {A} (P : A -> Prop) `{!forall x, Decision (P x)} l : Forall P l -> filter P l = l.
Proof. induction 1; [done|]. by rewrite filter_cons_True, IHForall. Qed.
Lemma filter_none {A} (P : A -> Prop) `{!forall x, Decision (P x)} l : Forall (fun x => ~ P x) l -> filter P l = [].
Proof. induction 1; [done|]. by rewrite filter_cons_False. Qed.

Lemma query_rows before after block_hash burn_header_hash rows :
  Forall (of_block block_hash burn_header_hash) rows -> Forall (fun r => ~ of_block block_hash burn_header_hash r) (before ++ after) ->
  rows_at (before ++ rows ++ after) block_hash burn_header_hash ≡ₚ rows.
Proof.
  intros Hrows [Hb Ha]%Forall_app. unfold rows_at. rewrite merge_sort_Permutation, !filter_app.
  by rewrite (filter_none _ before), (filter_none _ after), filter_all, app_nil_r.
Qed.

Definition well_split (block : MinerPaymentSchedule * list MinerPaymentSchedule) : bool :=
  let '(m, us) := block in is_miner m && forallb (fun u => negb (is_miner u)) us.

Lemma split_well rows block : split_rewards rows = Ok block -> well_split block = true.
Proof.
  unfold split_rewards, assert. destruct (0 <? _); [|done]. cbn. destruct (find _ rows) as [m|] eqn:Hf; [|done]. cbn.
  destruct (Nat.eqb _ _); [|done]. intros [= <-]. apply find_some in Hf as [_ Hm]. apply andb_true_iff. split; [done|].
  apply forallb_forall. intros u [Hu _]%list_elem_of_In%list_elem_of_filter. by rewrite Hu.
Qed.

(** The rows of a block are split as they were inserted. *)
Lemma split_block reward users rows m us :
  rows ≡ₚ block_rows reward users -> split_rewards rows = Ok (m, us) ->
  m = miner_row reward /\ us ≡ₚ map (user_row reward) users.
Proof.
  intros Hp H. unfold split_rewards, assert in H. destruct (0 <? _); [|done]. cbn in H.
  destruct (find _ rows) as [m'|] eqn:Hf; [|done]. cbn in H. destruct (Nat.eqb _ _); [|done]. injection H as <- <-.
  apply find_some in Hf as [Hin%list_elem_of_In Hm]. rewrite Hp in Hin |- *. unfold block_rows in *. split.
  - apply elem_of_cons in Hin as [|(u & -> & _)%list_elem_of_fmap_1]; [done|by cbn in Hm].
  - rewrite filter_cons_False, filter_all; [done| |by cbn]. by apply Forall_map, Forall_true.
Qed.

(** * Matured rewards *)

Section matured.
Context `{Hhash : !BlockHashes} (payments : list MinerPaymentSchedule).
Context (get_tip_ancestor : StacksHeaderInfo -> Z -> Res ChainError (option StacksHeaderInfo)) (tip : StacksHeaderInfo).

(** The height of the block whose rewards mature. *)
Definition matured_height : Z := block_height tip - MINER_REWARD_MATURITY - MINER_REWARD_WINDOW.

(** The rewards are those of the rows of the block, in a sample that starts with it. *)
Lemma mature_rewards info rewards :
  get_tip_ancestor tip matured_height = Ok (Some info) ->
  find_mature_miner_rewards payments get_tip_ancestor tip = Ok (Some rewards) ->
  let rows := rows_at payments (header_block_hash (anchored_header info)) (burn_header_hash info) in
  exists m us rest, split_rewards rows = Ok (m, us) /\ forallb well_split ((m, us) :: rest) = true /\
    mapMR (fun r => calculate_miner_reward r ((m, us) :: rest)) rows = Ok rewards.
Proof.
  intros Hinfo. unfold find_mature_miner_rewards. destruct (_ <? _); [done|]. cbv zeta. fold matured_height.
  assert (get_scheduled_block_rewards_in_fork payments get_tip_ancestor tip matured_height =
    Ok (rows_at payments (header_block_hash (anchored_header info)) (burn_header_hash info))) as ->.
  { unfold get_scheduled_block_rewards_in_fork. by rewrite Hinfo. }
  cbn [mbind res_bind]. generalize (rows_at payments (header_block_hash (anchored_header info)) (burn_header_hash info)) as rows.
  intros rows H. apply bind_Ok in H as (_ & _ & H).
  replace (seqZ 0 MINER_REWARD_WINDOW) with (0 :: seqZ 1 1007) in H by (unfold MINER_REWARD_WINDOW; by rewrite (seqZ_cons 0 1008)).
  apply bind_Ok in H as (sample & Hs & H). apply bind_Ok in H as (rewards' & Hr%lift_panic_Ok & [= <-]).
  apply mapMR_Ok_Forall2 in Hs. inversion Hs as [|i [m us] ? rest H0 Hrest]; subst. cbn [Z.eqb mbind res_bind] in H0.
  exists m, us, rest. split; [done|]. split; [|done]. cbn [forallb]. rewrite (split_well _ _ H0). cbn [andb].
  apply forallb_forall. intros block Hb%list_elem_of_In. apply list_elem_of_lookup in Hb as [k Hk].
  destruct (Forall2_lookup_r _ _ _ _ _ Hrest Hk) as (j & _ & Hj). apply bind_Ok in Hj as (rows' & _ & Hj). by apply split_well in Hj.
Qed.

(** The share of the coinbase that a row of a block gets. *)
Definition row_reward (reward : MinerPaymentSchedule) (burned : Z) (r : MinerPaymentSchedule) : MinerReward :=
  mkReward (sched_address r) (sched_coinbase reward * burnchain_commit_burn r / burned) 0 0 0 0 (sched_vtxindex r).

Lemma mapMR_Ok_map {E A B} (f : A -> Res E B) g l : Forall (fun x => f x = Ok (g x)) l -> mapMR f l = Ok (map g l).
Proof. intros H. apply mapMR_Ok_Forall2. induction H; cbn; by constructor. Qed.

(** Shares of the rows of a block, in any order. *)
Lemma rows_shares reward users us rest r :
  us ≡ₚ map (user_row reward) users -> forallb well_split ((miner_row reward, us) :: rest) = true ->
  NoDup (map sched_address (block_rows reward users)) ->
  Forall (fun r => 0 <= burnchain_commit_burn r < i64_max) (block_rows reward users) ->
  let burned := sumZ (map burnchain_commit_burn (block_rows reward users)) in
  0 < burned < 2 ^ 128 -> 0 < burnchain_sortition_burn reward -> in_u 64 (sched_coinbase reward) ->
  r ∈ block_rows reward users ->
  calculate_miner_reward r ((miner_row reward, us) :: rest) = Ok (row_reward reward burned r).
Proof.
  intros Hus Hwell Hdup Hburns burned Hburned Hsort Hc Hr.
  assert (miner_row reward :: us ≡ₚ block_rows reward users) as Hperm by (unfold block_rows; by rewrite Hus).
  assert (sumZ (map burnchain_commit_burn (miner_row reward :: us)) = burned) as Hsum.
  { unfold burned. by rewrite (Permutation_map burnchain_commit_burn Hperm). }
  assert (sched_coinbase r = sched_coinbase reward /\ burnchain_sortition_burn r = burnchain_sortition_burn reward) as [Hcb Hsb].
  { by apply elem_of_cons in Hr as [->|(u & -> & _)%list_elem_of_fmap_1]. }
  pose proof (proj1 (Forall_forall _ _) Hburns _ Hr) as Hb. unfold row_reward. rewrite calculate_share; rewrite ?Hsum, ?Hcb, ?Hsb; try done.
  - unfold share. by rewrite Hcb, Hsum.
  - rewrite Hperm. eapply Forall_impl; [exact Hburns|]. cbn. lia.
  - unfold in_u. lia.
  - lia.
  - by rewrite (Permutation_map sched_address Hperm).
  - by rewrite Hperm.
  - unfold in_u, i64_max in *. nia.
Qed.

Lemma burn_le_total rows r :
  Forall (fun r => 0 <= burnchain_commit_burn r) rows -> r ∈ rows -> burnchain_commit_burn r <= sumZ (map burnchain_commit_burn rows).
Proof.
  intros Hrows (l1 & l2 & ->)%list_elem_of_split. apply Forall_app in Hrows as [H1 [_ H2]%Forall_cons].
  rewrite map_app. cbn [map]. rewrite sumZ_app, sumZ_cons. pose proof (burns_nonneg l1 H1). pose proof (burns_nonneg l2 H2). lia.
Qed.
Lemma rows_total reward burned rows :
  0 < burned -> 0 <= sched_coinbase reward -> Forall (fun r => 0 <= burnchain_commit_burn r /\ burnchain_commit_burn r <= burned) rows ->
  in_u 128 (sched_coinbase reward) ->
  map total (map (row_reward reward burned) rows) = map (fun x => sched_coinbase reward * x / burned) (map burnchain_commit_burn rows).
Proof.
  intros Hb Hc Hrows Hu. induction Hrows as [|r rows [H1 H2] _ IH]; [done|]. cbn [map]. rewrite IH. f_equal.
  unfold total, wrap, row_reward. cbn. rewrite !Z.add_0_r. apply Z.mod_small. unfold in_u in Hu. split; [apply Z.div_pos; lia|].
  apply Z.div_lt_upper_bound; [done|]. nia.
Qed.

(** C35. A coinbase is paid out, and not more than once: when the rewards of a
    block mature, each of its miner and its supporters gets the share of the
    coinbase that it burned of the burns for the block, rounded down, so that all
    of them together get the coinbase but for less than one unit each; provided
    that the addresses are different.  (The comment on the calculation gives a
    share of the burns over the whole reward window, by which a coinbase is not
    shared out; the code takes the burns for the one block.) *)
Theorem coinbase_shared before after reward users inserted info rewards :
  insert_miner_payment_schedule before reward users = Ok inserted -> payments = inserted ++ after ->
  Forall (fun r => ~ of_block (sched_block_hash reward) (sched_burn_header_hash reward) r) (before ++ after) ->
  get_tip_ancestor tip matured_height = Ok (Some info) ->
  header_block_hash (anchored_header info) = sched_block_hash reward -> burn_header_hash info = sched_burn_header_hash reward ->
  NoDup (map sched_address (block_rows reward users)) ->
  Forall (fun r => 0 <= burnchain_commit_burn r) (block_rows reward users) ->
  let burned := sumZ (map burnchain_commit_burn (block_rows reward users)) in
  0 < burned < 2 ^ 128 -> 0 < burnchain_sortition_burn reward -> in_u 64 (sched_coinbase reward) ->
  find_mature_miner_rewards payments get_tip_ancestor tip = Ok (Some rewards) ->
  rewards ≡ₚ map (row_reward reward burned) (block_rows reward users) /\
  sumZ (map total rewards) <= sched_coinbase reward < sumZ (map total rewards) + Z.of_nat (length rewards).
Proof.
  intros [-> Hlim]%insert_rows Hpay Hfresh Hanc Hbh Hbb Hdup Hburns burned Hburned Hsort Hc Hm.
  apply (mature_rewards info) in Hm as (m & us & rest & Hsplit & Hwell & Hmap); [|done].
  assert (rows_at payments (header_block_hash (anchored_header info)) (burn_header_hash info) ≡ₚ block_rows reward users) as Hrows.
  { rewrite Hpay, <-app_assoc, Hbh, Hbb. apply query_rows; [|done]. constructor; [done|]. by apply Forall_map, Forall_true. }
  destruct (split_block _ _ _ _ _ Hrows Hsplit) as [-> Hus].
  assert (Forall (fun r => 0 <= burnchain_commit_burn r < i64_max) (block_rows reward users)) as Hrange by by apply Forall_and.
  rewrite (mapMR_Ok_map _ (row_reward reward burned)) in Hmap.
  2: { apply Forall_forall. intros r. rewrite Hrows. by apply rows_shares. }
  injection Hmap as <-. rewrite Hrows. split; [done|].
  rewrite length_map, rows_total; [| lia|apply Hc| |unfold in_u in *; lia].
  - pose proof (share_sum (sched_coinbase reward) burned (map burnchain_commit_burn (block_rows reward users)) ltac:(apply Hc)
      ltac:(lia) ltac:(by apply Forall_map)) as [H1 H2]. rewrite length_map in H2. fold burned in H1, H2.
    assert (0 < Z.of_nat (length (block_rows reward users))) by (cbn; lia). split; nia.
  - apply Forall_forall. intros r Hr. split; [by apply (proj1 (Forall_forall _ _) Hburns)|]. by apply burn_le_total.
Qed.
End matured.

(** * Examples *)

Module example.

#[local] Instance hashes : BlockHashes := { header_block_hash := proof; microblock_block_hash := mblock_prev_block }.

Definition address (n : Z) : StacksAddress := mkAddress C32_ADDRESS_VERSION_MAINNET_SINGLESIG [n].
Definition header (height : Z) : StacksBlockHeader := mkBlockHeader 0 (mkWorkScore 0 height) [height] [] [] 0 [] [] [].
Definition info (height : Z) : StacksHeaderInfo := mkHeaderInfo (header height) None height [] [] 0.
(** A fork with one block, which is the ancestor at every height. *)
Definition ancestor : StacksHeaderInfo -> Z -> Res ChainError (option StacksHeaderInfo) := fun _ _ => Ok (Some (info 1)).
Definition tip : StacksHeaderInfo := info 2000.
Definition reward (burned : Z) : MinerPaymentSchedule :=
  mkSchedule (address 1) [1] [] [] [] (get_coinbase_reward 1) 0 0 0 burned 500 0 true 1 0.
Definition user (n burned vtxindex : Z) : StagingUserBurnSupport := mkUserBurn [] [1] (address n) burned vtxindex.
Definition table (users : list StagingUserBurnSupport) : list MinerPaymentSchedule :=
  match insert_miner_payment_schedule [] (reward 300) users with Ok payments => payments | _ => [] end.
Definition matured (users : list StagingUserBurnSupport) : option (list MinerReward) :=
  match find_mature_miner_rewards (table users) ancestor tip with Ok r => r | _ => None end.

Definition two_users : list StagingUserBurnSupport := [user 2 100 1; user 3 101 2].
Definition two_users_table : list MinerPaymentSchedule := Eval vm_compute in table two_users.
Definition two_users_rewards : list MinerReward := Eval vm_compute in default [] (matured two_users).

Lemma coinbase_shared_witness :
  two_users_rewards ≡ₚ map (row_reward (reward 300) (sumZ (map burnchain_commit_burn (block_rows (reward 300) two_users))))
    (block_rows (reward 300) two_users) /\
  sumZ (map total two_users_rewards) <= sched_coinbase (reward 300)
    < sumZ (map total two_users_rewards) + Z.of_nat (length two_users_rewards).
Proof.
  apply (coinbase_shared two_users_table ancestor tip [] [] (reward 300) two_users two_users_table (info 1) two_users_rewards).
  - reflexivity.
  - reflexivity.
  - constructor.
  - reflexivity.
  - reflexivity.
  - reflexivity.
  - apply (bool_decide_unpack _). reflexivity.
  - repeat constructor; cbn; lia.
  - vm_compute. split; reflexivity.
  - reflexivity.
  - by vm_compute.
  - vm_compute. reflexivity.
Defined.

(** Where addresses repeat, more than the coinbase is paid: a miner who also
    supports the own block gets the miner's share twice, and users with one
    address get the shares of a smaller total. *)
Theorem repeated_address_overpays :
  option_map (fun rewards => sumZ (map total rewards)) (matured [user 1 100 1]) = Some 75000000 /\
  option_map (fun rewards => sumZ (map total rewards)) (matured [user 2 100 1; user 2 100 2]) = Some 55000000 /\
  get_coinbase_reward 1 = 50000000.
Proof. split_and!; by vm_compute. Qed.

End example.
