(* ===== verification/ChainBlocks.v ===== *)
(** The processing of a block: the transactions of its microblocks and its own,
    the payment of matured rewards, and the schedule of the reward of its miner
    (src/chainstate/stacks/db/blocks.rs). *)
From stdpp Require Import base strings numbers list gmap.
From Stdlib Require Import ZArith Lia.
From S2P Require Import Prelude Names BTree Types Representations Values C32 RollbackWrapper BackingStore Costs AssetMap ClarityDatabase Natives Contexts Interpreter Define StacksTypes PostConditions ClarityConnection ChainTransactions MinerRewards.
#[local] Open Scope Z_scope.

Definition is_genesis (self : StacksBlockHeader) : bool := bool_decide (parent_block self = FIRST_STACKS_BLOCK_HASH).

Definition STACKS_BOOT_CODE_CONTRACT_ADDRESS : string := "ST000000000000000000002AMW42H".
Definition BOOT_CODE_MINER_CONTRACT_NAME : string := "miner-rewards".
Definition BOOT_CODE_MINER_REWARDS_MAP : string := "rewards".
Definition BOOT_CODE_MINER_REWARDS_PARTICIPANT : string := "participant".
Definition BOOT_CODE_MINER_REWARDS_AVAILABLE : string := "available".
Definition BOOT_CODE_MINER_REWARDS_AUTHORIZED : string := "authorized".

(** [StacksAddress::from_string]. *)
Definition StacksAddress_from_string `{!Sha256} `{!ToUppercase} (s : string) : Res Empty_set (option StacksAddress) :=
  match c32_address_decode (string_bytes s) with
  | Ok (version, bytes) => Ok (if decide (length bytes = 20%nat) then Some (mkAddress version bytes) else None)
  | Err _ => Ok None
  | Panic => Panic
  end.

Section blocks.
Context {S : Type} `{!ClarityBackingStore S VmError} `{!Sha256} `{!Sha512Trunc256} `{!NativeHashes} `{!HeadersDB} `{!ToUppercase}.
Context `{!ClaritySerializable U128} `{!ClaritySerializable U64} `{!ClaritySerializable PrincipalData}.
Context `{!ClaritySerializable FungibleTokenMetadata} `{!ClaritySerializable NonFungibleTokenMetadata}.
Context `{!ClaritySerializable DataMapMetadata} `{!ClaritySerializable DataVariableMetadata}.
Context `{!Storable ContractData} `{!ClaritySerializable ContractData} `{!Analyzer S} `{!Verifier} `{!BlockHashes}.

#[local] Notation BlockTx := (Stateful (Block S) OutOfFuel).
#[local] Notation Receipt := (StacksTransactionReceipt ContractAnalysis).

(** * Transactions *)

(** One turn of the loops over transactions, with the sums of fees and burns and
    the receipts so far. *)
Definition process_one (config : DBConfig) (acc : Z * Z * list Receipt) (tx : StacksTransaction)
  : BlockTx ChainError (Z * Z * list Receipt) :=
  let '(fees, burns, receipts) := acc in
  '(tx_fee, tx_receipt) ← process_transaction config tx;
  fees ← pure (expect_opt (checked_add 128 fees tx_fee));
  burns ← pure (expect_opt (checked_add 128 burns (stx_burned tx_receipt)));
  mret (fees, burns, receipts ++ [tx_receipt]).

Fixpoint process_all (config : DBConfig) (acc : Z * Z * list Receipt) (txs : list StacksTransaction)
  : BlockTx ChainError (Z * Z * list Receipt) :=
  match txs with
  | [] => mret acc
  | tx :: txs => acc ← process_one config acc tx; process_all config acc txs
  end.

Fixpoint process_microblocks (config : DBConfig) (acc : Z * Z * list Receipt) (microblocks : list StacksMicroblock)
  : BlockTx (ChainError * list Z) (Z * Z * list Receipt) :=
  match microblocks with
  | [] => mret acc
  | microblock :: microblocks =>
    acc ← tx_map_err (fun e => (e, microblock_block_hash (mblock_header microblock)))
            (process_all config acc (mblock_txs microblock));
    process_microblocks config acc microblocks
  end.

Definition process_microblocks_transactions (config : DBConfig) (microblocks : list StacksMicroblock)
  : BlockTx (ChainError * list Z) (Z * Z * list Receipt) :=
  process_microblocks config (0, 0, []) microblocks.

Definition process_block_transactions (config : DBConfig) (block : StacksBlock) : BlockTx ChainError (Z * Z * list Receipt) :=
  process_all config (0, 0, []) (block_txs block).

(** * Rewards *)

(** [as_transaction]: the transaction is committed whatever [todo] returns. *)
Definition as_transaction {E R} (todo : Stateful (Connection S) OutOfFuel E R) : BlockTx E R := fun b =>
  '(c, r) ← todo (start_transaction_processing b);
  b ← lift_panic (conn_commit c);
  Ok (b, r).

(** The entry of a participant in the map of rewards, with the reward added. *)
Definition new_miner_status (miner_status_opt : Value) (miner_reward_total : Z) : Res Empty_set Value :=
  match miner_status_opt with
  | VOptional None =>
    expect (tuple_from_data [(BOOT_CODE_MINER_REWARDS_AVAILABLE, VUInt miner_reward_total);
                             (BOOT_CODE_MINER_REWARDS_AUTHORIZED, VBool false)])
  | VOptional (Some (VTuple ts data_map)) =>
    available ← expect (tuple_get ts data_map BOOT_CODE_MINER_REWARDS_AVAILABLE);
    match available with
    | VUInt available =>
      new_available ← expect_opt (checked_add 128 available miner_reward_total);
      Ok (VTuple ts (bt_insert BOOT_CODE_MINER_REWARDS_AVAILABLE (VUInt new_available) data_map))
    | _ => Panic
    end
  | _ => Panic
  end.

Definition miner_contract_id : Res Empty_set QualifiedContractIdentifier :=
  boot_code_address ← StacksAddress_from_string STACKS_BOOT_CODE_CONTRACT_ADDRESS;
  boot_code_address ← expect_opt boot_code_address;
  Ok (mkContractId (StandardPrincipalData_from boot_code_address) BOOT_CODE_MINER_CONTRACT_NAME).

Definition miner_key (address : StacksAddress) : Res Empty_set Value :=
  expect (tuple_from_data [(BOOT_CODE_MINER_REWARDS_PARTICIPANT, VPrincipal (PrincipalData_from address))]).

Definition process_matured_miner_reward (miner_reward : MinerReward) : BlockTx ChainError unit :=
  miner_contract_id ← pure miner_contract_id;
  miner_principal ← pure (miner_key (reward_address miner_reward));
  let miner_reward_total := total miner_reward in
  tx_map_err ChainClarityError (as_transaction (tx_db (with_clarity_db (
    miner_status_opt ← tx_map_err ClarityError_from (db_try (fetch_entry miner_contract_id BOOT_CODE_MINER_REWARDS_MAP miner_principal));
    new_miner_status ← pure (new_miner_status miner_status_opt miner_reward_total);
    _ ← tx_map_err ClarityError_from
          (db_try (set_entry miner_contract_id BOOT_CODE_MINER_REWARDS_MAP miner_principal new_miner_status));
    mret tt)))).

(** The rewards are in order by vtxindex, the miner's first with 0. *)
Fixpoint increasing (rewards : list MinerReward) : bool :=
  match rewards with
  | r :: ((r' :: _) as rest) => (reward_vtxindex r <? reward_vtxindex r') && increasing rest
  | _ => true
  end.

Fixpoint grant_rewards (miner_rewards : list MinerReward) : BlockTx ChainError unit :=
  match miner_rewards with
  | [] => mret tt
  | reward :: miner_rewards => _ ← process_matured_miner_reward reward; grant_rewards miner_rewards
  end.

Definition process_matured_miner_rewards (miner_rewards : list MinerReward) : BlockTx ChainError unit :=
  first ← pure (expect_opt (head miner_rewards));
  _ ← pure (assert (reward_vtxindex first =? 0));
  _ ← pure (assert (increasing miner_rewards));
  grant_rewards miner_rewards.

(** * Blocks *)

(** The tables of the headers: the headers and the payments. *)
Record Headers := mkHeaders { block_headers : list StacksHeaderInfo; payments : list MinerPaymentSchedule }.

Definition make_index_block_hash (burn_block_hash block_hash : list Z) : list Z := sha512_256 (block_hash ++ burn_block_hash).
Definition index_block_hash (self : StacksHeaderInfo) : list Z :=
  make_index_block_hash (burn_header_hash self) (header_block_hash (anchored_header self)).

(** The columns index_block_hash and burn_header_hash are unique. *)
Definition insert_stacks_block_header (headers : Headers) (tip_info : StacksHeaderInfo) : Res ChainError Headers :=
  _ ← assert (block_height tip_info =? work (total_work (anchored_header tip_info)));
  _ ← assert (burn_header_timestamp tip_info <? i64_max);
  _ ← assert (block_height tip_info <? i64_max);
  if existsb (fun h => bool_decide (index_block_hash h = index_block_hash tip_info)
                       || bool_decide (burn_header_hash h = burn_header_hash tip_info)) (block_headers headers)
  then Err DBError
  else Ok (mkHeaders (block_headers headers ++ [tip_info]) (payments headers)).

(** The index of the headers by height and the root hash of the state, which the
    MARF computes: the root of the index with a new tip, the ancestor of a tip at a
    height, and the root of the state of a block. *)
Context (put_indexed : Headers -> StacksBlockHeader -> list Z -> StacksBlockHeader -> list Z -> Res ChainError (list Z)).
Context (get_tip_ancestor : Headers -> StacksHeaderInfo -> Z -> Res ChainError (option StacksHeaderInfo)).
Context (get_root_hash : Block S -> list Z).

Definition advance_tip (headers : Headers) (parent_tip : StacksBlockHeader) (parent_burn_block : list Z) (new_tip : StacksBlockHeader)
    (new_burn_block : list Z) (new_burn_block_timestamp : Z) (microblock_tail_opt : option StacksMicroblockHeader)
    (block_reward : MinerPaymentSchedule) (user_burns : list StagingUserBurnSupport) : Res ChainError (Headers * StacksHeaderInfo) :=
  _ ← (if decide (parent_block new_tip <> FIRST_STACKS_BLOCK_HASH) then
         _ ← assert (bool_decide (parent_block new_tip = header_block_hash parent_tip));
         next ← expect_opt (checked_add 64 (work (total_work parent_tip)) 1);
         assert (next =? work (total_work new_tip))
       else Ok tt);
  root_hash ← put_indexed headers parent_tip parent_burn_block new_tip new_burn_block;
  let new_tip_info := mkHeaderInfo new_tip microblock_tail_opt (work (total_work new_tip)) root_hash new_burn_block
                        new_burn_block_timestamp in
  headers ← insert_stacks_block_header headers new_tip_info;
  payments ← insert_miner_payment_schedule (payments headers) block_reward user_burns;
  Ok (mkHeaders (block_headers headers) payments, new_tip_info).

(** The last microblock of the stream. *)
Definition last_microblock (microblocks : list StacksMicroblock) : list Z * Z :=
  match last microblocks with
  | Some m => (microblock_block_hash (mblock_header m), mblock_sequence (mblock_header m))
  | None => (EMPTY_MICROBLOCK_PARENT_HASH, 0)
  end.

(** The header of the block has the root hash of the state. *)
Definition check_root (header : StacksBlockHeader) : BlockTx ChainError unit := fun clarity_tx =>
  Ok (clarity_tx, if decide (get_root_hash clarity_tx = state_index_root header) then inr tt else inl InvalidStacksBlock).

(** The state that the transactions and rewards of the block lead to, with the
    fees of the block and the microblocks, the burns and the receipts; the block is
    rolled back with an error. *)
Definition process_contents (config : DBConfig) (matured_miner_rewards_opt : option (list MinerReward)) (block : StacksBlock)
    (microblocks : list StacksMicroblock) : BlockTx ChainError (Z * Z * Z * list Receipt) :=
  '(microblock_fees, microblock_burns, microblock_txs_receipts) ←
    tx_map_err (fun e => InvalidStacksMicroblock e.2) (process_microblocks_transactions config microblocks);
  '(block_fees, block_burns, txs_receipts) ← tx_map_err (fun _ => InvalidStacksBlock) (process_block_transactions config block);
  _ ← match matured_miner_rewards_opt with
      | Some mature_miner_rewards => process_matured_miner_rewards mature_miner_rewards
      | None => mret tt
      end;
  _ ← check_root (block_header block);
  burns ← pure (expect_opt (checked_add 128 block_burns microblock_burns));
  mret (block_fees, microblock_fees, burns, txs_receipts ++ microblock_txs_receipts).

(** [clarity_tx] is the state of the parent, opened for the new block. *)
Definition append_block (config : DBConfig) (headers : Headers) (clarity_tx : Block S) (parent_chain_tip : StacksHeaderInfo)
    (chain_tip_burn_header_hash : list Z) (chain_tip_burn_header_timestamp : Z) (block : StacksBlock)
    (microblocks : list StacksMicroblock) (burnchain_commit_burn burnchain_sortition_burn : Z)
    (user_burns : list StagingUserBurnSupport)
  : Res OutOfFuel (ChainError + Headers * Block S * StacksHeaderInfo * list Receipt) :=
  let next_block_height := work (total_work (block_header block)) in
  match find_mature_miner_rewards (payments headers) (get_tip_ancestor headers) parent_chain_tip with
  | Err e => Ok (inl e)
  | Panic => Panic
  | Ok matured_miner_rewards_opt =>
    let '(parent_burn_header_hash, parent_block_hash) :=
      if is_genesis (block_header block) then (FIRST_BURNCHAIN_BLOCK_HASH, FIRST_STACKS_BLOCK_HASH)
      else (burn_header_hash parent_chain_tip, header_block_hash (anchored_header parent_chain_tip)) in
    if decide (last_microblock microblocks
               = (parent_microblock (block_header block), parent_microblock_sequence (block_header block))) then
      '(clarity_tx, r) ← process_contents config matured_miner_rewards_opt block microblocks clarity_tx;
      match r with
      | inl e => Ok (inl e)
      | inr (block_fees, microblock_fees, burns, txs_receipts) =>
        scheduled_miner_reward ← expect (make_scheduled_miner_reward (mainnet config) parent_block_hash parent_burn_header_hash block
          chain_tip_burn_header_hash next_block_height block_fees microblock_fees burns burnchain_commit_burn
          burnchain_sortition_burn (2 ^ 64 - 1));
        '(headers, new_tip) ← expect (advance_tip headers (anchored_header parent_chain_tip) (burn_header_hash parent_chain_tip)
          (block_header block) chain_tip_burn_header_hash chain_tip_burn_header_timestamp (mblock_header <$> last microblocks)
          scheduled_miner_reward user_burns);
        Ok (inr (headers, clarity_tx, new_tip, txs_receipts))
      end
    else Panic
  end.
End blocks.
