(* ===== verification/BlockFacts.v ===== *)
(** Correctness of the processing of blocks: what the loops over transactions add
    up, that a block has no transaction twice, and what an appended block leaves in
    the headers. *)
From stdpp Require Import base strings numbers list gmap relations.
From Stdlib Require Import ZArith Lia.
From S2P Require Import Prelude Names BTree Types Representations Values C32 C32Facts RollbackWrapper BackingStore Costs AssetMap ClarityDatabase Keys DatabaseFacts Natives Contexts Interpreter Define StacksTypes PostConditions ClarityConnection ChainTransactions ConnectionFacts AccountFacts ChainFacts MinerRewards ChainBlocks.
#[local] Open Scope Z_scope.

Section blocks.
Context {S : Type} `{Hstore : !ClarityBackingStore S VmError} `{Hlaws : !BackingStoreLaws S VmError}.
Context `{Hsha : !Sha256} `{Hsha512 : !Sha512Trunc256} `{Hhashes : !NativeHashes} `{Hheaders : !HeadersDB} `{Hupper : !ToUppercase}.
Context `{Hu128 : !ClaritySerializable U128} `{Hu64 : !ClaritySerializable U64} `{Hprincipal : !ClaritySerializable PrincipalData}.
Context `{Hft : !ClaritySerializable FungibleTokenMetadata} `{Hnft : !ClaritySerializable NonFungibleTokenMetadata}.
Context `{Hmap : !ClaritySerializable DataMapMetadata} `{Hvar : !ClaritySerializable DataVariableMetadata}.
Context `{Hst : !Storable ContractData} `{Hcontract : !ClaritySerializable ContractData} `{Hanalyzer : !Analyzer S}.
Context `{Hverifier : !Verifier} `{Hmeta : !MetadataErrors S} `{Hblocks : !BlockHashes}.
Implicit Types (b : Block S).

#[local] Notation Receipt := (StacksTransactionReceipt ContractAnalysis).

(** * Transactions *)

(** The transactions of a list accepted one after the other. *)
Inductive accepts_all (config : DBConfig) : list (StacksTransaction * (Z * Receipt)) -> relation (Block S) :=
| accepts_nil b : accepts_all config [] b b
| accepts_cons tx v l b1 b2 b3 :
    process_transaction config tx b1 = Ok (b2, inr v) -> accepts_all config l b2 b3 -> accepts_all config ((tx, v) :: l) b1 b3.

Lemma accepts_app config l k b1 b2 b3 :
  accepts_all config l b1 b2 -> accepts_all config k b2 b3 -> accepts_all config (l ++ k) b1 b3.
Proof. induction 1; [done|]. intros. econstructor; eauto. Qed.
Lemma accepts_app_inv config l k b1 b3 :
  accepts_all config (l ++ k) b1 b3 -> exists b2, accepts_all config l b1 b2 /\ accepts_all config k b2 b3.
Proof.
  revert b1. induction l as [|x l IH]; intros b1 H; cbn in *; [eauto using accepts_nil|].
  inversion H as [|tx v l' b1' b2 b3' Hp Hl]; subst. destruct (IH _ Hl) as (b2' & ? & ?). exists b2'. split; [econstructor; eauto|done].
Qed.
Lemma accepts_processed config l b b' : accepts_all config l b b' -> rtc (processed config) b b'.
Proof. induction 1 as [|tx v l b1 b2 b3 Hp _ IH]; [done|]. eapply rtc_l; [|exact IH]. by exists tx, (inr v). Qed.

(** No transaction is accepted twice. *)
Lemma accepts_nodup config l b b' : accepts_all config l b b' -> NoDup (map fst l).
Proof.
  induction 1 as [|tx v l b1 b2 b3 Hp Hl IH]; [constructor|]. cbn. constructor; [|done].
  intros ([tx' v'] & -> & (l1 & l2 & ->)%list_elem_of_split)%list_elem_of_fmap_1. cbn in Hp.
  apply accepts_app_inv in Hl as (b2' & Hl1 & Hl2). inversion Hl2 as [|? ? ? ? b4 ? Hp' _]; subst.
  apply accepted_spends in Hp as [_ H1]. apply accepted_spends in Hp' as [H2 _].
  destruct (nonces_rise _ _ _ _ _ (accepts_processed _ _ _ _ Hl1) H1) as (n & Hn & ?).
  pose proof (block_nonce_unique _ _ _ _ H2 Hn). lia.
Qed.

(** ** Receipts *)

Lemma payload_transaction tx o c c' (r : Receipt) :
  process_transaction_payload tx o c = Ok (c', inr r) -> transaction r = tx.
Proof.
  unfold process_transaction_payload, reject. destruct (payload tx) as [to amount memo|call|contract|h1 h2|p].
  - destruct (decide _); [done|]. by intros (c1 & [] & _ & [= _ <-])%bind_success.
  - intros (c1 & [[v m] e] & _ & H)%bind_success. by apply bind_success in H as (c2 & n & _ & [= _ <-]).
  - intros (c1 & issuer & _ & H)%bind_success. apply bind_success in H as (c2 & [existing|] & _ & H); [done|].
    destruct (tx_db _ c2) as [[c3 [e|[ast analysis]]]| |]; [by injection H as _ <-| |done..].
    unfold launch_contract in H. apply bind_success in H as (c4 & [m e] & _ & H). apply bind_success in H as (c5 & u & _ & H).
    by apply bind_success in H as (c6 & n & _ & [= _ <-]).
  - destruct (decide _); done.
  - by intros [= _ <-].
Qed.

(** The fee of an accepted transaction, and the transaction of its receipt. *)
Lemma accepted_result config tx b b' fee (r : Receipt) :
  process_transaction config tx b = Ok (b', inr (fee, r)) -> fee = get_fee_rate tx /\ transaction r = tx.
Proof.
  intros (c & Hbody & _)%process_body.
  apply (body_steps _ _ _ _ _ _ (start_over b)) in Hbody as (o & p & c1 & c2 & c3 & _ & _ & _ & Hfee & Hpay & _).
  apply (pay_fee_spec (datastore b)) in Hfee as (-> & _); [|apply start_over]. by apply payload_transaction in Hpay.
Qed.
Lemma accepts_results config l b b' : accepts_all config l b b' ->
  map (fun x => x.2.1) l = map (fun x => get_fee_rate x.1) l /\ map (fun x => transaction x.2.2) l = map fst l.
Proof.
  induction 1 as [|tx [fee r] l b1 b2 b3 Hp _ [IH1 IH2]]; [done|]. apply accepted_result in Hp as [-> Hr]. cbn. by rewrite IH1, IH2, Hr.
Qed.

(** ** Loops *)

Definition adds_up (l : list (StacksTransaction * (Z * Receipt))) (acc acc' : Z * Z * list Receipt) : Prop :=
  acc' = (acc.1.1 + sumZ (map (fun x => x.2.1) l), acc.1.2 + sumZ (map (fun x => stx_burned x.2.2) l), acc.2 ++ map (fun x => x.2.2) l).

Lemma adds_up_app l k acc acc1 acc2 : adds_up l acc acc1 -> adds_up k acc1 acc2 -> adds_up (l ++ k) acc acc2.
Proof.
  unfold adds_up. intros -> ->. cbn. rewrite !map_app, !sumZ_app, app_assoc. f_equal. f_equal; lia.
Qed.

Lemma process_one_spec config acc tx b b' acc' :
  process_one config acc tx b = Ok (b', inr acc') ->
  exists v, process_transaction config tx b = Ok (b', inr v) /\ adds_up [(tx, v)] acc acc'.
Proof.
  destruct acc as [[fees burns] receipts]. unfold process_one. intros (b1 & [fee r] & Hp & H)%bind_success.
  apply bind_success in H as (b2 & fees' & [-> Hf]%pure_same & H). apply bind_success in H as (b3 & burns' & [-> Hb]%pure_same & [= <- <-]).
  exists (fee, r). split; [done|]. unfold adds_up, expect_opt, checked_add, checked_u in *. repeat case_decide; simplify_eq. cbn.
  by rewrite !Z.add_0_r.
Qed.
Lemma process_all_spec config txs acc b b' acc' :
  process_all config acc txs b = Ok (b', inr acc') ->
  exists l, map fst l = txs /\ accepts_all config l b b' /\ adds_up l acc acc'.
Proof.
  revert acc b. induction txs as [|tx txs IH]; intros acc b; cbn [process_all].
  - intros [= <- <-]. exists []. split; [done|]. split; [constructor|]. unfold adds_up. destruct acc as [[]]. cbn. by rewrite !Z.add_0_r, app_nil_r.
  - intros (b1 & acc1 & (v & Hp & H1)%process_one_spec & H)%bind_success. apply IH in H as (l & <- & Hl & H2).
    exists ((tx, v) :: l). split; [done|]. split; [by econstructor|]. by apply (adds_up_app [(tx, v)] l acc acc1).
Qed.
Lemma process_microblocks_spec config microblocks acc b b' acc' :
  process_microblocks config acc microblocks b = Ok (b', inr acc') ->
  exists l, map fst l = microblocks ≫= mblock_txs /\ accepts_all config l b b' /\ adds_up l acc acc'.
Proof.
  revert acc b. induction microblocks as [|m microblocks IH]; intros acc b; cbn [process_microblocks].
  - intros [= <- <-]. exists []. split; [done|]. split; [constructor|]. unfold adds_up. destruct acc as [[]]. cbn. by rewrite !Z.add_0_r, app_nil_r.
  - intros (b1 & acc1 & H1 & H)%bind_success. unfold tx_map_err in H1.
    destruct (process_all config acc (mblock_txs m) b) as [[b1' [e|v]]| |] eqn:E; [done| |done..]. injection H1 as <- <-.
    apply process_all_spec in E as (l & Hl & Ha & H1). apply IH in H as (k & Hk & Ha' & H2). exists (l ++ k).
    rewrite map_app, Hl, Hk. split; [done|]. split; [by eapply accepts_app|]. by eapply adds_up_app.
Qed.

(** * Appended blocks *)

Context (put_indexed : Headers -> StacksBlockHeader -> list Z -> StacksBlockHeader -> list Z -> Res ChainError (list Z)).
Context (get_tip_ancestor : Headers -> StacksHeaderInfo -> Z -> Res ChainError (option StacksHeaderInfo)).
Context (get_root_hash : Block S -> list Z).

Lemma map_err_success {St F E E' A} (f : E -> E') (m : Stateful St F E A) s s' a :
  tx_map_err f m s = Ok (s', inr a) -> m s = Ok (s', inr a).
Proof. unfold tx_map_err. destruct (m s) as [[s1 [e|v]]| |]; [done| |done..]. by intros [= <- <-]. Qed.

Lemma contents_spec config rewards block microblocks b b' fees mfees burns (receipts : list Receipt) :
  process_contents get_root_hash config rewards block microblocks b = Ok (b', inr (fees, mfees, burns, receipts)) ->
  exists ml bl b1, map fst ml = microblocks ≫= mblock_txs /\ map fst bl = block_txs block /\
    accepts_all config (ml ++ bl) b b1 /\ get_root_hash b' = state_index_root (block_header block) /\
    fees = sumZ (map (fun x => x.2.1) bl) /\ mfees = sumZ (map (fun x => x.2.1) ml) /\
    receipts = map (fun x => x.2.2) (bl ++ ml) /\ burns = sumZ (map (fun x => stx_burned x.2.2) (bl ++ ml)).
Proof.
  unfold process_contents. intros (b1 & [[mf mb] mr] & H1%map_err_success%process_microblocks_spec & H)%bind_success.
  apply bind_success in H as (b2 & [[bf bb] br] & H2%map_err_success%process_all_spec & H).
  apply bind_success in H as (b3 & [] & _ & H). apply bind_success in H as (b4 & [] & Hroot & H).
  apply bind_success in H as (b5 & burns' & [-> Hb]%pure_same & [= <- <- <- <- <-]).
  destruct H1 as (ml & Hml & Ham & [= -> -> ->]), H2 as (bl & Hbl & Hab & [= -> -> ->]). unfold check_root in Hroot.
  destruct (decide _) as [Hr|]; [|done]. injection Hroot as <-. exists ml, bl, b2. rewrite !map_app, sumZ_app.
  unfold expect_opt, checked_add, checked_u in Hb. destruct (decide _); [|done]. injection Hb as <-.
  split_and!; [done|done|by eapply accepts_app|done..].
Qed.

Lemma advance_spec headers parent pburn tip nburn ts tail reward users headers' info :
  advance_tip put_indexed headers parent pburn tip nburn ts tail reward users = Ok (headers', info) ->
  anchored_header info = tip /\ burn_header_hash info = nburn /\ block_headers headers' = block_headers headers ++ [info] /\
  payments headers' = payments headers ++ block_rows reward users.
Proof.
  unfold advance_tip. intros (_ & _ & H)%bind_Ok. apply bind_Ok in H as (root & _ & H). apply bind_Ok in H as (h1 & H1 & H).
  apply bind_Ok in H as (p & [-> _]%insert_rows & [= <- <-]). unfold insert_stacks_block_header in H1.
  do 3 apply bind_Ok in H1 as (_ & _ & H1). destruct (existsb _ _); [done|]. by injection H1 as <-.
Qed.

(** C23. A block that is appended is sound: it starts with a coinbase
    transaction, no transaction is in it and its microblocks twice, the state has
    the root hash of its header, there is a receipt for each of the transactions,
    and what is scheduled for its miner are the coinbase of its height, and the
    fees and burns of the transactions. *)
Theorem appended_block_sound config headers b parent burn_hash timestamp block microblocks commit_burn sortition_burn users
    headers' b' tip (receipts : list Receipt) :
  append_block put_indexed get_tip_ancestor get_root_hash config headers b parent burn_hash timestamp block microblocks
    commit_burn sortition_burn users = Ok (inr (headers', b', tip, receipts)) ->
  let streamed := microblocks ≫= mblock_txs in
  NoDup (streamed ++ block_txs block) /\ map transaction receipts = block_txs block ++ streamed /\
  get_root_hash b' = state_index_root (block_header block) /\ anchored_header tip = block_header block /\
  exists tx txs p reward, block_txs block = tx :: txs /\ payload tx = Coinbase p /\
    block_headers headers' = block_headers headers ++ [tip] /\ payments headers' = payments headers ++ block_rows reward users /\
    sched_address reward = (if mainnet config then address_mainnet (get_origin tx) else address_testnet (get_origin tx)) /\
    sched_coinbase reward = get_coinbase_reward (work (total_work (block_header block))) /\
    sched_tx_fees_anchored reward = sumZ (map get_fee_rate (block_txs block)) /\
    sched_tx_fees_streamed reward = sumZ (map get_fee_rate streamed) /\
    sched_stx_burns reward = sumZ (map stx_burned receipts).
Proof.
  unfold append_block. destruct (find_mature_miner_rewards _ _ _) as [rewards|e|]; [|done..].
  destruct (if is_genesis (block_header block) then _ else _) as [pburn pblock]. destruct (decide _) as [_|]; [|done].
  intros ([b1 [e|[[[fees mfees] burns] rs]]] & Hc & H)%bind_Ok; [done|].
  apply contents_spec in Hc as (ml & bl & b2 & Hml & Hbl & Hacc & Hroot & -> & -> & -> & ->).
  apply bind_Ok in H as (reward & Hreward & H). apply bind_Ok in H as ([h1 tip1] & Hadv & [= <- <- <- <-]).
  apply expect_inv in Hreward, Hadv.
  apply advance_spec in Hadv as (Ht & _ & Hh & Hp). unfold make_scheduled_miner_reward in Hreward.
  apply bind_Ok in Hreward as (tx & Htx%ok_or_Ok & [= <-]). unfold get_coinbase_tx in Htx.
  pose proof (accepts_nodup _ _ _ _ Hacc) as Hnd. apply accepts_app_inv in Hacc as (b3 & Ham & Hab).
  destruct (accepts_results _ _ _ _ Ham) as [Hmf Hmt]. destruct (accepts_results _ _ _ _ Hab) as [Hbf Hbt].
  cbn zeta. rewrite <-Hml, <-Hbl, <-!map_app. split; [done|]. split; [by rewrite map_map, !map_app, Hbt, Hmt|]. split; [done|]. split; [done|].
  destruct (block_txs block) as [|tx' txs] eqn:Etxs; [done|]. destruct (payload tx') as [| | | |p] eqn:Epay; try done. injection Htx as ->.
  eexists tx, txs, p, _. split_and!; [done|done|done|exact Hp|done|done|..]; cbn.
  - by rewrite Hbf, map_map.
  - by rewrite Hmf, map_map.
  - by rewrite map_map.
Qed.
End blocks.
