(* ===== verification/Examples.v ===== *)
(** A contract that is launched and called on the in-memory store, and the
    properties of transactions applied to it. *)
From stdpp Require Import base strings numbers list gmap.
From Stdlib Require Import Ascii ZArith Lia.
From S2P Require Import Prelude Names BTree Types Representations Values C32 C32Facts RollbackWrapper BackingStore Costs CostFacts AssetMap ClarityDatabase Keys Instances Natives TypeParser Contexts ContextFacts Interpreter Runs InterpreterFacts AssetFacts StxFacts Define Launches TransactionFacts.
#[local] Open Scope Z_scope.

(** * Instances *)

Lemma constant_hash (n : nat) : length (replicate n 0) = n /\ Forall u8 (replicate n 0).
Proof. split; [apply length_replicate|]. apply Forall_replicate. by vm_compute. Qed.

Definition zero_sha512_256 : Sha512Trunc256 :=
  {| sha512_256 _ := replicate 32 0;
     sha512_256_length _ := proj1 (constant_hash 32); sha512_256_u8 _ := proj2 (constant_hash 32) |}.
Definition zero_hashes : NativeHashes :=
  {| hash160 _ := replicate 20 0; sha512 _ := replicate 64 0; keccak256 _ := replicate 32 0;
     hash160_spec _ := constant_hash 20; sha512_spec _ := constant_hash 64; keccak256_spec _ := constant_hash 32 |}.
Definition no_headers : HeadersDB :=
  {| get_stacks_block_header_hash_for_block _ := None; get_burn_header_hash_for_block _ := None;
     get_vrf_seed_for_block _ := None; get_burn_block_time_for_block _ := None; get_miner_address_for_block _ := None |}.

(** A codec for one contract. *)
Definition only_contract (c : ContractData) : Storable ContractData := fun d => d = c.
Definition contract_serde (c : ContractData) : @ClaritySerializable ContractData (only_contract c) :=
  @Build_ClaritySerializable ContractData (only_contract c) (fun _ => "contract"%string)
    (fun s => if decide (s = "contract"%string) then Ok c else Panic) (fun x Hx => f_equal Ok (eq_sym Hx)).

#[local] Existing Instances zero_sha256 zero_sha512_256 zero_hashes no_headers.
#[local] Existing Instances u128_serde u64_serde principal_serde ft_serde nft_serde var_serde map_serde.

(** * The contract *)

(** (define-data-var count uint u0)
    (define-public (pay) (begin (var-set count u1) (stx-transfer? u5 tx-sender 'shop)))
    (define-public (fail) (begin (var-set count u2) (err u7))) *)
Definition shop : StandardPrincipalData := mkStandard 22 (replicate 20 9).
Definition customer : StandardPrincipalData := mkStandard 22 (replicate 20 7).
Definition call (f : string) (args : list SymbolicExpression) : SymbolicExpression := slist (atom f :: args).
Definition uint (n : Z) : SymbolicExpression := literal_value (VUInt n).
Definition example_program : list SymbolicExpression :=
  [call "define-data-var" [atom "count"; atom "uint"; uint 0];
   call "define-public" [call "pay" [];
     call "begin" [call "var-set" [atom "count"; uint 1];
                   call "stx-transfer?" [uint 5; atom "tx-sender"; literal_value (VPrincipal (Standard shop))]]];
   call "define-public" [call "fail" [];
     call "begin" [call "var-set" [atom "count"; uint 2]; call "err" [uint 7]]]].

(** The contract that the program defines. *)
Definition example_contract_data : ContractData :=
  let _ := only_contract (mkContract (ContractContext_new example_contract)) in
  let _ := contract_serde (mkContract (ContractContext_new example_contract)) in
  match initialize_from_ast example_contract example_program
      (GlobalContext_new (wrapper_nest (wrapper_new MemoryBackingStore_new)) LimitedCostTracker_new_max_limit, CallStack_new) with
  | Ok (_, inr c) => c
  | _ => mkContract (ContractContext_new example_contract)
  end.
#[local] Instance example_storable : Storable ContractData := only_contract example_contract_data.
#[local] Instance example_serde : ClaritySerializable ContractData := contract_serde example_contract_data.

(** * A run *)

Notation state := (VmState MemoryBackingStore).
Notation outcome A := (Res OutOfFuel (state * (VmError + A))).

(** The state after a run. *)
Definition then_ {A} (o : outcome A) : state :=
  match o with Ok (s, _) => s | _ => (top_context, CallStack_new) end.

Definition funded : state := Eval vm_compute in
  then_ (execute_in_env (on_database (set_account_stx_balance (Standard customer) 100)) (top_context, CallStack_new)).
Definition launch (s : state) : outcome (unit * AssetMap * EventBatch) :=
  owned_initialize_contract_from_ast example_contract example_program "source" s.
Definition launched : state := Eval vm_compute in then_ (launch funded).
Definition pay (s : state) : outcome (Value * AssetMap * EventBatch) :=
  execute_transaction (Standard customer) example_contract "pay" [] s.
Definition paid : state := Eval vm_compute in then_ (pay launched).
Definition balance (p : StandardPrincipalData) (s : state) : option Z :=
  match get_account_stx_balance (Standard p) (database (begin s.1)) with Ok (b, _) => Some b | _ => None end.
Definition result {A} (o : outcome A) : option (VmError + A) := match o with Ok (_, r) => Some r | _ => None end.
Definition result_of {A} (o : outcome A) : VmError + A := match o with Ok (_, r) => r | _ => inl (Runtime NotImplemented) end.

(** The customer's payment arrives. *)
Lemma example_run :
  result_of (pay launched) = inr (VResponse true (VBool true),
    snd (fst (match result_of (pay launched) with inr x => x | inl _ => (VBool false, AssetMap_new, []) end)),
    [STXEvent (STXTransferEvent (Standard customer) (Standard shop) 5)]) /\
  balance customer funded = Some 100 /\ balance customer paid = Some 95 /\ balance shop paid = Some 5.
Proof. split_and!; by_evaluation. Qed.

Lemma fresh_wf (g : GlobalContext MemoryBackingStore) :
  asset_maps g = [] -> event_batches g = [] -> read_only g = [] -> database g = wrapper_new (store (database g)) -> context_wf g.
Proof.
  intros Hm Hb Hr Hd. exists (mkLogs (store (database g)) []). split; [|by rewrite Hm, Hb, Hr].
  rewrite Hd. apply wrapper_new_refines.
Qed.
Lemma funded_wf : context_wf funded.1.
Proof. apply fresh_wf; by_evaluation. Qed.
Lemma launched_wf : context_wf launched.1.
Proof. apply fresh_wf; by_evaluation. Qed.
Lemma customer_valid : valid_principal customer.
Proof. split; [by vm_compute|]. split; [by apply Forall_replicate; vm_compute|done]. Qed.
Lemma shop_valid : valid_principal shop.
Proof. split; [by vm_compute|]. split; [by apply Forall_replicate; vm_compute|done]. Qed.

(** * Witnesses *)

Lemma call_transaction_atomic_witness :
  transaction_outcome opens
    (execute_contract eval example_contract "pay" [] false (get_exec_environment (Some (VPrincipal (Standard customer)))))
    launched.1 launched.2
    (execute_transaction (Standard customer) example_contract "pay" [] (launched.1, launched.2)).
Proof.
  apply (call_transaction_atomic (Standard customer) example_contract "pay" [] launched.1 launched.2).
  - exact launched_wf.
  - by_evaluation.
Defined.

Lemma contract_launch_atomic_witness :
  transaction_outcome (launch_opens example_contract)
    (initialize_contract_from_ast example_contract example_program "source") funded.1 funded.2
    (owned_initialize_contract_from_ast example_contract example_program "source" (funded.1, funded.2)) /\
  (forall g1 x1,
   initialize_contract_from_ast example_contract example_program "source" (begin funded.1, funded.2) = Ok ((g1, x1), inr tt) ->
   contract_stored example_contract example_program "source" (begin (begin funded.1), funded.2) (database g1)).
Proof.
  apply (contract_launch_atomic example_contract example_program "source" funded.1 funded.2).
  - exact funded_wf.
  - by_evaluation.
Defined.

(** The function [pay], called in a transaction. *)
Definition pay_function : DefinedFunction :=
  default (mkFunction "" "" [] DefinePrivate [] (atom "")) (cx_functions (contract_context example_contract_data) !! "pay").
Definition customer_env : Environment :=
  mkEnvironment (contract_context example_contract_data) (Some (VPrincipal (Standard customer))) None.

(** The body of [pay], evaluated. *)
Definition pay_body : outcome Value := Eval vm_compute in
  eval (fn_body pay_function) customer_env LocalContext_new (begin launched.1, CallStack_new).

Lemma evaluation_within_limit_witness :
  limit (cost_track (then_ pay_body).1) = limit (cost_track (begin launched.1)) /\
  cost_le (total (cost_track (then_ pay_body).1)) (limit (cost_track (then_ pay_body).1)).
Proof.
  apply (evaluation_within_limit (fn_body pay_function) customer_env LocalContext_new (begin launched.1) CallStack_new
    (then_ pay_body).1 (then_ pay_body).2 (result_of pay_body)).
  - vm_compute. split_and!; discriminate.
  - by_evaluation.
  - intros [[e H]|[m H]]; vm_compute in H; discriminate.
Defined.

Lemma evaluation_terminates_witness :
  eval (fn_body pay_function) customer_env LocalContext_new (begin launched.1, CallStack_new) <> Err out_of_fuel /\
  eval_body (apply_fuel 100) (fn_body pay_function) customer_env LocalContext_new (begin launched.1, CallStack_new) =
    eval (fn_body pay_function) customer_env LocalContext_new (begin launched.1, CallStack_new).
Proof.
  apply (evaluation_terminates 100 (fn_body pay_function) customer_env LocalContext_new (begin launched.1, CallStack_new)).
  unfold FUEL, MAX_CALL_STACK_DEPTH. lia.
Defined.

(** * Errors *)

(** A context with a limit on the runtime. *)
Definition limited (runtime_limit : Z) : GlobalContext MemoryBackingStore :=
  GlobalContext_new (wrapper_nest (wrapper_new MemoryBackingStore_new))
    (LimitedCostTracker_new (mkCost 100 100 100 100 runtime_limit)).

(** The error for a native function that cannot be paid for is lost: [apply]
    returns without taking the function off the call stack, and the application
    around it then reports an internal error of the call stack, with the stack
    left as it should not be.  (- 1 (+ 2 3)) with a limit that the inner sum
    exceeds, and without. *)
Theorem cost_error_masked :
  let run runtime_limit := eval (call "-" [literal_value (VInt 1); call "+" [literal_value (VInt 2); literal_value (VInt 3)]])
    customer_env LocalContext_new (limited runtime_limit, CallStack_new) in
  result_of (run 4) = inl (Interpreter (InterpreterErrorMsg "Tried to remove item from empty call stack.")) /\
  cs_stack (then_ (run 4)).2 = ["_native_:native_sub"] /\
  result_of (run 8) = inr (VInt (-4)) /\ cs_stack (then_ (run 8)).2 = [].
Proof. vm_compute. done. Qed.

(** A read-only evaluation for a contract that does not exist leaves its
    context open: the error comes back with the context not at the top level any
    more, so that the next transaction panics. *)
Theorem missing_contract_leaves_context_open :
  let s := then_ (eval_read_only example_contract [uint 1] customer_env (top_context, CallStack_new)) in
  is_top_level top_context = true /\ is_top_level s.1 = false /\ pay s = Panic.
Proof. vm_compute. done. Qed.
