(* ===== verification/ChainExamples.v ===== *)
(** Transactions on a block over the in-memory store, and the properties of the
    processing of transactions applied to them. *)
From stdpp Require Import base strings numbers list gmap relations.
From Stdlib Require Import Ascii ZArith Lia.
From S2P Require Import Prelude Names BTree Types Representations Values C32 C32Facts RollbackWrapper BackingStore Costs CostFacts AssetMap ClarityDatabase Keys Instances Natives TypeParser Contexts ContextFacts Interpreter Runs InterpreterFacts AssetFacts StxFacts Define Launches TransactionFacts Ledger StacksTypes PostConditions ClarityConnection ChainTransactions ConnectionFacts AccountFacts ChainFacts MinerRewards ChainBlocks BlockFacts Examples.
#[local] Open Scope Z_scope.

#[local] Existing Instances zero_sha256 zero_sha512_256 zero_hashes no_headers.
#[local] Existing Instances u128_serde u64_serde principal_serde ft_serde nft_serde var_serde map_serde.

(** * Instances *)

#[global] Instance memory_metadata_errors : MetadataErrors MemoryBackingStore.
Proof.
  intros st c k e H. cbn in H. unfold get_metadata, get_contract_hash in H.
  destruct (make_contract_hash_key c) as [key|[]|]; [|done]. cbn in H.
  destruct (contract_string c) as [s|[]|]; [|done]. cbn in H. destruct (sqlite_get (side_store st) key) as [x|]; cbn in H; [|by simplify_eq; eexists].
  destruct (commitment_deserialize x) as [cc|[]|]; [|done]. cbn in H. by destruct (get_block_at_height st _).
Qed.

(** (define-public (burn) (stx-burn? u5 tx-sender)) *)
Definition burn_program : list SymbolicExpression :=
  [Examples.call "define-public" [Examples.call "burn" []; Examples.call "stx-burn?" [uint 5; atom "tx-sender"]]].
(** (/ 1 0) *)
Definition bad_program : list SymbolicExpression :=
  [Examples.call "/" [literal_value (VInt 1); literal_value (VInt 0)]].
Definition burner : QualifiedContractIdentifier := mkContractId customer "burner".
Definition burner_data : ContractData :=
  let _ := only_contract (mkContract (ContractContext_new burner)) in
  let _ := contract_serde (mkContract (ContractContext_new burner)) in
  match initialize_from_ast burner burn_program
      (GlobalContext_new (wrapper_nest (wrapper_new MemoryBackingStore_new)) LimitedCostTracker_new_max_limit, CallStack_new) with
  | Ok (_, inr c) => c
  | _ => mkContract (ContractContext_new burner)
  end.
#[local] Instance burner_storable : Storable ContractData := only_contract burner_data.
#[local] Instance burner_serde : ClaritySerializable ContractData := contract_serde burner_data.

(** An analysis that accepts the two programs. *)
#[local] Instance example_analyzer : Analyzer MemoryBackingStore :=
  {| ContractAnalysis := unit; analysis_serialize _ := "analysis"%string;
     run_analysis _ source _ cost :=
       (cost, if decide (source = "burn"%string) then Ok (burn_program, tt)
              else if decide (source = "bad"%string) then Ok (bad_program, tt) else Err Parse) |}.
#[local] Instance trusting : Verifier := {| verify _ := Ok () |}.

(** * Transactions *)

Notation block := (Block MemoryBackingStore).
Definition config : DBConfig := mkDBConfig "1" true 1.

Definition customer_auth (nonce fee : Z) : TransactionAuth :=
  AuthStandard (Singlesig (mkSinglesig P2PKH (replicate 20 7) nonce fee Compressed [])).
Definition customer_tx (nonce fee : Z) (mode : TransactionPostConditionMode) (p : TransactionPayload) : StacksTransaction :=
  mkTransaction Mainnet 1 (customer_auth nonce fee) AnyAnchor mode [] p.
Definition customer_address : StacksAddress := mkAddress 22 (replicate 20 7).

Definition transfer_tx : StacksTransaction := customer_tx 0 3 Allow (TokenTransfer (Standard shop) 20 []).
Definition launch_tx : StacksTransaction := customer_tx 1 3 Allow (SmartContract (mkSmartContract "burner" "burn")).
Definition burn_tx (nonce : Z) (mode : TransactionPostConditionMode) : StacksTransaction :=
  customer_tx nonce 3 mode (ContractCall (mkContractCall customer_address "burner" "burn" [])).
Definition bad_tx (nonce : Z) : StacksTransaction := customer_tx nonce 3 Allow (SmartContract (mkSmartContract "bad" "bad")).

Notation processed_result := (Res OutOfFuel (block * (ChainError + Z * StacksTransactionReceipt unit))).
Definition block_of (o : processed_result) : option block := match o with Ok (b, _) => Some b | _ => None end.
Definition receipt_of (o : processed_result) : option (StacksTransactionReceipt unit) :=
  match o with Ok (_, inr (_, r)) => Some r | _ => None end.

(** A block in which the customer has 100. *)
Definition first_block : block := Eval vm_compute in mkBlock (store (database funded.1)) LimitedCostTracker_new_max_limit.
Definition next (tx : StacksTransaction) (b : block) : block :=
  default first_block (block_of (process_transaction config tx b)).
Definition sent_block : block := Eval vm_compute in next transfer_tx first_block.
Definition launched_block : block := Eval vm_compute in next launch_tx sent_block.
Definition burnt_block : block := Eval vm_compute in next (burn_tx 2 Allow) launched_block.
Definition kept_block : block := Eval vm_compute in next (burn_tx 2 Deny) launched_block.

Definition failed_block : block := Eval vm_compute in next (bad_tx 2) launched_block.

Definition balance_in (p : StandardPrincipalData) (b : block) : option Z :=
  match ChainTransactions.get_account (Standard p) (start_transaction_processing b) with
  | Ok (_, inr a) => Some (stx_balance a)
  | _ => None
  end.
Definition nonce_in (p : StandardPrincipalData) (b : block) : option Z :=
  match ChainTransactions.get_account (Standard p) (start_transaction_processing b) with
  | Ok (_, inr a) => Some (nonce a)
  | _ => None
  end.

Lemma example_blocks :
  (balance_in customer first_block, nonce_in customer first_block) = (Some 100, Some 0) /\
  (balance_in customer sent_block, nonce_in customer sent_block, balance_in shop sent_block) = (Some 77, Some 1, Some 20) /\
  (balance_in customer launched_block, nonce_in customer launched_block) = (Some 74, Some 2) /\
  (balance_in customer burnt_block, nonce_in customer burnt_block) = (Some 66, Some 3) /\
  (balance_in customer kept_block, nonce_in customer kept_block) = (Some 71, Some 3).
Proof. split_and!; by_evaluation. Qed.

(** * Witnesses *)

(** The result of processing a transaction, as a value. *)
Definition processing (tx : StacksTransaction) (b : block) : ChainError + Z * StacksTransactionReceipt unit :=
  match process_transaction config tx b with Ok (_, r) => r | _ => inl InvalidFee end.
Definition value_of (r : ChainError + Z * StacksTransactionReceipt unit) : Z * StacksTransactionReceipt unit :=
  match r with inr v => v | inl _ => (0, mkReceipt transfer_tx [] okay_true 0 None) end.
Definition transfer_value : Z * StacksTransactionReceipt unit := Eval vm_compute in value_of (processing transfer_tx first_block).
Definition burn_value : Z * StacksTransactionReceipt unit := Eval vm_compute in value_of (processing (burn_tx 2 Allow) launched_block).

Definition balance_key_of (p : StandardPrincipalData) : string :=
  match make_key_for_account_balance (Standard p) with Ok k => k | _ => EmptyString end.
Definition nonce_key_of (p : StandardPrincipalData) : string :=
  match make_key_for_account_nonce (Standard p) with Ok k => k | _ => EmptyString end.

Lemma transfer_tx_wf : tx_wf transfer_tx.
Proof. split_and!; [exact customer_valid|exact customer_valid|]. cbn. lia. Qed.

Lemma no_replay_witness :
  process_transaction config transfer_tx first_block = Ok (sent_block, inr transfer_value) /\
  forall b3 v', process_transaction config transfer_tx launched_block <> Ok (b3, inr v').
Proof.
  split; [by_evaluation|].
  apply (no_replay (Hanalyzer := example_analyzer) config transfer_tx first_block sent_block launched_block transfer_value).
  - by_evaluation.
  - apply rtc_once. exists launch_tx, (processing launch_tx sent_block). by_evaluation.
Defined.

Lemma rejected_unchanged_witness :
  match process_transaction config transfer_tx sent_block with
  | Ok (b', inl _) => datastore b' = datastore sent_block
  | Ok (_, inr _) => True
  | Err _ => False
  | Panic => True
  end.
Proof. apply (rejected_unchanged (Hanalyzer := example_analyzer) config transfer_tx sent_block). Defined.

Lemma others_keep_balance_witness : exists bal', block_balance sent_block (Standard shop) bal' /\ 0 <= bal'.
Proof.
  apply (others_keep_balance (Hanalyzer := example_analyzer) config transfer_tx first_block sent_block (inr transfer_value) shop 0).
  - exact shop_valid.
  - exact transfer_tx_wf.
  - discriminate.
  - discriminate.
  - by_evaluation.
  - exists (balance_key_of shop). split; by_evaluation.
Defined.


Definition allowed_burn : StacksTransaction := burn_tx 2 Allow.

Lemma postconditions_enforced_witness :
  exists log mlog, flush (datastore launched_block) log mlog = Ok (datastore burnt_block) /\
  (((forall k, ~ nonce_key allowed_burn k -> ~ fee_key allowed_burn k ->
      reads (start_transaction_processing burnt_block) k = reads (start_transaction_processing launched_block) k) /\
    mlog = analysis_metadata allowed_burn None) \/
   exists c1 log1 g' m log' mlog',
     wrapper_refines (conn_db c1) (mkLogs (datastore launched_block) [(log1, [])]) /\
     conn_cost c1 = conn_cost (start_transaction_processing launched_block) /\
     (forall k, ~ fee_key allowed_burn k -> reads c1 k = reads (start_transaction_processing launched_block) k) /\
     ran allowed_burn c1 None m g' /\
     check_transaction_postconditions (sender_of allowed_burn) m (post_conditions allowed_burn) (post_condition_mode allowed_burn)
       = Ok true /\
     wrapper_refines (database g') (mkLogs (datastore launched_block) [(log', mlog'); (log1, [])]) /\
     mlog = mlog' ++ analysis_metadata allowed_burn None /\
     (forall k, ~ nonce_key allowed_burn k -> reads (start_transaction_processing burnt_block) k = wrapper_get (database g') k)).
Proof.
  apply (postconditions_enforced (Hanalyzer := example_analyzer) config allowed_burn launched_block burnt_block burn_value).
  - exact I.
  - by_evaluation.
Defined.

(** * Aborted transactions *)

(** What was rolled back is reported: the receipt of a call whose
    post-conditions fail has the burn and the event of the call, though the
    balance is lowered by the fee alone. *)
Theorem aborted_burn_reported :
  option_map stx_burned (receipt_of (process_transaction config (burn_tx 2 Deny) launched_block)) = Some 5 /\
  option_map ChainTransactions.events (receipt_of (process_transaction config (burn_tx 2 Deny) launched_block)) =
    Some [STXEvent (STXBurnEvent (Standard customer) 5)] /\
  balance_in customer launched_block = Some 74 /\ balance_in customer kept_block = Some 71.
Proof. split_and!; by_evaluation. Qed.

(** A contract whose launch fails at run time is accepted, and its analysis
    stays: launching it again, which the chain allows because there is no such
    contract, panics. *)
Theorem relaunch_panics :
  option_map ChainTransactions.result (receipt_of (process_transaction config (bad_tx 2) launched_block)) = Some okay_true /\
  block_of (process_transaction config (bad_tx 2) launched_block) = Some failed_block /\
  process_transaction config (bad_tx 3) failed_block = Panic.
Proof. split_and!; by_evaluation. Qed.

(** * A block *)

#[local] Existing Instances MinerRewards.example.hashes ascii_to_uppercase.
Definition coinbase_tx : StacksTransaction := customer_tx 1 0 Allow (Coinbase []).
Definition mblock : StacksMicroblock := mkMicroblock (mkMicroblockHeader 0 7 [9] [] []) [transfer_tx].
Definition new_block : StacksBlock :=
  mkStacksBlock (mkBlockHeader 0 (mkWorkScore 0 2) [5] [1] [9] 7 [] [] []) [coinbase_tx; customer_tx 2 4 Allow (TokenTransfer (Standard shop) 1 [])].
Definition parent_info : StacksHeaderInfo := mkHeaderInfo (mkBlockHeader 0 (mkWorkScore 0 1) [1] [] [] 0 [] [] []) None 1 [] [3] 0.
Notation appended := (ChainError + Headers * block * StacksHeaderInfo * list (StacksTransactionReceipt unit))%type.
Definition appending (b : block) : Res OutOfFuel appended :=
  append_block (fun _ _ _ _ _ => Ok []) (fun _ _ _ => Ok None) (fun _ => []) config (mkHeaders [] []) b parent_info [4] 10
    new_block [mblock] 100 300 [].
Definition appended_result : option (Headers * block * StacksHeaderInfo * list (StacksTransactionReceipt unit)) :=
  Eval vm_compute in match appending first_block with Ok (inr r) => Some r | _ => None end.
Definition appended_parts : Headers * block * StacksHeaderInfo * list (StacksTransactionReceipt unit) :=
  Eval vm_compute in default (mkHeaders [] [], first_block, parent_info, []) appended_result.

Lemma appended_block_sound_witness :
  NoDup ([transfer_tx] ++ block_txs new_block) /\
  map transaction appended_parts.2 = block_txs new_block ++ [transfer_tx].
Proof.
  destruct (appended_block_sound (Hanalyzer := example_analyzer) (fun _ _ _ _ _ => Ok []) (fun _ _ _ => Ok None) (fun _ => []) config
    (mkHeaders [] []) first_block parent_info [4] 10 new_block [mblock] 100 300 []
    appended_parts.1.1.1 appended_parts.1.1.2 appended_parts.1.2 appended_parts.2) as (Hnodup & Hreceipts & _).
  - by_evaluation.
  - split; [exact Hnodup|exact Hreceipts].
Defined.
