(* ===== verification/SignatureExamples.v ===== *)
(** Concrete keys and transactions for the theorems of SignatureFacts.v and
    TransactionCodec.v: a toy curve in which a signature carries its key. *)
From stdpp Require Import base strings numbers list gmap.
From Stdlib Require Import ZArith Lia.
From S2P Require Import Prelude Names Types C32 C32Facts Natives ClarityDatabase StacksTypes NetCodec TransactionCodec Signatures SignatureFacts Merkle BlockCodec BlockCodecFacts Serialization ClarityConnection ChainTransactions ChainFacts ChainAuth Instances Costs AssetMap Examples ChainExamples.
#[local] Open Scope Z_scope.
#[local] Existing Instances zero_sha256 zero_sha512_256 zero_hashes TransactionCodec.example.sizes TransactionCodec.example.lexer.

(** * A toy curve *)

Definition pad (sk : list Z) : list Z := take 32 (sk ++ repeat 0 32).
#[local] Instance toy_curve : Secp256k1 :=
  {| point_valid k := (length k =? 33)%nat; serialize_uncompressed k := 4 :: repeat 7 64; compact_valid s := (length s =? 64)%nat;
     ecdsa_recover _ s := Some (2 :: take 32 s.2); from_secret_key sk := 2 :: pad sk;
     sign_recoverable sk _ := (0, pad sk ++ repeat 1 32) |}.
Lemma pad_length sk : length (pad sk) = 32%nat.
Proof. unfold pad. rewrite length_take, length_app, repeat_length. lia. Qed.
#[local] Instance toy_laws : Secp256k1Laws.
Proof.
  split; cbn.
  - lia.
  - intros sk _. by rewrite length_app, pad_length.
  - intros sk _ H. apply (f_equal last) in H. by rewrite last_app in H.
  - intros sk msg _. by rewrite take_app_length' by by rewrite pad_length.
Qed.

Definition sk (n : Z) : StacksPrivateKey := mkPrivateKey (repeat n 32) true.
Definition pk (n : Z) : StacksPublicKey := from_private (sk n).

(** Two of three keys, with a sponsor of one key. *)
Definition shared : TransactionSpendingCondition := Multisig (mkMultisig P2SH (repeat 0 20) 7 0 [] 2).
Definition single : TransactionSpendingCondition := Singlesig (mkSinglesig P2PKH (repeat 0 20) 3 50 Compressed MessageSignature_empty).
Definition transfer : TransactionPayload := TokenTransfer (Standard (mkStandard 26 (repeat 5 20))) 10 (repeat 0 34).
Definition unsigned : StacksTransaction := mkTransaction Testnet 1 (AuthSponsored shared single) AnyAnchor Deny [] transfer.
Definition origin_steps : list SignStep := [SignWith (sk 1); Append (pk 2); SignWith (sk 3)].
Definition sponsor_steps : list SignStep := [SignWith (sk 4)].
Definition initial : list Z := repeat 0 32.

Lemma signed_verifies_witness :
  signer_new unsigned = Ok (mkSigner unsigned initial false true true) /\ auth_signable (tx_auth unsigned) origin_steps sponsor_steps /\
  exists s tx', run_signer (mkSigner unsigned initial false true true) origin_steps sponsor_steps = Ok s /\
    get_tx s = Ok (Some tx') /\ transaction_verify tx' = Ok () /\ with_auth tx' (tx_auth unsigned) = unsigned.
Proof.
  assert (signer_new unsigned = Ok (mkSigner unsigned initial false true true)) as Hnew by (vm_compute; reflexivity).
  assert (auth_signable (tx_auth unsigned) origin_steps sponsor_steps) as Hs.
  { split_and!; cbn; [done..| |lia]. split; [done|]. exists (sk 4). split_and!; vm_compute; reflexivity. }
  split_and!; [exact Hnew|exact Hs|]. exact (signed_verifies unsigned _ origin_steps sponsor_steps Hnew Hs).
Defined.

(** A transaction of one signature, and the signature with another recovery
    identifier, which the toy curve ignores. *)
Definition solo_condition : SinglesigSpendingCondition :=
  Eval vm_compute in mkSinglesig P2PKH (repeat 0 20) 3 50 Compressed (0 :: pad (repeat 4 32) ++ repeat 1 32).
Definition solo : StacksTransaction := mkTransaction Testnet 1 (AuthStandard (Singlesig solo_condition)) AnyAnchor Deny [] transfer.
Definition flip (s : Z * list Z) : Z * list Z := (1, take 64 (s.2 ++ repeat 0 64)).
Definition solo_sig : Z * list Z := (0, drop 1 (signature solo_condition)).

Lemma signature_malleable_witness :
  transaction_verify solo = Ok () /\ from_secp256k1_recoverable (flip solo_sig) <> signature solo_condition /\
  transaction_verify (set_origin_signature solo solo_condition (from_secp256k1_recoverable (flip solo_sig))) = Ok ().
Proof.
  assert (transaction_verify solo = Ok ()) as Hv by (vm_compute; reflexivity).
  split_and!; [exact Hv|vm_compute; congruence|]. apply (signature_malleable flip solo solo_condition solo_sig); [|done..|exact Hv].
  intros [r b] Hb. cbn in Hb. apply Nat.eqb_eq in Hb. unfold flip. cbn -[take]. rewrite length_take, length_app, Hb.
  split_and!; [lia..|done|done|]. intros _. do 2 f_equal. by rewrite take_take, take_app_le by lia.
Defined.

(** A launch under a name of one letter. *)
Definition short_launch : StacksTransaction :=
  mkTransaction Testnet 1 (AuthStandard (Singlesig solo_condition)) AnyAnchor Deny [] (SmartContract (mkSmartContract "a" "")).
Lemma unwritable_name_panics_witness : txid short_launch = Panic.
Proof.
  destruct (unwritable_name_panics "a" "") as (p & Hp & Hpanic); [by vm_compute..|].
  apply Hpanic; [vm_compute; intros [H _]; by apply H|]. vm_compute in Hp. by injection Hp as <-.
Defined.

(** * Blocks *)

#[local] Instance trusting_vrf : VRF := {| proof_valid _ := true |}.
Definition coinbase_only : list StacksTransaction :=
  [mkTransaction Testnet 1 (AuthStandard (Singlesig solo_condition)) OnChainOnly Deny [] (Coinbase (repeat 0 32))].
Definition small_header : StacksBlockHeader :=
  mkBlockHeader 0 (mkWorkScore 3 4) (repeat 5 80) (repeat 1 32) (repeat 2 32) 0 (repeat 0 32) (repeat 3 32) (repeat 4 20).
Definition small_block : StacksBlock := mkStacksBlock small_header coinbase_only.
Definition small_bytes : list Z :=
  Eval vm_compute in match write_next StacksBlock_codec small_block with Ok bs => bs | _ => [] end.

Lemma coinbase_only_ok : txs_ok coinbase_only.
Proof. repeat (split || constructor || vm_compute || done). Qed.
Lemma small_header_ok : header_ok small_header.
Proof. repeat (split || vm_compute || done). Qed.
Lemma small_block_valid : block_valid small_block.
Proof.
  split_and!.
  - exists (hd unsigned coinbase_only), []. split_and!; [done..|constructor].
  - by repeat constructor.
  - exists [repeat 0 32]. split_and!; [vm_compute; reflexivity|apply NoDup_singleton|vm_compute; reflexivity].
Qed.

Lemma block_read_exact_witness :
  block_valid small_block /\ fits small_bytes /\
  (exists bs, write_next StacksBlock_codec small_block = Ok bs /\
     (fits bs -> block_valid small_block -> reads_some (read_next StacksBlock_codec) bs (fun b' => block_same b' small_block))) /\
  (forall r r', read_next StacksBlock_codec r = Ok (small_block, r') -> block_valid small_block).
Proof.
  split; [exact small_block_valid|]. split; [by vm_compute|].
  exact (block_read_exact small_block small_header_ok coinbase_only_ok).
Defined.

Definition small_reader : BoundReader := from_reader small_bytes MAX_MESSAGE_LEN.
Definition small_rest : BoundReader :=
  Eval vm_compute in match read_next StacksBlock_codec small_reader with Ok (_, r) => r | _ => small_reader end.
Lemma block_hash_binds_witness :
  read_next StacksBlock_codec small_reader = Ok (small_block, small_rest) /\
  (txids (block_txs small_block) = txids (block_txs small_block) \/
   collision (list Z) (block_inputs small_block) (block_inputs small_block)).
Proof.
  assert (read_next StacksBlock_codec small_reader = Ok (small_block, small_rest)) as Hr by (vm_compute; reflexivity).
  split; [exact Hr|]. exact (block_hash_binds _ _ _ _ _ _ Hr Hr eq_refl).
Defined.

(** * A block that checks signatures *)

#[local] Existing Instances u128_serde u64_serde principal_serde ft_serde nft_serde var_serde map_serde no_headers.
#[local] Existing Instances burner_storable burner_serde example_analyzer.

(** A coinbase of the account of one key. *)
Definition solo_coinbase : StacksTransaction :=
  mkTransaction Mainnet 1
    (AuthStandard (Singlesig (mkSinglesig P2PKH (repeat 0 20) 0 0 Compressed (signature solo_condition)))) OnChainOnly Deny []
    (Coinbase (repeat 0 32)).
Definition solo_result : block * (ChainError + Z * StacksTransactionReceipt unit) :=
  Eval vm_compute in
    match process_transaction config solo_coinbase first_block with
    | Ok r => r
    | _ => (first_block, inl InvalidFee)
    end.
Definition solo_value : Z * StacksTransactionReceipt unit := Eval vm_compute in value_of solo_result.2.

Lemma accepted_authentic_witness :
  process_transaction config solo_coinbase first_block = Ok (solo_result.1, inr solo_value) /\
  tx_chain_id solo_coinbase = chain_id config /\ transaction_authentic solo_coinbase.
Proof.
  assert (process_transaction config solo_coinbase first_block = Ok (solo_result.1, inr solo_value)) as Hp by (vm_compute; reflexivity).
  split; [exact Hp|]. exact (accepted_authentic (Hanalyzer := example_analyzer) config solo_coinbase first_block _ _ Hp).
Defined.
