(* ===== verification/BurnExamples.v ===== *)
(** A burn chain that is run: blocks that register leader keys, commit to Stacks blocks
    with the support of a user, and fork, over toy hashes and the index in memory; the
    witnesses of [Sortition] and [BurnFacts]. *)
From stdpp Require Import base strings numbers list gmap sorting.
From Stdlib Require Import ZArith Lia.
From S2P Require Import Prelude Names Types Hex C32 C32Facts Natives StacksTypes NetCodec TransactionCodec Signatures Uint BurnOps BurnDB BurnChecks Sortition BurnChain BurnSteps BurnForks BurnFacts Examples SignatureExamples.
#[local] Open Scope Z_scope.

(** * Toy hashes *)

Definition checksum (data : list Z) : Z := foldl (fun a b => (31 * a + b + 7) mod 251) 1 data.
Lemma foldl_bound (f : Z -> Z -> Z) data : (forall a b, 0 <= f a b < 251) -> forall a, 0 <= a < 251 -> 0 <= foldl f a data < 251.
Proof. intros Hf. induction data as [|b data IH]; intros a Ha; cbn; [done|]. by apply IH. Qed.
Lemma checksum_u8 data : u8 (checksum data).
Proof.
  unfold u8, in_u, checksum. pose proof (foldl_bound (fun a b => (31 * a + b + 7) mod 251) data ltac:(intros; by apply Z.mod_pos_bound) 1 ltac:(lia)). lia.
Qed.
#[local] Instance toy_sha256 : Sha256.
Proof. refine {| sha256 data := replicate 32 (checksum data) |}; [done|]. intros data. apply Forall_replicate, checksum_u8. Defined.
#[local] Instance toy_ripemd : Ripemd160 := {| ripemd160 data := replicate 20 (checksum data); ripemd160_length _ := eq_refl |}.
#[local] Instance all_points : VRFPublicKeys := {| decompresses _ := true |}.
#[local] Existing Instances zero_hashes toy_curve.

(** * Blocks *)

Definition chain_config : Burnchain := mkBurnchain PEER_VERSION BITCOIN_REGTEST "bitcoin" "regtest" "/tmp" 24 1 0 FIRST_BURNCHAIN_BLOCK_HASH_REGTEST.
Definition burn_to (bytes : list Z) (n : Z) : BitcoinTxOutput := mkTxOutput (mkBitcoinAddress PublicKeyHash BitcoinRegtest bytes) n.
Definition input : BitcoinTxInput := mkTxInput [pk 3] 1 StandardInput.
Definition key_tx (vtx id : Z) : BitcoinTransaction :=
  mkBitcoinTransaction (replicate 32 (100 + id)) vtx OPCODE_LEADER_KEY_REGISTER (replicate 20 0 ++ replicate 32 id ++ [0]) [input] [burn_to (replicate 20 0) 1].
Definition commit_tx (txid vtx id key_height key_vtx fee : Z) : BitcoinTransaction :=
  mkBitcoinTransaction (replicate 32 txid) vtx OPCODE_LEADER_BLOCK_COMMIT
    (replicate 32 id ++ replicate 32 (id + 1) ++ be_encode 4 0 ++ be_encode 2 0 ++ be_encode 4 key_height ++ be_encode 2 key_vtx ++ [0])
    [input] [burn_to (replicate 20 0) fee].
Definition user_tx (txid vtx id key_id key_height key_vtx fee : Z) : BitcoinTransaction :=
  mkBitcoinTransaction (replicate 32 txid) vtx OPCODE_USER_BURN_SUPPORT
    (replicate 19 0 ++ replicate 32 key_id ++ Hash160_from_sha256 (replicate 32 id) ++ be_encode 4 key_height ++ be_encode 2 key_vtx)
    [input] [burn_to (replicate 20 0) fee; burn_to (replicate 20 9) 1].
Definition block_at (height hash parent : Z) (txs : list BitcoinTransaction) : BurnchainBlock :=
  mkBurnchainBlock height (replicate 32 hash) (replicate 32 parent) txs 1000.

Definition run (m : Res burnchain_error (BurnDB MemoryIndex * BlockSnapshot)) (db : BurnDB MemoryIndex) : BurnDB MemoryIndex :=
  match m with Ok (db, _) => db | _ => db end.
Definition db0 : BurnDB MemoryIndex :=
  Eval vm_compute in match instantiate ([] : MemoryIndex) 0 FIRST_BURNCHAIN_BLOCK_HASH_REGTEST 1000 with Ok db => db | _ => mkBurnDB [] [] [] [] [] 0 end.
(** Three keys; then two commits with a user burn for the second; then, on another
    fork, a commit with the first key. *)
Definition block1 : BurnchainBlock := Eval vm_compute in block_at 1 11 2 [key_tx 1 40; key_tx 2 41; key_tx 5 42].
Definition block2 : BurnchainBlock :=
  Eval vm_compute in block_at 2 12 11 [commit_tx 201 1 60 1 1 100; commit_tx 202 4 62 1 2 50; user_tx 203 7 62 41 1 2 1000].
Definition block3 : BurnchainBlock := Eval vm_compute in block_at 2 13 11 [commit_tx 204 3 60 1 1 7].
Definition db1 : BurnDB MemoryIndex := Eval vm_compute in run (process_block db0 chain_config block1) db0.
Definition db2 : BurnDB MemoryIndex := Eval vm_compute in run (process_block db1 chain_config block2) db0.
Definition db3 : BurnDB MemoryIndex := Eval vm_compute in run (process_block db2 chain_config block3) db0.

Lemma run_Ok m d db : (is_ok m, run m d) = (true, db) -> exists sn, m = Ok (db, sn).
Proof. destruct m as [[db' sn]| |]; cbn; [|done..]. intros [= <-]. by exists sn. Qed.
Lemma run1 : exists sn, process_block db0 chain_config block1 = Ok (db1, sn).
Proof. apply (run_Ok (process_block db0 chain_config block1) db0 db1). vm_compute; reflexivity. Qed.
Lemma run2 : exists sn, process_block db1 chain_config block2 = Ok (db2, sn).
Proof. apply (run_Ok (process_block db1 chain_config block2) db0 db2). vm_compute; reflexivity. Qed.
Lemma run3 : exists sn, process_block db2 chain_config block3 = Ok (db3, sn).
Proof. apply (run_Ok (process_block db2 chain_config block3) db0 db3). vm_compute; reflexivity. Qed.
Lemma config_bytes : burnchain_bytes chain_config.
Proof. split_and!; [done|by repeat constructor|done]. Qed.
Lemma reachable_db1 : reachable chain_config db1.
Proof.
  destruct run1 as [sn1 H1]. apply (reachable_block chain_config db0 block1 db1 sn1); [|by split_and!; [repeat constructor|..|repeat constructor]|exact H1].
  apply (reachable_new _ ([] : MemoryIndex) 1000); [done|]. vm_compute; reflexivity.
Qed.
Lemma reachable_db2 : reachable chain_config db2.
Proof. destruct run2 as [sn2 H2]. apply (reachable_block chain_config db1 block2 db2 sn2); [apply reachable_db1|by split_and!; [repeat constructor|..|repeat constructor]|exact H2]. Qed.
Lemma reachable_db3 : reachable chain_config db3.
Proof. destruct run3 as [sn3 H3]. apply (reachable_block chain_config db2 block3 db3 sn3); [apply reachable_db2|by split_and!; [repeat constructor|..|repeat constructor]|exact H3]. Qed.

(** The outcome: three sortitions on two forks, after the first block. *)
Lemma blocks_outcome :
  map (fun sn => (sortition sn, num_sortitions sn, total_burn sn)) (snapshots db3) = [(true, 0, 0); (false, 0, 0); (true, 1, 1150); (true, 1, 7)] /\
  (length (leader_keys db3), length (block_commits db3), length (user_burn_support db3)) = (3, 3, 1)%nat.
Proof. done. Qed.

(** * Witnesses *)

Definition parent1 : BlockSnapshot := Eval vm_compute in default (snapshot_initial 0 [] 0) (snapshots db1 !! 1%nat).
Definition tip2 : BlockSnapshot := Eval vm_compute in default (snapshot_initial 0 [] 0) (snapshots db2 !! 2%nat).
Definition header2 : BurnchainBlockHeader := Eval vm_compute in block_header_of block2 parent1.
Definition ops2 : list BlockstackOperationType :=
  Eval vm_compute in match get_blockstack_transactions (E:=Empty_set) block2 header2 with Ok ops => ops | _ => [] end.
Definition commits2 : list LeaderBlockCommitOp := Eval vm_compute in omap commit_of ops2.
Definition keys2 : list LeaderKeyRegisterOp :=
  Eval vm_compute in match get_consumed_leader_keys db1 (sn_burn_header_hash parent1) commits2 with Ok keys => keys | _ => [] end.
Definition dist2 : list BurnSamplePoint :=
  Eval vm_compute in match make_distribution (E:=db_error) commits2 keys2 (omap user_burn_of ops2) with Ok dist => dist | _ => [] end.

Lemma sortition_fair_witness :
  burn_sum dist2 = 1150 /\
  exists dist, make_sortition_ranges (E:=db_error) dist2 = Ok dist /\
    exists i, (i < 2)%nat /\ sample_burn_distribution (E:=db_error) dist VRFSeed_initial SortitionHash_initial = Ok (Some i).
Proof.
  split; [done|].
  destruct (sortition_fair (E:=db_error) dist2 VRFSeed_initial SortitionHash_initial) as (dist & Hd & _ & _ & Hs & _).
  - by repeat constructor.
  - vm_compute; split; reflexivity.
  - exists dist. split; [done|]. destruct Hs as (i & Hi & He); [vm_compute; discriminate|]. exists i. split; [exact Hi|exact He].
Defined.
Lemma burn_database_refines_witness :
  exists r hist, r_snapshot r = tip2 /\ valid 0 (r :: hist) /\ refines db3 (sn_burn_header_hash tip2) (r :: hist).
Proof.
  apply (burn_database_refines chain_config db3 tip2); [apply config_bytes|apply reachable_db3|]. do 2 right. by left.
Defined.
Lemma tip2_on_fork : on_fork db3 tip2 tip2.
Proof. exists 2. vm_compute. reflexivity. Qed.
Lemma no_block_wins_twice_witness : sortition tip2 = true /\ forall b, on_fork db3 tip2 b -> sortition b = true ->
  winning_stacks_block_hash b = winning_stacks_block_hash tip2 -> b = tip2.
Proof.
  split; [done|]. intros b Hb Hs Hw.
  apply (no_block_wins_twice chain_config db3 tip2 b tip2); [apply config_bytes|apply reachable_db3|do 2 right; by left|done|apply tip2_on_fork|done..].
Defined.
Definition commit21 : LeaderBlockCommitOp :=
  Eval vm_compute in default (mkCommit [] [] 0 0 0 0 [] 0 (mkBurnSigner SerializeP2PKH 0 []) [] 0 0 []) (block_commits db3 !! 0%nat).
Lemma leader_key_used_once_witness : commit21 ∈ block_commits db3 /\ forall d, d ∈ block_commits db3 ->
  commit_burn_header_hash d = sn_burn_header_hash tip2 -> key_block_ptr d = 1 -> key_vtxindex d = 1 -> commit21 = d.
Proof.
  split; [by left|]. intros d Hd Hdt Hp Hx.
  apply (leader_key_used_once chain_config db3 tip2 tip2 tip2 commit21 d);
    [apply config_bytes|apply reachable_db3|do 2 right; by left|apply tip2_on_fork|apply tip2_on_fork|by left|done|done|done|by rewrite Hp|by rewrite Hx].
Defined.

(** Two commits that name the first key. *)
Definition block2' : BurnchainBlock := Eval vm_compute in block_at 2 14 11 [commit_tx 205 1 60 1 1 100; commit_tx 206 4 62 1 1 50].
Definition ops2' : list BlockstackOperationType :=
  Eval vm_compute in match get_blockstack_transactions (E:=Empty_set) block2' (block_header_of block2' parent1) with Ok ops => ops | _ => [] end.
Lemma same_key_commits_panic_witness :
  length ops2' = 2%nat /\ process_block_ops db1 chain_config parent1 (block_header_of block2' parent1) ops2' = Panic.
Proof.
  split; [done|].
  destruct (omap commit_of ops2') as [|c [|d l]] eqn:E; [done..|].
  apply (same_key_commits_panic db1 chain_config parent1 (block_header_of block2' parent1) ops2' ops2' c d); cbn in E; injection E as <- <- _;
    [done|vm_compute; reflexivity|by left|by right; left|done|done].
Defined.
