(* ===== verification/AstExamples.v ===== *)
(** Programs through the parser and the passes: the texts of the tests of
    src/vm/ast, and the hypotheses of the theorems on small contracts. *)
From stdpp Require Import base strings numbers list gmap.
From Stdlib Require Import ZArith Lia.
From S2P Require Import Prelude Names Types Representations C32 Costs Interpreter Define Ast AstFacts DefinitionSorter SorterFacts Regex Parser LexerFacts Display BuildAst.
#[local] Open Scope Z_scope.
Import Backtracking.

#[local] Instance zero_sha256 : Sha256.
Proof. refine {| sha256 _ := replicate 32 0 |}; [done|]. intros _. by apply Forall_replicate. Defined.
#[local] Instance ascii_uppercase : ToUppercase := {| to_uppercase := map ascii_upper; to_uppercase_ascii _ _ := eq_refl |}.

Definition parse_text (s : string) : ParseResult (list PreSymbolicExpression) := parse (string_bytes s).
Definition parse_error (s : string) : option ParseErrors.t :=
  match parse_text s with Err e => Some (ParseError.err e) | _ => None end.

(** * The tests of the parser *)

(** The constructors of the tests of parser/mod.rs. *)
Definition make_atom (x : string) (l c l' c' : Z) := set_span (PreAtom fresh_label x) l c l' c'.
Definition make_atom_value (x : Value) (l c l' c' : Z) := set_span (PreAtomValue fresh_label x) l c l' c'.
Definition make_list (l c l' c' : Z) (x : list PreSymbolicExpression) := set_span (PreList fresh_label x) l c l' c'.
Definition make_tuple (l c l' c' : Z) (x : list PreSymbolicExpression) := set_span (PreTuple fresh_label x) l c l' c'.

(** [test_parse_let_expression], without the quotes in its comments. *)
Definition let_text : string :=
"z (let ((x 1) (y 2))
    (+ x ;; comments section?
        ;; this is also a comment!
        (let ((x 3)) ;; more commentary
        (+ x y))
        x)) x y
        ;; this is 'quoted comment!".
Definition let_program : list PreSymbolicExpression :=
  [make_atom "z" 1 1 1 1;
   make_list 1 3 6 11
     [make_atom "let" 1 4 1 6;
      make_list 1 8 1 20
        [make_list 1 9 1 13 [make_atom "x" 1 10 1 10; make_atom_value (VInt 1) 1 12 1 12];
         make_list 1 15 1 19 [make_atom "y" 1 16 1 16; make_atom_value (VInt 2) 1 18 1 18]];
      make_list 2 5 6 10
        [make_atom "+" 2 6 2 6;
         make_atom "x" 2 8 2 8;
         make_list 4 9 5 16
           [make_atom "let" 4 10 4 12;
            make_list 4 14 4 20 [make_list 4 15 4 19 [make_atom "x" 4 16 4 16; make_atom_value (VInt 3) 4 18 4 18]];
            make_list 5 9 5 15 [make_atom "+" 5 10 5 10; make_atom "x" 5 12 5 12; make_atom "y" 5 14 5 14]];
         make_atom "x" 6 9 6 9]];
   make_atom "x" 6 13 6 13;
   make_atom "y" 6 15 6 15].
Example parse_let_expression : parse_text let_text = Ok let_program.
Proof. vm_compute. reflexivity. Qed.
Example parse_tuple_literal : parse_text "{id 1337}" =
  Ok [make_tuple 1 1 1 9 [make_atom "id" 1 2 1 3; make_atom_value (VInt 1337) 1 5 1 8]].
Proof. vm_compute. reflexivity. Qed.

(** [test_parse_failures]. *)
Example parse_failures :
  parse_error "(let ((x 1) (y 2))))" = Some ParseErrors.ClosingParenthesisUnexpected /\
  parse_error "(let ((x 1) (y 2))" = Some ParseErrors.ClosingParenthesisExpected /\
  parse_error "(let ((x 1) (y#not 2)) x)" = Some (ParseErrors.FailedParsingRemainder "#not 2)) x)") /\
  parse_error "(let ((023ab13 1)))" = Some (ParseErrors.SeparatorExpected "ab13") /\
  parse_error "(let ((ab.de 1)))" = Some (ParseErrors.FailedParsingRemainder ".de 1)))") /\
  parse_error "{id 1337)" = Some ParseErrors.ClosingTupleLiteralExpected /\
  parse_error "(13 37}" = Some ParseErrors.ClosingParenthesisExpected /\
  parse_error "{37}}" = Some ParseErrors.ClosingTupleLiteralUnexpected /\
  parse_error "(let ((a 1),(b 2)) b)" = Some ParseErrors.CommaSeparatorUnexpected /\
  parse_error "{ a, b }" = Some ParseErrors.CommaSeparatorUnexpected /\
  parse_error "{ a: b: }" = Some ParseErrors.ColonSeparatorUnexpected /\
  parse_error "{ a: b, :b a}" = Some ParseErrors.ColonSeparatorUnexpected /\
  parse_error "{,}" = Some ParseErrors.CommaSeparatorUnexpected /\
  parse_error "{:}" = Some ParseErrors.ColonSeparatorUnexpected /\
  parse_error "(and 'true 'false)" = Some (ParseErrors.FailedParsingRemainder "'true 'false)").
Proof. vm_compute. repeat split. Qed.


(** * Contracts *)

Definition here : QualifiedContractIdentifier := mkContractId (mkStandard 1 (replicate 20 0)) "here".
Definition builds (s : string) : ParseResult ContractAST := (build_ast here s tt).2.
(** The expressions of a text, numbered. *)
Definition labelled_text (s : string) : list PreSymbolicExpression :=
  match (l ← parse_text s; update_expression_id l) with Ok l => l | _ => [] end.
Definition ast_of (s : string) : ContractAST :=
  ast_set_pre_expressions (ContractAST_new here (labelled_text s)) (labelled_text s).

(** A function that uses a constant defined after it, and two functions that call
    each other. *)
Definition forward_text : string := "(define-private (f (x int)) (+ x one)) (define-constant one 1)".
Definition cycle_text : string := "(define-private (f) (g)) (define-private (g) (f)) (define-private (h) (f))".
Example forward_sorted : (a ← builds forward_text; Ok (ast_top_level_expression_sorting a)) = Ok (Some [1; 0]%nat).
Proof. vm_compute. reflexivity. Qed.
(** The function [h] is on no cycle but is reported with those that are. *)
Example cycle_reported : builds cycle_text = parse_err (ParseErrors.CircularReference ["h"; "g"; "f"]).
Proof. vm_compute. reflexivity. Qed.

Definition forward : ContractAST := Eval vm_compute in ast_of forward_text.
Lemma sorter_decides_witness :
  dependency_graph (ast_pre_expressions forward) = Ok [[1%nat]; []] /\
  ((acyclic [[1%nat]; []] /\ exists sorted,
      DefinitionSorter_run forward tt = (tt, Ok (ast_set_sorting forward (Some sorted))) /\
      Permutation sorted (seq 0 (length (ast_pre_expressions forward))) /\ topological [[1%nat]; []] sorted) \/
   (~ acyclic [[1%nat]; []] /\ exists deps,
      DefinitionSorter_run forward tt =
        (tt, parse_err (ParseErrors.CircularReference (definition_names (ast_pre_expressions forward) deps))) /\
      NoDup deps /\ forall i, i ∈ deps <-> reaches_cycle [[1%nat]; []] i)).
Proof.
  split; [vm_compute; reflexivity|].
  apply (sorter_decides forward tt [[1%nat]; []] 1 tt); vm_compute; reflexivity.
Defined.

(** The atom [one] of the function is mentioned with its identifier 11. *)
Lemma definitions_come_first_witness : exists sorted,
  ast_top_level_expression_sorting (ast_set_sorting forward (Some [1; 0]%nat)) = Some sorted /\ before sorted 1%nat 0%nat.
Proof.
  eapply (definitions_come_first forward tt tt _ 0%nat _ "one" 11 1%nat _ 14).
  - vm_compute. reflexivity.
  - reflexivity.
  - eapply mentions_body; [reflexivity|reflexivity|]. eapply mentions_apply; [reflexivity|right; right; left|by apply mentions_atom].
  - reflexivity.
  - vm_compute. reflexivity.
  - done.
  - intros k d' aid' x' Hk Hd. cbn in Hd. do 2 (destruct k as [|k]; [lia|]). done.
Defined.

(** * Traits *)

Definition traits_text : string := "(use-trait token .tokens.token) (define-public (pay (t <token>)) (ok 1)) (define-map m ((a int)) ((b int)))".
Definition with_traits : ContractAST := Eval vm_compute in ast_of traits_text.
Definition resolved_traits : ContractAST := Eval vm_compute in match TraitsResolver_run with_traits with Ok a => a | _ => with_traits end.
Lemma traits_resolved_witness :
  length (ast_pre_expressions with_traits) = 3%nat /\ same_but_traits with_traits resolved_traits /\
  forall e, e ∈ ast_pre_expressions with_traits ->
    (forall n, refers e n -> is_Some (ast_referenced_traits resolved_traits !! n)) /\ (forall n, ~ stores e n) /\
    forall n d, declares (ast_contract_identifier with_traits) e n d -> ast_referenced_traits resolved_traits !! n = Some d.
Proof.
  split; [reflexivity|]. apply (traits_resolved with_traits resolved_traits). vm_compute. reflexivity.
Defined.

(** A trait that is named inside a tuple literal is not seen: the map would store
    references to it.  One that is not declared passes the resolver in a function, and
    is left to the expander. *)
Example stored_trait_accepted :
  is_ok (builds "(use-trait token .tokens.token) (define-map m { a: <token> } { b: int })") = true /\
  builds "(use-trait token .tokens.token) (define-map m (tuple (a <token>)) (tuple (b int)))" =
    parse_err ParseErrors.TraitReferenceNotAllowed /\
  is_ok (TraitsResolver_run (ast_of "(define-private (f) { a: <ghost> })")) = true /\
  is_ok (TraitsResolver_run (ast_of "(define-private (f) (list <ghost>))")) = false /\
  is_ok (builds "(define-private (f) { a: <ghost> })") = false.
Proof. split_and!; vm_compute; reflexivity. Qed.

(** * The tree *)

Definition forward_tree : ContractAST := Eval vm_compute in match builds forward_text with Ok a => a | _ => forward end.
Lemma build_ast_result_witness :
  exists pre labelled g sorted,
    parse (string_bytes forward_text) = Ok pre /\ update_expression_id pre = Ok labelled /\
    dependency_graph labelled = Ok g /\ Permutation sorted (seq 0 (length pre)) /\ topological g sorted /\
    mapMR (transform_expression (issuer here) (ast_referenced_traits forward_tree)) (omap (fun i => pre !! i) sorted) =
      Ok (erase_ids <$> ast_expressions forward_tree) /\
    exists k, flat_map expr_ids (ast_expressions forward_tree) = seqZ 1 k.
Proof. apply (build_ast_result here forward_text tt tt forward_tree). vm_compute. reflexivity. Defined.

(** A map without a name and types. *)
Lemma build_ast_panics_witness : exists pre e,
  parse (string_bytes "(define-map)") = Ok pre /\ e ∈ pre /\ bare_data_definition e = true.
Proof. apply (build_ast_panics here "(define-map)" LimitedCostTracker_new_max_limit). vm_compute. reflexivity. Defined.

(** A function that is called in a tuple literal is not seen: the constant comes
    before the function that it calls. *)
Example called_before_defined :
  (a ← builds "(define-constant c { a: (f 1) }) (define-private (f (x int)) x)"; Ok (ast_top_level_expression_sorting a)) =
    Ok (Some [0; 1]%nat) /\
  (a ← builds "(define-constant c (f 1)) (define-private (f (x int)) x)"; Ok (ast_top_level_expression_sorting a)) =
    Ok (Some [1; 0]%nat).
Proof. split; vm_compute; reflexivity. Qed.
Lemma tuple_values_unseen_witness :
  probe_for_dependencies ∅ 0%nat
    (PreTuple fresh_label [PreAtom fresh_label "a"; PreList fresh_label [PreAtom fresh_label "f"; PreAtomValue fresh_label (VInt 1)]])
    [[]; []] = Ok [[]; []].
Proof.
  apply (tuple_values_unseen ∅ 0%nat fresh_label). repeat constructor. cbn. intros b x y H.
  repeat (apply elem_of_cons in H as [H|H]; [done|]). by apply elem_of_nil in H.
Defined.

(** Lines and strings of the lexer: a run of line breaks counts as one line, and a
    string that ends in an escaped backslash swallows the start of the next one. *)
Example blank_lines_count_once :
  (l ← parse (string_bytes "a" ++ [10; 10; 10] ++ string_bytes "b"); Ok (map (fun e => start_line (label_span (pre_label e))) l))
  = Ok [1; 2].
Proof. vm_compute. reflexivity. Qed.
Example escaped_backslash : lex [34; 92; 92; 34] = Ok [(LexItem.LiteralValue 2 (VBuffer [92]), 1, 1)] /\
  lex [34; 92; 92; 34; 32; 34; 97; 34] = parse_err (ParseErrors.SeparatorExpected "a").
Proof. split; vm_compute; reflexivity. Qed.

(** An empty buffer is printed as a text that the lexer does not read, and a name
    that is spelled like an integer as one that it reads as the integer. *)
Example unread_displays :
  display_expression (LiteralValue 0 (VBuffer [])) = Ok (string_bytes "0x") /\
  match lex (string_bytes "0x") with Err _ => true | _ => false end = true /\
  display_expression (Atom 0 "u7") = Ok (string_bytes "u7") /\
  lex (string_bytes "u7") = Ok [(LexItem.LiteralValue 1 (VUInt 7), 1, 1)].
Proof. split_and!; vm_compute; reflexivity. Qed.

(** [(+ -5 u7 (f))]: what the printer writes is read again. *)
Definition printed_sum : SymbolicExpression :=
  SList 0 [Atom 0 "+"; LiteralValue 0 (VInt (-5)); LiteralValue 0 (VUInt 7); SList 0 [Atom 0 "f"]].
Definition printed_text : list Z := Eval vm_compute in match display_expression printed_sum with Ok s => s | _ => [] end.
